(* ===== verification/_CoqProject ===== *)
-Q . S2P
Prelude.v
PyFloat.v
PyValue.v
Json.v
Pacing.v
HecClient.v
SockServer.v
ControlClient.v
MetricEngine.v
Apportion.v
PackYaml.v
Formats.v
Rotation.v
Pseudonym.v
Residuals.v
Timestamps.v
ConfRewrite.v
Shaping.v
Lint.v
Packs.v
Git.v
GitSync.v
Merge.v
Sharding.v
Driver.v
Model.v
Shares.v
Session.v
Protocol.v
Operators.v
Provision.v
Ceilings.v
Gate.v
Scenario.v
AgentConfig.v
RawReplay.v
K8s.v
Swarm.v
InProcess.v
Upload.v
Export.v
Supervisor.v
Invariants.v
Soundness.v
Updates.v
Launch.v
Admission.v
Trace.v
Release.v
Heartbeat.v
Completion.v
Supervision.v
Boot.v
Scaling.v
RunApi.v
Slice.v
Routes.v
Auth.v
Accounts.v
ConfigIo.v
ConfigSource.v
Retention.v
Agent.v
Fencing.v
