(* ===== verification/Prelude.v ===== *)
(** * Stoker's control plane and worker, verified

    Stoker is a distributed load generator for Splunk.  A control plane
    (src/server) turns a spec into a run, asks a driver for a fleet of workers,
    and hands each worker a lease on a slot with its share of the run's rate.
    Workers (src/worker/stoker_agent) claim a lease, report ready, are released
    together at T0, heartbeat while they generate, and send a final report.  A
    supervisor ticks every two seconds: it loses silent leases, forces late
    releases, ends runs at their duration, aborts and throttles runs whose fleet
    or target fails, and finishes drains.  At boot the control plane adopts or
    fails the runs it finds and destroys stray fleets.  In a worker, an engine
    process writes events to a socket; a reader paces them through a token
    bucket and queues them for the HEC client, whose threads deliver them in
    batches; the agent's loop rewrites the pack's conf for its share, watches
    the engine, heartbeats, obeys the commands it is answered, holds its output
    when the control plane is silent, and drains.  Packs of samples come from git
    repositories, are linted, merged and bundled for the workers, and pseudonymised
    when they are built from recordings; operators log in, launch and steer runs over
    an API, and move an instance's configuration as a document.  This library
    models that core as executable definitions and proves the properties that make
    it correct.

    ** Files, and the code they model

    Foundations.
    - [Prelude]: results, the effect monad [M] (state that survives a raise),
      its [transits] and [returns] logics, their tactics, list lemmas.
    - [PyFloat]: floats as rationals under an abstract rounding ([Rounding]);
      [binary64] and [exact] are instances.
    - [PyValue]: the JSON scalars and Python operators on them; [_coerce_int]
      and [_coerce_float] of server/lifecycle.py.
    - [Json]: JSON documents and the operations on them both sides use.

    Components of the control plane (one definition per function of the
    source, same names).
    - [Apportion]: server/engines/apportion.py.
    - [Driver]: server/drivers/base.py as the class [Driver] with the laws
      [DriverLaws]; server/drivers/fake.py as its instance.
    - [Model]: server/models.py rows as records, the state and lease enums and
      the timing constants of server/lifecycle.py, the [world] a handler sees
      (clock, one run with its rows, targets, drivers, token supply), and the
      class [Env] of everything from outside the repository.
    - [Shares], [Session]: the pure and session-level helpers of
      server/lifecycle.py (shares, events, transitions, leases, drivers,
      totals).
    - [Protocol]: claim, ready, heartbeat, final, release, completion.
    - [Operators]: stop, pause, resume, scale, rescale.
    - [Provision]: backfill planning, snapshots, [provision_run].
    - [Ceilings]: server/engines/ceilings.py and the ceiling step of the launch
      gate (server/routes/api.py).
    - [Supervisor]: one run's share of a tick, step by step.
    - [Boot]: the estate of several runs, [supervisor_tick], the reap of ended
      fleets, [reconcile_on_boot] and the stray sweep, with the commits of other
      sessions in between.
    - [Slice]: [build_slice] and the worker's [SpecSlice.from_claim]
      (worker/stoker_agent/slice.py), with the response model in between.
    - [Routes]: server/routes/agent.py: bearer check, the four routes, commit
      and rollback.
    - [Sharding]: server/engines/sharding.py, the launch-time prediction of the
      slots that get no work.
    - [Gate], [Admission], [RunApi]: server/routes/api.py, the launch of a spec
      with every check of its route, what it leaves behind, and the requests to
      stop, pause, resume, scale and rescale a run.
    - [Auth], [Accounts]: server/auth.py and its routes: credentials, sessions,
      trusted peers, the guards of a request, users and tokens.
    - [Retention]: the metric tables' roll-up and pruning.
    - [ConfigIo], [ConfigSource]: server/configio.py and server/configsource.py, the
      document an instance's configuration is exported to, imported from, pulled
      and pushed as.
    - [K8s], [Swarm], [InProcess]: the three deployment drivers of
      server/drivers, on the classes [Cluster] and [Portainer] of what their
      servers answer.
    - [Scenario]: a concrete environment and run; the other files extend it to
      a running, draining, lost or scaled run for their witnesses.

    Packs (shared by both sides).
    - [PackYaml], [Packs], [Merge]: server/bundles.py, server/packrename.py and
      worker/stoker_agent/bundle.py: pack.yaml and its rename, the lints, the
      manifest and what the worker reads of it, the merge of several packs.
    - [Lint]: the lint of a metrics config, with the values the engine computes.
    - [Git], [GitSync]: server/gitsync/sync.py: references, the git commands,
      scrubbing, archives; indexing a clone and synchronising a repository.
    - [Upload], [Export]: server/packupload.py and server/packexport.py on a file
      system of paths: the capped extraction of an archive, where its pack goes,
      and the archive a pack leaves in.
    - [Formats], [Rotation], [Pseudonym], [Residuals]:
      server/packbuilder/pseudonym.py: formats of identifiers, stand-ins and
      their rotation, the rewrite of a sample, and the scan for what survived it.

    Components of the worker (src/worker/stoker_agent).
    - [AgentConfig]: config.py, the environment a worker is started with, against
      the environment the control plane projects.
    - [Timestamps], [RawReplay]: worker/engines/rawreplay, the timestamps of
      recorded lines and the replay of a dataset.
    - [Pacing]: pacing.py, the token bucket; blocking calls are loops over
      wake-ups, threads are interleavings of locked sections.
    - [HecClient]: hec_client.py; queue, producers and senders are the step
      relation [hstep], one batch's attempts are [send_batch].
    - [SockServer]: sockserver.py, the reader of one connection, over the class
      [Pipe] of what it needs from the bucket and the client; [bucket_pipe] is
      their instance.
    - [ControlClient]: control.py, retries, the final report and the fencing
      clock.
    - [ConfRewrite], [Shaping]: confrewrite.py and shaping.py on parsed confs.
    - [MetricEngine]: the series matrix, its shards, the backfill loop and the
      sample values of worker/engines/metrics, with the counts the control plane
      (server/bundles.py) and the agent make of the same matrix.
    - [Agent]: agent.py, the release wait, the loop, the commands, the watchdog
      and the drain.

    ** What the theorems show

    - [Invariants], [Soundness], [Launch], [Trace]: the well-formedness [Inv] of
      a run and its leases, the moves of the run state machine with the reasons
      they record ([edge]), and the relation [evolves] (every state entry of the
      audit trail is one such move, T0 and the end instant are set once, the
      trail only grows); every handler respects both ([sound]), launching
      establishes [Inv], and [Trace] lifts it to every interleaving of actions:
      reachable states are well formed, the trail between them is a walk of the
      machine, and terminal runs stay as they are.
    - [Fencing]: when a claim is served and what it issues; a worker whose lease
      was re-issued is superseded for ever and cannot change anything.
    - [Release]: the last ready worker releases the fleet; a partial release
      conserves the rate; a strict one fails.
    - [Heartbeat]: [record_heartbeat] against the documented command precedence,
      with the one case in which it differs (a worker that joins a paused run);
      commands are told once; finals are folded once.
    - [Completion], [Supervision]: which end a run gets, forced stops, the
      lapse, duration, auto-abort and backpressure policies, and that a drain
      finishes once its fleet's driver is built.
    - [Scaling]: scale and rescale conserve the rate, and scaled-out workers are
      superseded.
    - [Apportion]: the largest-remainder split is exact and fair, and the float
      split sums to the rate within four unit roundoffs.
    - [Boot]: a tick keeps every run of the estate well formed; boot adopts or
      fails; the sweep spares live runs, also those launched meanwhile.
    - [Slice], [Routes]: the worker reads what the control plane meant; requests
      without a valid token change nothing.
    - [Ceilings]: which bound is in force, that the check of a share is exact,
      and when the fleet size it suggests is the right one.
    - [Pacing]: no interleaving runs ahead of the integral of the rate,
      catch-up is bounded, all quota is accounted for, blocking calls return; in
      exact arithmetic, and per operation under any rounding.
    - [HecClient]: a batch is resolved exactly once; in every interleaving what
      was queued is delivered, counted as lost, queued or in flight; the queue is
      bounded.
    - [SockServer]: what is forwarded depends on the bytes and not on how the
      socket cut them.
    - [ControlClient]: the fence measures contact with the control plane; calls
      return within the dead-man window, the final report near its deadline.
    - [ConfRewrite], [Shaping], [MetricEngine], [Sharding]: the agent owns every
      output, replay stanzas are left alone, the fleet's counts add up, shaped
      rates average to the share, the fleet's shards partition the series, and
      the control plane's predictions are what the workers then do.
    - [Agent]: output is held exactly while it must be (for a worker not fenced at
      T0), nothing flows before T0, a stalled engine ends, a retarget is seamless, the drain fits its budget.
    - [Gate], [Admission], [RunApi]: an admitted fleet has work on every slot, a
      launch leaves a run, a failed run or nothing, a request the run's state does not
      allow is refused and changes nothing, a served one has done what it says, and a
      resized run is within its ceilings.
    - [Auth], [Accounts]: a guarded request was entitled; an instance never loses
      its last administrator while requests are served one at a time; a revoked
      token is dead.
    - [Retention]: maintenance ends and keeps the counters it may not lose.
    - [ConfigIo], [ConfigSource]: an instance restored from its document agrees with
      it, but for merged specs; imports are idempotent where names are unique.
    - [AgentConfig], [K8s], [Swarm], [InProcess]: what a driver starts accepts what
      the control plane projects and reads the launch back from it; a failed create
      leaves no secret; a scale posts the service's own specification.
    - [PackYaml], [Packs], [Merge], [Lint]: the two parsers agree, a replay is
      delivered as declared where its bundle has a conf, merging keeps stanzas apart
      and moves their file references with the files, a linted config does not go
      wrong in the engine under the conditions the lint leaves open ([objects],
      [string_values]).
    - [Git], [GitSync]: nothing supplied is read as a git option, extracted members
      stay below their directory, quoting reads back; a sync reports what it did and
      passes only what the policy allows.
    - [Upload], [Export]: an extraction stays in its directory and its caps, an
      upload leaves a pack or nothing, and an exported pack arrives whole.
    - [Formats] to [Residuals]: rendering is injective, stand-ins merge no two values,
      no value long enough to matter survives a build that is let through, where the
      values cannot overlap.
    - [Timestamps], [RawReplay]: the calendar counts seconds, an ISO instant is read,
      rate mode sends the lines in order, cadence mode keeps the timeline, line by
      line and sleep by sleep.
    - Some theorems record where the code does not do what its documents say:
      [heartbeat_drops_paused_s], [force_stop_counts_lost_slot_twice],
      [empty_bounded_run_keeps_reason], [suggestion_ignores_fleet],
      [batches_starve_below_one_event], [unterminated_data_bound],
      [final_near_deadline], [eps_supply_short], [fence_lost_at_t0],
      [paused_time_is_lost], [switched_off_stanza_counted],
      [split_bucket_skews_mean], [default_maximum_scaled_twice],
      [scale_list_passes_lint], [duplicate_name_keeps_old],
      [conf_free_bundle_refused], [gate_estimate_ignores_globals],
      [root_sample_cannot_merge], [negative_cap_passes_gate],
      [backfill_ignores_target_cap], [rescale_ignores_target_cap],
      [scale_ignores_replay_stanza], [guid_loses_bits],
      [permute_merges_counters], [concurrent_demotions_lock_out],
      [deleted_session_revives], [merged_packs_travel_by_id],
      [shared_name_not_idempotent], [spec_without_pack_fails],
      [leap_second_raises], [leap_second_ends_replay],
      [unparsed_line_adds_gap], [second_at_sign_leaks], [newline_ref_passes],
      [root_path_misread], [second_sync_doubles_root], [second_sync_verifies],
      [broken_pack_stops_sync], [colliding_members_raise],
      [names_and_roots_lost], [exported_name_cut],
      [unbuildable_fleet_keeps_draining], [narrow_hump_overflows],
      [process_bundle_reaches_worker] and [overlapping_original_missed].

    [Updates] holds the closed forms of the loops over leases.

    ** How the model relates to the code

    - Effects.  A handler is a function of type [M world A]: the state after it
      and its value or exception; mutations made before a raise are kept, and
      the caller's commit or rollback is written out ([Trace.commit],
      [Routes.serve], [RunApi.handle_request]).  Loops are recursion on lists; the loops that wait or
      retry take fuel, and theorems say how much is enough: passes of a blocking
      take ([blocking_calls_return]), attempts of a call
      ([backoff_call_returns]), ticks of a backfill ([backfill_walks_window]),
      one round of a sweep per character and one more ([no_residual_left]), rounds
      of a prune ([maintenance_keeps_counters]), one pass of a rate replay more than
      the socket takes writes ([rate_replays_in_order]), one number more than there
      are paths ([unique_dir_found]); a log stream is cut with its number of bytes.
      The agent's loop runs over the observations it meets ([observation]: what
      the clocks, the socket, the engine and the transport show one pass).
    - Time.  Instants and durations are integers in microseconds; one handler
      runs at one instant; seconds obtained from two instants are exact.  The
      JWT refresh threshold (a fifth of the lifetime) is exact.
    - Floats are finite rationals; every operation is rounded by the [Rounding]
      of the environment, and overflow is modelled where the metrics engine can
      raise it.  A sum of unit weights is the same under plain and
      compensated summation.
    - Rows are lists in the order of their query: leases by slot, events and
      samples by insertion.  Slots are natural numbers.  Strings are ASCII.
      Nested event details are flattened to their leaves; log lines, formatted
      parts of messages and the telemetry event sent on a transition are left
      out.
    - What is outside the repository is a parameter with the documented
      behaviour it is used for: random tokens do not repeat ([Env]), a driver
      object obeys [DriverLaws], a response model keeps the fields it and its nested
      models declare ([ResponseModel]), a JWT library decodes tokens ([JwtLibrary]), sealed texts
      open under their key ([Crypto], [CryptoLaws]), a cluster's calls touch what
      they name ([Cluster], [ClusterLaws]); git and directories ([Git], [Trees]) and
      Portainer ([Portainer]) may answer anything.
    - The bundle and the pack's series count are inputs of [provision_run]: they
      are computed from files.
    - Autoflush is off in the database session: which of a tick's own writes
      the reap query sees is the argument [flushed].

    ** Not modelled

    The settings of the control plane and its storage with the migrations
    (server/config.py, and server/db.py but for a request's session: one reader per
    variable, and SQL), most failures of the file system outside uploads and exports, most request
    and response schemas (field declarations), the pack builder apart from
    pseudonymisation (recording sources and their protocols), downloads, mirrors
    and previews of packs, the agent's preparation (download, engine commands), the socket's accept loop and the worker processes of the in-tree
    drivers, the activity patterns of the metrics engine (transcendental functions),
    the vendored eventgen, the user interface and the deployment files. *)

From stdpp Require Export base tactics list option strings pretty gmap sorting.
From Stdlib Require Export ZArith Lia.

(** ** Results: Python code that may raise *)

(** The exceptions the modelled functions raise.  Messages are kept where a
    client can see them (the HTTP detail); formatted values are dropped. *)
Inductive exn : Type :=
  | ValueError (msg : string)
  | TypeError
  | HTTPException (status : Z) (detail : string)
  | DriverError (msg : string)
  | NotImplementedError
  | AttributeError
  | SliceError (msg : string)
  | ConfRewriteError (msg : string)
  | EngineError (msg : string)
  | BundleError (msg : string)
  | SupersededError
  | OverflowError
  | IntegrityError
  | ConfigError (variable : string)
  | RawReplayError (variable : string)
  | GitSyncError (msg : string)
  | PackUploadError (msg : string)
  | ArchiveError
  | OSError.

Inductive result (A : Type) : Type :=
  | Ok (a : A)
  | Raise (e : exn).
Arguments Ok {A} _.
Arguments Raise {A} _.

Global Instance result_ret : MRet result := fun A => @Ok A.
Global Instance result_bind : MBind result := fun A B f m =>
  match m with Ok a => f a | Raise e => Raise e end.

(** [[x for x in xs if p(x)]] where the predicate may raise. *)
Fixpoint filter_result {A} (p : A -> result bool) (xs : list A) : result (list A) :=
  match xs with
  | [] => Ok []
  | x :: xs =>
      match p x with
      | Ok b => match filter_result p xs with
                | Ok ys => Ok (if b then x :: ys else ys)
                | Raise e => Raise e
                end
      | Raise e => Raise e
      end
  end.

(** [for x in xs: s = f(x, s)] where the body may raise. *)
Fixpoint fold_result {A S} (f : A -> S -> result S) (xs : list A) (s : S) : result S :=
  match xs with
  | [] => Ok s
  | x :: xs => match f x s with Ok s => fold_result f xs s | Raise e => Raise e end
  end.

(** [str(exc)] *)
Definition str_exn (e : exn) : string :=
  match e with
  | ValueError m => m
  | TypeError => "type error"
  | HTTPException _ d => d
  | DriverError m => m
  | NotImplementedError => "not implemented"
  | AttributeError => "no such attribute"
  | SliceError m => m
  | ConfRewriteError m => m
  | EngineError m => m
  | BundleError m => m
  | SupersededError => "superseded"
  | OverflowError => "date value out of range"
  | IntegrityError => "UNIQUE constraint failed"
  | ConfigError v => v
  | RawReplayError v => v
  | GitSyncError m => m
  | PackUploadError m => m
  | ArchiveError => "unreadable archive"
  | OSError => "operating system error"
  end.

(** [type(exc).__name__] *)
Definition exn_type (e : exn) : string :=
  match e with
  | ValueError _ => "ValueError"
  | TypeError => "TypeError"
  | HTTPException _ _ => "HTTPException"
  | DriverError _ => "DriverError"
  | NotImplementedError => "NotImplementedError"
  | AttributeError => "AttributeError"
  | SliceError _ => "SliceError"
  | ConfRewriteError _ => "ConfRewriteError"
  | EngineError _ => "EngineError"
  | BundleError _ => "BundleError"
  | SupersededError => "SupersededError"
  | OverflowError => "OverflowError"
  | IntegrityError => "IntegrityError"
  | ConfigError _ => "ConfigError"
  | RawReplayError _ => "RawReplayError"
  | GitSyncError _ => "GitSyncError"
  | PackUploadError _ => "PackUploadError"
  | ArchiveError => "BadZipFile"
  | OSError => "OSError"
  end.

Definition is_ok {A} (r : result A) : bool := match r with Ok _ => true | Raise _ => false end.

(** ** Effects: state that survives a raise

    The control plane mutates session objects and then may raise; a caller that
    catches the exception sees the mutations made before it.  [M S A] is that
    effect: the state after the computation, and its result. *)

Definition M (S A : Type) : Type := S -> S * result A.

Declare Scope effect_scope.
Delimit Scope effect_scope with eff.

Section Effects.
Context {S : Type}.

Global Instance M_ret : MRet (M S) := fun A a s => (s, Ok a).
Global Instance M_bind : MBind (M S) := fun A B f m s =>
  match m s with (s', Ok a) => f a s' | (s', Raise e) => (s', Raise e) end.

Definition get : M S S := fun s => (s, Ok s).
Definition gets {A} (f : S -> A) : M S A := fun s => (s, Ok (f s)).
Definition modify (f : S -> S) : M S unit := fun s => (f s, Ok tt).
Definition raise {A} (e : exn) : M S A := fun s => (s, Raise e).
Definition lift {A} (r : result A) : M S A := fun s => (s, r).
Definition when (b : bool) (m : M S unit) : M S unit := if b then m else mret tt.

(** [try: m except Exception as exc: h exc] *)
Definition catch {A} (m : M S A) (h : exn -> M S A) : M S A := fun s =>
  match m s with (s', Raise e) => h e s' | r => r end.

(** [for x in xs: f x] *)
Fixpoint for_each {A} (xs : list A) (f : A -> M S unit) : M S unit :=
  match xs with
  | [] => mret tt
  | x :: xs => f x ≫= fun _ => for_each xs f
  end.

(** [transits R m s]: running [m] in state [s] takes [s] to an [R]-related
    state, whether [m] returns or raises.  With [R] a preorder the rules below
    follow the structure of [m]; an invariant [I] is the preorder
    [fun s s' => I s -> I s'] ([preserving]). *)
Definition transits (R : S -> S -> Prop) {A} (m : M S A) (s : S) : Prop := R s (fst (m s)).

Definition preserving (I : S -> Prop) (s s' : S) : Prop := I s -> I s'.

Global Instance preserving_preorder I : PreOrder (preserving I).
Proof. split; unfold preserving; repeat intro; auto. Qed.

Section Rules.
Context (R : S -> S -> Prop) `{!PreOrder R}.

Lemma transits_ret {A} (a : A) s : transits R (mret a) s.
Proof. unfold transits. reflexivity. Qed.

Lemma transits_raise {A} e s : transits R (@raise A e) s.
Proof. unfold transits. reflexivity. Qed.

Lemma transits_lift {A} (r : result A) s : transits R (lift r) s.
Proof. unfold transits. reflexivity. Qed.

Lemma transits_bind {A B} (m : M S A) (k : A -> M S B) s :
  transits R m s -> (forall a s', m s = (s', Ok a) -> transits R (k a) s') ->
  transits R (m ≫= k) s.
Proof.
  unfold transits, mbind, M_bind. intros Hm Hk.
  destruct (m s) as [s' [a|e]] eqn:E; cbn in *; [|done].
  etrans; [exact Hm|]. by apply Hk.
Qed.

Lemma transits_get {B} (k : S -> M S B) s : transits R (k s) s -> transits R (get ≫= k) s.
Proof. done. Qed.

Lemma transits_gets {A B} (f : S -> A) (k : A -> M S B) s :
  transits R (k (f s)) s -> transits R (gets f ≫= k) s.
Proof. done. Qed.

Lemma transits_modify {B} (f : S -> S) (k : unit -> M S B) s :
  R s (f s) -> transits R (k tt) (f s) -> transits R (modify f ≫= k) s.
Proof. unfold transits. cbn. intros H1 H2. by etrans. Qed.

(** Two assignments in a row, judged together. *)
Lemma transits_modify2 {B} (f g : S -> S) (k : unit -> M S B) s :
  R s (g (f s)) -> transits R (k tt) (g (f s)) ->
  transits R (modify f ≫= fun _ => modify g ≫= k) s.
Proof. unfold transits. cbn. intros H1 H2. by etrans. Qed.

(** A computation with a known outcome, judged together with the assignment
    after it. *)
Lemma transits_then_modify {A B} (m : M S A) (g : S -> S) (k : unit -> M S B) s s1 a :
  m s = (s1, Ok a) -> R s (g s1) -> transits R (k tt) (g s1) ->
  transits R (m ≫= fun _ => modify g ≫= k) s.
Proof. unfold transits. unfold mbind, M_bind. intros E H1 H2. rewrite E. by etrans. Qed.

Lemma transits_modify_last (f : S -> S) s : R s (f s) -> transits R (modify f) s.
Proof. done. Qed.

Lemma transits_when b m s : (b = true -> transits R m s) -> transits R (when b m) s.
Proof. destruct b; cbn; [auto|]. intros _. apply transits_ret. Qed.

Lemma transits_catch {A} (m : M S A) h s :
  transits R m s -> (forall e s', m s = (s', Raise e) -> transits R (h e) s') ->
  transits R (catch m h) s.
Proof.
  unfold transits, catch. intros Hm Hh.
  destruct (m s) as [s' [a|e]] eqn:E; cbn in *; [done|].
  etrans; [exact Hm|]. by apply Hh.
Qed.

Lemma transits_for_each {A} (xs : list A) (f : A -> M S unit) s :
  (forall x s', x ∈ xs -> transits R (f x) s') -> transits R (for_each xs f) s.
Proof.
  revert s. induction xs as [|x xs IH]; intros s Hf; cbn; [apply transits_ret|].
  apply transits_bind; [apply Hf; set_solver|]. intros _ s' _. apply IH. set_solver.
Qed.
End Rules.

(** ** Effects that return

    [returns R m s]: [m] run in [s] does not raise, and takes [s] to an
    [R]-related state. *)
Definition returns (R : S -> S -> Prop) {A} (m : M S A) (s : S) : Prop :=
  match m s with (s', Ok _) => R s s' | (_, Raise _) => False end.

Section Returns.
Context (R : S -> S -> Prop) `{!PreOrder R}.

Lemma returns_inv {A} (m : M S A) s : returns R m s -> exists s' a, m s = (s', Ok a) /\ R s s'.
Proof. unfold returns. destruct (m s) as [s' [a|e]]; [eauto|done]. Qed.

Lemma returns_ret {A} (a : A) s : returns R (mret a) s.
Proof. unfold returns. cbn. reflexivity. Qed.

Lemma returns_bind {A B} (m : M S A) (k : A -> M S B) s :
  returns R m s -> (forall a s', m s = (s', Ok a) -> R s s' -> returns R (k a) s') ->
  returns R (m ≫= k) s.
Proof.
  intros (s1 & a & E & HR)%returns_inv Hk. unfold returns, mbind, M_bind. rewrite E.
  specialize (Hk a s1 E HR). unfold returns in Hk.
  destruct (k a s1) as [s2 [b|e]]; [by etrans|done].
Qed.

Lemma returns_get {B} (k : S -> M S B) s : returns R (k s) s -> returns R (get ≫= k) s.
Proof. done. Qed.

Lemma returns_gets {A B} (f : S -> A) (k : A -> M S B) s :
  returns R (k (f s)) s -> returns R (gets f ≫= k) s.
Proof. done. Qed.

Lemma returns_modify {B} (f : S -> S) (k : unit -> M S B) s :
  R s (f s) -> returns R (k tt) (f s) -> returns R (modify f ≫= k) s.
Proof.
  intros H1 H2. apply returns_bind; [done|]. intros [] s' [= <-] _. done.
Qed.

Lemma returns_modify_last (f : S -> S) s : R s (f s) -> returns R (modify f) s.
Proof. done. Qed.

Lemma returns_when b m s : (b = true -> returns R m s) -> returns R (when b m) s.
Proof. destruct b; cbn; [auto|]. intros _. apply (returns_ret tt). Qed.

Lemma returns_catch {A} (m : M S A) h s :
  transits R m s -> (forall e s', m s = (s', Raise e) -> R s s' -> returns R (h e) s') ->
  returns R (catch m h) s.
Proof.
  unfold transits, returns, catch. intros Hm Hh.
  destruct (m s) as [s' [a|e]] eqn:E; cbn in *; [done|].
  specialize (Hh e s' eq_refl Hm). destruct (h e s') as [s2 [a|e2]]; [by etrans|done].
Qed.

Lemma returns_for_each {A} (xs : list A) (f : A -> M S unit) s :
  (forall x s', x ∈ xs -> R s s' -> returns R (f x) s') -> returns R (for_each xs f) s.
Proof.
  revert s. induction xs as [|x xs IH]; intros s Hf; cbn [for_each]; [apply (returns_ret tt)|].
  apply returns_bind; [apply Hf; [set_solver|reflexivity]|]. intros _ s' _ Hs'. apply IH.
  intros y s2 Hy Hs2. apply Hf; [set_solver|]. by etrans.
Qed.
End Returns.

(** ** Running an effect *)

Lemma run_ret {A B} (a : A) (k : A -> M S B) s : (mret a ≫= k) s = k a s.
Proof. done. Qed.
Lemma run_get {B} (k : S -> M S B) s : (get ≫= k) s = k s s.
Proof. done. Qed.
Lemma run_gets {A B} (f : S -> A) (k : A -> M S B) s : (gets f ≫= k) s = k (f s) s.
Proof. done. Qed.
Lemma run_modify {B} (f : S -> S) (k : unit -> M S B) s : (modify f ≫= k) s = k tt (f s).
Proof. done. Qed.
Lemma run_lift {A B} (a : A) (k : A -> M S B) s : (lift (Ok a) ≫= k) s = k a s.
Proof. done. Qed.
Lemma run_bind {A B} (m : M S A) (k : A -> M S B) s s' a :
  m s = (s', Ok a) -> (m ≫= k) s = k a s'.
Proof. unfold mbind, M_bind. by intros ->. Qed.
Lemma run_raise {A B} (m : M S A) (k : A -> M S B) s s' e :
  m s = (s', Raise e) -> (m ≫= k) s = (s', Raise e).
Proof. unfold mbind, M_bind. by intros ->. Qed.
Lemma run_when_true (m : M S unit) : when true m = m.
Proof. done. Qed.
Lemma run_when_false (m : M S unit) : when false m = mret tt.
Proof. done. Qed.
Lemma run_bind_assoc {A B C} (m : M S A) (f : A -> M S B) (k : B -> M S C) s :
  ((m ≫= f) ≫= k) s = (m ≫= fun a => f a ≫= k) s.
Proof. unfold mbind, M_bind. by destruct (m s) as [? [?|?]]. Qed.
End Effects.

Create Rewrite HintDb run.
#[export] Hint Rewrite @run_ret @run_get @run_gets @run_modify @run_lift @run_when_true
  @run_when_false @run_bind_assoc : run.
Ltac run := repeat (cbv beta iota zeta; autorewrite with run).

Arguments M _ _ : clear implicits.

(** [returns m s a s']: [m] run in [s] returns [a] in state [s']. *)
Notation "m @ s ⇓ a @ s'" := (m s = (s', Ok a))
  (at level 70, s at level 20, a at level 20, s' at level 20, no associativity) : effect_scope.
Notation "m @ s ⇑ e @ s'" := (m s = (s', Raise e))
  (at level 70, s at level 20, e at level 20, s' at level 20, no associativity) : effect_scope.

(** ** Automation *)

Create HintDb stoker.

(** Solve [R s s'] side goals for the preorders the components use, then walk
    the structure of an effectful definition. *)
Ltac transits_step :=
  lazymatch goal with
  | |- transits _ (mret _) _ => apply (transits_ret _)
  | |- transits _ (raise _) _ => apply (transits_raise _)
  | |- transits _ (lift _) _ => apply (transits_lift _)
  | |- transits _ (get ≫= _) _ => apply (transits_get _)
  | |- transits _ (gets _ ≫= _) _ => apply (transits_gets _)
  | |- transits _ (modify _ ≫= _) _ => apply (transits_modify _); [|cbv beta]
  | |- transits _ (modify _) _ => apply (transits_modify_last _)
  | |- transits _ (when _ _) _ => apply (transits_when _); intros ?
  | |- transits _ (catch _ _) _ => apply (transits_catch _); [|intros ? ? ?]
  | |- transits _ (for_each _ _) _ => apply (transits_for_each _); intros ? ? ?
  | |- transits _ (_ ≫= _) _ => apply (transits_bind _); [|intros ? ? ?]
  | |- transits _ (if ?b then _ else _) _ => destruct b eqn:?
  | |- transits _ (match ?x with _ => _ end) _ => destruct x eqn:?
  | |- transits _ (let _ := _ in _) _ => cbv zeta
  end.
Ltac transits := repeat (cbv beta; first [ solve [eauto with stoker] | transits_step | done ]).

Ltac returns_step :=
  lazymatch goal with
  | |- returns _ (mret _) _ => apply (returns_ret _)
  | |- returns _ (get ≫= _) _ => apply (returns_get _)
  | |- returns _ (gets _ ≫= _) _ => apply (returns_gets _)
  | |- returns _ (modify _ ≫= _) _ => apply (returns_modify _); [|cbv beta]
  | |- returns _ (modify _) _ => apply (returns_modify_last _)
  | |- returns _ (when _ _) _ => apply (returns_when _); intros ?
  | |- returns _ (catch _ _) _ => apply (returns_catch _); [|intros ? ? ? ?]
  | |- returns _ (for_each _ _) _ => apply (returns_for_each _); intros ? ? ? ?
  | |- returns _ (_ ≫= _) _ => apply (returns_bind _); [|intros ? ? ? ?]
  | |- returns _ (if ?b then _ else _) _ => destruct b eqn:?
  | |- returns _ (match ?x with _ => _ end) _ => destruct x eqn:?
  | |- returns _ (let _ := _ in _) _ => cbv zeta
  end.
Ltac returns := repeat (cbv beta; first [ solve [eauto with stoker] | returns_step | done ]).

(** ** Generic list lemmas *)

Lemma existsb_false {A} (f : A -> bool) l :
  existsb f l = false <-> forall x, x ∈ l -> f x = false.
Proof.
  induction l as [|a l IH]; cbn; [set_solver|].
  rewrite orb_false_iff, IH. set_solver.
Qed.

Lemma existsb_true {A} (f : A -> bool) l : existsb f l = true <-> exists x, x ∈ l /\ f x = true.
Proof.
  induction l as [|a l IH]; cbn; [set_solver|].
  rewrite orb_true_iff, IH. set_solver.
Qed.

Lemma elem_of_concat_fmap {A B} (f : A -> list B) l x : x ∈ concat (f <$> l) <-> exists a, a ∈ l /\ x ∈ f a.
Proof.
  rewrite list_elem_of_In, in_concat. split.
  - intros (y & (a & <- & Ha)%List.in_map_iff & Hx). exists a. by rewrite !list_elem_of_In.
  - intros (a & Ha%list_elem_of_In & Hx%list_elem_of_In). exists (f a). split; [by apply List.in_map|done].
Qed.
