(* ===== verification/PyFloat.v ===== *)
(** * Python floats as rationals with a rounding step

    A Python [float] is a binary64 number.  The library carries floats as
    rationals and makes the rounding of each arithmetic operation explicit:
    [fadd x y] is [rnd (x + y)].  [rnd] is a field of the class [Rounding],
    with two instances: [exact] (no rounding, for the statements about the
    idealised arithmetic) and [binary64] (round to nearest, ties to even, 53
    significant bits), which is what CPython computes.  Values are finite:
    overflow to an infinity, NaN, subnormals and the sign of zero are not
    modelled.  A statement quantified over [Rounding] holds of both. *)

From S2P Require Import Prelude.
From Stdlib Require Import QArith Qround Qabs Qpower Lqa.
Open Scope Q_scope.

(** ** Rounding to an integer, ties to even (Python's [round]) *)

Definition round_half_even (x : Q) : Z :=
  let f := Qfloor x in
  match Qcompare (x - inject_Z f) (1 # 2) with
  | Lt => f
  | Gt => (f + 1)%Z
  | Eq => if Z.even f then f else (f + 1)%Z
  end.

(** Python's [int(x)] and [math.ceil(x)] on a float. *)
Definition py_int (x : Q) : Z := if Qlt_le_dec x 0 then Qceiling x else Qfloor x.

Lemma Qfloor_spec x : inject_Z (Qfloor x) <= x < inject_Z (Qfloor x) + 1.
Proof.
  split; [apply Qfloor_le|]. pose proof (Qlt_floor x) as H.
  rewrite inject_Z_plus in H. exact H.
Qed.

Lemma inject_Z_le a b : inject_Z a <= inject_Z b <-> (a <= b)%Z.
Proof. rewrite Zle_Qle. tauto. Qed.

Lemma inject_Z_lt a b : inject_Z a < inject_Z b <-> (a < b)%Z.
Proof. rewrite Zlt_Qlt. tauto. Qed.

(** The integer strictly within one of a real point is bounded by it. *)
Lemma inject_Z_lt_succ a b : inject_Z a < inject_Z b + 1 -> (a <= b)%Z.
Proof.
  intros H. replace 1 with (inject_Z 1) in H by reflexivity.
  rewrite <- inject_Z_plus, inject_Z_lt in H. lia.
Qed.

Lemma round_half_even_err x :
  inject_Z (round_half_even x) - x <= 1 # 2 /\ x - inject_Z (round_half_even x) <= 1 # 2.
Proof.
  pose proof (Qfloor_spec x) as [H1 H2]. unfold round_half_even.
  destruct (Qcompare_spec (x - inject_Z (Qfloor x)) (1 # 2)) as [H|H|H];
    [destruct (Z.even _)| |];
    rewrite ?inject_Z_plus; change (inject_Z 1) with 1; split; lra.
Qed.

Lemma round_half_even_mono x y : x <= y -> (round_half_even x <= round_half_even y)%Z.
Proof.
  intros Hxy. pose proof (Qfloor_resp_le _ _ Hxy) as Hf.
  unfold round_half_even.
  destruct (Z.eq_dec (Qfloor x) (Qfloor y)) as [E|E].
  - rewrite E.
    destruct (Qcompare_spec (x - inject_Z (Qfloor y)) (1 # 2)),
      (Qcompare_spec (y - inject_Z (Qfloor y)) (1 # 2));
      try destruct (Z.even (Qfloor y)); try lia; exfalso; lra.
  - destruct (Qcompare _ _), (Qcompare _ _);
      try destruct (Z.even (Qfloor x)); try destruct (Z.even (Qfloor y)); lia.
Qed.

Lemma round_half_even_int z x : x == inject_Z z -> round_half_even x = z.
Proof.
  intros H. destruct (round_half_even_err x) as [H1 H2].
  assert (inject_Z (round_half_even x) < inject_Z z + 1) as Ha by lra.
  assert (inject_Z z < inject_Z (round_half_even x) + 1) as Hb by lra.
  apply inject_Z_lt_succ in Ha, Hb. lia.
Qed.

Global Instance round_half_even_proper : Proper (Qeq ==> eq) round_half_even.
Proof.
  intros x y E. apply Z.le_antisymm; apply round_half_even_mono; lra.
Qed.

(** ** The rounding interface *)

(** The unit roundoff of binary64. *)
Definition eps : Q := 1 # 9007199254740992. (* 2^-53 *)

Class Rounding : Type := {
  rnd : Q -> Q;
  rnd_proper :: Proper (Qeq ==> Qeq) rnd;
  rnd_mono x y : x <= y -> rnd x <= rnd y;
  rnd_int z : (Z.abs z <= 2 ^ 53)%Z -> rnd (inject_Z z) == inject_Z z;
  rnd_err x : Qabs (rnd x - x) <= eps * Qabs x;
}.

Section Ops.
Context {R : Rounding}.

Definition fadd (x y : Q) : Q := rnd (x + y).
Definition fsub (x y : Q) : Q := rnd (x - y).
Definition fmul (x y : Q) : Q := rnd (x * y).
Definition fdiv (x y : Q) : Q := rnd (x / y).

(** [sum(xs)] over floats, from the left (the worker's CPython 3.9; the
    server's CPython 3.12 compensates, which agrees on the integer-valued
    weights the server passes). *)
Definition fsum (xs : list Q) : Q := fold_left fadd xs 0.

Lemma rnd_bounds x : 0 <= x -> x * (1 - eps) <= rnd x <= x * (1 + eps).
Proof.
  intros Hx. pose proof (rnd_err x) as H.
  rewrite (Qabs_pos x Hx) in H. apply Qabs_Qle_condition in H. lra.
Qed.

Lemma rnd_0 : rnd 0 == 0.
Proof. apply (rnd_int 0). lia. Qed.

Lemma rnd_nonneg x : 0 <= x -> 0 <= rnd x.
Proof. intros H. rewrite <- rnd_0. by apply rnd_mono. Qed.

Lemma rnd_pos x : 0 < x -> 0 < rnd x.
Proof.
  intros H. pose proof (rnd_bounds x ltac:(lra)) as [H1 _].
  assert (0 < x * (1 - eps)); [|lra].
  unfold eps. apply Qmult_lt_0_compat; [done|reflexivity].
Qed.
End Ops.

(** ** Instances *)

Global Instance exact : Rounding.
Proof.
  refine {| rnd := fun x => x |}.
  - intros x y H. exact H.
  - reflexivity.
  - intros x. assert (x - x == 0) as -> by ring.
    change (Qabs 0) with 0. apply Qmult_le_0_compat; [done|apply Qabs_nonneg].
Defined.

(** Powers of two with integer exponents. *)
Definition pow2 (k : Z) : Q := Qpower 2 k.

Lemma pow2_pos k : 0 < pow2 k.
Proof. by apply Qpower_0_lt. Qed.

Lemma pow2_plus a b : pow2 (a + b) == pow2 a * pow2 b.
Proof. by apply Qpower_plus. Qed.

Lemma pow2_mono a b : (a <= b)%Z -> pow2 a <= pow2 b.
Proof. intros. by apply Qpower_le_compat_l. Qed.

Lemma pow2_lt_inv a b : pow2 a < pow2 b -> (a < b)%Z.
Proof.
  intros H. destruct (Z.lt_ge_cases a b) as [|Hge]; [done|].
  apply pow2_mono in Hge. lra.
Qed.

Lemma pow2_Z k : (0 <= k)%Z -> pow2 k == inject_Z (2 ^ k).
Proof. intros. symmetry. by apply Zpower_Qpower. Qed.

Lemma pow2_cancel k : pow2 (- k) * pow2 k == 1.
Proof. rewrite <- pow2_plus. by replace (- k + k)%Z with 0%Z by lia. Qed.

(** [floor_log2 x] is the binary exponent of a positive rational. *)
Definition floor_log2 (x : Q) : Z :=
  let e := (Z.log2 (Qnum x) - Z.log2 (Zpos (Qden x)))%Z in
  if Qle_bool (pow2 e) x then e else (e - 1)%Z.

Lemma Qlog2_bracket x (e := (Z.log2 (Qnum x) - Z.log2 (Zpos (Qden x)))%Z) :
  0 < x -> pow2 (e - 1) < x /\ x < pow2 (e + 1).
Proof.
  destruct x as [n d]. intros Hn.
  assert (0 < n)%Z as Hn' by (unfold Qlt in Hn; simpl in Hn; lia).
  pose proof (Z.log2_spec n Hn') as [Hn1 Hn2].
  pose proof (Z.log2_spec (Zpos d) ltac:(lia)) as [Hd1 Hd2].
  pose proof (Z.log2_nonneg n) as Ha. pose proof (Z.log2_nonneg (Zpos d)) as Hb.
  subst e; simpl in *.
  assert (n # d == inject_Z n / inject_Z (Zpos d)) as E by apply Qmake_Qdiv.
  set (a := Z.log2 n) in *. set (b := Z.log2 (Zpos d)) in *.
  apply inject_Z_le in Hn1, Hd1. apply inject_Z_lt in Hn2, Hd2.
  rewrite <- pow2_Z in Hn1, Hn2, Hd1, Hd2 by lia.
  assert (0 < inject_Z (Zpos d)) as Hdp by (apply (inject_Z_lt 0); lia).
  pose proof (pow2_pos (a - b - 1)). pose proof (pow2_pos (a - b + 1)).
  rewrite E. split.
  - apply Qlt_shift_div_l; [done|].
    apply Qlt_le_trans with (pow2 (a - b - 1) * pow2 (Z.succ b)).
    { by apply Qmult_lt_l. }
    rewrite <- pow2_plus. by replace (a - b - 1 + Z.succ b)%Z with a by lia.
  - apply Qlt_shift_div_r; [done|].
    apply Qlt_le_trans with (pow2 (Z.succ a)); [done|].
    replace (Z.succ a) with (a - b + 1 + b)%Z by lia.
    rewrite pow2_plus. apply Qmult_le_l; done.
Qed.

Lemma floor_log2_spec x :
  0 < x -> pow2 (floor_log2 x) <= x /\ x < pow2 (floor_log2 x + 1).
Proof.
  intros Hx. destruct (Qlog2_bracket x Hx) as [H1 H2]. unfold floor_log2.
  destruct (Qle_bool _ x) eqn:E.
  - apply Qle_bool_iff in E. done.
  - split; [lra|].
    assert (~ pow2 (Z.log2 (Qnum x) - Z.log2 (Zpos (Qden x))) <= x) as E'.
    { intros Hle. apply Qle_bool_iff in Hle. congruence. }
    rewrite Z.sub_add. lra.
Qed.

(** Round a positive rational to 53 significant bits, ties to even. *)
Definition round_pos (x : Q) : Q :=
  let k := (floor_log2 x - 52)%Z in
  inject_Z (round_half_even (x * pow2 (- k))) * pow2 k.

Definition round64 (x : Q) : Q :=
  let x := Qred x in
  match Qcompare x 0 with
  | Eq => 0
  | Gt => round_pos x
  | Lt => - round_pos (- x)
  end.

Lemma scaled_bracket x (k := (floor_log2 x - 52)%Z) :
  0 < x -> pow2 52 <= x * pow2 (- k) /\ x * pow2 (- k) < pow2 53.
Proof.
  intros Hx. destruct (floor_log2_spec x Hx) as [H1 H2].
  pose proof (pow2_pos (- k)) as Hk. split.
  - apply Qle_trans with (pow2 (floor_log2 x) * pow2 (- k)).
    + rewrite <- pow2_plus. apply pow2_mono. lia.
    + by apply Qmult_le_compat_r; [|lra].
  - apply Qlt_le_trans with (pow2 (floor_log2 x + 1) * pow2 (- k)).
    + by apply Qmult_lt_r.
    + rewrite <- pow2_plus. apply pow2_mono. lia.
Qed.

Lemma unscale x k : x == x * pow2 (- k) * pow2 k.
Proof. rewrite <- Qmult_assoc, pow2_cancel. ring. Qed.

Lemma round_pos_err x :
  0 < x -> - (eps * x) <= round_pos x - x /\ round_pos x - x <= eps * x.
Proof.
  intros Hx. unfold round_pos.
  set (k := (floor_log2 x - 52)%Z). set (y := x * pow2 (- k)).
  destruct (round_half_even_err y) as [H1 H2].
  destruct (scaled_bracket x Hx) as [H3 _]. fold k y in H3.
  assert (x == y * pow2 k) as E by apply unscale.
  pose proof (pow2_pos k) as Hk.
  assert (eps * y >= 1 # 2) as Hy.
  { apply Qle_trans with (eps * pow2 52); [done|].
    by apply Qmult_le_l; [|]. }
  set (m := inject_Z (round_half_even y)) in *.
  assert (m * pow2 k - x == (m - y) * pow2 k) as -> by (rewrite E; ring).
  assert (eps * x == eps * y * pow2 k) as -> by (rewrite E; ring).
  split.
  - assert (- (eps * y * pow2 k) == - (eps * y) * pow2 k) as -> by ring.
    apply Qmult_le_compat_r; lra.
  - apply Qmult_le_compat_r; lra.
Qed.

Lemma round_pos_nonneg x : 0 < x -> 0 < round_pos x.
Proof.
  intros Hx. destruct (round_pos_err x Hx) as [H _].
  assert (eps * x < 1 * x); [by apply Qmult_lt_r|lra].
Qed.

Lemma round_pos_mono x y : 0 < x -> x <= y -> round_pos x <= round_pos y.
Proof.
  intros Hx Hxy. assert (0 < y) as Hy by lra.
  destruct (floor_log2_spec x Hx) as [Hx1 Hx2].
  destruct (floor_log2_spec y Hy) as [Hy1 Hy2].
  assert (floor_log2 x <= floor_log2 y)%Z as He.
  { apply Z.lt_succ_r, pow2_lt_inv. unfold Z.succ. lra. }
  unfold round_pos. destruct (Z.eq_dec (floor_log2 x) (floor_log2 y)) as [E|E].
  - rewrite E. pose proof (pow2_pos (floor_log2 y - 52)).
    pose proof (pow2_pos (- (floor_log2 y - 52))).
    apply Qmult_le_compat_r; [|lra]. apply inject_Z_le, round_half_even_mono.
    apply Qmult_le_compat_r; lra.
  - destruct (scaled_bracket x Hx) as [_ Ux]. destruct (scaled_bracket y Hy) as [Ly _].
    set (kx := (floor_log2 x - 52)%Z) in *. set (ky := (floor_log2 y - 52)%Z) in *.
    apply Qle_trans with (pow2 53 * pow2 kx).
    + apply Qmult_le_compat_r; [|pose proof (pow2_pos kx); lra].
      apply Qle_trans with (inject_Z (2 ^ 53)); [apply inject_Z_le|done].
      rewrite <- (round_half_even_int (2 ^ 53) (pow2 53)) by reflexivity.
      apply round_half_even_mono. lra.
    + apply Qle_trans with (pow2 52 * pow2 ky).
      * rewrite <- !pow2_plus. apply pow2_mono. lia.
      * apply Qmult_le_compat_r; [|pose proof (pow2_pos ky); lra].
        apply Qle_trans with (inject_Z (2 ^ 52)); [done|apply inject_Z_le].
        rewrite <- (round_half_even_int (2 ^ 52) (pow2 52)) by reflexivity.
        by apply round_half_even_mono.
Qed.

Lemma round_pos_int z : (0 < z <= 2 ^ 53)%Z -> round_pos (inject_Z z) == inject_Z z.
Proof.
  intros [Hz1 Hz2]. assert (0 < inject_Z z) as Hx by (by apply (inject_Z_lt 0)).
  unfold round_pos. set (k := (floor_log2 (inject_Z z) - 52)%Z).
  destruct (floor_log2_spec _ Hx) as [H1 _].
  assert (k <= 1)%Z as Hk.
  { assert (floor_log2 (inject_Z z) < 54)%Z; [|lia].
    apply pow2_lt_inv. apply Qle_lt_trans with (inject_Z z); [done|].
    rewrite (pow2_Z 54) by lia. apply inject_Z_lt. lia. }
  rewrite (unscale (inject_Z z) k) at 2.
  destruct (Z.le_gt_cases k 0) as [Hk0|Hk0].
  - rewrite (round_half_even_int (z * 2 ^ (- k))).
    + by rewrite inject_Z_mult, <- pow2_Z by lia.
    + by rewrite inject_Z_mult, <- pow2_Z by lia.
  - assert (k = 1)%Z as Ek by lia. rewrite Ek.
    assert (z = 2 ^ 53)%Z as ->.
    { assert (2 ^ 53 <= z)%Z; [|lia]. apply inject_Z_le.
      rewrite <- pow2_Z by lia. eapply Qle_trans; [|exact H1]. apply pow2_mono. lia. }
    reflexivity.
Qed.

Lemma round64_pos x : 0 < x -> round64 x = round_pos (Qred x).
Proof.
  intros H. unfold round64.
  destruct (Qcompare_spec (Qred x) 0) as [E|E|E]; rewrite Qred_correct in E; [lra|lra|done].
Qed.

Lemma round64_neg x : x < 0 -> round64 x = - round_pos (- Qred x).
Proof.
  intros H. unfold round64.
  destruct (Qcompare_spec (Qred x) 0) as [E|E|E]; rewrite Qred_correct in E; [lra|done|lra].
Qed.

Lemma round64_0 x : x == 0 -> round64 x = 0.
Proof.
  intros H. unfold round64.
  destruct (Qcompare_spec (Qred x) 0) as [E|E|E]; rewrite Qred_correct in E; [done|lra|lra].
Qed.

Lemma round64_sign x :
  (0 < x -> 0 < round64 x) /\ (x < 0 -> round64 x < 0).
Proof.
  split; intros H.
  - rewrite round64_pos by done. apply round_pos_nonneg. by rewrite Qred_correct.
  - rewrite round64_neg by done.
    pose proof (Qred_correct x) as E.
    pose proof (round_pos_nonneg (- Qred x) ltac:(lra)). lra.
Qed.

Lemma round64_mono x y : x <= y -> round64 x <= round64 y.
Proof.
  intros Hxy.
  destruct (Qlt_le_dec 0 x) as [Hx|Hx]; [|destruct (Qlt_le_dec y 0) as [Hy|Hy]].
  - rewrite !round64_pos by lra. apply round_pos_mono; by rewrite ?Qred_correct.
  - rewrite !round64_neg by lra.
    pose proof (Qred_correct x). pose proof (Qred_correct y).
    pose proof (round_pos_mono (- Qred y) (- Qred x) ltac:(lra) ltac:(lra)). lra.
  - apply Qle_trans with 0.
    + destruct (Qlt_le_dec x 0) as [Hx'|Hx'].
      * pose proof (proj2 (round64_sign x) Hx'). lra.
      * by rewrite round64_0 by lra.
    + destruct (Qlt_le_dec 0 y) as [Hy'|Hy'].
      * pose proof (proj1 (round64_sign y) Hy'). lra.
      * by rewrite round64_0 by lra.
Qed.

Lemma round64_err x : Qabs (round64 x - x) <= eps * Qabs x.
Proof.
  apply Qabs_Qle_condition. destruct (Q_dec x 0) as [[H|H]|H].
  - rewrite round64_neg, (Qabs_neg x) by lra.
    pose proof (Qred_correct x) as E.
    destruct (round_pos_err (- Qred x) ltac:(lra)) as [H1 H2].
    unfold eps in *. lra.
  - rewrite round64_pos, (Qabs_pos x) by lra.
    pose proof (Qred_correct x) as E.
    destruct (round_pos_err (Qred x) ltac:(lra)) as [H1 H2]. unfold eps in *. lra.
  - rewrite round64_0, H by done. change (Qabs 0) with 0. lra.
Qed.

Lemma round64_int z : (Z.abs z <= 2 ^ 53)%Z -> round64 (inject_Z z) == inject_Z z.
Proof.
  intros Hz. assert (Qred (inject_Z z) = inject_Z z) as E.
  { apply Qcanon.Qred_identity, Z.gcd_1_r. }
  destruct (Z.lt_trichotomy z 0) as [H|[->|H]].
  - rewrite round64_neg by (by apply (inject_Z_lt _ 0)). rewrite E.
    rewrite <- inject_Z_opp, round_pos_int by lia. rewrite inject_Z_opp. ring.
  - reflexivity.
  - rewrite round64_pos by (by apply (inject_Z_lt 0)). rewrite E.
    apply round_pos_int. lia.
Qed.

Global Instance round64_proper : Proper (Qeq ==> Qeq) round64.
Proof. intros x y E. unfold round64. by rewrite (Qred_complete _ _ E). Qed.

(** IEEE 754 binary64, round to nearest even: CPython's [float]. *)
Definition binary64 : Rounding :=
  {| rnd := round64; rnd_proper := round64_proper; rnd_mono := round64_mono;
     rnd_int := round64_int; rnd_err := round64_err |}.

(** The rounding of the classic [0.1 + 0.2]. *)
Example binary64_tenths :
  @fadd binary64 (@rnd binary64 (1 # 10)) (@rnd binary64 (2 # 10))
  == 5404319552844596 # 2 ^ 54.
Proof. reflexivity. Qed.
