(* ===== verification/PyValue.v ===== *)
(** * Python values and dicts

    The JSON scalars that flow through [share_json], [totals_json], heartbeat
    bodies and worker summaries, with the operators the code applies to them:
    [==] across number types, truthiness, [+], the defensive coercions
    [_coerce_int] / [_coerce_float], and the string operations they call
    ([str.strip], [int(str)], [float(str)]).  A dict is a [gmap] from strings;
    the code never depends on its order where a [gmap] is used. *)

From S2P Require Import Prelude.
From S2P Require Import PyFloat.
From Stdlib Require Import QArith Ascii.

Inductive pyval : Type :=
  | VNone
  | VBool (b : bool)
  | VInt (z : Z)
  | VFloat (q : Q)
  | VStr (s : string).

Abbreviation pydict := (gmap string pyval).

(** Numeric view of a value: Python's [bool] is an [int]. *)
Definition int_of (v : pyval) : option Z :=
  match v with
  | VBool b => Some (if b then 1 else 0)%Z
  | VInt z => Some z
  | _ => None
  end.

Definition num_of (v : pyval) : option Q :=
  match v with
  | VFloat q => Some q
  | _ => inject_Z <$> int_of v
  end.

(** [a == b] *)
Definition py_eqb (a b : pyval) : bool :=
  match num_of a, num_of b with
  | Some x, Some y => Qeq_bool x y
  | None, None =>
      match a, b with
      | VNone, VNone => true
      | VStr s, VStr t => bool_decide (s = t)
      | _, _ => false
      end
  | _, _ => false
  end.

(** [bool(v)] *)
Definition truthy (v : pyval) : bool :=
  match v with
  | VNone => false
  | VBool b => b
  | VInt z => negb (Z.eqb z 0)
  | VFloat q => negb (Qeq_bool q 0)
  | VStr s => negb (bool_decide (s = EmptyString))
  end.

(** [bool(s)] *)
Definition nonempty (s : string) : bool := negb (bool_decide (s = EmptyString)).

(** [d.get(k)] and [d.get(k, dflt)] *)
Definition dget (d : pydict) (k : string) : pyval := default VNone (d !! k).
Definition dget_or (d : pydict) (k : string) (dflt : pyval) : pyval := default dflt (d !! k).

(** [d1 == d2] on dicts *)
Definition pydict_eqb (d1 d2 : pydict) : bool :=
  bool_decide (dom d1 = dom d2) &&
  forallb (fun '(k, v) => match d2 !! k with Some w => py_eqb v w | None => false end)
    (map_to_list d1).

(** [str.isspace] on ASCII, and [str.strip()] *)
Definition is_space (c : ascii) : bool :=
  let n := N_of_ascii c in
  ((9 <=? n) && (n <=? 13) || (28 <=? n) && (n <=? 32))%N.

Fixpoint lstrip (s : list ascii) : list ascii :=
  match s with
  | c :: s' => if is_space c then lstrip s' else s
  | [] => []
  end.

Definition strip_chars (s : list ascii) : list ascii := reverse (lstrip (reverse (lstrip s))).
Definition py_strip (s : string) : string :=
  String.string_of_list_ascii (strip_chars (String.list_ascii_of_string s)).

(** [str.lower()] on ASCII *)
Definition lower_ascii (c : ascii) : ascii :=
  let n := N_of_ascii c in
  if ((65 <=? n) && (n <=? 90))%N then ascii_of_N (n + 32) else c.
Definition py_lower (s : string) : string :=
  String.string_of_list_ascii (lower_ascii <$> String.list_ascii_of_string s).

Definition digit_of (c : ascii) : option Z :=
  let n := Z.of_N (N_of_ascii c) in
  if ((48 <=? n) && (n <=? 57))%Z then Some (n - 48)%Z else None.

(** Digits with single underscores between them; [seen] says a digit was just read. *)
Fixpoint digits (seen : bool) (acc : Z) (s : list ascii) : option Z :=
  match s with
  | [] => if seen then Some acc else None
  | c :: s' =>
      match digit_of c with
      | Some d => digits true (10 * acc + d)%Z s'
      | None => if seen && Ascii.eqb c "_"%char then digits false acc s' else None
      end
  end.

Definition signed (parse : list ascii -> option Z) (s : list ascii) : option Z :=
  match s with
  | c :: s' =>
      if Ascii.eqb c "-"%char then Z.opp <$> parse s'
      else if Ascii.eqb c "+"%char then parse s' else parse s
  | [] => parse []
  end.

(** [int(s)] on a string, [None] for [ValueError] *)
Definition int_of_string (s : string) : option Z :=
  signed (digits false 0) (strip_chars (String.list_ascii_of_string s)).

(** A run of digits (single underscores between digits allowed): the value, the
    number of digits and the rest. *)
Fixpoint span_digits (acc : Z) (n : nat) (s : list ascii) : Z * nat * list ascii :=
  match s with
  | c :: s' =>
      match digit_of c with
      | Some d => span_digits (10 * acc + d)%Z (S n) s'
      | None =>
          match s' with
          | c' :: s'' =>
              match digit_of c' with
              | Some d =>
                  if Ascii.eqb c "_"%char && negb (Nat.eqb n 0)
                  then span_digits (10 * acc + d)%Z (S n) s'' else (acc, n, s)
              | None => (acc, n, s)
              end
          | [] => (acc, n, s)
          end
      end
  | [] => (acc, n, s)
  end.

(** The exponent part of a float literal: absent, or [e] and a signed integer. *)
Definition exponent (s : list ascii) : option Z :=
  match s with
  | [] => Some 0%Z
  | c :: s' =>
      if Ascii.eqb c "e"%char || Ascii.eqb c "E"%char
      then signed (digits false 0) s' else None
  end.

(** The magnitude of a decimal literal: integer digits, an optional fraction and
    an optional exponent. *)
Definition decimal (s : list ascii) : option Q :=
  let '(i, ni, rest) := span_digits 0 0 s in
  let '(m, nf, total, rest) :=
    match rest with
    | c :: rest' =>
        if Ascii.eqb c "."%char
        then let '(f, nf, rest'') := span_digits 0 0 rest' in
             ((i * 10 ^ Z.of_nat nf + f)%Z, nf, (ni + nf)%nat, rest'')
        else (i, 0%nat, ni, rest)
    | [] => (i, 0%nat, ni, rest)
    end in
  if Nat.eqb total 0 then None
  else (fun e => inject_Z m * Qpower 10 (e - Z.of_nat nf)) <$> exponent rest.

Section Num.
Context {R : Rounding}.

(** [float(s)] on a string, [None] for [ValueError]; the spellings of the
    infinities and NaN are outside the model (floats are finite). *)
Definition float_of_string (s : string) : option Q :=
  match strip_chars (String.list_ascii_of_string s) with
  | c :: s' =>
      if Ascii.eqb c "-"%char then (fun q => rnd (- q)) <$> decimal s'
      else if Ascii.eqb c "+"%char then rnd <$> decimal s'
      else rnd <$> decimal (c :: s')
  | [] => None
  end.

(** [a + b] on numbers; anything else raises [TypeError]. *)
Definition py_add (a b : pyval) : result pyval :=
  match int_of a, int_of b with
  | Some x, Some y => Ok (VInt (x + y))
  | _, _ =>
      match num_of a, num_of b with
      | Some x, Some y => Ok (VFloat (fadd (rnd x) (rnd y)))
      | _, _ => Raise TypeError
      end
  end.

(** [_coerce_int]: [None] for null, booleans and what [int()] rejects. *)
Definition coerce_int (v : pyval) : option Z :=
  match v with
  | VNone | VBool _ => None
  | VInt z => Some z
  | VFloat q => Some (py_int q)
  | VStr s => int_of_string s
  end.

(** [_coerce_float] *)
Definition coerce_float (v : pyval) : option Q :=
  match v with
  | VNone | VBool _ => None
  | VInt z => Some (rnd (inject_Z z))
  | VFloat q => Some q
  | VStr s => float_of_string s
  end.
End Num.

Example float_of_string_ok :
  (match @float_of_string exact "-1.5e2" with Some q => Qeq_bool q (-150) | None => false end)
  = true /\ @float_of_string exact "x1" = None /\ @float_of_string exact "." = None.
Proof. vm_compute. done. Qed.

Example int_of_string_ok :
  int_of_string " -1_024 " = Some (-1024)%Z /\ int_of_string "1.5" = None
  /\ int_of_string "" = None /\ int_of_string "7_" = None.
Proof. vm_compute. done. Qed.

Lemma py_eqb_refl v : py_eqb v v = true.
Proof.
  destruct v as [|b|z|q|s]; cbn; try done.
  - apply Qeq_bool_iff. reflexivity.
  - apply Qeq_bool_iff. reflexivity.
  - apply Qeq_bool_iff. reflexivity.
  - by apply bool_decide_eq_true.
Qed.

(** ** Printing and reading back a natural number *)

(** A string of digits, and its value after [acc]. *)
Definition all_digits (ds : list ascii) : Prop := Forall (fun c => is_Some (digit_of c)) ds.
Definition digits_value (acc : Z) (ds : list ascii) : Z :=
  foldl (fun acc c => 10 * acc + default 0 (digit_of c))%Z acc ds.

Lemma digit_of_pretty x : (x < 10)%N -> digit_of (pretty_N_char x) = Some (Z.of_N x).
Proof.
  intros Hx. assert (x = 0 \/ x = 1 \/ x = 2 \/ x = 3 \/ x = 4 \/ x = 5 \/ x = 6 \/ x = 7 \/ x = 8 \/ x = 9)%N
    as [->|[->|[->|[->|[->|[->|[->|[->|[->| ->]]]]]]]]] by lia; reflexivity.
Qed.

Lemma digits_value_app acc a b : digits_value acc (a ++ b) = digits_value (digits_value acc a) b.
Proof. apply foldl_app. Qed.

Lemma pretty_N_go_digits x : forall s,
  exists ds, all_digits ds /\ digits_value 0 ds = Z.of_N x /\
    String.list_ascii_of_string (pretty_N_go x s) = ds ++ String.list_ascii_of_string s /\
    ((0 < x)%N -> ds <> []).
Proof.
  induction (N.lt_wf_0 x) as [x _ IH]; intros s.
  destruct (decide (x = 0)%N) as [->|Hx].
  { exists []. rewrite pretty_N_go_0. split_and!; [by apply Forall_nil|done|done|lia]. }
  rewrite pretty_N_go_step by lia. set (c := pretty_N_char (x `mod` 10)).
  assert (digit_of c = Some (Z.of_N (x `mod` 10))) as Hc
    by (apply digit_of_pretty; by apply N.mod_lt).
  destruct (IH (x `div` 10)%N ltac:(apply N.div_lt; lia) (String c s)) as (ds & Hd & Hv & Es & _).
  exists (ds ++ [c]). split_and!.
  - apply Forall_app. split; [done|]. repeat constructor. by rewrite Hc.
  - rewrite digits_value_app, Hv. cbn. rewrite Hc. cbn.
    rewrite (N.div_mod x 10) at 3 by done. lia.
  - rewrite Es, <- app_assoc. done.
  - by destruct ds.
Qed.

Lemma pretty_digits z : (0 <= z)%Z ->
  exists ds, all_digits ds /\ ds <> [] /\ digits_value 0 ds = z /\
    String.list_ascii_of_string (pretty z) = ds.
Proof.
  intros Hz. destruct z as [|p|p]; [|clear Hz|lia].
  { exists ["0"%char]. split_and!; [|done|done|done]. apply Forall_singleton. by exists 0%Z. }
  unfold pretty, pretty_Z, pretty, pretty_positive, pretty, pretty_N.
  destruct (pretty_N_go_digits (Npos p) "") as (ds & Hd & Hv & Es & Hne).
  rewrite decide_False by done. exists ds. rewrite Es. cbn. rewrite app_nil_r.
  split_and!; try done. by apply Hne.
Qed.

Lemma digit_not c : is_Some (digit_of c) ->
  is_space c = false /\ Ascii.eqb c "-"%char = false /\ Ascii.eqb c "+"%char = false.
Proof.
  intros [d H]. unfold digit_of in H. unfold is_space.
  destruct (Ascii.eqb_spec c "-"%char) as [->|]; [done|].
  destruct (Ascii.eqb_spec c "+"%char) as [->|]; [done|].
  split; [|done]. case_match; [|done].
  apply andb_true_iff in H0 as [H1 H2]. apply Z.leb_le in H1, H2.
  apply orb_false_iff. split; apply andb_false_iff; right; apply N.leb_gt; lia.
Qed.

Lemma strip_digits ds : all_digits ds -> strip_chars ds = ds.
Proof.
  intros Hd. assert (forall l, all_digits l -> lstrip l = l) as Hl.
  { intros l. destruct l as [|c l]; [done|]. intros [Hc _]%Forall_cons. cbn [lstrip].
    destruct (digit_not c Hc) as [E _]. by rewrite E. }
  unfold strip_chars. rewrite (Hl ds) by done. rewrite Hl by (by apply Forall_reverse).
  apply reverse_involutive.
Qed.

Lemma span_all_digits ds : all_digits ds -> forall acc n,
  span_digits acc n ds = (digits_value acc ds, (n + length ds)%nat, []).
Proof.
  induction 1 as [|c ds [d Hc] Hd IH]; intros acc n; cbn; [by rewrite Nat.add_0_r|].
  rewrite Hc, IH. cbn. by rewrite Nat.add_succ_r.
Qed.

Lemma digits_all ds acc : all_digits ds -> ds <> [] -> digits false acc ds = Some (digits_value acc ds).
Proof.
  assert (forall ds acc, all_digits ds -> digits true acc ds = Some (digits_value acc ds)) as Ht.
  { clear. intros ds acc H. revert acc. induction H as [|c ds [d Hc] _ IH]; intros acc; [done|]. cbn. by rewrite Hc, IH. }
  intros Hd Hne. destruct ds as [|c ds]; [done|]. apply Forall_cons in Hd as [[d Hc] Hd]. cbn. rewrite Hc. by apply Ht.
Qed.

(** [int(str(z))] *)
Lemma int_of_pretty z : (0 <= z)%Z -> int_of_string (pretty z) = Some z.
Proof.
  intros Hz. destruct (pretty_digits z Hz) as (ds & Hd & Hne & Hv & Es). unfold int_of_string.
  rewrite Es, strip_digits by done. destruct ds as [|c ds]; [done|]. pose proof Hd as [Hc _]%Forall_cons.
  unfold signed. destruct (digit_not c Hc) as (_ & -> & ->). rewrite digits_all by done. by rewrite Hv.
Qed.

(** [float(str(z))] *)
Lemma float_of_pretty {R : Rounding} z : (0 <= z)%Z ->
  exists q, float_of_string (pretty z) = Some q /\ q == rnd (inject_Z z).
Proof.
  intros Hz. destruct (pretty_digits z Hz) as (ds & Hd & Hne & Hv & Es).
  unfold float_of_string. rewrite Es, strip_digits by done.
  destruct ds as [|c ds]; [done|]. pose proof Hd as [Hc _]%Forall_cons.
  destruct (digit_not c Hc) as (_ & -> & ->).
  unfold decimal. rewrite span_all_digits by done. cbn [Nat.add length Nat.eqb exponent fmap option_fmap option_map].
  eexists. split; [reflexivity|]. rewrite Hv. change (0 - Z.of_nat 0)%Z with 0%Z. cbn [Qpower].
  by rewrite Qmult_1_r.
Qed.
