(* ===== verification/Json.v ===== *)
(** * JSON documents

    The documents the control plane and the worker exchange, as parsed values,
    with the Python operators the code applies to them ([dict.get], truthiness,
    [float], [int]). *)

From S2P Require Import Prelude.
From S2P Require Import PyFloat.
From S2P Require Import PyValue.
From Stdlib Require Import QArith Ascii.
Open Scope Z_scope.

(** Strings that spell an instant in ISO 8601 are represented by that instant
    (in microseconds); [JStr] is every other string. *)
Inductive json : Type :=
  | JNull
  | JBool (b : bool)
  | JInt (z : Z)
  | JNum (q : Q)
  | JStr (s : string)
  | JInstant (us : Z)
  | JObj (fields : list (string * json)).

Abbreviation jobj := (list (string * json)).

(** [d.get(k)], [d.get(k, dflt)] *)
Definition jfind (d : jobj) (k : string) : option json :=
  snd <$> List.find (fun kv => bool_decide (kv.1 = k)) d.
Definition jget (d : jobj) (k : string) : json := default JNull (jfind d k).
Definition jget_or (d : jobj) (k : string) (dflt : json) : json := default dflt (jfind d k).

Definition jtruthy (j : json) : bool :=
  match j with
  | JNull => false
  | JBool b => b
  | JInt z => negb (z =? 0)
  | JNum q => negb (Qeq_bool q 0)
  | JStr s => nonempty s
  | JInstant _ => true
  | JObj d => negb (bool_decide (length d = 0%nat))
  end.

Definition jstring (s : option string) : json := match s with Some s => JStr s | None => JNull end.
Definition jnumber (q : option Q) : json := match q with Some q => JNum q | None => JNull end.
Definition jinstant (t : option Z) : json := match t with Some t => JInstant t | None => JNull end.

Definition json_of (v : pyval) : json :=
  match v with
  | VNone => JNull | VBool b => JBool b | VInt z => JInt z | VFloat q => JNum q | VStr s => JStr s
  end.

(** [x or {}] where a dict is expected: its methods fail on anything else. *)
Definition obj_or_empty (j : json) : result jobj :=
  if jtruthy j then match j with JObj d => Ok d | _ => Raise AttributeError end else Ok [].

Section Convert.
Context {R : Rounding}.

(** [float(x)] *)
Definition to_float (j : json) : result Q :=
  match j with
  | JBool b => Ok (if b then 1%Q else 0%Q)
  | JInt z => Ok (rnd (inject_Z z))
  | JNum q => Ok q
  | JStr s => match float_of_string s with
              | Some q => Ok q
              | None => Raise (ValueError "could not convert string to float")
              end
  | JInstant _ => Raise (ValueError "could not convert string to float")
  | JNull | JObj _ => Raise TypeError
  end.

(** [int(x)] *)
Definition to_int (j : json) : result Z :=
  match j with
  | JBool b => Ok (if b then 1 else 0)
  | JInt z => Ok z
  | JNum q => Ok (py_int q)
  | JStr s => match int_of_string s with
              | Some z => Ok z
              | None => Raise (ValueError "invalid literal for int()")
              end
  | JInstant _ => Raise (ValueError "invalid literal for int()")
  | JNull | JObj _ => Raise TypeError
  end.

(** [float(x) if x is not None else None] *)
Definition opt_float (j : json) : result (option Q) :=
  match j with JNull => Ok None | j => q ← to_float j; Ok (Some q) end.

End Convert.
