(* ===== verification/Pacing.v ===== *)
(** * The token bucket (worker/stoker_agent/pacing.py)

    The bucket that paces a worker: [owed(t) = rate * (t - anchor)], an event is
    released when fewer than [owed] have been, and the backlog that may be
    replayed is bounded by sliding the anchor.  Every method runs under one
    lock, so the threads that share a bucket interleave whole methods, and whole
    passes of the two blocking loops ([acquire], [acquire_many]), whose waits
    give the lock up.

    The definitions are over any [Rounding]; the theorems about long traces are
    over exact arithmetic: a bucket never runs ahead of the clock, a burst is
    bounded, discarded quota is accounted for, and a blocking call returns. *)

From S2P Require Import Prelude.
From S2P Require Import PyFloat.
From Stdlib Require Import QArith Qround Qminmax Lqa.
Open Scope Q_scope.

Record TokenBucket : Type := mkBucket {
  tb_rate : Q;
  tb_catchup_s : Q;
  tb_anchor : Q;
  tb_released : Z;
  tb_paused : bool;
  tb_closed : bool;
  tb_discarded_s : Q;
}.

Section Bucket.
Context {R : Rounding}.

Definition WAIT_SLICE_S : Q := rnd (2 # 10).

(** [TokenBucket(rate, catchup_s, clock)]; [now] is [clock()]. *)
Definition new_bucket (rate catchup_s now : Q) : result TokenBucket :=
  if Qle_bool rate 0 then Raise (ValueError "rate must be > 0")
  else Ok (mkBucket rate catchup_s now 0 false false 0).

(** ** Lifecycle *)

Definition anchor_at (t0 : Q) (b : TokenBucket) : TokenBucket :=
  mkBucket (tb_rate b) (tb_catchup_s b) t0 0 (tb_paused b) (tb_closed b) (tb_discarded_s b).

Definition set_paused (p : bool) (b : TokenBucket) : TokenBucket :=
  mkBucket (tb_rate b) (tb_catchup_s b) (tb_anchor b) (tb_released b) p (tb_closed b)
    (tb_discarded_s b).

Definition pause : TokenBucket -> TokenBucket := set_paused true.
Definition resume : TokenBucket -> TokenBucket := set_paused false.

Definition close (b : TokenBucket) : TokenBucket :=
  mkBucket (tb_rate b) (tb_catchup_s b) (tb_anchor b) (tb_released b) (tb_paused b) true
    (tb_discarded_s b).

(** ** Accounting *)

Definition owed (b : TokenBucket) (now : Q) : Q := fmul (tb_rate b) (fsub now (tb_anchor b)).

(** The counter as a float. *)
Definition released_f (b : TokenBucket) : Q := rnd (inject_Z (tb_released b)).

Definition retarget (new_rate now : Q) (b : TokenBucket) : result TokenBucket :=
  if Qle_bool new_rate 0 then Raise (ValueError "rate must be > 0")
  else Ok (mkBucket new_rate (tb_catchup_s b) (fsub now (fdiv (owed b now) new_rate))
             (tb_released b) (tb_paused b) (tb_closed b) (tb_discarded_s b)).

Definition cap_backlog (now : Q) (b : TokenBucket) : TokenBucket :=
  let max_backlog := fmul (tb_rate b) (tb_catchup_s b) in
  let backlog := fsub (owed b now) (released_f b) in
  if Qle_bool backlog max_backlog then b
  else mkBucket (tb_rate b) (tb_catchup_s b)
         (fsub now (fdiv (fadd (released_f b) max_backlog) (tb_rate b)))
         (tb_released b) (tb_paused b) (tb_closed b)
         (fadd (tb_discarded_s b) (fdiv (fsub backlog max_backlog) (tb_rate b))).

Definition release (n : Z) (b : TokenBucket) : TokenBucket :=
  mkBucket (tb_rate b) (tb_catchup_s b) (tb_anchor b) (tb_released b + n) (tb_paused b)
    (tb_closed b) (tb_discarded_s b).

(** [x < y] *)
Definition qlt (x y : Q) : bool := negb (Qle_bool y x).

(** ** Taking tokens *)

Definition try_take (now : Q) (b : TokenBucket) : TokenBucket * bool :=
  if tb_closed b || tb_paused b then (b, false)
  else
    let b := cap_backlog now b in
    if qlt (inject_Z (tb_released b)) (owed b now) then (release 1 b, true) else (b, false).

(** One pass of a blocking loop: an answer, or the time to wait for. *)
Inductive pass (A : Type) : Type :=
  | Answer (a : A)
  | Wait (next_in : Q).
Arguments Answer {A} _.
Arguments Wait {A} _.

(** [(released + 1 - owed) / rate] *)
Definition next_in (b : TokenBucket) (now : Q) : Q :=
  fdiv (fsub (rnd (inject_Z (tb_released b + 1))) (owed b now)) (tb_rate b).

Definition acquire_pass (now : Q) (b : TokenBucket) : TokenBucket * pass bool :=
  if tb_closed b then (b, Answer false)
  else if tb_paused b then (b, Wait WAIT_SLICE_S)
  else
    let b := cap_backlog now b in
    if qlt (inject_Z (tb_released b)) (owed b now) then (release 1 b, Answer true)
    else (b, Wait (next_in b now)).

Definition acquire_many_pass (n : Z) (now : Q) (b : TokenBucket) : TokenBucket * pass Z :=
  if tb_closed b then (b, Answer 0%Z)
  else if tb_paused b then (b, Wait WAIT_SLICE_S)
  else
    let b := cap_backlog now b in
    let available := py_int (fsub (owed b now) (released_f b)) in
    if (1 <=? available)%Z
    then let granted := Z.min n available in (release granted b, Answer granted)
    else (b, Wait (next_in b now)).

Definition clamp_wait (next : Q) : Q := Qmin (Qmax next 0) WAIT_SLICE_S.

(** What a pass of a blocking loop meets: what the other threads did to the
    bucket since the last pass, and the readings of the two clocks. *)
Record wakeup : Type := mkWakeup {
  wk_others : TokenBucket -> TokenBucket;
  wk_now : Q;
  wk_mono : Q;
}.

(** [while True: ...] under the lock, with the deadline of the monotonic clock;
    [wakeups i] is met by pass [i].  [None]: still waiting after [fuel] passes. *)
Fixpoint blocking {A} (attempt : Q -> TokenBucket -> TokenBucket * pass A) (timed_out : A)
    (deadline : option Q) (wakeups : nat -> wakeup) (fuel i : nat) (b : TokenBucket)
    : TokenBucket * option A :=
  match fuel with
  | O => (b, None)
  | S fuel =>
      let w := wakeups i in
      match attempt (wk_now w) (wk_others w b) with
      | (b, Answer a) => (b, Some a)
      | (b, Wait _) =>
          match deadline with
          | Some d =>
              if Qle_bool (fsub d (wk_mono w)) 0 then (b, Some timed_out)
              else blocking attempt timed_out deadline wakeups fuel (S i) b
          | None => blocking attempt timed_out deadline wakeups fuel (S i) b
          end
      end
  end.

(** [start] is [time.monotonic()] on entry. *)
Definition acquire (timeout : option Q) (start : Q) (wakeups : nat -> wakeup) (fuel : nat)
    (b : TokenBucket) : TokenBucket * option bool :=
  blocking acquire_pass false ((fun t => fadd start t) <$> timeout) wakeups fuel 0 b.

Definition acquire_many (n : Z) (timeout : option Q) (start : Q) (wakeups : nat -> wakeup)
    (fuel : nat) (b : TokenBucket) : TokenBucket * option Z :=
  if (n <=? 0)%Z then (b, Some 0%Z)
  else blocking (acquire_many_pass n) 0%Z ((fun t => fadd start t) <$> timeout) wakeups fuel 0 b.

(** The wait of a pass: the quota's, clamped, and cut by the deadline. *)
Definition wait_of (deadline : option Q) (mono next : Q) : Q :=
  match deadline with
  | Some d => Qmin (clamp_wait next) (fsub d mono)
  | None => clamp_wait next
  end.

(** ** Observability *)

Definition lag_s (now : Q) (b : TokenBucket) : TokenBucket * Q :=
  let b := cap_backlog now b in
  (b, fdiv (Qmax 0 (fsub (owed b now) (released_f b))) (tb_rate b)).

(** ** Interleavings *)

(** One locked section of some thread. *)
Inductive bucket_op : Type :=
  | OpTry
  | OpAcquire
  | OpMany (n : Z)
  | OpLag
  | OpPause
  | OpResume
  | OpClose
  | OpRetarget (rate : Q).

Definition apply_op (now : Q) (op : bucket_op) (b : TokenBucket) : TokenBucket :=
  match op with
  | OpTry => fst (try_take now b)
  | OpAcquire => fst (acquire_pass now b)
  | OpMany n => if (n <=? 0)%Z then b else fst (acquire_many_pass n now b)
  | OpLag => fst (lag_s now b)
  | OpPause => pause b
  | OpResume => resume b
  | OpClose => close b
  | OpRetarget r => match retarget r now b with Ok b => b | Raise _ => b end
  end.

Fixpoint run_ops (ops : list (Q * bucket_op)) (b : TokenBucket) : TokenBucket :=
  match ops with [] => b | (now, op) :: ops => run_ops ops (apply_op now op b) end.

(** The clock does not go back. *)
Fixpoint timed (last : Q) (ops : list (Q * bucket_op)) : Prop :=
  match ops with [] => True | (now, _) :: ops => last <= now /\ timed now ops end.

(** The integral of the rate in force, from [last] to the last operation. *)
Fixpoint allowance (last : Q) (ops : list (Q * bucket_op)) (b : TokenBucket) : Q :=
  match ops with
  | [] => 0
  | (now, op) :: ops => tb_rate b * (now - last) + allowance now ops (apply_op now op b)
  end.

(** A blocking call answers what one of its passes, or its timeout, answers. *)
Lemma blocking_answers {A} attempt (timed_out : A) (P : A -> Prop) deadline wakeups fuel :
  (forall now b b' a, attempt now b = (b', Answer a) -> P a) -> P timed_out ->
  forall i b b' a, blocking attempt timed_out deadline wakeups fuel i b = (b', Some a) -> P a.
Proof.
  intros Ha Ht. induction fuel as [|fuel IH]; intros i b b' a; cbn [blocking]; [done|].
  destruct (attempt (wk_now (wakeups i)) (wk_others (wakeups i) b)) as [b1 [a1|]] eqn:E.
  - intros [= <- <-]. by eapply Ha.
  - destruct deadline as [d|]; [|apply IH].
    destruct (Qle_bool _ 0); [by intros [= <- <-]|apply IH].
Qed.

Lemma acquire_many_range n timeout start wakeups fuel b b' k :
  (0 < n)%Z -> acquire_many n timeout start wakeups fuel b = (b', Some k) -> (0 <= k <= n)%Z.
Proof.
  intros Hn. unfold acquire_many. destruct (Z.leb_spec n 0); [lia|].
  apply (blocking_answers _ _ (fun k => 0 <= k <= n)%Z); [|lia].
  intros now c c' a. unfold acquire_many_pass.
  destruct (tb_closed c); [intros [= <- <-]; lia|]. destruct (tb_paused c); [done|].
  cbv zeta. destruct (Z.leb_spec 1 (py_int (fsub (owed (cap_backlog now c) now)
    (released_f (cap_backlog now c))))); [intros [= <- <-]; lia|done].
Qed.
End Bucket.

Arguments Answer {A} _.
Arguments Wait {A} _.

(** ** The exact bucket *)

Section Exact.
Local Existing Instance exact.

(** The quota a bucket is behind at [now]; negative when it is ahead. *)
Definition backlog (b : TokenBucket) (now : Q) : Q := owed b now - inject_Z (tb_released b).

Definition wf_bucket (b : TokenBucket) : Prop := 0 < tb_rate b /\ 0 <= tb_catchup_s b.

Lemma owed_exact b now : owed b now == tb_rate b * (now - tb_anchor b).
Proof. reflexivity. Qed.

Lemma qlt_spec x y : reflect (x < y) (qlt x y).
Proof.
  unfold qlt. destruct (Qle_bool y x) eqn:E; constructor.
  - apply Qle_bool_iff in E. lra.
  - destruct (Qlt_le_dec x y) as [|H]; [done|]. apply Qle_bool_iff in H. congruence.
Qed.

Lemma Qle_bool_spec x y : reflect (x <= y) (Qle_bool x y).
Proof.
  destruct (Qle_bool x y) eqn:E; constructor.
  - by apply Qle_bool_iff.
  - intros H. apply Qle_bool_iff in H. congruence.
Qed.

(** Time passing, releasing and retargeting, as they change the backlog. *)
Lemma backlog_advance b t t' : backlog b t' == backlog b t + tb_rate b * (t' - t).
Proof. unfold backlog. rewrite !owed_exact. ring. Qed.

Lemma backlog_release n b now : backlog (release n b) now == backlog b now - inject_Z n.
Proof. unfold backlog. rewrite !owed_exact. cbn. rewrite inject_Z_plus. ring. Qed.

Lemma backlog_retarget r now b b' : 0 < tb_rate b ->
  retarget r now b = Ok b' -> backlog b' now == backlog b now /\ 0 < r /\ tb_rate b' = r.
Proof.
  unfold retarget. intros Hr. destruct (Qle_bool_spec r 0); [done|]. intros [= <-].
  split; [|split; [lra|done]]. unfold backlog. rewrite !owed_exact. cbn.
  unfold owed, fmul, fsub, fdiv. cbn. field. lra.
Qed.

Lemma cap_backlog_cases now b : 0 < tb_rate b ->
  let m := tb_rate b * tb_catchup_s b in
  (backlog b now <= m /\ cap_backlog now b = b) \/
  (m < backlog b now /\ backlog (cap_backlog now b) now == m).
Proof.
  intros Hr m. unfold cap_backlog.
  change (fsub (owed b now) (released_f b)) with (backlog b now).
  change (fmul (tb_rate b) (tb_catchup_s b)) with m.
  destruct (Qle_bool_spec (backlog b now) m) as [H|H]; [by left|right]. split; [lra|].
  unfold backlog. rewrite owed_exact. cbn. unfold fsub, fdiv, fadd, released_f. cbn. field. lra.
Qed.

(** Capping leaves the backlog at most [catchup_s] seconds of quota, loses
    exactly what it accounts as discarded, and changes nothing else. *)
Lemma cap_backlog_spec now b : wf_bucket b ->
  let b' := cap_backlog now b in
  backlog b' now <= tb_rate b * tb_catchup_s b /\
  backlog b' now <= backlog b now /\
  (0 <= backlog b now -> 0 <= backlog b' now) /\
  (backlog b now <= 0 -> b' = b) /\
  backlog b now == backlog b' now + tb_rate b * (tb_discarded_s b' - tb_discarded_s b) /\
  tb_discarded_s b <= tb_discarded_s b' /\
  tb_rate b' = tb_rate b /\ tb_catchup_s b' = tb_catchup_s b /\
  tb_released b' = tb_released b /\ tb_paused b' = tb_paused b /\ tb_closed b' = tb_closed b.
Proof.
  intros [Hr Hc]. unfold cap_backlog.
  change (fsub (owed b now) (released_f b)) with (backlog b now).
  change (fmul (tb_rate b) (tb_catchup_s b)) with (tb_rate b * tb_catchup_s b).
  assert (0 <= tb_rate b * tb_catchup_s b) as Hm by (apply Qmult_le_0_compat; lra).
  set (m := tb_rate b * tb_catchup_s b) in *.
  destruct (Qle_bool_spec (backlog b now) m) as [H|H]; cbv zeta.
  { repeat split; try done; lra. }
  set (b' := mkBucket _ _ _ _ _ _ _).
  assert (backlog b' now == m) as E.
  { unfold backlog. rewrite owed_exact. subst b'. cbn.
    unfold fsub, fdiv, fadd, released_f. cbn. field. lra. }
  assert (tb_rate b * (tb_discarded_s b' - tb_discarded_s b) == backlog b now - m) as E'.
  { subst b'. cbn. unfold fsub, fdiv, fadd. cbn. field. lra. }
  assert (0 < tb_discarded_s b' - tb_discarded_s b) as Hd.
  { apply (Qmult_lt_l _ _ (tb_rate b)); [done|]. lra. }
  repeat split; try done; lra.
Qed.

(** What one locked section does: it grants [k] events, loses the quota it
    accounts as discarded, and grants only against a capped, positive backlog. *)
Record op_effect (now : Q) (op : bucket_op) (b b' : TokenBucket) (k : Z) : Prop := {
  oe_wf : wf_bucket b';
  oe_catchup : tb_catchup_s b' = tb_catchup_s b;
  oe_released : tb_released b' = (tb_released b + k)%Z;
  oe_nonneg : (0 <= k)%Z;
  oe_backlog : backlog b now ==
    backlog b' now + inject_Z k + tb_rate b * (tb_discarded_s b' - tb_discarded_s b);
  oe_discarded : tb_discarded_s b <= tb_discarded_s b';
  oe_granted : (0 < k)%Z ->
    -1 < backlog b' now /\ backlog b' now + inject_Z k <= tb_rate b * tb_catchup_s b;
  oe_rate : (forall r, op <> OpRetarget r) -> tb_rate b' = tb_rate b;
}.

Lemma inject_pos k : (0 < k)%Z -> 1 <= inject_Z k.
Proof. intros. apply (inject_Z_le 1). lia. Qed.

(** A capped bucket, and [k] events released from it. *)
Lemma capped_effect now op b : wf_bucket b -> op_effect now op b (cap_backlog now b) 0.
Proof.
  intros Hb. pose proof Hb as [Hr Hc].
  destruct (cap_backlog_spec now b Hb) as (? & ? & ? & ? & ? & ? & E1 & E2 & E3 & ? & ?).
  split; try done; try lia.
  - unfold wf_bucket. rewrite E1, E2. done.
  - change (inject_Z 0) with 0. lra.
Qed.

Lemma release_effect now op b k : wf_bucket b -> (0 < k)%Z ->
  inject_Z k < backlog (cap_backlog now b) now + 1 ->
  op_effect now op b (release k (cap_backlog now b)) k.
Proof.
  intros Hb Hk Hlt. pose proof Hb as [Hr Hc].
  destruct (cap_backlog_spec now b Hb) as (? & ? & ? & ? & ? & ? & E1 & E2 & E3 & ? & ?).
  split; cbn; try done; try lia.
  - unfold wf_bucket. cbn. rewrite E1, E2. done.
  - rewrite backlog_release. lra.
  - intros _. rewrite backlog_release. split; lra.
Qed.

Lemma idle_effect now op b b' : wf_bucket b ->
  tb_rate b' = tb_rate b -> tb_catchup_s b' = tb_catchup_s b -> tb_anchor b' = tb_anchor b ->
  tb_released b' = tb_released b -> tb_discarded_s b' = tb_discarded_s b ->
  op_effect now op b b' 0.
Proof.
  intros Hb E1 E2 E3 E4 E5. unfold wf_bucket in *. split; rewrite ?E5; try lia; try done.
  - unfold wf_bucket. by rewrite E1, E2.
  - change (inject_Z 0) with 0. unfold backlog. rewrite !owed_exact, E1, E3, E4. ring.
  - lra.
Qed.

Lemma take_effect now op b : wf_bucket b ->
  let b' := cap_backlog now b in
  exists k, op_effect now op b
    (if qlt (inject_Z (tb_released b')) (owed b' now) then release 1 b' else b') k.
Proof.
  intros Hb b'. destruct (qlt_spec (inject_Z (tb_released b')) (owed b' now)) as [H|H].
  - exists 1%Z. apply release_effect; [done|lia|]. fold b'. unfold backlog.
    change (inject_Z 1) with 1. lra.
  - exists 0%Z. by apply capped_effect.
Qed.

Lemma py_int_floor q : 0 <= q -> py_int q = Qfloor q.
Proof. intros H. unfold py_int. destruct (Qlt_le_dec q 0); [lra|done]. Qed.

Lemma many_effect now op b n : wf_bucket b -> (0 < n)%Z ->
  let b' := cap_backlog now b in
  let available := py_int (backlog b' now) in
  exists k, op_effect now op b
    (if (1 <=? available)%Z then release (Z.min n available) b' else b') k.
Proof.
  intros Hb Hn b' available. destruct (Z.leb_spec 1 available) as [H|H].
  - exists (Z.min n available). apply release_effect; [done|lia|].
    assert (0 <= backlog b' now) as H0.
    { subst available. unfold py_int in H.
      destruct (Qlt_le_dec (backlog b' now) 0) as [Hneg|]; [|done].
      assert (Qceiling (backlog b' now) <= 0)%Z; [|lia].
      rewrite <- (Qceiling_Z 0). apply Qceiling_resp_le. change (inject_Z 0) with 0. lra. }
    assert (inject_Z (Z.min n available) <= inject_Z available) as Hle
      by (apply inject_Z_le; lia).
    subst available. rewrite py_int_floor in * by done.
    pose proof (Qfloor_le (backlog b' now)). fold b'. lra.
  - exists 0%Z. by apply capped_effect.
Qed.

Lemma apply_op_effect now op b : wf_bucket b -> exists k, op_effect now op b (apply_op now op b) k.
Proof.
  intros Hb. pose proof Hb as [Hr Hc].
  destruct op as [| |n| | | | |r]; cbn [apply_op].
  - unfold try_take. destruct (tb_closed b || tb_paused b); [exists 0%Z; by apply idle_effect|].
    destruct (take_effect now OpTry b Hb) as [k Hk]. exists k. cbv zeta. by destruct (qlt _ _).
  - unfold acquire_pass. destruct (tb_closed b); [exists 0%Z; by apply idle_effect|].
    destruct (tb_paused b); [exists 0%Z; by apply idle_effect|].
    destruct (take_effect now OpAcquire b Hb) as [k Hk]. exists k. cbv zeta. by destruct (qlt _ _).
  - destruct (Z.leb_spec n 0); [exists 0%Z; by apply idle_effect|].
    unfold acquire_many_pass. destruct (tb_closed b); [exists 0%Z; by apply idle_effect|].
    destruct (tb_paused b); [exists 0%Z; by apply idle_effect|].
    destruct (many_effect now (OpMany n) b n Hb) as [k Hk]; [lia|]. exists k. cbv zeta.
    change (fsub (owed (cap_backlog now b) now) (released_f (cap_backlog now b)))
      with (backlog (cap_backlog now b) now). by destruct (1 <=? _)%Z.
  - exists 0%Z. by apply capped_effect.
  - exists 0%Z. by apply idle_effect.
  - exists 0%Z. by apply idle_effect.
  - exists 0%Z. by apply idle_effect.
  - exists 0%Z. destruct (retarget r now b) as [b'|] eqn:E; [|by apply idle_effect].
    destruct (backlog_retarget r now b b' Hr E) as (E1 & ? & E2).
    unfold retarget in E. destruct (Qle_bool r 0); [done|]. injection E as <-.
    split; cbn in *; try done; try lia.
    + change (inject_Z 0) with 0. rewrite E1. ring.
    + lra.
    + intros Hne. by destruct (Hne r).
Qed.

Lemma allowance_nonneg ops : forall last b,
  wf_bucket b -> timed last ops -> 0 <= allowance last ops b.
Proof.
  induction ops as [|[now op] ops IH]; intros last b Hb Ht; cbn; [lra|].
  destruct Ht as [Hle Ht]. destruct (apply_op_effect now op b Hb) as [k Hk].
  pose proof (IH now _ (oe_wf _ _ _ _ _ Hk) Ht). pose proof Hb as [Hr _].
  assert (0 <= tb_rate b * (now - last)) by (apply Qmult_le_0_compat; lra). lra.
Qed.

(** Releases are paid for by the backlog and the time that passes. *)
Lemma run_ops_bound ops : forall last b, wf_bucket b -> timed last ops ->
  tb_released (run_ops ops b) = tb_released b \/
  inject_Z (tb_released (run_ops ops b)) <
    inject_Z (tb_released b) + backlog b last + allowance last ops b + 1.
Proof.
  induction ops as [|[now op] ops IH]; intros last b Hb Ht; cbn; [by left|].
  destruct Ht as [Hle Ht]. destruct (apply_op_effect now op b Hb) as [k Hk].
  set (b' := apply_op now op b) in *. pose proof (oe_wf _ _ _ _ _ Hk) as Hb'.
  pose proof (allowance_nonneg ops now b' Hb' Ht) as Ha.
  pose proof (oe_backlog _ _ _ _ _ Hk) as E. pose proof (oe_discarded _ _ _ _ _ Hk) as Hd.
  pose proof (backlog_advance b last now) as Eb.
  pose proof (oe_released _ _ _ _ _ Hk) as Er. pose proof (oe_nonneg _ _ _ _ _ Hk) as Hk0.
  assert (0 <= tb_rate b * (tb_discarded_s b' - tb_discarded_s b)) as Hd'.
  { apply Qmult_le_0_compat; [destruct Hb; lra|lra]. }
  assert (inject_Z (tb_released b') == inject_Z (tb_released b) + inject_Z k) as Er'
    by (rewrite Er, inject_Z_plus; reflexivity).
  destruct (IH now b' Hb' Ht) as [Eq|Hlt].
  - rewrite Eq. destruct (Z.eq_dec k 0) as [->|Hne]; [left; lia|right].
    destruct (oe_granted _ _ _ _ _ Hk ltac:(lia)) as [Hg _]. lra.
  - right. lra.
Qed.

Lemma run_ops_snoc ops now op b : run_ops (ops ++ [(now, op)]) b = apply_op now op (run_ops ops b).
Proof. revert b. induction ops as [|[t o] ops IH]; intros b; cbn; [done|apply IH]. Qed.

(** Every rate in force along a trace is at most [rmax]. *)
Fixpoint rates_within (rmax : Q) (ops : list (Q * bucket_op)) (b : TokenBucket) : Prop :=
  tb_rate b <= rmax /\
  match ops with [] => True | (now, op) :: ops => rates_within rmax ops (apply_op now op b) end.

Lemma run_ops_burst rmax ops : forall last b, wf_bucket b -> timed last ops ->
  rates_within rmax ops b ->
  inject_Z (tb_released (run_ops ops b)) <
    inject_Z (tb_released b) + rmax * tb_catchup_s b + allowance last ops b + 1.
Proof.
  induction ops as [|[now op] ops IH]; intros last b Hb Ht Hr; pose proof Hb as [Hr0 Hc0].
  { cbn. destruct Hr as [Hr _]. assert (0 <= rmax * tb_catchup_s b)
      by (apply Qmult_le_0_compat; lra). lra. }
  destruct Ht as [Hle Ht]. destruct Hr as [Hr Hrs]. cbn.
  destruct (apply_op_effect now op b Hb) as [k Hk].
  set (b' := apply_op now op b) in *. pose proof (oe_wf _ _ _ _ _ Hk) as Hb'.
  pose proof (allowance_nonneg ops now b' Hb' Ht) as Ha.
  pose proof (oe_released _ _ _ _ _ Hk) as Er. pose proof (oe_nonneg _ _ _ _ _ Hk) as Hk0.
  assert (0 <= tb_rate b * (now - last)) as Hdt by (apply Qmult_le_0_compat; lra).
  assert (inject_Z (tb_released b') == inject_Z (tb_released b) + inject_Z k) as Er'
    by (rewrite Er, inject_Z_plus; reflexivity).
  destruct (Z.eq_dec k 0) as [->|Hne].
  - specialize (IH now b' Hb' Ht Hrs). rewrite (oe_catchup _ _ _ _ _ Hk) in IH.
    change (inject_Z 0) with 0 in Er'. lra.
  - destruct (oe_granted _ _ _ _ _ Hk ltac:(lia)) as [Hg1 Hg2].
    assert (tb_rate b * tb_catchup_s b <= rmax * tb_catchup_s b) as Hm
      by (apply Qmult_le_compat_r; lra).
    destruct (run_ops_bound ops now b' Hb' Ht) as [Eq|Hlt]; [rewrite Eq|]; lra.
Qed.

Definition no_retarget (ops : list (Q * bucket_op)) : Prop :=
  forall now r, (now, OpRetarget r) ∉ ops.

(** The instant of the last operation. *)
Fixpoint end_time (last : Q) (ops : list (Q * bucket_op)) : Q :=
  match ops with [] => last | (now, _) :: ops => end_time now ops end.

Lemma run_ops_accounts ops : forall last b, wf_bucket b -> no_retarget ops ->
  let b' := run_ops ops b in
  let now := end_time last ops in
  tb_rate b' = tb_rate b /\ tb_discarded_s b <= tb_discarded_s b' /\
  backlog b last + tb_rate b * (now - last) ==
    inject_Z (tb_released b' - tb_released b) + backlog b' now
    + tb_rate b * (tb_discarded_s b' - tb_discarded_s b).
Proof.
  induction ops as [|[now op] ops IH]; intros last b Hb Hn; cbn.
  { split; [done|]. split; [lra|]. rewrite Z.sub_diag. change (inject_Z 0) with 0. ring. }
  destruct (apply_op_effect now op b Hb) as [k Hk].
  set (b1 := apply_op now op b) in *.
  destruct (IH now b1 (oe_wf _ _ _ _ _ Hk)) as (E1 & H1 & H2).
  { intros t r Hin. apply (Hn t r). set_solver. }
  pose proof (oe_rate _ _ _ _ _ Hk) as Erate.
  rewrite Erate in * by (intros r ->; apply (Hn now r); set_solver).
  pose proof (oe_backlog _ _ _ _ _ Hk) as E. pose proof (oe_discarded _ _ _ _ _ Hk) as Hd.
  pose proof (backlog_advance b last now) as Eb. pose proof (oe_released _ _ _ _ _ Hk) as Er.
  set (b' := run_ops ops b1) in *.
  assert (inject_Z (tb_released b' - tb_released b) ==
          inject_Z (tb_released b' - tb_released b1) + inject_Z k) as Er'.
  { rewrite <- inject_Z_plus. rewrite Er. f_equiv. lia. }
  split; [done|]. split; [lra|]. rewrite Er'. lra.
Qed.

(** ** Blocking calls *)

(** The instant by which one more event is owed in full. *)
Definition due (b : TokenBucket) : Q := tb_anchor b + inject_Z (tb_released b + 1) / tb_rate b.

Lemma next_in_due b now : 0 < tb_rate b -> next_in b now == due b - now.
Proof.
  intros Hr. unfold next_in, due, fdiv, fsub. cbn. unfold owed, fmul, fsub. cbn. field. lra.
Qed.

Lemma backlog_due b now : 0 < tb_rate b -> backlog b now == 1 - tb_rate b * (due b - now).
Proof.
  intros Hr. unfold due. rewrite inject_Z_plus. unfold backlog. rewrite owed_exact.
  change (inject_Z 1) with 1. field. lra.
Qed.

Lemma backlog_due_iff b now : 0 < tb_rate b -> (1 <= backlog b now <-> due b <= now).
Proof.
  intros Hr. rewrite backlog_due by done. split; intros H.
  - destruct (Qlt_le_dec now (due b)); [|done].
    assert (0 < tb_rate b * (due b - now)) by (apply Qmult_lt_0_compat; lra). lra.
  - assert (0 <= tb_rate b * (now - due b)) by (apply Qmult_le_0_compat; lra). lra.
Qed.

(** An attempt on [b] that answers well once one more event is due, and before
    that either answers well or asks to be woken when it is. *)
Definition attempts_well {A} (attempt : Q -> TokenBucket -> TokenBucket * pass A)
    (good : A -> Prop) (b : TokenBucket) : Prop :=
  forall now,
    (exists b' a, attempt now b = (b', Answer a) /\ good a) \/
    (now < due b /\ attempt now b = (b, Wait (next_in b now))).

Lemma blocking_returns {A} attempt (timed_out : A) good wakeups b n : forall i,
  0 < tb_rate b -> attempts_well attempt good b ->
  (forall j, wk_others (wakeups j) = id) ->
  (forall j, wk_now (wakeups j) + clamp_wait (next_in b (wk_now (wakeups j)))
             <= wk_now (wakeups (S j))) ->
  due b - wk_now (wakeups i) <= WAIT_SLICE_S * inject_Z (Z.of_nat n) ->
  exists b' a, blocking attempt timed_out None wakeups (S n) i b = (b', Some a) /\ good a.
Proof.
  induction n as [|n IH]; intros i Hr Hw Hid Hclk Hdue; cbn [blocking]; rewrite Hid; cbn [id];
    destruct (Hw (wk_now (wakeups i))) as [(b' & a & -> & Hg)|[Hlt ->]]; eauto.
  - change (inject_Z (Z.of_nat 0)) with 0 in Hdue. lra.
  - apply (IH (S i)); try done. specialize (Hclk i). unfold clamp_wait in Hclk.
    rewrite next_in_due in Hclk by done.
    rewrite Nat2Z.inj_succ in Hdue. unfold Z.succ in Hdue. rewrite inject_Z_plus in Hdue.
    change (inject_Z 1) with 1 in Hdue.
    rewrite (Q.max_l (due b - _) 0) in Hclk by lra.
    assert (0 <= WAIT_SLICE_S * inject_Z (Z.of_nat n)) as Hn.
    { apply Qmult_le_0_compat; [done|]. apply (inject_Z_le 0). lia. }
    destruct (Q.min_spec (due b - wk_now (wakeups i)) WAIT_SLICE_S) as [[Hm E]|[Hm E]];
      rewrite E in Hclk; lra.
Qed.

Lemma acquire_attempts b : wf_bucket b -> 0 < tb_catchup_s b ->
  tb_closed b = false -> tb_paused b = false ->
  attempts_well acquire_pass (fun a => a = true) b.
Proof.
  intros Hb Hc Ecl Ep now. pose proof Hb as [Hr _].
  destruct (cap_backlog_spec now b Hb) as (H1 & H2 & H3 & H4 & H5 & H6 & _).
  unfold acquire_pass. rewrite Ecl, Ep. cbv zeta.
  destruct (qlt_spec (inject_Z (tb_released (cap_backlog now b))) (owed (cap_backlog now b) now))
    as [H|H]; [left; eauto|right].
  assert (backlog (cap_backlog now b) now <= 0) as Hle by (unfold backlog; lra).
  assert (0 < tb_rate b * tb_catchup_s b) as Hm by (by apply Qmult_lt_0_compat).
  assert (backlog b now <= 0) as Hle'.
  { destruct (cap_backlog_cases now b Hr) as [[? E]|[? E]]; [rewrite E in Hle; done|lra]. }
  rewrite (H4 Hle'). split; [|done].
  destruct (Qlt_le_dec now (due b)) as [|Hd]; [done|].
  apply backlog_due_iff in Hd; [lra|done].
Qed.

Lemma many_attempts n b : wf_bucket b -> (0 < n)%Z -> 1 <= tb_rate b * tb_catchup_s b ->
  tb_closed b = false -> tb_paused b = false ->
  attempts_well (acquire_many_pass n) (fun a => (1 <= a <= n)%Z) b.
Proof.
  intros Hb Hn Hc Ecl Ep now. pose proof Hb as [Hr _].
  unfold acquire_many_pass. rewrite Ecl, Ep. cbv zeta.
  change (fsub (owed (cap_backlog now b) now) (released_f (cap_backlog now b)))
    with (backlog (cap_backlog now b) now).
  destruct (Z.leb_spec 1 (py_int (backlog (cap_backlog now b) now))) as [H|H].
  { left. eexists _, _. split; [reflexivity|]. lia. }
  right. assert (backlog (cap_backlog now b) now < 1) as Hlt.
  { destruct (Qlt_le_dec (backlog (cap_backlog now b) now) 1) as [|Hge]; [done|].
    rewrite py_int_floor in H by lra.
    pose proof (Qfloor_resp_le 1 _ Hge) as Hf. change (Qfloor 1) with 1%Z in Hf. lia. }
  destruct (cap_backlog_cases now b Hr) as [[Hle E]|[? E]]; [rewrite E in *|lra].
  split; [|done]. destruct (Qlt_le_dec now (due b)) as [|Hd]; [done|].
  apply backlog_due_iff in Hd; [lra|done].
Qed.

(** A batch is granted only from a backlog of at least one event, which a cap
    below one event never leaves. *)
Lemma many_starves n now b : 0 < tb_rate b -> tb_rate b * tb_catchup_s b < 1 ->
  tb_released (apply_op now (OpMany n) b) = tb_released b.
Proof.
  intros Hr Hc. cbn. destruct (n <=? 0)%Z; [done|]. unfold acquire_many_pass.
  destruct (tb_closed b); [done|]. destruct (tb_paused b); [done|]. cbv zeta.
  change (fsub (owed (cap_backlog now b) now) (released_f (cap_backlog now b)))
    with (backlog (cap_backlog now b) now).
  assert (backlog (cap_backlog now b) now < 1) as Hlt.
  { destruct (cap_backlog_cases now b Hr) as [[? E]|[? E]]; [rewrite E|]; lra. }
  assert (tb_released (cap_backlog now b) = tb_released b) as E.
  { unfold cap_backlog. by destruct (Qle_bool _ _). }
  destruct (Z.leb_spec 1 (py_int (backlog (cap_backlog now b) now))) as [H|H]; [|done].
  exfalso. unfold py_int in H. destruct (Qlt_le_dec _ 0) as [Hn|Hn].
  - assert (Qceiling (backlog (cap_backlog now b) now) <= 0)%Z; [|lia].
    rewrite <- (Qceiling_Z 0). apply Qceiling_resp_le. change (inject_Z 0) with 0. lra.
  - pose proof (Qfloor_le (backlog (cap_backlog now b) now)).
    assert (1 <= inject_Z (Qfloor (backlog (cap_backlog now b) now))); [|lra].
    by apply (inject_Z_le 1).
Qed.
End Exact.

(** ** What a grant may reach, in any arithmetic *)

Section Grants.
Context {R : Rounding}.

Lemma cap_released now b : tb_released (cap_backlog now b) = tb_released b.
Proof. unfold cap_backlog. cbv zeta. by destruct (Qle_bool _ _). Qed.

Lemma one_more b now : inject_Z (tb_released b) < owed b now ->
  inject_Z (tb_released (release 1 b)) <= owed (release 1 b) now + 1.
Proof.
  intros H. change (owed (release 1 b) now) with (owed b now). cbn [release tb_released].
  rewrite inject_Z_plus. change (inject_Z 1) with 1. lra.
Qed.

Lemma granted_within b now g :
  (0 <= tb_released b)%Z -> (1 <= g)%Z -> (tb_released b + g <= 2 ^ 53)%Z ->
  (g <= py_int (fsub (owed b now) (released_f b)))%Z ->
  inject_Z (tb_released (release g b)) <= owed (release g b) now + 1.
Proof.
  intros H0 H1 Hb Hg. change (owed (release g b) now) with (owed b now). cbn [release tb_released].
  rewrite inject_Z_plus. assert (released_f b == inject_Z (tb_released b)) as Er by (apply rnd_int; lia).
  destruct (Qlt_le_dec (owed b now - released_f b) (inject_Z (g - 1))) as [Hlt|Hge].
  - exfalso. assert (fsub (owed b now) (released_f b) <= inject_Z (g - 1)) as Hs.
    { unfold fsub. rewrite <- (rnd_int (g - 1)) by lia. apply rnd_mono. lra. }
    assert (inject_Z g <= fsub (owed b now) (released_f b)) as Hge.
    { unfold py_int in Hg. destruct (Qlt_le_dec _ 0) as [Hn|Hn].
      - assert (Qceiling (fsub (owed b now) (released_f b)) <= Qceiling 0)%Z by (apply Qceiling_resp_le; lra).
        change (Qceiling 0) with 0%Z in *. lia.
      - eapply Qle_trans; [by apply inject_Z_le|apply Qfloor_le]. }
    assert (inject_Z g <= inject_Z (g - 1)) as Hc by (eapply Qle_trans; eassumption).
    rewrite <- Zle_Qle in Hc. lia.
  - rewrite Er in Hge. assert (inject_Z g == inject_Z (g - 1) + 1) as Eg.
    { change 1 with (inject_Z 1). rewrite <- inject_Z_plus. by replace (g - 1 + 1)%Z with g by lia. }
    lra.
Qed.

(** An operation that releases events leaves the counter at most one above the
    quota the code computes. *)
Lemma grant_within_quota now op b (b' := apply_op now op b) :
  (0 <= tb_released b < tb_released b')%Z -> (tb_released b' <= 2 ^ 53)%Z ->
  inject_Z (tb_released b') <= owed b' now + 1.
Proof.
  intros [H0 Hlt] Hb. subst b'. pose proof (cap_released now b) as Ec. revert Hlt Hb.
  destruct op; cbn [apply_op]; try (cbn; lia).
  - unfold try_take. destruct (_ || _); [cbn; lia|]. cbv zeta.
    destruct (qlt_spec (inject_Z (tb_released (cap_backlog now b))) (owed (cap_backlog now b) now)); cbn [fst];
      [intros _ _; by apply one_more|lia].
  - unfold acquire_pass. destruct (tb_closed b), (tb_paused b); try (cbn; lia). cbv zeta.
    destruct (qlt_spec (inject_Z (tb_released (cap_backlog now b))) (owed (cap_backlog now b) now)); cbn [fst];
      [intros _ _; by apply one_more|lia].
  - destruct (n <=? 0)%Z; [lia|]. unfold acquire_many_pass. destruct (tb_closed b), (tb_paused b); try (cbn; lia).
    cbv zeta. destruct (Z.leb_spec 1 (py_int (fsub (owed (cap_backlog now b) now) (released_f (cap_backlog now b)))));
      cbn [fst]; [|lia].
    intros Hlt Hb. cbn [release tb_released] in Hlt, Hb. rewrite Ec in Hlt, Hb.
    apply granted_within; rewrite ?Ec; lia.
  - unfold retarget. destruct (Qle_bool _ 0); cbn; lia.
Qed.
End Grants.

(** ** Claims *)

Section Claims.
Local Existing Instance exact.

(** C6: A bucket never runs ahead of the clock.  In exact arithmetic, anchored at
    [t0], however the threads interleave their takes, batches, readings, pauses,
    resumes and retargets at non-decreasing instants from [t0] on, it has
    released fewer than one event more than the integral of the rate in force
    since [t0].  In floating point (any rounding that is monotone and keeps the
    integers up to 2^53), an operation that grants events leaves the counter at
    most one above the quota it has computed. *)
Theorem bucket_never_ahead b t0 ops :
  wf_bucket b -> timed t0 ops ->
  inject_Z (tb_released (run_ops ops (anchor_at t0 b))) < allowance t0 ops (anchor_at t0 b) + 1
  /\ forall (R : Rounding) now op b1, let b2 := @apply_op R now op b1 in
       (0 <= tb_released b1 < tb_released b2)%Z -> (tb_released b2 <= 2 ^ 53)%Z ->
       inject_Z (tb_released b2) <= @owed R b2 now + 1.
Proof.
  intros Hb Ht. split; [|intros R now op b1; apply (@grant_within_quota R)].
  assert (wf_bucket (anchor_at t0 b)) as Hb' by exact Hb.
  assert (backlog (anchor_at t0 b) t0 == 0) as E.
  { unfold backlog. rewrite owed_exact. cbn. change (inject_Z 0) with 0. ring. }
  pose proof (allowance_nonneg ops t0 _ Hb' Ht) as Ha.
  destruct (run_ops_bound ops t0 _ Hb' Ht) as [Eq|Hlt].
  - rewrite Eq. cbn [anchor_at tb_released]. change (inject_Z 0) with 0. lra.
  - cbn [tb_released anchor_at] in Hlt. change (inject_Z 0) with 0 in Hlt. lra.
Qed.

(** Catch-up is bounded.  From any state of the bucket, however long it was
    paused or starved, what a trace releases is less than the integral of the
    rate, plus [catchup_s] seconds of the highest rate in force, plus one. *)
Theorem bucket_burst_bounded rmax b last ops :
  wf_bucket b -> timed last ops -> rates_within rmax ops b ->
  inject_Z (tb_released (run_ops ops b) - tb_released b) <
    allowance last ops b + rmax * tb_catchup_s b + 1.
Proof.
  intros Hb Ht Hr. pose proof (run_ops_burst rmax ops last b Hb Ht Hr) as H.
  unfold Z.sub. rewrite inject_Z_plus, inject_Z_opp. lra.
Qed.

(** No quota is lost silently.  Over a trace at one rate, the quota that
    accrued is what was released, plus the change of the backlog, plus the
    rate times the seconds added to [discarded_s], which never decreases. *)
Theorem bucket_accounts b last ops :
  wf_bucket b -> no_retarget ops ->
  let b' := run_ops ops b in
  let now := end_time last ops in
  tb_rate b * (now - last) ==
    inject_Z (tb_released b' - tb_released b) + (backlog b' now - backlog b last)
    + tb_rate b * (tb_discarded_s b' - tb_discarded_s b)
  /\ tb_discarded_s b <= tb_discarded_s b'.
Proof.
  intros Hb Hn b' now. destruct (run_ops_accounts ops last b Hb Hn) as (_ & H1 & H2).
  fold b' now in H1, H2. split; [lra|done].
Qed.

(** C19: A blocking call returns, in exact arithmetic.  On an open, unpaused bucket that no other
    thread disturbs, when every pass comes at least the requested wait after
    the one before, [acquire] is granted its event within one pass per 0.2 s of
    the time until one more event is due, plus one, provided catch-up is not
    zero; [acquire_many] is granted between one and [n] events, provided the
    catch-up window holds at least one event. *)
Theorem blocking_calls_return b wakeups start passes n :
  wf_bucket b -> tb_closed b = false -> tb_paused b = false ->
  (forall j, wk_others (wakeups j) = id) ->
  (forall j, wk_now (wakeups j) + clamp_wait (next_in b (wk_now (wakeups j)))
             <= wk_now (wakeups (S j))) ->
  due b - wk_now (wakeups 0%nat) <= WAIT_SLICE_S * inject_Z (Z.of_nat passes) ->
  (0 < tb_catchup_s b ->
    snd (acquire None start wakeups (S passes) b) = Some true) /\
  ((0 < n)%Z -> 1 <= tb_rate b * tb_catchup_s b ->
    exists k, snd (acquire_many n None start wakeups (S passes) b) = Some k /\ (1 <= k <= n)%Z).
Proof.
  intros Hb Ecl Ep Hid Hclk Hdue. pose proof Hb as [Hr _]. split.
  - intros Hc. pose proof (acquire_attempts b Hb Hc Ecl Ep) as Hw.
    destruct (blocking_returns acquire_pass false _ wakeups b passes 0 Hr Hw Hid Hclk Hdue)
      as (b' & a & E & ->). unfold acquire. cbn [fmap option_fmap option_map]. by rewrite E.
  - intros Hn Hc. pose proof (many_attempts n b Hb Hn Hc Ecl Ep) as Hw.
    destruct (blocking_returns (acquire_many_pass n) 0%Z _ wakeups b passes 0 Hr Hw Hid Hclk Hdue)
      as (b' & a & E & Ha). exists a. split; [|done]. unfold acquire_many.
    destruct (Z.leb_spec n 0); [lia|]. cbn [fmap option_fmap option_map]. by rewrite E.
Qed.

(** Below one event per catch-up window, batches starve.  When [rate *
    catchup_s < 1] (under 0.2 events per second at the default window), the cap
    never leaves a whole event of backlog, and [acquire_many], which the
    HEC-line path uses, is granted nothing for ever: no interleaving of
    batches, readings, pauses and resumes releases an event. *)
Theorem batches_starve_below_one_event b ops :
  wf_bucket b -> tb_rate b * tb_catchup_s b < 1 ->
  (forall now op, (now, op) ∈ ops -> (exists n, op = OpMany n) \/ op = OpLag \/ op = OpPause \/ op = OpResume) ->
  tb_released (run_ops ops b) = tb_released b.
Proof.
  revert b. induction ops as [|[now op] ops IH]; intros b Hb Hc Hops; [done|]. cbn [run_ops].
  assert (forall r, op <> OpRetarget r) as Hnr.
  { intros r ->. destruct (Hops now (OpRetarget r)) as [[? ?]|[|[|]]]; [set_solver|done..]. }
  destruct (apply_op_effect now op b Hb) as [k Hk].
  pose proof (oe_rate _ _ _ _ _ Hk Hnr) as Er.
  rewrite IH; [|by apply (oe_wf _ _ _ _ _ Hk)|rewrite Er, (oe_catchup _ _ _ _ _ Hk); done|set_solver].
  destruct (Hops now op) as [[n ->]|[->|[->| ->]]]; [set_solver| | |done|done].
  - apply many_starves; [by destruct Hb|done].
  - cbn. by destruct (cap_backlog_spec now b Hb) as (_ & _ & _ & _ & _ & _ & _ & _ & E & _).
Qed.
End Claims.

(** ** Witnesses *)

Section Witnesses.
Local Existing Instance exact.

(** Ten events per second, five seconds of catch-up. *)
Definition demo_bucket : TokenBucket := mkBucket 10 5 0 0 false false 0.

Definition demo_ops : list (Q * bucket_op) :=
  [(1, OpTry); (2, OpMany 100); (3, OpPause); (60, OpResume); (61, OpMany 100);
   (62, OpRetarget 20); (63, OpAcquire)].

Lemma bucket_never_ahead_witness :
  (tb_released (run_ops demo_ops (anchor_at 0 demo_bucket)) = 71)%Z /\
  inject_Z (tb_released (run_ops demo_ops (anchor_at 0 demo_bucket)))
    < allowance 0 demo_ops (anchor_at 0 demo_bucket) + 1 /\
  (let b2 := @apply_op binary64 (1 # 3) (OpMany 7) demo_bucket in
   (tb_released b2 = 3)%Z /\ inject_Z (tb_released b2) <= @owed binary64 b2 (1 # 3) + 1).
Proof.
  destruct (bucket_never_ahead demo_bucket 0 demo_ops ltac:(by split) ltac:(cbn; repeat split; done)) as [H1 H2].
  split; [reflexivity|]. split; [exact H1|]. split; [vm_compute; reflexivity|].
  apply (H2 binary64); vm_compute; [|discriminate]. split; [discriminate|reflexivity].
Defined.

Lemma bucket_burst_bounded_witness :
  inject_Z (tb_released (run_ops demo_ops demo_bucket) - tb_released demo_bucket)
    < allowance 0 demo_ops demo_bucket + 20 * 5 + 1.
Proof.
  apply (bucket_burst_bounded 20 demo_bucket 0 demo_ops); [by split|cbn; repeat split; done|].
  vm_compute. repeat split; discriminate.
Defined.

Lemma bucket_accounts_witness :
  let ops := [(1, OpTry); (60, OpMany 100)] in
  let b' := run_ops ops demo_bucket in
  (tb_discarded_s b' == 549 # 10) /\
  10 * (60 - 0) == inject_Z (tb_released b' - 0) + (backlog b' 60 - backlog demo_bucket 0)
    + 10 * (tb_discarded_s b' - 0).
Proof.
  split; [reflexivity|].
  apply (bucket_accounts demo_bucket 0 [(1, OpTry); (60, OpMany 100)]); [by split|].
  intros t r H. set_solver.
Defined.

Lemma blocking_calls_return_witness :
  let wakeups i := mkWakeup id (inject_Z (Z.of_nat i)) 0 in
  snd (acquire None 0 wakeups 2 demo_bucket) = Some true.
Proof.
  cbv zeta.
  apply (proj1 (blocking_calls_return demo_bucket (fun i => mkWakeup id (inject_Z (Z.of_nat i)) 0)
    0 1 3 ltac:(by split) eq_refl eq_refl (fun _ => eq_refl)
    ltac:(intros j; cbn [wk_now]; unfold clamp_wait;
          rewrite Nat2Z.inj_succ; unfold Z.succ; rewrite inject_Z_plus;
          apply Qplus_le_r; eapply Qle_trans; [apply Q.le_min_r|done])
    ltac:(vm_compute; discriminate))).
  reflexivity.
Defined.

(** One tenth of an event per second at the default window: after a day of
    waiting, and with a hundred lines to send, nothing is granted. *)
Lemma batches_starve_below_one_event_witness :
  tb_released (run_ops [(60, OpMany 100); (3600, OpLag); (86400, OpMany 100)]
                 (mkBucket (1 # 10) 5 0 0 false false 0)) = 0%Z.
Proof.
  apply (batches_starve_below_one_event (mkBucket (1 # 10) 5 0 0 false false 0)).
  - by split.
  - reflexivity.
  - intros now op H. rewrite !elem_of_cons, elem_of_nil in H.
    destruct H as [[= -> ->]|[[= -> ->]|[[= -> ->]|[]]]]; eauto.
Defined.
End Witnesses.

(** The same starvation in binary64. *)
Example batches_starve_binary64 :
  let R := binary64 in
  tb_released (run_ops [(60, OpMany 100); (3600, OpLag); (86400, OpMany 100)]
    (mkBucket (rnd (1 # 10)) 5 0 0 false false 0)) = 0%Z.
Proof. vm_compute. reflexivity. Qed.
