(* ===== verification/HecClient.v ===== *)
(** * The HEC client (worker/stoker_agent/hec_client.py)

    A bounded queue, producers that block on it, and sender threads that batch
    the queue and post each batch with a fixed retry policy.  [send_batch] is
    one sender's treatment of one batch, whatever the endpoint answers; the
    step relation [hstep] is the interleaving of producers, senders and the
    drain.  The theorems: a batch is resolved exactly once, nothing that was
    accepted is lost or counted twice, memory is bounded, and a drain that
    reports success has resolved everything. *)

From S2P Require Import Prelude.
From S2P Require Import PyFloat.
From S2P Require Import PyValue.
From S2P Require Import Json.
From Stdlib Require Import QArith Qminmax Lqa.
Open Scope Z_scope.

(** ** Envelopes *)

Definition ENVELOPE_META_KEYS : list string := ["time"; "host"; "source"; "sourcetype"; "index"].

(** The document of an envelope, [None] for the [KeyError] of a missing event. *)
Definition envelope_doc (envelope : jobj) : option jobj :=
  event ← jfind envelope "event";
  Some (omap (fun key => match jget envelope key with JNull => None | v => Some (key, v) end)
          ENVELOPE_META_KEYS
        ++ [("event", event)]
        ++ (let fields := jget envelope "fields" in
            if jtruthy fields then [("fields", fields)] else [])).

(** A queue item: an envelope, the bytes of one final object, or a line batch. *)
Inductive item : Type :=
  | IEnvelope (envelope : jobj)
  | IBytes (line : string)
  | ILines (lines : list string).

Definition item_events (i : item) : Z :=
  match i with ILines ls => Z.of_nat (length ls) | _ => 1 end.

Definition line_batch (i : item) : bool := match i with ILines _ => true | _ => false end.

(** ** State *)

Inductive counter : Type :=
  | events_total | bytes_total | hec_2xx | hec_4xx | hec_5xx | hec_timeouts | retries
  | dropped | dropped_invalid.

Global Instance counter_eq_dec : EqDecision counter.
Proof. solve_decision. Defined.

Record hec : Type := mkHec {
  h_queue : list item;
  h_queue_max : Z;
  h_line_events : Z;
  h_line_items : Z;
  h_counters : counter -> Z;
  h_auth_failed : bool;
  h_stopping : bool;
  h_abort : bool;
}.

Definition new_hec (queue_max : Z) : hec :=
  mkHec [] queue_max 0 0 (fun _ => 0) false false false.

Definition set_queue (q : list item) (h : hec) : hec :=
  mkHec q (h_queue_max h) (h_line_events h) (h_line_items h) (h_counters h) (h_auth_failed h)
    (h_stopping h) (h_abort h).

Definition add_lines (events items : Z) (h : hec) : hec :=
  mkHec (h_queue h) (h_queue_max h) (h_line_events h + events) (h_line_items h + items)
    (h_counters h) (h_auth_failed h) (h_stopping h) (h_abort h).

Definition inc (key : counter) (n : Z) (h : hec) : hec :=
  mkHec (h_queue h) (h_queue_max h) (h_line_events h) (h_line_items h)
    (fun k => if decide (k = key) then h_counters h k + n else h_counters h k)
    (h_auth_failed h) (h_stopping h) (h_abort h).

Definition set_auth_failed (h : hec) : hec :=
  mkHec (h_queue h) (h_queue_max h) (h_line_events h) (h_line_items h) (h_counters h) true
    (h_stopping h) (h_abort h).

Definition begin_stop (h : hec) : hec :=
  mkHec (h_queue h) (h_queue_max h) (h_line_events h) (h_line_items h) (h_counters h)
    (h_auth_failed h) true (h_abort h).

Definition set_abort (h : hec) : hec :=
  mkHec (h_queue h) (h_queue_max h) (h_line_events h) (h_line_items h) (h_counters h)
    (h_auth_failed h) (h_stopping h) true.

Definition release_lines (n : Z) : hec -> hec := add_lines (- n) (- 1).

(** Events waiting: a line batch counts its events, not one slot. *)
Definition depth (h : hec) : Z :=
  Z.max 0 (Z.of_nat (length (h_queue h)) - h_line_items h) + h_line_events h.

(** ** Sending a batch *)

(** What one attempt meets: whether the abort flag is up before it, the reply
    ([Failed] is any transport error), and whether the abort flag is raised
    during the wait after it. *)
Inductive reply : Type := Failed | Status (code : Z).
Record attempt_env : Type := mkAttempt {
  ae_abort : bool;
  ae_reply : reply;
  ae_abort_wait : bool;
}.

Definition is_2xx (status : Z) : bool := (200 <=? status) && (status <? 300).

Fixpoint send_attempts (max_attempts todo attempt : nat) (env : nat -> attempt_env)
    (count nbytes : Z) (h : hec) : hec :=
  match todo with
  | O => inc dropped count h
  | S todo =>
      let e := env attempt in
      if ae_abort e then inc dropped count h
      else
        let transient h :=
          if (S attempt <? max_attempts)%nat then
            let h := inc retries 1 h in
            if ae_abort_wait e then inc dropped count h
            else send_attempts max_attempts todo (S attempt) env count nbytes h
          else send_attempts max_attempts todo (S attempt) env count nbytes h in
        match ae_reply e with
        | Failed => transient (inc hec_timeouts 1 h)
        | Status status =>
            if is_2xx status
            then inc bytes_total nbytes (inc events_total count (inc hec_2xx 1 h))
            else if status =? 400 then inc dropped_invalid count (inc hec_4xx 1 h)
            else if (status =? 401) || (status =? 403)
            then set_auth_failed (inc dropped count (inc hec_4xx 1 h))
            else if 500 <=? status then transient (inc hec_5xx 1 h)
            else inc dropped count (inc hec_4xx 1 h)
        end
  end.

Definition send_batch (max_attempts : nat) (env : nat -> attempt_env) (count nbytes : Z)
    : hec -> hec := send_attempts max_attempts max_attempts 0 env count nbytes.

(** The wait before a retry; [jitter] is [random.uniform(0.5, 1.5)]. *)
Definition retry_delay {R : Rounding} (base cap jitter : Q) (attempt : nat) : Q :=
  Qmin cap (fmul (fmul base (inject_Z (2 ^ Z.of_nat attempt))) jitter).

(** ** Collecting a batch *)

Section Collect.
Context (dumps : jobj -> option string).

Definition serialise_envelope (envelope : jobj) : option string :=
  doc ← envelope_doc envelope; dumps doc.

Definition serialise_or_count (i : item) (h : hec) : hec * option string :=
  match i with
  | IBytes line => (h, Some line)
  | IEnvelope e =>
      match serialise_envelope e with
      | Some line => (h, Some line)
      | None => (inc dropped_invalid 1 h, None)
      end
  | ILines _ => (h, None)
  end.

Fixpoint total_length (ls : list string) : Z :=
  match ls with [] => 0 | l :: ls => Z.of_nat (String.length l) + total_length ls end.

(** [_absorb]: the client, the lines and the bytes added. *)
Definition absorb (i : item) (lines : list string) (h : hec) : hec * list string * Z :=
  match i with
  | ILines ls =>
      let n := Z.of_nat (length ls) in
      (release_lines n h, lines ++ ls, total_length ls + n)
  | _ =>
      match serialise_or_count i h with
      | (h, Some line) => (h, lines ++ [line], Z.of_nat (String.length line) + 1)
      | (h, None) => (h, lines, 0)
      end
  end.

(** [self._queue.get()] *)
Definition pop (h : hec) : option (item * hec) :=
  match h_queue h with [] => None | i :: q => Some (i, set_queue q h) end.
End Collect.

(** ** The threads together *)

(** A sender: the lines and bytes of the batch it is filling, or gone. *)
Inductive sender : Type :=
  | Collecting (lines : list string) (size : Z)
  | Exited.

(** The client, the items producers have been admitted with and not yet queued
    (a line batch among them has its space reserved), the senders, and the
    number of events ever queued. *)
Record sys : Type := mkSys {
  s_hec : hec;
  s_pending : list item;
  s_senders : list sender;
  s_enqueued : Z;
}.

Section System.
Context (dumps : jobj -> option string) (max_attempts : nat) (batch_bytes : Z).

(** [len(b"\n".join(lines))] *)
Definition body_length (lines : list string) : Z :=
  total_length lines + Z.max 0 (Z.of_nat (length lines) - 1).

Inductive hstep : sys -> sys -> Prop :=
  (** [put]: the stop flag is down. *)
  | st_put h ps ss n i :
      line_batch i = false -> h_stopping h = false ->
      hstep (mkSys h ps ss n) (mkSys h (ps ++ [i]) ss n)
  (** [put_lines]: space for the batch, or an empty queue. *)
  | st_reserve h ps ss n ls :
      ls <> [] -> h_stopping h = false ->
      h_line_events h = 0 \/ h_line_events h + Z.of_nat (length ls) <= h_queue_max h ->
      hstep (mkSys h ps ss n)
        (mkSys (add_lines (Z.of_nat (length ls)) 1 h) (ps ++ [ILines ls]) ss n)
  (** [self._queue.put] finds a slot. *)
  | st_enqueue h pre i post ss n :
      Z.of_nat (length (h_queue h)) < h_queue_max h ->
      hstep (mkSys h (pre ++ i :: post) ss n)
        (mkSys (set_queue (h_queue h ++ [i]) h) (pre ++ post) ss (n + item_events i))
  (** The stop flag is up: the producer is refused. *)
  | st_reject h pre i post ss n :
      h_stopping h = true ->
      hstep (mkSys h (pre ++ i :: post) ss n)
        (mkSys (if line_batch i then release_lines (item_events i) h else h) (pre ++ post) ss n)
  (** [_collect_batch] takes an item: the first, or one more while the batch is
      small and no abort is under way. *)
  | st_get h h1 h2 ps ss n s lines size i lines' added :
      ss !! s = Some (Collecting lines size) ->
      lines = [] \/ size < batch_bytes /\ h_abort h = false ->
      pop h = Some (i, h1) -> absorb dumps i lines h1 = (h2, lines', added) ->
      hstep (mkSys h ps ss n) (mkSys h2 ps (<[ s := Collecting lines' (size + added) ]> ss) n)
  (** The batch is complete, or its time is over: it is sent. *)
  | st_send h ps ss n s lines size env :
      ss !! s = Some (Collecting lines size) -> lines <> [] ->
      hstep (mkSys h ps ss n)
        (mkSys (send_batch max_attempts env (Z.of_nat (length lines)) (body_length lines) h) ps
           (<[ s := Collecting [] 0 ]> ss) n)
  (** Stopped and drained: the sender returns. *)
  | st_exit h ps ss n s size :
      ss !! s = Some (Collecting [] size) -> h_queue h = [] -> h_stopping h = true ->
      hstep (mkSys h ps ss n) (mkSys h ps (<[ s := Exited ]> ss) n)
  | st_stop h ps ss n : hstep (mkSys h ps ss n) (mkSys (begin_stop h) ps ss n)
  | st_abort h ps ss n : hstep (mkSys h ps ss n) (mkSys (set_abort h) ps ss n).

Definition init_sys (queue_max : Z) (senders : nat) : sys :=
  mkSys (new_hec queue_max) [] (replicate senders (Collecting [] 0)) 0.

(** What [flush_and_stop] returns. *)
Definition flushed (s : sys) : bool :=
  bool_decide (h_queue (s_hec s) = []) &&
  forallb (fun x => match x with Exited => true | _ => false end) (s_senders s).
End System.

(** ** Measures *)

Fixpoint events_in (l : list item) : Z :=
  match l with [] => 0 | i :: l => item_events i + events_in l end.

Fixpoint line_events_in (l : list item) : Z :=
  match l with
  | [] => 0
  | i :: l => (if line_batch i then item_events i else 0) + line_events_in l
  end.

Fixpoint line_items_in (l : list item) : Z :=
  match l with [] => 0 | i :: l => (if line_batch i then 1 else 0) + line_items_in l end.

Definition in_flight (x : sender) : Z :=
  match x with Collecting lines _ => Z.of_nat (length lines) | Exited => 0 end.

Fixpoint flight (ss : list sender) : Z :=
  match ss with [] => 0 | x :: ss => in_flight x + flight ss end.

(** Events that were delivered, or terminally counted as lost. *)
Definition resolved (h : hec) : Z :=
  h_counters h events_total + h_counters h dropped + h_counters h dropped_invalid.

Record hinv (s : sys) : Prop := {
  hi_events : s_enqueued s = resolved (s_hec s) + events_in (h_queue (s_hec s)) + flight (s_senders s);
  hi_line_events : h_line_events (s_hec s) = line_events_in (h_queue (s_hec s) ++ s_pending s);
  hi_line_items : h_line_items (s_hec s) = line_items_in (h_queue (s_hec s) ++ s_pending s);
  hi_bound : h_line_events (s_hec s) <= h_queue_max (s_hec s) \/ h_line_items (s_hec s) <= 1;
  hi_slots : Z.of_nat (length (h_queue (s_hec s))) <= h_queue_max (s_hec s);
  hi_lines : forall ls, ILines ls ∈ h_queue (s_hec s) ++ s_pending s -> ls <> [];
}.

Lemma events_in_app l1 l2 : events_in (l1 ++ l2) = events_in l1 + events_in l2.
Proof. induction l1; cbn; lia. Qed.
Lemma line_events_in_app l1 l2 : line_events_in (l1 ++ l2) = line_events_in l1 + line_events_in l2.
Proof. induction l1; cbn; lia. Qed.
Lemma line_items_in_app l1 l2 : line_items_in (l1 ++ l2) = line_items_in l1 + line_items_in l2.
Proof. induction l1; cbn; lia. Qed.

Lemma item_events_nonneg i : 0 <= item_events i.
Proof. destruct i; cbn; lia. Qed.

Lemma line_in_nonneg l : 0 <= line_events_in l /\ 0 <= line_items_in l.
Proof.
  induction l as [|i l IH]; cbn; [lia|]. pose proof (item_events_nonneg i). destruct (line_batch i); lia.
Qed.

(** Without line batches there are no line events. *)
Lemma no_line_items l : line_items_in l = 0 -> line_events_in l = 0.
Proof.
  induction l as [|i l IH]; cbn; [done|]. pose proof (line_in_nonneg l).
  destruct (line_batch i); lia.
Qed.

Lemma flight_insert ss s x y : ss !! s = Some x ->
  flight (<[ s := y ]> ss) = flight ss - in_flight x + in_flight y.
Proof.
  revert s. induction ss as [|z ss IH]; intros [|s] Hs; [done|done| |].
  - injection Hs as ->. cbn. lia.
  - change (<[S s := y]> (z :: ss)) with (z :: <[s := y]> ss). cbn [flight].
    rewrite (IH s Hs). lia.
Qed.

Create Rewrite HintDb hec.
#[export] Hint Rewrite events_in_app line_events_in_app line_items_in_app : hec.

(** ** One batch *)

(** How a batch ends. *)
Inductive verdict : Type := Delivered | Invalid | Unauthorised | Abandoned.

(** The verdict of one attempt, when it settles the batch. *)
Definition decisive (max_attempts : nat) (env : nat -> attempt_env) (k : nat) : option verdict :=
  let e := env k in
  if ae_abort e then Some Abandoned
  else
    let transient :=
      if ((S k <? max_attempts)%nat && ae_abort_wait e) then Some Abandoned else None in
    match ae_reply e with
    | Failed => transient
    | Status status =>
        if is_2xx status then Some Delivered
        else if status =? 400 then Some Invalid
        else if (status =? 401) || (status =? 403) then Some Unauthorised
        else if 500 <=? status then transient
        else Some Abandoned
    end.

(** The first attempt that settles it; running out of attempts abandons it. *)
Definition verdict_of (max_attempts : nat) (env : nat -> attempt_env) : verdict :=
  default Abandoned (head (omap (decisive max_attempts env) (seq 0 max_attempts))).

Definition charge (v : verdict) (n : Z) (k : counter) : Z :=
  match v, k with
  | Delivered, events_total => n
  | Invalid, dropped_invalid => n
  | (Unauthorised | Abandoned), dropped => n
  | _, _ => 0
  end.

Definition responses (h : hec) : Z :=
  h_counters h hec_2xx + h_counters h hec_4xx + h_counters h hec_5xx + h_counters h hec_timeouts.

(** What [send_attempts] leaves alone. *)
Definition same_but_counters (h h' : hec) : Prop :=
  h_queue h' = h_queue h /\ h_queue_max h' = h_queue_max h /\
  h_line_events h' = h_line_events h /\ h_line_items h' = h_line_items h /\
  h_stopping h' = h_stopping h /\ h_abort h' = h_abort h.

Definition is_auth (v : verdict) : bool := match v with Unauthorised => true | _ => false end.

Record settles (v : verdict) (todo : nat) (count nbytes : Z) (h h' : hec) : Prop := {
  se_frame : same_but_counters h h';
  se_charge k : k = events_total \/ k = dropped \/ k = dropped_invalid ->
    h_counters h' k = h_counters h k + charge v count k;
  se_bytes : h_counters h' bytes_total =
    h_counters h bytes_total + match v with Delivered => nbytes | _ => 0 end;
  se_responses : responses h <= responses h' <= responses h + Z.of_nat todo;
  se_retries : h_counters h retries <= h_counters h' retries
    <= h_counters h retries + Z.max 0 (Z.of_nat todo - 1);
  se_auth : h_auth_failed h' = h_auth_failed h || is_auth v;
}.

(** Evaluate the counters of a client built by increments. *)
Lemma inc_same key n h : h_counters (inc key n h) key = h_counters h key + n.
Proof. cbn. by rewrite decide_True. Qed.
Lemma inc_other key k n h : k <> key -> h_counters (inc key n h) k = h_counters h k.
Proof. intros. cbn. by rewrite decide_False. Qed.
Lemma auth_counters h : h_counters (set_auth_failed h) = h_counters h.
Proof. done. Qed.

Ltac counters :=
  unfold responses in *; rewrite ?auth_counters in *;
  repeat (rewrite inc_same in * || rewrite inc_other in * by done); try lia.

Ltac settle :=
  split; [by repeat split
         |intros ? [->|[->| ->]]; counters; cbn [charge]; lia
         |counters|counters|counters
         |cbn; by rewrite ?orb_false_r, ?orb_true_r].

(** An attempt that did not settle the batch, and the rest of them. *)
Lemma settles_after key v todo count nbytes h h' :
  (key = hec_timeouts \/ key = hec_5xx) ->
  settles v todo count nbytes (inc key 1 h) h' ->
  settles v (S todo) count nbytes h h'.
Proof.
  intros Hk [F C B Rs Rt A]. split; [exact F| | | | |exact A];
    destruct Hk as [-> | ->]; counters;
    intros k Hk; rewrite (C k Hk); destruct Hk as [->|[->| ->]]; counters.
Qed.

Lemma settles_retry key v todo count nbytes h h' :
  (key = hec_timeouts \/ key = hec_5xx) -> (0 < todo)%nat ->
  settles v todo count nbytes (inc retries 1 (inc key 1 h)) h' ->
  settles v (S todo) count nbytes h h'.
Proof.
  intros Hk Ht [F C B Rs Rt A]. split; [exact F| | | | |exact A];
    destruct Hk as [-> | ->]; counters;
    intros k Hk; rewrite (C k Hk); destruct Hk as [->|[->| ->]]; counters.
Qed.

Lemma send_attempts_settles max env count nbytes todo : forall attempt h,
  (attempt + todo = max)%nat ->
  settles (default Abandoned (head (omap (decisive max env) (seq attempt todo)))) todo count nbytes
    h (send_attempts max todo attempt env count nbytes h).
Proof.
  induction todo as [|todo IH]; intros attempt h Hmax.
  { cbn [send_attempts seq omap list_omap head default]. settle. }
  cbn [send_attempts seq]. cbn [omap list_omap]. unfold decisive at 1. cbv zeta.
  destruct (ae_abort (env attempt)) eqn:Ea; [cbn [head default from_option id]; settle|].
  assert (forall key, (key = hec_timeouts \/ key = hec_5xx) ->
    settles (default Abandoned (head match
        (if ((S attempt <? max)%nat && ae_abort_wait (env attempt)) then Some Abandoned else None)
        with Some y => y :: omap (decisive max env) (seq (S attempt) todo)
        | None => omap (decisive max env) (seq (S attempt) todo) end)) (S todo) count nbytes h
      (let h := inc key 1 h in
       if (S attempt <? max)%nat then
         let h := inc retries 1 h in
         if ae_abort_wait (env attempt) then inc dropped count h
         else send_attempts max todo (S attempt) env count nbytes h
       else send_attempts max todo (S attempt) env count nbytes h)) as Htr.
  { intros key Hkey. cbv zeta. destruct (Nat.ltb_spec (S attempt) max) as [Hlt|Hge]; cbn [andb].
    - destruct (ae_abort_wait (env attempt)); cbn [head default from_option id].
      + destruct Hkey as [-> | ->]; settle.
      + apply (settles_retry key); [done|lia|]. apply IH. lia.
    - apply (settles_after key); [done|]. apply IH. lia. }
  destruct (ae_reply (env attempt)) as [|status]; [apply (Htr hec_timeouts); by left|].
  destruct (is_2xx status); [cbn [head default from_option id]; settle|].
  destruct (status =? 400); [cbn [head default from_option id]; settle|].
  destruct ((status =? 401) || (status =? 403)); [cbn [head default from_option id]; settle|].
  destruct (500 <=? status); [apply (Htr hec_5xx); by right|cbn [head default from_option id]; settle].
Qed.

Lemma send_batch_settles max env count nbytes h :
  settles (verdict_of max env) max count nbytes h (send_batch max env count nbytes h).
Proof. by apply send_attempts_settles. Qed.

Lemma settles_resolved v todo count nbytes h h' :
  settles v todo count nbytes h h' -> resolved h' = resolved h + count.
Proof.
  intros [_ C _ _ _ _]. unfold resolved.
  rewrite !C by tauto. destruct v; cbn [charge]; lia.
Qed.

(** ** The invariant *)

Section Invariant.
Context (dumps : jobj -> option string) (max_attempts : nat) (batch_bytes : Z).
Abbreviation step := (hstep dumps max_attempts batch_bytes).

Lemma init_inv queue_max senders : 0 <= queue_max -> hinv (init_sys queue_max senders).
Proof.
  intros. assert (flight (replicate senders (Collecting [] 0)) = 0) as E.
  { clear. induction senders; cbn in *; lia. }
  split; cbn; rewrite ?E; try done; try lia. set_solver.
Qed.

(** Taking an item from the queue into a batch moves its events. *)
Lemma absorb_spec i lines h h' lines' added :
  absorb dumps i lines h = (h', lines', added) ->
  resolved h' + Z.of_nat (length lines') = resolved h + Z.of_nat (length lines) + item_events i /\
  h_queue h' = h_queue h /\ h_queue_max h' = h_queue_max h /\
  h_stopping h' = h_stopping h /\
  h_line_events h' = h_line_events h - (if line_batch i then item_events i else 0) /\
  h_line_items h' = h_line_items h - (if line_batch i then 1 else 0).
Proof.
  destruct i as [e|l|ls]; cbn [absorb serialise_or_count line_batch item_events].
  - destruct (serialise_envelope dumps e); intros [= <- <- <-]; unfold resolved; counters;
      rewrite ?length_app; cbn [length h_queue h_queue_max h_stopping h_line_events h_line_items inc];
      repeat split; lia.
  - intros [= <- <- <-]. rewrite length_app. cbn [length]. unfold resolved. repeat split; lia.
  - intros [= <- <- <-]. rewrite length_app. unfold resolved. cbn. repeat split; lia.
Qed.

Lemma pop_spec h i h1 : pop h = Some (i, h1) -> h_queue h = i :: h_queue h1 /\ h1 = set_queue (h_queue h1) h.
Proof. unfold pop. destruct (h_queue h); [done|]. intros [= -> <-]. done. Qed.

Lemma lines_zero l : (forall ls, ILines ls ∈ l -> ls <> []) ->
  line_events_in l = 0 -> line_items_in l = 0.
Proof.
  induction l as [|i l IH]; intros Hl; cbn; [done|]. pose proof (line_in_nonneg l).
  pose proof (item_events_nonneg i).
  assert (forall ls, ILines ls ∈ l -> ls <> []) as Hl' by (intros; apply Hl; by right).
  destruct i as [e|b|[|x ls]]; cbn [line_batch item_events]; [intros; apply IH; [done|lia]..| |].
  - exfalso. by apply (Hl []); [left|].
  - cbn. lia.
Qed.

Ltac hsplit :=
  unfold resolved, release_lines in *;
  split; unfold resolved; cbn [h_counters s_hec s_pending s_senders s_enqueued h_queue h_queue_max h_line_events h_line_items
    set_queue add_lines begin_stop set_abort] in *; try done;
  rewrite ?app_assoc in *; autorewrite with hec in *;
  cbn [line_events_in line_items_in line_batch item_events events_in] in *; try lia.

Lemma put_inv h ps ss n i : line_batch i = false ->
  hinv (mkSys h ps ss n) -> hinv (mkSys h (ps ++ [i]) ss n).
Proof.
  intros Hi [Ev Le Li Bd Sl Ln]. hsplit; rewrite ?Hi; try lia.
  intros ls [Hin|Hin]%elem_of_app; [by apply Ln|]. apply list_elem_of_singleton in Hin as <-. done.
Qed.

Lemma reserve_inv h ps ss n ls : ls <> [] ->
  h_line_events h = 0 \/ h_line_events h + Z.of_nat (length ls) <= h_queue_max h ->
  hinv (mkSys h ps ss n) ->
  hinv (mkSys (add_lines (Z.of_nat (length ls)) 1 h) (ps ++ [ILines ls]) ss n).
Proof.
  intros Hls Hsp [Ev Le Li Bd Sl Ln]. cbn [s_hec s_pending] in *.
  pose proof (lines_zero _ Ln) as Hz. rewrite <- Le, <- Li in Hz. hsplit.
  intros ls' [Hin|Hin]%elem_of_app; [by apply Ln|].
  apply list_elem_of_singleton in Hin. by injection Hin as ->.
Qed.

Lemma enqueue_inv h pre i post ss n :
  Z.of_nat (length (h_queue h)) < h_queue_max h ->
  hinv (mkSys h (pre ++ i :: post) ss n) ->
  hinv (mkSys (set_queue (h_queue h ++ [i]) h) (pre ++ post) ss (n + item_events i)).
Proof.
  intros Hq [Ev Le Li Bd Sl Ln]. hsplit.
  - rewrite length_app. cbn [length]. lia.
  - intros ls Hin. apply Ln. set_solver.
Qed.

Lemma reject_inv h pre i post ss n :
  hinv (mkSys h (pre ++ i :: post) ss n) ->
  hinv (mkSys (if line_batch i then release_lines (item_events i) h else h) (pre ++ post) ss n).
Proof.
  intros [Ev Le Li Bd Sl Ln]. pose proof (item_events_nonneg i).
  assert (forall ls, ILines ls ∈ h_queue h ++ pre ++ post -> ls <> []) as Ln'.
  { intros ls Hin. apply Ln. cbn. set_solver. }
  destruct (line_batch i) eqn:E; hsplit; rewrite ?E in *; try lia.
Qed.

Lemma get_inv h h1 h2 ps ss n x lines size i lines' added :
  ss !! x = Some (Collecting lines size) ->
  pop h = Some (i, h1) -> absorb dumps i lines h1 = (h2, lines', added) ->
  hinv (mkSys h ps ss n) ->
  hinv (mkSys h2 ps (<[ x := Collecting lines' (size + added) ]> ss) n).
Proof.
  intros Hx Hp Ha [Ev Le Li Bd Sl Ln]. pose proof (item_events_nonneg i).
  apply pop_spec in Hp as [Eq E1]. apply absorb_spec in Ha as (A1 & A2 & A3 & _ & A4 & A5).
  assert (resolved h1 = resolved h /\ h_queue_max h1 = h_queue_max h /\
          h_line_events h1 = h_line_events h /\ h_line_items h1 = h_line_items h)
    as (E2 & E3 & E4 & E5) by (rewrite E1; done).
  cbn [s_hec s_pending s_senders s_enqueued] in *. rewrite Eq in *.
  split; cbn [s_hec s_pending s_senders s_enqueued];
    rewrite ?A2, ?A3, ?A4, ?A5, ?E3, ?E4, ?E5, ?(flight_insert _ _ _ _ Hx);
    cbn [in_flight events_in line_events_in line_items_in app length] in *; try lia;
    try (destruct (line_batch i); lia).
  intros ls Hin. apply Ln. by right.
Qed.

Lemma send_inv h ps ss n x lines size env :
  ss !! x = Some (Collecting lines size) ->
  hinv (mkSys h ps ss n) ->
  hinv (mkSys (send_batch max_attempts env (Z.of_nat (length lines)) (body_length lines) h) ps
          (<[ x := Collecting [] 0 ]> ss) n).
Proof.
  intros Hx [Ev Le Li Bd Sl Ln].
  pose proof (send_batch_settles max_attempts env (Z.of_nat (length lines)) (body_length lines) h)
    as Hs. pose proof (settles_resolved _ _ _ _ _ _ Hs) as Er.
  destruct Hs as [(E1 & E2 & E3 & E4 & _) _ _ _ _ _].
  cbn [s_hec s_pending s_senders s_enqueued] in *.
  split; cbn [s_hec s_pending s_senders s_enqueued];
    rewrite ?E1, ?E2, ?E3, ?E4, ?Er, ?(flight_insert _ _ _ _ Hx); try done.
  cbn [in_flight length]. lia.
Qed.

Lemma hstep_inv s s' : step s s' -> hinv s -> hinv s'.
Proof.
  intros Hs Hi. destruct Hs; eauto using put_inv, reserve_inv, enqueue_inv, reject_inv, get_inv, send_inv.
  - destruct Hi as [Ev Le Li Bd Sl Ln]. split; try done. cbn in *.
    rewrite (flight_insert _ _ _ _ H). cbn. lia.
  - by destruct Hi.
  - by destruct Hi.
Qed.

Lemma reachable_inv s s' : rtc step s s' -> hinv s -> hinv s'.
Proof. induction 1; eauto using hstep_inv. Qed.
End Invariant.

(** ** Claims *)

(** A batch is resolved exactly once, whatever the endpoint answers and
    whenever the client is aborted.  [send_batch] charges its events to exactly
    one of delivered, rejected as invalid and dropped, by the first attempt that
    settles it (an attempt is transient on a transport error or a 5xx), counts
    its bytes only on delivery, raises the authentication flag exactly on a 401
    or 403, and makes at most [max_attempts] requests and one retry fewer. *)
Theorem batch_resolved_once max_attempts env count nbytes h :
  let h' := send_batch max_attempts env count nbytes h in
  let v := verdict_of max_attempts env in
  (forall k, k = events_total \/ k = dropped \/ k = dropped_invalid ->
    h_counters h' k = h_counters h k + charge v count k) /\
  h_counters h' bytes_total =
    h_counters h bytes_total + match v with Delivered => nbytes | _ => 0 end /\
  h_auth_failed h' = h_auth_failed h || is_auth v /\
  responses h' - responses h <= Z.of_nat max_attempts /\
  h_counters h' retries - h_counters h retries <= Z.max 0 (Z.of_nat max_attempts - 1) /\
  resolved h' = resolved h + count.
Proof.
  intros h' v. pose proof (send_batch_settles max_attempts env count nbytes h) as Hs.
  pose proof (settles_resolved _ _ _ _ _ _ Hs). destruct Hs as [_ C B Rs Rt A].
  fold h' v in C, B, Rs, Rt, A. repeat split; try done; lia.
Qed.

Section Claims.
Context (dumps : jobj -> option string) (max_attempts : nat) (batch_bytes : Z).
Abbreviation step := (hstep dumps max_attempts batch_bytes).

(** C7: Nothing accepted is lost or counted twice.  In every interleaving of
    producers, senders, stop and abort, the events ever queued are those
    delivered, dropped or rejected, plus those still queued, plus those in the
    batches of the senders; and when [flush_and_stop] finds the queue empty and
    every sender gone, all of them have been delivered or counted. *)
Theorem hec_conserves queue_max senders s :
  0 <= queue_max -> rtc step (init_sys queue_max senders) s ->
  s_enqueued s = resolved (s_hec s) + events_in (h_queue (s_hec s)) + flight (s_senders s) /\
  (flushed s = true -> s_enqueued s = resolved (s_hec s)).
Proof.
  intros Hq Hs. apply reachable_inv in Hs; [|by apply init_inv]. destruct Hs as [Ev _ _ _ _ _].
  split; [done|]. unfold flushed. rewrite andb_true_iff, bool_decide_eq_true. intros [E Hf].
  rewrite E in Ev. cbn [events_in] in Ev.
  assert (flight (s_senders s) = 0); [|lia]. clear -Hf.
  induction (s_senders s) as [|[?|] ss IH]; cbn in *; [done|done|]. by apply IH.
Qed.

(** Memory is bounded.  The queue never holds more than [queue_max] items;
    the events of the line batches that are queued or admitted are at most
    [queue_max], or belong to a single batch (one larger than the bound, let
    into an empty queue); and the reported depth counts every queued event. *)
Theorem hec_memory_bounded queue_max senders s :
  0 <= queue_max -> rtc step (init_sys queue_max senders) s ->
  let h := s_hec s in
  Z.of_nat (length (h_queue h)) <= h_queue_max h /\
  h_line_events h = line_events_in (h_queue h ++ s_pending s) /\
  (h_line_events h <= h_queue_max h \/ line_items_in (h_queue h ++ s_pending s) <= 1) /\
  (s_pending s = [] -> depth h = events_in (h_queue h)).
Proof.
  intros Hq Hs h. apply reachable_inv in Hs; [|by apply init_inv].
  destruct Hs as [_ Le Li Bd Sl _]. fold h in Le, Li, Bd, Sl.
  repeat split; [done|done|rewrite <- Li; done|].
  intros E. rewrite E, app_nil_r in *. unfold depth. rewrite Le, Li.
  assert (Z.of_nat (length (h_queue h)) - line_items_in (h_queue h) + line_events_in (h_queue h)
          = events_in (h_queue h) /\ line_items_in (h_queue h) <= Z.of_nat (length (h_queue h)))
    as [H1 H2]; [|lia].
  clear. induction (h_queue h) as [|[e|b|ls] q IH]; cbn [line_items_in line_events_in events_in
    line_batch item_events length] in *; lia.
Qed.
End Claims.

(** ** Witnesses *)

(** Two events posted in one batch: the first attempt meets a 503, the second a
    timeout, the third is accepted. *)
Definition demo_env (k : nat) : attempt_env :=
  mkAttempt false (match k with O => Status 503 | S O => Failed | _ => Status 200 end) false.

Example demo_batch :
  let h' := send_batch 5 demo_env 2 40 (new_hec 10) in
  (h_counters h' events_total, h_counters h' retries, h_counters h' dropped) = (2, 2, 0).
Proof. reflexivity. Qed.

Definition no_json : jobj -> option string := fun _ => None.

(** A run of the client: a batch of two lines is reserved, queued, taken, sent;
    the client is stopped and the sender leaves. *)
Lemma demo_run : exists s,
  rtc (hstep no_json 5 1000) (init_sys 10 1) s /\ flushed s = true /\ s_enqueued s = 2.
Proof.
  eexists. split; [|split].
  - eapply rtc_l; [apply (st_reserve _ _ _ _ _ _ _ ["{}"; "{}"]); [done|done|by left]|].
    eapply rtc_l; [apply (st_enqueue _ _ _ _ [] _ []); done|].
    eapply rtc_l; [eapply (st_get _ _ _ _ _ _ _ _ _ 0%nat [] 0); [done|by left|done|done]|].
    eapply rtc_l; [eapply (st_send _ _ _ _ _ _ _ 0%nat _ _ demo_env); [done|done]|].
    eapply rtc_l; [apply st_stop|].
    eapply rtc_l; [eapply (st_exit _ _ _ _ _ _ _ 0%nat); [done|done|done]|].
    apply rtc_refl.
  - reflexivity.
  - reflexivity.
Qed.

Lemma hec_conserves_witness : exists s,
  flushed s = true /\ s_enqueued s = 2 /\ s_enqueued s = resolved (s_hec s).
Proof.
  destruct demo_run as (s & Hs & Hf & Hn). exists s. split; [exact Hf|]. split; [exact Hn|].
  exact (proj2 (hec_conserves no_json 5 1000 10 1 s ltac:(lia) Hs) Hf).
Defined.

Lemma hec_memory_bounded_witness : exists s,
  s_enqueued s = 2 /\ Z.of_nat (length (h_queue (s_hec s))) <= h_queue_max (s_hec s).
Proof.
  destruct demo_run as (s & Hs & Hf & Hn). exists s. split; [exact Hn|].
  exact (proj1 (hec_memory_bounded no_json 5 1000 10 1 s ltac:(lia) Hs)).
Defined.
