(* ===== verification/SockServer.v ===== *)
(** * The output socket (worker/stoker_agent/sockserver.py)

    The agent's side of the plugin protocol: a reader per connection splits the
    byte stream into lines, fills the metadata of each event, takes a token per
    event and hands it to the HEC client.  The reader is written against the
    interface [Pipe] of what it uses of the bucket and the client.  The
    theorems: what is forwarded is the valid lines of the stream, in order and
    each once, however the stream was cut into reads; and the bound on
    unterminated data, which one of the two envelopes does not apply. *)

From S2P Require Import Prelude.
From S2P Require Import PyFloat.
From S2P Require Import PyValue.
From S2P Require Import Json.
From S2P Require Import Pacing.
From S2P Require Import HecClient.
From Stdlib Require Import QArith Ascii.
Open Scope Z_scope.

Abbreviation bytes := (list ascii).

(** ** Bytes *)

Definition newline : ascii := "010"%char.

(** [bytes.strip()] *)
Definition is_bspace (c : ascii) : bool :=
  let n := N_of_ascii c in ((9 <=? n) && (n <=? 13) || (n =? 32))%N.

Fixpoint blstrip (s : bytes) : bytes :=
  match s with c :: s' => if is_bspace c then blstrip s' else s | [] => [] end.

Definition bstrip (s : bytes) : bytes := reverse (blstrip (reverse (blstrip s))).

(** [chunk.split(b"\n")] and [parts.pop()]: the complete lines and the rest. *)
Fixpoint split_lines (s : bytes) : list bytes * bytes :=
  match s with
  | [] => ([], [])
  | c :: s =>
      let '(lines, rest) := split_lines s in
      if Ascii.eqb c newline then ([] :: lines, rest)
      else match lines with
           | [] => ([], c :: rest)
           | l :: ls => ((c :: l) :: ls, rest)
           end
  end.

Definition MAX_BUFFER : Z := 4 * 1024 * 1024.

Inductive envelope : Type := Stoker | HecLine.

(** [line.startswith(b"{") and line.endswith(b"}")] *)
Definition object_shape (line : bytes) : bool :=
  bool_decide (head line = Some "{"%char) && bool_decide (last line = Some "}"%char).

(** ** Metadata *)

Definition META_FIELDS : list string := ["index"; "sourcetype"; "source"; "host"].

(** [d[k] = v] on a dict that keeps its order. *)
Fixpoint jset (k : string) (v : json) (d : jobj) : jobj :=
  match d with
  | [] => [(k, v)]
  | (k', v') :: d => if bool_decide (k' = k) then (k, v) :: d else (k', v') :: jset k v d
  end.

Definition is_jnull (j : json) : bool := match j with JNull => true | _ => false end.

Definition fill_field (overrides defaults : jobj) (field : string) (e : jobj) : jobj :=
  match jfind overrides field with
  | Some v => jset field v e
  | None =>
      if is_jnull (jget e field) && negb (is_jnull (jget defaults field))
      then jset field (jget defaults field) e else e
  end.

(** [make_filler(spec)]; [now] is [time.time()]. *)
Definition fill (overrides defaults : jobj) (now : Q) (e : jobj) : jobj :=
  let e := if is_jnull (jget e "time") then jset "time" (JNum now) e else e in
  foldl (fun e field => fill_field overrides defaults field e) e META_FIELDS.

(** ** The pipe *)

(** What is handed to the HEC client. *)
Inductive payload : Type :=
  | PEnvelope (e : jobj)
  | PLine (line : bytes).

(** What the reader uses of the bucket and of the client: the two blocking
    takes, the closed flag, the two puts ([false] is the [RuntimeError] of a
    stopped client), the clock, and the payloads accepted so far.  A batch is
    granted at most what was asked for, and a put that succeeds accepts exactly
    its payload. *)
Class Pipe (W : Type) : Type := {
  p_acquire : W -> W * bool;
  p_acquire_many : Z -> W -> W * Z;
  p_closed : W -> bool;
  p_put : payload -> W -> W * bool;
  p_put_lines : list bytes -> W -> W * bool;
  p_now : W -> Q;
  p_sent : W -> list payload;
  p_acquire_sent w : p_sent (fst (p_acquire w)) = p_sent w;
  p_many_sent n w : p_sent (fst (p_acquire_many n w)) = p_sent w;
  p_many_range n w : 0 < n -> 0 <= snd (p_acquire_many n w) <= n;
  p_put_sent p w : p_sent (fst (p_put p w)) = p_sent w ++ (if snd (p_put p w) then [p] else []);
  p_put_lines_sent ls w :
    p_sent (fst (p_put_lines ls w)) = p_sent w ++ (if snd (p_put_lines ls w) then PLine <$> ls else []);
}.

Section Reader.
Context {W : Type} `{!Pipe W}.
(** [json.loads], the slice's metadata, and the server's configuration. *)
Context (decode : bytes -> option json) (overrides defaults : jobj) (gated : bool) (env : envelope).

(** The server's counters and the world of the pipe. *)
Record sock : Type := mkSock { sk_received : Z; sk_malformed : Z; sk_world : W }.

Definition inc_received (n : Z) (s : sock) : sock :=
  mkSock (sk_received s + n) (sk_malformed s) (sk_world s).
Definition inc_malformed (n : Z) (s : sock) : sock :=
  mkSock (sk_received s) (sk_malformed s + n) (sk_world s).
Definition set_world (w : W) (s : sock) : sock := mkSock (sk_received s) (sk_malformed s) w.

(** One token, or the closed flag when the run is not gated. *)
Definition admit_one (s : sock) : sock * bool :=
  if gated then let '(w, ok) := p_acquire (sk_world s) in (set_world w s, ok)
  else (s, negb (p_closed (sk_world s))).

(** Pace one payload and hand it on; [false] only when draining. *)
Definition forward (p : payload) (s : sock) : sock * bool :=
  let '(s, ok) := admit_one s in
  if ok then
    let '(w, ok) := p_put p (sk_world s) in
    if ok then (inc_received 1 (set_world w s), true) else (set_world w s, false)
  else (s, false).

Definition handle_hec_line (line : bytes) (s : sock) : sock * bool :=
  if object_shape line then forward (PLine line) s else (inc_malformed 1 s, true).

(** The envelope of a line: an object with an event. *)
Definition decoded (line : bytes) : option jobj :=
  match decode line with
  | Some (JObj e) => if is_jnull (jget e "event") then None else Some e
  | _ => None
  end.

Definition handle_line (line : bytes) (s : sock) : sock * bool :=
  let line := bstrip line in
  if bool_decide (line = []) then (s, true)
  else match env with
       | HecLine => handle_hec_line line s
       | Stoker =>
           match decoded line with
           | None => (inc_malformed 1 s, true)
           | Some e => forward (PEnvelope (fill overrides defaults (p_now (sk_world s)) e)) s
           end
       end.

Fixpoint handle_lines (lines : list bytes) (s : sock) : sock * bool :=
  match lines with
  | [] => (s, true)
  | l :: ls => match handle_line l s with (s, true) => handle_lines ls s | r => r end
  end.

(** The good lines of one read, and how many are bad. *)
Definition hec_good (parts : list bytes) : list bytes :=
  List.filter object_shape (List.filter (fun l => negb (bool_decide (l = []))) (bstrip <$> parts)).
Definition hec_bad (parts : list bytes) : Z :=
  Z.of_nat (length (List.filter (fun l => negb (bool_decide (l = [])) && negb (object_shape l))
                      (bstrip <$> parts))).

(** [while good: ...]; every grant is of at least one line, so as many turns as
    lines are enough. *)
Fixpoint send_good (fuel : nat) (good : list bytes) (s : sock) : sock * bool :=
  match good with
  | [] => (s, true)
  | _ =>
      match fuel with
      | O => (s, true)
      | S fuel =>
          let n := Z.of_nat (length good) in
          let '(s, granted) :=
            if gated then let '(w, k) := p_acquire_many n (sk_world s) in (set_world w s, k)
            else (s, if p_closed (sk_world s) then 0 else n) in
          if granted =? 0 then (s, false)
          else
            let batch := take (Z.to_nat granted) good in
            let '(w, ok) := p_put_lines batch (sk_world s) in
            if ok
            then send_good fuel (drop (Z.to_nat granted) good)
                   (inc_received (Z.of_nat (length batch)) (set_world w s))
            else (set_world w s, false)
      end
  end.

Definition handle_hec_lines (parts : list bytes) (s : sock) : sock * bool :=
  let good := hec_good parts in
  let bad := hec_bad parts in
  send_good (length good) good (if bad =? 0 then s else inc_malformed bad s).

(** ** The stream *)

Inductive recv : Type :=
  | RChunk (chunk : bytes)   (* some bytes; none is the end of the stream *)
  | RTimeout
  | RError.                  (* a socket error, or the stop flag *)

(** One chunk: the unterminated rest, the state, and whether to go on. *)
Definition read_chunk (chunk buf : bytes) (s : sock) : bytes * sock * bool :=
  let '(parts, buf) := split_lines (buf ++ chunk) in
  match env with
  | HecLine => let '(s, ok) := handle_hec_lines parts s in (buf, s, ok)
  | Stoker =>
      match handle_lines parts s with
      | (s, false) => (buf, s, false)
      | (s, true) =>
          if Z.of_nat (length buf) <=? MAX_BUFFER then (buf, s, true)
          else ([], inc_malformed 1 s, true)
      end
  end.

(** How a reader ends. *)
Inductive ending : Type := AtEof | Draining | Broken | Waiting.

(** [_read_stream] over what the socket delivers. *)
Fixpoint read_stream (input : list recv) (buf : bytes) (s : sock) : sock * ending :=
  match input with
  | [] => (s, Waiting)
  | RTimeout :: input => read_stream input buf s
  | RError :: _ => (s, Broken)
  | RChunk [] :: _ =>
      if bool_decide (bstrip buf = []) then (s, AtEof)
      else let '(s, ok) := handle_line buf s in (s, if ok then AtEof else Draining)
  | RChunk chunk :: input =>
      match read_chunk chunk buf s with
      | (buf, s, true) => read_stream input buf s
      | (_, s, false) => (s, Draining)
      end
  end.

(** ** Splitting *)

Lemma split_lines_cons c s :
  split_lines (c :: s) =
    if Ascii.eqb c newline then ([] :: (split_lines s).1, (split_lines s).2)
    else match (split_lines s).1 with
         | [] => ([], c :: (split_lines s).2)
         | l :: ls => ((c :: l) :: ls, (split_lines s).2)
         end.
Proof. cbn. by destruct (split_lines s) as [ls r]. Qed.

(** Splitting in two reads is splitting once: the rest of the first is carried. *)
Lemma split_lines_app a b :
  split_lines (a ++ b) =
    ((split_lines a).1 ++ (split_lines ((split_lines a).2 ++ b)).1,
     (split_lines ((split_lines a).2 ++ b)).2).
Proof.
  induction a as [|c a IH]; [cbn; by destruct (split_lines b)|].
  change ((c :: a) ++ b) with (c :: (a ++ b)). rewrite !split_lines_cons, IH. cbn [fst snd].
  destruct (Ascii.eqb c newline) eqn:Ec; cbn [fst snd]; [done|].
  destruct (split_lines a) as [[|l ls] r]; cbn [fst snd app]; [|done].
  rewrite split_lines_cons, Ec. by destruct (split_lines (r ++ b)) as [[|l' ls'] r'].
Qed.

Lemma split_lines_rest s : split_lines (split_lines s).2 = ([], (split_lines s).2).
Proof.
  induction s as [|c s IH]; [done|]. rewrite split_lines_cons.
  destruct (Ascii.eqb c newline) eqn:E; cbn [fst snd]; [done|].
  destruct (split_lines s) as [[|l ls] r] eqn:Es; cbn [fst snd] in *; [|done].
  by rewrite split_lines_cons, E, IH.
Qed.

(** The rest carried over is the beginning of the next line. *)
Lemma rest_is_prefix r b : split_lines r = ([], r) ->
  exists l, head ((split_lines (r ++ b)).1 ++ [(split_lines (r ++ b)).2]) = Some (r ++ l).
Proof.
  induction r as [|c r IH]; intros Hr.
  { cbn. destruct (split_lines b) as [[|l ls] rest]; cbn; eauto. }
  rewrite split_lines_cons in Hr. destruct (Ascii.eqb c newline) eqn:E; [done|].
  destruct (split_lines r) as [[|l ls] r'] eqn:Es; [|done]. cbn in Hr. injection Hr as ->.
  destruct (IH eq_refl) as [l Hl]. change ((c :: r) ++ b) with (c :: (r ++ b)).
  rewrite split_lines_cons, E. exists l.
  destruct (split_lines (r ++ b)) as [[|x xs] rest]; cbn in *; by injection Hl as ->.
Qed.

(** ** What a list of lines delivers *)

Definition blank (line : bytes) : bool := bool_decide (bstrip line = []).

Definition valid_line (line : bytes) : bool :=
  negb (blank line) &&
  match env with
  | HecLine => object_shape (bstrip line)
  | Stoker => bool_decide (is_Some (decoded (bstrip line)))
  end.

Definition bad_line (line : bytes) : bool := negb (blank line) && negb (valid_line line).

(** The payload of a valid line: its bytes, or its object with the metadata
    filled at some instant. *)
Definition line_payload (line : bytes) (p : payload) : Prop :=
  match env with
  | HecLine => p = PLine (bstrip line)
  | Stoker => exists e now, decoded (bstrip line) = Some e /\ p = PEnvelope (fill overrides defaults now e)
  end.

(** [delivers lines s s' ok]: from [s] to [s'], the payloads of the first of the
    valid lines were handed on, in order; all of them when [ok]. *)
Definition delivers (lines : list bytes) (s s' : sock) (ok : bool) : Prop :=
  let good := List.filter valid_line lines in
  exists done ps,
    done `prefix_of` good /\ Forall2 line_payload done ps /\
    p_sent (sk_world s') = p_sent (sk_world s) ++ ps /\
    sk_received s' = sk_received s + Z.of_nat (length ps) /\
    (ok = true -> done = good /\
      sk_malformed s' = sk_malformed s + Z.of_nat (length (List.filter bad_line lines))).

Lemma delivers_nil s : delivers [] s s true.
Proof. exists [], []. cbn. rewrite app_nil_r. repeat split; try done; lia. Qed.

Lemma delivers_app l1 l2 s s1 s2 ok :
  delivers l1 s s1 true -> delivers l2 s1 s2 ok -> delivers (l1 ++ l2) s s2 ok.
Proof.
  intros (d1 & p1 & _ & F1 & S1 & R1 & [-> M1]%(fun H => H eq_refl)) (d2 & p2 & P2 & F2 & S2 & R2 & O2).
  exists (List.filter valid_line l1 ++ d2), (p1 ++ p2).
  rewrite S2, S1, app_assoc, !List.filter_app, !length_app. repeat split.
  - by apply prefix_app.
  - by apply Forall2_app.
  - lia.
  - by destruct (O2 H) as [-> _].
  - destruct (O2 H) as [_ ->]. lia.
Qed.

Lemma delivers_stop l1 l2 s s1 : delivers l1 s s1 false -> delivers (l1 ++ l2) s s1 false.
Proof.
  intros (d1 & p1 & P1 & F1 & S1 & R1 & _). exists d1, p1. rewrite List.filter_app.
  repeat split; try done. by apply prefix_app_r.
Qed.

(** Handing one payload on. *)
Lemma forward_spec p s s' ok : forward p s = (s', ok) ->
  sk_malformed s' = sk_malformed s /\
  (if ok then p_sent (sk_world s') = p_sent (sk_world s) ++ [p] /\ sk_received s' = sk_received s + 1
   else p_sent (sk_world s') = p_sent (sk_world s) /\ sk_received s' = sk_received s).
Proof.
  unfold forward, admit_one. pose proof (p_acquire_sent (sk_world s)) as Ha.
  assert (forall w : W, p_sent w = p_sent (sk_world s) ->
    (let '(w', ok) := p_put p w in
     if ok then (inc_received 1 (set_world w' (set_world w s)), true)
     else (set_world w' (set_world w s), false)) = (s', ok) ->
    sk_malformed s' = sk_malformed s /\
    (if ok then p_sent (sk_world s') = p_sent (sk_world s) ++ [p] /\ sk_received s' = sk_received s + 1
     else p_sent (sk_world s') = p_sent (sk_world s) /\ sk_received s' = sk_received s)) as Hput.
  { intros w Ew. pose proof (p_put_sent p w) as Hp.
    destruct (p_put p w) as [w' [|]]; cbn in Hp; intros [= <- <-]; cbn; rewrite Hp, Ew;
      rewrite ?app_nil_r; done. }
  destruct gated.
  - destruct (p_acquire (sk_world s)) as [w [|]]; cbn in Ha; [by apply Hput|].
    intros [= <- <-]. cbn. done.
  - destruct (p_closed (sk_world s)); cbn; [by intros [= <- <-]|].
    intros E. apply (Hput (sk_world s)); [done|]. by destruct s.
Qed.

Lemma forward_delivers line p s s' ok :
  valid_line line = true -> line_payload line p -> forward p s = (s', ok) ->
  delivers [line] s s' ok.
Proof.
  intros Hv Hp [M R]%forward_spec. unfold delivers, bad_line. cbn [List.filter]. rewrite Hv.
  rewrite andb_false_r. destruct ok.
  - destruct R as [R1 R2]. exists [line], [p]. repeat split; cbn; try done; [by constructor|lia].
  - destruct R as [R1 R2]. exists [], []. rewrite app_nil_r. cbn. repeat split; try done; [apply prefix_nil|lia].
Qed.

Lemma malformed_delivers line s :
  blank line = false -> valid_line line = false -> delivers [line] s (inc_malformed 1 s) true.
Proof.
  intros Hb Hv. unfold delivers, bad_line. cbn [List.filter]. rewrite Hb, Hv. cbn.
  exists [], []. rewrite app_nil_r. cbn. repeat split; try done; lia.
Qed.

Lemma blank_delivers line s : blank line = true -> delivers [line] s s true.
Proof.
  intros Hb. unfold delivers, bad_line, valid_line. cbn [List.filter]. rewrite Hb. cbn.
  exists [], []. rewrite app_nil_r. cbn. repeat split; try done; lia.
Qed.

Lemma handle_line_delivers line s s' ok : handle_line line s = (s', ok) -> delivers [line] s s' ok.
Proof.
  unfold handle_line, handle_hec_line. cbv zeta.
  destruct (bool_decide (bstrip line = [])) eqn:Eb; [intros [= <- <-]; by apply blank_delivers|].
  assert (blank line = false) as Hb by exact Eb.
  assert (valid_line line = match env with
    | HecLine => object_shape (bstrip line)
    | Stoker => bool_decide (is_Some (decoded (bstrip line))) end) as Hv
    by (unfold valid_line; by rewrite Hb).
  destruct env eqn:Een.
  - destruct (decoded (bstrip line)) as [e|] eqn:Ed.
    + intros Hf. eapply forward_delivers; [by rewrite Hv| |exact Hf].
      unfold line_payload. rewrite Een. eauto.
    + intros [= <- <-]. by apply malformed_delivers.
  - destruct (object_shape (bstrip line)) eqn:Eo.
    + intros Hf. eapply forward_delivers; [by rewrite Hv| |exact Hf].
      unfold line_payload. by rewrite Een.
    + intros [= <- <-]. by apply malformed_delivers.
Qed.

Lemma handle_lines_delivers lines : forall s s' ok,
  handle_lines lines s = (s', ok) -> delivers lines s s' ok.
Proof.
  induction lines as [|l ls IH]; intros s s' ok; cbn [handle_lines].
  { intros [= <- <-]. apply delivers_nil. }
  destruct (handle_line l s) as [s1 ok1] eqn:E. apply handle_line_delivers in E.
  change (l :: ls) with ([l] ++ ls). destruct ok1.
  - intros H. eapply delivers_app; eauto.
  - intros [= <- <-]. by apply delivers_stop.
Qed.

Lemma send_good_spec fuel : forall good s s' ok,
  (length good <= fuel)%nat -> send_good fuel good s = (s', ok) ->
  exists k, p_sent (sk_world s') = p_sent (sk_world s) ++ (PLine <$> take k good) /\
    sk_received s' = sk_received s + Z.of_nat (length (take k good)) /\
    sk_malformed s' = sk_malformed s /\ (ok = true -> take k good = good).
Proof.
  assert (forall good s s', p_sent (sk_world s') = p_sent (sk_world s) ->
    sk_received s' = sk_received s -> sk_malformed s' = sk_malformed s ->
    exists k, p_sent (sk_world s') = p_sent (sk_world s) ++ (PLine <$> take k good) /\
      sk_received s' = sk_received s + Z.of_nat (length (take k good)) /\
      sk_malformed s' = sk_malformed s /\ (false = true -> take k good = good)) as Hstop.
  { intros good s s' E1 E2 E3. exists 0%nat. rewrite take_0, app_nil_r. cbn. repeat split; try done; lia. }
  induction fuel as [|fuel IH]; intros [|l ls] s s' ok Hlen; cbn [send_good];
    try (intros [= <- <-]; exists 0%nat; rewrite app_nil_r; cbn; repeat split; try done; lia).
  { cbn in Hlen. lia. }
  set (good := l :: ls) in *. set (n := Z.of_nat (length good)).
  assert (0 < n) as Hn by (subst n good; cbn [length]; lia).
  assert (exists w k, p_sent w = p_sent (sk_world s) /\ 0 <= k <= n /\
    (if gated then let '(w, k) := p_acquire_many n (sk_world s) in (set_world w s, k)
     else (s, if p_closed (sk_world s) then 0 else n)) = (set_world w s, k)) as (w & k & Ew & Hk & ->).
  { destruct gated.
    - pose proof (p_many_sent n (sk_world s)). pose proof (p_many_range n (sk_world s) Hn).
      destruct (p_acquire_many n (sk_world s)) as [w k]. by exists w, k.
    - exists (sk_world s), (if p_closed (sk_world s) then 0 else n). destruct s; cbn.
      repeat split; try done; destruct (p_closed _); lia. }
  destruct (Z.eqb_spec k 0) as [->|Hk0]; [intros [= <- <-]; by apply Hstop|].
  pose proof (p_put_lines_sent (take (Z.to_nat k) good) w) as Hp. cbn [sk_world set_world].
  destruct (p_put_lines (take (Z.to_nat k) good) w) as [w' [|]]; cbn in Hp;
    [|intros [= <- <-]; apply Hstop; cbn; rewrite ?Hp, ?app_nil_r; done].
  intros Hs. apply IH in Hs as (k' & S1 & R1 & M1 & O1);
    [|rewrite length_drop; subst good; cbn [length] in *; lia].
  cbn [sk_world set_world inc_received sk_received sk_malformed] in *.
  exists (Z.to_nat k + k')%nat. rewrite <- take_take_drop.
  rewrite S1, Hp, Ew, fmap_app, app_assoc, length_app.
  repeat split; try done; [lia|]. intros Hok. rewrite (O1 Hok). by apply take_drop.
Qed.

Lemma handle_hec_lines_delivers parts s s' ok :
  env = HecLine -> handle_hec_lines parts s = (s', ok) -> delivers parts s s' ok.
Proof.
  intros He. unfold handle_hec_lines. cbv zeta. intros Hs.
  assert (hec_good parts = bstrip <$> List.filter valid_line parts) as Eg.
  { unfold hec_good, valid_line, blank. rewrite He. clear.
    induction parts as [|l parts IH]; cbn [fmap list_fmap List.filter]; [done|].
    destruct (bool_decide (bstrip l = [])) eqn:E; cbn [negb List.filter andb]; [done|].
    destruct (object_shape (bstrip l)); cbn; by rewrite <- IH. }
  assert (hec_bad parts = Z.of_nat (length (List.filter bad_line parts))) as Eb.
  { unfold hec_bad, bad_line, valid_line, blank. rewrite He. clear. f_equal.
    induction parts as [|l parts IH]; cbn [fmap list_fmap List.filter]; [done|].
    destruct (bool_decide (bstrip l = [])), (object_shape (bstrip l)); cbn; by rewrite <- ?IH. }
  apply send_good_spec in Hs as (k & S1 & R1 & M1 & O1); [|done].
  rewrite Eg in S1, R1, O1. rewrite <- fmap_take in *. rewrite Eb in S1, R1, M1.
  set (b := Z.of_nat (length (List.filter bad_line parts))) in *.
  exists (take k (List.filter valid_line parts)), (PLine <$> (bstrip <$> take k (List.filter valid_line parts))).
  split; [apply prefix_take|]. split.
  { generalize (take k (List.filter valid_line parts)). clear -He. intros d.
    unfold line_payload. rewrite He. induction d; constructor; auto. }
  rewrite !length_fmap in *. repeat split.
  - rewrite S1. by destruct (b =? 0).
  - rewrite R1. by destruct (b =? 0).
  - specialize (O1 H). apply (f_equal length) in O1. rewrite !length_fmap, length_take in O1.
    apply take_ge. lia.
  - rewrite M1. destruct (Z.eqb_spec b 0); cbn; lia.
Qed.

(** The bytes a reader receives before the stream ends or breaks. *)
Fixpoint received_bytes (input : list recv) : bytes :=
  match input with
  | RTimeout :: input => received_bytes input
  | RChunk (c :: chunk) :: input => (c :: chunk) ++ received_bytes input
  | _ => []
  end.

Lemma read_chunk_spec chunk buf s buf' s' ok :
  read_chunk chunk buf s = (buf', s', ok) ->
  (env = Stoker -> Z.of_nat (length (split_lines (buf ++ chunk)).2) <= MAX_BUFFER) ->
  buf' = (split_lines (buf ++ chunk)).2 /\ delivers (split_lines (buf ++ chunk)).1 s s' ok.
Proof.
  unfold read_chunk. destruct (split_lines (buf ++ chunk)) as [parts rest]. cbn [fst snd].
  destruct env eqn:He.
  - destruct (handle_lines parts s) as [s1 [|]] eqn:E; apply handle_lines_delivers in E.
    + intros H Hm. specialize (Hm eq_refl). destruct (Z.leb_spec (Z.of_nat (length rest)) MAX_BUFFER); [|lia].
      by injection H as <- <- <-.
    + by intros [= <- <- <-].
  - destruct (handle_hec_lines parts s) as [s1 ok1] eqn:E.
    apply handle_hec_lines_delivers in E; [|done]. by intros [= <- <- <-].
Qed.

(** No line is longer than the buffer (only the classic envelope bounds it). *)
Definition lines_fit (stream : bytes) : Prop :=
  env = Stoker ->
  forall l, l ∈ (split_lines stream).1 ++ [(split_lines stream).2] -> Z.of_nat (length l) <= MAX_BUFFER.

Definition stream_outcome (stream : bytes) (s s' : sock) (e : ending) : Prop :=
  let '(lines, rest) := split_lines stream in
  match e with
  | AtEof => delivers (lines ++ [rest]) s s' true
  | Draining => delivers (lines ++ [rest]) s s' false
  | Waiting | Broken => delivers lines s s' true
  end.

Lemma read_stream_outcome input : forall buf s s' e,
  split_lines buf = ([], buf) -> lines_fit (buf ++ received_bytes input) ->
  read_stream input buf s = (s', e) ->
  stream_outcome (buf ++ received_bytes input) s s' e.
Proof.
  unfold stream_outcome.
  induction input as [|[[|c chunk]| |] input IH]; intros buf s s' e Hbuf Hfit;
    cbn [received_bytes read_stream]; try rewrite app_nil_r.
  - rewrite Hbuf. intros [= <- <-]. apply delivers_nil.
  - rewrite Hbuf. cbn [app]. destruct (bool_decide (bstrip buf = [])) eqn:Eb.
    + intros [= <- <-]. by apply blank_delivers.
    + destruct (handle_line buf s) as [s1 ok] eqn:E. apply handle_line_delivers in E.
      intros [= <- <-]. by destruct ok.
  - set (ch := c :: chunk) in *. set (more := received_bytes input) in *.
    destruct (read_chunk ch buf s) as [[buf1 s1] ok] eqn:E.
    assert (buf ++ received_bytes (RChunk ch :: input) = (buf ++ ch) ++ more) as Ein
      by (rewrite <- app_assoc; done).
    rewrite Ein in Hfit. rewrite app_assoc.
    pose proof (split_lines_app (buf ++ ch) more) as Esplit.
    destruct (split_lines (buf ++ ch)) as [parts rest] eqn:Ep. cbn [fst snd] in Esplit.
    assert (split_lines rest = ([], rest)) as Hrest
      by (pose proof (split_lines_rest (buf ++ ch)) as Hr; by rewrite Ep in Hr).
    apply read_chunk_spec in E; rewrite Ep in *; cbn [fst snd] in *.
    2:{ intros He. destruct (rest_is_prefix rest more Hrest) as [l Hl].
        assert (rest ++ l ∈ (split_lines ((buf ++ ch) ++ more)).1 ++ [(split_lines ((buf ++ ch) ++ more)).2])
          as Hin.
        { rewrite Esplit. cbn [fst snd]. rewrite <- app_assoc. apply elem_of_app. right.
          destruct (_ ++ [_]) as [|x xs]; [done|]. injection Hl as ->. left. }
        apply (Hfit He) in Hin. rewrite length_app in Hin. lia. }
    destruct E as [-> Hd]. rewrite Esplit. destruct ok.
    + intros Hrs. apply IH in Hrs; [|done|].
      * destruct (split_lines (rest ++ more)) as [ls rest']. cbn [fst snd] in *.
        destruct e; rewrite <- ?app_assoc; eauto using delivers_app.
      * intros He l Hl. apply (Hfit He). rewrite Esplit. cbn [fst snd]. rewrite <- app_assoc.
        apply elem_of_app. by right.
    + intros [= <- <-]. rewrite <- app_assoc. by apply delivers_stop.
  - by apply IH.
  - rewrite Hbuf. intros [= <- <-]. apply delivers_nil.
Qed.

(** What is carried into the next read after a run of chunks, while the reader
    goes on. *)
Fixpoint buffer_after (chunks : list bytes) (buf : bytes) (s : sock) : bytes :=
  match chunks with
  | [] => buf
  | c :: chunks =>
      match read_chunk c buf s with
      | (buf, s, true) => buffer_after chunks buf s
      | (_, _, false) => []
      end
  end.

Lemma split_no_newline b : newline ∉ b -> split_lines b = ([], b).
Proof.
  induction b as [|c b IH]; intros Hn; [done|]. rewrite split_lines_cons.
  rewrite IH by set_solver. destruct (Ascii.eqb_spec c newline) as [->|]; [set_solver|done].
Qed.
End Reader.

(** ** The worker's pipe *)

(** The bucket and the client behind the interface.  A blocking call that has
    not returned within [pw_fuel] passes, or that finds the queue full, hands
    nothing on. *)
Record pipe_world : Type := mkPipe {
  pw_bucket : TokenBucket;
  pw_wakeups : nat -> wakeup;
  pw_fuel : nat;
  pw_now : Q;
  pw_hec : hec;
  pw_sent : list payload;
}.

Section BucketPipe.
Context {R : Rounding}.

Definition with_bucket (b : TokenBucket) (w : pipe_world) : pipe_world :=
  mkPipe b (pw_wakeups w) (pw_fuel w) (pw_now w) (pw_hec w) (pw_sent w).

(** Queue one item for the payloads it carries. *)
Definition enqueue (i : item) (ps : list payload) (w : pipe_world) : pipe_world * bool :=
  let h := pw_hec w in
  if h_stopping h || (h_queue_max h <=? Z.of_nat (length (h_queue h))) then (w, false)
  else (mkPipe (pw_bucket w) (pw_wakeups w) (pw_fuel w) (pw_now w)
          (set_queue (h_queue h ++ [i]) h) (pw_sent w ++ ps), true).

Lemma enqueue_sent i ps w :
  pw_sent (fst (enqueue i ps w)) = pw_sent w ++ (if snd (enqueue i ps w) then ps else []).
Proof. unfold enqueue. destruct (_ || _); cbn; by rewrite ?app_nil_r. Qed.

Definition take_one (w : pipe_world) : pipe_world * bool :=
  let '(b, a) := acquire None 0 (pw_wakeups w) (pw_fuel w) (pw_bucket w) in
  (with_bucket b w, default false a).

Definition take_many (n : Z) (w : pipe_world) : pipe_world * Z :=
  let '(b, a) := acquire_many n None 0 (pw_wakeups w) (pw_fuel w) (pw_bucket w) in
  (with_bucket b w, default 0 a).

Definition item_of (p : payload) : item :=
  match p with PEnvelope e => IEnvelope e | PLine l => IBytes (String.string_of_list_ascii l) end.

Definition put_lines (ls : list bytes) (w : pipe_world) : pipe_world * bool :=
  let i := ILines (String.string_of_list_ascii <$> ls) in
  let n := item_events i in
  let h := pw_hec w in
  if (h_line_events h =? 0) || (h_line_events h + n <=? h_queue_max h) then
    match enqueue i (PLine <$> ls)
            (mkPipe (pw_bucket w) (pw_wakeups w) (pw_fuel w) (pw_now w) (add_lines n 1 h) (pw_sent w))
    with (w', true) => (w', true) | (_, false) => (w, false) end
  else (w, false).

Global Instance bucket_pipe : Pipe pipe_world.
Proof.
  refine {| p_acquire := take_one; p_acquire_many := take_many;
            p_closed := fun w => tb_closed (pw_bucket w);
            p_put := fun p => enqueue (item_of p) [p]; p_put_lines := put_lines;
            p_now := pw_now; p_sent := pw_sent |}.
  - intros w. unfold take_one. by destruct (acquire _ _ _ _ _).
  - intros n w. unfold take_many. by destruct (acquire_many _ _ _ _ _ _).
  - intros n w Hn. unfold take_many. destruct (acquire_many _ _ _ _ _ _) as [b [k|]] eqn:E; cbn; [|lia].
    by eapply acquire_many_range.
  - intros p w. apply enqueue_sent.
  - intros ls w. unfold put_lines. destruct (_ || _); [|cbn; by rewrite app_nil_r].
    set (w1 := mkPipe _ _ _ _ _ _). pose proof (enqueue_sent
      (ILines (String.string_of_list_ascii <$> ls)) (PLine <$> ls) w1) as E.
    destruct (enqueue _ _ w1) as [w2 [|]]; cbn in *; [exact E|by rewrite app_nil_r].
Defined.
End BucketPipe.

(** ** Claims *)

Section Claims.
Context {W : Type} `{!Pipe W} (decode : bytes -> option json) (overrides defaults : jobj)
  (gated : bool) (env : envelope).
Abbreviation read := (read_stream decode overrides defaults gated env).

(** C10: What a reader hands to the HEC client is a function of the bytes it
    received, not of how the socket cut them: the payloads of the valid lines of
    the whole stream, in order, each exactly once, and counted; at the end of
    the stream all of them, the last unterminated line included; while draining
    a prefix of them.  Lines that are not valid are counted and skipped.  In the
    classic envelope this is for streams whose lines are at most 4 MiB long: a
    longer one is discarded, and how much of it depends on the reads. *)
Theorem stream_forwarded_in_order input s s' e :
  lines_fit env (received_bytes input) -> read input [] s = (s', e) ->
  stream_outcome decode overrides defaults env (received_bytes input) s s' e.
Proof. intros Hf Hr. by apply (read_stream_outcome decode overrides defaults gated env input []). Qed.

(** The batched path of the HEC-line envelope is insensitive to chunking: two
    reads of the same bytes to the end of the stream leave the same accepted
    payloads and the same counters. *)
Theorem chunking_irrelevant input1 input2 s s1 s2 :
  env = HecLine -> received_bytes input1 = received_bytes input2 ->
  read input1 [] s = (s1, AtEof) -> read input2 [] s = (s2, AtEof) ->
  p_sent (sk_world s1) = p_sent (sk_world s2) /\
  sk_received s1 = sk_received s2 /\ sk_malformed s1 = sk_malformed s2.
Proof.
  intros He Eb H1 H2.
  assert (forall b, lines_fit env b) as Hfit by (intros b Hs; congruence).
  apply (read_stream_outcome decode overrides defaults gated env input1 []) in H1; [|done|done].
  apply (read_stream_outcome decode overrides defaults gated env input2 []) in H2; [|done|done].
  cbn [app] in H1, H2. rewrite Eb in H1. unfold stream_outcome in *.
  destruct (split_lines (received_bytes input2)) as [lines rest].
  destruct H1 as (d1 & p1 & _ & F1 & S1 & R1 & O1), H2 as (d2 & p2 & _ & F2 & S2 & R2 & O2).
  destruct (O1 eq_refl) as [-> M1], (O2 eq_refl) as [-> M2].
  assert (p1 = p2) as ->.
  { clear -F1 F2 He. revert p2 F2. induction F1 as [|l p ls ps Hp _ IH]; intros p2 F2.
    - by apply Forall2_nil_inv_l in F2.
    - apply Forall2_cons_inv_l in F2 as (p' & ps' & Hp' & Hps & ->).
      unfold line_payload in Hp, Hp'. rewrite He in *. subst. f_equal. by apply IH. }
  rewrite S1, S2, R1, R2, M1, M2. done.
Qed.

(** The bound on unterminated data holds for the classic envelope and not for
    the HEC-line one.  The classic reader never carries more than 4 MiB into the
    next read; the HEC-line reader goes on before the check, and after reads
    without a newline it carries everything it has received. *)
Theorem unterminated_data_bound chunks buf s :
  (env = Stoker -> Z.of_nat (length buf) <= MAX_BUFFER ->
    Z.of_nat (length (buffer_after decode overrides defaults gated env chunks buf s)) <= MAX_BUFFER) /\
  (env = HecLine -> newline ∉ buf ++ concat chunks ->
    buffer_after decode overrides defaults gated env chunks buf s = buf ++ concat chunks).
Proof.
  revert buf s. induction chunks as [|c chunks IH]; intros buf s; cbn [buffer_after concat].
  { rewrite app_nil_r. done. }
  unfold read_chunk. split; intros He Hb; rewrite He.
  - destruct (split_lines (buf ++ c)) as [parts rest].
    destruct (handle_lines _ _ _ _ _ parts s) as [s1 [|]]; [|done].
    destruct (Z.leb_spec (Z.of_nat (length rest)) MAX_BUFFER); rewrite <- He; apply IH; done.
  - rewrite app_assoc in *. rewrite split_no_newline by set_solver.
    unfold handle_hec_lines. cbn [fmap list_fmap hec_good List.filter length send_good hec_bad].
    cbn. rewrite <- He. by apply IH.
Qed.
End Claims.

(** ** Witnesses *)

Section Witnesses.
Local Existing Instance exact.

Definition text (s : string) : bytes := String.list_ascii_of_string s.

(** A bucket with two events owed, a client with room. *)
Definition demo_pipe : pipe_world :=
  mkPipe (mkBucket 1 5 0 0 false false 0) (fun _ => mkWakeup id 2 0) 1 2 (new_hec 10) [].
Definition demo_sock : sock (W := pipe_world) := mkSock 0 0 demo_pipe.

(** Two objects and a stray line, cut in the middle of the second object. *)
Definition demo_input : list recv :=
  [RChunk (text "{1}" ++ [newline] ++ text "oops" ++ [newline] ++ text "{2"); RTimeout;
   RChunk (text "}"); RChunk []].
Definition demo_input' : list recv :=
  [RChunk (text "{1}" ++ [newline] ++ text "oops" ++ [newline] ++ text "{2}"); RChunk []].

Abbreviation demo_read := (read_stream (fun _ => None) [] [] true HecLine).

Example demo_read_ends :
  snd (demo_read demo_input [] demo_sock) = AtEof /\
  sk_received (fst (demo_read demo_input [] demo_sock)) = 2 /\
  sk_malformed (fst (demo_read demo_input [] demo_sock)) = 1.
Proof. vm_compute. done. Qed.

Lemma stream_forwarded_in_order_witness :
  stream_outcome (fun _ => None) [] [] HecLine (received_bytes demo_input) demo_sock
    (fst (demo_read demo_input [] demo_sock)) AtEof.
Proof.
  apply (stream_forwarded_in_order (fun _ => None) [] [] true HecLine demo_input demo_sock);
    [done|vm_compute; reflexivity].
Defined.

Lemma chunking_irrelevant_witness :
  p_sent (sk_world (fst (demo_read demo_input [] demo_sock))) =
  p_sent (sk_world (fst (demo_read demo_input' [] demo_sock))).
Proof.
  apply (chunking_irrelevant (fun _ => None) [] [] true HecLine demo_input demo_input' demo_sock);
    vm_compute; reflexivity.
Defined.

Lemma unterminated_data_bound_witness :
  buffer_after (fun _ => None) [] [] true HecLine [text "{aaa"; text "bbb"] [] demo_sock
  = text "{aaabbb".
Proof.
  apply (proj2 (unterminated_data_bound (fun _ => None) [] [] true HecLine
    [text "{aaa"; text "bbb"] [] demo_sock) eq_refl).
  apply (bool_decide_unpack _). vm_compute. exact I.
Defined.
End Witnesses.
