(* ===== verification/ControlClient.v ===== *)
(** * The control client (worker/stoker_agent/control.py)

    The worker's side of the protocol: one request, the two retry policies
    ([_post_with_backoff] until the dead-man window, [final] within the drain
    deadline), the heartbeat with its token roll and its supersession, and the
    fencing clock.  The transport is an argument: what each attempt meets, and
    the readings of the monotonic clock.  The theorems: a claim or ready call
    always returns, the fence measures exactly the time since the last
    successful contact, and how far [final] may overrun its deadline. *)

From S2P Require Import Prelude.
From S2P Require Import PyFloat.
From S2P Require Import PyValue.
From S2P Require Import Json.
From S2P Require Import Pacing.
From Stdlib Require Import QArith Qround Qminmax Lqa.
Open Scope Q_scope.

(** ** One request *)

Definition FENCE_PAUSE_S : Q := 30.
Definition BACKOFF_BASE_S : Q := 1 # 2.
Definition BACKOFF_CAP_S : Q := 30.

(** What the transport does: a status with no body, an unparseable body or a
    document; a connection error; any other transport error. *)
Inductive transport : Type :=
  | TReply (status : Z) (body : option (option jobj))
  | TConnectionError
  | TOtherError.

(** Why a request failed. *)
Inductive post_error : Type := EConnection | ETransport | EControl.

Definition post (t : transport) : jobj + post_error :=
  match t with
  | TConnectionError => inr EConnection
  | TOtherError => inr ETransport
  | TReply status body =>
      if (400 <=? status)%Z then inr EControl
      else match body with
           | None => inl []
           | Some None => inr EControl
           | Some (Some doc) => inl doc
           end
  end.

Section Client.
Context {R : Rounding}.

Record ControlClient : Type := mkControl {
  cc_jwt : string;
  cc_deadman_s : Q;
  cc_timeout : Q;
  cc_last_ack : Q;
}.

(** [ControlClient(...)] at the clock reading [now]: the grace window starts. *)
Definition new_control (jwt : string) (deadman_s timeout now : Q) : ControlClient :=
  mkControl jwt deadman_s timeout now.

Definition record_ack (now : Q) (c : ControlClient) : ControlClient :=
  mkControl (cc_jwt c) (cc_deadman_s c) (cc_timeout c) now.

Definition set_jwt (jwt : string) (c : ControlClient) : ControlClient :=
  mkControl jwt (cc_deadman_s c) (cc_timeout c) (cc_last_ack c).

(** ** Fencing *)

Definition seconds_since_ack (now : Q) (c : ControlClient) : Q := fsub now (cc_last_ack c).
Definition should_pause (now : Q) (c : ControlClient) : bool :=
  qlt FENCE_PAUSE_S (seconds_since_ack now c).
Definition deadman_expired (now : Q) (c : ControlClient) : bool :=
  qlt (cc_deadman_s c) (seconds_since_ack now c).

(** ** Backoff *)

(** What attempt [i] meets: the transport, the clock after it, and the draw of
    [random.uniform(0.5, 1.5)]. *)
Record attempt : Type := mkTry { tr_transport : transport; tr_clock : Q; tr_jitter : Q }.

Definition backoff_delay (i : nat) (jitter : Q) : Q :=
  fmul (Qmin BACKOFF_CAP_S (fmul BACKOFF_BASE_S (inject_Z (2 ^ Z.of_nat i)))) jitter.

Inductive backoff_end : Type :=
  | Answered (doc : jobj)
  | DeadMan.

(** [_post_with_backoff]; [None]: still retrying after [fuel] attempts. *)
Fixpoint post_with_backoff (deadman_s start : Q) (env : nat -> attempt) (fuel i : nat)
    : option backoff_end :=
  match fuel with
  | O => None
  | S fuel =>
      match post (tr_transport (env i)) with
      | inl doc => Some (Answered doc)
      | inr _ =>
          if Qle_bool deadman_s (fsub (tr_clock (env i)) start) then Some DeadMan
          else post_with_backoff deadman_s start env fuel (S i)
      end
  end.

(** [claim] and [ready]: a successful call records an ack at [now]. *)
Definition backoff_call (start now : Q) (env : nat -> attempt) (fuel : nat) (c : ControlClient)
    : ControlClient * option backoff_end :=
  match post_with_backoff (cc_deadman_s c) start env fuel 0 with
  | Some (Answered doc) => (record_ack now c, Some (Answered doc))
  | r => (c, r)
  end.

(** ** Heartbeat *)

Inductive beat : Type :=
  | BDoc (doc : jobj)
  | BMissed
  | BSuperseded.

(** One retry on a connection error. *)
Definition beat_post (first second : transport) : option jobj :=
  match post first with
  | inl doc => Some doc
  | inr EConnection => match post second with inl doc => Some doc | inr _ => None end
  | inr _ => None
  end.

Definition heartbeat (first second : transport) (now : Q) (c : ControlClient)
    : ControlClient * beat :=
  match beat_post first second with
  | None => (c, BMissed)
  | Some doc =>
      let c :=
        match jget doc "jwt" with
        | JStr jwt => if nonempty jwt then set_jwt jwt c else c
        | _ => c
        end in
      match jget doc "command" with
      | JStr cmd => if bool_decide (cmd = "superseded") then (c, BSuperseded)
                    else (record_ack now c, BDoc doc)
      | _ => (record_ack now c, BDoc doc)
      end
  end.

(** ** Final *)

(** What attempt [i] of [final] meets: the transport, and how long the request
    takes under the timeout it is given. *)
Record final_try : Type := mkFinalTry { ft_transport : transport; ft_took : Q -> Q }.

Definition final_sleep (i : nat) : Q := Qmin 2 (fmul BACKOFF_BASE_S (inject_Z (2 ^ Z.of_nat i))).

(** The requests made, as their start and timeout; whether one was accepted;
    and the instant the call returns.  [now] is the clock at the loop's head. *)
Fixpoint final_loop (timeout : Q) (deadline : option Q) (env : nat -> final_try) (todo i : nat)
    (now : Q) : list (Q * Q) * bool * Q :=
  match todo with
  | O => ([], false, now)
  | S todo =>
      let left := (fun d => fsub d now) <$> deadline in
      if match left with Some l => Qle_bool l 0 | None => false end then ([], false, now)
      else
        let timeout' := match left with Some l => Qmin timeout l | None => timeout end in
        let after := fadd now (ft_took (env i) timeout') in
        match post (ft_transport (env i)) with
        | inl _ => ([(now, timeout')], true, after)
        | inr _ =>
            if match deadline with Some d => Qle_bool d after | None => false end
            then ([(now, timeout')], false, after)
            else
              let '(reqs, ok, fin) :=
                final_loop timeout deadline env todo (S i) (fadd after (final_sleep i)) in
              ((now, timeout') :: reqs, ok, fin)
        end
  end.

Definition final (deadline : option Q) (env : nat -> final_try) (now : Q) (c : ControlClient)
    : list (Q * Q) * bool * Q :=
  final_loop (cc_timeout c) deadline env 3 0 now.
End Client.

(** ** Standalone *)

(** The stub without a control plane: whether it has released, the document of
    a heartbeat at [now]; nothing is ever fenced. *)
Definition standalone_heartbeat (released : bool) (now : Z) : bool * jobj :=
  if released then (true, [("command", JStr "continue")])
  else (true, [("command", JStr "release"); ("t0", JInstant (now + 2 * 1000000))]).

(** ** Facts *)

Section Exact.
Local Existing Instance exact.

Definition failed (t : transport) : Prop := exists e, post t = inr e.

(** The clock of a retrying call: it starts after [start] and every retry comes
    at least its delay later. *)
Definition retry_clock (start : Q) (env : nat -> attempt) : Prop :=
  start <= tr_clock (env 0%nat) /\
  (forall i, 1 # 2 <= tr_jitter (env i) <= 3 # 2) /\
  (forall i, tr_clock (env i) + backoff_delay i (tr_jitter (env i)) <= tr_clock (env (S i))).

Lemma backoff_delay_bounds i j : 1 # 2 <= j <= 3 # 2 -> 1 # 4 <= backoff_delay i j <= 45.
Proof.
  intros [Hj1 Hj2]. unfold backoff_delay, fmul. cbn [rnd exact].
  set (p := BACKOFF_BASE_S * inject_Z (2 ^ Z.of_nat i)).
  assert (1 # 2 <= p) as Hp.
  { unfold p, BACKOFF_BASE_S. assert (1 <= inject_Z (2 ^ Z.of_nat i)); [|lra].
    apply (inject_Z_le 1). pose proof (Z.pow_pos_nonneg 2 (Z.of_nat i)). lia. }
  set (m := Qmin BACKOFF_CAP_S p).
  assert (1 # 2 <= m /\ m <= 30) as [Hm1 Hm2].
  { subst m. unfold BACKOFF_CAP_S. destruct (Q.min_spec 30 p) as [[? E]|[? E]]; rewrite E; lra. }
  split; nra.
Qed.

Lemma retry_clock_advances start env i : retry_clock start env ->
  inject_Z (Z.of_nat i) * (1 # 4) <= tr_clock (env i) - start.
Proof.
  intros (Hs & Hj & Hc). induction i as [|i IH].
  - change (inject_Z (Z.of_nat 0)) with 0. lra.
  - pose proof (backoff_delay_bounds i _ (Hj i)) as [H1 _]. specialize (Hc i).
    rewrite Nat2Z.inj_succ. unfold Z.succ. rewrite inject_Z_plus. change (inject_Z 1) with 1. lra.
Qed.

(** The attempt that ends a retrying call. *)
Definition ends_at (deadman_s start : Q) (env : nat -> attempt) (k : nat) (e : backoff_end) : Prop :=
  (forall j, (j < k)%nat -> failed (tr_transport (env j)) /\ tr_clock (env j) - start < deadman_s) /\
  match e with
  | Answered doc => post (tr_transport (env k)) = inl doc
  | DeadMan => failed (tr_transport (env k)) /\ deadman_s <= tr_clock (env k) - start
  end.

Lemma post_with_backoff_ends deadman_s start env fuel : forall i e,
  post_with_backoff deadman_s start env fuel i = Some e ->
  exists k, (i <= k < i + fuel)%nat /\
    (forall j, (i <= j < k)%nat -> failed (tr_transport (env j)) /\ tr_clock (env j) - start < deadman_s) /\
    match e with
    | Answered doc => post (tr_transport (env k)) = inl doc
    | DeadMan => failed (tr_transport (env k)) /\ deadman_s <= tr_clock (env k) - start
    end.
Proof.
  induction fuel as [|fuel IH]; intros i e; cbn [post_with_backoff]; [done|].
  destruct (post (tr_transport (env i))) as [doc|err] eqn:Ep.
  { intros H. injection H as <-. exists i. split; [lia|]. split; [lia|done]. }
  destruct (Qle_bool_spec deadman_s (fsub (tr_clock (env i)) start)) as [Hd|Hd].
  { intros H. injection H as <-. exists i. split; [lia|]. split; [lia|]. split; [by exists err|exact Hd]. }
  intros (k & Hk & Hj & He)%IH. exists k. split; [lia|]. split; [|done].
  intros j Hj'. destruct (decide (j = i)) as [->|]; [|apply Hj; lia].
  split; [by exists err|]. cbn in Hd. unfold fsub in Hd. cbn in Hd. lra.
Qed.

Lemma post_with_backoff_total deadman_s start env n : forall i,
  retry_clock start env -> deadman_s <= inject_Z (Z.of_nat (i + n)) * (1 # 4) ->
  exists e, post_with_backoff deadman_s start env (S n) i = Some e.
Proof.
  induction n as [|n IH]; intros i Hc Hd; cbn [post_with_backoff];
    destruct (post (tr_transport (env i))); eauto;
    destruct (Qle_bool_spec deadman_s (fsub (tr_clock (env i)) start)) as [H|H]; eauto.
  - exfalso. apply H. pose proof (retry_clock_advances start env i Hc). rewrite Nat.add_0_r in Hd.
    unfold fsub. cbn. lra.
  - apply (IH (S i)); [done|]. by rewrite Nat.add_succ_r in Hd.
Qed.

(** Requests end within the timeout they are given. *)
Definition timely (env : nat -> final_try) : Prop :=
  forall i t, 0 < t -> 0 <= ft_took (env i) t <= t.

Lemma final_sleep_bounds i : 0 <= final_sleep i <= 2.
Proof.
  unfold final_sleep, fmul, BACKOFF_BASE_S. cbn [rnd exact].
  assert (0 <= inject_Z (2 ^ Z.of_nat i)) by (apply (inject_Z_le 0), Z.pow_nonneg; lia).
  destruct (Q.min_spec 2 ((1 # 2) * inject_Z (2 ^ Z.of_nat i))) as [[? E]|[? E]]; rewrite E; lra.
Qed.

Lemma final_loop_bounds timeout d env todo : forall i now reqs ok fin,
  0 < timeout -> timely env -> now <= d + 2 ->
  final_loop timeout (Some d) env todo i now = (reqs, ok, fin) ->
  (length reqs <= todo)%nat /\ now <= fin <= d + 2 /\
  Forall (fun r => now <= r.1 /\ r.1 < d /\ 0 < r.2 <= timeout /\ r.1 + r.2 <= d) reqs.
Proof.
  induction todo as [|todo IH]; intros i now reqs ok fin Ht He Hn; cbn [final_loop fmap option_fmap option_map].
  { intros [= <- <- <-]. repeat split; [cbn; lia|lra|lra|constructor]. }
  destruct (Qle_bool_spec (fsub d now) 0) as [Hl|Hl].
  { intros [= <- <- <-]. repeat split; [cbn; lia|lra|lra|constructor]. }
  cbv zeta. unfold fsub in *. cbn [rnd exact] in Hl.
  set (t' := Qmin timeout (rnd (d - now))).
  assert (0 < t' /\ t' <= timeout /\ now + t' <= d) as (Ht1 & Ht2 & Ht3).
  { subst t'. cbn [rnd exact]. destruct (Q.min_spec timeout (d - now)) as [[? E]|[? E]]; rewrite E; lra. }
  destruct (He i t' Ht1) as [Ha Hb]. unfold fadd. cbn [rnd exact].
  assert (now <= now /\ now < d /\ 0 < t' <= timeout /\ now + t' <= d) as Hreq by (repeat split; lra).
  destruct (post (ft_transport (env i))).
  { intros [= <- <- <-]. repeat split; [cbn; lia|lra|lra|by constructor]. }
  destruct (Qle_bool_spec d (now + ft_took (env i) t')) as [Hd|Hd].
  { intros [= <- <- <-]. repeat split; [cbn; lia|lra|lra|by constructor]. }
  pose proof (final_sleep_bounds i) as [Hs1 Hs2].
  destruct (final_loop timeout (Some d) env todo (S i) _) as [[reqs' ok'] fin'] eqn:E.
  intros [= <- <- <-]. apply IH in E as (H1 & H2 & H3); [|done|done|lra].
  repeat split; [cbn; lia|lra|lra|]. constructor; [done|].
  eapply Forall_impl; [exact H3|]. intros [a b] (? & ? & ? & ?). cbn in *. repeat split; lra.
Qed.

(** A control plane that answers 503 at once. *)
Definition refusing (i : nat) : final_try := mkFinalTry (TReply 503 None) (fun _ => 0).

Lemma refusing_timely : timely refusing.
Proof. intros i t Ht. cbn. lra. Qed.

Lemma refusing_overruns c d :
  snd (final (Some d) refusing (d - (16 # 10)) c) == d + (19 # 10).
Proof.
  unfold final. cbn [final_loop fmap option_fmap option_map ft_took ft_transport refusing post].
  change (400 <=? 503)%Z with true. unfold fsub, fadd. cbn [rnd exact].
  change (final_sleep 0) with (1 # 2). change (final_sleep 1) with (Qmin 2 ((1 # 2) * 2)).
  change (final_sleep 2) with (Qmin 2 ((1 # 2) * 4)).
  change (Qmin 2 ((1 # 2) * 2)) with ((1 # 2) * 2).
  repeat match goal with
  | |- context [Qle_bool ?x ?y] => destruct (Qle_bool_spec x y); [exfalso; lra|]
  end.
  cbn [snd]. change (Qmin 2 ((1 # 2) * 4)) with 2. lra.
Qed.
End Exact.

(** ** Claims *)

Section Claims.
Local Existing Instance exact.

(** A claim or a ready call returns.  When every retry comes at least its
    jittered delay after the failure before it, the call ends within one
    attempt per quarter second of the dead-man window, plus one: with the
    document of the first attempt that succeeds, or with the dead-man error at
    the first failure past the window, every attempt before it having failed
    inside the window. *)
Theorem backoff_call_returns c start now env n :
  retry_clock start env -> cc_deadman_s c <= inject_Z (Z.of_nat n) * (1 # 4) ->
  exists e k, snd (backoff_call start now env (S n) c) = Some e /\ (k <= n)%nat /\
    ends_at (cc_deadman_s c) start env k e /\
    cc_last_ack (fst (backoff_call start now env (S n) c)) =
      match e with Answered _ => now | DeadMan => cc_last_ack c end.
Proof.
  intros Hc Hd. destruct (post_with_backoff_total _ start env n 0 Hc Hd) as [e He].
  destruct (post_with_backoff_ends _ _ _ _ _ _ He) as (k & Hk & Hj & Hend).
  exists e, k. unfold backoff_call. rewrite He.
  split; [by destruct e|]. split; [lia|]. split; [|by destruct e].
  split; [|done]. intros j Hlt. apply Hj. lia.
Qed.

(** The final report and the drain deadline.  When requests end within their
    timeouts, [final] makes at most three, none starts at or after the deadline
    or may outlast it, and the call is back within two seconds of it; those two
    seconds are real: the wait after a failed attempt is not cut to the
    deadline, so a control plane that refuses quickly holds the exit 1.9 s past
    it. *)
Theorem final_near_deadline c d env now :
  0 < cc_timeout c -> timely env -> now <= d ->
  (let '(reqs, _, fin) := final (Some d) env now c in
   (length reqs <= 3)%nat /\
   Forall (fun r => r.1 < d /\ r.1 + r.2 <= d) reqs /\
   fin <= d + 2) /\
  timely refusing /\ snd (final (Some d) refusing (d - (16 # 10)) c) == d + (19 # 10).
Proof.
  intros Ht He Hn. split; [|split; [by apply refusing_timely|by apply refusing_overruns]].
  destruct (final (Some d) env now c) as [[reqs ok] fin] eqn:E.
  apply final_loop_bounds in E as (H1 & H2 & H3); [|done|done|lra].
  split; [done|]. split; [|lra]. eapply Forall_impl; [exact H3|]. intros [a b] ?. cbn in *. tauto.
Qed.

(** What happens to the client between two readings of the fence. *)
Inductive contact : Type :=
  | KBeat (first second : transport) (now : Q)
  | KCall (start now : Q) (env : nat -> attempt) (fuel : nat).

Definition apply_contact (k : contact) (c : ControlClient) : ControlClient :=
  match k with
  | KBeat first second now => fst (heartbeat first second now c)
  | KCall start now env fuel => fst (backoff_call start now env fuel c)
  end.

(** The instant a contact renews the lease: the control plane answered, and did
    not answer that the lease is superseded. *)
Definition renewal (deadman_s : Q) (k : contact) : option Q :=
  match k with
  | KBeat first second now =>
      match beat_post first second with
      | Some doc => match jget doc "command" with
                    | JStr cmd => if bool_decide (cmd = "superseded") then None else Some now
                    | _ => Some now
                    end
      | None => None
      end
  | KCall start now env fuel =>
      match post_with_backoff deadman_s start env fuel 0 with
      | Some (Answered _) => Some now
      | _ => None
      end
  end.

Fixpoint last_renewal (deadman_s init : Q) (ks : list contact) : Q :=
  match ks with
  | [] => init
  | k :: ks => last_renewal deadman_s (default init (renewal deadman_s k)) ks
  end.

Lemma apply_contact_ack k c :
  cc_last_ack (apply_contact k c) = default (cc_last_ack c) (renewal (cc_deadman_s c) k) /\
  cc_deadman_s (apply_contact k c) = cc_deadman_s c.
Proof.
  destruct k as [f s now|start now env fuel]; cbn [apply_contact renewal].
  - unfold heartbeat. destruct (beat_post f s) as [doc|]; [|done]. cbv zeta.
    assert (forall c', cc_last_ack c' = cc_last_ack c -> cc_deadman_s c' = cc_deadman_s c ->
      let r := match jget doc "command" with
               | JStr cmd => if bool_decide (cmd = "superseded") then (c', BSuperseded)
                             else (record_ack now c', BDoc doc)
               | _ => (record_ack now c', BDoc doc) end in
      cc_last_ack (fst r) = default (cc_last_ack c)
        match jget doc "command" with
        | JStr cmd => if bool_decide (cmd = "superseded") then None else Some now
        | _ => Some now end /\ cc_deadman_s (fst r) = cc_deadman_s c) as H.
    { intros c' E1 E2. destruct (jget doc "command"); try done. by destruct (bool_decide _). }
    destruct (jget doc "jwt"); try (by apply H). destruct (nonempty s0); by apply H.
  - unfold backoff_call. destruct (post_with_backoff _ _ _ _ _) as [[|]|]; done.
Qed.

(** The fence measures contact.  After any sequence of heartbeats, claims and
    ready calls, the client wants generation paused exactly when more than 30 s,
    and gives up exactly when more than the dead-man window, have passed since
    the last contact the control plane answered without superseding the lease,
    or since the client was made; missed heartbeats, exhausted retries and
    supersessions renew nothing. *)
Theorem fence_measures_contact jwt deadman_s timeout made ks now :
  let c := foldl (fun c k => apply_contact k c) (new_control jwt deadman_s timeout made) ks in
  let since := now - last_renewal deadman_s made ks in
  (should_pause now c = true <-> 30 < since) /\
  (deadman_expired now c = true <-> deadman_s < since).
Proof.
  cbv zeta.
  assert (forall c, cc_deadman_s c = deadman_s ->
    let c' := foldl (fun c k => apply_contact k c) c ks in
    cc_deadman_s c' = deadman_s /\ cc_last_ack c' = last_renewal deadman_s (cc_last_ack c) ks) as H.
  { clear now. induction ks as [|k ks IH]; intros c Hc; cbn; [done|].
    destruct (apply_contact_ack k c) as [E1 E2]. rewrite Hc in *.
    destruct (IH (apply_contact k c) E2) as [H1 H2]. rewrite E1 in H2. done. }
  destruct (H (new_control jwt deadman_s timeout made) eq_refl) as [E1 E2].
  unfold should_pause, deadman_expired, seconds_since_ack. rewrite E1, E2. cbn [cc_last_ack new_control].
  unfold fsub, FENCE_PAUSE_S. cbn [rnd exact].
  split; symmetry; apply reflect_iff, qlt_spec.
Qed.
End Claims.

(** ** Witnesses *)

Section Witnesses.
Local Existing Instance exact.

Definition demo_client : ControlClient := mkControl "jwt" 100 30 0.

(** The control plane is unreachable twice, then answers. *)
Definition demo_tries (i : nat) : attempt :=
  mkTry (if (i <? 2)%nat then TConnectionError else TReply 200 (Some (Some [("slot", JInt 0)])))
    (45 * inject_Z (Z.of_nat i)) 1.

Lemma demo_tries_clock : retry_clock 0 demo_tries.
Proof.
  split; [done|]. split; [intros i; cbn; lra|]. intros i.
  pose proof (backoff_delay_bounds i 1 ltac:(lra)) as [_ H]. cbn [tr_clock tr_jitter demo_tries].
  rewrite Nat2Z.inj_succ. unfold Z.succ. rewrite inject_Z_plus. change (inject_Z 1) with 1. lra.
Qed.

Lemma backoff_call_returns_witness :
  snd (backoff_call 0 91 demo_tries 401 demo_client) = Some (Answered [("slot", JInt 0)]) /\
  exists e k, snd (backoff_call 0 91 demo_tries 401 demo_client) = Some e /\ (k <= 400)%nat.
Proof.
  split; [reflexivity|].
  destruct (backoff_call_returns demo_client 0 91 demo_tries 400 demo_tries_clock ltac:(vm_compute; discriminate))
    as (e & k & H1 & H2 & _). by exists e, k.
Defined.

Lemma final_near_deadline_witness :
  snd (final (Some 10) refusing 0 demo_client) <= 12 /\
  snd (final (Some 10) refusing (10 - (16 # 10)) demo_client) == 10 + (19 # 10).
Proof.
  destruct (final_near_deadline demo_client 10 refusing 0 eq_refl refusing_timely ltac:(done))
    as [H1 [_ H2]].
  split; [|exact H2]. destruct (final (Some 10) refusing 0 demo_client) as [[reqs ok] fin].
  exact (proj2 (proj2 H1)).
Defined.
End Witnesses.
