(* ===== verification/MetricEngine.v ===== *)
(** * The metrics engine (worker/engines/metrics/stoker_metrics)

    A metrics run emits one measurement per series and tick.  The series are the
    cross-product of the pack's dimensions, sorted, and each worker owns a stride
    of it.  Three places size that matrix: the control plane when it checks a
    submit (server/bundles.py, server/engines/sharding.py), the worker's agent
    when it reports its assigned work, and the engine itself.

    The theorems: on a config that passes the lint the three agree, the fleet
    partitions the matrix, and the predicted number of active workers is the
    number of workers that own a series; a backfill walks the ticks of its window
    and stops; a sampled value stays in its envelope up to the final rounding,
    and counters never decrease. *)

From S2P Require Import Prelude.
From S2P Require Import PyFloat.
From S2P Require Import PyValue.
From S2P Require Import Pacing.
From Stdlib Require Import QArith Qround Qabs Ascii Lqa.
Open Scope Z_scope.

(** ** Documents: what [json.load] returns *)

Inductive doc : Type :=
  | DNull
  | DBool (b : bool)
  | DNum (q : Q)
  | DStr (s : string)
  | DList (items : list doc)
  | DObj (fields : list (string * doc)).

Definition dfind (fields : list (string * doc)) (k : string) : option doc :=
  snd <$> List.find (fun kv => bool_decide (kv.1 = k)) fields.
Definition dget (fields : list (string * doc)) (k : string) : doc := default DNull (dfind fields k).

Definition dtruthy (d : doc) : bool :=
  match d with
  | DNull => false
  | DBool b => b
  | DNum q => negb (Qeq_bool q 0)
  | DStr s => nonempty s
  | DList l => match l with [] => false | _ => true end
  | DObj l => match l with [] => false | _ => true end
  end.

Definition dnum (d : doc) : option Q :=
  match d with DBool b => Some (if b then 1%Q else 0%Q) | DNum q => Some q | _ => None end.

(** [a == b]; booleans are numbers, dicts compare whatever their order. *)
Fixpoint doc_eqb (a b : doc) {struct a} : bool :=
  match a, b with
  | DNull, DNull => true
  | DStr s, DStr t => bool_decide (s = t)
  | DList l, DList m =>
      (fix eqs l m := match l, m with
                      | [], [] => true
                      | x :: l, y :: m => doc_eqb x y && eqs l m
                      | _, _ => false
                      end) l m
  | DObj d, DObj e =>
      Nat.eqb (length d) (length e) &&
      (fix eqs d := match d with
                    | [] => true
                    | (k, v) :: d =>
                        match dfind e k with Some w => doc_eqb v w | None => false end && eqs d
                    end) d
  | _, _ => match dnum a, dnum b with Some x, Some y => Qeq_bool x y | _, _ => false end
  end.

(** How [a] and [b] compare; [None] where [a < b] raises TypeError. *)
Fixpoint doc_cmp (a b : doc) {struct a} : option comparison :=
  match a, b with
  | DNull, DNull => Some Eq
  | DStr s, DStr t => Some (String.compare s t)
  | DList l, DList m =>
      (fix lex l m := match l, m with
                      | [], [] => Some Eq
                      | [], _ => Some Lt
                      | _, [] => Some Gt
                      | x :: l, y :: m =>
                          match doc_cmp x y with Some Eq => lex l m | r => r end
                      end) l m
  | DObj _, DObj _ => if doc_eqb a b then Some Eq else None
  | _, _ => match dnum a, dnum b with Some x, Some y => Some (Qcompare x y) | _, _ => None end
  end.

(** [sorted(l, key=...)]: a stable sort, which needs every pair to compare. *)
Section Sorting.
Context {A : Type} (key : A -> doc).

Definition key_leb (x y : A) : Prop := doc_cmp (key x) (key y) <> Some Gt.
Global Instance key_leb_dec : RelDecision key_leb.
Proof. intros x y. unfold key_leb. destruct (doc_cmp _ _) as [[]|]; (left; congruence) || (right; congruence). Defined.

Fixpoint all_comparable (l : list A) : bool :=
  match l with
  | [] => true
  | x :: l =>
      forallb (fun y => match doc_cmp (key x) (key y) with Some _ => true | None => false end) l
      && all_comparable l
  end.

Definition py_sorted (l : list A) : result (list A) :=
  if all_comparable l then Ok (merge_sort key_leb l) else Raise TypeError.
End Sorting.

(** [for x in d]: what iterating a document yields. *)
Definition iterate (d : doc) : result (list doc) :=
  match d with
  | DList l => Ok l
  | DObj fields => Ok (DStr ∘ fst <$> fields)
  | DStr s => Ok ((fun c => DStr (String.String c EmptyString)) <$> String.list_ascii_of_string s)
  | _ => Raise TypeError
  end.

(** [x or []] *)
Definition or_nil (d : doc) : doc := if dtruthy d then d else DList [].

Abbreviation config := (list (string * doc)).

(** ** The size of the matrix, in the control plane and in the agent *)

Definition is_nonempty_list (d : doc) : option Z :=
  match d with DList (x :: l) => Some (Z.of_nat (length (x :: l))) | _ => None end.

Definition metrics_series_count (c : config) : result Z :=
  dims ← iterate (or_nil (dget c "dimensions"));
  Ok (foldl (fun count d =>
        match d with
        | DObj f => match is_nonempty_list (dget f "values") with Some n => count * n | None => count end
        | _ => count
        end) 1 dims).

Definition metrics_series_total (metricgen : config) : result Z :=
  dims ← iterate (or_nil (dget metricgen "dimensions"));
  Ok (foldl (fun total d =>
        match d with
        | DObj f =>
            if dtruthy (dget f "key")
            then match is_nonempty_list (dget f "values") with Some n => total * n | None => total end
            else total
        | _ => total
        end) 1 dims).

(** [len(range(slot, total, step))] *)
Definition range_len (slot total step : Z) : Z := Z.max 0 ((total - slot + step - 1) / step).

(** The work the agent reports for its slot. *)
Definition owned_series (metricgen : config) (slot total_workers : Z) : result Z :=
  total ← metrics_series_total metricgen; Ok (range_len slot total total_workers).

Definition metrics_active_workers (series_count workers : Z) : Z := Z.max 0 (Z.min series_count workers).

(** The lint of the dimensions (server/bundles.py: lint_metrics_config). *)
Definition MAX_METRIC_SERIES : Z := 5000.

Definition lint_dimension (d : doc) : list string :=
  match d with
  | DObj f =>
      (match dget f "key" with
       | DStr s => if nonempty s then [] else ["dimension needs a non-empty string key"]
       | _ => ["dimension needs a non-empty string key"]
       end) ++
      (match dget f "values" with
       | DList (_ :: _) => []
       | _ => ["dimension needs a non-empty values list"]
       end)
  | _ => ["dimension must be an object"]
  end.

Definition lint_dimensions (c : config) : result (list string) :=
  match default (DList []) (dfind c "dimensions") with
  | DList dims =>
      n ← metrics_series_count c;
      Ok (concat (lint_dimension <$> dims) ++
          (if MAX_METRIC_SERIES <? n then ["dimension cross-product is too large"] else []))
  | d => Ok (if dtruthy d then ["dimensions must be a list"] else [])
  end.

(** ** The matrix in the engine *)

Abbreviation series := (list (doc * doc)).

(** [{k: v, ...}[k] = v]: keys must hash, equal keys keep their place. *)
Fixpoint dict_set (k v : doc) (d : series) : series :=
  match d with
  | [] => [(k, v)]
  | (k', v') :: d => if doc_eqb k' k then (k', v) :: d else (k', v') :: dict_set k v d
  end.

Definition hashable (d : doc) : bool := match d with DList _ | DObj _ => false | _ => true end.

Definition dict_of (kvs : list (doc * doc)) : result series :=
  fold_result (fun kv d => if hashable kv.1 then Ok (dict_set kv.1 kv.2 d) else Raise TypeError) kvs [].

Fixpoint product {A} (axes : list (list A)) : list (list A) :=
  match axes with [] => [[]] | a :: axes => x ← a; cons x <$> product axes end.

Definition axis_of (d : doc) : result (option (doc * list doc)) :=
  match d with
  | DObj f =>
      let key := dget f "key" in
      let values := or_nil (dget f "values") in
      if dtruthy key && dtruthy values then vs ← iterate values; Ok (Some (key, vs)) else Ok None
  | _ => Raise AttributeError
  end.

Fixpoint map_result {A B} (f : A -> result B) (l : list A) : result (list B) :=
  match l with
  | [] => Ok []
  | x :: l => y ← f x; ys ← map_result f l; Ok (y :: ys)
  end.

Definition pair_doc (kv : doc * doc) : doc := DList [kv.1; kv.2].

(** [tuple(sorted(s.items()))] *)
Definition series_key (s : series) : result doc :=
  match py_sorted pair_doc s with
  | Ok items => Ok (DList (pair_doc <$> items))
  | Raise e => Raise e
  end.

(** [series.sort(key=...)] *)
Definition sort_series (all : list series) : result (list series) :=
  match map_result (fun s => match series_key s with Ok k => Ok (k, s) | Raise e => Raise e end) all with
  | Ok keyed =>
      match py_sorted fst keyed with Ok sorted => Ok (snd <$> sorted) | Raise e => Raise e end
  | Raise e => Raise e
  end.

Definition series_of_axes (axes : list (doc * list doc)) : result (list series) :=
  match axes with
  | [] => Ok [[]]
  | _ =>
      all ← map_result (fun combo => dict_of (zip (fst <$> axes) combo)) (product (snd <$> axes));
      sort_series all
  end.

Definition build_series (spec : config) : result (list series) :=
  dims ← iterate (or_nil (dget spec "dimensions"));
  axes ← map_result axis_of dims;
  series_of_axes (omap (M := list) id axes).

(** [l[slot::step]] *)
Fixpoint stride {A} (step slot : nat) (l : list A) : list A :=
  match l with
  | [] => []
  | x :: l => match slot with O => x :: stride step (pred step) l | S slot => stride step slot l end
  end.

(** The series a worker generates. *)
Definition shard (all_series : list series) (slot total_workers : Z) : list series :=
  stride (Z.to_nat total_workers) (Z.to_nat slot) all_series.

(** ** Sorting *)

Lemma py_sorted_perm {A} (key : A -> doc) l l' : py_sorted key l = Ok l' -> l' ≡ₚ l.
Proof.
  unfold py_sorted. destruct (all_comparable key l); [|done]. intros [= <-].
  apply merge_sort_Permutation.
Qed.

Lemma py_sorted_ok {A} (key : A -> doc) l :
  (forall x y, x ∈ l -> y ∈ l -> is_Some (doc_cmp (key x) (key y))) ->
  exists l', py_sorted key l = Ok l' /\ l' ≡ₚ l.
Proof.
  intros H. assert (all_comparable key l = true) as E.
  { induction l as [|x l IH]; [done|]. cbn. apply andb_true_intro. split.
    - apply forallb_forall. intros y Hy%list_elem_of_In.
      destruct (H x y) as [r ->]; [left|by right|done].
    - apply IH. intros y z Hy Hz. apply H; by right. }
  unfold py_sorted. rewrite E. eexists. split; [done|]. apply merge_sort_Permutation.
Qed.

(** Nested lists of strings, all of one depth, compare. *)
Fixpoint textual (depth : nat) (d : doc) : Prop :=
  match depth with
  | O => exists s, d = DStr s
  | S depth => exists l, d = DList l /\ Forall (textual depth) l
  end.

Lemma doc_cmp_textual n : forall a b, textual n a -> textual n b -> is_Some (doc_cmp a b).
Proof.
  induction n as [|n IH]; cbn; [intros a b [s ->] [t ->]; cbn; eauto|].
  intros a b (l & -> & Hl) (m & -> & Hm). cbn. revert m Hm.
  induction Hl as [|x l Hx Hl IHl]; intros [|y m] Hm; eauto.
  apply Forall_cons in Hm as [Hy Hm]. destruct (IH x y Hx Hy) as [[] ->]; eauto.
Qed.

(** ** Mapping *)

Lemma map_result_Forall2 {A B} (f : A -> result B) l : forall l',
  map_result f l = Ok l' <-> Forall2 (fun x y => f x = Ok y) l l'.
Proof.
  induction l as [|x l IH]; intros l'; cbn.
  { split; [intros [= <-]; constructor|by intros ->%Forall2_nil_inv_l]. }
  destruct (f x) as [y|e] eqn:E; cbn.
  2:{ split; [done|]. intros (y & ? & ? & _)%Forall2_cons_inv_l. congruence. }
  destruct (map_result f l) as [ys|e]; cbn.
  - split.
    + intros [= <-]. constructor; [done|]. by apply IH.
    + intros (y' & ys' & H1 & H2 & ->)%Forall2_cons_inv_l. apply IH in H2. congruence.
  - split; [done|]. intros (y' & ys' & H1 & H2 & ->)%Forall2_cons_inv_l. by apply IH in H2.
Qed.

Lemma map_result_ok {A B} (f : A -> result B) (P : B -> Prop) l :
  (forall x, x ∈ l -> exists y, f x = Ok y /\ P y) ->
  exists l', map_result f l = Ok l' /\ Forall P l' /\ length l' = length l.
Proof.
  induction l as [|x l IH]; intros H; cbn; [by exists []|].
  destruct (H x) as (y & -> & Hy); [left|]. cbn.
  destruct IH as (ys & -> & Hys & El); [intros z Hz; apply H; by right|]. cbn.
  exists (y :: ys). split; [done|]. split; [by constructor|]. cbn. congruence.
Qed.

Lemma product_length {A} (axes : list (list A)) :
  Z.of_nat (length (product axes)) = foldr Z.mul 1 ((fun a => Z.of_nat (length a)) <$> axes).
Proof.
  induction axes as [|a axes IH]; [done|]. rewrite fmap_cons. cbn [foldr product].
  rewrite <- IH. clear IH. induction a as [|x a IHa]; [done|].
  change ((x :: a) ≫= fun x => cons x <$> product axes)
    with ((cons x <$> product axes) ++ (a ≫= fun x => cons x <$> product axes)).
  rewrite length_app, length_fmap. cbn [length]. lia.
Qed.

Lemma product_Forall {A} (P : A -> Prop) (axes : list (list A)) combo :
  combo ∈ product axes -> Forall (Forall P) axes -> Forall P combo.
Proof.
  revert combo. induction axes as [|a axes IH]; intros combo; cbn [product].
  { intros ->%list_elem_of_singleton _. constructor. }
  intros (x & (c & -> & Hc)%list_elem_of_fmap & Hx)%list_elem_of_bind [Ha Haxes]%Forall_cons.
  constructor; [by apply (proj1 (Forall_forall _ _) Ha)|]. by apply IH.
Qed.

(** ** Strides *)

Lemma stride_partition {A} n (l : list A) : (0 < n)%nat ->
  concat ((fun slot => stride n slot l) <$> seq 0 n) ≡ₚ l.
Proof.
  intros Hn. destruct n as [|n]; [lia|]. clear Hn. induction l as [|x l IH].
  { cbn [stride]. replace (concat _) with ([] : list A); [done|].
    induction (seq 0 (S n)) as [|k ks IHk]; [done|]. rewrite fmap_cons. cbn. done. }
  trans (x :: concat ((fun slot => stride (S n) slot l) <$> seq 0 (S n))); [|by rewrite IH].
  clear IH. cbn [seq]. rewrite fmap_cons. cbn [stride concat pred].
  rewrite <- app_comm_cons. constructor.
  assert (forall k, (fun slot => stride (S n) slot (x :: l)) <$> seq 1 k
                    = (fun slot => stride (S n) slot l) <$> seq 0 k) as E.
  { intros k. rewrite <- (fmap_S_seq 0 k), <- list_fmap_compose. done. }
  rewrite E. change (0%nat :: seq 1 n) with (seq 0 (S n)). rewrite seq_S, fmap_app.
  rewrite concat_app. cbn. rewrite app_nil_r. by rewrite Permutation_app_comm.
Qed.

Lemma stride_length {A} n (l : list A) : forall slot, (slot < n)%nat ->
  Z.of_nat (length (stride n slot l)) = range_len (Z.of_nat slot) (Z.of_nat (length l)) (Z.of_nat n).
Proof.
  unfold range_len. induction l as [|x l IH]; intros slot Hs; cbn [stride length].
  { rewrite Z.max_l; [done|]. apply Z.lt_succ_r, Z.div_lt_upper_bound; lia. }
  destruct slot as [|slot].
  - cbn [length]. rewrite Nat2Z.inj_succ, IH by lia.
    replace (Z.of_nat (S (length l)) - Z.of_nat 0 + Z.of_nat n - 1)
      with (Z.of_nat (length l) - Z.of_nat (pred n) + Z.of_nat n - 1 + 1 * Z.of_nat n) by lia.
    rewrite Z.div_add by lia.
    assert (0 <= (Z.of_nat (length l) - Z.of_nat (pred n) + Z.of_nat n - 1) / Z.of_nat n)
      by (apply Z.div_pos; lia). lia.
  - rewrite IH by lia. f_equal. f_equal. lia.
Qed.

Lemma range_len_pos slot total n : 0 <= slot < n -> (0 < range_len slot total n <-> slot < total).
Proof.
  intros H. unfold range_len.
  pose proof (Z.div_mod (total - slot + n - 1) n ltac:(lia)) as E.
  pose proof (Z.mod_pos_bound (total - slot + n - 1) n ltac:(lia)). split; nia.
Qed.

(** How many of the numbers below [n] are below [m]. *)
Lemma count_below n m :
  length (List.filter (fun k => (Z.of_nat k <? m)) (seq 0 n)) = Z.to_nat (Z.max 0 (Z.min m (Z.of_nat n))).
Proof.
  induction n as [|n IH]; [cbn; lia|].
  rewrite seq_S, List.filter_app, length_app, IH. cbn.
  destruct (Z.ltb_spec (Z.of_nat n) m); cbn; lia.
Qed.

(** ** Configs that pass the lint *)

Definition is_string (d : doc) : bool := match d with DStr _ => true | _ => false end.

(** Every dimension's values are strings. *)
Definition string_values (c : config) : bool :=
  match dget c "dimensions" with
  | DList dims =>
      forallb (fun d => match d with
                        | DObj f => match dget f "values" with DList vs => forallb is_string vs | _ => true end
                        | _ => true
                        end) dims
  | _ => true
  end.

(** A dimension that passes, with the axis it spans. *)
Definition linted (d : doc) (axis : doc * list doc) : Prop :=
  exists f k, d = DObj f /\ dget f "key" = DStr k /\ nonempty k = true /\ axis.1 = DStr k /\
    axis.2 <> [] /\ dget f "values" = DList axis.2.

Lemma lint_dimension_ok d : lint_dimension d = [] -> exists axis, linted d axis.
Proof.
  unfold lint_dimension. destruct d as [| | | | |f]; try done.
  destruct (dget f "key") as [| | |k| |] eqn:Ek; try done.
  destruct (nonempty k) eqn:En; [|done].
  destruct (dget f "values") as [| | | |[|x vs]|] eqn:Ev; try done. intros _.
  exists (DStr k, x :: vs), f, k. by cbn.
Qed.

Lemma concat_nil {A} (ls : list (list A)) : concat ls = [] -> Forall (fun l => l = []) ls.
Proof. induction ls as [|l ls IH]; cbn; [constructor|]. intros [? ?]%app_eq_nil. auto. Qed.

Lemma lint_axes c : lint_dimensions c = Ok [] ->
  exists dims axes, iterate (or_nil (dget c "dimensions")) = Ok dims /\ Forall2 linted dims axes /\
    (string_values c = true -> Forall (fun a => Forall (textual 0) a.2) axes).
Proof.
  unfold lint_dimensions, dget, string_values.
  destruct (dfind c "dimensions") as [[|b|q|s|l|fs]|] eqn:E; cbn [default from_option id].
  5:{ destruct (metrics_series_count c) as [n|]; cbn; [|done]. intros [= H].
      apply app_eq_nil in H as [H _]. apply concat_nil in H.
      assert (exists axes, Forall2 linted l axes) as [axes Hax].
      { clear E. induction l as [|d l IH]; [by exists []|]. rewrite fmap_cons in H. apply Forall_cons in H as [H1 H2].
        destruct (lint_dimension_ok d H1) as [a Ha], (IH H2) as [axes Hx]. exists (a :: axes). by constructor. }
      exists l, axes. split; [|split; [done|]].
      { destruct l; done. }
      intros Hs. unfold dget at 1 in Hs. rewrite E in Hs. cbn [default from_option id] in Hs. clear E H.
      induction Hax as [|d a l axes Hd Hax IH]; [constructor|].
      cbn [forallb] in Hs. apply andb_prop in Hs as [H1 H2]. constructor; [|by apply IH].
      destruct Hd as (f & k & -> & _ & _ & _ & _ & Ev). rewrite Ev in H1.
      apply Forall_forall. intros v Hv%list_elem_of_In. apply forallb_forall with (x := v) in H1; [|done].
      destruct v; try done. cbn. eauto. }
  all: intros H; exists [], []; split; [|split; [constructor|constructor]].
  all: unfold or_nil; cbn; try done.
  - by destruct b.
  - cbn in H. by destruct (Qeq_bool q 0).
  - cbn in H. by destruct (nonempty s).
  - by destruct fs.
Qed.

Definition axis_len (a : doc * list doc) : Z := Z.of_nat (length a.2).

Lemma linted_len d a : linted d a -> exists f, d = DObj f /\ dtruthy (dget f "key") = true /\
  is_nonempty_list (dget f "values") = Some (axis_len a) /\ axis_of d = Ok (Some a).
Proof.
  intros (f & k & -> & Ek & Hk & Ea & Hne & Ev). exists f. unfold axis_len, axis_of, or_nil.
  rewrite Ek, Ev. destruct a as [a1 [|x vs]]; [done|]. cbn in *. subst a1. rewrite Hk. done.
Qed.

Lemma foldl_lens dims axes (g : Z -> doc -> Z) : Forall2 linted dims axes ->
  (forall n d a, linted d a -> g n d = n * axis_len a) ->
  forall n, foldl g n dims = n * foldr Z.mul 1 (axis_len <$> axes).
Proof.
  intros H Hg. induction H as [|d a dims axes Hd H IH]; intros n; [cbn; lia|].
  rewrite fmap_cons. cbn [foldl foldr]. rewrite IH, (Hg n d a Hd). ring.
Qed.

Lemma counts_agree c dims axes :
  iterate (or_nil (dget c "dimensions")) = Ok dims -> Forall2 linted dims axes ->
  metrics_series_count c = Ok (foldr Z.mul 1 (axis_len <$> axes)) /\
  metrics_series_total c = Ok (foldr Z.mul 1 (axis_len <$> axes)).
Proof.
  intros E H. unfold metrics_series_count, metrics_series_total. rewrite E. cbn [mbind result_bind].
  split; f_equal; rewrite (foldl_lens dims axes _ H); try lia.
  all: intros n d a (f & -> & Hk & Hv & _)%linted_len; by rewrite ?Hk, Hv.
Qed.

Lemma dict_set_textual k v d : textual 0 k -> textual 0 v ->
  Forall (fun kv => textual 0 kv.1 /\ textual 0 kv.2) d ->
  Forall (fun kv => textual 0 kv.1 /\ textual 0 kv.2) (dict_set k v d).
Proof.
  intros Hk Hv H. induction H as [|[k' v'] d [H1 H2] H IH]; cbn; [by repeat constructor|].
  destruct (doc_eqb k' k); constructor; auto.
Qed.

Abbreviation text_dict := (Forall (fun kv : doc * doc => textual 0 kv.1 /\ textual 0 kv.2)).

Lemma dict_of_textual kvs : text_dict kvs -> exists d, dict_of kvs = Ok d /\ text_dict d.
Proof.
  unfold dict_of. assert (text_dict []) as H0 by constructor. revert H0. generalize (@nil (doc * doc)).
  induction kvs as [|[k v] kvs IH]; intros d Hd H; [by exists d|].
  apply Forall_cons in H as [[Hk Hv] H]. cbn [fst snd] in Hk, Hv. cbn [fold_result fst snd].
  assert (hashable k = true) as -> by (destruct Hk as [s ->]; done).
  apply IH; [|done]. by apply dict_set_textual.
Qed.

Lemma series_key_textual s : text_dict s -> exists k, series_key s = Ok k /\ textual 2 k.
Proof.
  intros H. unfold series_key.
  assert (forall kv, kv ∈ s -> textual 1 (pair_doc kv)) as Ht.
  { intros kv [H1 H2]%(proj1 (Forall_forall _ _) H). exists [kv.1; kv.2]. split; [done|]. by repeat constructor. }
  destruct (py_sorted_ok pair_doc s) as (l & -> & Hp).
  { intros x y Hx Hy. apply (doc_cmp_textual 1); auto. }
  eexists. split; [done|]. eexists. split; [done|]. apply Forall_fmap. rewrite Hp.
  apply Forall_forall. exact Ht.
Qed.

Lemma sort_series_ok all : Forall text_dict all ->
  exists sorted, sort_series all = Ok sorted /\ sorted ≡ₚ all.
Proof.
  intros H. unfold sort_series.
  destruct (map_result_ok (fun s => match series_key s with Ok k => Ok (k, s) | Raise e => Raise e end)
    (fun ks => textual 2 ks.1) all) as (keyed & E & Hk & _).
  { intros s Hs%(proj1 (Forall_forall _ _) H). destruct (series_key_textual s Hs) as (k & -> & Hk).
    by exists (k, s). }
  rewrite E. destruct (py_sorted_ok fst keyed) as (sorted & -> & Hp).
  { intros x y Hx Hy. rewrite Forall_forall in Hk. apply (doc_cmp_textual 2); auto. }
  eexists. split; [done|]. rewrite Hp.
  assert (snd <$> keyed = all) as ->; [|done].
  apply map_result_Forall2 in E. clear -E. induction E as [|s [k s'] all keyed Hs E IH]; [done|].
  rewrite fmap_cons, IH. cbn. destruct (series_key s); congruence.
Qed.

Lemma build_series_ok c : lint_dimensions c = Ok [] -> string_values c = true ->
  exists series, build_series c = Ok series /\
    metrics_series_count c = Ok (Z.of_nat (length series)) /\
    metrics_series_total c = Ok (Z.of_nat (length series)) /\
    Forall text_dict series.
Proof.
  intros Hl Hs. destruct (lint_axes c Hl) as (dims & axes & E & H & Ht). specialize (Ht Hs).
  destruct (counts_agree c dims axes E H) as [-> ->].
  unfold build_series. rewrite E. cbn [mbind result_bind].
  assert (map_result axis_of dims = Ok (Some <$> axes)) as ->.
  { apply map_result_Forall2. clear -H. induction H as [|d a dims axes Hd H IH]; constructor; [|done].
    by destruct (linted_len d a Hd) as (f & _ & _ & _ & ?). }
  cbn [mbind result_bind].
  assert (omap (M := list) id (Some <$> axes) = axes) as ->
    by (clear; induction axes as [|a axes IH]; [done|]; cbn; f_equal; exact IH).
  unfold series_of_axes. destruct axes as [|a axes'] eqn:Ea;
    [exists [[]]; split_and!; [done..|by repeat constructor]|]. rewrite <- Ea in *.
  destruct (map_result_ok (fun combo => dict_of (zip (fst <$> axes) combo)) text_dict
    (product (snd <$> axes))) as (all & -> & Hall & Hlen).
  { intros combo Hc. apply dict_of_textual.
    assert (Forall (textual 0) combo) as Hcomb.
    { apply (product_Forall _ _ _ Hc). by apply Forall_fmap. }
    assert (Forall (textual 0) (fst <$> axes)) as Hkeys.
    { apply Forall_fmap. clear -H. induction H as [|d a dims axes Hd H IH]; constructor; [|done].
      destruct Hd as (f & k & _ & _ & _ & Ek & _). cbn. eauto. }
    apply Forall_forall. intros [k v] Hkv. rewrite Forall_forall in Hcomb, Hkeys. cbn. split.
    - apply Hkeys. by apply elem_of_zip_l in Hkv.
    - apply Hcomb. by apply elem_of_zip_r in Hkv. }
  cbn [mbind result_bind]. destruct (sort_series_ok all Hall) as (sorted & -> & Hp).
  exists sorted. split; [done|].
  assert (Z.of_nat (length sorted) = foldr Z.mul 1 (axis_len <$> axes)) as ->;
    [|split_and!; [done..|by rewrite Hp]].
  rewrite Hp, Hlen, product_length, <- list_fmap_compose. done.
Qed.


(** ** A backfill's walk (engine.py: _run_backfill) *)

Abbreviation stamps := (Forall2 (fun (t : Q) (z : Z) => (t == inject_Z z)%Q)).

Section Backfill.
Context {R : Rounding}.

(** One tick's points; the socket takes the [i]-th send or has closed. *)
Fixpoint send_all (accepts : nat -> bool) (i : nat) (tick : Q) (ss : list series)
    : list (Q * series) * bool :=
  match ss with
  | [] => ([], true)
  | s :: ss =>
      if accepts i then let '(ps, ok) := send_all accepts (S i) tick ss in ((tick, s) :: ps, ok)
      else ([], false)
  end.

(** The while loop; [None] is out of fuel. *)
Fixpoint backfill_walk (fuel : nat) (accepts : nat -> bool) (i : nat) (res finish tick : Q)
    (ss : list series) : option (list (Q * series) * bool) :=
  match fuel with
  | O => None
  | S fuel =>
      if qlt tick finish then
        let '(ps, ok) := send_all accepts i tick ss in
        if ok then
          match backfill_walk fuel accepts (i + length ps) res finish (fadd tick res) ss with
          | Some (rest, ok) => Some (ps ++ rest, ok)
          | None => None
          end
        else Some (ps, false)
      else Some ([], true)
  end.

Definition backfill_start (start_s res : Q) : Q := fmul (rnd (inject_Z (Qfloor (fdiv start_s res)))) res.

Definition run_backfill (fuel : nat) (accepts : nat -> bool) (start_s end_s res : Q)
    (ss : list series) : option (list (Q * series) * bool) :=
  backfill_walk fuel accepts 0 res end_s (backfill_start start_s res) ss.

(** ** Values (patterns.py) *)

Definition clamp01 (x : Q) : Q := if qlt x 0 then 0%Q else if qlt 1 x then 1%Q else x.

(** [max(x, y)] and [min(x, y)]: the first argument on a tie. *)
Definition pymax (x y : Q) : Q := if qlt x y then y else x.
Definition pymin (x y : Q) : Q := if qlt y x then y else x.

(** [round(v, 4)] *)
Definition round4 (v : Q) : Q := rnd (inject_Z (round_half_even (v * 10000)) / 10000).

Definition sigma (noise span a : Q) : Q :=
  fmul (fmul (Qabs noise) (Qabs span)) (fadd (rnd (3 # 10)) (fmul (rnd (7 # 10)) a)).

(** The activity mapped on the envelope, with its noise: [gauss] is the drawn
    value for a deviation, [None] without a generator. *)
Definition clamped_value (a vmin p95 vmax noise : Q) (gauss : option (Q -> Q)) : Q :=
  let a := clamp01 a in
  let span := fsub p95 vmin in
  let center := fadd vmin (fmul a span) in
  let center :=
    match gauss with
    | Some g => if negb (Qeq_bool noise 0) && negb (Qeq_bool span 0)
                then fadd center (g (sigma noise span a)) else center
    | None => center
    end in
  let '(lo, hi) := if Qle_bool vmin vmax then (vmin, vmax) else (vmax, vmin) in
  pymin hi (pymax lo center).

(** The value, and the running total of a counter ([None] without a state). *)
Definition sample_value (a vmin p95 vmax : Q) (kind : string) (noise : Q) (gauss : option (Q -> Q))
    (total : option Z) : Q * option Z :=
  let value := clamped_value a vmin p95 vmax noise gauss in
  let delta := Z.max 0 (round_half_even value) in
  if bool_decide (kind = "count") then (rnd (inject_Z delta), total)
  else if bool_decide (kind = "counter") then
    match total with
    | None => (rnd (inject_Z delta), None)
    | Some t => (rnd (inject_Z (t + delta)), Some (t + delta))
    end
  else (round4 value, total).

(** ** The walk, without its loop *)

(** The prefix of [l] that is sent before the socket closes, and whether all was. *)
Fixpoint cut {A} (accepts : nat -> bool) (i : nat) (l : list A) : list A * bool :=
  match l with
  | [] => ([], true)
  | x :: l => if accepts i then let '(ps, ok) := cut accepts (S i) l in (x :: ps, ok) else ([], false)
  end.

Lemma send_all_cut accepts tick ss : forall i, send_all accepts i tick ss = cut accepts i (pair tick <$> ss).
Proof. induction ss as [|s ss IH]; intros i; [done|]. rewrite fmap_cons. cbn [send_all cut]. by rewrite IH. Qed.

Lemma cut_app {A} accepts (l1 l2 : list A) : forall i, cut accepts i (l1 ++ l2) =
  let '(p1, ok) := cut accepts i l1 in
  if ok : bool then let '(p2, ok) := cut accepts (i + length p1) l2 in (p1 ++ p2, ok) else (p1, false).
Proof.
  induction l1 as [|x l1 IH]; intros i; cbn [cut app].
  { cbn. rewrite Nat.add_0_r. by destruct (cut accepts i l2). }
  destruct (accepts i); [|done]. rewrite IH. destruct (cut accepts (S i) l1) as [p1 []]; [|done].
  cbn [length]. rewrite Nat.add_succ_r. cbn [Nat.add]. by destruct (cut accepts _ l2).
Qed.

(** [n] ticks from [z], [r] apart. *)
Fixpoint grid (r z : Z) (n : nat) : list Z :=
  match n with O => [] | S n => z :: grid r (z + r) n end.

Definition all_points (ticks : list Q) (ss : list series) : list (Q * series) :=
  t ← ticks; pair t <$> ss.

Lemma fadd_ints x y a b : (x == inject_Z a)%Q -> (y == inject_Z b)%Q -> Z.abs (a + b) <= 2 ^ 53 ->
  (fadd x y == inject_Z (a + b))%Q.
Proof. intros Hx Hy H. unfold fadd. by rewrite Hx, Hy, <- inject_Z_plus, rnd_int. Qed.

Lemma backfill_walk_spec accepts res finish ss r e :
  (res == inject_Z r)%Q -> (finish == inject_Z e)%Q -> 1 <= r -> e + r <= 2 ^ 53 ->
  forall n z tick fuel i, (tick == inject_Z z)%Q -> 0 <= z -> (n < fuel)%nat ->
  e <= z + r * Z.of_nat n -> ((0 < n)%nat -> z + r * (Z.of_nat n - 1) < e) ->
  exists ticks, stamps ticks (grid r z n) /\
    backfill_walk fuel accepts i res finish tick ss = Some (cut accepts i (all_points ticks ss)).
Proof.
  intros Hres Hfin Hr Hb. induction n as [|n IH]; intros z tick fuel i Ht Hz Hfuel H1 H2.
  { exists []. split; [constructor|]. destruct fuel as [|fuel]; [lia|]. cbn [backfill_walk].
    destruct (qlt_spec tick finish) as [H|H]; [|done]. exfalso.
    rewrite Ht, Hfin in H. apply (proj1 (inject_Z_lt _ _)) in H. lia. }
  destruct fuel as [|fuel]; [lia|]. cbn [backfill_walk].
  destruct (qlt_spec tick finish) as [H|H].
  2:{ exfalso. apply H. rewrite Ht, Hfin. apply inject_Z_lt. specialize (H2 ltac:(lia)). nia. }
  assert (z < e) as Hze by (rewrite Ht, Hfin in H; by apply (proj1 (inject_Z_lt _ _)) in H).
  destruct (IH (z + r) (fadd tick res) fuel (i + length (cut accepts i (pair tick <$> ss)).1)%nat)
    as (ticks & Hst & E); [apply fadd_ints; try done; lia|lia|lia|lia|intros; specialize (H2 ltac:(lia)); lia|].
  exists (tick :: ticks). split; [by constructor|].
  change (all_points (tick :: ticks) ss) with ((pair tick <$> ss) ++ all_points ticks ss).
  rewrite send_all_cut, cut_app. destruct (cut accepts i (pair tick <$> ss)) as [p1 []]; [|done].
  cbn [fst] in E. rewrite E. by destruct (cut accepts _ (all_points ticks ss)).
Qed.

Lemma floor_fdiv s r x y : (x == inject_Z s)%Q -> (y == inject_Z r)%Q ->
  0 <= s < 2 ^ 53 -> 1 <= r -> Qfloor (fdiv x y) = s / r.
Proof.
  intros Hx Hy Hs Hr. unfold fdiv.
  assert (0 < inject_Z r)%Q as Hr' by (apply (inject_Z_lt 0); lia).
  assert (x / y == inject_Z s / inject_Z r)%Q as E by (by rewrite Hx, Hy).
  pose proof (Z.div_mod s r ltac:(lia)) as Hdm. pose proof (Z.mod_pos_bound s r ltac:(lia)) as Hm.
  assert (0 <= s / r) by (apply Z.div_pos; lia).
  assert (inject_Z (s / r) <= x / y)%Q as Hlo.
  { rewrite E. apply Qle_shift_div_l; [done|]. rewrite <- inject_Z_mult. apply inject_Z_le. lia. }
  assert (inject_Z (s / r) <= rnd (x / y))%Q as H1.
  { rewrite <- (rnd_int (s / r)); [by apply rnd_mono|]. nia. }
  assert (rnd (x / y) < inject_Z (s / r) + 1)%Q as H2.
  { assert (0 <= x / y)%Q as Hq by (rewrite E; apply Qle_shift_div_l; [done|];
      change 0%Q with (inject_Z 0); rewrite <- inject_Z_mult; apply inject_Z_le; lia).
    destruct (rnd_bounds _ Hq) as [_ Hb]. eapply Qle_lt_trans; [exact Hb|].
    assert (inject_Z s / inject_Z r * (1 + eps) == (inject_Z s + inject_Z s * eps) / inject_Z r)%Q as E'
      by (field; lra).
    rewrite E, E'.
    apply Qlt_shift_div_r; [done|].
    assert (inject_Z s * eps < 1)%Q.
    { unfold eps. assert (inject_Z s < 9007199254740992)%Q by (apply (inject_Z_lt s 9007199254740992); lia). lra. }
    assert (inject_Z s + 1 <= (inject_Z (s / r) + 1) * inject_Z r)%Q.
    { change 1%Q with (inject_Z 1). rewrite <- !inject_Z_plus, <- inject_Z_mult. apply inject_Z_le. nia. }
    lra. }
  pose proof (Qfloor_spec (rnd (x / y))) as [F1 F2].
  assert (inject_Z (s / r) < inject_Z (Qfloor (rnd (x / y))) + 1)%Q as G1 by lra.
  apply inject_Z_lt_succ in G1.
  assert (inject_Z (Qfloor (rnd (x / y))) < inject_Z (s / r) + 1)%Q as G2 by lra.
  apply inject_Z_lt_succ in G2. lia.
Qed.

Lemma backfill_start_int s r x y : (x == inject_Z s)%Q -> (y == inject_Z r)%Q ->
  0 <= s < 2 ^ 53 -> 1 <= r -> (backfill_start x y == inject_Z (r * (s / r)))%Q.
Proof.
  intros Hx Hy Hs Hr. unfold backfill_start, fmul. rewrite (floor_fdiv s r x y) by done.
  pose proof (Z.div_mod s r ltac:(lia)). pose proof (Z.mod_pos_bound s r ltac:(lia)).
  assert (0 <= s / r) by (apply Z.div_pos; lia).
  rewrite rnd_int by nia. rewrite Hy, <- inject_Z_mult, Z.mul_comm. apply rnd_int. nia.
Qed.

(** How many ticks a backfill of [s, e) has at resolution [r]. *)
Definition backfill_count (s e r : Z) : Z := (e - r * (s / r) + r - 1) / r.

(** A metrics backfill over whole seconds terminates and walks its window.  The
    loop ends within one iteration per tick and one more; it emits, in time
    order and for every owned series, the ticks from the last multiple of the
    resolution at or before the start up to the end, cut off where the socket
    closes. *)
Theorem backfill_walks_window accepts ss s e r x y z fuel :
  (x == inject_Z s)%Q -> (y == inject_Z e)%Q -> (z == inject_Z r)%Q ->
  0 <= s < e -> 1 <= r -> e + r <= 2 ^ 53 -> backfill_count s e r < Z.of_nat fuel ->
  exists ticks, stamps ticks (grid r (r * (s / r)) (Z.to_nat (backfill_count s e r))) /\
    run_backfill fuel accepts x y z ss = Some (cut accepts 0 (all_points ticks ss)).
Proof.
  intros Hx Hy Hz Hs Hr Hb Hf. unfold run_backfill, backfill_count in *.
  pose proof (Z.div_mod s r ltac:(lia)). pose proof (Z.mod_pos_bound s r ltac:(lia)).
  assert (0 <= s / r) by (apply Z.div_pos; lia).
  set (t0 := r * (s / r)) in *. set (n := (e - t0 + r - 1) / r) in *.
  pose proof (Z.div_mod (e - t0 + r - 1) r ltac:(lia)) as Hn.
  pose proof (Z.mod_pos_bound (e - t0 + r - 1) r ltac:(lia)). fold n in Hn.
  assert (0 <= n) by (apply Z.div_pos; lia).
  apply (backfill_walk_spec accepts z y ss r e Hz Hy Hr Hb); [|lia|lia|rewrite Z2Nat.id by lia; lia|].
  - apply backfill_start_int; try done. lia.
  - intros _. rewrite Z2Nat.id by lia. lia.
Qed.

(** ** Sampled values *)

Lemma round4_mono x y : (x <= y)%Q -> (round4 x <= round4 y)%Q.
Proof.
  intros H. apply rnd_mono. apply Qmult_le_compat_r; [|done]. apply inject_Z_le.
  apply round_half_even_mono. lra.
Qed.

Definition low (vmin vmax : Q) : Q := if Qle_bool vmin vmax then vmin else vmax.
Definition high (vmin vmax : Q) : Q := if Qle_bool vmin vmax then vmax else vmin.

Lemma clamped_in a vmin p95 vmax noise g :
  (low vmin vmax <= clamped_value a vmin p95 vmax noise g <= high vmin vmax)%Q.
Proof.
  unfold clamped_value, low, high. cbv zeta. set (center := match g with Some _ => _ | None => _ end).
  generalize center. clear center. intros center. unfold pymin, pymax.
  destruct (Qle_bool_spec vmin vmax); cbv zeta iota beta;
    repeat match goal with |- context [qlt ?p ?q] => destruct (qlt_spec p q) end; lra.
Qed.

(** Whatever is drawn, a sampled value stays in its envelope [min, max] up to the
    final rounding, and a counter's total grows by a count of that envelope, so
    it never decreases. *)
Theorem sample_in_envelope a vmin p95 vmax kind noise g total :
  let '(v, total') := sample_value a vmin p95 vmax kind noise g total in
  let count q := Z.max 0 (round_half_even q) in
  (kind <> "count" -> kind <> "counter" ->
     (round4 (low vmin vmax) <= v <= round4 (high vmin vmax))%Q /\ total' = total) /\
  (kind = "count" -> total' = total /\
     exists n, v = rnd (inject_Z n) /\ count (low vmin vmax) <= n <= count (high vmin vmax)) /\
  (kind = "counter" -> forall t, total = Some t -> exists n, total' = Some (t + n) /\
     v = rnd (inject_Z (t + n)) /\ 0 <= n /\ count (low vmin vmax) <= n <= count (high vmin vmax)).
Proof.
  unfold sample_value. pose proof (clamped_in a vmin p95 vmax noise g) as [H1 H2].
  set (v := clamped_value _ _ _ _ _ _) in *. cbv zeta.
  pose proof (round_half_even_mono _ _ H1). pose proof (round_half_even_mono _ _ H2).
  destruct (bool_decide_reflect (kind = "count")) as [->|Hc].
  { split_and!; try done. intros _. split; [done|]. eexists. split; [done|]. lia. }
  destruct (bool_decide_reflect (kind = "counter")) as [->|Hc'].
  { destruct total as [t|]; (split; [done|]; split; [done|]); intros _ t' [= <-].
    eexists. split; [done|]. split; [done|]. lia. }
  split; [|done]. intros _ _. split; [|done]. split; by apply round4_mono.
Qed.
End Backfill.

(** ** Witnesses *)

Definition sample_config : config :=
  [("dimensions", DList
     [DObj [("key", DStr "host"); ("values", DList [DStr "b"; DStr "a"; DStr "c"])];
      DObj [("key", DStr "app"); ("values", DList [DStr "x"; DStr "y"])]])].


Lemma backfill_walks_window_witness :
  exists ticks, stamps ticks (grid 10 120 (Z.to_nat (backfill_count 123 165 10))) /\
    @run_backfill binary64 9 (fun i => Nat.ltb i 4) 123 165 10 [[]]
      = Some (cut (fun i => Nat.ltb i 4) 0 (all_points ticks [[]])).
Proof.
  refine (@backfill_walks_window binary64 (fun i => Nat.ltb i 4) [[]] 123 165 10 123 165 10 9 _ _ _ _ _ _ _);
    (reflexivity || lia || (vm_compute; done)).
Defined.

(** A dimension that mixes numbers and strings passes the lint, and the engine
    cannot sort its series. *)
Example mixed_values_do_not_start :
  let c := [("dimensions", DList [DObj [("key", DStr "port"); ("values", DList [DNum 80; DStr "https"])]])] in
  lint_dimensions c = Ok [] /\ build_series c = Raise TypeError.
Proof. by vm_compute. Qed.

(** A gauge whose ceiling is below the fourth decimal is rounded past it. *)
Example gauge_past_its_ceiling :
  let v := (@sample_value binary64 1 0 (6 # 100000) (6 # 100000) "gauge" 0 None None).1 in
  qlt (6 # 100000) v = true.
Proof. by vm_compute. Qed.
