(* ===== verification/Apportion.v ===== *)
(** * Rate apportionment (server/engines/apportion.py)

    [largest_remainder] splits an integer total over float weights;
    [apportion_shares] turns a run's rate into one share dict per worker slot.
    The worker's [confrewrite.largest_remainder] is the same function, applied
    to its stanzas.  The theorems: the parts sum to the total (in binary64, for
    totals up to about [2^53 / 2n]), every part is its quota rounded down or up,
    the extra units go to the largest remainders with ties to the lower slot,
    and the shares of a rate sum back to the rate. *)

From S2P Require Import Prelude.
From S2P Require Import PyFloat.
From S2P Require Import PyValue.
From Stdlib Require Import QArith Qround Qabs Lqa.
Open Scope Q_scope.

(** ** Definitions *)

Fixpoint zsum (l : list Z) : Z :=
  match l with [] => 0%Z | z :: l => (z + zsum l)%Z end.

Fixpoint qsum (l : list Q) : Q :=
  match l with [] => 0 | q :: l => q + qsum l end.

Section Defs.
Context {R : Rounding}.

(** [range(n)] sorted by [(-(exact[i] - floors[i]), i)]: position [i] comes
    before [j] when its remainder is larger, or equal with [i <= j]. *)
Definition remainder (exact : list Q) (floors : list Z) (i : nat) : Q :=
  fsub (nth i exact 0) (inject_Z (nth i floors 0%Z)).

Definition key_le (exact : list Q) (floors : list Z) (i j : nat) : Prop :=
  remainder exact floors j < remainder exact floors i
  \/ remainder exact floors i == remainder exact floors j /\ (i <= j)%nat.

Global Instance key_le_dec exact floors : RelDecision (key_le exact floors).
Proof.
  intros i j. unfold key_le.
  destruct (Qlt_le_dec (remainder exact floors j) (remainder exact floors i));
    [left; by left|].
  destruct (Qeq_dec (remainder exact floors i) (remainder exact floors j)),
    (decide (i <= j)%nat); try (right; intros [?|[? ?]]; [lra|done]).
  left; by right.
Defined.

(** [xs[:k]] with Python's meaning of a negative bound. *)
Definition py_prefix {A} (k : Z) (xs : list A) : list A :=
  if (0 <=? k)%Z then take (Z.to_nat k) xs
  else take (length xs - Z.to_nat (- k)) xs.

(** [for i in idx: floors[i] += 1] *)
Definition bump (idx : list nat) (floors : list Z) : list Z :=
  foldl (fun fl i => alter (Z.add 1) i fl) floors idx.

(** The weights and their sum after the degenerate-sum fallback. *)
Definition usable_weights (weights : list Q) : list Q * Q :=
  let weight_sum := fsum weights in
  if Qle_bool weight_sum 0
  then (replicate (length weights) 1, rnd (inject_Z (Z.of_nat (length weights))))
  else (weights, weight_sum).

Definition quotas (total : Z) (weights : list Q) : list Q :=
  let '(ws, weight_sum) := usable_weights weights in
  (fun w => fmul (rnd (inject_Z total)) (fdiv w weight_sum)) <$> ws.

Definition largest_remainder (total : Z) (weights : list Q) : result (list Z) :=
  if (total <? 0)%Z then Raise (ValueError "total must be >= 0")
  else
    let n := length weights in
    if Nat.eqb n 0 then Ok []
    else
      let exact := quotas total weights in
      let floors := Qfloor <$> exact in
      let shortfall := (total - zsum floors)%Z in
      let remainders := merge_sort (key_le exact floors) (seq 0 n) in
      Ok (bump (py_prefix shortfall remainders) floors).

(** [{key: value}] *)
Definition share (key : string) (value : Q) : pydict := {[ key := VFloat value ]}.

Definition share_value (key : string) (s : pydict) : Q :=
  match dget s key with VFloat q => q | _ => 0 end.

(** [_fix_float_residue]: fold [total - fsum(shares)] into the last share.
    [math.fsum] returns the exact sum, rounded once. *)
Definition fix_float_residue (shares : list pydict) (key : string) (total : Q)
    : list pydict :=
  match last shares with
  | None => shares
  | Some s =>
      let current := rnd (qsum (share_value key <$> shares)) in
      let s' := <[ key := VFloat (fadd (share_value key s) (fsub total current)) ]> s in
      <[ (length shares - 1)%nat := s' ]> shares
  end.

Definition apportion_shares (rate_mode : string) (rate_value : option Q)
    (workers : Z) (weights : option (list Q)) : result (list pydict) :=
  if (workers <? 1)%Z then Raise (ValueError "workers must be >= 1")
  else
    let weights := default (replicate (Z.to_nat workers) 1) weights in
    if negb (Z.of_nat (length weights) =? workers)%Z
    then Raise (ValueError "weights length != workers")
    else if bool_decide (rate_mode = "eps" \/ rate_mode = "per_day_gb") then
      match rate_value with
      | Some v =>
          if Qle_bool v 0 then Raise (ValueError "mode requires rate_value > 0")
          else
            let '(ws, weight_sum) := usable_weights weights in
            let shares := (fun w => share rate_mode (fmul v (fdiv w weight_sum))) <$> ws in
            Ok (fix_float_residue shares rate_mode v)
      | None => Raise (ValueError "mode requires rate_value > 0")
      end
    else if bool_decide (rate_mode = "count_interval") then
      let total :=
        match rate_value with
        | Some v => if Qeq_bool v 0 then 0%Z else round_half_even v
        | None => 0%Z
        end in
      counts ← (largest_remainder total weights : result (list Z));
      Ok (map (fun c => share "count" (rnd (inject_Z c))) counts)
    else Raise (ValueError "unknown rate_mode").
End Defs.

Example largest_remainder_7_3 :
  @largest_remainder binary64 7 [1; 1; 1] = Ok [3; 2; 2]%Z.
Proof. vm_compute. done. Qed.

Example largest_remainder_49 :
  @largest_remainder binary64 49 (replicate 49 1) = Ok (replicate 49 1%Z).
Proof. vm_compute. done. Qed.

(** ** Sums over lists *)

Lemma zsum_app l1 l2 : zsum (l1 ++ l2) = (zsum l1 + zsum l2)%Z.
Proof. induction l1 as [|x l IH]; cbn; lia. Qed.

Lemma zsum_alter l i : (i < length l)%nat -> zsum (alter (Z.add 1) i l) = (zsum l + 1)%Z.
Proof.
  revert i. induction l as [|x l IH]; intros [|i] Hi; cbn in *; [lia..|].
  fold (alter (Z.add 1) i l). rewrite IH by lia. lia.
Qed.

Lemma zsum_bump idx fl :
  Forall (fun i => i < length fl)%nat idx ->
  zsum (bump idx fl) = (zsum fl + Z.of_nat (length idx))%Z.
Proof.
  revert fl. induction idx as [|i idx IH]; intros fl H; [cbn; lia|].
  inversion H as [|?? Hi Hidx]; subst. cbn. fold (bump idx (alter (Z.add 1) i fl)).
  rewrite IH by (by rewrite length_alter). rewrite zsum_alter by done. lia.
Qed.

Lemma lookup_bump idx fl j :
  NoDup idx ->
  bump idx fl !! j = (fun z => if decide (j ∈ idx) then z + 1 else z)%Z <$> fl !! j.
Proof.
  revert fl. induction idx as [|i idx IH]; intros fl Hnd.
  { cbn. destruct (fl !! j); [|done]. cbn. by rewrite decide_False by set_solver. }
  apply NoDup_cons in Hnd as [Hi Hnd]. cbn. fold (bump idx (alter (Z.add 1) i fl)).
  rewrite IH by done. destruct (decide (i = j)) as [->|Hij].
  - rewrite list_lookup_alter_eq. destruct (fl !! j) as [z|]; [|done]. cbn.
    rewrite decide_False by done. rewrite decide_True by set_solver. f_equal. lia.
  - rewrite list_lookup_alter_ne by done. destruct (fl !! j) as [z|]; [|done]. cbn.
    destruct (decide (j ∈ idx)), (decide (j ∈ i :: idx)) as [Hc|Hc]; try done.
    + destruct Hc. by right.
    + by apply elem_of_cons in Hc as [->|?].
Qed.

Lemma length_bump idx fl : length (bump idx fl) = length fl.
Proof.
  revert fl. induction idx as [|i idx IH]; intros fl; [done|].
  cbn. fold (bump idx (alter (Z.add 1) i fl)). by rewrite IH, length_alter.
Qed.

Lemma length_py_prefix {A} (k : Z) (xs : list A) :
  (0 <= k <= Z.of_nat (length xs))%Z -> Z.of_nat (length (py_prefix k xs)) = k.
Proof.
  intros Hk. unfold py_prefix. rewrite (proj2 (Z.leb_le 0 k)) by lia.
  rewrite length_take. lia.
Qed.

Lemma py_prefix_nonneg {A} (k : Z) (xs : list A) :
  (0 <= k)%Z -> py_prefix k xs = take (Z.to_nat k) xs.
Proof. intros. unfold py_prefix. by rewrite (proj2 (Z.leb_le 0 k)). Qed.

Lemma qsum_scale (f : Q -> Q) c l :
  (forall x, f x == c * x) -> qsum (f <$> l) == c * qsum l.
Proof.
  intros Hf. induction l as [|x l IH]; cbn; [ring|].
  rewrite IH, Hf. ring.
Qed.

(** Pointwise bounds lift to the sums. *)
Lemma qsum_bounds (f : Q -> Q) a b l :
  Forall (fun x => a * x <= f x /\ f x <= b * x) l ->
  a * qsum l <= qsum (f <$> l) /\ qsum (f <$> l) <= b * qsum l.
Proof.
  induction 1 as [|x l [Hx1 Hx2] _ [IH1 IH2]]; cbn; [split; lra|].
  split; lra.
Qed.

Lemma qsum_nonneg l : Forall (fun x => 0 <= x) l -> 0 <= qsum l.
Proof. induction 1; cbn in *; lra. Qed.

Lemma qsum_ones n : qsum (replicate n 1) == inject_Z (Z.of_nat n).
Proof.
  induction n as [|n IH]; [reflexivity|]. cbn.
  rewrite IH, <- (inject_Z_plus 1). by rewrite Nat2Z.inj_succ, Z.add_1_l.
Qed.

(** The sum of the floors is within [n] of the sum of the quotas. *)
Lemma zsum_floors l :
  inject_Z (zsum (Qfloor <$> l)) <= qsum l
  /\ qsum l <= inject_Z (zsum (Qfloor <$> l)) + inject_Z (Z.of_nat (length l)).
Proof.
  induction l as [|x l [IH1 IH2]]; [by split; vm_compute|]. cbn.
  pose proof (Qfloor_spec x) as [H1 H2].
  change (Z.pos (Pos.of_succ_nat (length l))) with (Z.of_nat (S (length l))).
  rewrite Nat2Z.inj_succ, <- Z.add_1_l, !inject_Z_plus. change (inject_Z 1) with 1.
  split; lra.
Qed.

(** ** Error of the float quotas *)

Section Error.
Context {R : Rounding}.

Fixpoint qpow (x : Q) (n : nat) : Q := match n with O => 1 | S n => x * qpow x n end.

Lemma fold_fadd_bounds l a :
  0 <= a -> Forall (fun x => 0 <= x) l ->
  (a + qsum l) * qpow (1 - eps) (length l) <= fold_left fadd l a
  /\ fold_left fadd l a <= (a + qsum l) * qpow (1 + eps) (length l).
Proof.
  revert a. induction l as [|x l IH]; intros a Ha Hl; cbn; [split; lra|].
  inversion Hl as [|?? Hx Hl']; subst.
  destruct (rnd_bounds (a + x) ltac:(lra)) as [Hr1 Hr2].
  assert (0 <= fadd a x) as Hn by (apply rnd_nonneg; lra).
  destruct (IH (fadd a x) Hn Hl') as [IH1 IH2].
  pose proof (qsum_nonneg l Hl') as Hs.
  assert (forall y n, 0 < y -> 0 < qpow y n) as Hp.
  { intros y n Hy. induction n; cbn; [lra|]. by apply Qmult_lt_0_compat. }
  pose proof (Hp (1 - eps) (length l) ltac:(reflexivity)) as Hp1.
  pose proof (Hp (1 + eps) (length l) ltac:(reflexivity)) as Hp2.
  set (p1 := qpow (1 - eps) (length l)) in *. set (p2 := qpow (1 + eps) (length l)) in *.
  unfold fadd in *. set (r := rnd (a + x)) in *. unfold eps in *. split.
  - eapply Qle_trans; [|exact IH1]. nra.
  - eapply Qle_trans; [exact IH2|]. nra.
Qed.

Definition Qn (n : nat) : Q := inject_Z (Z.of_nat n).

Lemma Qn_S n : Qn (S n) == 1 + Qn n.
Proof. unfold Qn. by rewrite Nat2Z.inj_succ, <- Z.add_1_l, inject_Z_plus. Qed.

Lemma Qn_nonneg n : 0 <= Qn n.
Proof. apply (inject_Z_le 0). lia. Qed.

Lemma qpow_lower n : 1 - Qn n * eps <= qpow (1 - eps) n.
Proof.
  induction n as [|n IH]; [by vm_compute|].
  cbn. rewrite Qn_S. pose proof (Qn_nonneg n). unfold eps in *.
  set (p := qpow _ n) in *. set (q := Qn n) in *. lra || nra.
Qed.

Lemma qpow_upper n : 2 * Qn n * eps <= 1 -> qpow (1 + eps) n <= 1 + 2 * Qn n * eps.
Proof.
  induction n as [|n IH]; intros H; [by vm_compute|].
  cbn. rewrite Qn_S in *. pose proof (Qn_nonneg n). unfold eps in *.
  specialize (IH ltac:(lra)).
  set (p := qpow _ n) in *. set (q := Qn n) in *. lra || nra.
Qed.

Lemma ratio_bounds S ws u g x :
  0 < S -> 0 <= u -> u * ws == g * S ->
  S * (1 - x) <= ws -> ws <= S * (1 + 2 * x) ->
  u * (1 - x) <= g /\ g <= u * (1 + 2 * x).
Proof.
  intros HS Hu E H1 H2. split; apply (Qmult_le_r _ _ S HS).
  - rewrite <- E. setoid_replace (u * (1 - x) * S) with (S * (1 - x) * u)
      using relation Qeq by ring.
    rewrite (Qmult_comm u). by apply Qmult_le_compat_r.
  - rewrite <- E. setoid_replace (u * (1 + 2 * x) * S) with (S * (1 + 2 * x) * u)
      using relation Qeq by ring.
    rewrite (Qmult_comm u). by apply Qmult_le_compat_r.
Qed.

(** Composing the three rounding errors of a quota. *)
Lemma compose_errors T u g f r e x :
  0 <= T -> 0 <= u -> 0 < e -> e <= 1 # 1000 -> 0 <= x -> x <= 1 # 4 ->
  u * (1 - x) <= g -> g <= u * (1 + 2 * x) ->
  u * (1 - e) <= f -> f <= u * (1 + e) ->
  T * f * (1 - e) <= r -> r <= T * f * (1 + e) ->
  T * (g * (1 - (2 * x + 4 * e))) <= r /\ r <= T * (g * (1 + (2 * x + 4 * e))).
Proof.
  intros HT Hu He He' Hx Hx' G1 G2 F1 F2 R1 R2. split.
  - eapply Qle_trans; [|exact R1]. rewrite <- Qmult_assoc, !(Qmult_comm T).
    apply Qmult_le_compat_r; [|done].
    apply Qle_trans with (u * (1 - e) * (1 - e)).
    + apply Qle_trans with (u * (1 + 2 * x) * (1 - (2 * x + 4 * e))).
      * apply Qmult_le_compat_r; [done|lra].
      * rewrite <- !Qmult_assoc, !(Qmult_comm u). apply Qmult_le_compat_r; [nra|done].
    + apply Qmult_le_compat_r; [done|lra].
  - eapply Qle_trans; [exact R2|]. rewrite <- Qmult_assoc, !(Qmult_comm T).
    apply Qmult_le_compat_r; [|done].
    apply Qle_trans with (u * (1 + e) * (1 + e)).
    + apply Qmult_le_compat_r; [done|lra].
    + apply Qle_trans with (u * (1 - x) * (1 + (2 * x + 4 * e))).
      * rewrite <- !Qmult_assoc, !(Qmult_comm u). apply Qmult_le_compat_r; [nra|done].
      * apply Qmult_le_compat_r; [done|lra].
Qed.

(** One quota: [w / weight_sum * total] up to a relative [(2n + 4) eps], when
    [weight_sum] is the float sum of [n] weights whose exact sum is [S]. *)
Lemma quota_bounds (T : Z) (S ws w : Q) (n : nat) :
  (0 <= T)%Z -> ((T + 1) * (4 * Z.of_nat n + 8) <= 2 ^ 53)%Z ->
  0 < S -> 0 <= w ->
  S * (1 - Qn n * eps) <= ws -> ws <= S * (1 + 2 * Qn n * eps) ->
  let d := (2 * Qn n + 4) * eps in
  let q := fmul (rnd (inject_Z T)) (fdiv w ws) in
  inject_Z T / S * (1 - d) * w <= q /\ q <= inject_Z T / S * (1 + d) * w.
Proof.
  intros HT Hb HS Hw Hws1 Hws2 d q.
  pose proof (Qn_nonneg n) as Hn.
  assert (Qn n * eps <= 1 # 4) as Hne.
  { assert (4 * Z.of_nat n <= 2 ^ 53)%Z as Hz by nia.
    apply inject_Z_le in Hz. rewrite inject_Z_mult in Hz. fold (Qn n) in Hz.
    change (inject_Z 4) with 4 in Hz. change (inject_Z (2 ^ 53)) with 9007199254740992 in Hz.
    unfold eps. lra. }
  assert (0 <= Qn n * eps) as Hx0 by (by apply Qmult_le_0_compat).
  assert (d == 2 * (Qn n * eps) + 4 * eps) as Ed by (unfold d; ring).
  assert (1 + 2 * Qn n * eps == 1 + 2 * (Qn n * eps)) as E2 by ring.
  rewrite E2 in Hws2. clear E2.
  set (x := Qn n * eps) in *. clearbody x.
  assert (0 < eps) as He by reflexivity. assert (eps <= 1 # 1000) as He' by done.
  set (e := eps) in *. clearbody d.
  assert (0 < ws) as Hws by nra.
  assert (0 <= inject_Z T) as HT' by (by apply (inject_Z_le 0)).
  assert (0 <= w / ws) as Hq0 by (apply Qle_shift_div_l; lra).
  destruct (rnd_bounds _ Hq0) as [A1 A2]. fold (fdiv w ws) in A1, A2. fold e in A1, A2.
  assert (0 <= fdiv w ws) as Hq1 by (by apply rnd_nonneg).
  assert (0 <= inject_Z T * fdiv w ws) as Hq2 by (by apply Qmult_le_0_compat).
  destruct (rnd_bounds _ Hq2) as [B1 B2]. fold e in B1, B2.
  assert (q == rnd (inject_Z T * fdiv w ws)) as Eq.
  { subst q. unfold fmul. rewrite rnd_int by nia. reflexivity. }
  rewrite Eq. clear Eq q.
  assert (0 <= w / S) as Hg by (apply Qle_shift_div_l; lra).
  assert (w / ws * ws == w / S * S) as Ew by (field; lra).
  assert (inject_Z T / S * (1 - d) * w == inject_Z T * (w / S * (1 - d))) as -> by (field; lra).
  assert (inject_Z T / S * (1 + d) * w == inject_Z T * (w / S * (1 + d))) as -> by (field; lra).
  destruct (ratio_bounds S ws _ _ x HS Hq0 Ew) as [G1 G2]; [done..|].
  rewrite Ed. by apply (compose_errors _ (w / ws) _ (fdiv w ws)).
Qed.

(** The weights in use are nonnegative, with a positive sum that the float
    sum approximates. *)
Lemma usable_weights_spec weights ws wsum :
  weights <> [] -> Forall (fun x => 0 <= x) weights ->
  (4 * Z.of_nat (length weights) + 8 <= 2 ^ 53)%Z ->
  usable_weights weights = (ws, wsum) ->
  let n := length weights in
  length ws = n /\ Forall (fun x => 0 <= x) ws /\ 0 < qsum ws
  /\ qsum ws * (1 - Qn n * eps) <= wsum /\ wsum <= qsum ws * (1 + 2 * Qn n * eps).
Proof.
  intros Hne Hw Hb E n. unfold usable_weights in E.
  assert (0 < Z.of_nat n)%Z as Hn by (destruct weights; cbn in *; [done|lia]).
  apply (inject_Z_lt 0) in Hn. change (0 < Qn n) in Hn.
  assert (0 <= Qn n * eps) as He by (apply Qmult_le_0_compat; [lra|done]).
  destruct (Qle_bool (fsum weights) 0) eqn:Hle; injection E as <- <-.
  - rewrite length_replicate. repeat split; [|rewrite qsum_ones; exact Hn| |].
    { apply Forall_replicate. lra. }
    all: rewrite qsum_ones, rnd_int by (fold n; lia); fold n; fold (Qn n);
      pose proof (Qmult_le_0_compat (Qn n) (Qn n * eps) ltac:(lra) He); lra.
  - assert (0 < fsum weights) as Hpos.
    { apply Qnot_le_lt. intros H. apply Qle_bool_iff in H. congruence. }
    destruct (fold_fadd_bounds weights 0 ltac:(lra) Hw) as [B1 B2].
    fold (fsum weights) in B1, B2. fold n in B1, B2. rewrite Qplus_0_l in B1, B2.
    pose proof (qsum_nonneg _ Hw) as Hs.
    assert (2 * Qn n * eps <= 1) as Hsmall.
    { assert (2 * Z.of_nat n <= 2 ^ 53)%Z as Hz by lia.
      apply inject_Z_le in Hz. rewrite inject_Z_mult in Hz. fold (Qn n) in Hz.
      change (inject_Z 2) with 2 in Hz. change (inject_Z (2 ^ 53)) with 9007199254740992 in Hz.
      unfold eps. lra. }
    pose proof (qpow_lower n) as L. pose proof (qpow_upper n Hsmall) as U.
    repeat split; [done| | |].
    + destruct (Qlt_le_dec 0 (qsum weights)) as [|Hz]; [done|].
      assert (qsum weights == 0) as Ez by lra. rewrite Ez in B2. lra.
    + eapply Qle_trans; [|exact B1]. rewrite !(Qmult_comm (qsum weights)).
      by apply Qmult_le_compat_r.
    + eapply Qle_trans; [exact B2|]. rewrite !(Qmult_comm (qsum weights)).
      by apply Qmult_le_compat_r.
Qed.

Lemma quotas_sum T weights :
  weights <> [] -> Forall (fun x => 0 <= x) weights -> (0 <= T)%Z ->
  ((T + 1) * (4 * Z.of_nat (length weights) + 8) <= 2 ^ 53)%Z ->
  inject_Z T - 1 < qsum (quotas T weights) /\ qsum (quotas T weights) < inject_Z T + 1.
Proof.
  intros Hne Hw HT Hb. unfold quotas.
  destruct (usable_weights weights) as [ws wsum] eqn:E.
  destruct (usable_weights_spec _ _ _ Hne Hw ltac:(nia) E) as (Hlen & Hnn & HS & L & U).
  set (n := length weights) in *. set (S := qsum ws) in *.
  set (d := (2 * Qn n + 4) * eps).
  assert (0 <= inject_Z T) as HT' by (by apply (inject_Z_le 0)).
  assert (inject_Z T * d <= 1 # 2) as Hd.
  { assert (T * (4 * Z.of_nat n + 8) <= 2 ^ 53)%Z as Hz by lia.
    apply inject_Z_le in Hz. rewrite inject_Z_mult, inject_Z_plus, inject_Z_mult in Hz.
    fold (Qn n) in Hz. change (inject_Z 4) with 4 in Hz. change (inject_Z 8) with 8 in Hz.
    change (inject_Z (2 ^ 53)) with 9007199254740992 in Hz. unfold d, eps. lra. }
  set (f := fun w => fmul (rnd (inject_Z T)) (fdiv w wsum)).
  destruct (qsum_bounds f (inject_Z T / S * (1 - d)) (inject_Z T / S * (1 + d)) ws) as [B1 B2].
  { eapply Forall_impl; [exact Hnn|]. intros w Hw0. by apply quota_bounds. }
  fold S in B1, B2.
  assert (inject_Z T / S * (1 - d) * S == inject_Z T - inject_Z T * d) as E1 by (field; lra).
  assert (inject_Z T / S * (1 + d) * S == inject_Z T + inject_Z T * d) as E2 by (field; lra).
  rewrite E1 in B1. rewrite E2 in B2. split; lra.
Qed.

Lemma length_quotas T weights : length (quotas T weights) = length weights.
Proof.
  unfold quotas, usable_weights. destruct (Qle_bool _ _); cbn;
    by rewrite length_fmap, ?length_replicate.
Qed.

(** The shortfall never leaves [0 .. n], so the prefix of the sorted
    remainders has exactly that many positions. *)
Lemma shortfall_range T weights (floors := Qfloor <$> quotas T weights) :
  inject_Z T - 1 < qsum (quotas T weights) -> qsum (quotas T weights) < inject_Z T + 1 ->
  (0 <= T - zsum floors <= Z.of_nat (length weights))%Z.
Proof.
  intros H1 H2. destruct (zsum_floors (quotas T weights)) as [F1 F2].
  fold floors in F1, F2. rewrite length_quotas in F2. split.
  - assert (inject_Z (zsum floors) < inject_Z T + 1) as H by lra.
    apply inject_Z_lt_succ in H. lia.
  - assert (inject_Z T < inject_Z (zsum floors + Z.of_nat (length weights)) + 1) as H.
    { rewrite inject_Z_plus. lra. }
    apply inject_Z_lt_succ in H. lia.
Qed.
End Error.

(** ** Correctness of [largest_remainder] *)

Section Correct.
Context {R : Rounding}.

Lemma remainders_perm exact floors n :
  merge_sort (key_le exact floors) (seq 0 n) ≡ₚ seq 0 n.
Proof. apply merge_sort_Permutation. Qed.

Global Instance key_le_total exact floors : Total (key_le exact floors).
Proof.
  intros i j. unfold key_le.
  destruct (Q_dec (remainder exact floors i) (remainder exact floors j)) as [[?|?]|E];
    [right; by left|left; by left|].
  destruct (decide (i <= j)%nat); [left|right]; right; split; try done; [lia].
Qed.

Global Instance key_le_trans exact floors : Transitive (key_le exact floors).
Proof.
  intros i j k. unfold key_le. intros [H|[H1 H2]] [G|[G1 G2]].
  - left. lra.
  - left. lra.
  - left. lra.
  - right. split; [lra|lia].
Qed.

(** Earlier positions of the sorted remainders come before later ones. *)
Lemma remainders_ordered exact floors n k i j :
  let rem := merge_sort (key_le exact floors) (seq 0 n) in
  i ∈ take k rem -> j ∈ drop k rem -> key_le exact floors i j.
Proof.
  intros rem Hi Hj.
  assert (StronglySorted (key_le exact floors) rem) as HS
    by (apply StronglySorted_merge_sort; apply _).
  rewrite <- (take_drop k rem) in HS.
  by eapply StronglySorted_app_1_elem_of.
Qed.

Lemma largest_remainder_unfold total weights :
  (0 <= total)%Z -> weights <> [] ->
  let exact := quotas total weights in
  let floors := Qfloor <$> exact in
  largest_remainder total weights =
    Ok (bump (py_prefix (total - zsum floors)
           (merge_sort (key_le exact floors) (seq 0 (length weights)))) floors).
Proof.
  intros H1 H2. unfold largest_remainder.
  rewrite (proj2 (Z.ltb_ge total 0)) by done. by destruct weights.
Qed.

Lemma largest_remainder_sum_gen total weights :
  (0 <= total)%Z -> weights <> [] ->
  inject_Z total - 1 < qsum (quotas total weights) ->
  qsum (quotas total weights) < inject_Z total + 1 ->
  exists parts, largest_remainder total weights = Ok parts
    /\ length parts = length weights /\ zsum parts = total.
Proof.
  intros HT Hne H1 H2. eexists.
  rewrite largest_remainder_unfold by done. split; [done|].
  rewrite length_bump, length_fmap, length_quotas. split; [done|].
  pose proof (shortfall_range total weights H1 H2) as Hs.
  set (floors := Qfloor <$> quotas total weights) in *.
  rewrite zsum_bump.
  - rewrite length_py_prefix; [lia|].
    by rewrite (Permutation_length (remainders_perm _ _ _)), length_seq.
  - rewrite py_prefix_nonneg by lia. apply Forall_take, Forall_forall. intros i Hi.
    rewrite remainders_perm, elem_of_seq in Hi.
    unfold floors. rewrite length_fmap, length_quotas. lia.
Qed.

Lemma largest_remainder_shape total weights parts :
  (0 <= total)%Z -> weights <> [] ->
  inject_Z total - 1 < qsum (quotas total weights) ->
  qsum (quotas total weights) < inject_Z total + 1 ->
  largest_remainder total weights = Ok parts ->
  let exact := quotas total weights in
  let floors := Qfloor <$> exact in
  exists extra : list nat,
    (forall i q, exact !! i = Some q ->
      parts !! i = Some (if decide (i ∈ extra) then Qfloor q + 1 else Qfloor q)%Z)
    /\ (forall i j, i ∈ extra -> (j < length weights)%nat -> j ∉ extra ->
         key_le exact floors i j).
Proof.
  intros HT Hne H1 H2 E exact floors.
  rewrite largest_remainder_unfold in E by done. injection E as <-.
  fold exact floors.
  pose proof (shortfall_range total weights H1 H2) as Hs. fold exact floors in Hs.
  rewrite py_prefix_nonneg by lia. set (k := Z.to_nat _).
  set (rem := merge_sort _ _). exists (take k rem).
  pose proof (remainders_perm exact floors (length weights)) as HP. fold rem in HP.
  assert (NoDup (take k rem)) as Hnd.
  { eapply sublist_NoDup; [|apply sublist_take]. rewrite HP. apply NoDup_seq. }
  split.
  - intros i q Hi. rewrite lookup_bump by done.
    unfold floors. rewrite list_lookup_fmap, Hi. done.
  - intros i j Hi Hj Hnj.
    eapply remainders_ordered; [exact Hi|].
    assert (j ∈ rem) as Hj' by (rewrite HP, elem_of_seq; lia).
    rewrite <- (take_drop k rem), elem_of_app in Hj'. by destruct Hj'.
Qed.
Lemma quotas_nonneg total weights :
  (0 <= total)%Z -> weights <> [] -> Forall (fun x => 0 <= x) weights ->
  Forall (fun q => 0 <= q) (quotas total weights).
Proof.
  intros HT Hne Hw. unfold quotas, usable_weights.
  assert (forall ws wsum, Forall (fun x => 0 <= x) ws -> 0 < wsum ->
    Forall (fun q => 0 <= q) ((fun w => fmul (rnd (inject_Z total)) (fdiv w wsum)) <$> ws)) as H.
  { intros ws wsum Hws Hs. apply Forall_fmap, (Forall_impl _ _ _ Hws). intros w Hw0.
    apply rnd_nonneg, Qmult_le_0_compat; apply rnd_nonneg; [by apply (inject_Z_le 0)|].
    apply Qle_shift_div_l; lra. }
  destruct (Qle_bool (fsum weights) 0) eqn:E; apply H; [apply Forall_replicate; lra| |done|].
  - apply rnd_pos, (inject_Z_lt 0). destruct weights; [done|cbn; lia].
  - apply Qnot_le_lt. intros Hle%Qle_bool_iff. congruence.
Qed.

Lemma bump_nonneg idx : forall fl, Forall (fun z => 0 <= z)%Z fl -> Forall (fun z => 0 <= z)%Z (bump idx fl).
Proof.
  unfold bump. induction idx as [|i idx IH]; intros fl H; cbn; [done|].
  apply IH, Forall_alter; [done|]. intros z _ Hz. lia.
Qed.

Lemma largest_remainder_parts total weights :
  weights <> [] -> Forall (fun w => 0 <= w) weights -> (0 <= total)%Z ->
  ((total + 1) * (4 * Z.of_nat (length weights) + 8) <= 2 ^ 53)%Z ->
  exists parts, largest_remainder total weights = Ok parts
    /\ length parts = length weights /\ zsum parts = total /\ Forall (fun z => 0 <= z)%Z parts.
Proof.
  intros Hne Hw HT Hb. destruct (quotas_sum total weights Hne Hw HT Hb) as [H1 H2].
  destruct (largest_remainder_sum_gen total weights HT Hne H1 H2) as (parts & E & El & Es).
  exists parts. split_and!; [done..|].
  rewrite largest_remainder_unfold in E by done. injection E as <-.
  apply bump_nonneg, Forall_fmap, (Forall_impl _ _ _ (quotas_nonneg total weights HT Hne Hw)).
  intros q Hq. cbn. change 0%Z with (Qfloor 0). by apply Qfloor_resp_le.
Qed.
Global Instance key_le_antisymm exact floors : AntiSymm (=) (key_le exact floors).
Proof. intros i j [?|[? ?]] [?|[? ?]]; lra || lia. Qed.

Lemma quotas_equal total n : exists q, quotas total (replicate n 1) = replicate n q.
Proof.
  unfold quotas, usable_weights. rewrite length_replicate.
  destruct (Qle_bool _ _); rewrite fmap_replicate; eauto.
Qed.

(** An equal split gives every slot the same floor, and the first slots one more. *)
Lemma largest_remainder_equal total n :
  (0 <= total)%Z -> (1 <= n)%nat -> ((total + 1) * (4 * Z.of_nat n + 8) <= 2 ^ 53)%Z ->
  exists parts (f : Z) (k : nat), largest_remainder total (replicate n 1) = Ok parts /\
    length parts = n /\ (0 <= f)%Z /\ (k <= n)%nat /\ total = (Z.of_nat n * f + Z.of_nat k)%Z /\
    (forall i, (i < n)%nat -> nth i parts 0%Z = (f + if decide (i < k)%nat then 1 else 0)%Z).
Proof.
  intros HT Hn Hb. set (ws := replicate n 1).
  assert (ws <> []) as Hne by (destruct n; [lia|done]).
  assert (Forall (fun w => 0 <= w) ws) as Hw by (by apply Forall_replicate).
  assert (length ws = n) as Hlen by apply length_replicate. rewrite <- Hlen in Hb.
  destruct (quotas_sum total ws Hne Hw HT Hb) as [H1 H2].
  pose proof (quotas_nonneg total ws HT Hne Hw) as Hq0.
  destruct (shortfall_range total ws H1 H2) as [S1 S2].
  destruct (quotas_equal total n) as [q Eq]. fold ws in Eq.
  pose proof (largest_remainder_unfold total ws HT Hne) as E. cbv zeta in E.
  rewrite Eq, fmap_replicate, Hlen in *.
  assert (zsum (replicate n (Qfloor q)) = Z.of_nat n * Qfloor q)%Z as Ez.
  { clear. induction n as [|n IH]; [done|]. cbn [replicate zsum]. rewrite IH. lia. }
  rewrite Ez in *. set (rem := merge_sort _ _) in E.
  assert (rem = seq 0 n) as ->.
  { apply (StronglySorted_unique (key_le (replicate n q) (replicate n (Qfloor q)))).
    - apply StronglySorted_merge_sort; apply _.
    - assert (forall a m, (a + m <= n)%nat ->
        StronglySorted (key_le (replicate n q) (replicate n (Qfloor q))) (seq a m)) as Hs; [|by apply Hs].
      intros a m. revert a. induction m as [|m IH]; intros a Ha; cbn; constructor; [apply IH; lia|].
      apply Forall_forall. intros j Hj%elem_of_seq. right. unfold remainder.
      rewrite !nth_lookup, !lookup_replicate_2 by lia. split; [reflexivity|lia].
    - apply remainders_perm. }
  eexists _, (Qfloor q), (Z.to_nat (total - Z.of_nat n * Qfloor q)). split; [exact E|].
  rewrite length_bump, length_replicate.
  assert (0 <= q) as Hq by (rewrite Forall_forall in Hq0; apply Hq0, elem_of_replicate; split; [done|lia]).
  split_and!; [done| |lia|lia|].
  { change 0%Z with (Qfloor 0). by apply Qfloor_resp_le. }
  intros i Hi. rewrite py_prefix_nonneg by lia. apply nth_lookup_Some.
  rewrite lookup_bump by (eapply sublist_NoDup; [apply NoDup_seq|apply sublist_take]).
  rewrite lookup_replicate_2 by done. cbn. f_equal.
  assert (i ∈ take (Z.to_nat (total - Z.of_nat n * Qfloor q)) (seq 0 n)
    <-> (i < Z.to_nat (total - Z.of_nat n * Qfloor q))%nat) as Hi'.
  { rewrite take_seq, elem_of_seq. lia. }
  destruct (decide (i ∈ _)), (decide (i < _)%nat); try lia; tauto.
Qed.
End Correct.

(** splitting [total] over non-negative weights (up to about
    [2^53 / 4n], rounding of every float operation included) returns one
    integer part per weight, and the parts sum to exactly [total]. *)
Theorem largest_remainder_sum {R : Rounding} (total : Z) (weights : list Q) :
  weights <> [] -> Forall (fun w => 0 <= w) weights -> (0 <= total)%Z ->
  ((total + 1) * (4 * Z.of_nat (length weights) + 8) <= 2 ^ 53)%Z ->
  exists parts, largest_remainder total weights = Ok parts
    /\ length parts = length weights /\ zsum parts = total.
Proof.
  intros Hne Hw HT Hb.
  destruct (largest_remainder_parts total weights Hne Hw HT Hb) as (parts & ? & ? & ? & _). eauto.
Qed.

Lemma largest_remainder_sum_witness :
  exists parts, @largest_remainder binary64 10 [3; 1; 0; 3] = Ok parts
    /\ length parts = 4%nat /\ zsum parts = 10%Z.
Proof.
  apply (@largest_remainder_sum binary64 10 [3; 1; 0; 3]).
  - done.
  - repeat constructor; done.
  - lia.
  - cbn. lia.
Defined.

(** every part is its exact quota rounded down, or that plus one; the slots
    that get the extra unit are those with the largest remainders, ties to the
    lower index. *)
Theorem largest_remainder_fair {R : Rounding} (total : Z) (weights : list Q) (parts : list Z) :
  weights <> [] -> Forall (fun w => 0 <= w) weights -> (0 <= total)%Z ->
  ((total + 1) * (4 * Z.of_nat (length weights) + 8) <= 2 ^ 53)%Z ->
  largest_remainder total weights = Ok parts ->
  let exact := quotas total weights in
  let floors := Qfloor <$> exact in
  exists extra : list nat,
    (forall i q, exact !! i = Some q ->
      parts !! i = Some (if decide (i ∈ extra) then Qfloor q + 1 else Qfloor q)%Z)
    /\ (forall i j, i ∈ extra -> (j < length weights)%nat -> j ∉ extra ->
         remainder exact floors j < remainder exact floors i
         \/ remainder exact floors i == remainder exact floors j /\ (i <= j)%nat).
Proof.
  intros Hne Hw HT Hb E. destruct (quotas_sum total weights Hne Hw HT Hb) as [H1 H2].
  by apply largest_remainder_shape.
Qed.

Lemma largest_remainder_fair_witness :
  let exact := @quotas binary64 7 [1; 1; 1] in
  let floors := Qfloor <$> exact in
  exists extra : list nat,
    (forall i q, exact !! i = Some q ->
      [3; 2; 2]%Z !! i = Some (if decide (i ∈ extra) then Qfloor q + 1 else Qfloor q)%Z)
    /\ (forall i j, i ∈ extra -> (j < 3)%nat -> j ∉ extra ->
         @remainder binary64 exact floors j < @remainder binary64 exact floors i
         \/ @remainder binary64 exact floors i == @remainder binary64 exact floors j
            /\ (i <= j)%nat).
Proof.
  apply (@largest_remainder_fair binary64 7 [1; 1; 1] [3; 2; 2]%Z).
  - done.
  - repeat constructor; done.
  - lia.
  - cbn. lia.
  - vm_compute. done.
Defined.

(** ** Shares of a rate *)

Section Shares.
Context {R : Rounding}.

Lemma fold_fadd_ones n (a : Z) :
  (0 <= a)%Z -> (a + Z.of_nat n <= 2 ^ 53)%Z ->
  fold_left fadd (replicate n 1) (inject_Z a) == inject_Z (a + Z.of_nat n).
Proof.
  assert (forall l x y, x == y -> fold_left fadd l x == fold_left fadd l y) as Hcong.
  { induction l as [|w l IH]; intros x y E; [done|]. cbn. apply IH. unfold fadd. by rewrite E. }
  revert a. induction n as [|n IH]; intros a Ha Hb; cbn [replicate fold_left].
  { by rewrite Z.add_0_r. }
  rewrite (Hcong _ _ (inject_Z (a + 1))).
  - rewrite IH by lia. by replace (a + 1 + Z.of_nat n)%Z with (a + Z.of_nat (S n))%Z by lia.
  - unfold fadd. change 1 with (inject_Z 1). rewrite <- inject_Z_plus. apply rnd_int. lia.
Qed.

Lemma fsum_ones n : (Z.of_nat n <= 2 ^ 53)%Z -> fsum (replicate n 1) == Qn n.
Proof. intros H. unfold fsum. by rewrite (fold_fadd_ones n 0) by lia. Qed.

(** The common share of an equal split, and the last slot's, which absorbs
    the rounding residue. *)
Definition even_share (v : Q) (n : nat) : Q := fmul v (fdiv 1 (fsum (replicate n 1))).
Definition last_share (v : Q) (n : nat) : Q :=
  fadd (even_share v n) (fsub v (rnd (qsum (replicate n (even_share v n))))).

Lemma usable_ones n :
  (1 <= n)%nat -> (Z.of_nat n <= 2 ^ 53)%Z ->
  usable_weights (replicate n 1) = (replicate n 1, fsum (replicate n 1)).
Proof.
  intros H1 H2. unfold usable_weights.
  destruct (Qle_bool _ 0) eqn:E; [|done].
  apply Qle_bool_iff in E. rewrite fsum_ones in E by done.
  assert (0 < Qn n) by (apply (inject_Z_lt 0); lia). lra.
Qed.

Lemma share_value_share key q : share_value key (share key q) = q.
Proof. unfold share_value, share, dget. by rewrite lookup_singleton_eq. Qed.

Lemma fix_float_residue_even key v n s :
  (1 <= n)%nat ->
  fix_float_residue (replicate n (share key s)) key v
  = replicate (n - 1) (share key s)
    ++ [share key (fadd s (fsub v (rnd (qsum (replicate n s)))))].
Proof.
  intros Hn. destruct n as [|n]; [lia|]. replace (S n - 1)%nat with n by lia.
  unfold fix_float_residue. rewrite replicate_S_end, last_snoc.
  rewrite length_app, length_replicate. cbn [length].
  replace (n + 1 - 1)%nat with (length (replicate n (share key s)) + 0)%nat
    by (rewrite length_replicate; lia).
  assert (forall q, <[key := VFloat q]> (share key s) = share key q) as Hins
    by (intros q; apply insert_singleton_eq).
  rewrite insert_app_r. cbn [insert list_insert]. rewrite Hins, share_value_share.
  assert (share_value key <$> (replicate n (share key s) ++ [share key s])
          = replicate (S n) s) as ->; [|done].
  by rewrite <- replicate_S_end, fmap_replicate, share_value_share.
Qed.

(** The equal split of a gated rate, as every caller uses it. *)
Lemma apportion_even mode v n :
  mode = "eps" \/ mode = "per_day_gb" ->
  0 < v -> (1 <= n)%nat -> (Z.of_nat n <= 2 ^ 53)%Z ->
  apportion_shares mode (Some v) (Z.of_nat n) (Some (replicate n 1))
  = Ok (replicate (n - 1) (share mode (even_share v n)) ++ [share mode (last_share v n)]).
Proof.
  intros Hm Hv H1 H2. unfold apportion_shares. cbn [from_option id].
  rewrite (proj2 (Z.ltb_ge _ _)) by lia. rewrite length_replicate, Z.eqb_refl.
  rewrite bool_decide_eq_true_2 by done. cbn [negb].
  destruct (Qle_bool v 0) eqn:E; [apply Qle_bool_iff in E; lra|].
  rewrite usable_ones by done. rewrite fmap_replicate.
  rewrite fix_float_residue_even by done. done.
Qed.

Lemma rnd_within x b : - b <= x -> x <= b -> - (eps * b) <= rnd x - x /\ rnd x - x <= eps * b.
Proof.
  intros H1 H2. pose proof (rnd_err x) as H. apply Qabs_Qle_condition in H as [L U].
  assert (Qabs x <= b) as Hx by (by apply Qabs_Qle_condition).
  assert (eps * Qabs x <= eps * b) by (by apply Qmult_le_l). split; lra.
Qed.

Lemma qsum_replicate n q : qsum (replicate n q) == Qn n * q.
Proof.
  induction n as [|n IH]; [cbn; change (Qn 0) with 0; ring|].
  cbn [replicate qsum]. rewrite IH, Qn_S. ring.
Qed.

(** [n] equal shares overshoot or undershoot the rate by at most [3 eps]. *)
Lemma even_share_bounds v n :
  0 < v -> (1 <= n)%nat -> (Z.of_nat n <= 2 ^ 53)%Z ->
  v * (1 - 2 * eps) <= Qn n * even_share v n /\ Qn n * even_share v n <= v * (1 + 3 * eps).
Proof.
  intros Hv H1 H2. unfold even_share, fmul, fdiv.
  assert (0 < Qn n) as Hn by (apply (inject_Z_lt 0); lia).
  rewrite fsum_ones by done.
  assert (0 <= 1 / Qn n) as Hq by (apply Qle_shift_div_l; lra).
  destruct (rnd_bounds _ Hq) as [A1 A2]. set (u := rnd (1 / Qn n)) in *.
  assert (0 <= u) as Hu by (by apply rnd_nonneg).
  assert (0 <= v * u) as Hvu by (apply Qmult_le_0_compat; lra).
  destruct (rnd_bounds _ Hvu) as [B1 B2]. set (s := rnd (v * u)) in *.
  assert (1 - eps <= Qn n * u /\ Qn n * u <= 1 + eps) as [C1 C2].
  { assert (Qn n * (1 / Qn n) == 1) as E by (field; lra).
    rewrite <- (Qmult_le_l _ _ (Qn n) Hn) in A1.
    rewrite <- (Qmult_le_l _ _ (Qn n) Hn) in A2.
    rewrite Qmult_assoc, E in A1. rewrite Qmult_assoc, E in A2. lra. }
  rewrite <- (Qmult_le_l _ _ (Qn n) Hn) in B1.
  rewrite <- (Qmult_le_l _ _ (Qn n) Hn) in B2.
  assert (Qn n * (v * u * (1 - eps)) == v * (Qn n * u * (1 - eps))) as E1 by ring.
  assert (Qn n * (v * u * (1 + eps)) == v * (Qn n * u * (1 + eps))) as E2 by ring.
  rewrite E1 in B1. rewrite E2 in B2. set (m := Qn n * u) in *. split.
  - eapply Qle_trans; [|exact B1]. apply Qmult_le_l; [done|]. unfold eps in *. lra.
  - eapply Qle_trans; [exact B2|]. apply Qmult_le_l; [done|]. unfold eps in *. lra.
Qed.

(** What the residue adds to the last slot: the sum lands within [4 eps] of
    the rate, and the last share stays positive. *)
Lemma last_share_bounds v n (N := Qn n) (s := even_share v n) :
  0 < v -> (1 <= n)%nat -> (8 * Z.of_nat n <= 2 ^ 53)%Z ->
  - (4 * eps * v) <= N * s + (last_share v n - s) - v
  /\ N * s + (last_share v n - s) - v <= 4 * eps * v
  /\ 0 < s /\ 0 < last_share v n.
Proof.
  intros Hv H1 H2. destruct (even_share_bounds v n Hv H1 ltac:(lia)) as [S1 S2].
  fold N s in S1, S2.
  assert (1 <= N) as HN by (apply (inject_Z_le 1); lia).
  assert (N <= 1125899906842624) as HN'.
  { apply (inject_Z_le _ 1125899906842624). lia. }
  assert (0 < N * s) as Hs0 by (unfold eps in *; lra).
  assert (0 < s) as Hs by (apply (Qmult_lt_l _ _ N); lra).
  assert (s <= N * s) as Hs1 by nra.
  assert (v * (1 - 2 * eps) <= 1125899906842624 * s) as Hs2.
  { eapply Qle_trans; [exact S1|]. by apply Qmult_le_compat_r; [|lra]. }
  unfold last_share, fadd, fsub. fold s.
  assert (rnd (qsum (replicate n s)) == rnd (N * s)) as Ec by (by rewrite qsum_replicate).
  set (c := rnd (qsum (replicate n s))) in *.
  destruct (rnd_within (N * s) (v * (1 + 3 * eps)) ltac:(unfold eps in *; lra) S2) as [C1 C2].
  rewrite <- Ec in C1, C2.
  destruct (rnd_within (v - c) (5 * eps * v) ltac:(unfold eps in *; lra)
              ltac:(unfold eps in *; lra)) as [T1 T2].
  set (t := rnd (v - c)) in *.
  destruct (rnd_within (s + t) (v * (1 + 10 * eps)) ltac:(unfold eps in *; lra)
              ltac:(unfold eps in *; lra)) as [L1 L2].
  assert (0 < s + t) as Hpos by (unfold eps in *; lra).
  pose proof (rnd_pos _ Hpos).
  unfold eps in *. repeat split; lra.
Qed.
End Shares.

(** Equal shares of a gated rate: one positive share per worker, summing to the
    rate within four unit roundoffs. *)
Lemma apportion_shares_equal {R : Rounding} (mode : string) (v : Q) (workers : nat) :
  mode = "eps" \/ mode = "per_day_gb" ->
  0 < v -> (1 <= workers)%nat -> (8 * Z.of_nat workers <= 2 ^ 53)%Z ->
  exists shares,
    apportion_shares mode (Some v) (Z.of_nat workers) (Some (replicate workers 1)) = Ok shares
    /\ length shares = workers
    /\ Forall (fun s => exists q, s = share mode q /\ 0 < q) shares
    /\ Qabs (qsum (share_value mode <$> shares) - v) <= 4 * eps * v.
Proof.
  intros Hm Hv H1 H2. eexists. rewrite apportion_even by (done || lia).
  destruct (last_share_bounds v workers Hv H1 H2) as (B1 & B2 & Hs & Hl).
  split; [done|]. repeat split.
  - rewrite length_app, length_replicate. cbn. lia.
  - apply Forall_app. split; [apply Forall_replicate|apply Forall_singleton]; eauto.
  - rewrite fmap_app, fmap_replicate, share_value_share, list_fmap_singleton, share_value_share.
    apply Qabs_Qle_condition.
    assert (forall l q, qsum (l ++ [q]) == qsum l + q) as Happ.
    { intros l q. induction l as [|x l IH]; cbn; [ring|]. rewrite IH. ring. }
    destruct workers as [|n]; [lia|].
    replace (S n - 1)%nat with n by lia. rewrite Qn_S in B1. rewrite Qn_S in B2.
    pose proof (Happ (replicate n (even_share v (S n))) (last_share v (S n))) as Hq.
    pose proof (qsum_replicate n (even_share v (S n))) as Hr. rewrite Hr in Hq.
    unfold eps in *. split; lra.
Qed.

(** an equal split of an [eps] or [per_day_gb] rate gives one single-key
    positive share per worker, and the shares sum to the rate within four
    unit roundoffs. *)
Theorem apportion_shares_sum {R : Rounding} (mode : string) (v : Q) (workers : nat) :
  mode = "eps" \/ mode = "per_day_gb" ->
  0 < v -> (1 <= workers)%nat -> (8 * Z.of_nat workers <= 2 ^ 53)%Z ->
  exists shares,
    apportion_shares mode (Some v) (Z.of_nat workers) (Some (replicate workers 1)) = Ok shares
    /\ length shares = workers
    /\ Forall (fun s => exists q, s = share mode q /\ 0 < q) shares
    /\ Qabs (qsum (share_value mode <$> shares) - v) <= 4 * eps * v.
Proof. apply apportion_shares_equal. Qed.

Lemma apportion_shares_sum_witness :
  exists shares,
    @apportion_shares binary64 "eps" (Some 100) 3 (Some [1; 1; 1]) = Ok shares
    /\ length shares = 3%nat
    /\ Forall (fun s => exists q, s = share "eps" q /\ 0 < q) shares
    /\ Qabs (qsum (share_value "eps" <$> shares) - 100) <= 4 * eps * 100.
Proof.
  apply (@apportion_shares_sum binary64 "eps" 100 3).
  - by left.
  - done.
  - lia.
  - cbn. lia.
Defined.
