(* ===== verification/PackYaml.v ===== *)
(** * pack.yaml (server/bundles.py, worker/stoker_agent/bundle.py,
    server/packrename.py)

    A pack's metadata is a flat two-level mapping of scalars.  The control plane
    and the worker each have a parser for it, and renaming a pack edits the file
    line by line.  Text is a list of characters.

    The theorems: the two parsers give the same document for every text, and a
    rename is read back as the new name with every other key unchanged. *)

From S2P Require Import Prelude.
From S2P Require Import PyFloat.
From S2P Require Import PyValue.
From Stdlib Require Import QArith Ascii.
Open Scope Z_scope.

Abbreviation text := (list ascii).
Abbreviation chars := String.list_ascii_of_string.
Abbreviation str_of := String.string_of_list_ascii.

(** ** Dicts in the order of their keys *)

Definition aget {A} (k : string) (d : list (string * A)) : option A :=
  snd <$> List.find (fun kv => bool_decide (kv.1 = k)) d.

Fixpoint aset {A} (k : string) (v : A) (d : list (string * A)) : list (string * A) :=
  match d with
  | [] => [(k, v)]
  | (k', v') :: d => if bool_decide (k' = k) then (k, v) :: d else (k', v') :: aset k v d
  end.

Lemma aget_aset {A} k k' (v : A) d :
  aget k (aset k' v d) = if bool_decide (k = k') then Some v else aget k d.
Proof.
  induction d as [|[k1 v1] d IH]; unfold aget in *; cbn [aset List.find].
  - cbn. repeat case_bool_decide; naive_solver.
  - destruct (bool_decide_reflect (k1 = k')) as [->|]; cbn [List.find fst snd].
    + destruct (bool_decide_reflect (k' = k)), (bool_decide_reflect (k = k')); naive_solver.
    + destruct (bool_decide_reflect (k1 = k)) as [->|]; [|done].
      by rewrite (bool_decide_false (k = k')).
Qed.

(** ** Lines *)

(** [str.splitlines]: the ASCII line boundaries. *)
Definition is_break (c : ascii) : bool :=
  let n := N_of_ascii c in ((10 <=? n) && (n <=? 13) || (28 <=? n) && (n <=? 30))%N.

Abbreviation LF := (ascii_of_N 10).
Abbreviation CR := (ascii_of_N 13).

Fixpoint splitlines (s : text) : list text :=
  match s with
  | [] => []
  | c :: s' =>
      if is_break c then
        [] :: match s' with
              | c' :: s'' => if Ascii.eqb c CR && Ascii.eqb c' LF then splitlines s'' else splitlines s'
              | [] => []
              end
      else match splitlines s' with [] => [[c]] | l :: ls => (c :: l) :: ls end
  end.

(** ["\n".join(lines) + "\n"] for at least one line. *)
Definition join_lines (lines : list text) : text := concat ((fun l => l ++ [LF]) <$> lines).

(** ** One line *)

Definition is_quote (c : ascii) : bool := Ascii.eqb c "'"%char || Ascii.eqb c (ascii_of_N 34).

Definition rstrip (s : text) : text := reverse (lstrip (reverse s)).

Fixpoint cut_comment (quote : option ascii) (l : text) : text :=
  match l with
  | [] => []
  | c :: l =>
      match quote with
      | Some q => c :: cut_comment (if Ascii.eqb c q then None else quote) l
      | None =>
          if is_quote c then c :: cut_comment (Some c) l
          else if Ascii.eqb c "#"%char then [] else c :: cut_comment None l
      end
  end.

Definition strip_comment (line : text) : text := rstrip (cut_comment None line).

(** [text[1:-1]] of a text between a pair of quotes. *)
Definition unquote (t : text) : option text :=
  match t with
  | c :: rest =>
      match last rest with
      | Some d => if Ascii.eqb c d && is_quote c then Some (removelast rest) else None
      | None => None
      end
  | [] => None
  end.

Fixpoint strip_prefix (p l : text) : option text :=
  match p, l with
  | [], _ => Some l
  | c :: p, d :: l => if Ascii.eqb c d then strip_prefix p l else None
  | _, [] => None
  end.

(** [s.partition(":")] when the separator occurs. *)
Fixpoint partition_colon (s : text) : option (text * text) :=
  match s with
  | [] => None
  | c :: s =>
      if Ascii.eqb c ":"%char then Some ([], s)
      else (fun '(k, v) => (c :: k, v)) <$> partition_colon s
  end.

(** What a line says: whether it is unindented, its key and its value; [None]
    for the lines both parsers skip. *)
Definition entry_of (raw : text) : option (bool * string * text) :=
  let line := strip_comment raw in
  match strip_chars line with
  | [] => None
  | stripped =>
      let top := match line with c :: _ => negb (Ascii.eqb c " "%char) | [] => true end in
      match strip_prefix (chars "- ") stripped with
      | Some _ => None
      | None =>
          (fun '(key, value) => (top, str_of (strip_chars key), strip_chars value))
            <$> partition_colon stripped
      end
  end.

(** ** The two parsers *)

Inductive yaml : Type := Scalar (v : pyval) | Block (d : list (string * pyval)).
Abbreviation pack_doc := (list (string * yaml)).

Section Parse.
Context {R : Rounding}.

(** The scalar of both parsers: a quoted text, a keyword, an int, a float or
    the text itself. *)
Definition coerce_scalar (t : text) : pyval :=
  match unquote t with
  | Some inner => VStr (str_of inner)
  | None =>
      let low := py_lower (str_of t) in
      if bool_decide (low ∈ ["true"; "yes"; "on"]) then VBool true
      else if bool_decide (low ∈ ["false"; "no"; "off"]) then VBool false
      else if bool_decide (low ∈ ["null"; "~"; ""]) then VNone
      else match int_of_string (str_of t) with
           | Some z => VInt z
           | None => match float_of_string (str_of t) with
                     | Some q => VFloat q
                     | None => VStr (str_of t)
                     end
           end
  end.

(** The control plane's: an indented entry needs a dict in the open section. *)
Definition pack_yaml_step (st : pack_doc * option string) (raw : text) : pack_doc * option string :=
  let '(result, section) := st in
  match entry_of raw with
  | None => st
  | Some (top, key, value) =>
      if top then
        match value with
        | [] => (aset key (Block []) result, Some key)
        | _ => (aset key (Scalar (coerce_scalar value)) result, None)
        end
      else
        match section, value with
        | Some s, _ :: _ =>
            match aget s result with
            | Some (Block d) => (aset s (Block (aset key (coerce_scalar value) d)) result, section)
            | _ => st
            end
        | _, _ => st
        end
  end.

Definition parse_pack_yaml_server (t : text) : pack_doc :=
  (foldl pack_yaml_step ([], None) (splitlines t)).1.

(** The worker's: [result[section][key] = value], which fails without the dict. *)
Definition parse_step (raw : text) (st : pack_doc * option string) : result (pack_doc * option string) :=
  let '(result, section) := st in
  match entry_of raw with
  | None => Ok st
  | Some (top, key, value) =>
      if top then
        match value with
        | [] => Ok (aset key (Block []) result, Some key)
        | _ => Ok (aset key (Scalar (coerce_scalar value)) result, None)
        end
      else
        match section with
        | Some s =>
            match value with
            | [] => Ok st
            | _ =>
                match aget s result with
                | Some (Block d) => Ok (aset s (Block (aset key (coerce_scalar value) d)) result, section)
                | _ => Raise TypeError
                end
            end
        | None => Ok st
        end
  end.

Definition parse_pack_yaml (t : text) : result pack_doc :=
  st ← fold_result parse_step (splitlines t) ([], None);
  Ok (fst (st : pack_doc * option string)).
End Parse.

(** ** Renaming *)

Definition MAX_NAME_LEN : nat := 255.

Definition is_control (c : ascii) : bool := let n := N_of_ascii c in ((n <=? 31) || (n =? 127))%N.

Definition has_char (c : ascii) (t : text) : bool := existsb (Ascii.eqb c) t.

Definition clean_name (name : text) : result text :=
  let t := strip_chars name in
  match t with
  | [] => Raise (ValueError "a pack name cannot be empty")
  | _ =>
      if (MAX_NAME_LEN <? length t)%nat then Raise (ValueError "a pack name is at most 255 characters")
      else if existsb is_control t
      then Raise (ValueError "a pack name cannot contain control characters")
      else if has_char (ascii_of_N 34) t && has_char "'"%char t
      then Raise (ValueError "a pack name cannot contain both quotes")
      else Ok t
  end.

Definition yaml_value (name : text) : text :=
  let quote := if has_char (ascii_of_N 34) name then "'"%char else ascii_of_N 34 in
  quote :: name ++ [quote].

Definition name_line (name : text) : text := chars "name: " ++ yaml_value name.

(** [_NAME_LINE_RE.match(line)] *)
Definition is_name_line (l : text) : bool :=
  match strip_prefix (chars "name") l with
  | Some rest => match lstrip rest with c :: _ => Ascii.eqb c ":"%char | [] => false end
  | None => false
  end.

Fixpoint replace_name (line : text) (lines : list text) : option (list text) :=
  match lines with
  | [] => None
  | l :: lines =>
      if is_name_line l then Some (line :: lines) else cons l <$> replace_name line lines
  end.

Definition is_comment (l : text) : bool :=
  match lstrip l with c :: _ => Ascii.eqb c "#"%char | [] => false end.

Fixpoint insert_name (line : text) (lines : list text) : list text :=
  match lines with
  | l :: rest => if is_comment l then l :: insert_name line rest else line :: lines
  | [] => [line]
  end.

Definition rename_lines (name : text) (lines : list text) : list text :=
  let line := name_line name in
  match replace_name line lines with Some lines' => lines' | None => insert_name line lines end.

(** The new content of pack.yaml; [None] when there is no such file. *)
Definition rewrite_pack_yaml (file : option text) (name : text) : option text :=
  (fun t => join_lines (rename_lines name (splitlines t))) <$> file.

(** ** Equivalence of the parsers *)

Section Same.
Context {R : Rounding}.

(** The open section is a dict of the result. *)
Definition open_ok (st : pack_doc * option string) : Prop :=
  forall s, st.2 = Some s -> exists d, aget s st.1 = Some (Block d).

Lemma step_agrees raw st : open_ok st ->
  parse_step raw st = Ok (pack_yaml_step st raw) /\ open_ok (pack_yaml_step st raw).
Proof.
  destruct st as [result section]. intros Ho. unfold parse_step, pack_yaml_step.
  destruct (entry_of raw) as [[[[] key] value]|]; [| |done].
  - destruct value; (split; [done|]); intros s [= <-]. exists []. cbn [fst].
    by rewrite aget_aset, bool_decide_true.
  - destruct section as [s|]; [|by destruct value].
    destruct value as [|c value]; [done|].
    destruct (Ho s eq_refl) as [d Hd]. cbn [fst] in Hd. rewrite Hd. split; [done|].
    intros s' [= <-]. cbn [fst]. rewrite aget_aset, bool_decide_true by done. eauto.
Qed.

Lemma fold_agrees lines st : open_ok st ->
  fold_result parse_step lines st = Ok (foldl pack_yaml_step st lines).
Proof.
  revert st. induction lines as [|l lines IH]; intros st Ho; [done|]. cbn [fold_result foldl].
  destruct (step_agrees l st Ho) as [-> Ho']. cbn [mbind result_bind]. by apply IH.
Qed.
End Same.

(** The control plane and the worker read the same metadata: for every text
    the worker's parser returns, and its document is the control plane's. *)
Theorem pack_yaml_parsers_agree {R : Rounding} t : parse_pack_yaml t = Ok (parse_pack_yaml_server t).
Proof.
  unfold parse_pack_yaml, parse_pack_yaml_server. by rewrite fold_agrees by (intros ? [=]).
Qed.

(** ** Renaming, read back *)

Section Lines.

Definition unbroken (l : text) : Prop := forallb (negb ∘ is_break) l = true.

Lemma splitlines_unbroken s : Forall unbroken (splitlines s).
Proof.
  assert (forall n s, (length s <= n)%nat -> Forall unbroken (splitlines s)) as H; [|by eapply H].
  clear s. induction n as [|n IH]; intros [|c s] Hn; cbn [splitlines]; try constructor; cbn in Hn; [lia|].
  destruct (is_break c) eqn:Ec.
  - constructor; [done|]. destruct s as [|c' s]; [constructor|]. cbn in Hn.
    destruct (_ && _); apply IH; cbn; lia.
  - specialize (IH s ltac:(lia)). destruct (splitlines s) as [|l ls].
    + constructor; [|done]. unfold unbroken. cbn. by rewrite Ec.
    + apply Forall_cons in IH as [H1 H2]. constructor; [|done]. unfold unbroken in *. cbn in *.
      by rewrite Ec, H1.
Qed.

Lemma splitlines_line l rest : unbroken l -> splitlines (l ++ LF :: rest) = l :: splitlines rest.
Proof.
  induction l as [|c l IH]; intros Hl; cbn [app splitlines].
  - change (is_break LF) with true. cbn [andb]. destruct rest as [|c' rest]; [done|].
    by change (Ascii.eqb LF CR) with false.
  - unfold unbroken in Hl. cbn in Hl. apply andb_true_iff in Hl as [Hc Hl].
    apply negb_true_iff in Hc. rewrite Hc, IH by done. done.
Qed.

Lemma splitlines_join lines : Forall unbroken lines -> splitlines (join_lines lines) = lines.
Proof.
  induction 1 as [|l lines Hl _ IH]; [done|]. unfold join_lines in *. cbn [fmap list_fmap concat].
  rewrite <- app_assoc. cbn [app]. by rewrite splitlines_line, IH.
Qed.
End Lines.

Section Trim.

Lemma lstrip_head c l : is_space c = false -> lstrip (c :: l) = c :: l.
Proof. intros H. cbn. by rewrite H. Qed.

Lemma rstrip_snoc l c : is_space c = false -> rstrip (l ++ [c]) = l ++ [c].
Proof.
  intros H. unfold rstrip. rewrite reverse_snoc, lstrip_head by done. by rewrite reverse_cons, reverse_involutive.
Qed.

Lemma strip_chars_ends c l d : is_space c = false -> is_space d = false ->
  strip_chars (c :: l ++ [d]) = c :: l ++ [d].
Proof.
  intros Hc Hd. unfold strip_chars. rewrite lstrip_head by done. apply (rstrip_snoc (c :: l)), Hd.
Qed.
End Trim.

(** A name as [clean_name] lets it through. *)
Record clean (name : text) : Prop := {
  cl_control : existsb is_control name = false;
  cl_quotes : has_char (ascii_of_N 34) name && has_char "'"%char name = false;
}.

Lemma clean_name_clean name t : clean_name name = Ok t -> clean t /\ t = strip_chars name /\ t <> [].
Proof.
  unfold clean_name. destruct (strip_chars name) as [|c l] eqn:E; [done|]. rewrite <- E.
  destruct (_ <? _)%nat; [done|]. destruct (existsb _ _) eqn:E1; [done|].
  destruct (_ && _) eqn:E2; [done|]. intros [= <-]. split; [by split|]. by rewrite E.
Qed.

(** The quote a name is written with: a quote that the name does not hold. *)
Lemma yaml_value_quoted name : clean name ->
  exists q, yaml_value name = q :: name ++ [q] /\ is_quote q = true /\ has_char q name = false.
Proof.
  intros [_ Hq]. unfold yaml_value. eexists. split; [reflexivity|].
  destruct (has_char (ascii_of_N 34) name) eqn:E; cbn [andb] in Hq; done.
Qed.

Lemma quote_facts q : is_quote q = true ->
  is_space q = false /\ Ascii.eqb q ":"%char = false /\ is_break q = false.
Proof.
  unfold is_quote. by intros [->%Ascii.eqb_eq | ->%Ascii.eqb_eq]%orb_true_iff.
Qed.

Lemma cut_comment_quoted q name : has_char q name = false ->
  cut_comment (Some q) (name ++ [q]) = name ++ [q].
Proof.
  induction name as [|c name IH]; cbn [app cut_comment has_char existsb].
  - done.
  - intros [Hc Hn]%orb_false_iff. rewrite Ascii.eqb_sym, Hc. f_equal. by apply IH.
Qed.

Lemma cut_comment_plain l rest : forallb (fun c => negb (is_quote c || Ascii.eqb c "#"%char)) l = true ->
  cut_comment None (l ++ rest) = l ++ cut_comment None rest.
Proof.
  induction l as [|c l IH]; [done|]. cbn [forallb app cut_comment].
  intros [[H1 H2]%negb_true_iff%orb_false_iff Hl]%andb_true_iff. rewrite H1, H2. f_equal. by apply IH.
Qed.

Lemma cut_comment_name_line q name : is_quote q = true -> has_char q name = false ->
  cut_comment None (chars "name: " ++ q :: name ++ [q]) = chars "name: " ++ q :: name ++ [q].
Proof.
  intros Hq Hn. rewrite cut_comment_plain by done. f_equal. cbn [cut_comment].
  by rewrite Hq, cut_comment_quoted.
Qed.

(** The line a rename writes is an unindented entry with key [name]. *)
Lemma entry_of_name_line name : clean name ->
  exists v, entry_of (name_line name) = Some (true, "name", v) /\ v <> [] /\
    unquote v = Some name.
Proof.
  intros Hc. destruct (yaml_value_quoted name Hc) as (q & Ey & Hq & Hn).
  destruct (quote_facts q Hq) as (Hs & Hcolon & _).
  unfold name_line, entry_of, strip_comment. rewrite Ey, cut_comment_name_line by done.
  change (chars "name: " ++ q :: name ++ [q]) with ("n"%char :: (chars "ame: " ++ q :: name) ++ [q]).
  set (m := chars "ame: " ++ q :: name).
  pose proof (rstrip_snoc ("n"%char :: m) q Hs) as Er. cbn [app] in Er. rewrite Er, strip_chars_ends by done.
  subst m. cbn -[strip_chars unquote].
  exists (q :: name ++ [q]). rewrite <- (strip_chars_ends q name q) at 2 by done.
  split; [done|]. split; [done|]. cbn. by rewrite last_snoc, Ascii.eqb_refl, Hq, removelast_last.
Qed.

Section Spaces.

Definition blank (l : text) : Prop := Forall (fun c => is_space c = true) l.

Lemma lstrip_split l : exists sp, l = sp ++ lstrip l /\ blank sp.
Proof.
  induction l as [|c l (sp & E & Hsp)]; [exists []; split; [done|constructor]|]. cbn. destruct (is_space c) eqn:Ec.
  - exists (c :: sp). split; [cbn; congruence|by constructor].
  - exists []. split; [done|constructor].
Qed.

Lemma lstrip_blank l : blank l -> lstrip l = [].
Proof. induction 1 as [|c l Hc _ IH]; [done|]. cbn. by rewrite Hc. Qed.

Lemma lstrip_app_cons x c y : is_space c = false -> lstrip (x ++ c :: y) = lstrip x ++ c :: y.
Proof. intros Hc. induction x as [|d x IH]; cbn; [by rewrite Hc|]. by destruct (is_space d). Qed.

Lemma rstrip_app_cons x c y : is_space c = false -> rstrip (x ++ c :: y) = x ++ c :: rstrip y.
Proof.
  intros Hc. unfold rstrip. rewrite reverse_app, reverse_cons, <- app_assoc. cbn [app].
  rewrite lstrip_app_cons by done. rewrite reverse_app, reverse_cons, reverse_involutive, <- app_assoc. done.
Qed.

Lemma rstrip_blank l : blank l -> rstrip l = [].
Proof. intros H. unfold rstrip. rewrite lstrip_blank; [done|]. by apply Forall_reverse. Qed.

Lemma partition_colon_app k v : has_char ":"%char k = false -> partition_colon (k ++ ":"%char :: v) = Some (k, v).
Proof.
  induction k as [|c k IH]; cbn [app partition_colon has_char existsb]; [done|].
  intros [Hc Hk]%orb_false_iff. rewrite Ascii.eqb_sym, Hc, IH by done. done.
Qed.

Lemma strip_prefix_app p l rest : strip_prefix p l = Some rest -> l = p ++ rest.
Proof.
  revert l. induction p as [|c p IH]; intros l; cbn; [by intros [= <-]|]. destruct l as [|d l]; [done|].
  destruct (Ascii.eqb_spec c d) as [->|]; [|done]. intros H. f_equal. by apply IH.
Qed.

Lemma blank_plain sp : blank sp -> has_char ":"%char sp = false /\
  forallb (fun c => negb (is_quote c || Ascii.eqb c "#"%char)) sp = true.
Proof.
  induction 1 as [|c sp Hc _ [IH1 IH2]]; [done|]. cbn [has_char existsb forallb]. fold (has_char ":"%char sp).
  rewrite IH1, IH2. unfold is_quote.
  destruct (Ascii.eqb_spec ":"%char c) as [<-|]; [done|].
  destruct (Ascii.eqb c "'"%char) eqn:E1; [by apply Ascii.eqb_eq in E1 as ->|].
  destruct (Ascii.eqb c (ascii_of_N 34)) eqn:E2; [by apply Ascii.eqb_eq in E2 as ->|].
  destruct (Ascii.eqb c "#"%char) eqn:E3; [by apply Ascii.eqb_eq in E3 as ->|]. done.
Qed.

(** A line the rename recognises is one the parsers read as a top-level [name]. *)
Lemma is_name_line_entry l : is_name_line l = true -> exists v, entry_of l = Some (true, "name", v).
Proof.
  unfold is_name_line. destruct (strip_prefix _ l) as [rest|] eqn:E; [|done].
  apply strip_prefix_app in E as ->. destruct (lstrip_split rest) as (sp & Er & Hsp).
  destruct (lstrip rest) as [|c r]; [done|]. intros ->%Ascii.eqb_eq. subst rest.
  destruct (blank_plain sp Hsp) as [H1 H2].
  assert (entry_of (chars "name" ++ sp ++ ":"%char :: r) =
    Some (true, "name", strip_chars (rstrip (rstrip (cut_comment None r))))) as ->; [|eauto].
  unfold entry_of, strip_comment. rewrite cut_comment_plain, cut_comment_plain by done. cbn [cut_comment].
  change (is_quote ":"%char) with false. change (Ascii.eqb ":"%char "#"%char) with false. cbn iota.
  rewrite app_assoc, rstrip_app_cons by done. set (y := rstrip (cut_comment None r)).
  assert (strip_chars ((chars "name" ++ sp) ++ ":"%char :: y) = (chars "name" ++ sp) ++ ":"%char :: rstrip y) as ->.
  { unfold strip_chars. cbn [chars app lstrip]. change (is_space "n"%char) with false. cbn iota.
    apply (rstrip_app_cons (chars "name" ++ sp)). done. }
  assert (partition_colon ((chars "name" ++ sp) ++ ":"%char :: rstrip y) = Some (chars "name" ++ sp, rstrip y)) as Ep
    by (by apply partition_colon_app).
  cbn [chars app] in Ep |- *. cbn [strip_prefix]. change (Ascii.eqb "-"%char "n"%char) with false. cbn iota.
  rewrite Ep. cbn [fmap option_fmap option_map]. do 3 f_equal.
  change ("n" :: "a" :: "m" :: "e" :: sp)%char with (chars "nam" ++ "e"%char :: sp).
  unfold strip_chars. cbn [chars app lstrip]. change (is_space "n"%char) with false. cbn iota.
  change (str_of (rstrip (chars "nam" ++ "e"%char :: sp)) = "name").
  by rewrite rstrip_app_cons, rstrip_blank.
Qed.
End Spaces.

Section Renamed.
Context {R : Rounding}.

(** A line the parsers read as a top-level [name]. *)
Definition names_pack (l : text) : bool :=
  match entry_of l with Some (true, k, _) => bool_decide (k = "name") | _ => false end.

(** Two states of the parser that differ at most in what is filed under [name],
    the second holding [v] there. *)
Definition renamed (v : pyval) (st st' : pack_doc * option string) : Prop :=
  (forall k, k <> "name" -> aget k st'.1 = aget k st.1) /\
  aget "name" st'.1 = Some (Scalar v) /\
  (st'.2 = st.2 /\ st.2 <> Some "name" \/ st.2 = Some "name" /\ st'.2 = None).

Lemma step_renamed v st st' l : names_pack l = false ->
  renamed v st st' -> renamed v (pack_yaml_step st l) (pack_yaml_step st' l).
Proof.
  destruct st as [res sec], st' as [res' sec']. unfold names_pack, pack_yaml_step.
  destruct (entry_of l) as [[[[] key] value]|]; [| |done].
  - intros Hk%bool_decide_eq_false (H1 & H2 & _). cbn [fst snd] in *.
    destruct value as [|c value]; (split; [|split]); cbn [fst snd];
      try (intros k ?; rewrite !aget_aset; by case_bool_decide; [|apply H1]);
      try (by rewrite aget_aset, bool_decide_false); left; split; congruence.
  - intros _ (H1 & H2 & H3). cbn [fst snd] in *. destruct value as [|c value].
    { destruct sec, sec'; by split. }
    destruct H3 as [[-> Hne]|[-> ->]].
    + destruct sec as [s|]; [|by repeat split; auto].
      assert (s <> "name") as Hs by congruence. rewrite H1 by done.
      destruct (aget s res) as [[|d]|]; [by repeat split; auto|..|by repeat split; auto].
      split; [|split]; cbn [fst snd]; [| |by left].
      * intros k ?. rewrite !aget_aset. case_bool_decide; [done|by apply H1].
      * by rewrite aget_aset, bool_decide_false.
    + destruct (aget "name" res) as [[|d]|]; [by repeat split; auto|..|by repeat split; auto].
      split; [|split]; cbn [fst snd]; [|done|by right].
      intros k ?. rewrite aget_aset, bool_decide_false by done. by apply H1.
Qed.

Lemma fold_renamed v lines : Forall (fun l => names_pack l = false) lines -> forall st st',
  renamed v st st' -> renamed v (foldl pack_yaml_step st lines) (foldl pack_yaml_step st' lines).
Proof. induction 1 as [|l lines Hl _ IH]; intros st st' H; [done|]. cbn. by apply IH, step_renamed. Qed.

(** The rename's own line, in place of one that named the pack or after no entry. *)
Lemma name_line_step name st : clean name ->
  pack_yaml_step st (name_line name) = (aset "name" (Scalar (VStr (str_of name))) st.1, None).
Proof.
  intros Hc. destruct (entry_of_name_line name Hc) as (v & E & Hne & Hu). destruct st as [res sec].
  unfold pack_yaml_step. rewrite E. destruct v as [|c v]; [done|].
  unfold coerce_scalar. by rewrite Hu.
Qed.
End Renamed.

Section Roundtrip.
Context {R : Rounding}.

(** The lines that may decide the name: those after the one a rename replaces,
    or all of them when there is none to replace. *)
Fixpoint later_lines (lines : list text) : option (list text) :=
  match lines with
  | [] => None
  | l :: lines => if is_name_line l then Some lines else later_lines lines
  end.
Definition single_name (lines : list text) : bool :=
  forallb (negb ∘ names_pack) (default lines (later_lines lines)).

Lemma replace_name_split line lines :
  match replace_name line lines with
  | Some lines' => exists pre l post, lines = pre ++ l :: post /\ lines' = pre ++ line :: post /\
                     is_name_line l = true /\ later_lines lines = Some post
  | None => later_lines lines = None
  end.
Proof.
  induction lines as [|l lines IH]; cbn [replace_name later_lines]; [done|].
  destruct (is_name_line l) eqn:El; [by exists [], l, lines|].
  destruct (replace_name line lines) as [ls|]; cbn [fmap option_fmap option_map]; [|done].
  destruct IH as (pre & l' & post & -> & -> & ? & ?). by exists (l :: pre), l', post.
Qed.

Lemma insert_name_split line lines :
  exists pre post, lines = pre ++ post /\ insert_name line lines = pre ++ line :: post /\
    Forall (fun l => is_comment l = true) pre.
Proof.
  induction lines as [|l lines (pre & post & E & Ei & Hp)]; cbn [insert_name].
  - exists [], []. split_and!; [done|done|constructor].
  - destruct (is_comment l) eqn:El.
    + exists (l :: pre), post. rewrite Ei. split_and!; [cbn; congruence|done|by constructor].
    + exists [], (l :: lines). split_and!; [done|done|constructor].
Qed.

Lemma comment_skipped l : is_comment l = true -> entry_of l = None.
Proof.
  unfold is_comment. destruct (lstrip_split l) as (sp & E & Hsp). destruct (lstrip l) as [|c r]; [done|].
  intros ->%Ascii.eqb_eq. subst l. destruct (blank_plain sp Hsp) as [_ H2].
  unfold entry_of, strip_comment. rewrite cut_comment_plain by done. cbn [cut_comment].
  change (is_quote "#"%char) with false. cbn iota. cbn [app]. change (Ascii.eqb "#"%char "#"%char) with true.
  cbn iota. rewrite app_nil_r, rstrip_blank by done. done.
Qed.

Lemma comments_skipped pre st : Forall (fun l => is_comment l = true) pre ->
  foldl pack_yaml_step st pre = st.
Proof.
  intros H. revert st. induction H as [|l pre Hl _ IH]; intros st; [done|]. cbn [foldl].
  rewrite <- (IH st) at 2. f_equal. unfold pack_yaml_step. rewrite comment_skipped by done. by destruct st.
Qed.

Lemma named_step l v name st : entry_of l = Some (true, "name", v) -> clean name ->
  renamed (VStr (str_of name)) (pack_yaml_step st l) (pack_yaml_step st (name_line name)).
Proof.
  intros El Hc. rewrite name_line_step by done. destruct st as [res sec]. unfold pack_yaml_step. rewrite El.
  destruct v; (split; [|split]); cbn [fst snd];
    try (intros k ?; by rewrite !aget_aset, !bool_decide_false);
    try (by rewrite aget_aset, bool_decide_true); [by right|by left].
Qed.

Lemma rename_lines_parsed name lines : clean name -> single_name lines = true ->
  renamed (VStr (str_of name)) (foldl pack_yaml_step ([], None) lines)
    (foldl pack_yaml_step ([], None) (rename_lines name lines)).
Proof.
  intros Hc Hs. unfold single_name in Hs. unfold rename_lines.
  pose proof (replace_name_split (name_line name) lines) as Hr.
  destruct (replace_name _ lines) as [lines'|].
  - destruct Hr as (pre & l & post & -> & -> & Hl & E). rewrite E in Hs. cbn [default] in Hs.
    destruct (is_name_line_entry l Hl) as [v Ev]. rewrite !foldl_app. cbn [foldl].
    apply fold_renamed; [|by eapply named_step].
    apply Forall_forall. intros x Hx. apply negb_true_iff. eapply forallb_forall in Hs; [exact Hs|].
    by apply list_elem_of_In.
  - rewrite Hr in Hs. cbn [default] in Hs.
    destruct (insert_name_split (name_line name) lines) as (pre & post & -> & -> & Hp).
    rewrite !foldl_app, (comments_skipped pre) by done. cbn [foldl]. apply fold_renamed.
    + apply Forall_forall. intros x Hx. apply negb_true_iff. eapply forallb_forall in Hs; [exact Hs|].
      apply in_or_app. right. by apply list_elem_of_In.
    + rewrite name_line_step by done. split_and!; cbn [fst snd]; [|done|by left].
      intros k Hk. by rewrite aget_aset, bool_decide_false.
Qed.

Lemma break_is_control c : is_break c = true -> is_control c = true.
Proof.
  unfold is_break, is_control. rewrite !orb_true_iff, !andb_true_iff, !N.leb_le. intros [[_ ?]|[_ ?]]; left; lia.
Qed.

Lemma name_line_unbroken name : clean name -> unbroken (name_line name).
Proof.
  intros Hc. destruct (yaml_value_quoted name Hc) as (q & E & Hq & _).
  destruct (quote_facts q Hq) as (_ & _ & Hb). unfold name_line, unbroken. rewrite E.
  change (q :: name ++ [q]) with ([q] ++ name ++ [q]). rewrite !forallb_app. cbn [forallb compose]. rewrite Hb.
  cbn. repeat (apply andb_true_iff; split; [done|]). rewrite andb_true_r. apply forallb_forall. intros c Hin. apply negb_true_iff.
  destruct (is_break c) eqn:Ec; [|done]. apply break_is_control in Ec.
  assert (existsb is_control name = true) as H by (apply existsb_exists; eauto).
  by rewrite (cl_control name Hc) in H.
Qed.

Lemma rename_lines_unbroken name lines : clean name -> Forall unbroken lines ->
  Forall unbroken (rename_lines name lines).
Proof.
  intros Hc H. pose proof (name_line_unbroken name Hc) as Hl. unfold rename_lines.
  pose proof (replace_name_split (name_line name) lines) as Hr.
  destruct (replace_name _ lines) as [lines'|].
  - destruct Hr as (pre & l & post & -> & -> & _). apply Forall_app in H as [? [? ?]%Forall_cons].
    apply Forall_app. split; [done|]. by constructor.
  - destruct (insert_name_split (name_line name) lines) as (pre & post & -> & -> & _).
    apply Forall_app in H as [? ?]. apply Forall_app. split; [done|]. by constructor.
Qed.
End Roundtrip.

(** A renamed pack is read back under its new name.  When [clean_name]
    accepts a name and pack.yaml names the pack at most once, the rewritten
    file is parsed as that name, character for character, and every other key
    of the document keeps its value. *)
Theorem rename_read_back {R : Rounding} raw name t :
  clean_name raw = Ok name -> single_name (splitlines t) = true ->
  exists t', rewrite_pack_yaml (Some t) name = Some t' /\
    aget "name" (parse_pack_yaml_server t') = Some (Scalar (VStr (str_of name))) /\
    (forall k, k <> "name" -> aget k (parse_pack_yaml_server t') = aget k (parse_pack_yaml_server t)).
Proof.
  intros Hn Hs. destruct (clean_name_clean raw name Hn) as (Hc & _).
  eexists. split; [reflexivity|]. unfold parse_pack_yaml_server.
  rewrite splitlines_join by (apply rename_lines_unbroken, splitlines_unbroken; done).
  destruct (rename_lines_parsed name (splitlines t) Hc Hs) as (H1 & H2 & _). done.
Qed.

(** ** Witnesses *)

Definition demo_yaml : text :=
  chars "# a pack" ++ LF :: chars "name: old   # the name" ++ LF :: chars "estimates:" ++ LF
    :: chars "  bytes_per_event: 180" ++ [LF].

Lemma rename_read_back_witness :
  exists t', rewrite_pack_yaml (Some demo_yaml) (chars "it's #2: new") = Some t' /\
    aget "name" (@parse_pack_yaml_server binary64 t') = Some (Scalar (VStr "it's #2: new")) /\
    aget "estimates" (@parse_pack_yaml_server binary64 t') = Some (Block [("bytes_per_event", VInt 180)]).
Proof.
  destruct (@rename_read_back binary64 (chars "  it's #2: new ") (chars "it's #2: new") demo_yaml) as (t' & E & En & Eo).
  - reflexivity.
  - reflexivity.
  - exists t'. split; [exact E|]. split; [exact En|]. rewrite Eo by done. reflexivity.
Defined.

(** With a second [name] line the rename is lost: the line is replaced where it
    first stands, and the parsers take the last. *)
Example duplicate_name_keeps_old :
  let t := chars "name: a" ++ LF :: chars "name: b" ++ [LF] in
  option_map (fun t' => aget "name" (@parse_pack_yaml_server binary64 t')) (rewrite_pack_yaml (Some t) (chars "c"))
  = Some (Some (Scalar (VStr "b"))).
Proof. reflexivity. Qed.
