(* ===== verification/Formats.v ===== *)
(** * The formats of identifiers (server/packbuilder/pseudonym.py: the format table)

    A stand-in keeps the shape and the width of the text it replaces.  [infer]
    reads the format off a text, [render] writes a number in a format, [space]
    counts the texts a format has.

    The theorems: what [render] writes is read back by [infer] as the same
    format, whatever the number and the case; and rendering is injective on the
    space of the format, for every shape but the GUID. *)

From S2P Require Import Prelude.
From S2P Require Import PyFloat.
From S2P Require Import PyValue.
From S2P Require Import PackYaml.
From Stdlib Require Import QArith Ascii.
Open Scope Z_scope.

(** ** Characters *)

Definition between (lo hi : N) (c : ascii) : bool := ((lo <=? N_of_ascii c) && (N_of_ascii c <=? hi))%N.
Definition is_dec : ascii -> bool := between 48 57.
Definition is_low : ascii -> bool := between 97 122.
Definition is_up : ascii -> bool := between 65 90.
Definition is_letter (c : ascii) : bool := is_low c || is_up c.
Definition is_af (c : ascii) : bool := between 97 102 c.
Definition is_AF (c : ascii) : bool := between 65 70 c.
Definition is_hex (c : ascii) : bool := is_dec c || is_af c || is_AF c.

Definition upper_ascii (c : ascii) : ascii :=
  if is_low c then ascii_of_N (N_of_ascii c - 32) else c.

(** ["0123456789abcdef"[d]] *)
Definition digit_char (d : Z) : ascii := ascii_of_N (Z.to_N (if d <? 10 then 48 + d else 87 + d)).

Definition DEC : text := chars "0123456789".
Definition HEX_FIRST : text := chars "abcdef".
Definition MIXED_FIRST_LETTER : text := chars "ghijklmnopqrstuvwxyz".
Definition LOWER_LETTERS : text := chars "abcdefghijklmnopqrstuvwxyz".
Definition UPPER_LETTERS : text := upper_ascii <$> LOWER_LETTERS.

(** ** Numbers as digits *)

(** [w] digits of [n] in a base, the most significant first. *)
Fixpoint pos_digits (base : Z) (w : nat) (n : Z) : list Z :=
  match w with
  | O => []
  | S w => pos_digits base w (n / base) ++ [n mod base]
  end.

(** [str(n)] for [n >= 0] *)
Fixpoint dec_digits (fuel : nat) (n : Z) : list Z :=
  match fuel with
  | O => []
  | S fuel => if n <? 10 then [n] else dec_digits fuel (n / 10) ++ [n mod 10]
  end.
Definition str_int (n : Z) : text := digit_char <$> dec_digits (S (Z.to_nat (Z.log2 n))) n.

(** ** Formats *)

Inductive shape : Type := SDigits | SHex | SGuid | SMixed | SNone.

Global Instance shape_eq_dec : EqDecision shape.
Proof. solve_decision. Defined.

(** A position copied verbatim, or one that varies over an alphabet. *)
Inductive entry : Type := Verbatim (c : ascii) | Varies (radix : Z) (alphabet : text).

Global Instance entry_eq_dec : EqDecision entry.
Proof. solve_decision. Defined.

Record Format : Type := mkFormat { fm_shape : shape; fm_width : nat; fm_template : list entry }.

Global Instance format_eq_dec : EqDecision Format.
Proof. solve_decision. Defined.

Definition FORMAT_NONE : Format := mkFormat SNone 0 [].
Definition format (s : shape) (w : nat) : Format := mkFormat s w [].

Inductive case : Type := Lower | Upper.

Definition case_class (t : text) : case :=
  let letters := List.filter is_letter t in
  if bool_decide (letters <> []) && forallb is_up letters then Upper else Lower.

Definition LF : ascii := ascii_of_N 10.

(** [$] matches at the end and before a newline that ends the text. *)
Definition before_eol (t : text) : text :=
  match reverse t with
  | c :: r => if Ascii.eqb c LF then reverse r else t
  | [] => []
  end.

Definition digits_re (t : text) : bool :=
  bool_decide (before_eol t <> []) && forallb is_dec (before_eol t).
Definition hex_lower_re (t : text) : bool :=
  existsb is_af (before_eol t) && forallb (fun c => is_dec c || is_af c) (before_eol t).
Definition hex_upper_re (t : text) : bool :=
  existsb is_AF (before_eol t) && forallb (fun c => is_dec c || is_AF c) (before_eol t).

(** The places of the hyphens of a GUID. *)
Definition GUID_PATTERN : list bool :=
  replicate 8 false ++ true :: replicate 4 false ++ true :: replicate 4 false ++ true ::
  replicate 4 false ++ true :: replicate 12 false.
Fixpoint match_pattern (p : list bool) (t : text) : bool :=
  match p, t with
  | [], [] => true
  | b :: p, c :: t => (if b : bool then Ascii.eqb c "-"%char else is_hex c) && match_pattern p t
  | _, _ => false
  end.
Definition guid_re (t : text) : bool := match_pattern GUID_PATTERN (before_eol t).

(** Letters of one case, if any. *)
Definition uniform (t : text) : bool :=
  let letters := List.filter is_letter t in
  bool_decide (letters = []) || forallb is_low letters || forallb is_up letters.

(** The template of the general format; [used] once a letter was met. *)
Fixpoint template_of (used : bool) (t : text) : list entry :=
  match t with
  | [] => []
  | c :: t =>
      if is_dec c then Varies 10 DEC :: template_of used t
      else if is_low c then
        (if used then Varies 26 LOWER_LETTERS else Varies 20 MIXED_FIRST_LETTER) :: template_of true t
      else if is_up c then
        (if used then Varies 26 UPPER_LETTERS else Varies 20 (upper_ascii <$> MIXED_FIRST_LETTER))
          :: template_of true t
      else Verbatim c :: template_of used t
  end.

Definition is_verbatim (e : entry) : bool := match e with Verbatim _ => true | Varies _ _ => false end.

Definition infer (t : text) : Format :=
  if bool_decide (t = []) then FORMAT_NONE
  else if digits_re t then format SDigits (length t)
  else if guid_re t && uniform t then format SGuid 0
  else if hex_lower_re t || hex_upper_re t then format SHex (length t)
  else
    let template := template_of false t in
    if forallb is_verbatim template then FORMAT_NONE else mkFormat SMixed (length t) template.

Definition radices (template : list entry) : list Z :=
  omap (fun e => match e with Varies r _ => Some r | Verbatim _ => None end) template.

Definition space (f : Format) : Z :=
  match fm_shape f with
  | SDigits => 9 * 10 ^ (Z.of_nat (fm_width f) - 1)
  | SHex => 6 * 16 ^ (Z.of_nat (fm_width f) - 1)
  | SGuid => 2 ^ 122
  | SMixed => foldr Z.mul 1 (radices (fm_template f))
  | SNone => 1
  end.

(** The digits of [v] in the given radices, the last one read off first. *)
Fixpoint picks_rev (rs : list Z) (v : Z) : list Z :=
  match rs with
  | [] => []
  | r :: rs => v mod r :: picks_rev rs (v / r)
  end.
Definition picks (rs : list Z) (v : Z) : list Z := reverse (picks_rev (reverse rs) v).

Fixpoint fill_template (template : list entry) (ps : list Z) : text :=
  match template with
  | [] => []
  | Verbatim c :: template => c :: fill_template template ps
  | Varies _ a :: template =>
      match ps with
      | p :: ps => nth (Z.to_nat p) a "0"%char :: fill_template template ps
      | [] => []
      end
  end.

Definition in_case (c : case) (t : text) : text := match c with Lower => t | Upper => upper_ascii <$> t end.

(** The sixteen bytes of a random (version 4) GUID, in hex, hyphenated. *)
Definition guid_bytes (x : Z) : list Z :=
  let b := pos_digits 256 16 (x mod 2 ^ 128) in
  let b := <[ 6%nat := Z.lor (Z.land (nth 6 b 0) 0x0F) 0x40 ]> b in
  <[ 8%nat := Z.lor (Z.land (nth 8 b 0) 0x3F) 0x80 ]> b.
Definition guid_text (bytes : list Z) : text :=
  let h := concat ((fun b => digit_char <$> pos_digits 16 2 b) <$> bytes) in
  take 8 h ++ "-"%char :: take 4 (drop 8 h) ++ "-"%char :: take 4 (drop 12 h) ++ "-"%char ::
  take 4 (drop 16 h) ++ "-"%char :: take 12 (drop 20 h).

(** The result for [x >= 0]; a negative number raises. *)
Definition render (f : Format) (x : Z) (c : case) : result (option text) :=
  if x <? 0 then Raise (ValueError "render needs a non-negative integer")
  else
    let w := fm_width f in
    Ok match fm_shape f with
       | SNone => None
       | SDigits =>
           let low := 10 ^ (Z.of_nat w - 1) in Some (str_int (low + x mod (9 * low)))
       | SHex =>
           let unit := 16 ^ (Z.of_nat w - 1) in
           let v := x mod (6 * unit) in
           Some (in_case c (nth (Z.to_nat (v / unit)) HEX_FIRST "0"%char
                              :: (digit_char <$> pos_digits 16 (w - 1) (v mod unit))))
       | SGuid => Some (in_case c (guid_text (guid_bytes x)))
       | SMixed => Some (fill_template (fm_template f) (picks (radices (fm_template f)) (x mod space f)))
       end.

Definition WIDEN_FLOOR (s : shape) : Z := match s with SDigits => 12 | _ => 16 end.
Definition WIDEN_DEFAULT (s : shape) : Z := match s with SDigits => 15 | _ => 16 end.
Definition WIDEN_MAX : Z := 48.

Definition widen_format (s : shape) (length : option Z) : result Format :=
  match s with
  | SGuid => Ok (format SGuid 0)
  | SDigits | SHex =>
      let n := default (WIDEN_DEFAULT s) length in
      if (WIDEN_FLOOR s <=? n) && (n <=? WIDEN_MAX) then Ok (format s (Z.to_nat n))
      else Raise (ValueError "length out of range")
  | _ => Raise (ValueError "widen shape must be one of digits, hex, guid")
  end.

Example infer_shapes :
  fm_shape <$> (infer ∘ chars <$> ["123456"; "00ffa1"; "AB12-x"; "---"; "0f8fad5b-d9cb-469f-a165-70867728950e"])
  = [SDigits; SHex; SMixed; SNone; SGuid].
Proof. vm_compute. reflexivity. Qed.

Example render_shapes :
  (fun f => render f 1234567890123456789 Lower) <$> (infer ∘ chars <$> ["123456"; "00ffa1"; "AB12-x"])
  = [Ok (Some (chars "256789")); Ok (Some (chars "a98115")); Ok (Some (chars "TT22-r"))].
Proof. vm_compute. reflexivity. Qed.

(** ** Digits *)

Section Digits.

Lemma length_pos_digits b w n : length (pos_digits b w n) = w.
Proof. revert n. induction w as [|w IH]; intros n; [done|]. cbn. rewrite length_app, IH. cbn. lia. Qed.

Lemma pos_digits_bound b w n : 0 < b -> Forall (fun d => 0 <= d < b) (pos_digits b w n).
Proof.
  intros Hb. revert n. induction w as [|w IH]; intros n; [constructor|]. cbn.
  apply Forall_app. split; [apply IH|]. repeat constructor; by apply Z.mod_pos_bound.
Qed.

Lemma pos_digits_inj b w x y : 0 < b -> 0 <= x < b ^ Z.of_nat w -> 0 <= y < b ^ Z.of_nat w ->
  pos_digits b w x = pos_digits b w y -> x = y.
Proof.
  intros Hb. revert x y. induction w as [|w IH]; intros x y Hx Hy.
  { change (b ^ Z.of_nat 0) with 1 in *. lia. }
  rewrite Nat2Z.inj_succ, Z.pow_succ_r in Hx, Hy by lia. cbn. intros [E1 [= E2]]%app_inj_tail.
  assert (forall z, 0 <= z < b * b ^ Z.of_nat w -> 0 <= z / b < b ^ Z.of_nat w) as Hdiv.
  { intros z Hz. split; [apply Z.div_pos; lia|]. apply Z.div_lt_upper_bound; lia. }
  apply IH in E1; [|by apply Hdiv..]. rewrite (Z.div_mod x b), (Z.div_mod y b) by lia. lia.
Qed.

(** [str] of a number of [w] digits. *)
Lemma dec_digits_pos w fuel n : (1 <= w <= fuel)%nat -> 10 ^ (Z.of_nat w - 1) <= n < 10 ^ Z.of_nat w ->
  dec_digits fuel n = pos_digits 10 w n.
Proof.
  revert fuel n. induction w as [|w IH]; intros fuel n Hf Hn; [lia|]. destruct fuel as [|fuel]; [lia|].
  replace (Z.of_nat (S w) - 1) with (Z.of_nat w) in Hn by lia. cbn [dec_digits pos_digits].
  destruct (Nat.eq_dec w 0) as [->|Hw].
  - change (10 ^ Z.of_nat 1) with 10 in Hn. change (10 ^ Z.of_nat 0) with 1 in Hn.
    rewrite (proj2 (Z.ltb_lt n 10)) by lia. cbn. by rewrite Z.mod_small by lia.
  - assert (10 ^ Z.of_nat w = 10 * 10 ^ (Z.of_nat w - 1)) as E.
    { rewrite <- Z.pow_succ_r by lia. f_equal. lia. }
    assert (1 <= 10 ^ (Z.of_nat w - 1)) by (apply (Z.pow_le_mono_r 10 0); lia).
    rewrite Nat2Z.inj_succ, Z.pow_succ_r in Hn by lia.
    rewrite (proj2 (Z.ltb_ge n 10)) by lia. f_equal. apply IH; [lia|].
    split; [apply Z.div_le_lower_bound; lia|apply Z.div_lt_upper_bound; lia].
Qed.

Lemma str_int_pos w n : (1 <= w)%nat -> 10 ^ (Z.of_nat w - 1) <= n < 10 ^ Z.of_nat w ->
  str_int n = digit_char <$> pos_digits 10 w n.
Proof.
  intros Hw Hn. unfold str_int. f_equal. apply dec_digits_pos; [|done]. split; [done|].
  assert (2 ^ (Z.of_nat w - 1) <= n) as H2.
  { etrans; [|apply Hn]. apply Z.pow_le_mono_l. lia. }
  assert (0 < n) by (assert (1 <= 2 ^ (Z.of_nat w - 1)) by (apply (Z.pow_le_mono_r 2 0); lia); lia).
  apply Z.log2_le_pow2 in H2; [|done]. lia.
Qed.

(** The sixteen digits. *)
Lemma digit_char_spec d : 0 <= d < 16 ->
  if d <? 10 then is_dec (digit_char d) = true else is_af (digit_char d) = true.
Proof.
  intros Hd. assert (Forall (fun d => if d <? 10 then is_dec (digit_char d) = true else is_af (digit_char d) = true)
    (seqZ 0 16)) as H by (repeat constructor).
  rewrite Forall_forall in H. apply (H d). apply elem_of_seqZ. lia.
Qed.

Lemma digit_char_inj d e : 0 <= d < 16 -> 0 <= e < 16 -> digit_char d = digit_char e -> d = e.
Proof.
  intros Hd He E. apply (f_equal N_of_ascii) in E. unfold digit_char in E.
  destruct (Z.ltb_spec d 10), (Z.ltb_spec e 10);
    rewrite !N_ascii_embedding in E by lia; apply Z2N.inj in E; lia.
Qed.

Lemma digits_fmap_inj ds es : Forall (fun d => 0 <= d < 16) ds -> Forall (fun d => 0 <= d < 16) es ->
  digit_char <$> ds = digit_char <$> es -> ds = es.
Proof.
  intros Hd. revert es. induction Hd as [|d ds H _ IH]; intros [|e es] He E; try done.
  apply Forall_cons in He as [? ?]. injection E as E1 E2. f_equal; [by apply digit_char_inj|by apply IH].
Qed.
End Digits.

(** ** What is rendered is read back as the same format *)

Section Stable.

(** A fact about every character, by cases. *)
Ltac every_char c := destruct c as [[] [] [] [] [] [] [] []]; try done.

(** The formats the builder uses: the ones [infer] reads and [widen_format] makes. *)
Inductive readable : Format -> Prop :=
  | readable_digits w : (1 <= w)%nat -> readable (format SDigits w)
  | readable_hex w : (1 <= w)%nat -> readable (format SHex w)
  | readable_guid : readable (format SGuid 0)
  | readable_mixed t : fm_shape (infer t) = SMixed -> readable (infer t).

Lemma infer_readable t : fm_shape (infer t) <> SNone -> readable (infer t).
Proof.
  intros H. destruct (fm_shape (infer t)) eqn:E; [| | |by constructor|done]; clear H; revert E; unfold infer;
    repeat case_match; try done; intros _; try constructor; case_bool_decide; try done;
    destruct t; try done; cbn; lia.
Qed.

Lemma widen_readable s n f : widen_format s n = Ok f -> readable f.
Proof.
  unfold widen_format, WIDEN_FLOOR, WIDEN_MAX. destruct s; intros H; try done.
  3:{ injection H as <-. exact readable_guid. }
  all: destruct ((_ <=? _) && _) eqn:E in H; [|done]; injection H as <-; apply andb_true_iff in E as [E1%Z.leb_le E2];
    cbn iota in E1.
  - apply readable_digits. change 15 with (WIDEN_DEFAULT SDigits). lia.
  - apply readable_hex. change 16 with (WIDEN_DEFAULT SHex). lia.
Qed.

Lemma before_eol_plain t : LF ∉ t -> before_eol t = t.
Proof.
  unfold before_eol. destruct (reverse t) as [|c r] eqn:E; intros H.
  - by apply (f_equal reverse) in E; rewrite reverse_involutive in E.
  - destruct (Ascii.eqb_spec c LF) as [->|]; [|done]. destruct H.
    apply elem_of_reverse. rewrite E. left.
Qed.

Lemma before_eol_elem c t : c ∈ t -> c <> LF -> c ∈ before_eol t.
Proof.
  unfold before_eol. intros H Hc. apply elem_of_reverse in H. destruct (reverse t) as [|c0 r] eqn:E; [by apply elem_of_nil in H|].
  destruct (Ascii.eqb_spec c0 LF) as [->|].
  - apply elem_of_reverse. apply elem_of_cons in H as [->|H]; done.
  - rewrite <- E in H. by apply (proj1 (elem_of_reverse _ _)) in H.
Qed.

(** ** The templates of the general format *)

Definition fits (e : entry) (c : ascii) : Prop := match e with Verbatim c0 => c = c0 | Varies _ a => c ∈ a end.
Definition sized (e : entry) : Prop :=
  match e with Verbatim _ => True | Varies r a => r = Z.of_nat (length a) /\ 0 < r end.

Lemma template_sized used t : Forall sized (template_of used t).
Proof.
  revert used. induction t as [|c t IH]; intros used; [constructor|]. cbn [template_of].
  destruct (is_dec c); [constructor; [by split|auto]|].
  destruct (is_low c); [constructor; [by destruct used; split|auto]|].
  destruct (is_up c); [constructor; [by destruct used; split|auto]|]. by constructor.
Qed.

Lemma radices_pos t : Forall sized t -> Forall (fun r => 0 < r) (radices t).
Proof.
  induction 1 as [|[c|r a] t He _ IH]; cbn; [constructor|done|]. constructor; [apply He|done].
Qed.

Lemma picks_rev_bound rs v : Forall (fun r => 0 < r) rs -> Forall2 (fun p r => 0 <= p < r) (picks_rev rs v) rs.
Proof.
  intros H. revert v. induction H as [|r rs Hr _ IH]; intros v; cbn; [constructor|].
  constructor; [by apply Z.mod_pos_bound|apply IH].
Qed.

Lemma picks_bound rs v : Forall (fun r => 0 < r) rs -> Forall2 (fun p r => 0 <= p < r) (picks rs v) rs.
Proof.
  intros H. unfold picks. rewrite <- (reverse_involutive rs) at 2. apply Forall2_reverse, picks_rev_bound.
  by apply Forall_reverse.
Qed.

Lemma fill_fits t ps : Forall sized t -> Forall2 (fun p r => 0 <= p < r) ps (radices t) ->
  Forall2 fits t (fill_template t ps).
Proof.
  intros H. revert ps. induction H as [|[c|r a] t He _ IH]; intros ps Hp; cbn in *; [constructor|by constructor; auto|].
  inversion Hp as [|p ? ps' ? Hb Hps]; subst. constructor; [|auto]. destruct He as [-> _]. cbn.
  apply list_elem_of_In, nth_In. lia.
Qed.

Lemma alphabets_spec :
  Forall (fun c => is_dec c = true) DEC /\
  Forall (fun c => is_low c = true) LOWER_LETTERS /\ Forall (fun c => is_up c = true) UPPER_LETTERS /\
  Forall (fun c => is_low c = true /\ is_hex c = false) MIXED_FIRST_LETTER /\
  Forall (fun c => is_up c = true /\ is_hex c = false) (upper_ascii <$> MIXED_FIRST_LETTER).
Proof. split_and!; repeat constructor. Qed.

Lemma class_excl c : (is_dec c = true -> is_letter c = false) /\ (is_low c = true -> is_up c = false /\ is_dec c = false)
  /\ (is_up c = true -> is_low c = false /\ is_dec c = false) /\ (is_letter c = true -> c <> LF).
Proof. every_char c. Qed.

(** The entry of a character, and what fits it. *)
Definition entry_of_char (used : bool) (c : ascii) : entry :=
  if is_dec c then Varies 10 DEC
  else if is_low c then (if used then Varies 26 LOWER_LETTERS else Varies 20 MIXED_FIRST_LETTER)
  else if is_up c then (if used then Varies 26 UPPER_LETTERS else Varies 20 (upper_ascii <$> MIXED_FIRST_LETTER))
  else Verbatim c.

Lemma template_cons used c t :
  template_of used (c :: t) = entry_of_char used c :: template_of (used || is_letter c) t.
Proof.
  unfold entry_of_char. cbn [template_of]. destruct (class_excl c) as (H1 & _). unfold is_letter in *.
  destruct (is_dec c); [by rewrite (H1 eq_refl), orb_false_r|].
  by destruct (is_low c), (is_up c), used.
Qed.

Lemma fits_char used c c' : fits (entry_of_char used c) c' ->
  is_dec c' = is_dec c /\ is_low c' = is_low c /\ is_up c' = is_up c /\
  (is_letter c = true -> used = false -> is_hex c' = false) /\
  (is_dec c = false -> is_letter c = false -> c' = c).
Proof.
  destruct alphabets_spec as (HD & HL & HU & HM & HMU). rewrite !Forall_forall in HD, HL, HU, HM, HMU.
  destruct (class_excl c) as (C1 & C2 & C3 & _). destruct (class_excl c') as (D1 & D2 & D3 & _).
  unfold entry_of_char. destruct (is_dec c) eqn:Ed.
  { cbn [fits]. intros H%HD. rewrite H in *. specialize (C1 eq_refl). specialize (D1 eq_refl). unfold is_letter in *.
    apply orb_false_iff in C1 as [-> ->], D1 as [-> ->]. done. }
  destruct (is_low c) eqn:El.
  { intros H. assert (is_low c' = true /\ (used = false -> is_hex c' = false)) as [H1 H2].
    { destruct used; cbn [fits] in H; [by split; [apply HL|]|]. split; [|intros _]; by apply HM. }
    destruct (C2 eq_refl) as [-> _]. destruct (D2 H1) as [-> ->]. rewrite H1. unfold is_letter. rewrite El. done. }
  destruct (is_up c) eqn:Eu.
  { intros H. assert (is_up c' = true /\ (used = false -> is_hex c' = false)) as [H1 H2].
    { destruct used; cbn [fits] in H; [by split; [apply HU|]|]. split; [|intros _]; by apply HMU. }
    destruct (D3 H1) as [-> ->]. rewrite H1. unfold is_letter. rewrite El, Eu. done. }
  cbn [fits]. intros ->. rewrite Ed, El, Eu. unfold is_letter. by rewrite El, Eu.
Qed.

Lemma template_stable used t t' : Forall2 fits (template_of used t) t' -> template_of used t' = template_of used t.
Proof.
  revert used t'. induction t as [|c t IH]; intros used t' H; [by inversion H|].
  rewrite template_cons in H. inversion H as [|? c' ? t1 Hf Hr]; subst. rewrite !template_cons.
  destruct (fits_char _ _ _ Hf) as (E1 & E2 & E3 & _ & E5).
  assert (is_letter c' = is_letter c) as El by (unfold is_letter; by rewrite E2, E3). rewrite El.
  f_equal; [|by apply IH]. unfold entry_of_char. rewrite E1, E2, E3.
  destruct (is_dec c) eqn:Ed; [done|]. destruct (is_low c) eqn:Ec; [done|]. destruct (is_up c) eqn:Eu; [done|].
  f_equal. apply E5; [done|]. unfold is_letter. by rewrite Ec, Eu.
Qed.

(** Texts that differ in their digits only. *)
Definition same_but_digits (c c' : ascii) : Prop := is_dec c' = is_dec c /\ (is_dec c = false -> c' = c).

Lemma mixed_has_letter t t' : Forall2 fits (template_of false t) t' -> existsb is_letter t = true ->
  exists c, c ∈ t' /\ is_letter c = true /\ is_hex c = false.
Proof.
  revert t'. induction t as [|c t IH]; intros t' H Hl; [done|]. rewrite template_cons in H.
  inversion H as [|? c' ? t1 Hf Hr]; subst. destruct (fits_char _ _ _ Hf) as (_ & E2 & E3 & E4 & _).
  destruct (is_letter c) eqn:El.
  - exists c'. split; [left|]. split; [|by apply E4]. unfold is_letter in *. by rewrite E2, E3.
  - cbn in Hl. rewrite El in Hl. destruct (IH t1 Hr Hl) as (x & Hx & ?). exists x. split; [by right|done].
Qed.

Lemma mixed_digits_only used t t' : Forall2 fits (template_of used t) t' -> existsb is_letter t = false ->
  Forall2 same_but_digits t t'.
Proof.
  revert used t'. induction t as [|c t IH]; intros used t' H Hl; [by inversion H|]. rewrite template_cons in H.
  inversion H as [|? c' ? t1 Hf Hr]; subst. cbn in Hl. apply orb_false_iff in Hl as [Hc Hl].
  destruct (fits_char _ _ _ Hf) as (E1 & _ & _ & _ & E5). constructor; [by split; auto|]. by eapply IH.
Qed.

Lemma before_eol_same t t' : Forall2 same_but_digits t t' -> Forall2 same_but_digits (before_eol t) (before_eol t').
Proof.
  intros H. pose proof (Forall2_reverse _ _ _ H) as Hr. unfold before_eol.
  destruct Hr as [|c c' r r' [Hd He] Hr]; [constructor|].
  assert (Ascii.eqb c' LF = Ascii.eqb c LF) as ->.
  { destruct (is_dec c) eqn:Ed; [|by rewrite He]. by every_char c; every_char c'. }
  destruct (Ascii.eqb c LF); [by apply Forall2_reverse|done].
Qed.

Lemma forallb_same p t t' : (forall c c', same_but_digits c c' -> p c' = p c) -> Forall2 same_but_digits t t' ->
  forallb p t' = forallb p t /\ existsb p t' = existsb p t.
Proof. intros Hp. induction 1 as [|c c' t t' H _ [IH1 IH2]]; [done|]. cbn. by rewrite (Hp _ _ H), IH1, IH2. Qed.

Lemma pattern_same p t t' : Forall2 same_but_digits t t' -> match_pattern p t' = match_pattern p t.
Proof.
  intros H. revert p. induction H as [|c c' t t' [Hd He] _ IH]; intros [|b p]; try done. cbn. rewrite IH.
  f_equal. destruct (is_dec c) eqn:Ed; [|by rewrite He]. unfold is_hex. rewrite Ed, Hd.
  destruct b; [|done]. by every_char c; every_char c'.
Qed.

Lemma same_nil t t' : Forall2 same_but_digits t t' -> bool_decide (t' <> []) = bool_decide (t <> []).
Proof. by destruct 1. Qed.

Lemma no_letters p t : (forall c, is_letter c = false -> p c = false) -> existsb is_letter t = false ->
  existsb p (before_eol t) = false /\ List.filter is_letter t = [].
Proof.
  intros Hp Hl. assert (forall c, c ∈ t -> is_letter c = false) as H.
  { intros c Hc. destruct (is_letter c) eqn:E; [|done]. enough (existsb is_letter t = true) by congruence.
    apply existsb_exists. exists c. split; [by apply list_elem_of_In|done]. }
  split.
  - destruct (existsb p (before_eol t)) eqn:E; [|done]. apply existsb_exists in E as (c & Hc%list_elem_of_In & Ec).
    rewrite Hp in Ec; [done|]. apply H. unfold before_eol in Hc. destruct (reverse t) as [|c0 r] eqn:Er; [by apply elem_of_nil in Hc|].
    destruct (Ascii.eqb c0 LF); [|done]. apply (proj1 (elem_of_reverse _ _)).
    rewrite Er. right. by apply (proj1 (elem_of_reverse _ _)) in Hc.
  - clear Hl. induction t as [|c t IH]; [done|]. cbn. rewrite (H c) by left. apply IH. intros x Hx. apply H. by right.
Qed.

(** A letter beyond f rules the special shapes out. *)
Lemma odd_letter_mixed c t : c ∈ t -> is_letter c = true -> is_hex c = false ->
  digits_re t = false /\ guid_re t = false /\ hex_lower_re t = false /\ hex_upper_re t = false.
Proof.
  intros Hin Hl Hh. assert (c ∈ before_eol t) as Hc.
  { apply before_eol_elem; [done|]. by apply (class_excl c). }
  assert (forall p, p c = false -> forallb p (before_eol t) = false) as Hf.
  { intros p Hp. destruct (forallb p (before_eol t)) eqn:E; [|done]. rewrite forallb_forall in E.
    rewrite E in Hp; [done|]. by apply list_elem_of_In. }
  unfold is_hex in Hh. apply orb_false_iff in Hh as [[Hd Ha]%orb_false_iff HA].
  split_and!.
  - unfold digits_re. by rewrite Hf, andb_false_r.
  - unfold guid_re. revert Hc. generalize GUID_PATTERN as p, (before_eol t) as u. clear Hin Hf.
    intros p u. revert p. induction u as [|c' u IH]; intros p Hc; [by apply elem_of_nil in Hc|].
    destruct p as [|b p]; [done|]. cbn. apply elem_of_cons in Hc as [<-|Hc]; [|by rewrite (IH p Hc), andb_false_r].
    destruct b; [|unfold is_hex; by rewrite Hd, Ha, HA]. by every_char c.
  - unfold hex_lower_re. rewrite Hf, andb_false_r; [done|]. by rewrite Hd, Ha.
  - unfold hex_upper_re. rewrite Hf, andb_false_r; [done|]. by rewrite Hd, HA.
Qed.

Lemma infer_mixed t : fm_shape (infer t) = SMixed ->
  t <> [] /\ digits_re t = false /\ (guid_re t && uniform t) = false /\ (hex_lower_re t || hex_upper_re t) = false /\
  forallb is_verbatim (template_of false t) = false /\ infer t = mkFormat SMixed (length t) (template_of false t).
Proof.
  unfold infer. case_bool_decide; [done|]. destruct (digits_re t); [done|].
  destruct (guid_re t && uniform t); [done|]. destruct (hex_lower_re t || hex_upper_re t); [done|].
  destruct (forallb is_verbatim (template_of false t)); done.
Qed.

Lemma mixed_stable t t' : fm_shape (infer t) = SMixed -> Forall2 fits (template_of false t) t' -> infer t' = infer t.
Proof.
  intros Hm Hf. destruct (infer_mixed t Hm) as (Hne & Hd & Hg & Hh & Hv & ->).
  assert (length t' = length t) as Hlen.
  { apply Forall2_length in Hf. rewrite <- Hf. clear. generalize false as u.
    induction t as [|c t IH]; intros u; [done|]. rewrite template_cons. cbn. by rewrite IH. }
  pose proof (template_stable false t t' Hf) as Ht.
  enough (digits_re t' = false /\ (guid_re t' && uniform t') = false /\ (hex_lower_re t' || hex_upper_re t') = false)
    as (E1 & E2 & E3).
  { unfold infer. rewrite bool_decide_false by (intros ->; by destruct t). rewrite E1, E2, E3, Ht, Hv, Hlen. done. }
  destruct (existsb is_letter t) eqn:El.
  - destruct (mixed_has_letter t t' Hf El) as (c & Hin & Hl & Hc).
    destruct (odd_letter_mixed c t' Hin Hl Hc) as (-> & -> & -> & ->). done.
  - pose proof (mixed_digits_only false t t' Hf El) as Hs. pose proof (before_eol_same _ _ Hs) as Hb.
    assert (existsb is_letter t' = false) as El'.
    { rewrite <- El. apply forallb_same; [|done]. intros c c' [Hdc He]. destruct (is_dec c) eqn:Edc; [|by rewrite He].
      rewrite (proj1 (class_excl c) Edc). by apply (class_excl c'). }
    split_and!.
    + rewrite <- Hd. unfold digits_re. rewrite (same_nil _ _ Hb). f_equal.
      apply forallb_same; [|done]. by intros c c' [? _].
    + unfold uniform. destruct (no_letters is_letter t' (fun _ H => H) El') as [_ ->].
      destruct (no_letters is_letter t (fun _ H => H) El) as [_ Ef]. unfold uniform in Hg. rewrite Ef in Hg.
      unfold guid_re in *. by rewrite (pattern_same _ _ _ Hb).
    + unfold hex_lower_re, hex_upper_re.
      destruct (no_letters is_af t') as [-> _]; [intros c; every_char c|done|].
      destruct (no_letters is_AF t') as [-> _]; [intros c; every_char c|done|]. done.
Qed.

(** ** Digits, hex and GUIDs *)

Lemma forallb_Forall (p : ascii -> bool) t : Forall (fun c => p c = true) t <-> forallb p t = true.
Proof. rewrite forallb_forall, Forall_forall. by setoid_rewrite list_elem_of_In. Qed.

Lemma infer_dec t : t <> [] -> Forall (fun c => is_dec c = true) t -> infer t = format SDigits (length t).
Proof.
  intros Hne Hd. unfold infer. rewrite bool_decide_false by done. unfold digits_re.
  rewrite before_eol_plain; [|intros Hin; rewrite Forall_forall in Hd; by apply Hd in Hin].
  rewrite bool_decide_true by done. apply forallb_Forall in Hd. by rewrite Hd.
Qed.

Lemma pattern_has_hyphen t : match_pattern GUID_PATTERN t = true -> "-"%char ∈ t.
Proof.
  unfold GUID_PATTERN. cbn [replicate app].
  do 9 (destruct t as [|? t]; [cbn [match_pattern]; rewrite ?andb_false_r; done|]). cbn [match_pattern].
  intros H. repeat (apply andb_true_iff in H as [? H]).
  match goal with E : Ascii.eqb ?c "-" = true |- _ => apply Ascii.eqb_eq in E; subst end. set_solver.
Qed.

(** A text of hex digits of one case with a letter in front. *)
Lemma infer_hex (p : ascii -> bool) c t : (p = is_af \/ p = is_AF) ->
  p c = true -> Forall (fun c => is_dec c || p c = true) t -> infer (c :: t) = format SHex (S (length t)).
Proof.
  intros Hpq Hc Ht. assert (Forall (fun c => is_dec c || p c = true) (c :: t)) as Hall.
  { constructor; [by rewrite Hc, orb_true_r|done]. }
  assert (forall x, is_dec x || p x = true -> x <> LF /\ x <> "-"%char) as Hex.
  { intros x. destruct Hpq as [-> | ->]; every_char x. }
  rewrite Forall_forall in Hall. assert (before_eol (c :: t) = c :: t) as Eb.
  { apply before_eol_plain. intros Hin. by apply Hall, Hex in Hin as [? _]. }
  assert (is_dec c = false) as Hd.
  { revert Hc. destruct Hpq as [-> | ->]; every_char c. }
  unfold infer. rewrite bool_decide_false by done. unfold digits_re. rewrite Eb.
  replace (forallb is_dec (c :: t)) with false by (cbn; by rewrite Hd). rewrite andb_false_r.
  destruct (guid_re (c :: t)) eqn:Eg.
  { unfold guid_re in Eg. rewrite Eb in Eg. apply pattern_has_hyphen in Eg. by apply Hall, Hex in Eg as [_ ?]. }
  cbn [andb]. enough (hex_lower_re (c :: t) || hex_upper_re (c :: t) = true) as -> by done.
  apply orb_true_iff. unfold hex_lower_re, hex_upper_re. rewrite Eb.
  assert (forallb (fun c => is_dec c || p c) (c :: t) = true) as Hf by (apply forallb_Forall, Forall_forall, Hall).
  destruct Hpq as [-> | ->]; [left|right]; rewrite Hf, andb_true_r; cbn; by rewrite Hc.
Qed.

Lemma upper_dec c : is_dec c = true -> upper_ascii c = c.
Proof. every_char c. Qed.
Lemma upper_af c : is_af c = true -> is_AF (upper_ascii c) = true.
Proof. every_char c. Qed.

(** Lower-case hex digits stay hex digits in either case. *)
Definition hex_class (c : case) : ascii -> bool := match c with Lower => is_af | Upper => is_AF end.

Lemma in_case_hex c t : Forall (fun x => is_dec x || is_af x = true) t ->
  Forall (fun x => is_dec x || hex_class c x = true) (in_case c t).
Proof.
  intros H. destruct c; [done|]. cbn. apply Forall_fmap. eapply Forall_impl; [exact H|]. unfold compose.
  intros x Hx. apply orb_true_iff in Hx as [Hx|Hx]; [by rewrite upper_dec, Hx|by rewrite upper_af, orb_true_r].
Qed.

Lemma digit_chars_hex ds : Forall (fun d => 0 <= d < 16) ds ->
  Forall (fun x => is_dec x || is_af x = true) (digit_char <$> ds).
Proof.
  intros H. apply Forall_fmap. eapply Forall_impl; [exact H|]. unfold compose. intros d Hd.
  pose proof (digit_char_spec d Hd) as Hs. destruct (d <? 10); rewrite Hs; by rewrite ?orb_true_r.
Qed.

Lemma hex_first i : 0 <= i < 6 -> nth (Z.to_nat i) HEX_FIRST "0"%char = digit_char (10 + i).
Proof.
  intros Hi. assert (Forall (fun i => nth (Z.to_nat i) HEX_FIRST "0"%char = digit_char (10 + i)) (seqZ 0 6)) as H
    by (repeat constructor).
  rewrite Forall_forall in H. apply (H i), elem_of_seqZ. lia.
Qed.

Lemma digits_range w x : (1 <= w)%nat ->
  let low := 10 ^ (Z.of_nat w - 1) in 0 < low /\ low <= low + x mod (9 * low) < 10 ^ Z.of_nat w.
Proof.
  intros Hw low. assert (0 < low) as Hl by (apply Z.pow_pos_nonneg; lia). split; [done|].
  assert (10 ^ Z.of_nat w = 10 * low) as ->.
  { subst low. rewrite <- Z.pow_succ_r by lia. f_equal. lia. }
  pose proof (Z.mod_pos_bound x (9 * low) ltac:(lia)). lia.
Qed.

Lemma length_concat_pairs (bs : list Z) : length (concat ((fun b => digit_char <$> pos_digits 16 2 b) <$> bs)) = (2 * length bs)%nat.
Proof. induction bs as [|b bs IH]; [done|]. cbn [fmap list_fmap concat]. rewrite length_app, length_fmap, length_pos_digits, IH. cbn. lia. Qed.

Lemma pairs_hex (bs : list Z) :
  Forall (fun x => is_dec x || is_af x = true) (concat ((fun b => digit_char <$> pos_digits 16 2 b) <$> bs)).
Proof.
  induction bs as [|b bs IH]; [constructor|]. cbn [fmap list_fmap concat].
  apply Forall_app. split; [apply digit_chars_hex, pos_digits_bound; lia|done].
Qed.

Lemma pattern_app p1 p2 t1 t2 : length t1 = length p1 ->
  match_pattern (p1 ++ p2) (t1 ++ t2) = match_pattern p1 t1 && match_pattern p2 t2.
Proof.
  revert t1. induction p1 as [|b p1 IH]; intros [|c t1] Hl; try done. cbn in *. rewrite IH by lia. by rewrite andb_assoc.
Qed.

Lemma pattern_hex n t : length t = n -> forallb is_hex t = true -> match_pattern (replicate n false) t = true.
Proof.
  revert t. induction n as [|n IH]; intros [|c t] Hl Hh; try done. cbn in *. apply andb_true_iff in Hh as [-> ?].
  apply IH; [lia|done].
Qed.

Lemma guid_text_spec c bs (t := in_case c (guid_text bs)) : length bs = 16%nat ->
  match_pattern GUID_PATTERN t = true /\ Forall (fun x => is_dec x || hex_class c x || Ascii.eqb x "-" = true) t.
Proof.
  intros Hl. set (h := concat ((fun b => digit_char <$> pos_digits 16 2 b) <$> bs)).
  assert (length h = 32%nat) as Hh by (subst h; rewrite length_concat_pairs; lia).
  assert (Forall (fun x => is_dec x || is_af x = true) h) as Hx.
  { apply pairs_hex. }
  assert (forall n m, length (take n (drop m h)) = Nat.min n (32 - m)) as Hlen.
  { intros n m. by rewrite length_take, length_drop, Hh. }
  assert (forall u, Forall (fun x => is_dec x || is_af x = true) u -> forallb is_hex (in_case c u) = true) as Hhex.
  { intros u Hu. apply forallb_Forall. eapply Forall_impl; [by apply in_case_hex|]. intros x. unfold hex_class, is_hex.
    destruct c; destruct (is_dec x), (is_af x), (is_AF x); done. }
  assert (forall u v, in_case c (u ++ v) = in_case c u ++ in_case c v) as Happ by (intros; destruct c; [done|apply fmap_app]).
  assert (forall u, length (in_case c u) = length u) as Hlc by (intros; destruct c; [done|apply length_fmap]).
  assert (forall u, in_case c ("-"%char :: u) = "-"%char :: in_case c u) as Hdash by (intros; by destruct c).
  assert (forall n m, Forall (fun x => is_dec x || is_af x = true) (take n (drop m h))) as Hsub.
  { intros n m. by apply Forall_take, Forall_drop. }
  subst t. unfold guid_text. fold h. change (take 8 h) with (take 8 (drop 0 h)). rewrite !Happ, !Hdash, !Happ, !Hdash, !Happ, !Hdash, !Happ, !Hdash.
  split.
  - unfold GUID_PATTERN.
    do 4 (rewrite pattern_app by (rewrite Hlc, Hlen, length_replicate; lia);
      rewrite pattern_hex; [cbn [andb match_pattern]; change (Ascii.eqb "-" "-") with true; cbn [andb]
                           |rewrite Hlc, Hlen; lia|by apply Hhex]).
    apply pattern_hex; [rewrite Hlc, Hlen; lia|by apply Hhex].
  - assert (forall n m, Forall (fun x => is_dec x || hex_class c x || Ascii.eqb x "-" = true) (in_case c (take n (drop m h)))) as Hf.
    { intros n m. eapply Forall_impl; [by apply in_case_hex|]. cbn. intros x ->. done. }
    repeat (apply Forall_app; split; [apply Hf|]; apply Forall_cons; split; [by rewrite orb_true_r|]). apply Hf.
Qed.

Lemma infer_guid c bs : length bs = 16%nat -> infer (in_case c (guid_text bs)) = format SGuid 0.
Proof.
  intros Hl. destruct (guid_text_spec c bs Hl) as [Hp Hf]. set (t := in_case c (guid_text bs)) in *.
  assert (LF ∉ t) as Hlf.
  { intros Hin. rewrite Forall_forall in Hf. apply Hf in Hin. by destruct c. }
  pose proof (pattern_has_hyphen t Hp) as Hh. unfold infer. rewrite bool_decide_false by (by intros ->).
  unfold digits_re, guid_re. rewrite before_eol_plain, Hp by done.
  destruct (forallb is_dec t) eqn:Ed; [apply forallb_Forall in Ed; rewrite Forall_forall in Ed; by apply Ed in Hh|].
  rewrite andb_false_r. enough (uniform t = true) as -> by done. unfold uniform.
  assert (forallb (match c with Lower => is_low | Upper => is_up end) (List.filter is_letter t) = true) as Hu.
  { apply forallb_Forall, Forall_forall. intros x [Hin%list_elem_of_In Hx]%list_elem_of_In%List.filter_In.
    rewrite Forall_forall in Hf. apply Hf in Hin. revert Hin Hx. destruct c; cbn [hex_class]; every_char x. }
  destruct c; rewrite Hu; by rewrite ?orb_true_r.
Qed.

Lemma length_guid_bytes x : length (guid_bytes x) = 16%nat.
Proof. unfold guid_bytes. by rewrite !length_insert, length_pos_digits. Qed.

Lemma render_digits w x c : (1 <= w)%nat -> 0 <= x -> let low := 10 ^ (Z.of_nat w - 1) in
  render (format SDigits w) x c = Ok (Some (digit_char <$> pos_digits 10 w (low + x mod (9 * low)))).
Proof.
  intros Hw Hx low. unfold render. rewrite (proj2 (Z.ltb_ge x 0)) by done. cbn [fm_shape fm_width format].
  destruct (digits_range w x Hw) as [_ Hr]. by rewrite (str_int_pos w) by (done || apply Hr).
Qed.

Lemma hex_parts w x : (1 <= w)%nat -> let unit := 16 ^ (Z.of_nat w - 1) in let v := x mod (6 * unit) in
  0 < unit /\ 0 <= v / unit < 6 /\ 0 <= v mod unit < unit /\ v = unit * (v / unit) + v mod unit.
Proof.
  intros Hw unit v. assert (0 < unit) as Hu by (apply Z.pow_pos_nonneg; lia).
  pose proof (Z.mod_pos_bound x (6 * unit) ltac:(lia)) as Hv. fold v in Hv.
  split_and!; try done; [by apply Z.div_pos; lia|apply Z.div_lt_upper_bound; lia|by apply Z.mod_pos_bound..|].
  apply Z.div_mod. lia.
Qed.

Lemma render_hex w x c : (1 <= w)%nat -> 0 <= x -> let unit := 16 ^ (Z.of_nat w - 1) in let v := x mod (6 * unit) in
  render (format SHex w) x c
  = Ok (Some (in_case c (digit_char <$> (10 + v / unit) :: pos_digits 16 (w - 1) (v mod unit)))).
Proof.
  intros Hw Hx unit v. unfold render. rewrite (proj2 (Z.ltb_ge x 0)) by done. cbn [fm_shape fm_width format].
  fold unit. fold v. rewrite hex_first by (by apply hex_parts). done.
Qed.

(** A number is rendered in every format the builder uses, and the format is
    read back. *)
Lemma render_reads_back f x c : readable f -> 0 <= x -> exists t, render f x c = Ok (Some t) /\ infer t = f.
Proof.
  intros Hf Hx. destruct Hf as [w Hw|w Hw| |t Ht].
  - rewrite render_digits by done. eexists. split; [reflexivity|]. rewrite infer_dec.
    + by rewrite length_fmap, length_pos_digits.
    + destruct w; [lia|]. cbn. rewrite fmap_app. by destruct (digit_char <$> _).
    + apply Forall_fmap. eapply Forall_impl; [apply (pos_digits_bound 10); lia|]. unfold compose. intros d Hd.
      pose proof (digit_char_spec d ltac:(lia)) as Hs. by rewrite (proj2 (Z.ltb_lt d 10)) in Hs by lia.
  - rewrite render_hex by done. eexists. split; [reflexivity|].
    set (unit := 16 ^ (Z.of_nat w - 1)). set (v := x mod (6 * unit)).
    destruct (hex_parts w x Hw) as (_ & Hv & _). fold unit v in Hv.
    assert (Forall (fun d => 0 <= d < 16) ((10 + v / unit) :: pos_digits 16 (w - 1) (v mod unit))) as Hds.
    { constructor; [lia|]. apply pos_digits_bound. lia. }
    pose proof (in_case_hex c _ (digit_chars_hex _ Hds)) as Hall.
    assert (hex_class c (match c with Lower => digit_char (10 + v / unit) | Upper => upper_ascii (digit_char (10 + v / unit)) end) = true) as Hfirst.
    { pose proof (digit_char_spec (10 + v / unit) ltac:(lia)) as Hs. rewrite (proj2 (Z.ltb_ge _ 10)) in Hs by lia.
      destruct c; [done|by apply upper_af]. }
    assert (S (length (pos_digits 16 (w - 1) (v mod unit))) = w) as Hlen by (rewrite length_pos_digits; lia).
    destruct c; cbn [in_case fmap list_fmap] in Hall |- *; apply Forall_cons in Hall as [_ Hall].
    + rewrite (infer_hex is_af) by auto. by rewrite length_fmap, Hlen.
    + rewrite (infer_hex is_AF) by auto. by rewrite !length_fmap, Hlen.
  - unfold render. rewrite (proj2 (Z.ltb_ge x 0)) by done. cbn [fm_shape format].
    eexists. split; [reflexivity|]. apply infer_guid, length_guid_bytes.
  - unfold render. rewrite (proj2 (Z.ltb_ge x 0)) by done. rewrite Ht. eexists. split; [reflexivity|].
    apply mixed_stable; [done|]. destruct (infer_mixed t Ht) as (_ & _ & _ & _ & _ & E). rewrite E at 1 3. cbn [fm_template].
    rewrite E. cbn [fm_template]. apply fill_fits; [apply template_sized|]. apply picks_bound, radices_pos, template_sized.
Qed.

(** ** Rendering is injective *)

Lemma picks_rev_inj rs x y : Forall (fun r => 0 < r) rs -> 0 <= x < foldr Z.mul 1 rs -> 0 <= y < foldr Z.mul 1 rs ->
  picks_rev rs x = picks_rev rs y -> x = y.
Proof.
  intros H. revert x y. induction H as [|r rs Hr Hrs IH]; intros x y Hx Hy E; cbn in *; [lia|].
  injection E as E1 E2. apply IH in E2.
  - rewrite (Z.div_mod x r), (Z.div_mod y r) by lia. lia.
  - split; [apply Z.div_pos; lia|apply Z.div_lt_upper_bound; lia].
  - split; [apply Z.div_pos; lia|apply Z.div_lt_upper_bound; lia].
Qed.

Lemma product_reverse rs : foldr Z.mul 1 (reverse rs) = foldr Z.mul 1 rs.
Proof.
  induction rs as [|r rs IH]; [done|]. rewrite reverse_cons, foldr_app. cbn. rewrite <- IH, Z.mul_1_r.
  clear IH. induction (reverse rs) as [|x xs IH']; cbn; [lia|]. rewrite IH'. lia.
Qed.

Lemma picks_inj rs x y : Forall (fun r => 0 < r) rs -> 0 <= x < foldr Z.mul 1 rs -> 0 <= y < foldr Z.mul 1 rs ->
  picks rs x = picks rs y -> x = y.
Proof.
  intros H Hx Hy E. apply (f_equal reverse) in E. unfold picks in E. rewrite !reverse_involutive in E.
  apply picks_rev_inj in E; [done|by apply Forall_reverse|by rewrite product_reverse..].
Qed.

Definition distinct_letters (e : entry) : Prop := match e with Verbatim _ => True | Varies _ a => NoDup a end.

Lemma alphabets_nodup : NoDup DEC /\ NoDup LOWER_LETTERS /\ NoDup UPPER_LETTERS /\ NoDup MIXED_FIRST_LETTER /\
  NoDup (upper_ascii <$> MIXED_FIRST_LETTER).
Proof. split_and!; (eapply bool_decide_unpack; vm_compute; exact I). Qed.

Lemma template_distinct used t : Forall distinct_letters (template_of used t).
Proof.
  destruct alphabets_nodup as (H1 & H2 & H3 & H4 & H5). revert used.
  induction t as [|c t IH]; intros used; [constructor|]. rewrite template_cons. constructor; [|apply IH].
  unfold entry_of_char. destruct (is_dec c); [done|]. destruct (is_low c); [by destruct used|].
  destruct (is_up c); [by destruct used|done].
Qed.

Lemma fill_inj t ps qs : Forall sized t -> Forall distinct_letters t ->
  Forall2 (fun p r => 0 <= p < r) ps (radices t) -> Forall2 (fun p r => 0 <= p < r) qs (radices t) ->
  fill_template t ps = fill_template t qs -> ps = qs.
Proof.
  intros H. revert ps qs. induction H as [|[c|r a] t He _ IH]; intros ps qs Hd Hp Hq E; cbn in *.
  - by inversion Hp; inversion Hq.
  - injection E as E. apply Forall_cons in Hd as [_ Hd]. by apply IH.
  - apply Forall_cons in Hd as [Ha Hd]. cbn in Ha.
    inversion Hp as [|p ? ps' ? Hbp Hps]; subst. inversion Hq as [|q ? qs' ? Hbq Hqs]; subst.
    injection E as E1 E2. destruct He as [-> _]. f_equal; [|by apply IH].
    assert (Z.to_nat p = Z.to_nat q) as Epq; [|lia].
    apply (proj1 (List.NoDup_nth a "0"%char)); [by apply NoDup_ListNoDup|lia|lia|done].
Qed.

Lemma lower_in_case c t : Forall (fun x => is_dec x || is_af x = true) t -> lower_ascii <$> in_case c t = t.
Proof.
  intros H. destruct c; cbn.
  - induction H as [|x t Hx _ IH]; [done|]. cbn. rewrite IH. f_equal. revert Hx. every_char x.
  - rewrite <- list_fmap_compose. induction H as [|x t Hx _ IH]; [done|]. cbn. rewrite IH. f_equal.
    unfold compose. revert Hx. every_char x.
Qed.

Lemma render_inj f x y c c' : readable f -> fm_shape f <> SGuid -> 0 <= x < space f -> 0 <= y < space f ->
  render f x c = render f y c' -> x = y.
Proof.
  intros Hf Hs Hx Hy. destruct Hf as [w Hw|w Hw| |t Ht]; [..|]; [| |done|].
  - rewrite !render_digits by lia. cbn in Hx, Hy. set (low := 10 ^ (Z.of_nat w - 1)) in *. intros [= E].
    destruct (digits_range w x Hw) as [Hl Hrx]. destruct (digits_range w y Hw) as [_ Hry]. fold low in Hl, Hrx, Hry.
    apply digits_fmap_inj in E; [|eapply Forall_impl; [apply (pos_digits_bound 10); lia|]; cbn; intros; lia..].
    apply pos_digits_inj in E; [|lia..]. rewrite !Z.mod_small in E by lia. lia.
  - rewrite !render_hex by lia. cbn in Hx, Hy. set (unit := 16 ^ (Z.of_nat w - 1)) in *.
    destruct (hex_parts w x Hw) as (Hu & Hqx & Hrx & Ex). destruct (hex_parts w y Hw) as (_ & Hqy & Hry & Ey).
    fold unit in Hu, Hqx, Hrx, Ex, Hqy, Hry, Ey. rewrite !(Z.mod_small _ (6 * unit)) in * by lia.
    assert (forall z, 0 <= z / unit < 6 ->
      Forall (fun d => 0 <= d < 16) ((10 + z / unit) :: pos_digits 16 (w - 1) (z mod unit))) as Hd.
    { intros z Hz. constructor; [lia|]. apply pos_digits_bound. lia. }
    intros E%(f_equal (fun r => match r with Ok (Some t) => lower_ascii <$> t | _ => [] end)). cbn beta iota in E.
    rewrite !lower_in_case in E by (apply digit_chars_hex; by apply Hd).
    apply digits_fmap_inj in E; [|by apply Hd..]. injection E as E1 E2.
    assert (unit = 16 ^ Z.of_nat (w - 1)) as Eu by (subst unit; f_equal; lia).
    apply pos_digits_inj in E2; [|lia|by rewrite <- Eu..]. assert (x / unit = y / unit) as E3 by lia.
    by rewrite Ex, Ey, E2, E3.
  - destruct (infer_mixed t Ht) as (_ & _ & _ & _ & _ & E). rewrite E in Hx, Hy |- *. unfold space, render in *.
    cbn [fm_shape fm_template] in *. rewrite !(proj2 (Z.ltb_ge _ 0)) by lia. rewrite !Z.mod_small by done.
    intros [= E']. pose proof (radices_pos _ (template_sized false t)) as Hr.
    apply fill_inj in E'; [by apply picks_inj in E'|apply template_sized|apply template_distinct|by apply picks_bound..].
Qed.
End Stable.

(** the format table separates identities.  A non-negative number is rendered in
    every format the builder uses, and the text is read back as exactly that
    format; so two renderings that are equal are in the same format, and, but
    for the GUID shape, of the same number of the format's space, whatever the
    cases asked for. *)
Theorem renderings_identify f g x y c c' : readable f -> readable g -> 0 <= x -> 0 <= y ->
  (exists t, render f x c = Ok (Some t) /\ infer t = f) /\
  (render f x c = render g y c' ->
     f = g /\ (fm_shape f <> SGuid -> x < space f -> y < space g -> x = y)).
Proof.
  intros Hf Hg Hx Hy. split; [by apply render_reads_back|]. intros E.
  destruct (render_reads_back f x c Hf Hx) as (t & Et & <-). destruct (render_reads_back g y c' Hg Hy) as (u & Eu & <-).
  rewrite Et, Eu in E. injection E as <-. split; [done|]. intros Hs Hxs Hys.
  eapply (render_inj (infer t) x y c c'); [done|done|lia|lia|]. by rewrite Et, Eu.
Qed.

Lemma renderings_identify_witness :
  let f := infer (chars "user-77") in
  (exists t, render f 41 Lower = Ok (Some t) /\ infer t = f) /\
  (render f 41 Lower = render f 42 Lower -> f = f /\ (fm_shape f <> SGuid -> 41 < space f -> 42 < space f -> 41 = 42)).
Proof.
  apply renderings_identify; [| |lia|lia]; apply infer_readable; vm_compute; discriminate.
Defined.

(** The GUID shape is not injective on its space: the version and variant bits
    overwrite six bits of the number. *)
Example guid_loses_bits :
  render (format SGuid 0) 0 Lower = render (format SGuid 0) (2 ^ 62) Lower /\ 2 ^ 62 < space (format SGuid 0).
Proof. split; [vm_compute; reflexivity|reflexivity]. Qed.
