(* ===== verification/Rotation.v ===== *)
(** * Stand-ins and rotated identities (server/packbuilder/pseudonym.py)

    The stand-in of a value is its keyed hash rendered in the value's own format.
    A rotated identity is a counter (pass, worker slot and position in the
    sample), spread over the space of the format by a permutation; an aligned one
    is a hash of the stand-in and a time window.  Texts are ASCII, so Unicode
    normalisation leaves them alone; the keyed hash is an argument.

    The theorems: a stand-in or a rotated identity keeps the format of its text;
    the permutation is one, and its cycle walk ends; and two rotated identities
    are equal only for the same pass, slot and position. *)

From S2P Require Import Prelude.
From S2P Require Import PyFloat.
From S2P Require Import PyValue.
From S2P Require Import PackYaml.
From S2P Require Import Formats.
From Stdlib Require Import QArith Ascii.
Open Scope Z_scope.

Definition MASK64 : Z := 2 ^ 64 - 1.

(** FNV-1a over the bytes. *)
Definition fnv1a64 (t : text) : Z :=
  foldl (fun h c => Z.land (Z.lxor h (Z.of_N (N_of_ascii c)) * 0x100000001B3) MASK64) 0xCBF29CE484222325 t.

(** splitmix64's finaliser. *)
Definition mix64 (x : Z) : Z :=
  let x := Z.land x MASK64 in
  let x := Z.land (Z.lxor x (Z.shiftr x 30) * 0xBF58476D1CE4E5B9) MASK64 in
  let x := Z.land (Z.lxor x (Z.shiftr x 27) * 0x94D049BB133111EB) MASK64 in
  Z.lxor x (Z.shiftr x 31).

Definition window_index (epoch period : Z) : Z := Z.max 0 epoch / Z.max 1 period.

Definition aligned_ident (t : text) (window size : Z) : Z :=
  let seeded := Z.lxor (fnv1a64 t) (Z.land (window * 0x9E3779B97F4A7C15) MASK64) in
  let lo := mix64 seeded in
  let hi := mix64 (Z.lxor lo 0xA5A5A5A5A5A5A5A5) in
  Z.lor (Z.shiftl hi 64) lo mod Z.max 1 size.

(** ** The permutation *)

(** [int.bit_length] of a non-negative number *)
Definition bit_length (n : Z) : Z := if n =? 0 then 0 else Z.log2 n + 1.

Definition feistel_round (mask : Z) (lr : Z * Z) (rnd : Z) : Z * Z :=
  let '(l, r) := lr in
  let f := Z.land (mix64 (Z.land (r + rnd * 0x9E3779B9) MASK64)) mask in
  (r, Z.lxor l f).

Definition feistel (half v : Z) : Z :=
  let mask := Z.shiftl 1 half - 1 in
  let '(l, r) := foldl (feistel_round mask) (Z.land (Z.shiftr v half) mask, Z.land v mask) [0; 1; 2; 3] in
  Z.lor (Z.shiftl l half) r.

(** The cycle walk back into range; [None] when the rounds run out. *)
Fixpoint walk (rounds : nat) (half size v : Z) : option Z :=
  match rounds with
  | O => None
  | S rounds => let v := feistel half v in if v <? size then Some v else walk rounds half size v
  end.

Definition half_of (size : Z) : Z := (bit_length (size - 1) + 1) / 2.

Definition permute (x size : Z) : Z :=
  if size <=? 1 then 0 else default (x mod size) (walk 64 (half_of size) size (x mod size)).

Definition rotate_ident (pass workers slot distinct k : Z) : Z :=
  (pass * Z.max 1 workers + slot) * Z.max 1 distinct + k.

(** ** Stand-ins *)

(** The format a text is rendered in: the widened one or its own. *)
Definition format_for (widen : option Format) (span : text) : Format := default (infer span) widen.

Definition stand_in_of (widen : option Format) (span : text) (ident : Format -> Z) : result (option text) :=
  if bool_decide (span = []) then Ok None
  else
    let f := format_for widen span in
    if bool_decide (fm_shape f = SNone) then Ok None
    else render f (ident f) (case_class span).

(** [digest]: HMAC-SHA-256 under the subkey, as a number. *)
Definition pseudonym (digest : text -> Z) (span : text) (widen : option Format) : result (option text) :=
  stand_in_of widen span (fun _ => digest span).

Definition pass_rotation (span : text) (pass workers slot distinct k : Z) (widen : option Format)
    : result (option text) :=
  stand_in_of widen span (fun f => permute (rotate_ident pass workers slot distinct k) (space f)).

Definition aligned_rotation (span : text) (window : Z) (widen : option Format) : result (option text) :=
  stand_in_of widen span (fun f => aligned_ident span window (space f)).

Example permute_small : (fun x => permute x 9) <$> seqZ 0 9 = [4; 0; 3; 7; 1; 5; 6; 8; 2].
Proof. vm_compute. reflexivity. Qed.

(** ** The permutation is one *)

Section Permute.
Context (half : Z) (Hhalf : 0 <= half).

Abbreviation M := (2 ^ half).

Lemma M_pos : 0 < M.
Proof. apply Z.pow_pos_nonneg; lia. Qed.

Lemma mask_eq : Z.shiftl 1 half - 1 = Z.ones half.
Proof. rewrite Z.shiftl_1_l, Z.ones_equiv. lia. Qed.

Lemma land_mask v : Z.land v (Z.shiftl 1 half - 1) = v mod M.
Proof. by rewrite mask_eq, Z.land_ones by lia. Qed.

Lemma lxor_bound a b : 0 <= a < M -> 0 <= b < M -> 0 <= Z.lxor a b < M.
Proof.
  intros Ha Hb. assert (0 <= Z.lxor a b) as H by (apply Z.lxor_nonneg; lia). split; [done|].
  destruct (Z.eq_dec (Z.lxor a b) 0) as [->|Hne]; [apply M_pos|].
  apply Z.log2_lt_pow2; [lia|]. pose proof (Z.log2_lxor a b ltac:(lia) ltac:(lia)).
  assert (forall z, 0 <= z < M -> z = 0 \/ Z.log2 z < half) as Hl.
  { intros z Hz. destruct (Z.eq_dec z 0); [by left|right]. apply Z.log2_lt_pow2; lia. }
  assert (0 < half).
  { destruct (Z.eq_dec half 0) as [E|]; [|lia]. rewrite E in *. change (2 ^ 0) with 1 in *.
    assert (a = 0) as -> by lia. assert (b = 0) as -> by lia. done. }
  destruct (Hl a Ha) as [-> | ?], (Hl b Hb) as [-> | ?]; try change (Z.log2 0) with 0 in *; lia.
Qed.

Definition halves (lr : Z * Z) : Prop := 0 <= lr.1 < M /\ 0 <= lr.2 < M.

Lemma round_halves lr rnd : halves lr -> halves (feistel_round (Z.shiftl 1 half - 1) lr rnd).
Proof.
  destruct lr as [l r]. intros [Hl Hr]. split; cbn in *; [done|]. apply lxor_bound; [done|].
  rewrite land_mask. apply Z.mod_pos_bound, M_pos.
Qed.

Lemma round_inj lr lr' rnd :
  feistel_round (Z.shiftl 1 half - 1) lr rnd = feistel_round (Z.shiftl 1 half - 1) lr' rnd -> lr = lr'.
Proof.
  destruct lr as [l r], lr' as [l' r']. cbn. intros [= <- E]. f_equal.
  apply (f_equal (fun z => Z.lxor z (Z.land (mix64 (Z.land (r + rnd * 0x9E3779B9) MASK64)) (Z.shiftl 1 half - 1)))) in E.
  by rewrite !Z.lxor_assoc, !Z.lxor_nilpotent, !Z.lxor_0_r in E.
Qed.

Lemma rounds_halves rs lr : halves lr -> halves (foldl (feistel_round (Z.shiftl 1 half - 1)) lr rs).
Proof. revert lr. induction rs as [|rnd rs IH]; intros lr H; cbn; [done|]. by apply IH, round_halves. Qed.

Lemma rounds_inj rs lr lr' : foldl (feistel_round (Z.shiftl 1 half - 1)) lr rs
  = foldl (feistel_round (Z.shiftl 1 half - 1)) lr' rs -> lr = lr'.
Proof. revert lr lr'. induction rs as [|rnd rs IH]; intros lr lr' E; cbn in *; [done|]. by apply IH, round_inj in E. Qed.

Lemma join_eq l r : 0 <= r < M -> Z.lor (Z.shiftl l half) r = l * M + r.
Proof.
  intros Hr. rewrite <- Z.shiftl_mul_pow2 by lia. symmetry. apply Z.add_nocarry_lor.
  apply Z.bits_inj'. intros n Hn. rewrite Z.land_spec, Z.bits_0.
  destruct (Z.ltb_spec n half); [by rewrite Z.shiftl_spec_low|].
  destruct (Z.eq_dec r 0) as [->|]; [by rewrite Z.bits_0, andb_false_r|].
  rewrite (Z.bits_above_log2 r), andb_false_r; [done|lia|].
  assert (Z.log2 r < half) by (apply Z.log2_lt_pow2; lia). lia.
Qed.

Definition split_halves (v : Z) : Z * Z :=
  (Z.land (Z.shiftr v half) (Z.shiftl 1 half - 1), Z.land v (Z.shiftl 1 half - 1)).

Lemma split_halves_ok v : halves (split_halves v).
Proof. unfold split_halves, halves. cbn. rewrite !land_mask. split; apply Z.mod_pos_bound, M_pos. Qed.

Lemma split_inj v v' : 0 <= v < M * M -> 0 <= v' < M * M -> split_halves v = split_halves v' -> v = v'.
Proof.
  intros Hv Hv'. unfold split_halves. rewrite !land_mask, !Z.shiftr_div_pow2 by lia.
  pose proof M_pos. assert (forall z, 0 <= z < M * M -> 0 <= z / M < M) as Hd.
  { intros z Hz. split; [apply Z.div_pos; lia|apply Z.div_lt_upper_bound; lia]. }
  intros [= E1 E2]. rewrite !Z.mod_small in E1 by (by apply Hd).
  rewrite (Z.div_mod v M), (Z.div_mod v' M) by lia. lia.
Qed.

Lemma feistel_range v : 0 <= feistel half v < M * M.
Proof.
  unfold feistel. fold (split_halves v). pose proof (rounds_halves [0; 1; 2; 3] _ (split_halves_ok v)) as [Hl Hr].
  destruct (foldl _ _ _) as [l r]. cbn in Hl, Hr. rewrite join_eq by done. pose proof M_pos. nia.
Qed.

Lemma feistel_inj v v' : 0 <= v < M * M -> 0 <= v' < M * M -> feistel half v = feistel half v' -> v = v'.
Proof.
  intros Hv Hv'. unfold feistel. fold (split_halves v) (split_halves v').
  pose proof (rounds_halves [0; 1; 2; 3] _ (split_halves_ok v)) as [Hl Hr].
  pose proof (rounds_halves [0; 1; 2; 3] _ (split_halves_ok v')) as [Hl' Hr'].
  destruct (foldl _ (split_halves v) _) as [l r] eqn:E. destruct (foldl _ (split_halves v') _) as [l' r'] eqn:E'.
  cbn in Hl, Hr, Hl', Hr'. rewrite !join_eq by done. intros Ej. pose proof M_pos.
  assert (l = l') as <-.
  { apply (f_equal (fun z => z / M)) in Ej. by rewrite !Z.div_add_l, !Z.div_small, !Z.add_0_r in Ej by lia. }
  assert (r = r') as <- by lia. rewrite <- E' in E. by apply rounds_inj, split_inj in E.
Qed.

(** ** The cycle walk *)

Fixpoint steps (n : nat) (v : Z) : Z := match n with O => v | S n => steps n (feistel half v) end.

Lemma steps_range n v : 0 <= v < M * M -> 0 <= steps n v < M * M.
Proof. revert v. induction n as [|n IH]; intros v Hv; cbn; [done|]. apply IH, feistel_range. Qed.

Lemma steps_inj n v v' : 0 <= v < M * M -> 0 <= v' < M * M -> steps n v = steps n v' -> v = v'.
Proof.
  revert v v'. induction n as [|n IH]; intros v v' Hv Hv' E; cbn in *; [done|].
  apply IH in E; [|apply feistel_range..]. by apply feistel_inj.
Qed.

Lemma steps_add n m v : steps (n + m) v = steps m (steps n v).
Proof. revert v. induction n as [|n IH]; intros v; cbn; [done|]. apply IH. Qed.

Lemma walk_spec rounds size v z : walk rounds half size v = Some z ->
  exists n, (1 <= n <= rounds)%nat /\ z = steps n v /\ z < size /\
    forall m, (1 <= m < n)%nat -> size <= steps m v.
Proof.
  revert v. induction rounds as [|rounds IH]; intros v; [done|]. cbn [walk].
  destruct (Z.ltb_spec (feistel half v) size) as [Hlt|Hge].
  - intros [= <-]. exists 1%nat. cbn. split_and!; [lia|lia|done|done|]. intros m Hm. lia.
  - intros (n & Hn & -> & Hz & Hm)%IH. exists (S n). split_and!; [lia|lia|done|done|].
    intros m Hm'. destruct m as [|m]; [lia|]. cbn. destruct m as [|m]; [done|]. apply Hm. lia.
Qed.

(** Two walks from inside the range that end at the same point start at the
    same point. *)
Lemma walk_inj rounds size v v' z : 0 <= v < M * M -> 0 <= v' < M * M -> v < size -> v' < size ->
  walk rounds half size v = Some z -> walk rounds half size v' = Some z -> v = v'.
Proof.
  intros Hv Hv' Hs Hs' (n & Hn & E & _ & Hm)%walk_spec (n' & Hn' & E' & _ & Hm')%walk_spec.
  assert (forall a b x y, (1 <= a <= b)%nat -> 0 <= x < M * M -> 0 <= y < M * M -> steps a x = steps b y ->
    x < size -> (forall m, (1 <= m < b)%nat -> size <= steps m y) -> x = y) as Hone.
  { intros a b x y Hab Hx Hy Exy Hxs Hb. replace b with ((b - a) + a)%nat in Exy by lia.
    rewrite steps_add in Exy. apply steps_inj in Exy; [|done|by apply steps_range].
    destruct (Nat.eq_dec (b - a) 0) as [E0|]; [by rewrite E0 in Exy|].
    specialize (Hb (b - a)%nat ltac:(lia)). lia. }
  destruct (Nat.le_ge_cases n n').
  - apply (Hone n n'); [lia|done|done|congruence|done|done].
  - symmetry. apply (Hone n' n); [lia|done|done|congruence|done|done].
Qed.

(** A walk that has not ended has met distinct numbers outside the range. *)
Lemma walk_none rounds size v : walk rounds half size v = None ->
  forall m, (1 <= m <= rounds)%nat -> size <= steps m v.
Proof.
  revert v. induction rounds as [|rounds IH]; intros v; [intros _ m; lia|]. cbn [walk].
  destruct (Z.ltb_spec (feistel half v) size) as [Hlt|Hge]; [done|]. intros H m Hm.
  destruct m as [|m]; [lia|]. cbn. destruct m as [|m]; [done|]. apply (IH _ H). lia.
Qed.

Lemma walk_ends rounds size v : 0 <= v < M * M -> v < size <= M * M -> M * M - size < Z.of_nat rounds ->
  is_Some (walk rounds half size v).
Proof.
  intros Hv Hs Hr. destruct (walk rounds half size v) eqn:E; [done|]. exfalso.
  pose proof (walk_none _ _ _ E) as Hm.
  assert (NoDup ((fun m => steps m v) <$> seq 1 rounds)) as Hnd.
  { apply NoDup_fmap_2_strong; [|apply NoDup_seq]. intros a b Ha%elem_of_seq Hb%elem_of_seq Eab.
    assert (forall a b, (1 <= a < b)%nat -> (b <= rounds)%nat -> steps a v = steps b v -> False) as Hno.
    { clear - Hv Hs Hm Hhalf. destruct Hs as [Hs _]. intros a b Hab Hb Eab. replace b with ((b - a) + a)%nat in Eab by lia.
      rewrite steps_add in Eab. apply steps_inj in Eab; [|done|by apply steps_range].
      specialize (Hm (b - a)%nat ltac:(lia)). lia. }
    destruct (Nat.lt_trichotomy a b) as [Hab|[->|Hab]]; [|done|]; exfalso.
    - apply (Hno a b); [lia|lia|done].
    - apply (Hno b a); [lia|lia|done]. }
  assert ((fun m => steps m v) <$> seq 1 rounds ⊆+ seqZ size (M * M - size)) as Hsub.
  { apply NoDup_submseteq; [done|]. intros z Hz. apply list_elem_of_fmap in Hz as (m & -> & Hin%elem_of_seq).
    apply elem_of_seqZ. pose proof (steps_range m v Hv). specialize (Hm m ltac:(lia)). lia. }
  apply submseteq_length in Hsub. rewrite length_fmap, length_seq, length_seqZ in Hsub. lia.
Qed.
End Permute.

(** The rounds of the walk of a counter: [None] when 64 do not bring it back. *)
Definition settles (x size : Z) : Prop := is_Some (walk 64 (half_of size) size (x mod size)).

Lemma half_of_spec size : 2 <= size -> 0 <= half_of size /\ size <= 2 ^ half_of size * 2 ^ half_of size.
Proof.
  intros Hs. unfold half_of, bit_length. destruct (Z.eqb_spec (size - 1) 0); [lia|].
  pose proof (Z.log2_nonneg (size - 1)). set (b := Z.log2 (size - 1) + 1) in *.
  assert (0 <= (b + 1) / 2) as H0 by (apply Z.div_pos; lia). split; [done|].
  rewrite <- Z.pow_add_r by done. assert (size - 1 < 2 ^ b) as Hb by (subst b; apply Z.log2_spec; lia).
  assert (2 ^ b <= 2 ^ ((b + 1) / 2 + (b + 1) / 2)); [|lia].
  apply Z.pow_le_mono_r; [lia|]. pose proof (Z.div_mod (b + 1) 2 ltac:(lia)).
  pose proof (Z.mod_pos_bound (b + 1) 2 ltac:(lia)). lia.
Qed.

Lemma permute_range x size : 1 <= size -> 0 <= permute x size < size.
Proof.
  intros Hs. unfold permute. destruct (Z.leb_spec size 1); [lia|].
  destruct (half_of_spec size ltac:(lia)) as [H0 _].
  destruct (walk 64 (half_of size) size (x mod size)) as [z|] eqn:E; cbn; [|apply Z.mod_pos_bound; lia].
  apply (walk_spec (half_of size)) in E as (n & Hn & -> & Hz & _). split; [|done].
  destruct n as [|n]; [lia|]. cbn. apply steps_range; [done|]. by apply feistel_range.
Qed.

Lemma permute_inj x y size : 0 <= x < size -> 0 <= y < size -> settles x size -> settles y size ->
  permute x size = permute y size -> x = y.
Proof.
  unfold settles, permute. intros Hx Hy. rewrite !(Z.mod_small _ size) by done.
  destruct (Z.leb_spec size 1); [lia|]. destruct (half_of_spec size ltac:(lia)) as [H0 H1].
  intros [zx Ex] [zy Ey]. rewrite Ex, Ey. cbn. intros ->.
  eapply (walk_inj (half_of size) H0); [..|exact Ex|exact Ey]; lia.
Qed.

(** the spreading of rotation counters loses none.  It maps the numbers below
    the size of a format's space to such numbers; two counters whose cycle walks
    return within the 64 rounds get different numbers; and every walk returns
    when the power of four the walk runs in exceeds the size by less than 64. *)
Theorem permute_is_injective x y size : 0 <= x < size -> 0 <= y < size ->
  0 <= permute x size < size /\
  (settles x size -> settles y size -> permute x size = permute y size -> x = y) /\
  (2 <= size -> 4 ^ half_of size < size + 64 -> settles x size).
Proof.
  intros Hx Hy. split; [apply permute_range; lia|]. split; [by apply permute_inj|]. intros Hs H4.
  destruct (half_of_spec size Hs) as [H0 H1]. unfold settles. rewrite Z.mod_small by done.
  change 4 with (2 * 2) in H4. rewrite Z.pow_mul_l in H4. apply walk_ends; [done|lia|lia|lia].
Qed.

Lemma permute_is_injective_witness :
  0 <= permute 3 60 < 60 /\ (settles 3 60 -> settles 4 60 -> permute 3 60 = permute 4 60 -> 3 = 4) /\
  (2 <= 60 -> 4 ^ half_of 60 < 60 + 64 -> settles 3 60).
Proof. apply (permute_is_injective 3 4 60); lia. Defined.

(** ** Rotated identities *)

Lemma rotate_ident_inj pass workers slot distinct k pass' slot' k' :
  0 <= slot < Z.max 1 workers -> 0 <= slot' < Z.max 1 workers -> 0 <= k < Z.max 1 distinct -> 0 <= k' < Z.max 1 distinct ->
  rotate_ident pass workers slot distinct k = rotate_ident pass' workers slot' distinct k' ->
  pass = pass' /\ slot = slot' /\ k = k'.
Proof.
  unfold rotate_ident. set (w := Z.max 1 workers). set (d := Z.max 1 distinct). intros Hs Hs' Hk Hk' E.
  assert (pass * w + slot = pass' * w + slot') as E1.
  { apply (f_equal (fun z => z / d)) in E. by rewrite !Z.div_add_l, !(Z.div_small _ d), !Z.add_0_r in E by lia. }
  assert (k = k') by (rewrite E1 in E; lia).
  assert (pass = pass') as ->.
  { apply (f_equal (fun z => z / w)) in E1. by rewrite !Z.div_add_l, !(Z.div_small _ w), !Z.add_0_r in E1 by lia. }
  split_and!; [done|lia|done].
Qed.

Definition widening (widen : option Format) : Prop := forall f, widen = Some f -> readable f.

Lemma readable_shape f : readable f -> fm_shape f <> SNone.
Proof. destruct 1 as [| | |t Ht]; [done..|]. by rewrite Ht. Qed.

Lemma space_pos f : readable f -> 1 <= space f.
Proof.
  assert (forall b w, 2 <= b -> (1 <= w)%nat -> 1 <= b ^ (Z.of_nat w - 1)) as Hp.
  { intros b w Hb Hw. assert (0 < b ^ (Z.of_nat w - 1)) by (apply Z.pow_pos_nonneg; lia). lia. }
  destruct 1 as [w Hw|w Hw| |t Ht]; unfold space; cbn [fm_shape fm_width format].
  - specialize (Hp 10 w ltac:(lia) Hw). lia.
  - specialize (Hp 16 w ltac:(lia) Hw). lia.
  - done.
  - rewrite Ht. destruct (infer_mixed t Ht) as (_ & _ & _ & _ & _ & ->). cbn [fm_template].
    pose proof (radices_pos _ (template_sized false t)) as Hr.
    induction Hr as [|r rs Hr _ IH]; cbn [foldr]; [lia|]. nia.
Qed.

Lemma format_for_readable widen span : widening widen -> fm_shape (format_for widen span) <> SNone ->
  readable (format_for widen span).
Proof. destruct widen as [f|]; cbn; [by intros H _; apply H|]. intros _. apply infer_readable. Qed.

Lemma widened_shape widen span : widening widen -> fm_shape (format_for widen span) = SNone ->
  widen = None /\ fm_shape (infer span) = SNone.
Proof.
  intros Hw H. destruct widen as [f|]; [|done]. exfalso. specialize (Hw f eq_refl). cbn in H.
  by apply readable_shape in Hw.
Qed.

(** What every kind of stand-in has: nothing is left out but texts in which
    nothing varies, and the format is kept. *)
Lemma stand_in_spec widen span ident : widening widen -> (forall f, readable f -> 0 <= ident f) ->
  exists out, stand_in_of widen span ident = Ok out /\
    match out with
    | Some t => infer t = format_for widen span /\ readable (format_for widen span)
    | None => span = [] \/ (widen = None /\ fm_shape (infer span) = SNone)
    end.
Proof.
  intros Hw Hi. unfold stand_in_of. case_bool_decide as Hs; [by exists None; auto|].
  case_bool_decide as Hf; [exists None; split; [done|right; by apply widened_shape]|].
  pose proof (format_for_readable widen span Hw Hf) as Hr.
  destruct (render_reads_back (format_for widen span) (ident (format_for widen span)) (case_class span) Hr (Hi _ Hr))
    as (t & E & Ht). exists (Some t). by rewrite E.
Qed.

Lemma aligned_range t window size : 1 <= size -> 0 <= aligned_ident t window size < size.
Proof. intros Hs. unfold aligned_ident. rewrite Z.max_r by lia. apply Z.mod_pos_bound. lia. Qed.

(** a stand-in keeps the format of the text it stands for.  When a text has a
    character that varies, or a format was chosen for its field, the keyed
    stand-in, the identity of any pass and slot and the identity of any window
    exist, and each is read back as the format of the text (or the chosen one). *)
Theorem stand_ins_keep_format digest widen span pass workers slot distinct k window :
  (forall t, 0 <= digest t) -> widening widen -> span <> [] -> fm_shape (format_for widen span) <> SNone ->
  exists t1 t2 t3,
    pseudonym digest span widen = Ok (Some t1) /\
    pass_rotation span pass workers slot distinct k widen = Ok (Some t2) /\
    aligned_rotation span window widen = Ok (Some t3) /\
    Forall (fun t => infer t = format_for widen span) [t1; t2; t3].
Proof.
  intros Hd Hw Hne Hs.
  assert (forall ident, (forall f, readable f -> 0 <= ident f) ->
    exists t, stand_in_of widen span ident = Ok (Some t) /\ infer t = format_for widen span) as Hone.
  { intros ident Hi. destruct (stand_in_spec widen span ident Hw Hi) as ([t|] & E & H).
    - exists t. split; [done|apply H].
    - destruct H as [H|[-> H]]; done. }
  destruct (Hone (fun _ => digest span)) as (t1 & E1 & H1); [by intros; apply Hd|].
  destruct (Hone (fun f => permute (rotate_ident pass workers slot distinct k) (space f))) as (t2 & E2 & H2).
  { intros f Hf. apply permute_range. by apply space_pos. }
  destruct (Hone (fun f => aligned_ident span window (space f))) as (t3 & E3 & H3).
  { intros f Hf. apply aligned_range. by apply space_pos. }
  exists t1, t2, t3. by repeat constructor.
Qed.

Lemma fnv1a64_nonneg t : 0 <= fnv1a64 t.
Proof.
  unfold fnv1a64. generalize (eq_refl : (0 <=? 0xCBF29CE484222325) = true).
  generalize 0xCBF29CE484222325 as h. induction t as [|c t IH]; intros h Hh; cbn [foldl]; [by apply Z.leb_le|].
  apply IH, Z.leb_le, Z.land_nonneg. right. done.
Qed.

Lemma stand_ins_keep_format_witness :
  exists t1 t2 t3,
    pseudonym fnv1a64 (chars "client-0042") None = Ok (Some t1) /\
    pass_rotation (chars "client-0042") 5 3 1 7 2 None = Ok (Some t2) /\
    aligned_rotation (chars "client-0042") (window_index 1700000000 60) None = Ok (Some t3) /\
    Forall (fun t => infer t = format_for None (chars "client-0042")) [t1; t2; t3].
Proof.
  apply stand_ins_keep_format; [|done|done|vm_compute; discriminate].
  apply fnv1a64_nonneg.
Defined.

(** The rotation of two texts of a stanza. *)
Definition emits (span : text) (widen : option Format) (pass workers slot distinct k : Z) (t : text) : Prop :=
  pass_rotation span pass workers slot distinct k widen = Ok (Some t).

(** no two workers, passes or values are given the same rotated identity.  When
    two emissions of a fleet are equal, their values are in the same format;
    and when the counters fit in the space of the format (which is not the GUID
    shape) and their walks return, the pass, the worker's slot and the position
    of the value in its class are the same. *)
Theorem rotations_distinct span span' widen widen' workers distinct pass slot k pass' slot' k' t
    (f := format_for widen span) (i := rotate_ident pass workers slot distinct k)
    (i' := rotate_ident pass' workers slot' distinct k') :
  widening widen -> widening widen' ->
  emits span widen pass workers slot distinct k t -> emits span' widen' pass' workers slot' distinct k' t ->
  f = format_for widen' span' /\
  (fm_shape f <> SGuid -> 0 <= slot < Z.max 1 workers -> 0 <= slot' < Z.max 1 workers ->
   0 <= k < Z.max 1 distinct -> 0 <= k' < Z.max 1 distinct -> 0 <= i < space f -> 0 <= i' < space f ->
   settles i (space f) -> settles i' (space f) ->
   pass = pass' /\ slot = slot' /\ k = k').
Proof.
  intros Hw Hw' E E'. unfold emits, pass_rotation in E, E'.
  fold i in E. fold i' in E'.
  set (ident := fun f => permute i (space f)) in E. set (ident' := fun f => permute i' (space f)) in E'.
  assert (forall j f, readable f -> 0 <= permute j (space f)) as Hnn.
  { intros j g Hg. apply permute_range. by apply space_pos. }
  destruct (stand_in_spec widen span ident Hw (Hnn i)) as (o & Eo & Ho). rewrite E in Eo. injection Eo as <-.
  destruct (stand_in_spec widen' span' ident' Hw' (Hnn i')) as (o & Eo & Ho'). rewrite E' in Eo. injection Eo as <-.
  destruct Ho as [Hf Hr]. destruct Ho' as [Hf' _]. fold f in Hf, Hr.
  assert (f = format_for widen' span') as Eff by congruence. split; [done|].
  intros Hg Hs Hs' Hk Hk' Hi Hi' Hset Hset'.
  pose proof (readable_shape f Hr) as Hn.
  assert (render f (permute i (space f)) (case_class span) = render f (permute i' (space f)) (case_class span')) as Er.
  { unfold stand_in_of in E, E'.
    destruct (bool_decide (span = [])); [discriminate E|]. destruct (bool_decide (span' = [])); [discriminate E'|].
    fold f in E. rewrite <- Eff in E'. rewrite (bool_decide_false _ Hn) in E, E'.
    change (render f (permute i (space f)) (case_class span) = Ok (Some t)) in E.
    change (render f (permute i' (space f)) (case_class span') = Ok (Some t)) in E'. by rewrite E, E'. }
  pose proof (space_pos f Hr) as Hsp.
  pose proof (render_inj f _ _ _ _ Hr Hg (permute_range i _ Hsp) (permute_range i' _ Hsp) Er) as Ep.
  exact (rotate_ident_inj _ _ _ _ _ _ _ _ Hs Hs' Hk Hk' (permute_inj i i' (space f) Hi Hi' Hset Hset' Ep)).
Qed.

Lemma rotations_distinct_witness :
  exists t, emits (chars "4711") None 2 3 1 5 4 t /\ 2 = 2 /\ 1 = 1 /\ 4 = 4.
Proof.
  exists (chars "1813"). split; [vm_compute; reflexivity|].
  destruct (rotations_distinct (chars "4711") (chars "4711") None None 3 5 2 1 4 2 1 4 (chars "1813")) as [_ H].
  - intros f [=].
  - intros f [=].
  - vm_compute. reflexivity.
  - vm_compute. reflexivity.
  - apply H; [vm_compute; discriminate|lia|lia|lia|lia|vm_compute; split; (discriminate || reflexivity)..| |];
      unfold settles; eexists; vm_compute; reflexivity.
Defined.

(** A walk that does not come back within 64 steps falls back to the counter
    itself, which another counter may reach: over the space of a letter and nine
    digits, two counters are given the same identity. *)
Example permute_merges_counters :
  let size := space (infer (chars "u123456789")) in
  878695141 < size /\ 11069131128 < size /\ permute 878695141 size = permute 11069131128 size.
Proof. vm_compute. by split_and!. Qed.
