(* ===== verification/Pseudonym.v ===== *)
(** * Pseudonymising a sample (server/packbuilder/pseudonym.py: the build-time pass)

    Every span a pseudonym field matches is replaced by its stand-in, and the pass
    refuses to merge two values, to rewrite overlapping spans, or to break a JSON
    event.  A field's compiled pattern is the function from an event to the spans
    of its matches; the keyed hash and the JSON parser are arguments.  The
    figures of the report (distinct values, collision odds) are left out, and
    what the code memoises is computed.

    The theorems: equal stand-ins stand for equal values, across all fields and
    events; and the ranges the report gives are those of the stand-ins in the
    rewritten events. *)

From S2P Require Import Prelude.
From S2P Require Import PyFloat.
From S2P Require Import PyValue.
From S2P Require Import PackYaml.
From S2P Require Import Formats.
From S2P Require Import Rotation.
From stdpp Require Import sorting.
From Stdlib Require Import QArith Ascii.
Open Scope Z_scope.

(** [text[s:e]] for [s <= e] *)
Definition slice (s e : nat) (t : text) : text := take (e - s) (drop s t).

(** One match: the span of the field, or a capture group that took no part. *)
Inductive span_match : Type := NoGroup | Span (s e : nat).

Record field : Type := mkField {
  fd_name : string;
  fd_widen : option (shape * option Z);      (* replacement.widen *)
  fd_find : text -> list span_match;         (* pattern.finditer *)
}.

(** A field with the format it is widened to. *)
Abbreviation compiled := (field * option Format)%type.

Definition compile (f : field) : result compiled :=
  match fd_widen f with
  | None => Ok (f, None)
  | Some (s, n) => w ← widen_format s n; Ok (f, Some w)
  end.

Record edit : Type := mkEdit { ed_start : nat; ed_end : nat; ed_text : text }.

(** What the pass keeps of the values it met. *)
Record ledger : Type := mkLedger {
  lg_by_output : gmap (nat * text) text;     (* (shape, stand-in) to its original *)
  lg_mapping : gmap text text;
  lg_origin : gmap text string;
  lg_warnings : list (string * text);        (* field and value left as they are *)
}.

Definition new_ledger : ledger := mkLedger ∅ ∅ ∅ [].

Definition shape_id (s : shape) : nat :=
  match s with SDigits => 0 | SHex => 1 | SGuid => 2 | SMixed => 3 | SNone => 4 end.

Record report : Type := mkReport {
  rp_events : list text;
  rp_rewritten : list (list (nat * nat));    (* per event, [] when it was not rewritten *)
  rp_ledger : ledger;
}.

Section Pass.
Context (digest : text -> Z) (json_parses : text -> bool).

(** One match of a field in an event. *)
Definition note_match (c : compiled) (event : text) (m : span_match) (st : ledger * list edit)
    : result (ledger * list edit) :=
  let '(f, widen) := c in
  let '(lg, edits) := st in
  match m with
  | NoGroup => Raise (ValueError "the pattern's capture group did not participate in a match")
  | Span s e =>
      if (e <=? s)%nat then Ok st
      else
        let span := slice s e event in
        out ← pseudonym digest span widen;
        match out with
        | None =>
            let note := (fd_name f, span) in
            let warnings := if bool_decide (note ∈ lg_warnings lg) then lg_warnings lg else lg_warnings lg ++ [note] in
            Ok (mkLedger (lg_by_output lg) (lg_mapping lg) (lg_origin lg) warnings, edits)
        | Some stand_in =>
            let key := (shape_id (fm_shape (format_for widen span)), stand_in) in
            if match lg_by_output lg !! key with Some clash => negb (bool_decide (clash = span)) | None => false end
            then Raise (ValueError "two different values would become the same stand-in")
            else
              Ok (mkLedger (<[ key := span ]> (lg_by_output lg)) (<[ span := stand_in ]> (lg_mapping lg))
                    (match lg_origin lg !! span with
                     | Some _ => lg_origin lg
                     | None => <[ span := fd_name f ]> (lg_origin lg)
                     end) (lg_warnings lg),
                  edits ++ [mkEdit s e stand_in])
        end
  end.

Fixpoint fold_matches (c : compiled) (event : text) (ms : list span_match) (st : ledger * list edit)
    : result (ledger * list edit) :=
  match ms with
  | [] => Ok st
  | m :: ms => st ← note_match c event m st; fold_matches c event ms st
  end.

Fixpoint fold_fields (cs : list compiled) (event : text) (st : ledger * list edit) : result (ledger * list edit) :=
  match cs with
  | [] => Ok st
  | c :: cs => st ← fold_matches c event (fd_find c.1 event) st; fold_fields cs event st
  end.

Definition edit_le (a b : edit) : Prop :=
  (ed_start a < ed_start b)%nat \/ (ed_start a = ed_start b /\ ed_end a <= ed_end b)%nat.
Global Instance edit_le_dec a b : Decision (edit_le a b).
Proof. unfold edit_le. apply _. Defined.

Fixpoint overlaps (es : list edit) : bool :=
  match es with
  | a :: (b :: _) as rest => (ed_start b <? ed_end a)%nat || overlaps rest
  | _ => false
  end.

(** The rewritten text, and the ranges of the stand-ins in it; [pos] and
    [written] are how much was read and written. *)
Fixpoint splice (event : text) (pos written : nat) (es : list edit) : text * list (nat * nat) :=
  match es with
  | [] => (drop pos event, [])
  | a :: es =>
      let written := (written + (ed_start a - pos))%nat in
      let after := (written + length (ed_text a))%nat in
      let '(rest, spans) := splice event (ed_end a) after es in
      (slice pos (ed_start a) event ++ ed_text a ++ rest, (written, after) :: spans)
  end.

Definition rewrite_event (cs : list compiled) (event : text) (lg : ledger)
    : result (ledger * (text * list (nat * nat))) :=
  st ← fold_fields cs event (lg, []);
  let '(lg, edits) := st : ledger * list edit in
  let edits := merge_sort edit_le edits in
  if overlaps edits then Raise (ValueError "two fields match overlapping text")
  else if bool_decide (edits = []) then Ok (lg, (event, []))
  else
    let out := splice event 0 0 edits in
    if json_parses event && negb (json_parses out.1)
    then Raise (ValueError "a JSON event would no longer parse")
    else Ok (lg, out).

Fixpoint rewrite_all (cs : list compiled) (events : list text) (lg : ledger)
    : result (ledger * list (text * list (nat * nat))) :=
  match events with
  | [] => Ok (lg, [])
  | ev :: events =>
      st ← rewrite_event cs ev lg;
      let '(lg, out) := st : ledger * (text * list (nat * nat)) in
      st ← rewrite_all cs events lg;
      let '(lg, outs) := st : ledger * list (text * list (nat * nat)) in
      Ok (lg, out :: outs)
  end.

Fixpoint compile_all (fields : list field) : result (list compiled) :=
  match fields with
  | [] => Ok []
  | f :: fields => c ← compile f; cs ← compile_all fields; Ok (c :: cs)
  end.

Definition pseudonymise_events (events : list text) (fields : list field) : result report :=
  cs ← compile_all fields;
  st ← rewrite_all cs events new_ledger;
  let '(lg, outs) := st : ledger * list (text * list (nat * nat)) in
  Ok (mkReport outs.*1 outs.*2 lg).
End Pass.

(** ** No two values are merged *)

Section Merge.
Context (digest : text -> Z) (json_parses : text -> bool) (digest_nonneg : forall t, 0 <= digest t).

(** What a field asks of an event: the span, and its stand-in. *)
Definition edit_of (cs : list compiled) (event : text) (a : edit) : Prop :=
  exists f widen, (f, widen) ∈ cs /\ Span (ed_start a) (ed_end a) ∈ fd_find f event /\
    (ed_start a < ed_end a)%nat /\
    pseudonym digest (slice (ed_start a) (ed_end a) event) widen = Ok (Some (ed_text a)).

Definition compiled_ok (cs : list compiled) : Prop := forall f widen, (f, widen) ∈ cs -> widening widen.

Lemma compile_all_ok fields cs : compile_all fields = Ok cs -> compiled_ok cs /\ cs.*1 = fields.
Proof.
  revert cs. induction fields as [|f fields IH]; intros cs E.
  { injection E as <-. split; [|done]. by intros ? ? []%elem_of_nil. }
  cbn in E. destruct (compile f) as [c|] eqn:Ec; [|done]. cbn in E. destruct (compile_all fields) as [cs'|]; [|done].
  injection E as <-. destruct (IH cs' eq_refl) as [H1 H2]. unfold compile in Ec.
  assert (c.1 = f /\ widening c.2) as [Ef Hw].
  { destruct (fd_widen f) as [[s n]|]; [|injection Ec as <-; split; [done|intros g [=]]].
    destruct (widen_format s n) as [w|] eqn:Ew; [|done]. injection Ec as <-. split; [done|].
    intros g [= <-]. by eapply widen_readable. }
  split; [|cbn; by rewrite Ef, H2]. intros g widen [Eg|Hin]%elem_of_cons; [by subst c|by eapply H1].
Qed.

Lemma stand_in_shape span widen t : widening widen -> pseudonym digest span widen = Ok (Some t) ->
  infer t = format_for widen span.
Proof.
  intros Hw E. destruct (stand_in_spec widen span (fun _ => digest span) Hw) as (o & Eo & Ho); [by intros|].
  unfold pseudonym in E. rewrite E in Eo. injection Eo as <-. apply Ho.
Qed.

(** The ledger knows the value of an edit. *)
Definition recorded (lg : ledger) (event : text) (a : edit) : Prop :=
  lg_by_output lg !! (shape_id (fm_shape (infer (ed_text a))), ed_text a)
  = Some (slice (ed_start a) (ed_end a) event) /\
  is_Some (lg_mapping lg !! slice (ed_start a) (ed_end a) event).

Definition extends (lg lg' : ledger) : Prop :=
  lg_by_output lg ⊆ lg_by_output lg' /\ dom (lg_mapping lg) ⊆ dom (lg_mapping lg').

Global Instance extends_preorder : PreOrder extends.
Proof. split; [done|]. intros a b c [H1 H2] [H3 H4]. split; [by etrans|set_solver]. Qed.

Lemma recorded_extends lg lg' event a : extends lg lg' -> recorded lg event a -> recorded lg' event a.
Proof.
  intros [H1 H2] [H3 H4]. split; [by eapply lookup_weaken|]. apply elem_of_dom. apply H2. by apply elem_of_dom.
Qed.

Lemma note_match_spec f widen event m lg es lg' es' : widening widen ->
  note_match digest (f, widen) event m (lg, es) = Ok (lg', es') ->
  extends lg lg' /\ exists new, es' = es ++ new /\
    (forall a, a ∈ new -> recorded lg' event a) /\
    (forall a, a ∈ new <-> m = Span (ed_start a) (ed_end a) /\ (ed_start a < ed_end a)%nat /\
       pseudonym digest (slice (ed_start a) (ed_end a) event) widen = Ok (Some (ed_text a))).
Proof.
  intros Hw. destruct m as [|s e]; [done|]. cbn [note_match].
  destruct (Nat.leb_spec e s) as [Hle|Hlt].
  { intros [= <- <-]. split; [done|]. exists []. rewrite app_nil_r. split; [done|]. split; [by intros ? []%elem_of_nil|].
    intros a. split; [by intros []%elem_of_nil|]. intros ([= <- <-] & H & _). lia. }
  destruct (pseudonym digest (slice s e event) widen) as [[t|]|] eqn:Ep; cbn [mbind result_bind]; [| |done].
  2:{ intros [= <- <-]. split; [done|]. exists []. rewrite app_nil_r. split; [done|]. split; [by intros ? []%elem_of_nil|].
      intros a. split; [by intros []%elem_of_nil|]. intros ([= <- <-] & _ & H). congruence. }
  pose proof (stand_in_shape _ _ _ Hw Ep) as Hf.
  destruct (match lg_by_output lg !! _ with Some _ => _ | None => _ end) eqn:Ec; [done|]. intros [= <- <-].
  rewrite <- Hf in *. split; [|exists [mkEdit s e t]; split; [done|split]].
  - split; cbn; [|set_solver]. apply map_subseteq_spec. intros k x Hk.
    destruct (decide (k = (shape_id (fm_shape (infer t)), t))) as [->|]; [|by rewrite lookup_insert_ne].
    rewrite Hk in Ec. apply negb_false_iff, bool_decide_eq_true in Ec as ->. by rewrite lookup_insert_eq.
  - intros a ->%list_elem_of_singleton. unfold recorded. cbn. rewrite !lookup_insert_eq. by split.
  - intros a. rewrite list_elem_of_singleton. split.
    + intros ->. cbn. by split_and!.
    + intros ([= Es Ee] & _ & Ha). subst s e. rewrite Ha in Ep. injection Ep as <-. by destruct a.
Qed.

Lemma fold_matches_spec f widen event ms lg es lg' es' : widening widen ->
  fold_matches digest (f, widen) event ms (lg, es) = Ok (lg', es') ->
  extends lg lg' /\ exists new, es' = es ++ new /\ (forall a, a ∈ new -> recorded lg' event a) /\
    (forall a, a ∈ new <-> Span (ed_start a) (ed_end a) ∈ ms /\ (ed_start a < ed_end a)%nat /\
       pseudonym digest (slice (ed_start a) (ed_end a) event) widen = Ok (Some (ed_text a))).
Proof.
  intros Hw. revert lg es. induction ms as [|m ms IH]; intros lg es E.
  { injection E as <- <-. split; [done|]. exists []. rewrite app_nil_r. split; [done|]. split; [by intros ? []%elem_of_nil|].
    intros a. split; [by intros []%elem_of_nil|by intros ([]%elem_of_nil & _)]. }
  cbn [fold_matches] in E. destruct (note_match digest (f, widen) event m (lg, es)) as [[lg1 es1]|] eqn:E1; [|done].
  cbn [mbind result_bind] in E. apply note_match_spec in E1 as (G1 & n1 & -> & R1 & H1); [|done].
  apply IH in E as (G2 & n2 & -> & R2 & H2). split; [by etrans|]. exists (n1 ++ n2). split; [by rewrite app_assoc|]. split.
  - intros a [Ha|Ha]%elem_of_app; [|by apply R2]. eapply recorded_extends; [done|by apply R1].
  - intros a. rewrite elem_of_app, H1, H2, elem_of_cons. naive_solver.
Qed.

Lemma fold_fields_spec cs event lg es lg' es' : compiled_ok cs ->
  fold_fields digest cs event (lg, es) = Ok (lg', es') ->
  extends lg lg' /\ exists new, es' = es ++ new /\ (forall a, a ∈ new -> recorded lg' event a) /\
    (forall a, a ∈ new <-> edit_of cs event a).
Proof.
  revert lg es. induction cs as [|[f widen] cs IH]; intros lg es Hok E.
  { injection E as <- <-. split; [done|]. exists []. rewrite app_nil_r. split; [done|]. split; [by intros ? []%elem_of_nil|].
    intros a. split; [by intros []%elem_of_nil|]. intros (? & ? & []%elem_of_nil & _). }
  cbn [fold_fields fst] in E.
  destruct (fold_matches digest (f, widen) event (fd_find f event) (lg, es)) as [[lg1 es1]|] eqn:E1; [|done].
  cbn [mbind result_bind] in E. apply fold_matches_spec in E1 as (G1 & n1 & -> & R1 & H1); [|apply (Hok f); left].
  apply IH in E as (G2 & n2 & -> & R2 & H2); [|intros g u Hin; apply (Hok g); by right].
  split; [by etrans|]. exists (n1 ++ n2). split; [by rewrite app_assoc|]. split.
  - intros a [Ha|Ha]%elem_of_app; [|by apply R2]. eapply recorded_extends; [done|by apply R1].
  - intros a. rewrite elem_of_app, H1, H2. unfold edit_of. setoid_rewrite elem_of_cons. naive_solver.
Qed.

(** ** The rewritten text *)

(** Ranges in order, without overlap, within [pos] and [n]. *)
Fixpoint chain (pos n : nat) (rs : list (nat * nat)) : Prop :=
  match rs with
  | [] => (pos <= n)%nat
  | (s, e) :: rs => (pos <= s)%nat /\ (s <= e)%nat /\ chain e n rs
  end.

(** The text between the ranges. *)
Fixpoint between_ranges (pos : nat) (rs : list (nat * nat)) (t : text) : text :=
  match rs with
  | [] => drop pos t
  | (s, e) :: rs => slice pos s t ++ between_ranges e rs t
  end.

Definition range_of (a : edit) : nat * nat := (ed_start a, ed_end a).

Lemma chain_le pos n rs : chain pos n rs -> (pos <= n)%nat.
Proof. revert pos. induction rs as [|[s e] rs IH]; intros pos; [done|]. intros (? & ? & H%IH). lia. Qed.

Lemma slice_mid (a b c : text) : slice (length a) (length a + length b) (a ++ b ++ c) = b.
Proof. unfold slice. rewrite drop_app_length, Nat.add_sub_swap, Nat.sub_diag by lia. cbn. apply take_app_length. Qed.

Lemma length_slice s e (t : text) : (s <= e)%nat -> (e <= length t)%nat -> length (slice s e t) = (e - s)%nat.
Proof. intros. unfold slice. rewrite length_take, length_drop. lia. Qed.

Lemma splice_spec event pos written es pre : chain pos (length event) (range_of <$> es) -> length pre = written ->
  let '(t, spans) := splice event pos written es in
  Forall2 (fun a sp => slice sp.1 sp.2 (pre ++ t) = ed_text a) es spans /\
  chain written (length (pre ++ t)) spans /\
  between_ranges written spans (pre ++ t) = between_ranges pos (range_of <$> es) event.
Proof.
  revert pos written pre. induction es as [|a es IH]; intros pos written pre Hc Hl.
  { cbn in *. split; [constructor|]. split; [rewrite length_app; lia|]. by rewrite <- Hl, drop_app_length. }
  cbn [splice fmap list_fmap chain range_of] in *. destruct Hc as (H1 & H2 & Hc).
  set (gap := slice pos (ed_start a) event).
  assert (length gap = (ed_start a - pos)%nat) as Hg.
  { apply length_slice; [done|]. apply chain_le in Hc. lia. }
  specialize (IH (ed_end a) (written + (ed_start a - pos) + length (ed_text a))%nat (pre ++ gap ++ ed_text a) Hc).
  destruct (splice event (ed_end a) _ es) as [t spans]. rewrite !length_app in IH. specialize (IH ltac:(lia)).
  replace ((pre ++ gap ++ ed_text a) ++ t) with (pre ++ gap ++ ed_text a ++ t) in IH by (by rewrite <- !app_assoc).
  destruct IH as (I1 & I2 & I3).
  assert (slice (written + (ed_start a - pos)) (written + (ed_start a - pos) + length (ed_text a))
            (pre ++ gap ++ ed_text a ++ t) = ed_text a) as Hs.
  { pose proof (slice_mid (pre ++ gap) (ed_text a) t) as Hm. rewrite length_app, Hl, Hg, <- !app_assoc in Hm. exact Hm. }
  split_and!.
  - constructor; [exact Hs|exact I1].
  - cbn [chain]. split_and!; [lia|lia|].
    rewrite !length_app, !Nat.add_assoc. by rewrite !Nat.add_assoc in I2.
  - cbn [between_ranges]. rewrite I3. f_equal. pose proof (slice_mid pre gap (ed_text a ++ t)) as Hm.
    by rewrite Hl, Hg in Hm.
Qed.

Lemma edits_chain es n pos : StronglySorted edit_le es -> overlaps es = false ->
  (forall a, a ∈ es -> (pos <= ed_start a)%nat /\ (ed_start a < ed_end a)%nat /\ (ed_end a <= n)%nat) -> (pos <= n)%nat ->
  chain pos n (range_of <$> es).
Proof.
  intros Hs. revert pos. induction Hs as [|a es Hs IH Hle]; intros pos Ho Hb Hn; [done|].
  destruct (Hb a ltac:(left)) as (B1 & B2 & B3). cbn [fmap list_fmap chain range_of]. split_and!; [lia|lia|].
  apply IH; [|intros b Hb'|lia].
  - destruct es; [done|]. cbn in Ho. by apply orb_false_iff in Ho as [_ ?].
  - destruct (Hb b ltac:(by right)) as (_ & C2 & C3). split_and!; [|done|done].
    destruct es as [|a' es]; [by apply elem_of_nil in Hb'|]. cbn in Ho. apply orb_false_iff in Ho as [Ho _].
    apply Nat.ltb_ge in Ho. apply elem_of_cons in Hb' as [->|Hb']; [done|].
    inversion Hs as [|? ? _ Hle']; subst. rewrite Forall_forall in Hle'. specialize (Hle' b Hb').
    unfold edit_le in Hle'. lia.
Qed.

(** What a rewritten event is: its edits, all of those the fields ask for, each in
    the range the report gives, and the rest of the event around them. *)
Definition rewritten_as (cs : list compiled) (event : text) (out : text * list (nat * nat)) : Prop :=
  exists es, (forall a, a ∈ es <-> edit_of cs event a) /\
    Forall2 (fun a sp => slice sp.1 sp.2 out.1 = ed_text a) es out.2 /\
    chain 0 (length out.1) out.2 /\ chain 0 (length event) (range_of <$> es) /\
    between_ranges 0 out.2 out.1 = between_ranges 0 (range_of <$> es) event.

(** The matches of a pattern lie within the event. *)
Definition in_text (cs : list compiled) : Prop :=
  forall f widen event s e, (f, widen) ∈ cs -> Span s e ∈ fd_find f event -> (e <= length event)%nat.

Global Instance edit_le_total : Total edit_le.
Proof. intros a b. unfold edit_le. lia. Qed.
Global Instance edit_le_trans : Transitive edit_le.
Proof. intros a b c. unfold edit_le. lia. Qed.

Lemma rewrite_event_spec cs event lg lg' out : compiled_ok cs -> in_text cs ->
  rewrite_event digest json_parses cs event lg = Ok (lg', out) ->
  extends lg lg' /\ (forall a, edit_of cs event a -> recorded lg' event a) /\ rewritten_as cs event out /\
  (json_parses event = true -> json_parses out.1 = true).
Proof.
  intros Hok Hin. unfold rewrite_event. destruct (fold_fields digest cs event (lg, [])) as [[lg1 es]|] eqn:E; [|done].
  cbn [mbind result_bind]. apply fold_fields_spec in E as (G & new & -> & R & H); [|done]. cbn [app].
  set (es := merge_sort edit_le new). assert (forall a, a ∈ es <-> edit_of cs event a) as Hes.
  { intros a. rewrite <- H. subst es. by rewrite (merge_sort_Permutation edit_le new). }
  assert (forall a, edit_of cs event a -> recorded lg1 event a) as Hrec by (intros a Ha; by apply R, H).
  destruct (overlaps es) eqn:Eo; [done|].
  assert (chain 0 (length event) (range_of <$> es)) as Hch.
  { apply edits_chain; [apply StronglySorted_merge_sort; apply _|done| |lia].
    intros a (f & widen & Hf & Hm & Hlt & _)%Hes. split_and!; [lia|done|by eapply Hin]. }
  case_bool_decide as En.
  - intros [= <- <-]. split; [done|]. split; [done|]. split; [|done]. exists es. rewrite En in *. cbn.
    split; [done|]. split; [constructor|]. split_and!; [lia|lia|done].
  - pose proof (splice_spec event 0 0 es [] Hch eq_refl) as Hsp. destruct (splice event 0 0 es) as [t spans].
    cbn [app] in Hsp. destruct Hsp as (S1 & S2 & S3). cbn [fst].
    destruct (json_parses event) eqn:Ej; cbn [andb].
    + destruct (json_parses t) eqn:Et; cbn [negb]; [|done]. intros [= <- <-]. split; [done|]. split; [done|].
      split; [|done]. by exists es.
    + intros [= <- <-]. split; [done|]. split; [done|]. split; [|done]. by exists es.
Qed.

Lemma rewrite_all_spec cs events lg lg' outs : compiled_ok cs -> in_text cs ->
  rewrite_all digest json_parses cs events lg = Ok (lg', outs) ->
  extends lg lg' /\ (forall event a, event ∈ events -> edit_of cs event a -> recorded lg' event a) /\
  Forall2 (fun event out => rewritten_as cs event out /\ (json_parses event = true -> json_parses out.1 = true)) events outs.
Proof.
  intros Hok Hin. revert lg outs. induction events as [|ev events IH]; intros lg outs E.
  { injection E as <- <-. split; [done|]. split; [by intros ? ? []%elem_of_nil|constructor]. }
  cbn [rewrite_all] in E. destruct (rewrite_event digest json_parses cs ev lg) as [[lg1 out]|] eqn:E1; [|done].
  cbn [mbind result_bind] in E. destruct (rewrite_all digest json_parses cs events lg1) as [[lg2 outs2]|] eqn:E2; [|done].
  cbn [mbind result_bind] in E. injection E as <- <-.
  apply rewrite_event_spec in E1 as (G1 & R1 & W1 & J1); [|done..]. apply IH in E2 as (G2 & R2 & W2).
  split; [by etrans|]. split; [|by constructor]. intros event a [->|He]%elem_of_cons Ha; [|by apply R2].
  eapply recorded_extends; [done|by apply R1].
Qed.
End Merge.

(** C31: pseudonymisation keeps identities apart and in place.  When the pass returns,
    two spans of the sample, whatever their fields and events, have the same
    stand-in only if they hold the same text; every event is rewritten at exactly
    the spans its fields match, the report's ranges hold the stand-ins, the text
    around them is untouched, and an event that parsed as JSON still does. *)
Theorem pseudonymise_keeps_identities digest json_parses events fields rep cs :
  (forall t, 0 <= digest t) -> compile_all fields = Ok cs -> in_text cs ->
  pseudonymise_events digest json_parses events fields = Ok rep ->
  (forall ev ev' a b, ev ∈ events -> ev' ∈ events -> edit_of digest cs ev a -> edit_of digest cs ev' b ->
     ed_text a = ed_text b -> slice (ed_start a) (ed_end a) ev = slice (ed_start b) (ed_end b) ev') /\
  Forall2 (fun ev out => rewritten_as digest cs ev out /\ (json_parses ev = true -> json_parses out.1 = true))
    events (zip (rp_events rep) (rp_rewritten rep)).
Proof.
  intros Hd Ec Hin. unfold pseudonymise_events. rewrite Ec. cbn [mbind result_bind].
  destruct (rewrite_all digest json_parses cs events new_ledger) as [[lg outs]|] eqn:E; [|done].
  cbn [mbind result_bind]. intros [= <-]. destruct (compile_all_ok _ _ Ec) as [Hok _].
  apply rewrite_all_spec in E as (_ & R & W); [|done..]. split.
  - intros ev ev' a b Hev Hev' Ha Hb Et. destruct (R ev a Hev Ha) as [R1 _]. destruct (R ev' b Hev' Hb) as [R2 _].
    rewrite Et, R2 in R1. by injection R1.
  - cbn. by rewrite zip_fst_snd.
Qed.

(** ** A sample of three events *)

Section Witnesses.

Fixpoint leading_digits (t : text) : nat :=
  match t with c :: t => if is_dec c then S (leading_digits t) else O | [] => O end.

(** The digits after [id=]. *)
Definition find_id (event : text) : list span_match :=
  if bool_decide (take 3 event = chars "id=") then [Span 3 (3 + leading_digits (drop 3 event))] else [].

Definition id_field : field := mkField "client_id" None find_id.
Definition demo_events : list text := chars <$> ["id=4711 login"; "id=9 logout"; "id=4711 logout"].
Definition demo_report : result report := pseudonymise_events fnv1a64 (fun _ => false) demo_events [id_field].

Lemma leading_digits_le t : (leading_digits t <= length t)%nat.
Proof. induction t as [|c t IH]; cbn; [lia|]. destruct (is_dec c); lia. Qed.

Lemma find_id_in_text : in_text [(id_field, None)].
Proof.
  intros f widen event s e [= -> ->]%list_elem_of_singleton. cbn. unfold find_id. case_bool_decide as Ht.
  - intros [= -> ->]%list_elem_of_singleton. pose proof (leading_digits_le (drop 3 event)) as Hl.
    apply (f_equal length) in Ht. rewrite length_drop in Hl. rewrite length_take in Ht. change (length (chars "id=")) with 3%nat in Ht. lia.
  - by intros []%elem_of_nil.
Qed.

Lemma pseudonymise_keeps_identities_witness :
  exists rep, demo_report = Ok rep /\ rp_rewritten rep = [[(3, 7)]; [(3, 4)]; [(3, 7)]]%nat /\
    Forall2 (fun ev out => rewritten_as fnv1a64 [(id_field, None)] ev out /\ (false = true -> false = true))
      demo_events (zip (rp_events rep) (rp_rewritten rep)).
Proof.
  destruct demo_report as [rep|] eqn:E; [|vm_compute in E; discriminate]. exists rep. split; [done|]. split.
  - revert E. vm_compute. intros E. by injection E as <-.
  - apply (pseudonymise_keeps_identities fnv1a64 (fun _ => false) demo_events [id_field] rep [(id_field, None)]
             fnv1a64_nonneg eq_refl find_id_in_text E).
Defined.
End Witnesses.
