(* ===== verification/Residuals.v ===== *)
(** * Values that survive outside their field (server/packbuilder/pseudonym.py)

    After the rewrite every original is looked for again, as a whole token, in the
    rewritten events and in the other texts of the pack; a hit that touches a
    range the pass wrote is its own output and is skipped.  Fields marked
    "replace it everywhere" have their hits rewritten too, in rounds, until
    none is left; what remains is reported, and blocks the build when it is long
    enough to be no coincidence.

    The regular expression of the originals is their trie: the node's own end
    comes after its longer continuations, so the longest original that ends at a
    token boundary wins.

    The theorems: the rounds end; and when nothing blocks, no alphanumeric
    original of five characters or more is left outside the ranges the pass
    wrote. *)

From S2P Require Import Prelude.
From S2P Require Import PyFloat.
From S2P Require Import PyValue.
From S2P Require Import PackYaml.
From S2P Require Import Formats.
From S2P Require Import Rotation.
From S2P Require Import Pseudonym.
From stdpp Require Import sorting.
From Stdlib Require Import QArith Ascii.
Open Scope Z_scope.

Definition is_alnum (c : ascii) : bool := is_dec c || is_letter c.

(** ** The trie *)

Inductive trie : Type := Node (terminal : bool) (kids : list (ascii * trie)).

Definition ends_here (n : trie) : bool := match n with Node b _ => b end.
Definition kids_of (n : trie) : list (ascii * trie) := match n with Node _ ks => ks end.
Definition kid (c : ascii) (n : trie) : option trie :=
  snd <$> List.find (fun ck => bool_decide (ck.1 = c)) (kids_of n).

(** [f] applied to the child of [c], which is made when there is none. *)
Fixpoint upsert (c : ascii) (f : trie -> trie) (ks : list (ascii * trie)) : list (ascii * trie) :=
  match ks with
  | [] => [(c, f (Node false []))]
  | (c', k) :: ks => if bool_decide (c' = c) then (c', f k) :: ks else (c', k) :: upsert c f ks
  end.

Fixpoint trie_insert (v : text) (n : trie) : trie :=
  match v with
  | [] => Node true (kids_of n)
  | c :: v => Node (ends_here n) (upsert c (trie_insert v) (kids_of n))
  end.

Definition trie_pattern (values : list text) : trie := foldl (fun n v => trie_insert v n) (Node false []) values.

(** The lengths the expression of a node can match at the head of a text, in the
    order a backtracking matcher tries them. *)
Fixpoint trie_matches (t : text) (n : trie) : list nat :=
  (match t with
   | c :: t => match kid c n with Some k => S <$> trie_matches t k | None => [] end
   | [] => []
   end) ++ (if ends_here n then [O] else []).

(** ** Whole tokens *)

Definition bounded (next : option ascii) : bool := match next with Some c => negb (is_alnum c) | None => true end.

Definition match_at (n : trie) (prev : option ascii) (t : text) : option nat :=
  if bounded prev then List.find (fun k => bounded (head (drop k t))) (trie_matches t n) else None.

(** [pattern.finditer]; [skip] characters are left of the last match. *)
Fixpoint finditer (n : trie) (pos skip : nat) (prev : option ascii) (t : text) : list (nat * nat) :=
  match t with
  | [] => []
  | c :: t' =>
      match skip with
      | S skip => finditer n (S pos) skip (Some c) t'
      | O =>
          match match_at n prev t with
          | Some k => (pos, pos + k)%nat :: finditer n (S pos) (k - 1) (Some c) t'
          | None => finditer n (S pos) 0 (Some c) t'
          end
      end
  end.

Definition residual_regex (values : list text) : option trie :=
  let vs := List.filter (fun v => negb (bool_decide (v = []))) values in
  if bool_decide (vs = []) then None else Some (trie_pattern vs).

(** ** Masks *)

Definition mask_le (a b : nat * nat) : Prop := (a.1 < b.1 \/ (a.1 = b.1 /\ a.2 <= b.2))%nat.
Global Instance mask_le_dec a b : Decision (mask_le a b).
Proof. unfold mask_le. apply _. Defined.

Definition add_mask (acc : list (nat * nat)) (m : nat * nat) : list (nat * nat) :=
  match acc with
  | (s0, e0) :: acc' => if (m.1 <=? e0)%nat then (s0, Nat.max e0 m.2) :: acc' else m :: acc
  | [] => [m]
  end.
Definition merge_masks (masked : list (nat * nat)) : list (nat * nat) :=
  reverse (foldl add_mask [] (merge_sort mask_le masked)).

(** The first merged range that ends after [s] begins before [e]. *)
Definition is_masked (merged : list (nat * nat)) (s e : nat) : bool :=
  match List.find (fun m => (s <? m.2)%nat) merged with
  | Some m => (m.1 <? e)%nat
  | None => false
  end.

Definition find_residuals (t : text) (pattern : option trie) (masked : list (nat * nat)) : list (nat * nat * text) :=
  match pattern with
  | None => []
  | Some n =>
      let merged := merge_masks masked in
      (fun h => (h, slice h.1 h.2 t)) <$>
        List.filter (fun h => negb (is_masked merged h.1 h.2)) (finditer n 0 0 None t)
  end.

(** ** The scan *)

Definition is_target (lg : ledger) (wanted : list string) (h : nat * nat * text) : bool :=
  bool_decide (is_Some (lg_mapping lg !! h.2)) &&
  match lg_origin lg !! h.2 with Some f => bool_decide (f ∈ wanted) | None => false end.

Definition replacement (lg : ledger) (h : nat * nat * text) : edit :=
  mkEdit h.1.1 h.1.2 (default h.2 (lg_mapping lg !! h.2)).

(** [x + acc[bisect_right(ends, x)]]: what the replacements before [x] add. *)
Definition shift_of (es : list edit) (x : nat) : Z :=
  foldr Z.add 0 ((fun a => if (ed_end a <=? x)%nat
                           then Z.of_nat (length (ed_text a)) - Z.of_nat (ed_end a - ed_start a) else 0) <$> es).
Definition moved (es : list edit) (x : nat) : nat := Z.to_nat (Z.of_nat x + shift_of es x).

Fixpoint sweep (rounds : nat) (lg : ledger) (pattern : option trie) (wanted : list string)
    (event : text) (masked : list (nat * nat)) : option (text * list (nat * nat)) :=
  match rounds with
  | O => None
  | S rounds =>
      match List.filter (is_target lg wanted) (find_residuals event pattern masked) with
      | [] => Some (event, masked)
      | targets =>
          let es := replacement lg <$> targets in
          let '(event, added) := splice event 0 0 es in
          sweep rounds lg pattern wanted event (((fun m => (moved es m.1, moved es m.2)) <$> masked) ++ added)
      end
  end.

(** The loop runs only when some field is rewritten everywhere. *)
Definition sweep_event (rounds : nat) (lg : ledger) (pattern : option trie) (wanted : list string)
    (event : text) (masked : list (nat * nat)) : option (text * list (nat * nat)) :=
  if bool_decide (wanted = []) then Some (event, masked) else sweep rounds lg pattern wanted event masked.

Inductive place_of : Type := InEvent (i : nat) | InConfig (what : string).

Global Instance place_of_eq_dec : EqDecision place_of.
Proof. solve_decision. Defined.

Record finding : Type := mkFinding { fg_where : place_of; fg_value : text; fg_field : option string }.

Definition event_findings (lg : ledger) (pattern : option trie) (i : nat) (out : text * list (nat * nat))
    : list finding :=
  omap (fun h => match lg_mapping lg !! h.2 with
                 | Some _ => Some (mkFinding (InEvent i) h.2 (lg_origin lg !! h.2))
                 | None => None
                 end) (find_residuals out.1 pattern out.2).

Definition text_findings (lg : ledger) (pattern : option trie) (wt : string * text) : list finding :=
  omap (fun h => match lg_mapping lg !! h.2 with
                 | Some _ => Some (mkFinding (InConfig wt.1) h.2 (lg_origin lg !! h.2))
                 | None => None
                 end) (find_residuals wt.2 pattern []).

Fixpoint sweep_all (rounds : text -> nat) (lg : ledger) (pattern : option trie) (wanted : list string)
    (outs : list (text * list (nat * nat))) : option (list (text * list (nat * nat))) :=
  match outs with
  | [] => Some []
  | (event, masked) :: outs =>
      match sweep_event (rounds event) lg pattern wanted event masked, sweep_all rounds lg pattern wanted outs with
      | Some out, Some outs => Some (out :: outs)
      | _, _ => None
      end
  end.

(** The report with the swept events, and what was found. *)
Definition scan_residuals (rounds : text -> nat) (rep : report) (texts : list (string * text)) (wanted : list string)
    : option (report * list finding) :=
  let lg := rp_ledger rep in
  if bool_decide (lg_mapping lg = ∅) then Some (rep, [])
  else
    let pattern := residual_regex (map_to_list (lg_mapping lg)).*1 in
    match sweep_all rounds lg pattern wanted (zip (rp_events rep) (rp_rewritten rep)) with
    | None => None
    | Some outs =>
        Some (mkReport outs.*1 outs.*2 lg,
              concat (imap (event_findings lg pattern) outs) ++ concat (text_findings lg pattern <$> texts))
    end.

(** ** What blocks the build *)

Definition RESIDUAL_MIN_REFUSE : nat := 5.

(** The messages: a possible coincidence, a value left in the events, a value in
    the pack's settings; each with its field and the places. *)
Inductive problem : Type :=
  | Coincidence (field : string) (places : list place_of)
  | LeftInEvents (field : string) (places : list place_of)
  | LeftInSettings (field : string) (places : list place_of).

Definition long_enough (f : finding) : bool := (RESIDUAL_MIN_REFUSE <=? length (fg_value f))%nat.
Definition in_config (f : finding) : bool := match fg_where f with InConfig _ => true | InEvent _ => false end.
Definition label (f : finding) : string := default "" (fg_field f).

Definition add_place (ps : list place_of) (p : place_of) : list place_of := if bool_decide (p ∈ ps) then ps else ps ++ [p].

(** The places of the findings of one field, of one length class, in or outside
    the settings. *)
Definition places_of (fs : list finding) (key : string * bool) (config : bool) : list place_of :=
  foldl add_place []
    (fg_where <$> List.filter (fun f => bool_decide ((label f, long_enough f) = key) && Bool.eqb (in_config f) config) fs).

Definition key_before (a b : string * bool) : Prop :=
  String.ltb a.1 b.1 = true \/ (a.1 = b.1 /\ (a.2 = true -> b.2 = true)).
Global Instance key_before_dec a b : Decision (key_before a b).
Proof. unfold key_before. apply _. Defined.

Definition keys_of (fs : list finding) : list (string * bool) :=
  merge_sort key_before (elements (list_to_set (C := gset (string * bool)) ((fun f => (label f, long_enough f)) <$> fs))).

Definition problems_of (fs : list finding) (key : string * bool) : list problem * list problem :=
  let events := places_of fs key false in
  let settings := places_of fs key true in
  if key.2 then
    ((if bool_decide (events = []) then [] else [LeftInEvents key.1 events]) ++
     (if bool_decide (settings = []) then [] else [LeftInSettings key.1 settings]), [])
  else ([], [Coincidence key.1 (events ++ settings)]).

(** [(blocking, warnings)] *)
Definition residual_problems (fs : list finding) : list problem * list problem :=
  let ps := problems_of fs <$> keys_of fs in (concat ps.*1, concat ps.*2).

(** ** The trie matches the originals *)

Section Trie.

Fixpoint holds (v : text) (n : trie) : bool :=
  match v with
  | [] => ends_here n
  | c :: v => match kid c n with Some k => holds v k | None => false end
  end.

Lemma holds_empty v : holds v (Node false []) = false.
Proof. by destruct v. Qed.

Lemma kid_upsert c c' f b b' ks :
  kid c' (Node b (upsert c f ks))
  = if bool_decide (c' = c) then Some (f (default (Node false []) (kid c (Node b' ks)))) else kid c' (Node b' ks).
Proof.
  unfold kid. cbn [kids_of]. induction ks as [|[x k] ks IH]; cbn [upsert].
  - cbn. case_bool_decide as H1; case_bool_decide as H2; naive_solver.
  - destruct (bool_decide_reflect (x = c)) as [->|Hx]; cbn.
    + destruct (bool_decide_reflect (c = c')) as [->|Hc].
      * by rewrite !bool_decide_true.
      * by rewrite (bool_decide_false (c' = c)) by congruence.
    + destruct (bool_decide_reflect (x = c')) as [->|Hc].
      * by rewrite (bool_decide_false (c' = c)).
      * rewrite IH. by rewrite (bool_decide_false (x = c)).
Qed.

Lemma holds_insert u v n : holds v (trie_insert u n) = bool_decide (v = u) || holds v n.
Proof.
  revert v n. induction u as [|c u IH]; intros [|c' v] n; cbn [trie_insert holds]; [done|done|done|].
  rewrite (kid_upsert _ _ _ _ (ends_here n)). destruct n as [b ks]. cbn [ends_here kids_of].
  destruct (bool_decide_reflect (c' = c)) as [->|Hc].
  - rewrite IH. assert (bool_decide (c :: v = c :: u) = bool_decide (v = u)) as ->
      by (apply bool_decide_ext; naive_solver). f_equal.
    destruct (kid c (Node b ks)); [done|]. apply holds_empty.
  - by rewrite (bool_decide_false (c' :: v = c :: u)) by congruence.
Qed.

Lemma holds_pattern values v : holds v (trie_pattern values) = true <-> v ∈ values.
Proof.
  assert (forall n, holds v (foldl (fun n v => trie_insert v n) n values) = true <-> v ∈ values \/ holds v n = true) as H.
  { induction values as [|u values IH]; intros n; cbn [foldl]; [set_solver|].
    rewrite IH, holds_insert, elem_of_cons, orb_true_iff, bool_decide_eq_true. naive_solver. }
  unfold trie_pattern. rewrite H, holds_empty. naive_solver.
Qed.

Lemma matches_spec t n k : k ∈ trie_matches t n <-> (k <= length t)%nat /\ holds (take k t) n = true.
Proof.
  revert n k. induction t as [|c t IH]; intros n k.
  - cbn. destruct (ends_here n) eqn:E.
    + rewrite list_elem_of_singleton. split; [intros ->; cbn; split; [lia|done]|intros [? _]; lia].
    + rewrite elem_of_nil. split; [done|]. rewrite take_nil. cbn. rewrite E. by intros [_ ?].
  - cbn [trie_matches]. rewrite elem_of_app. destruct k as [|k].
    + cbn. split; [|intros [_ ->]; right; left]. intros [H|H].
      * destruct (kid c n); [|by apply elem_of_nil in H]. apply list_elem_of_fmap in H as (? & ? & _). done.
      * split; [lia|]. destruct (ends_here n); [done|by apply elem_of_nil in H].
    + cbn [take holds length]. split.
      * intros [H|H].
        -- destruct (kid c n) as [k0|]; [|by apply elem_of_nil in H].
           apply list_elem_of_fmap in H as (j & [= ->] & Hj). apply IH in Hj. split; [lia|apply Hj].
        -- destruct (ends_here n); [by apply list_elem_of_singleton in H|by apply elem_of_nil in H].
      * intros [Hl Hh]. left. destruct (kid c n) as [k0|]; [|done]. apply list_elem_of_fmap.
        exists k. split; [done|]. apply IH. split; [lia|done].
Qed.
End Trie.

(** ** Whole tokens are found *)

Section Tokens.
Context (values : list text).

Definition before (prev : option ascii) (t : text) (i : nat) : option ascii :=
  match i with O => prev | S i => t !! i end.

(** An original stands at [i], [k] characters long, as a whole token. *)
Definition token_at (prev : option ascii) (t : text) (i k : nat) : Prop :=
  (i + k <= length t)%nat /\ take k (drop i t) ∈ values /\
  bounded (before prev t i) = true /\ bounded (head (drop (i + k) t)) = true.

(** [v] can stand in a text at [i] within [u], both as whole tokens. *)
Definition clash (u v : text) (i : nat) : Prop :=
  (i < length u)%nat /\ (forall j, (i + j < length u)%nat -> (j < length v)%nat -> u !! (i + j)%nat = v !! j) /\
  (i = 0%nat -> u <> v) /\ bounded (before None u i) = true /\ bounded (u !! (i + length v)%nat) = true /\
  bounded (v !! (length u - i)%nat) = true.

(** The originals have characters, and no two of them can overlap in a text. *)
Definition apart : Prop :=
  Forall (fun v => v <> []) values /\ forall u v i, u ∈ values -> v ∈ values -> ~ clash u v i.

(** So it is, in particular, for alphanumeric originals. *)
Lemma alnum_apart : Forall (fun v => v <> [] /\ forallb is_alnum v = true) values -> apart.
Proof.
  rewrite Forall_forall. intros Ha. split; [apply Forall_forall; intros v Hv; by apply Ha|].
  assert (forall v i, v ∈ values -> bounded (v !! i) = true -> (length v <= i)%nat) as Hb.
  { intros v i [_ Hv]%Ha Hi. apply lookup_ge_None. destruct (v !! i) as [c|] eqn:E; [|done]. exfalso.
    rewrite forallb_forall in Hv. apply list_elem_of_lookup_2, list_elem_of_In, Hv in E. cbn in Hi. by rewrite E in Hi. }
  intros u v i Hu Hv (Hi & Hag & Hne & B1 & B2 & B3). destruct i as [|i].
  - apply Hne; [done|]. apply Hb in B2, B3; [|done..]. rewrite Nat.sub_0_r in B3. cbn [Nat.add] in *.
    apply list_eq. intros j. destruct (Nat.lt_ge_cases j (length u)) as [Hj|Hj]; [apply Hag; lia|].
    by rewrite !lookup_ge_None_2 by lia.
  - apply (Hb u i Hu) in B1. lia.
Qed.

Context (Hapart : apart).

(** Tokens that overlap are one token. *)
Lemma token_apart prev t i k k' : token_at prev t 0 k -> token_at prev t i k' -> (i < k)%nat -> i = 0%nat /\ k = k'.
Proof.
  intros (La & Ha & _ & Ba) (Lb & Hb & Pb & Bb) Hi. cbn [Nat.add] in *. rewrite drop_0 in Ha.
  set (u := take k t) in *. set (v := take k' (drop i t)) in *.
  assert (length u = k) as Eu by (subst u; rewrite length_take; lia).
  assert (length v = k') as Ev by (subst v; rewrite length_take, length_drop; lia).
  assert (forall j, (j < k)%nat -> u !! j = t !! j) as Lu by (intros j Hj; subst u; by rewrite lookup_take_lt).
  assert (forall j, (j < k')%nat -> v !! j = t !! (i + j)%nat) as Lv.
  { intros j Hj. subst v. by rewrite lookup_take_lt, lookup_drop. }
  assert (forall n, bounded (head (drop n t)) = true -> bounded (t !! n) = true) as Hd.
  { intros n. rewrite <- (Nat.add_0_r n) at 2. rewrite <- lookup_drop. by destruct (drop n t). }
  apply Hd in Ba, Bb. destruct (decide (i = 0%nat /\ k = k')) as [|Hne]; [done|].
  exfalso. apply (proj2 Hapart u v i Ha Hb). unfold clash. rewrite Eu, Ev. split_and!.
  - done.
  - intros j Hj Hj'. by rewrite Lu, Lv by lia.
  - intros -> E. apply Hne. split; [done|]. by rewrite <- Eu, <- Ev, E.
  - destruct i as [|i]; [done|]. cbn [before] in *. by rewrite Lu by lia.
  - destruct (Nat.lt_ge_cases (i + k') k); [by rewrite Lu|]. by rewrite lookup_ge_None_2 by lia.
  - destruct (Nat.lt_ge_cases (k - i) k'); [|by rewrite lookup_ge_None_2 by lia].
    rewrite Lv by done. by replace (i + (k - i))%nat with k by lia.
Qed.

Lemma token_length prev t k k' : token_at prev t 0 k -> token_at prev t 0 k' -> k = k'.
Proof.
  intros Hk Hk'. destruct k as [|k]; [|by eapply (token_apart prev t 0 (S k) k'); [..|lia]].
  destruct Hk as (_ & Hv & _). destruct Hapart as [Hne _]. rewrite Forall_forall in Hne. by apply Hne in Hv.
Qed.

Lemma match_at_spec prev t k : match_at (trie_pattern values) prev t = Some k -> token_at prev t 0 k.
Proof.
  unfold match_at. destruct (bounded prev) eqn:Eb; [|done]. intros H. apply List.find_some in H as [Hin Hb].
  apply list_elem_of_In, matches_spec in Hin as [Hl Hh]. apply holds_pattern in Hh.
  split_and!; [done|by rewrite drop_0|done|done].
Qed.

Lemma match_at_complete prev t k : token_at prev t 0 k -> match_at (trie_pattern values) prev t = Some k.
Proof.
  intros Ht. pose proof Ht as (Hl & Hv & Hp & Hn). cbn [Nat.add before] in *. rewrite drop_0 in Hv.
  destruct (match_at (trie_pattern values) prev t) as [k'|] eqn:E.
  - apply match_at_spec in E. f_equal. by eapply token_length.
  - exfalso. unfold match_at in E. rewrite Hp in E. enough (bounded (head (drop k t)) = false) by congruence. apply (List.find_none _ _ E k).
    apply list_elem_of_In, matches_spec. split; [done|]. by apply holds_pattern.
Qed.

Lemma token_cons prev c t i k : token_at prev (c :: t) (S i) k <-> token_at (Some c) t i k.
Proof.
  unfold token_at. cbn [drop length Nat.add]. split; intros (H1 & H2 & H3 & H4); split_and!; try done; try lia; by destruct i.
Qed.

Lemma finditer_complete pos skip prev t i k : (skip <= i)%nat ->
  token_at prev t i k -> ((pos + i)%nat, (pos + i + k)%nat) ∈ finditer (trie_pattern values) pos skip prev t.
Proof.
  revert pos skip prev i. induction t as [|c t IH]; intros pos skip prev i Hs Ht.
  { destruct Ht as (Hl & Hv & _). destruct Hapart as [Hne _]. rewrite Forall_forall in Hne. apply Hne in Hv. cbn in Hl.
    assert (i = 0%nat /\ k = 0%nat) as [-> ->] by lia. done. }
  cbn [finditer]. destruct skip as [|skip].
  - destruct i as [|i].
    + rewrite (match_at_complete _ _ _ Ht), Nat.add_0_r. left.
    + destruct (match_at (trie_pattern values) prev (c :: t)) as [k0|] eqn:E.
      * right. assert (k0 <= S i)%nat as Hk.
        { apply match_at_spec in E. destruct (Nat.le_gt_cases k0 (S i)) as [|Hlt]; [done|].
          by destruct (token_apart _ _ _ _ _ E Ht Hlt). }
        apply token_cons in Ht. replace (pos + S i)%nat with (S pos + i)%nat by lia. apply IH; [lia|done].
      * apply token_cons in Ht. replace (pos + S i)%nat with (S pos + i)%nat by lia. apply IH; [lia|done].
  - destruct i as [|i]; [lia|]. apply token_cons in Ht. replace (pos + S i)%nat with (S pos + i)%nat by lia.
    apply IH; [lia|done].
Qed.
End Tokens.

(** Hits are tokens, in order and apart. *)
Lemma finditer_sound values pos skip prev t h : Forall (fun v => v <> []) values ->
  h ∈ finditer (trie_pattern values) pos skip prev t ->
  exists i k, h = ((pos + i)%nat, (pos + i + k)%nat) /\ token_at values prev t i k /\ (skip <= i)%nat /\ (1 <= k)%nat.
Proof.
  intros Hne. revert pos skip prev. induction t as [|c t IH]; intros pos skip prev; [by intros []%elem_of_nil|].
  cbn [finditer]. assert (forall sk, h ∈ finditer (trie_pattern values) (S pos) sk (Some c) t ->
    exists i k, h = ((pos + i)%nat, (pos + i + k)%nat) /\ token_at values prev (c :: t) i k /\ (S sk <= i)%nat /\ (1 <= k)%nat) as Hrec.
  { intros sk (i & k & -> & Ht & Hs & Hk)%IH. exists (S i), k. split; [f_equal; lia|]. split; [by apply token_cons|]. lia. }
  destruct skip as [|skip].
  - destruct (match_at (trie_pattern values) prev (c :: t)) as [k|] eqn:E.
    + intros [->|(i & k' & -> & H1 & H2 & H3)%Hrec]%elem_of_cons; [|exists i, k'; split_and!; try done; lia].
      apply match_at_spec in E. exists 0%nat, k. split; [f_equal; lia|]. split; [done|]. split; [lia|].
      destruct k as [|k]; [|lia]. destruct E as (_ & Hv & _). rewrite Forall_forall in Hne. by apply Hne in Hv.
    + intros (i & k' & -> & H1 & H2 & H3)%Hrec. exists i, k'. split_and!; try done; lia.
  - intros (i & k' & -> & H1 & H2 & H3)%Hrec. exists i, k'. split_and!; try done; lia.
Qed.

(** ** Masked ranges *)

Section Masks.

Definition covered (masked : list (nat * nat)) (p : nat) : Prop := exists m, m ∈ masked /\ (m.1 <= p < m.2)%nat.
Definition proper_mask (m : nat * nat) : Prop := (m.1 < m.2)%nat.

Lemma covered_cons m ms p : covered (m :: ms) p <-> (m.1 <= p < m.2)%nat \/ covered ms p.
Proof. unfold covered. setoid_rewrite elem_of_cons. naive_solver. Qed.

Lemma covered_app ms ms' p : covered (ms ++ ms') p <-> covered ms p \/ covered ms' p.
Proof. unfold covered. setoid_rewrite elem_of_app. naive_solver. Qed.

Definition later (a b : nat * nat) : Prop := (b.2 < a.1)%nat.

Lemma merge_step ms acc : StronglySorted mask_le ms -> Forall proper_mask ms -> Forall proper_mask acc ->
  StronglySorted later acc -> (forall a m, head acc = Some a -> m ∈ ms -> (a.1 <= m.1)%nat) ->
  let out := foldl add_mask acc ms in
  Forall proper_mask out /\ StronglySorted later out /\ forall p, covered out p <-> covered acc p \/ covered ms p.
Proof.
  intros Hs. revert acc. induction Hs as [|m ms Hs IH Hle]; intros acc Hp Ha Hd Hh; cbn [foldl].
  { split; [done|]. split; [done|]. intros p. unfold covered at 3. set_solver. }
  apply Forall_cons in Hp as [Hm Hp]. rewrite Forall_forall in Hle.
  assert (forall (a x : nat * nat), a.1 = m.1 \/ (a.1 <= m.1)%nat -> x ∈ ms -> (a.1 <= x.1)%nat) as Hstart.
  { intros a x Hax Hx. specialize (Hle x Hx). unfold mask_le in Hle. lia. }
  destruct acc as [|[s0 e0] acc].
  - cbn [add_mask]. destruct (IH [m]) as (I1 & I2 & I3); [done|by constructor|repeat constructor| |].
    { intros a x [= <-] Hx. apply (Hstart m x); [by left|done]. }
    split; [done|]. split; [done|]. intros p. rewrite I3, !covered_cons. unfold covered at 1 3. set_solver.
  - pose proof (Hh (s0, e0) m eq_refl ltac:(left)) as H0. cbn in H0.
    apply Forall_cons in Ha as [Ha0 Ha]. unfold proper_mask in Ha0, Hm. cbn in Ha0.
    inversion Hd as [|? ? Hd' Hl]; subst. cbn [add_mask]. destruct (Nat.leb_spec m.1 e0) as [Hc|Hc].
    + destruct (IH ((s0, Nat.max e0 m.2) :: acc)) as (I1 & I2 & I3); [done| | | |].
      * constructor; [unfold proper_mask; cbn; lia|done].
      * constructor; [done|]. exact Hl.
      * intros a x [= <-] Hx. apply (Hstart (s0, 0%nat) x); [by right|done].
      * split; [done|]. split; [done|]. intros p. rewrite I3, !covered_cons. cbn. split.
        -- intros [[Hx|Hx]|Hx]; [|tauto..]. assert (p < e0 \/ m.1 <= p < m.2)%nat by lia. naive_solver lia.
        -- intros [[Hx|Hx]|[Hx|Hx]]; [left; left; lia|tauto|left; left; lia|tauto].
    + destruct (IH (m :: (s0, e0) :: acc)) as (I1 & I2 & I3); [done|by repeat constructor| | |].
      * constructor; [done|]. constructor; [unfold later; cbn; lia|]. eapply Forall_impl; [exact Hl|].
        unfold later. cbn. intros x Hx. lia.
      * intros a x [= <-] Hx. apply (Hstart m x); [by left|done].
      * split; [done|]. split; [done|]. intros p. rewrite I3, !covered_cons. tauto.
Qed.

Global Instance mask_le_total : Total mask_le.
Proof. intros a b. unfold mask_le. lia. Qed.
Global Instance mask_le_trans : Transitive mask_le.
Proof. intros a b c. unfold mask_le. lia. Qed.

Lemma is_masked_spec ms s e : StronglySorted (flip later) ms -> Forall proper_mask ms -> (s < e)%nat ->
  is_masked ms s e = true <-> exists p, (s <= p < e)%nat /\ covered ms p.
Proof.
  intros Hs Hp Hse. unfold is_masked. induction Hs as [|m ms Hs IH Hl]; cbn [List.find].
  { split; [done|]. intros (p & _ & m & []%elem_of_nil & _). }
  apply Forall_cons in Hp as [Hm Hp]. unfold proper_mask in Hm. rewrite Forall_forall in Hl. unfold flip, later in Hl.
  destruct (Nat.ltb_spec s m.2) as [H2|H2].
  - rewrite Nat.ltb_lt. split.
    + intros H1. exists (Nat.max s m.1). split; [lia|]. apply covered_cons. left. lia.
    + intros (p & Hpe & [Hc|(x & Hx & Hc)]%covered_cons); [lia|]. specialize (Hl x Hx). lia.
  - rewrite IH by done. split; intros (p & Hpe & Hc); exists p; (split; [done|]).
    + apply covered_cons. by right.
    + apply covered_cons in Hc as [Hc|Hc]; [lia|done].
Qed.

Lemma merge_masks_spec masked s e : Forall proper_mask masked -> (s < e)%nat ->
  is_masked (merge_masks masked) s e = true <-> exists p, (s <= p < e)%nat /\ covered masked p.
Proof.
  intros Hp Hse. unfold merge_masks.
  destruct (merge_step (merge_sort mask_le masked) []) as (I1 & I2 & I3);
    [apply StronglySorted_merge_sort; apply _| | | | |].
  { by rewrite (merge_sort_Permutation mask_le masked). }
  { constructor. }
  { constructor. }
  { intros a m [=]. }
  rewrite is_masked_spec; [| |by apply Forall_reverse|done].
  - assert (forall p, covered (reverse (foldl add_mask [] (merge_sort mask_le masked))) p <-> covered masked p) as Hc.
    { intros p. unfold covered at 1. setoid_rewrite elem_of_reverse. fold (covered (foldl add_mask [] (merge_sort mask_le masked)) p).
      rewrite I3. unfold covered. setoid_rewrite (merge_sort_Permutation mask_le masked). set_solver. }
    by setoid_rewrite Hc.
  - revert I2. clear. generalize (foldl add_mask [] (merge_sort mask_le masked)) as l. induction 1 as [|a l Hs IH Hl]; [constructor|].
    rewrite reverse_cons. apply StronglySorted_app_2; [|done|repeat constructor].
    intros x y Hx ->%list_elem_of_singleton. rewrite Forall_forall in Hl. apply Hl.
    by apply (proj1 (elem_of_reverse _ _)).
Qed.
End Masks.

(** ** One round of the sweep *)

Section Round.

Lemma chain_weaken pos pos' n rs : (pos' <= pos)%nat -> chain pos n rs -> chain pos' n rs.
Proof. destruct rs as [|[s e] rs]; cbn; [lia|]. intros ? (? & ? & ?). split_and!; [lia|lia|done]. Qed.

Lemma finditer_chain values pos skip prev t : Forall (fun v => v <> []) values ->
  (skip <= length t)%nat ->
  chain (pos + skip) (pos + length t) (finditer (trie_pattern values) pos skip prev t).
Proof.
  intros Hne. revert pos skip prev. induction t as [|c t IH]; intros pos skip prev Hs; [cbn in *; lia|].
  cbn [finditer length] in *. destruct skip as [|skip].
  - destruct (match_at (trie_pattern values) prev (c :: t)) as [k|] eqn:E.
    + apply match_at_spec in E as (Hl & Hv & _). cbn [length Nat.add] in Hl. rewrite drop_0 in Hv.
      destruct k as [|k]; [rewrite Forall_forall in Hne; by apply Hne in Hv|].
      cbn [chain fst snd]. split; [lia|]. split; [lia|].
      replace (S k - 1)%nat with k by lia. replace (pos + S k)%nat with (S pos + k)%nat by lia.
      replace (pos + S (length t))%nat with (S pos + length t)%nat by lia. apply IH. lia.
    + specialize (IH (S pos) 0%nat (Some c) ltac:(lia)).
      replace (pos + S (length t))%nat with (S pos + length t)%nat by lia.
      eapply chain_weaken; [|exact IH]. lia.
  - replace (pos + S (length t))%nat with (S pos + length t)%nat by lia.
    replace (pos + S skip)%nat with (S pos + skip)%nat by lia. apply IH. lia.
Qed.

Lemma chain_starts q n es b : chain q n (range_of <$> es) -> b ∈ es -> (q <= ed_start b)%nat.
Proof.
  revert q. induction es as [|x es IH]; intros q Hc Hb; [by apply elem_of_nil in Hb|]. cbn in Hc.
  destruct Hc as (C1 & C2 & C3). apply elem_of_cons in Hb as [->|Hb]; [done|]. specialize (IH _ C3 Hb). lia.
Qed.

Lemma chain_filter (p : nat * nat -> bool) pos n rs : chain pos n rs -> chain pos n (List.filter p rs).
Proof.
  revert pos. induction rs as [|[s e] rs IH]; intros pos; [done|]. cbn [chain List.filter]. intros (H1 & H2 & H3).
  destruct (p (s, e)); [cbn [chain]; split_and!; auto|]. eapply chain_weaken; [|apply IH, H3]. lia.
Qed.

Lemma shift_above es pos n x : chain pos n (range_of <$> es) -> (x < pos)%nat -> shift_of es x = 0.
Proof.
  revert pos. induction es as [|a es IH]; intros pos; [done|]. cbn [fmap list_fmap chain range_of].
  intros (H1 & H2 & H3) Hx. unfold shift_of in *. cbn [fmap list_fmap foldr].
  rewrite (proj2 (Nat.leb_gt (ed_end a) x)) by lia. rewrite (IH (ed_end a) H3); lia.
Qed.

Lemma shift_lower es pos n x : chain pos n (range_of <$> es) -> (pos <= x)%nat ->
  - Z.of_nat (x - pos) <= shift_of es x.
Proof.
  revert pos. induction es as [|a es IH]; intros pos; [unfold shift_of; cbn; lia|].
  cbn [fmap list_fmap chain range_of]. intros (H1 & H2 & H3) Hx.
  assert (shift_of (a :: es) x = (if (ed_end a <=? x)%nat
      then Z.of_nat (length (ed_text a)) - Z.of_nat (ed_end a - ed_start a) else 0) + shift_of es x) as -> by done.
  destruct (Nat.leb_spec (ed_end a) x).
  - specialize (IH (ed_end a) H3 ltac:(lia)). lia.
  - rewrite (shift_above es (ed_end a) n x H3) by lia. lia.
Qed.

(** Where a character of the spliced text comes from. *)
Lemma splice_positions event pos written es : chain pos (length event) (range_of <$> es) ->
  let '(t, spans) := splice event pos written es in
  forall j c, t !! j = Some c ->
    (exists sp, sp ∈ spans /\ (sp.1 <= written + j < sp.2)%nat) \/
    (exists p, (pos <= p)%nat /\ event !! p = Some c /\ (forall a, a ∈ es -> ~ (ed_start a <= p < ed_end a)%nat) /\
       Z.of_nat (written + j) = Z.of_nat p + (Z.of_nat written - Z.of_nat pos) + shift_of es p).
Proof.
  revert pos written. induction es as [|a es IH]; intros pos written Hc.
  { cbn. intros j c Hj. right. rewrite lookup_drop in Hj. exists (pos + j)%nat. split; [lia|]. split; [done|].
    split; [by intros ? []%elem_of_nil|]. unfold shift_of. cbn. lia. }
  cbn [splice fmap list_fmap chain range_of] in *. destruct Hc as (H1 & H2 & Hc).
  specialize (IH (ed_end a) (written + (ed_start a - pos) + length (ed_text a))%nat Hc).
  destruct (splice event (ed_end a) _ es) as [t spans]. intros j c Hj.
  pose proof (chain_le _ _ _ Hc) as Hle.
  assert (length (slice pos (ed_start a) event) = (ed_start a - pos)%nat) as Hg by (apply length_slice; lia).
  destruct (Nat.lt_ge_cases j (ed_start a - pos)) as [Hj1|Hj1].
  { right. rewrite lookup_app_l in Hj by lia. exists (pos + j)%nat. unfold slice in Hj.
    rewrite lookup_take_lt, lookup_drop in Hj by lia. split; [lia|]. split; [done|].
    assert (forall b, b ∈ a :: es -> (pos + j < ed_start b)%nat) as Hb.
    { intros b [->|Hb]%elem_of_cons; [lia|]. pose proof (chain_starts _ _ _ _ Hc Hb). lia. }
    split; [intros b Hin; specialize (Hb b Hin); lia|].
    rewrite (shift_above (a :: es) (ed_start a) (length event)); [lia| |lia]. cbn. split_and!; [lia|lia|done]. }
  rewrite lookup_app_r in Hj by lia. rewrite Hg in Hj.
  destruct (Nat.lt_ge_cases (j - (ed_start a - pos)) (length (ed_text a))) as [Hj2|Hj2].
  { left. eexists. split; [left|]. cbn. lia. }
  rewrite lookup_app_r in Hj by lia. destruct (IH _ _ Hj) as [(sp & Hin & Hsp)|(p & P1 & P2 & P3 & P4)].
  - left. exists sp. split; [by right|]. lia.
  - right. exists p. split; [lia|]. split; [done|]. split.
    + intros b [->|Hb]%elem_of_cons; [lia|by apply P3].
    + assert (shift_of (a :: es) p = Z.of_nat (length (ed_text a)) - Z.of_nat (ed_end a - ed_start a) + shift_of es p) as ->.
      { unfold shift_of. cbn [fmap list_fmap foldr]. by rewrite (proj2 (Nat.leb_le (ed_end a) p)) by lia. }
      lia.
Qed.

(** The values and stand-ins of a ledger have characters. *)
Definition ledger_ok (lg : ledger) : Prop := map_Forall (fun v s => v <> [] /\ s <> []) (lg_mapping lg).

Context (lg : ledger) (ok : ledger_ok lg) (values : list text) (nonempty_values : Forall (fun v => v <> []) values).
Abbreviation pattern := (Some (trie_pattern values)).

Lemma residual_ranges (P : nat * nat * text -> bool) event masked :
  (forall h, h ∈ List.filter P (find_residuals event pattern masked) ->
     h.2 = slice h.1.1 h.1.2 event /\ h.1 ∈ finditer (trie_pattern values) 0 0 None event /\
     is_masked (merge_masks masked) h.1.1 h.1.2 = false) /\
  chain 0 (length event) (range_of <$> (replacement lg <$> List.filter P (find_residuals event pattern masked))).
Proof.
  cbn [find_residuals]. split.
  - intros h [Hin%list_elem_of_In Hp]%list_elem_of_In%List.filter_In.
    apply list_elem_of_fmap in Hin as (r & -> & [Hin%list_elem_of_In Hm]%list_elem_of_In%List.filter_In).
    cbn. split; [done|]. split; [done|]. by apply negb_true_iff.
  - pose proof (finditer_chain values 0 0 None event nonempty_values ltac:(lia)) as Hc. cbn [Nat.add] in Hc.
    apply (chain_filter (fun h => negb (is_masked (merge_masks masked) h.1 h.2))) in Hc.
    revert Hc. generalize (List.filter (fun h => negb (is_masked (merge_masks masked) h.1 h.2))
      (finditer (trie_pattern values) 0 0 None event)) as l. intros l Hc.
    apply (chain_filter (fun h => P (h, slice h.1 h.2 event))) in Hc.
    replace (range_of <$> (replacement lg <$> List.filter P ((fun h => (h, slice h.1 h.2 event)) <$> l)))
      with (List.filter (fun h => P (h, slice h.1 h.2 event)) l); [done|].
    clear. induction l as [|[s e] l IH]; [done|]. cbn. destruct (P _); cbn; by rewrite IH.
Qed.

Definition cov (masked : list (nat * nat)) (p : nat) : bool :=
  existsb (fun m => (m.1 <=? p)%nat && (p <? m.2)%nat) masked.

Lemma cov_spec masked p : cov masked p = true <-> covered masked p.
Proof.
  unfold cov, covered. rewrite existsb_exists. setoid_rewrite list_elem_of_In. apply exist_proper. intros m.
  rewrite andb_true_iff, Nat.leb_le, Nat.ltb_lt. done.
Qed.

(** The positions outside the masked ranges. *)
Definition open_positions (event : text) (masked : list (nat * nat)) : list nat :=
  List.filter (fun p => negb (cov masked p)) (seq 0 (length event)).

Lemma open_spec event masked p : p ∈ open_positions event masked <-> (p < length event)%nat /\ ~ covered masked p.
Proof.
  unfold open_positions. rewrite list_elem_of_In, List.filter_In, in_seq, negb_true_iff, <- not_true_iff_false, cov_spec.
  split; intros [? ?]; (split; [lia|done]).
Qed.

(** Replacements that stay clear of the masked ranges. *)
Definition clear_of (masked : list (nat * nat)) (a : edit) : Prop :=
  (ed_start a < ed_end a)%nat /\ ed_text a <> [] /\
  forall p, (ed_start a <= p < ed_end a)%nat -> ~ covered masked p.

Lemma shift_same es masked m x : Forall (clear_of masked) es -> m ∈ masked -> (m.1 <= x <= m.2)%nat -> proper_mask m ->
  shift_of es x = shift_of es m.1.
Proof.
  intros Hc Hm Hx Hp. unfold shift_of. induction Hc as [|a es Ha _ IH]; [done|]. cbn [fmap list_fmap foldr]. rewrite IH.
  f_equal. destruct Ha as (H1 & _ & H2).
  assert (ed_end a <= m.1 \/ m.2 <= ed_start a)%nat as [H|H].
  { destruct (Nat.le_gt_cases (ed_end a) m.1); [by left|]. destruct (Nat.le_gt_cases m.2 (ed_start a)); [by right|].
    exfalso. apply (H2 (Nat.max (ed_start a) m.1)); [unfold proper_mask in Hp; lia|]. exists m. split; [done|].
    unfold proper_mask in Hp. lia. }
  - by rewrite !(proj2 (Nat.leb_le _ _)) by lia.
  - by rewrite !(proj2 (Nat.leb_gt _ _)) by lia.
Qed.

(** A round: the ranges stay proper, and every character left open was open
    before, outside the replaced hits. *)
Lemma round_spec event masked es : chain 0 (length event) (range_of <$> es) -> Forall (clear_of masked) es ->
  Forall proper_mask masked ->
  let '(event', added) := splice event 0 0 es in
  let masked' := ((fun m => (moved es m.1, moved es m.2)) <$> masked) ++ added in
  Forall proper_mask masked' /\
  forall p c, event' !! p = Some c -> ~ covered masked' p ->
    exists q, p = moved es q /\ event !! q = Some c /\ ~ covered masked q /\
      forall a, a ∈ es -> ~ (ed_start a <= q < ed_end a)%nat.
Proof.
  intros Hch Hcl Hp. pose proof (splice_positions event 0 0 es Hch) as Hpos.
  pose proof (splice_spec event 0 0 es [] Hch eq_refl) as Hsp. destruct (splice event 0 0 es) as [event' added].
  cbn [app] in Hsp. destruct Hsp as (S1 & S2 & _). cbv zeta. rewrite Forall_forall in Hp.
  assert (forall x, 0 <= Z.of_nat x + shift_of es x) as Hnn.
  { intros x. pose proof (shift_lower es 0 (length event) x Hch ltac:(lia)). lia. }
  split.
  - apply Forall_app. split.
    + apply Forall_fmap, Forall_forall. intros m Hm. specialize (Hp m Hm). unfold compose, proper_mask, moved in *. cbn.
      pose proof (shift_same es masked m m.2 Hcl Hm ltac:(lia) Hp) as E. specialize (Hnn m.1). lia.
    + apply Forall_forall. intros sp Hin. apply list_elem_of_lookup in Hin as [i Hi].
      destruct (Forall2_lookup_r _ _ _ _ _ S1 Hi) as (a & Ha & Hs). rewrite Forall_forall in Hcl.
      destruct (Hcl a) as (_ & Hne & _); [by eapply list_elem_of_lookup_2|]. unfold proper_mask.
      destruct (Nat.lt_ge_cases sp.1 sp.2); [done|]. destruct Hne. rewrite <- Hs. unfold slice.
      replace (sp.2 - sp.1)%nat with 0%nat by lia. done.
  - intros p c Hc Hu. destruct (Hpos p c Hc) as [(sp & Hin & Hr)|(q & _ & Q2 & Q3 & Q4)].
    { destruct Hu. exists sp. split; [apply elem_of_app; by right|done]. }
    assert (p = moved es q) as Ep by (unfold moved; lia). exists q. split; [done|]. split; [done|]. split; [|done].
    intros (m & Hm & Hr). destruct Hu. exists (moved es m.1, moved es m.2). split.
    { apply elem_of_app. left. apply list_elem_of_fmap. by exists m. }
    pose proof (shift_same es masked m m.2 Hcl Hm ltac:(lia) (Hp m Hm)) as E2.
    pose proof (shift_same es masked m q Hcl Hm ltac:(lia) (Hp m Hm)) as Eq.
    unfold moved in *. cbn. pose proof (Hnn m.1). lia.
Qed.

Lemma round_decreases event masked es : chain 0 (length event) (range_of <$> es) -> Forall (clear_of masked) es ->
  Forall proper_mask masked -> es <> [] ->
  let '(event', added) := splice event 0 0 es in
  (length (open_positions event' (((fun m => (moved es m.1, moved es m.2)) <$> masked) ++ added))
   < length (open_positions event masked))%nat.
Proof.
  intros Hch Hcl Hp Hne. pose proof (round_spec event masked es Hch Hcl Hp) as Hr.
  destruct (splice event 0 0 es) as [event' added]. destruct Hr as [_ Hr]. set (masked' := _ ++ added) in *.
  destruct es as [|a es]; [done|]. apply Forall_cons in Hcl as [(A1 & _ & A2) _].
  cbn [fmap list_fmap chain range_of] in Hch. destruct Hch as (_ & _ & Hch). apply chain_le in Hch.
  set (kept := List.filter (fun q => negb ((ed_start a <=? q)%nat && (q <? ed_end a)%nat)) (open_positions event masked)).
  assert (open_positions event' masked' ⊆+ moved (a :: es) <$> kept) as Hsub.
  { apply NoDup_submseteq; [apply NoDup_ListNoDup, List.NoDup_filter, seq_NoDup|].
    intros p [Hl Hu]%open_spec. destruct (lookup_lt_is_Some_2 event' p Hl) as [c Hc].
    destruct (Hr p c Hc Hu) as (q & -> & Q1 & Q2 & Q3). apply list_elem_of_fmap. exists q. split; [done|].
    apply list_elem_of_In, List.filter_In. split; [apply list_elem_of_In, open_spec; split; [by eapply lookup_lt_Some|done]|].
    specialize (Q3 a ltac:(left)). destruct (Nat.leb_spec (ed_start a) q), (Nat.ltb_spec q (ed_end a)); try done. lia. }
  apply submseteq_length in Hsub. rewrite length_fmap in Hsub. eapply Nat.le_lt_trans; [exact Hsub|].
  assert (ed_start a ∈ open_positions event masked) as Hin by (apply open_spec; split; [lia|apply A2; lia]).
  subst kept. revert Hin. generalize (open_positions event masked) as l. induction l as [|x l IH]; [by intros []%elem_of_nil|].
  intros [<-|Hin]%elem_of_cons.
  - cbn [List.filter]. rewrite Nat.leb_refl, (proj2 (Nat.ltb_lt _ _)) by lia. cbn [andb negb length].
    pose proof (List.filter_length_le (fun q => negb ((ed_start a <=? q)%nat && (q <? ed_end a)%nat)) l). lia.
  - specialize (IH Hin). cbn [List.filter]. destruct (negb _); cbn [length]; lia.
Qed.

Lemma targets_clear (P : nat * nat * text -> bool) event masked : Forall proper_mask masked ->
  (forall h, P h = true -> is_Some (lg_mapping lg !! h.2)) ->
  Forall (clear_of masked) (replacement lg <$> List.filter P (find_residuals event pattern masked)).
Proof.
  intros Hp HP. apply Forall_fmap, Forall_forall. intros h Hin. unfold compose.
  pose proof Hin as [_ Ht]%list_elem_of_In%List.filter_In. apply HP in Ht as [s Hs].
  apply (proj1 (residual_ranges P event masked)) in Hin as (_ & Hf & Hm).
  apply finditer_sound in Hf as (i & k & Eh & _ & _ & Hk); [|done].
  unfold replacement, clear_of. cbn. rewrite Hs. cbn. rewrite Eh in *. cbn in *. split_and!; [lia|by apply (ok h.2 s)|].
  intros p Hpr Hc. apply not_true_iff_false in Hm. apply Hm, merge_masks_spec; [done|lia|]. by exists p.
Qed.

(** The loop ends, with no target left, and leaves open only what was open. *)
Lemma sweep_spec wanted rounds event masked : Forall proper_mask masked ->
  (length (open_positions event masked) < rounds)%nat ->
  exists event' masked', sweep rounds lg pattern wanted event masked = Some (event', masked') /\
    Forall proper_mask masked' /\ List.filter (is_target lg wanted) (find_residuals event' pattern masked') = [] /\
    (forall p c, event' !! p = Some c -> ~ covered masked' p -> exists q, event !! q = Some c /\ ~ covered masked q).
Proof.
  revert event masked. induction rounds as [|rounds IH]; intros event masked Hp Hr; [lia|]. cbn [sweep].
  destruct (residual_ranges (is_target lg wanted) event masked) as [_ Hch].
  pose proof (targets_clear (is_target lg wanted) event masked Hp) as Hcl.
  destruct (List.filter (is_target lg wanted) (find_residuals event pattern masked)) as [|h hs] eqn:E.
  { exists event, masked. split; [done|]. split; [done|]. split; [done|]. eauto. }
  specialize (Hcl ltac:(intros x Hx; unfold is_target in Hx; by apply andb_true_iff in Hx as [Hx%bool_decide_eq_true _])).
  set (es := replacement lg <$> h :: hs) in *.
  pose proof (round_spec event masked es Hch Hcl Hp) as Hrs.
  pose proof (round_decreases event masked es Hch Hcl Hp ltac:(done)) as Hrd.
  destruct (splice event 0 0 es) as [event1 added]. destruct Hrs as [Hp1 Ho1].
  destruct (IH event1 (((fun m => (moved es m.1, moved es m.2)) <$> masked) ++ added) Hp1 ltac:(lia))
    as (event' & masked' & E' & Hp' & Ht & Ho). exists event', masked'. split; [done|]. split; [done|]. split; [done|].
  intros p c Hc Hu. destruct (Ho p c Hc Hu) as (q & Hq & Hqu). destruct (Ho1 q c Hq Hqu) as (q' & _ & ? & ? & _). eauto.
Qed.

Lemma open_length event masked : (length (open_positions event masked) <= length event)%nat.
Proof. unfold open_positions. etrans; [apply List.filter_length_le|]. by rewrite length_seq. Qed.

Lemma sweep_event_spec wanted event masked : Forall proper_mask masked ->
  exists event' masked', sweep_event (S (length event)) lg pattern wanted event masked = Some (event', masked') /\
    Forall proper_mask masked' /\
    (forall p c, event' !! p = Some c -> ~ covered masked' p -> exists q, event !! q = Some c /\ ~ covered masked q).
Proof.
  intros Hp. unfold sweep_event. case_bool_decide; [exists event, masked; eauto 10|].
  destruct (sweep_spec wanted (S (length event)) event masked Hp) as (event' & masked' & E & H1 & _ & H2).
  { pose proof (open_length event masked). lia. }
  eauto 10.
Qed.

(** What a scan of an event reports. *)
Lemma residual_reported event masked v p : Forall proper_mask masked ->
  apart values -> v ∈ values -> token_at values None event p (length v) ->
  take (length v) (drop p event) = v ->
  (exists q, (p <= q < p + length v)%nat /\ covered masked q) \/
  ((p, (p + length v)%nat), v) ∈ find_residuals event pattern masked.
Proof.
  intros Hp Hal Hv Ht Ev. pose proof (finditer_complete values Hal 0 0 None event p (length v)) as Hf.
  specialize (Hf ltac:(lia) Ht). cbn [Nat.add] in Hf.
  assert (1 <= length v)%nat as Hl.
  { rewrite Forall_forall in nonempty_values. specialize (nonempty_values v Hv). destruct v; [done|cbn; lia]. }
  destruct (is_masked (merge_masks masked) p (p + length v)) eqn:E.
  - left. by apply merge_masks_spec in E; [|done|lia].
  - right. cbn [find_residuals]. apply list_elem_of_fmap. exists (p, (p + length v)%nat). cbn. split.
    + f_equal. unfold slice. by replace (p + length v - p)%nat with (length v) by lia.
    + apply list_elem_of_In, List.filter_In. cbn. rewrite E. split; [by apply list_elem_of_In|done].
Qed.
End Round.

(** ** Blocking *)

Lemma places_of_elem fs f : f ∈ fs -> fg_where f ∈ places_of fs (label f, long_enough f) (in_config f).
Proof.
  intros Hin. unfold places_of.
  assert (forall ws acc w, w ∈ ws \/ w ∈ acc -> w ∈ foldl add_place acc ws) as Hadd.
  { induction ws as [|x ws IH]; intros acc w [Hw|Hw]; cbn [foldl]; [by apply elem_of_nil in Hw|done| |];
      apply IH; unfold add_place; case_bool_decide; set_solver. }
  apply Hadd. left. apply list_elem_of_fmap. exists f. split; [done|].
  apply list_elem_of_In, List.filter_In. split; [by apply list_elem_of_In|].
  rewrite bool_decide_true by done. by destruct (in_config f).
Qed.

Lemma nothing_blocks fs f : (residual_problems fs).1 = [] -> f ∈ fs -> long_enough f = false.
Proof.
  intros Hb Hin. destruct (long_enough f) eqn:El; [|done]. exfalso.
  assert ((label f, long_enough f) ∈ keys_of fs) as Hk.
  { unfold keys_of. rewrite (merge_sort_Permutation key_before), elem_of_elements, elem_of_list_to_set.
    apply list_elem_of_fmap. by exists f. }
  pose proof (places_of_elem fs f Hin) as Hp. rewrite El in Hp, Hk.
  assert (forall x, x ∈ (problems_of fs (label f, true)).1 -> False) as Hno.
  { intros x Hx. unfold residual_problems in Hb. cbn [fst] in Hb. enough (x ∈ @nil problem) by (by apply elem_of_nil in H).
    rewrite <- Hb. apply list_elem_of_In, in_concat. exists (problems_of fs (label f, true)).1. split; [|by apply list_elem_of_In].
    apply list_elem_of_In, list_elem_of_fmap. eexists. split; [done|]. apply list_elem_of_fmap. eauto. }
  unfold problems_of in Hno. cbn [snd fst] in Hno. destruct (in_config f).
  - eapply Hno. apply elem_of_app. right. rewrite bool_decide_false; [left|]. intros E. rewrite E in Hp. by apply elem_of_nil in Hp.
  - eapply Hno. apply elem_of_app. left. rewrite bool_decide_false; [left|]. intros E. rewrite E in Hp. by apply elem_of_nil in Hp.
Qed.

(** ** What the pass leaves for the scan *)

Section Ledger.
Context (digest : text -> Z) (json_parses : text -> bool) (digest_nonneg : forall t, 0 <= digest t).

Lemma pseudonym_nonempty span widen t : widening widen -> pseudonym digest span widen = Ok (Some t) -> span <> [] /\ t <> [].
Proof.
  intros Hw E. split.
  - intros ->. done.
  - intros ->. destruct (stand_in_spec widen span (fun _ => digest span) Hw) as (o & Eo & Ho); [by intros|].
    unfold pseudonym in E. rewrite E in Eo. injection Eo as <-. destruct Ho as [Ho Hr].
    apply readable_shape in Hr. by rewrite <- Ho in Hr.
Qed.

Lemma note_match_ok f widen event m lg es lg' es' : widening widen -> ledger_ok lg ->
  note_match digest (f, widen) event m (lg, es) = Ok (lg', es') -> ledger_ok lg'.
Proof.
  intros Hw Hok. destruct m as [|s e]; [done|]. cbn [note_match]. destruct (e <=? s)%nat; [by intros [= <- <-]|].
  destruct (pseudonym digest (slice s e event) widen) as [[t|]|] eqn:Ep; cbn [mbind result_bind]; [| |done].
  - destruct (match lg_by_output lg !! _ with Some _ => _ | None => _ end); [done|]. intros [= <- <-].
    unfold ledger_ok. cbn. apply map_Forall_insert_2; [|done]. by eapply pseudonym_nonempty.
  - by intros [= <- <-].
Qed.

Lemma fold_fields_ok cs event lg es lg' es' : compiled_ok cs -> ledger_ok lg ->
  fold_fields digest cs event (lg, es) = Ok (lg', es') -> ledger_ok lg'.
Proof.
  revert lg es. induction cs as [|[f widen] cs IH]; intros lg es Hc Hok E; [by injection E as <- <-|].
  cbn [fold_fields fst] in E.
  destruct (fold_matches digest (f, widen) event (fd_find f event) (lg, es)) as [[lg1 es1]|] eqn:E1; [|done].
  cbn [mbind result_bind] in E. eapply (IH lg1); [intros g u Hin; apply (Hc g); by right| |exact E].
  clear IH E. revert lg es Hok E1. induction (fd_find f event) as [|m ms IH]; intros lg es Hok E1; [by injection E1 as <- <-|].
  cbn [fold_matches] in E1. destruct (note_match digest (f, widen) event m (lg, es)) as [[lg2 es2]|] eqn:E2; [|done].
  cbn [mbind result_bind] in E1. eapply IH; [|exact E1]. eapply note_match_ok; [apply (Hc f); left|exact Hok|exact E2].
Qed.

Lemma rewrite_all_ok cs events lg lg' outs : compiled_ok cs -> ledger_ok lg ->
  rewrite_all digest json_parses cs events lg = Ok (lg', outs) -> ledger_ok lg'.
Proof.
  intros Hc. revert lg outs. induction events as [|ev events IH]; intros lg outs Hok E; [by injection E as <- <-|].
  cbn [rewrite_all] in E. destruct (rewrite_event digest json_parses cs ev lg) as [[lg1 out]|] eqn:E1; [|done].
  cbn [mbind result_bind] in E. destruct (rewrite_all digest json_parses cs events lg1) as [[lg2 outs2]|] eqn:E2; [|done].
  cbn [mbind result_bind] in E. injection E as <- <-. eapply IH; [|exact E2].
  unfold rewrite_event in E1. destruct (fold_fields digest cs ev (lg, [])) as [[lg3 es]|] eqn:E3; [|done].
  cbn [mbind result_bind] in E1. apply fold_fields_ok in E3; [|done..].
  destruct (overlaps _); [done|]. destruct (bool_decide _); [by injection E1 as <- <-|].
  destruct (_ && _); [done|]. by injection E1 as <- <-.
Qed.

(** The report of a pass: a ledger of texts with characters, and proper ranges. *)
Lemma pass_ready events fields cs rep : compile_all fields = Ok cs -> in_text cs ->
  pseudonymise_events digest json_parses events fields = Ok rep ->
  ledger_ok (rp_ledger rep) /\ Forall (fun out => Forall proper_mask out.2) (zip (rp_events rep) (rp_rewritten rep)).
Proof.
  intros Ec Hin. unfold pseudonymise_events. rewrite Ec. cbn [mbind result_bind].
  destruct (rewrite_all digest json_parses cs events new_ledger) as [[lg outs]|] eqn:E; [|done].
  cbn [mbind result_bind]. intros [= <-]. destruct (compile_all_ok _ _ Ec) as [Hok _]. cbn. rewrite zip_fst_snd. split.
  - eapply rewrite_all_ok; [exact Hok| |exact E]. apply map_Forall_empty.
  - apply rewrite_all_spec in E as (_ & _ & W); [|done..]. clear - W Hok digest_nonneg.
    induction W as [|ev out events outs [(es & He & Hs & _) _] _ IH]; constructor; [|done].
    apply Forall_forall. intros sp Hsp. apply list_elem_of_lookup in Hsp as [i Hi].
    destruct (Forall2_lookup_r _ _ _ _ _ Hs Hi) as (a & Ha & Et). apply list_elem_of_lookup_2, He in Ha.
    destruct Ha as (f & widen & Hf & _ & _ & Hp). apply pseudonym_nonempty in Hp as [_ Hp]; [|by eapply Hok].
    unfold proper_mask. destruct (Nat.lt_ge_cases sp.1 sp.2); [done|]. destruct Hp. rewrite <- Et. unfold slice.
    by replace (sp.2 - sp.1)%nat with 0%nat by lia.
Qed.
End Ledger.

(** ** The scan *)

Definition enough_rounds (event : text) : nat := S (length event).

(** An original of the ledger stands in a text as a whole token. *)
Definition survives (lg : ledger) (v t : text) (p : nat) : Prop :=
  is_Some (lg_mapping lg !! v) /\ (RESIDUAL_MIN_REFUSE <= length v)%nat /\ take (length v) (drop p t) = v /\
  (p + length v <= length t)%nat /\
  bounded (before None t p) = true /\ bounded (head (drop (p + length v) t)) = true.

Section Scan.
Context (lg : ledger) (ok : ledger_ok lg).

Abbreviation values := (map_to_list (lg_mapping lg)).*1.

(** No two originals of the ledger can overlap. *)
Context (Hapart : apart values).

Lemma values_spec v : v ∈ values <-> is_Some (lg_mapping lg !! v).
Proof.
  rewrite list_elem_of_fmap. split.
  - intros ([v' s] & -> & H%elem_of_map_to_list). by eexists.
  - intros [s H]. exists (v, s). split; [done|]. by apply elem_of_map_to_list.
Qed.

Lemma values_ok : Forall (fun v => v <> []) values.
Proof. apply Forall_forall. intros v [s Hv]%values_spec. by apply (ok v s). Qed.

Lemma regex_eq : lg_mapping lg <> ∅ -> residual_regex values = Some (trie_pattern values).
Proof.
  intros Hne. unfold residual_regex. pose proof values_ok as Hv.
  replace (List.filter (fun v => negb (bool_decide (v = []))) values) with values.
  - rewrite bool_decide_false; [done|]. intros E. apply fmap_nil_inv in E. by apply map_to_list_empty_iff in E.
  - revert Hv. generalize values as l. induction 1 as [|v l Hv _ IH]; [done|]. cbn. rewrite bool_decide_false by done. cbn. by f_equal.
Qed.

Lemma sweep_all_spec wanted outs : Forall (fun out => Forall proper_mask out.2) outs ->
  exists outs', sweep_all enough_rounds lg (Some (trie_pattern values)) wanted outs = Some outs' /\
    Forall2 (fun out out' => Forall proper_mask out'.2 /\
      forall p c, out'.1 !! p = Some c -> ~ covered out'.2 p -> exists q, out.1 !! q = Some c /\ ~ covered out.2 q) outs outs'.
Proof.
  induction 1 as [|[event masked] outs Hp _ IH]; [by exists []|]. cbn [snd] in Hp. pose proof values_ok as Hv.
  destruct (sweep_event_spec lg ok values Hv wanted event masked Hp) as (ev' & m' & E & H1 & H2).
  destruct IH as (outs' & E' & H'). exists ((ev', m') :: outs'). cbn [sweep_all]. unfold enough_rounds at 1. rewrite E, E'.
  split; [done|]. by constructor.
Qed.

(** A surviving original is under a mask or among the findings. *)
Lemma survivor_found (w : place_of) v t masked p : Forall proper_mask masked -> survives lg v t p ->
  (exists q, (p <= q < p + length v)%nat /\ covered masked q) \/
  mkFinding w v (lg_origin lg !! v) ∈
    omap (fun h => match lg_mapping lg !! h.2 with
                   | Some _ => Some (mkFinding w h.2 (lg_origin lg !! h.2))
                   | None => None
                   end) (find_residuals t (Some (trie_pattern values)) masked).
Proof.
  intros Hp ([s Hs] & _ & Ev & Hl & Hb & Hn). pose proof values_ok as Hv.
  assert (v ∈ values) as Hin by (apply values_spec; by eexists).
  destruct (residual_reported values Hv t masked v p Hp Hapart Hin) as [Hc|Hf]; [by split_and!; rewrite ?Ev|done|by left|].
  right. apply list_elem_of_omap. eexists. split; [exact Hf|]. cbn. by rewrite Hs.
Qed.
End Scan.

(** No two originals can overlap in a text as whole tokens. *)
Definition originals_apart (lg : ledger) : Prop :=
  forall u v i, is_Some (lg_mapping lg !! u) -> is_Some (lg_mapping lg !! v) -> ~ clash u v i.

Lemma ledger_apart lg : ledger_ok lg -> originals_apart lg -> apart (map_to_list (lg_mapping lg)).*1.
Proof. intros Hok Ha. split; [by apply values_ok|]. intros u v i Hu%values_spec Hv%values_spec. by apply Ha. Qed.

(** C30: the residual scan ends, and when nothing it finds blocks the build, no
    original of five characters or more is left.  Take a pass over events no two
    of whose originals can overlap in a text as whole tokens (alphanumeric ones never do).
    The scan returns with one round per character of an event and one more; it
    leaves open no character that the pass had covered; and if there is no
    blocking message, every whole-token occurrence of such an original in an event
    touches a range that the pass or the scan wrote, and there is none in the
    other texts of the pack. *)
Theorem no_residual_left digest json_parses events fields cs rep texts wanted :
  (forall t, 0 <= digest t) -> compile_all fields = Ok cs -> in_text cs ->
  pseudonymise_events digest json_parses events fields = Ok rep -> originals_apart (rp_ledger rep) ->
  exists rep' findings, scan_residuals enough_rounds rep texts wanted = Some (rep', findings) /\
    Forall2 (fun out out' => forall p c, out'.1 !! p = Some c -> ~ covered out'.2 p ->
               exists q, out.1 !! q = Some c /\ ~ covered out.2 q)
      (zip (rp_events rep) (rp_rewritten rep)) (zip (rp_events rep') (rp_rewritten rep')) /\
    ((residual_problems findings).1 = [] ->
       (forall ev masked v p, (ev, masked) ∈ zip (rp_events rep') (rp_rewritten rep') ->
          survives (rp_ledger rep) v ev p -> exists q, (p <= q < p + length v)%nat /\ covered masked q) /\
       (forall what t v p, (what, t) ∈ texts -> ~ survives (rp_ledger rep) v t p)).
Proof.
  intros Hd Ec Hin Ep Ha. destruct (pass_ready digest json_parses Hd events fields cs rep Ec Hin Ep) as [Hok Hm].
  apply (ledger_apart _ Hok) in Ha as Hal. clear Ha.
  unfold scan_residuals. case_bool_decide as Hne.
  { exists rep, []. split; [done|]. split; [apply Forall_Forall2_diag, Forall_forall; eauto|]. intros _.
    split; intros *; [intros _|intros _]; intros ([s Hs] & _); rewrite Hne in Hs; done. }
  rewrite (regex_eq _ Hok Hne). destruct (sweep_all_spec _ Hok wanted _ Hm) as (outs & E & Hf). rewrite E.
  eexists _, _. split; [reflexivity|]. cbn [rp_events rp_rewritten rp_ledger]. rewrite zip_fst_snd.
  split; [eapply Forall2_impl; [exact Hf|]; by intros out out' [_ H]|].
  intros Hb. set (findings := _ ++ _) in Hb.
  assert (forall w v, (RESIDUAL_MIN_REFUSE <= length v)%nat ->
    mkFinding w v (lg_origin (rp_ledger rep) !! v) ∈ findings -> False) as Hno.
  { intros w v Hl Hf'. apply (nothing_blocks findings _ Hb) in Hf'. unfold long_enough in Hf'. cbn [fg_value] in Hf'.
    apply Nat.leb_gt in Hf'. lia. }
  split.
  - intros ev masked v p Hin' Hs. apply list_elem_of_lookup in Hin' as [i Hi].
    destruct (Forall2_lookup_r _ _ _ _ _ Hf Hi) as (out & _ & Hpm & _). cbn [snd] in Hpm.
    destruct (survivor_found _ Hok Hal (InEvent i) v ev masked p Hpm Hs) as [Hc|Hfd]; [done|]. exfalso.
    eapply (Hno (InEvent i) v); [apply Hs|]. apply elem_of_app. left.
    apply list_elem_of_In, in_concat. exists (event_findings (rp_ledger rep) (Some (trie_pattern (map_to_list (lg_mapping (rp_ledger rep))).*1)) i (ev, masked)).
    split; [|by apply list_elem_of_In]. apply list_elem_of_In, elem_of_lookup_imap. eauto.
  - intros what t v p Hin' Hs. destruct (survivor_found _ Hok Hal (InConfig what) v t [] p ltac:(constructor) Hs) as [(q & _ & m & []%elem_of_nil & _)|Hfd].
    eapply (Hno (InConfig what) v); [apply Hs|]. apply elem_of_app. right.
    apply list_elem_of_In, in_concat. exists (text_findings (rp_ledger rep) (Some (trie_pattern (map_to_list (lg_mapping (rp_ledger rep))).*1)) (what, t)).
    split; [|by apply list_elem_of_In]. apply list_elem_of_In, list_elem_of_fmap. eauto.
Qed.

(** [clash], decided. *)
Definition clashes (u v : text) (i : nat) : bool :=
  (i <? length u)%nat
  && forallb (fun j => (length u <=? i + j)%nat || (length v <=? j)%nat || bool_decide (u !! (i + j)%nat = v !! j)) (seq 0 (length v))
  && negb ((i =? 0)%nat && bool_decide (u = v)) && bounded (before None u i) && bounded (u !! (i + length v)%nat)
  && bounded (v !! (length u - i)%nat).

Lemma clashes_complete u v i : clash u v i -> clashes u v i = true.
Proof.
  intros (Hi & Hag & Hne & B1 & B2 & B3). unfold clashes. rewrite B1, B2, B3, (proj2 (Nat.ltb_lt _ _) Hi), !andb_true_r. cbn [andb].
  apply andb_true_iff. split.
  - apply forallb_forall. intros j [_ Hj]%in_seq.
    destruct (Nat.leb_spec (length u) (i + j)); [done|]. destruct (Nat.leb_spec (length v) j); [done|].
    apply bool_decide_eq_true. apply Hag; lia.
  - apply negb_true_iff, andb_false_iff. destruct (Nat.eqb_spec i 0); [right|by left].
    apply bool_decide_eq_false. auto.
Qed.

Definition all_apart (lg : ledger) : bool :=
  let vs := (map_to_list (lg_mapping lg)).*1 in
  forallb (fun u => forallb (fun v => forallb (fun i => negb (clashes u v i)) (seq 0 (length u))) vs) vs.

Lemma all_apart_sound lg : all_apart lg = true -> originals_apart lg.
Proof.
  unfold all_apart. rewrite forallb_forall. intros H u v i Hu%values_spec%list_elem_of_In Hv%values_spec%list_elem_of_In Hc.
  specialize (H u Hu). rewrite forallb_forall in H. specialize (H v Hv). rewrite forallb_forall in H.
  specialize (H i). rewrite clashes_complete in H by done. discriminate H. apply in_seq. destruct Hc as [Hi _]. lia.
Qed.

Section Witnesses.

(** What stands after [id=] up to a blank, dashes included. *)
Fixpoint leading_word (t : text) : nat :=
  match t with c :: t => if is_alnum c || Ascii.eqb c "-" then S (leading_word t) else O | [] => O end.
Definition find_word (event : text) : list span_match :=
  if bool_decide (take 3 event = chars "id=") then [Span 3 (3 + leading_word (drop 3 event))] else [].
Definition word_field : field := mkField "client_id" None find_word.

Lemma find_word_in_text : in_text [(word_field, None)].
Proof.
  intros f widen event s e [= -> ->]%list_elem_of_singleton. cbn. unfold find_word. case_bool_decide as Ht; [|by intros []%elem_of_nil].
  intros [= -> ->]%list_elem_of_singleton.
  assert (forall t, (leading_word t <= length t)%nat) as Hl.
  { induction t as [|c t IH]; cbn; [lia|]. destruct (_ || _); lia. }
  specialize (Hl (drop 3 event)). apply (f_equal length) in Ht. rewrite length_drop in Hl. rewrite length_take in Ht.
  change (length (chars "id=")) with 3%nat in Ht. lia.
Qed.

Definition word_events : list text := chars <$> ["id=4711-0042 seen 4711-0042"; "id=90aa-17 gone"].
Definition word_report : result report := pseudonymise_events fnv1a64 (fun _ => false) word_events [word_field].
Definition scanned (rep : report) : option (report * list finding) :=
  scan_residuals enough_rounds rep [("eventgen.conf", chars "token.0.replacement = x")] ["client_id"].

Definition word_check : bool :=
  match word_report with
  | Ok rep =>
      all_apart (rp_ledger rep) && match lg_mapping (rp_ledger rep) !! chars "4711-0042" with Some _ => true | None => false end
      && match scanned rep with
         | Some (_, fs) => match (residual_problems fs).1 with [] => true | _ => false end
         | None => false
         end
  | Raise _ => false
  end.

(** Two dashed originals, one of which stands a second time in its event. *)
Lemma no_residual_left_witness :
  exists rep rep' findings, word_report = Ok rep /\ scanned rep = Some (rep', findings) /\
    is_Some (lg_mapping (rp_ledger rep) !! chars "4711-0042") /\ (residual_problems findings).1 = [] /\
    (forall ev masked p, (ev, masked) ∈ zip (rp_events rep') (rp_rewritten rep') ->
       survives (rp_ledger rep) (chars "4711-0042") ev p -> exists q, (p <= q < p + 9)%nat /\ covered masked q).
Proof.
  assert (word_check = true) as Hc by (vm_compute; reflexivity). unfold word_check in Hc.
  destruct word_report as [rep|] eqn:E; [|discriminate Hc].
  apply andb_true_iff in Hc as [[Ha Hs]%andb_true_iff Hb].
  destruct (no_residual_left fnv1a64 (fun _ => false) word_events [word_field] [(word_field, None)] rep
              [("eventgen.conf", chars "token.0.replacement = x")] ["client_id"]
              fnv1a64_nonneg eq_refl find_word_in_text E (all_apart_sound _ Ha)) as (rep' & findings & Es & _ & H).
  exists rep, rep', findings. split; [done|]. split; [exact Es|]. split; [by destruct (lg_mapping (rp_ledger rep) !! _)|].
  change (scanned rep = Some (rep', findings)) in Es. rewrite Es in Hb.
  destruct (residual_problems findings).1 eqn:Ep; [|discriminate Hb]. split; [done|]. intros ev masked p Hin Hsv. by apply (proj1 (H eq_refl) ev masked (chars "4711-0042") p).
Defined.

(** Originals that overlap hide each other: of these two only the short one is found. *)
Example overlapping_original_missed :
  clashes (chars "x-ab") (chars "ab-cdef") 2 = true /\
  find_residuals (chars "x-ab-cdef") (residual_regex [chars "x-ab"; chars "ab-cdef"]) [] = [((0, 4)%nat, chars "x-ab")].
Proof. split; vm_compute; reflexivity. Qed.

(** The value of [id] occurs a second time, outside its field. *)
Definition stray_scan (wanted : list string) : option (bool * nat * (list problem * list problem)) :=
  match pseudonymise_events fnv1a64 (fun _ => false) [chars "id=470011 seen 470011"] [id_field] with
  | Raise _ => None
  | Ok rep =>
      '(rep', fs) ← scan_residuals enough_rounds rep [] wanted;
      Some (bool_decide (rp_events rep' = rp_events rep), length (concat (rp_rewritten rep')), residual_problems fs)
  end.

(** Reported it blocks the build; rewritten everywhere, both stand-ins are masked
    and nothing is left to report. *)
Example stray_value_blocks :
  stray_scan [] = Some (true, 1%nat, ([LeftInEvents "client_id" [InEvent 0]], [])) /\
  stray_scan ["client_id"] = Some (false, 2%nat, ([], [])).
Proof. split; vm_compute; reflexivity. Qed.
End Witnesses.
