(* ===== verification/Timestamps.v ===== *)
(** * Timestamps of a recorded line
    (worker/engines/rawreplay/stoker_rawreplay/timestamps.py)

    The three built-in shapes (ISO 8601, syslog, epoch seconds or milliseconds), each
    searched from the left as its regular expression is, and the calendar behind
    them.  The operator's own pattern and format are functions.  Text is ASCII.

    The theorems: the calendar counts days (the next day is one more, across months,
    leap years and centuries), and a timestamp written in ISO form with an offset
    is read as the instant it names, wherever in the line it stands first. *)

From S2P Require Import Prelude.
From S2P Require Import PyFloat.
From S2P Require Import PyValue.
From S2P Require Import PackYaml.
From Stdlib Require Import QArith Ascii Lqa.
Open Scope Z_scope.

(** ** The calendar ([datetime]) *)

Record datetime : Type := mkDatetime { dt_year : Z; dt_month : Z; dt_day : Z; dt_hour : Z; dt_minute : Z; dt_second : Z }.

Definition is_leap (y : Z) : bool := (y mod 4 =? 0) && (negb (y mod 100 =? 0) || (y mod 400 =? 0)).
Definition days_before_year (y : Z) : Z := (y - 1) * 365 + (y - 1) / 4 - (y - 1) / 100 + (y - 1) / 400.
Definition month_lengths (leap : bool) : list Z := [31; if leap then 29 else 28; 31; 30; 31; 30; 31; 31; 30; 31; 30; 31].
Definition days_in_month (y m : Z) : Z := default 0 (month_lengths (is_leap y) !! Z.to_nat (m - 1)).
Definition days_before_month (y m : Z) : Z := foldr Z.add 0 (take (Z.to_nat (m - 1)) (month_lengths (is_leap y))).

(** The proleptic ordinal of a day, and that of 1970-01-01. *)
Definition ordinal (y m d : Z) : Z := days_before_year y + days_before_month y m + d.
Definition EPOCH_ORDINAL : Z := 719163.

(** What the constructor accepts. *)
Definition valid_date (y m d : Z) : bool :=
  (1 <=? y) && (y <=? 9999) && (1 <=? m) && (m <=? 12) && (1 <=? d) && (d <=? days_in_month y m).
Definition valid_datetime (t : datetime) : bool :=
  valid_date (dt_year t) (dt_month t) (dt_day t) && (0 <=? dt_hour t) && (dt_hour t <=? 23) &&
  (0 <=? dt_minute t) && (dt_minute t <=? 59) && (0 <=? dt_second t) && (dt_second t <=? 59).

(** [(dt - _EPOCH).total_seconds()] *)
Definition epoch_seconds (t : datetime) : Z :=
  (ordinal (dt_year t) (dt_month t) (dt_day t) - EPOCH_ORDINAL) * 86400 + dt_hour t * 3600 + dt_minute t * 60 + dt_second t.

(** ** Matching *)

(** Exactly [n] digits. *)
Fixpoint number (n : nat) (acc : Z) (t : text) : option (Z * text) :=
  match n with
  | O => Some (acc, t)
  | S n => match t with c :: t => d ← digit_of c; number n (10 * acc + d) t | [] => None end
  end.

Definition lit (p : ascii -> bool) (t : text) : option text :=
  match t with c :: t => if p c then Some t else None | [] => None end.
Definition char_is (a : ascii) (c : ascii) : bool := Ascii.eqb c a.

(** Up to [n] digits, greedily. *)
Fixpoint digits_upto (n : nat) (t : text) : text * text :=
  match n, t with
  | S n, c :: t' => match digit_of c with Some _ => let '(ds, r) := digits_upto n t' in (c :: ds, r) | None => ([], t) end
  | _, _ => ([], t)
  end.

Inductive offset : Type := Zulu | Offset (sign hours minutes : Z).

Record iso_match : Type := mkIso { im_datetime : datetime; im_frac : text; im_offset : option offset }.

(** [(?:[.,](\d{1,9}))?] *)
Definition fraction (t : text) : text * text :=
  match lit (fun c => char_is "." c || char_is "," c) t with
  | Some r => match digits_upto 9 r with ([], _) => ([], t) | dr => dr end
  | None => ([], t)
  end.

(** [(Z|[+-]\d{2}:?\d{2})?] *)
Definition zone (t : text) : option offset :=
  match t with
  | c :: r =>
      if char_is "Z" c then Some Zulu
      else if char_is "+" c || char_is "-" c then
        '(h, r) ← number 2 0 r;
        '(m, _) ← number 2 0 (default r (lit (char_is ":") r));
        Some (Offset (if char_is "+" c then 1 else -1) h m)
      else None
  | [] => None
  end.

(** [_ISO_RE] at the head of a text. *)
Definition match_iso (t : text) : option iso_match :=
  '(y, t) ← number 4 0 t; t ← lit (char_is "-") t;
  '(mo, t) ← number 2 0 t; t ← lit (char_is "-") t;
  '(d, t) ← number 2 0 t; t ← lit (fun c => char_is "T" c || char_is " " c) t;
  '(h, t) ← number 2 0 t; t ← lit (char_is ":") t;
  '(mi, t) ← number 2 0 t; t ← lit (char_is ":") t;
  '(s, t) ← number 2 0 t;
  let '(frac, t) := fraction t in
  Some (mkIso (mkDatetime y mo d h mi s) frac (zone t)).

Definition is_alpha (c : ascii) : bool :=
  let n := Z.of_N (N_of_ascii c) in ((65 <=? n) && (n <=? 90)) || ((97 <=? n) && (n <=? 122)).

(** [\s+] *)
Definition spaces (t : text) : option text :=
  match t with c :: t' => if is_space c then Some (lstrip t') else None | [] => None end.

(** [\d{1,2}] before a blank *)
Definition day_number (t : text) : option (Z * text) :=
  match number 2 0 t with Some r => Some r | None => number 1 0 t end.

(** [_SYSLOG_RE]: the month's name, the day and the time. *)
Definition match_syslog (t : text) : option (text * (Z * Z * Z * Z)) :=
  match t with
  | a :: b :: c :: r =>
      if is_alpha a && is_alpha b && is_alpha c then
        r ← spaces r; '(d, r) ← day_number r; r ← spaces r;
        '(h, r) ← number 2 0 r; r ← lit (char_is ":") r;
        '(mi, r) ← number 2 0 r; r ← lit (char_is ":") r;
        '(s, r) ← number 2 0 r;
        Some ([a; b; c], (d, h, mi, s))
      else None
  | _ => None
  end.

Definition is_digit (c : ascii) : bool := match digit_of c with Some _ => true | None => false end.
Definition no_digit_next (t : text) : bool := match t with c :: _ => negb (is_digit c) | [] => true end.

(** [_EPOCH_RE] behind the character [prev]: whether the number is of milliseconds, the
    number, and the fraction.  A fraction of more than nine digits is none. *)
Definition match_epoch (prev : option ascii) (t : text) : option (bool * Z * text) :=
  if match prev with Some c => is_digit c || char_is "." c | None => false end then None
  else
    let tail (r : text) : option text :=
      match lit (char_is ".") r with
      | Some r' =>
          let '(ds, rest) := digits_upto 9 r' in
          if negb (bool_decide (ds = [])) && no_digit_next rest then Some ds else Some []
      | None => if no_digit_next r then Some [] else None
      end in
    match number 13 0 t with
    | Some (v, r) =>
        match tail r with
        | Some frac => Some (true, v, frac)
        | None => None
        end
    | None => '(v, r) ← number 10 0 t; frac ← tail r; Some (false, v, frac)
    end.

(** [re.search]: the first position that matches; the matcher sees the character before. *)
Fixpoint search {A} (m : option ascii -> text -> option A) (prev : option ascii) (t : text) : option A :=
  match m prev t with
  | Some a => Some a
  | None => match t with c :: t => search m (Some c) t | [] => None end
  end.

(** ** From a match to an instant *)

Section Parse.
Context {R : Rounding}.

(** [_frac_to_seconds] *)
Definition frac_to_seconds (frac : text) : Q :=
  match frac with
  | [] => 0
  | _ => match number 9 0 (take 9 (frac ++ replicate 9 "0"%char)) with
         | Some (v, _) => fdiv (inject_Z v) (inject_Z (10 ^ 9))
         | None => 0
         end
  end.

Definition offset_seconds (o : option offset) : Z :=
  match o with Some (Offset sign h m) => sign * (h * 3600 + m * 60) | _ => 0 end.

(** [None] for [ValueError] *)
Definition iso_to_epoch (m : iso_match) : option Q :=
  if valid_datetime (im_datetime m)
  then Some (fsub (fadd (inject_Z (epoch_seconds (im_datetime m))) (frac_to_seconds (im_frac m)))
               (inject_Z (offset_seconds (im_offset m))))
  else None.

Definition MONTHS : list string := ["jan"; "feb"; "mar"; "apr"; "may"; "jun"; "jul"; "aug"; "sep"; "oct"; "nov"; "dec"].

Definition month_number (mon : text) : option Z :=
  (fun im => Z.of_nat im.1 + 1) <$> list_find (fun m => m = String.string_of_list_ascii (lower_ascii <$> mon)) MONTHS.

Definition syslog_to_epoch (now_year : Z) (m : text * (Z * Z * Z * Z)) : option Q :=
  let '(mon, (d, h, mi, s)) := m in
  month ← month_number mon;
  let t := mkDatetime now_year month d h mi s in
  if valid_datetime t then Some (inject_Z (epoch_seconds t)) else None.

Definition epoch_match_to_epoch (m : bool * Z * text) : Q :=
  let '(millis, v, frac) := m in
  let value := if millis then fdiv (inject_Z v) 1000 else inject_Z v in
  if bool_decide (frac = []) then value else fadd value (frac_to_seconds frac).

Definition parse_builtin (now_year : Z) (line : text) : option Q :=
  match m ← search (fun _ => match_iso) None line; iso_to_epoch m with
  | Some v => Some v
  | None =>
      match m ← search (fun _ => match_syslog) None line; syslog_to_epoch now_year m with
      | Some v => Some v
      | None => epoch_match_to_epoch <$> search match_epoch None line
      end
  end.

(** The operator's pattern gives the text it captures; the format, the fields of a date and
    time, whose seconds go up to 61. *)
Record parser : Type := mkParser {
  tp_user_re : option (text -> option text);
  tp_strptime : option (text -> option datetime);
  tp_now_year : Z;
}.

(** The shape parsers answer [None] where they fail; the constructor that takes what the
    operator's format gave is not guarded. *)
Definition parse_text (p : parser) (t : text) : result (option Q) :=
  let t := strip_chars t in
  match tp_strptime p with
  | Some strptime =>
      match strptime t with
      | None => Ok None
      | Some d => if valid_datetime d then Ok (Some (inject_Z (epoch_seconds d))) else Raise (ValueError "second must be in 0..59")
      end
  | None => Ok (parse_builtin (tp_now_year p) t)
  end.

Definition parse (p : parser) (line : text) : result (option Q) :=
  match tp_user_re p with
  | Some re => match re line with Some t => parse_text p t | None => Ok None end
  | None => Ok (parse_builtin (tp_now_year p) line)
  end.
End Parse.

(** ** The calendar counts *)

Definition next_day (y m d : Z) : Z * Z * Z :=
  if d <? days_in_month y m then (y, m, d + 1) else if m <? 12 then (y, m + 1, 1) else (y + 1, 1, 1).

(** One second later. *)
Definition tick (t : datetime) : datetime :=
  if dt_second t <? 59 then mkDatetime (dt_year t) (dt_month t) (dt_day t) (dt_hour t) (dt_minute t) (dt_second t + 1)
  else if dt_minute t <? 59 then mkDatetime (dt_year t) (dt_month t) (dt_day t) (dt_hour t) (dt_minute t + 1) 0
  else if dt_hour t <? 23 then mkDatetime (dt_year t) (dt_month t) (dt_day t) (dt_hour t + 1) 0 0
  else let '(y, m, d) := next_day (dt_year t) (dt_month t) (dt_day t) in mkDatetime y m d 0 0 0.

Lemma year_length y : days_before_year (y + 1) = days_before_year y + 365 + (if is_leap y then 1 else 0).
Proof.
  unfold days_before_year, is_leap. replace (y + 1 - 1) with y by lia.
  destruct (Z.eqb_spec (y mod 4) 0), (Z.eqb_spec (y mod 100) 0), (Z.eqb_spec (y mod 400) 0); cbn [andb orb negb];
    Z.to_euclidean_division_equations; lia.
Qed.

Lemma months_cases m : 1 <= m <= 12 ->
  m = 1 \/ m = 2 \/ m = 3 \/ m = 4 \/ m = 5 \/ m = 6 \/ m = 7 \/ m = 8 \/ m = 9 \/ m = 10 \/ m = 11 \/ m = 12.
Proof. lia. Qed.

Lemma month_length y m : 1 <= m < 12 -> days_before_month y (m + 1) = days_before_month y m + days_in_month y m.
Proof.
  intros Hm. unfold days_before_month, days_in_month. destruct (is_leap y);
    destruct (months_cases m ltac:(lia)) as [->|[->|[->|[->|[->|[->|[->|[->|[->|[->|[->| ->]]]]]]]]]]]; try lia; vm_compute; reflexivity.
Qed.

Lemma december y : days_before_month y 12 + days_in_month y 12 = 365 + (if is_leap y then 1 else 0).
Proof. unfold days_before_month, days_in_month. by destruct (is_leap y). Qed.

Lemma ordinal_next y m d : 1 <= m <= 12 -> d <= days_in_month y m ->
  let '(y', m', d') := next_day y m d in ordinal y' m' d' = ordinal y m d + 1.
Proof.
  intros Hm Hd. unfold next_day, ordinal. destruct (Z.ltb_spec d (days_in_month y m)); [lia|].
  destruct (Z.ltb_spec m 12).
  - rewrite month_length by lia. lia.
  - assert (m = 12) as -> by lia. rewrite year_length. pose proof (december y). 
    change (days_before_month (y + 1) 1) with 0. lia.
Qed.

(** The timestamps' calendar counts seconds.  The epoch is second zero, and for every
    valid date and time the next one, across minutes, days, months, leap years and
    centuries, is one second later. *)
Theorem calendar_counts_seconds t : valid_datetime t = true ->
  epoch_seconds (tick t) = epoch_seconds t + 1 /\ epoch_seconds (mkDatetime 1970 1 1 0 0 0) = 0.
Proof.
  intros Hv. split; [|reflexivity]. unfold valid_datetime, valid_date in Hv.
  repeat (apply andb_true_iff in Hv as [Hv ?]). unfold tick.
  destruct (Z.ltb_spec (dt_second t) 59); [unfold epoch_seconds; cbn; lia|].
  destruct (Z.ltb_spec (dt_minute t) 59); [unfold epoch_seconds; cbn; lia|].
  destruct (Z.ltb_spec (dt_hour t) 23); [unfold epoch_seconds; cbn; lia|].
  pose proof (ordinal_next (dt_year t) (dt_month t) (dt_day t) ltac:(lia) ltac:(lia)) as Hn.
  destruct (next_day _ _ _) as [[y m] d]. unfold epoch_seconds. cbn. rewrite Hn. lia.
Qed.

Lemma calendar_counts_seconds_witness :
  epoch_seconds (tick (mkDatetime 2024 2 29 23 59 59)) = epoch_seconds (mkDatetime 2024 2 29 23 59 59) + 1 /\
  epoch_seconds (mkDatetime 1970 1 1 0 0 0) = 0.
Proof. apply (calendar_counts_seconds (mkDatetime 2024 2 29 23 59 59)). reflexivity. Defined.

(** ** Reading what was written *)

Definition dchar (d : Z) : ascii := ascii_of_N (Z.to_N (48 + d)).
Definition two (n : Z) : text := [dchar (n / 10); dchar (n mod 10)].
Definition four (n : Z) : text := two (n / 100) ++ two (n mod 100).

Definition zone_text (o : offset) : text :=
  match o with
  | Zulu => ["Z"%char]
  | Offset sign h m => (if sign =? 1 then "+"%char else "-"%char) :: two h ++ ":"%char :: two m
  end.

(** [YYYY-MM-DDTHH:MM:SS], a fraction if there is one, and the offset. *)
Definition iso_text (t : datetime) (frac : text) (o : offset) : text :=
  four (dt_year t) ++ "-"%char :: two (dt_month t) ++ "-"%char :: two (dt_day t) ++ "T"%char ::
  two (dt_hour t) ++ ":"%char :: two (dt_minute t) ++ ":"%char :: two (dt_second t) ++
  (match frac with [] => [] | _ => "."%char :: frac end) ++ zone_text o.

Definition valid_offset (o : offset) : Prop :=
  match o with Zulu => True | Offset sign h m => (sign = 1 \/ sign = -1) /\ 0 <= h <= 99 /\ 0 <= m <= 99 end.

Lemma digit_of_dchar d : 0 <= d <= 9 -> digit_of (dchar d) = Some d.
Proof.
  intros Hd. assert (d = 0 \/ d = 1 \/ d = 2 \/ d = 3 \/ d = 4 \/ d = 5 \/ d = 6 \/ d = 7 \/ d = 8 \/ d = 9) as Hc by lia.
  repeat (destruct Hc as [->|Hc]; [reflexivity|]). by subst.
Qed.

Lemma number_two acc n r k : 0 <= n <= 99 -> number (2 + k) acc (two n ++ r) = number k (100 * acc + n) r.
Proof.
  intros Hn. unfold two. cbn [app]. cbn [Nat.add number].
  rewrite digit_of_dchar by (Z.to_euclidean_division_equations; lia). cbn [mbind option_bind].
  rewrite digit_of_dchar by (Z.to_euclidean_division_equations; lia). cbn [mbind option_bind]. f_equal.
  Z.to_euclidean_division_equations; lia.
Qed.

Lemma number_two_last n r : 0 <= n <= 99 -> number 2 0 (two n ++ r) = Some (n, r).
Proof. intros Hn. exact (number_two 0 n r 0 Hn). Qed.

Lemma number_four n r : 0 <= n <= 9999 -> number 4 0 (four n ++ r) = Some (n, r).
Proof.
  intros Hn. unfold four. rewrite <- app_assoc.
  transitivity (number (2 + 0) (100 * 0 + n / 100) (two (n mod 100) ++ r)).
  { exact (number_two 0 (n / 100) _ 2 ltac:(Z.to_euclidean_division_equations; lia)). }
  rewrite number_two by (Z.to_euclidean_division_equations; lia). cbn [number]. do 2 f_equal.
  Z.to_euclidean_division_equations; lia.
Qed.

Lemma dchar_two n : 0 <= n <= 99 -> Forall (fun c => is_digit c = true) (two n).
Proof.
  intros Hn. unfold two, is_digit.
  repeat constructor; rewrite digit_of_dchar by (Z.to_euclidean_division_equations; lia); done.
Qed.

Lemma digits_upto_all ds r n : Forall (fun c => is_digit c = true) ds -> (length ds <= n)%nat -> no_digit_next r = true ->
  digits_upto n (ds ++ r) = (ds, r).
Proof.
  intros Hd. revert n. induction Hd as [|c ds Hc _ IH]; intros n Hn Hr; cbn [app].
  - destruct n, r as [|c r]; try done. cbn. unfold no_digit_next, is_digit in Hr. by destruct (digit_of c).
  - destruct n as [|n]; [cbn in Hn; lia|]. cbn. unfold is_digit in Hc. destruct (digit_of c); [|done].
    rewrite IH by (cbn in Hn; (lia || done)). done.
Qed.

Lemma zone_no_digit o r : no_digit_next (zone_text o ++ r) = true.
Proof. destruct o as [|sign h m]; [reflexivity|]. cbn. by destruct (sign =? 1). Qed.

Lemma zone_read o r : valid_offset o -> zone (zone_text o ++ r) = Some o.
Proof.
  destruct o as [|sign h m]; [reflexivity|]. intros (Hs & Hh & Hm). cbn [zone_text]. rewrite <- app_comm_cons, <- app_assoc, <- app_comm_cons.
  assert (number 2 0 (two h ++ ":"%char :: two m ++ r) = Some (h, ":"%char :: two m ++ r)) as Eh by (by apply number_two_last).
  assert (number 2 0 (two m ++ r) = Some (m, r)) as Em by (by apply number_two_last).
  destruct Hs as [->| ->]; cbn [Z.eqb Pos.eqb]; unfold zone; cbv beta iota;
    [ change (char_is "Z" "+") with false; change (char_is "+" "+") with true
    | change (char_is "Z" "-") with false; change (char_is "+" "-") with false; change (char_is "-" "-") with true ];
    cbv beta iota; cbn [orb]; cbv iota; rewrite Eh; cbn [mbind option_bind lit]; change (char_is ":" ":") with true;
    cbv beta iota; cbn [default from_option id]; unfold default, id; cbv beta iota; rewrite Em; reflexivity.
Qed.

Lemma fraction_read frac o r : Forall (fun c => is_digit c = true) frac -> (length frac <= 9)%nat ->
  fraction ((match frac with [] => [] | _ => "."%char :: frac end) ++ zone_text o ++ r) = (frac, zone_text o ++ r).
Proof.
  intros Hd Hl. destruct frac as [|c frac].
  - cbn [app]. destruct o as [|sign h m]; [reflexivity|]. cbn. by destruct (sign =? 1).
  - unfold fraction. rewrite <- app_comm_cons. cbn [lit]. change (char_is "." "." || char_is "," ".") with true. cbv iota.
    rewrite (digits_upto_all (c :: frac) _ 9) by (done || apply zone_no_digit). done.
Qed.

Lemma match_iso_read t frac o r : valid_datetime t = true -> valid_offset o ->
  Forall (fun c => is_digit c = true) frac -> (length frac <= 9)%nat ->
  match_iso (iso_text t frac o ++ r) = Some (mkIso t frac (Some o)).
Proof.
  intros Hv Ho Hd Hl. unfold valid_datetime, valid_date in Hv. repeat (apply andb_true_iff in Hv as [Hv ?]).
  assert (days_in_month (dt_year t) (dt_month t) <= 31) as Hdm.
  { unfold days_in_month. destruct (is_leap (dt_year t));
      destruct (months_cases (dt_month t) ltac:(lia)) as [->|[->|[->|[->|[->|[->|[->|[->|[->|[->|[->| ->]]]]]]]]]]]; vm_compute; discriminate. }
  unfold match_iso, iso_text. rewrite <- !app_assoc, <- !app_comm_cons.
  rewrite number_four by lia. cbn [mbind option_bind lit]. change (char_is "-" "-") with true. cbv iota. cbn [mbind option_bind].
  rewrite <- !app_assoc, <- !app_comm_cons. rewrite number_two_last by lia. cbn [mbind option_bind lit]. change (char_is "-" "-") with true. cbv iota. cbn [mbind option_bind].
  rewrite <- !app_assoc, <- !app_comm_cons. rewrite number_two_last by lia. cbn [mbind option_bind lit]. change (char_is "T" "T" || char_is " " "T") with true. cbv iota. cbn [mbind option_bind].
  rewrite <- !app_assoc, <- !app_comm_cons. rewrite number_two_last by lia. cbn [mbind option_bind lit]. change (char_is ":" ":") with true. cbv iota. cbn [mbind option_bind].
  rewrite <- !app_assoc, <- !app_comm_cons. rewrite number_two_last by lia. cbn [mbind option_bind lit]. change (char_is ":" ":") with true. cbv iota. cbn [mbind option_bind].
  rewrite <- !app_assoc. rewrite number_two_last by lia. cbn [mbind option_bind].
  rewrite fraction_read by done. rewrite zone_read by done. by destruct t.
Qed.

(** Where no digit stands before it, the timestamp is the first match. *)
Lemma match_iso_digit c t : is_digit c = false -> match_iso (c :: t) = None.
Proof. unfold is_digit, match_iso. cbn. by destruct (digit_of c). Qed.

Lemma search_skip {A} (m : option ascii -> text -> option A) pre t : Forall (fun c => forall p r, m p (c :: r) = None) pre ->
  forall p, exists p', search m p (pre ++ t) = search m p' t.
Proof.
  induction 1 as [|c pre Hc _ IH]; intros p; [by exists p|].
  destruct (IH (Some c)) as (p' & E). exists p'. cbn. by rewrite Hc.
Qed.

(** The digits of a fraction as the number they spell. *)
Fixpoint digits_value (acc : Z) (ds : text) : Z :=
  match ds with c :: ds => digits_value (10 * acc + default 0 (digit_of c)) ds | [] => acc end.
Definition fraction_value (ds : text) : Q := (inject_Z (digits_value 0 ds) / inject_Z (10 ^ Z.of_nat (length ds)))%Q.

Lemma number_digits ds k acc r : Forall (fun c => is_digit c = true) ds ->
  number (length ds + k) acc (ds ++ r) = number k (digits_value acc ds) r.
Proof.
  intros Hd. revert acc. induction Hd as [|c ds Hc _ IH]; intros acc; [done|]. cbn.
  unfold is_digit in Hc. destruct (digit_of c); [|done]. cbn. apply IH.
Qed.

Lemma number_zeros k acc : number k acc (replicate k "0"%char) = Some (acc * 10 ^ Z.of_nat k, []).
Proof.
  revert acc. induction k as [|k IH]; intros acc; [cbn; do 2 f_equal; lia|].
  cbn [replicate number]. change (digit_of "0"%char) with (Some 0). cbn [mbind option_bind]. rewrite IH.
  rewrite Nat2Z.inj_succ, Z.pow_succ_r by lia. do 2 f_equal. lia.
Qed.

Lemma frac_number ds : Forall (fun c => is_digit c = true) ds -> (length ds <= 9)%nat ->
  number 9 0 (take 9 (ds ++ replicate 9 "0"%char)) = Some (digits_value 0 ds * 10 ^ Z.of_nat (9 - length ds), []).
Proof.
  intros Hd Hl. rewrite take_app, (take_ge ds) by lia. rewrite take_replicate.
  replace ((9 - length ds) `min` 9)%nat with (9 - length ds)%nat by lia.
  replace 9%nat with (length ds + (9 - length ds))%nat at 1 by lia.
  rewrite number_digits by done. apply number_zeros.
Qed.

Lemma frac_exact ds : Forall (fun c => is_digit c = true) ds -> (length ds <= 9)%nat ->
  (frac_to_seconds (R := exact) ds == fraction_value ds)%Q.
Proof.
  intros Hd Hl. unfold frac_to_seconds. destruct ds as [|c ds]; [reflexivity|].
  rewrite frac_number by done. unfold fdiv, fraction_value. cbn [rnd exact].
  assert (10 ^ 9 = 10 ^ Z.of_nat (length (c :: ds)) * 10 ^ Z.of_nat (9 - length (c :: ds))) as ->.
  { rewrite <- Z.pow_add_r by lia. f_equal. lia. }
  rewrite !inject_Z_mult. field. split; change 0%Q with (inject_Z 0); rewrite inject_Z_injective; apply Z.pow_nonzero; lia.
Qed.

(** A timestamp in ISO form is read as the instant it names: whatever stands before it
    (as long as that holds no digit) and after it, a line that carries a valid date and
    time with up to nine digits of fraction and an offset is given its seconds since
    the epoch, the fraction added and the offset taken off. *)
Theorem iso_instant_read now_year pre t frac o rest :
  Forall (fun c => is_digit c = false) pre -> valid_datetime t = true -> valid_offset o ->
  Forall (fun c => is_digit c = true) frac -> (length frac <= 9)%nat ->
  exists v, parse_builtin (R := exact) now_year (pre ++ iso_text t frac o ++ rest) = Some v /\
    (v == inject_Z (epoch_seconds t) + fraction_value frac - inject_Z (offset_seconds (Some o)))%Q.
Proof.
  intros Hp Hv Ho Hd Hl. unfold parse_builtin.
  destruct (search_skip (fun _ => match_iso) pre (iso_text t frac o ++ rest)) with (p := @None ascii) as (p' & ->).
  { eapply Forall_impl; [exact Hp|]. intros c Hc _ r. by apply match_iso_digit. }
  assert (search (fun _ => match_iso) p' (iso_text t frac o ++ rest) = Some (mkIso t frac (Some o))) as ->.
  { pose proof (match_iso_read t frac o rest Hv Ho Hd Hl) as E. destruct (iso_text t frac o ++ rest); cbn [search]; by rewrite E. }
  cbn [mbind option_bind]. unfold iso_to_epoch. cbn [im_datetime im_frac im_offset]. rewrite Hv.
  eexists; split; [done|]. unfold fsub, fadd. cbn [rnd exact]. by rewrite frac_exact.
Qed.

Lemma iso_instant_read_witness : exists v,
  parse_builtin (R := exact) 2026 (String.list_ascii_of_string "<log> 2026-07-10T08:00:00.250+01:00 up") = Some v /\
  (v == 1783666800 + (1 # 4))%Q.
Proof.
  destruct (iso_instant_read 2026 (String.list_ascii_of_string "<log> ") (mkDatetime 2026 7 10 8 0 0)
              (String.list_ascii_of_string "250") (Offset 1 1 0) (String.list_ascii_of_string " up")) as (v & E & Q).
  - repeat constructor.
  - reflexivity.
  - cbn. lia.
  - repeat constructor.
  - cbn. lia.
  - exists v. split; [exact E|]. rewrite Q. reflexivity.
Defined.

(** A second of 60, which the operator's format admits, is refused by the constructor, and
    the line takes the replay down with it. *)
Example leap_second_raises : parse (R := exact)
    (mkParser (Some Some) (Some (fun _ => Some (mkDatetime 2016 12 31 23 59 60))) 2026) [] =
  Raise (ValueError "second must be in 0..59").
Proof. reflexivity. Qed.
