(* ===== verification/ConfRewrite.v ===== *)
(** * The conf rewrite (worker/stoker_agent/confrewrite.py)

    The worker rewrites the pack's eventgen.conf for its share of the run: it
    takes over the output keys, sets each stanza's rate, and turns a backfill
    into a time range.  A [RawConfigParser] is its [DEFAULT] options and its
    sections, dicts in the order of their keys; options without a value are
    [None].  Reading and writing the file is left out.

    The theorems: after a rewrite the agent owns every output key, no stanza is
    lost, the counts of an interval run add up over the fleet, and the counts of
    an eps run cover the overdriven share. *)

From S2P Require Import Prelude.
From S2P Require Import PyFloat.
From S2P Require Import PyValue.
From S2P Require Import Apportion.
From S2P Require Import Pacing.
From Stdlib Require Import QArith Qround Ascii Lqa.
Open Scope Z_scope.

(** ** The parser *)

Abbreviation options := (list (string * option string)).

Record conf : Type := mkConf {
  cf_defaults : options;
  cf_sections : list (string * options);
}.

(** [d.get(k)]: absent, or its value. *)
Definition oget (k : string) (d : options) : option (option string) :=
  snd <$> List.find (fun kv => bool_decide (kv.1 = k)) d.

(** [d[k] = v] *)
Fixpoint oset (k : string) (v : option string) (d : options) : options :=
  match d with
  | [] => [(k, v)]
  | (k', v') :: d => if bool_decide (k' = k) then (k, v) :: d else (k', v') :: oset k v d
  end.

(** [del d[k]] *)
Definition odel (k : string) (d : options) : options :=
  List.filter (fun kv => negb (bool_decide (kv.1 = k))) d.

Definition sections (c : conf) : list string := fst <$> cf_sections c.

Definition section (c : conf) (s : string) : options :=
  default [] (snd <$> List.find (fun sd => bool_decide (sd.1 = s)) (cf_sections c)).

(** [parser.get(section, option, fallback)]: the section's own, else the default's. *)
Definition cget (c : conf) (s k : string) : option (option string) :=
  match oget k (section c s) with Some v => Some v | None => oget k (cf_defaults c) end.

Definition update_section (s : string) (f : options -> options) (c : conf) : conf :=
  mkConf (cf_defaults c)
    ((fun sd => if bool_decide (sd.1 = s) then (sd.1, f sd.2) else sd) <$> cf_sections c).

(** [parser.set] and [parser.remove_option] *)
Definition cset (s k v : string) : conf -> conf := update_section s (oset k (Some v)).
Definition cdel (s k : string) : conf -> conf := update_section s (odel k).

(** [parser.options(section)] *)
Definition options_of (c : conf) (s : string) : list string :=
  (fst <$> section c s) ++ (fst <$> cf_defaults c).

(** ** Keys *)

Definition OUTPUT_KEYS_EXACT : list string :=
  ["outputMode"; "splunkHost"; "splunkPort"; "splunkMethod"; "index"; "sourcetype"; "source"; "host"].
Definition RATE_MAP_KEYS : list string :=
  ["hourOfDayRate"; "dayOfWeekRate"; "minuteOfHourRate"; "dayOfMonthRate"; "monthOfYearRate"].
Definition GLOBAL_SECTIONS : list string := ["global"; "default"].
Definition EVENTGEN_DEFAULT_INTERVAL_S : Q := 60.

(** [key in OUTPUT_KEYS_EXACT or key.startswith(OUTPUT_KEY_PREFIXES)] *)
Definition is_output_key (k : string) : bool :=
  bool_decide (k ∈ OUTPUT_KEYS_EXACT) || String.prefix "httpevent" k.

(** [None.strip()] fails: a bare [mode] key. *)
Definition is_replay (c : conf) (s : string) : result bool :=
  match cget c s "mode" with
  | None => Ok false
  | Some None => Raise AttributeError
  | Some (Some v) => Ok (bool_decide (py_strip v = "replay"))
  end.

Definition sample_sections (c : conf) : list string :=
  List.filter (fun s => negb (bool_decide (py_lower s ∈ GLOBAL_SECTIONS))) (sections c).

Definition paced_sections (c : conf) : result (list string) :=
  filter_result (fun s => r ← is_replay c s; Ok (negb r)) (sample_sections c).

Definition del_defaults (p : string -> bool) (c : conf) : conf :=
  mkConf (List.filter (fun kv => negb (p kv.1)) (cf_defaults c)) (cf_sections c).

Definition strip_output_keys (c : conf) : conf :=
  let c := del_defaults is_output_key c in
  foldl (fun c s =>
    foldl (fun c k => if is_output_key k then cdel s k c else c) c (options_of c s))
    c (sections c).

Definition strip_rate_maps (c : conf) : result conf :=
  let c := del_defaults (fun k => bool_decide (k ∈ RATE_MAP_KEYS)) c in
  fold_result (fun s c =>
    r ← is_replay c s;
    Ok (if r : bool then c else foldl (fun c k => cdel s k c) c RATE_MAP_KEYS)) (sections c) c.

Section Rewrite.
Context {R : Rounding}.

(** ** Numbers *)

Definition get_float (c : conf) (s k : string) : option Q :=
  match cget c s k with Some (Some v) => float_of_string v | _ => None end.

(** Six digits, with leading zeros. *)
Fixpoint padded (n : nat) (z : Z) : string :=
  match n with O => "" | S n => padded n (z / 10) +:+ pretty (z mod 10) end.

Fixpoint rstrip_char (c : ascii) (s : list ascii) : list ascii :=
  match s with [] => [] | d :: s' => if Ascii.eqb c d then rstrip_char c s' else s end.
Definition rstrip (c : ascii) (s : string) : string :=
  String.string_of_list_ascii (reverse (rstrip_char c (reverse (String.list_ascii_of_string s)))).

(** ["%.6f" % value] *)
Definition fixed6 (q : Q) : string :=
  let z := round_half_even (q * 1000000) in
  (if Qle_bool 0 q then "" else "-") +:+ pretty (Z.abs z / 1000000) +:+ "."
    +:+ padded 6 (Z.abs z mod 1000000).

Definition fmt_number (value : Q) : string :=
  if Qeq_bool value (inject_Z (py_int value)) then pretty (py_int value)
  else rstrip "."%char (rstrip "0"%char (fixed6 value)).

(** ** Weights *)

Definition declared_eps_weights (c : conf) (ss : list string) : list Q :=
  let raw := (fun s =>
    match get_float c s "count" with
    | Some count =>
        if Qle_bool count 0 then None
        else
          let step := match get_float c s "interval" with
                      | Some i => if Qle_bool i 0 then EVENTGEN_DEFAULT_INTERVAL_S else i
                      | None => EVENTGEN_DEFAULT_INTERVAL_S
                      end in
          Some (fdiv count step)
    | None => None
    end) <$> ss in
  let declared := omap id raw in
  let fill := match declared with
              | [] => 1%Q
              | _ => fdiv (fsum declared) (rnd (inject_Z (Z.of_nat (length declared))))
              end in
  default fill <$> raw.

(** ** The rate rewrites *)

Definition check_weights (weights : list Q) (ss : list string) : result unit :=
  if bool_decide (length weights = length ss) then Ok tt
  else Raise (ConfRewriteError "weights length != stanza count").

Definition set_eps_count (sc : string * Z) (c : conf) : conf :=
  let '(s, count) := sc in
  cdel s "randomizeCount" (cset s "count" (pretty (Z.max 1 count)) (cset s "interval" "1" c)).

Definition rewrite_eps (ss : list string) (share_eps overdrive : Q) (weights : option (list Q))
    (c : conf) : result conf :=
  let weights := default (declared_eps_weights c ss) weights in
  _ ← check_weights weights ss;
  counts ← largest_remainder (round_half_even (fmul share_eps overdrive)) weights;
  Ok (foldl (fun c sc => set_eps_count sc c) c (zip ss counts)).

Definition declared_volumes (c : conf) (ss : list string) : list (string * Q) :=
  omap (fun s => match get_float c s "perDayVolume" with
                 | Some v => if Qle_bool v 0 then None else Some (s, v)
                 | None => None
                 end) ss.

Definition volume_of (s : string) (declared : list (string * Q)) : option Q :=
  snd <$> List.find (fun sv => bool_decide (sv.1 = s)) declared.

Definition rewrite_per_day_gb (ss : list string) (share_gb overdrive : Q) (c : conf) : conf :=
  let target := fmul share_gb overdrive in
  let declared := declared_volumes c ss in
  let undeclared := List.filter (fun s => negb (bool_decide (is_Some (volume_of s declared)))) ss in
  let n := rnd (inject_Z (Z.of_nat (length ss))) in
  let per_undeclared := match undeclared with [] => 0%Q | _ => fdiv target n end in
  let rest := fsub target (fmul per_undeclared (rnd (inject_Z (Z.of_nat (length undeclared))))) in
  let declared_target := if Qle_bool rest 0 then 0%Q else rest in
  let declared_sum := fsum (snd <$> declared) in
  foldl (fun c s =>
    let share := match volume_of s declared with
                 | Some v => if Qle_bool declared_sum 0 then 0%Q
                             else fdiv (fmul declared_target v) declared_sum
                 | None => per_undeclared
                 end in
    cset s "perDayVolume" (fmt_number share) c) c ss.

Definition rewrite_count_interval (ss : list string) (slot total_workers : Z) (c : conf)
    : result conf :=
  if (0 <=? slot) && (slot <? total_workers) then
    fold_result (fun s c =>
      match get_float c s "count" with
      | None => Ok c
      | Some count =>
          if qlt count 0 then Ok c
          else
            shares ← largest_remainder (py_int count) (replicate (Z.to_nat total_workers) 1%Q);
            Ok (cset s "count" (pretty (nth (Z.to_nat slot) shares 0)) c)
      end) ss c
  else Raise (ConfRewriteError "slot out of range").

(** ** Backfill *)

Definition DENSITY_MIN_COUNT : Q := 10.
Definition DENSITY_MAX_INTERVAL_S : Z := 3600.

Definition density_count_interval (eps : Q) : Z * Z :=
  if Qle_bool DENSITY_MIN_COUNT eps then (1, Z.max 1 (round_half_even eps))
  else
    let interval := Z.min DENSITY_MAX_INTERVAL_S (Qceiling (fdiv DENSITY_MIN_COUNT eps)) in
    (interval, Z.max 1 (round_half_even (fmul eps (inject_Z interval)))).

(** ["-%ds" % n], and the end of the range. *)
Definition ago (n : Z) : string := "-" +:+ pretty n +:+ "s".
Definition range_end (back_to_end : Z) : string := if back_to_end =? 0 then "now" else ago back_to_end.

Definition set_range (s : string) (back_to_start back_to_end : Z) (c : conf) : conf :=
  cset s "latest" (range_end back_to_end) (cset s "earliest" (ago back_to_start) c).

Definition set_sweep (s : string) (back_to_start back_to_end : Z) (c : conf) : conf :=
  let c := cset s "backfill" (ago back_to_start) c in
  let c := if 0 <? back_to_end then cset s "backfillEnd" (ago back_to_end) c
           else cdel s "backfillEnd" c in
  set_range s back_to_start back_to_end (cset s "backfillOnly" "true" c).

Definition set_density (s : string) (eps : Q) (c : conf) : conf :=
  if Qle_bool eps 0 then cset s "end" "0" c
  else
    let '(interval, count) := density_count_interval eps in
    cdel s "randomizeCount" (cset s "count" (pretty count) (cset s "interval" (pretty interval) c)).

Definition rewrite_backfill_sweep (ss : list string) (back_to_start back_to_end : Z)
    (density_eps : option Q) (weights : option (list Q)) (c : conf) : result conf :=
  let c := foldl (fun c s => set_sweep s back_to_start back_to_end c) c ss in
  match density_eps with
  | None => Ok c
  | Some density =>
      if Qle_bool density 0 then Ok c
      else
        let weights := default (declared_eps_weights c ss) weights in
        _ ← check_weights weights ss;
        let total_weight := fsum weights in
        if Qle_bool total_weight 0
        then Raise (ConfRewriteError "backfill density needs a positive stanza weight")
        else Ok (foldl (fun c sw => set_density sw.1 (fdiv (fmul density sw.2) total_weight) c)
                   c (zip ss weights))
  end.

(** [x and x > 0] on an optional number. *)
Definition positive_opt (x : option Q) : option Q :=
  match x with Some q => if Qle_bool q 0 then None else Some q | None => None end.

Record backfill_args : Type := mkBackfill {
  ba_window_s : option Q;
  ba_end_offset_s : option Q;
  ba_sweep : bool;
  ba_density_eps : option Q;
}.

Definition no_backfill : backfill_args := mkBackfill None None false None.

Definition rewrite_rate (rate_mode : string) (share_value : option Q) (overdrive : Q)
    (slot total_workers : Z) (weights : option (list Q)) (paced : list string) (c : conf)
    : result conf :=
  if bool_decide (rate_mode = "eps") then
    match positive_opt share_value with
    | None => Raise (ConfRewriteError "eps mode requires share_value > 0")
    | Some share =>
        c ← strip_rate_maps c;
        match paced with [] => Ok c | _ => rewrite_eps paced share overdrive weights c end
    end
  else if bool_decide (rate_mode = "per_day_gb") then
    match positive_opt share_value with
    | None => Raise (ConfRewriteError "per_day_gb mode requires share_value > 0")
    | Some share =>
        Ok (match paced with [] => c | _ => rewrite_per_day_gb paced share overdrive c end)
    end
  else if bool_decide (rate_mode = "count_interval")
  then rewrite_count_interval paced slot total_workers c
  else Raise (ConfRewriteError "unknown rate mode").

Definition rewrite_window (b : backfill_args) (paced : list string) (sweep_weights : option (list Q))
    (c : conf) : result conf :=
  match positive_opt (ba_window_s b) with
  | None => Ok c
  | Some window =>
      let back_to_end := match positive_opt (ba_end_offset_s b) with Some o => py_int o | None => 0 end in
      let back_to_start := back_to_end + py_int window in
      if ba_sweep b
      then rewrite_backfill_sweep paced back_to_start back_to_end (ba_density_eps b) sweep_weights c
      else Ok (foldl (fun c s => set_range s back_to_start back_to_end c) c paced)
  end.

Definition take_outputs (sample_dir : string) (c : conf) : conf :=
  let c := strip_output_keys c in
  foldl (fun c s => cset s "sampleDir" sample_dir (cset s "outputMode" "stoker" c)) c (sections c).

Definition rewrite (rate_mode : string) (share_value : option Q) (overdrive : Q)
    (sample_dir : string) (slot total_workers : Z) (weights : option (list Q)) (b : backfill_args)
    (c : conf) : result conf :=
  let c := take_outputs sample_dir c in
  paced ← paced_sections c;
  let sweep_weights :=
    if ba_sweep b && bool_decide (is_Some (positive_opt (ba_window_s b)))
    then Some (default (declared_eps_weights c paced) weights) else None in
  c ← rewrite_rate rate_mode share_value overdrive slot total_workers weights paced c;
  rewrite_window b paced sweep_weights c.

(** ** What a worker holds *)

Definition assigned_section (c : conf) (rate_mode : string) (s : string) : bool :=
  match cget c s "end" with
  | Some (Some e) => negb (bool_decide (py_strip e = "0"))
  | _ => true
  end &&
  (negb (bool_decide (rate_mode = "count_interval")) ||
   match get_float c s "count" with
   | None => true
   | Some count => qlt 0 count || qlt count 0
   end).

Definition assigned_stanza_count (c : conf) (rate_mode : string) : result Z :=
  replay ← filter_result (is_replay c) (sample_sections c);
  paced ← paced_sections c;
  Ok (Z.of_nat (length replay)
      + Z.of_nat (length (List.filter (assigned_section c rate_mode) paced))).
End Rewrite.

(** ** Options and sections *)

Lemma oget_cons k k' v d : oget k ((k', v) :: d) = if bool_decide (k' = k) then Some v else oget k d.
Proof. unfold oget. cbn. by destruct (bool_decide (k' = k)). Qed.

Lemma oget_oset k k' v d : oget k (oset k' v d) = if bool_decide (k' = k) then Some v else oget k d.
Proof.
  induction d as [|[k0 v0] d IH]; cbn [oset]; [by rewrite oget_cons|].
  destruct (bool_decide_reflect (k0 = k')) as [->|Hne]; rewrite !oget_cons.
  - by destruct (bool_decide (k' = k)).
  - rewrite IH. destruct (bool_decide_reflect (k0 = k)), (bool_decide_reflect (k' = k)); congruence.
Qed.

Lemma oget_filter k p d :
  oget k (List.filter (fun kv => negb (p kv.1)) d) = if p k then None else oget k d.
Proof.
  induction d as [|[k0 v0] d IH]; cbn [List.filter]; [by destruct (p k)|].
  rewrite oget_cons. cbn [fst]. destruct (p k0) eqn:Ep; cbn [negb].
  - rewrite IH. destruct (bool_decide_reflect (k0 = k)) as [->|]; [by rewrite Ep|done].
  - rewrite oget_cons, IH. destruct (bool_decide_reflect (k0 = k)) as [->|]; [by rewrite Ep|done].
Qed.

Lemma oget_odel k k' d : oget k (odel k' d) = if bool_decide (k = k') then None else oget k d.
Proof. pose (p := fun x : string => bool_decide (x = k')). exact (oget_filter k p d). Qed.

Lemma oget_keys k d : oget k d = None <-> k ∉ fst <$> d.
Proof.
  induction d as [|[k0 v0] d IH]; [split; [set_solver|done]|].
  rewrite oget_cons. destruct (bool_decide_reflect (k0 = k)); set_solver.
Qed.

Lemma sections_update s f c : sections (update_section s f c) = sections c.
Proof.
  unfold sections, update_section. cbn. rewrite <- list_fmap_compose. apply list_fmap_ext.
  intros i [s' d] _. cbn. by destruct (bool_decide _).
Qed.

Lemma section_update s s' f c :
  section (update_section s f c) s' =
    if bool_decide (s = s' /\ s ∈ sections c) then f (section c s') else section c s'.
Proof.
  unfold section, update_section, sections. cbn [cf_sections].
  induction (cf_sections c) as [|[s0 d0] l IH]; cbn [fmap list_fmap List.find fst snd].
  { rewrite bool_decide_false by set_solver. done. }
  destruct (bool_decide_reflect (s0 = s)) as [->|Hne]; cbn [fst].
  - destruct (bool_decide_reflect (s = s')) as [->|Hne'].
    + rewrite bool_decide_true by set_solver. done.
    + rewrite IH. do 2 case_bool_decide; set_solver.
  - destruct (bool_decide_reflect (s0 = s')) as [->|Hne'].
    + rewrite bool_decide_false by set_solver. done.
    + rewrite IH. do 2 case_bool_decide; set_solver.
Qed.

(** ** What a step may change

    [frame P c c']: the same sections, and the same options outside the
    (section, key) pairs of [P]; [frame] of a key of the defaults is [P ""]. *)

Definition frame (P : string -> string -> Prop) (Pd : string -> Prop) (c c' : conf) : Prop :=
  sections c' = sections c /\
  (forall s k, ~ P s k -> oget k (section c' s) = oget k (section c s)) /\
  (forall k, ~ Pd k -> oget k (cf_defaults c') = oget k (cf_defaults c)).

Global Instance frame_preorder P Pd : PreOrder (frame P Pd).
Proof.
  split; [done|]. intros c1 c2 c3 (E1 & H1 & D1) (E2 & H2 & D2).
  split; [congruence|]. split; intros; [rewrite H2, H1|rewrite D2, D1]; done.
Qed.

Lemma frame_update P Pd s f c :
  (forall k d, ~ P s k -> oget k (f d) = oget k d) -> frame P Pd c (update_section s f c).
Proof.
  intros Hf. split; [apply sections_update|]. split; [|done].
  intros s' k HP. rewrite section_update. case_bool_decide as H; [|done]. destruct H as [-> _]. by apply Hf.
Qed.

Lemma frame_cset (P : string -> string -> Prop) Pd s k v c : P s k -> frame P Pd c (cset s k v c).
Proof.
  intros HP. apply frame_update. intros k' d Hk. rewrite oget_oset.
  destruct (bool_decide_reflect (k = k')) as [->|]; done.
Qed.

Lemma frame_cdel (P : string -> string -> Prop) Pd s k c : P s k -> frame P Pd c (cdel s k c).
Proof.
  intros HP. apply frame_update. intros k' d Hk. rewrite oget_odel.
  destruct (bool_decide_reflect (k' = k)) as [->|]; done.
Qed.

Lemma frame_foldl {A} P Pd (f : conf -> A -> conf) xs : forall c,
  (forall c x, x ∈ xs -> frame P Pd c (f c x)) -> frame P Pd c (foldl f c xs).
Proof.
  induction xs as [|x xs IH]; intros c Hf; cbn; [reflexivity|].
  etrans; [apply Hf; left|]. apply IH. intros. apply Hf. by right.
Qed.

Lemma frame_fold_result {A} P Pd (f : A -> conf -> result conf) xs : forall c c',
  (forall c c' x, x ∈ xs -> f x c = Ok c' -> frame P Pd c c') ->
  fold_result f xs c = Ok c' -> frame P Pd c c'.
Proof.
  induction xs as [|x xs IH]; intros c c' Hf; cbn; [by intros [= <-]|].
  destruct (f x c) as [c1|] eqn:E; [|done]. intros H.
  etrans; [by eapply Hf; [left|exact E]|]. apply IH; [|done]. intros. eapply Hf; [by right|done].
Qed.

Lemma frame_weaken (P P' : string -> string -> Prop) (Pd Pd' : string -> Prop) c c' :
  (forall s k, P s k -> P' s k) -> (forall k, Pd k -> Pd' k) -> frame P Pd c c' -> frame P' Pd' c c'.
Proof. intros H1 H2 (E & H & D). split; [done|]. split; eauto. Qed.

Create HintDb conf.
#[export] Hint Resolve frame_cset frame_cdel : conf.
Global Hint Extern 1 (frame _ _ ?c ?c) => reflexivity : conf.

(** ** Taking over the outputs *)

Lemma inner_strip_spec s (ks : list string) : forall c s' k,
  oget k (section (foldl (fun c k => if is_output_key k then cdel s k c else c) c ks) s') =
    if bool_decide (s = s' /\ s ∈ sections c /\ k ∈ ks) && is_output_key k then None
    else oget k (section c s').
Proof.
  induction ks as [|k0 ks IH]; intros c s' k; cbn [foldl].
  { rewrite bool_decide_false by set_solver. done. }
  rewrite IH. destruct (is_output_key k0) eqn:E0.
  - unfold cdel. rewrite sections_update, section_update.
    destruct (decide (s = s' /\ s ∈ sections c)) as [[-> Hin]|Hn].
    + rewrite (bool_decide_true (s' = s' /\ s' ∈ sections c)) by done. rewrite oget_odel.
      destruct (bool_decide_reflect (k = k0)) as [->|Hne].
      * rewrite E0, !andb_true_r. rewrite (bool_decide_true (_ /\ _ /\ k0 ∈ k0 :: ks)) by set_solver.
        by destruct (bool_decide _).
      * assert (bool_decide (s' = s' /\ s' ∈ sections c /\ k ∈ ks) =
                bool_decide (s' = s' /\ s' ∈ sections c /\ k ∈ k0 :: ks)) as ->
          by (apply bool_decide_ext; set_solver). done.
    + rewrite !bool_decide_false by tauto. done.
  - assert (bool_decide (s = s' /\ s ∈ sections c /\ k ∈ ks) && is_output_key k =
            bool_decide (s = s' /\ s ∈ sections c /\ k ∈ k0 :: ks) && is_output_key k) as ->; [|done].
    destruct (decide (k = k0)) as [->|]; [by rewrite E0, !andb_false_r|].
    f_equal. apply bool_decide_ext. set_solver.
Qed.

Lemma inner_strip_frame s ks c :
  frame (fun _ k => is_output_key k = true) (fun _ => False) c
    (foldl (fun c k => if is_output_key k then cdel s k c else c) c ks).
Proof.
  apply frame_foldl. intros c1 k _. destruct (is_output_key k) eqn:E; eauto with conf.
Qed.

Abbreviation strip_section :=
  (fun c s => foldl (fun c k => if is_output_key k then cdel s k c else c) c (options_of c s)).

Lemma outer_strip_clean ss : forall c s k,
  is_output_key k = true -> s ∈ sections c -> s ∈ ss \/ oget k (section c s) = None ->
  oget k (section (foldl strip_section c ss) s) = None.
Proof.
  induction ss as [|s0 ss IH]; intros c s k Hk Hs Hor; cbn [foldl]; [by destruct Hor; [set_solver|]|].
  destruct (inner_strip_frame s0 (options_of c s0) c) as (Es & _ & _).
  apply IH; [done|by rewrite Es|].
  rewrite inner_strip_spec, Hk, andb_true_r.
  destruct (decide (s0 = s)) as [->|Hne].
  - right. case_bool_decide as H; [done|].
    apply oget_keys. intros Hin. apply H. split_and!; [done|done|]. unfold options_of. set_solver.
  - destruct Hor as [Hor|Hor]; [left; set_solver|right].
    by rewrite bool_decide_false by tauto.
Qed.

Lemma strip_output_keys_spec c :
  let c' := strip_output_keys c in
  sections c' = sections c /\
  (forall k, is_output_key k = true -> oget k (cf_defaults c') = None) /\
  (forall s k, s ∈ sections c -> is_output_key k = true -> oget k (section c' s) = None) /\
  (forall s k, is_output_key k = false ->
     oget k (section c' s) = oget k (section c s) /\ oget k (cf_defaults c') = oget k (cf_defaults c)).
Proof.
  intros c'. set (c0 := del_defaults is_output_key c).
  assert (frame (fun _ k => is_output_key k = true) (fun _ => False) c0 c') as (Es & Hf & Hd).
  { apply frame_foldl. intros c1 s _. apply inner_strip_frame. }
  assert (forall k, oget k (cf_defaults c0) = if is_output_key k then None else oget k (cf_defaults c)) as H0
    by (intros k; apply oget_filter).
  split; [done|]. split_and!.
  - intros k Hk. rewrite Hd by tauto. by rewrite H0, Hk.
  - intros s k Hs Hk. apply (outer_strip_clean (sections c0)); [done|done|by left].
  - intros s k Hk. split; [by rewrite Hf by congruence|]. rewrite Hd by tauto. by rewrite H0, Hk.
Qed.

Lemma take_outputs_spec sample_dir c :
  let c' := take_outputs sample_dir c in
  sections c' = sections c /\
  (forall s, s ∈ sections c ->
     oget "outputMode" (section c' s) = Some (Some "stoker") /\
     oget "sampleDir" (section c' s) = Some (Some sample_dir)) /\
  (forall s k, s ∈ sections c -> is_output_key k = true -> k <> "outputMode" ->
     oget k (section c' s) = None /\ oget k (cf_defaults c') = None) /\
  (forall s k, is_output_key k = false -> k <> "sampleDir" ->
     oget k (section c' s) = oget k (section c s) /\ oget k (cf_defaults c') = oget k (cf_defaults c)).
Proof.
  intros c'. unfold take_outputs in c'.
  destruct (strip_output_keys_spec c) as (E1 & D1 & C1 & F1).
  set (c1 := strip_output_keys c) in *.
  assert (frame (fun _ k => k = "outputMode" \/ k = "sampleDir") (fun _ => False) c1 c') as (E2 & F2 & D2).
  { apply frame_foldl. intros c2 s _. etrans; [apply frame_cset; by left|apply frame_cset; by right]. }
  assert (forall ss cc s, s ∈ sections cc -> s ∈ ss \/
     (oget "outputMode" (section cc s) = Some (Some "stoker") /\
      oget "sampleDir" (section cc s) = Some (Some sample_dir)) ->
     let cc' := foldl (fun c s => cset s "sampleDir" sample_dir (cset s "outputMode" "stoker" c)) cc ss in
     oget "outputMode" (section cc' s) = Some (Some "stoker") /\
     oget "sampleDir" (section cc' s) = Some (Some sample_dir)) as Hset.
  { induction ss as [|s0 ss IH]; intros cc s Hs Hor; cbn [foldl]; [by destruct Hor; [set_solver|]|].
    apply IH; unfold cset; [by rewrite !sections_update|].
    rewrite !section_update, !sections_update.
    destruct (decide (s0 = s)) as [->|Hne].
    - right. rewrite !(bool_decide_true (s = s /\ _)) by done. rewrite !oget_oset. done.
    - rewrite !(bool_decide_false (s0 = s /\ _)) by tauto.
      destruct Hor as [Hor|Hor]; [left; set_solver|by right]. }
  split_and!.
  - congruence.
  - intros s Hs. apply (Hset (sections c1) c1); [by rewrite E1|left; by rewrite E1].
  - intros s k Hs Hk Hne. assert (k <> "sampleDir") by (intros ->; done).
    rewrite F2, D2 by tauto. auto.
  - intros s k Hk Hne. assert (k <> "outputMode") by (intros ->; done).
    rewrite F2, D2 by tauto. by apply F1.
Qed.

(** ** The rewrites *)

Definition REWRITTEN_KEYS : list string :=
  ["interval"; "count"; "randomizeCount"; "perDayVolume"; "backfill"; "backfillEnd"; "backfillOnly";
   "earliest"; "latest"; "end"].

(** What the rate and backfill rewrites may touch: the rewritten keys of paced
    stanzas, and the rate maps of stanzas that are not replays. *)
Definition touched (c : conf) (paced : list string) (s k : string) : Prop :=
  s ∈ paced /\ k ∈ REWRITTEN_KEYS \/ is_replay c s = Ok false /\ k ∈ RATE_MAP_KEYS.
Definition touched_default (k : string) : Prop := k ∈ RATE_MAP_KEYS.

Lemma is_replay_frame P Pd c c' s :
  frame P Pd c c' -> ~ P s "mode" -> ~ Pd "mode" -> is_replay c' s = is_replay c s.
Proof.
  intros (_ & F & D) H1 H2. unfold is_replay, cget. by rewrite F, D.
Qed.

Lemma mode_untouched c paced s : ~ touched c paced s "mode".
Proof. unfold touched, REWRITTEN_KEYS, RATE_MAP_KEYS. set_solver. Qed.

Lemma mode_not_default : ~ touched_default "mode".
Proof. unfold touched_default, RATE_MAP_KEYS. set_solver. Qed.

Section Frames.
Context {R : Rounding} (c0 : conf) (paced : list string).
Abbreviation fr := (frame (touched c0 paced) touched_default).

Lemma fr_set s k v c : s ∈ paced -> k ∈ REWRITTEN_KEYS -> fr c (cset s k v c).
Proof. intros. apply frame_cset. by left. Qed.
Lemma fr_del s k c : s ∈ paced -> k ∈ REWRITTEN_KEYS -> fr c (cdel s k c).
Proof. intros. apply frame_cdel. by left. Qed.

Ltac key := unfold REWRITTEN_KEYS; set_solver.
Ltac fr := repeat first [reflexivity | assumption | apply fr_set; [assumption|key] | apply fr_del; [assumption|key]
  | etrans; [|apply fr_set; [assumption|key]] | etrans; [|apply fr_del; [assumption|key]]].

Lemma zip_fst_elem {A B} (xs : list A) (ys : list B) p : p ∈ zip xs ys -> p.1 ∈ xs.
Proof. destruct p as [a b]. intros H. by apply elem_of_zip_l in H. Qed.

Lemma strip_rate_maps_frame c c' : fr c0 c -> strip_rate_maps c = Ok c' -> fr c c'.
Proof.
  intros Hc. unfold strip_rate_maps. set (c1 := del_defaults _ c).
  assert (fr c c1) as H1.
  { split; [done|]. split; [done|]. intros k Hk. cbn.
    pose (p := fun k : string => bool_decide (k ∈ RATE_MAP_KEYS)).
    pose proof (oget_filter k p (cf_defaults c)) as E. unfold p in E.
    rewrite bool_decide_false in E by done. exact E. }
  intros H. etrans; [exact H1|].
  assert (fr c0 c1) as H0 by (by etrans). clear Hc H1. clearbody c1.
  revert H. generalize (sections c1). intros ss. revert c1 H0.
  induction ss as [|s ss IH]; intros c1 H0; cbn [fold_result]; [by intros [= <-]|].
  destruct (is_replay c1 s) as [r|] eqn:Er; cbn; [|done].
  rewrite (is_replay_frame _ _ _ _ s H0 (mode_untouched _ _ _) mode_not_default) in Er.
  assert (fr c1 (if r then c1 else foldl (fun c k => cdel s k c) c1 RATE_MAP_KEYS)) as Hs.
  { destruct r; [reflexivity|]. apply frame_foldl. intros c2 k Hk. apply frame_cdel. by right. }
  intros H. etrans; [exact Hs|]. apply IH; [by etrans|]. by destruct r.
Qed.

Lemma rewrite_eps_frame share od w c c' : rewrite_eps paced share od w c = Ok c' -> fr c c'.
Proof.
  unfold rewrite_eps. destruct (check_weights _ _); cbn; [|done].
  destruct (largest_remainder _ _) as [counts|]; cbn; [|done]. intros [= <-].
  apply frame_foldl. intros c1 [s z] Hin%zip_fst_elem. cbn in *. fr.
Qed.

Lemma rewrite_per_day_gb_frame share od c : fr c (rewrite_per_day_gb paced share od c).
Proof. apply frame_foldl. intros c1 s Hs. cbv zeta. fr. Qed.

Lemma rewrite_count_interval_frame slot n c c' :
  rewrite_count_interval paced slot n c = Ok c' -> fr c c'.
Proof.
  unfold rewrite_count_interval. destruct (_ && _); [|done].
  apply frame_fold_result. intros c1 c2 s Hs.
  destruct (get_float c1 s "count") as [q|]; [|intros [= <-]; reflexivity].
  destruct (qlt q 0); [intros [= <-]; reflexivity|].
  destruct (largest_remainder _ _); cbn; [|done]. intros [= <-]. fr.
Qed.

Lemma rewrite_rate_frame mode share od slot n w c c' :
  fr c0 c -> rewrite_rate mode share od slot n w paced c = Ok c' -> fr c c'.
Proof.
  intros Hc. unfold rewrite_rate. destruct (bool_decide (mode = "eps")).
  { destruct (positive_opt share) as [q|]; [|done].
    destruct (strip_rate_maps c) as [c1|] eqn:E; cbn; [|done].
    apply strip_rate_maps_frame in E; [|done]. intros H. etrans; [exact E|].
    assert (match paced with [] => Ok c1 | _ => rewrite_eps paced q od w c1 end = Ok c' -> fr c1 c') as Hr.
    { destruct paced eqn:Ep; [intros [= <-]; reflexivity|]. rewrite <- Ep. apply rewrite_eps_frame. }
    exact (Hr H). }
  destruct (bool_decide (mode = "per_day_gb")).
  { destruct (positive_opt share) as [q|]; [|done]. intros [= <-].
    destruct paced eqn:Ep; [reflexivity|]. rewrite <- Ep. apply rewrite_per_day_gb_frame. }
  destruct (bool_decide (mode = "count_interval")); [|done]. apply rewrite_count_interval_frame.
Qed.

Lemma set_range_frame s a b c : s ∈ paced -> fr c (set_range s a b c).
Proof. intros. unfold set_range. fr. Qed.

Lemma set_sweep_frame s a b c : s ∈ paced -> fr c (set_sweep s a b c).
Proof.
  intros Hs. unfold set_sweep. cbv zeta. etrans; [|by apply set_range_frame].
  destruct (0 <? b); fr.
Qed.

Lemma set_density_frame s q c : s ∈ paced -> fr c (set_density s q c).
Proof.
  intros Hs. unfold set_density. destruct (Qle_bool q 0); [fr|].
  destruct (density_count_interval q). fr.
Qed.

Lemma rewrite_window_frame b sw c c' : rewrite_window b paced sw c = Ok c' -> fr c c'.
Proof.
  unfold rewrite_window. destruct (positive_opt (ba_window_s b)) as [q|]; [|by intros [= <-]].
  cbv zeta. destruct (ba_sweep b).
  2:{ intros [= <-]. apply frame_foldl. intros. by apply set_range_frame. }
  unfold rewrite_backfill_sweep. set (c1 := foldl _ c paced).
  assert (fr c c1) as H1 by (apply frame_foldl; intros; by apply set_sweep_frame).
  destruct (ba_density_eps b) as [d|]; [|by intros [= <-]].
  destruct (Qle_bool d 0); [by intros [= <-]|].
  destruct (check_weights _ _); cbn; [|done]. destruct (Qle_bool _ 0); [done|].
  intros [= <-]. etrans; [exact H1|].
  apply frame_foldl. intros c2 [s w] Hin%zip_fst_elem. by apply set_density_frame.
Qed.
End Frames.

Lemma rewrite_frame {R : Rounding} mode share od dir slot n w b c c' :
  rewrite mode share od dir slot n w b c = Ok c' ->
  exists paced, paced_sections (take_outputs dir c) = Ok paced /\
    frame (touched (take_outputs dir c) paced) touched_default (take_outputs dir c) c'.
Proof.
  unfold rewrite. set (c0 := take_outputs dir c).
  destruct (paced_sections c0) as [paced|]; cbn; [|done].
  destruct (rewrite_rate mode share od slot n w paced c0) as [c1|] eqn:E1; cbn; [|done].
  intros E2. exists paced. split; [done|].
  apply (rewrite_rate_frame c0 paced) in E1; [|reflexivity].
  apply (rewrite_window_frame c0 paced) in E2. by etrans.
Qed.

(** ** Claims: ownership *)

(** C17: After a rewrite, whatever its mode and backfill, the agent owns the
    outputs: the stanzas are the same, every one writes to the agent's socket
    ([outputMode = stoker]) from the agent's sample directory, and no other
    output key is visible in it, from its own options or from the defaults. *)
Theorem rewrite_owns_outputs {R : Rounding} mode share od dir slot n w b c c' :
  rewrite mode share od dir slot n w b c = Ok c' ->
  sections c' = sections c /\
  forall s, s ∈ sections c ->
    cget c' s "outputMode" = Some (Some "stoker") /\
    cget c' s "sampleDir" = Some (Some dir) /\
    (forall k, is_output_key k = true -> k <> "outputMode" -> cget c' s k = None).
Proof.
  intros (paced & _ & Es & F & D)%rewrite_frame.
  destruct (take_outputs_spec dir c) as (E1 & S1 & O1 & _).
  assert (forall s k, is_output_key k = true \/ k = "sampleDir" ->
    ~ touched (take_outputs dir c) paced s k /\ ~ touched_default k) as Hn.
  { intros s k Hk. unfold touched, touched_default.
    assert ((k ∉ REWRITTEN_KEYS) /\ (k ∉ RATE_MAP_KEYS)) as [? ?]; [|tauto].
    destruct Hk as [Hk| ->]; [|split; apply (bool_decide_unpack _); vm_compute; exact I].
    split; intros Hin; unfold REWRITTEN_KEYS, RATE_MAP_KEYS in Hin;
      rewrite !elem_of_cons, elem_of_nil in Hin; destruct_or?; subst; vm_compute in Hk; done. }
  split; [congruence|]. intros s Hs. destruct (S1 s Hs) as [M1 M2]. unfold cget. split_and!.
  - rewrite F, M1; [done|]. by apply Hn; left.
  - rewrite F, M2; [done|]. by apply Hn; right.
  - intros k Hk Hne. destruct (O1 s k Hs Hk Hne) as [K1 K2], (Hn s k (or_introl Hk)).
    by rewrite F, D, K1, K2.
Qed.

(** A replay stanza keeps its pacing: of its own options, a rewrite changes
    only the output keys and the sample directory. *)
Theorem rewrite_leaves_replay {R : Rounding} mode share od dir slot n w b c c' s k :
  rewrite mode share od dir slot n w b c = Ok c' ->
  is_replay c s = Ok true -> is_output_key k = false -> k <> "sampleDir" ->
  oget k (section c' s) = oget k (section c s).
Proof.
  intros (paced & Hp & Es & F & D)%rewrite_frame Hr Hk Hne.
  destruct (take_outputs_spec dir c) as (E1 & S1 & O1 & K1).
  set (c0 := take_outputs dir c) in *.
  assert (is_replay c0 s = Ok true) as Hr0.
  { unfold is_replay, cget in *. by destruct (K1 s "mode" eq_refl ltac:(done)) as [-> ->]. }
  rewrite F; [by apply K1|]. unfold touched. intros [[Hin _]|[Hf _]]; [|congruence].
  clear -Hp Hin Hr0. unfold paced_sections in Hp. revert paced Hp Hin.
  induction (sample_sections c0) as [|s0 ss IH]; intros paced; cbn [filter_result].
  { intros [= <-]. set_solver. }
  destruct (is_replay c0 s0) as [r|] eqn:E; cbn; [|done].
  destruct (filter_result _ ss) as [ys|]; [|done]. intros [= <-] Hin.
  destruct r; cbn in Hin; [by eapply IH|]. apply elem_of_cons in Hin as [->|Hin]; [congruence|by eapply IH].
Qed.

(** ** Counts over the fleet *)

Section Counts.
Context {R : Rounding}.

Lemma largest_remainder_ok total weights : 0 <= total ->
  exists parts, largest_remainder total weights = Ok parts.
Proof.
  intros H. unfold largest_remainder. destruct (Z.ltb_spec total 0); [lia|].
  destruct (Nat.eqb _ _); eauto.
Qed.

Lemma py_int_nonneg q : (0 <= q)%Q -> 0 <= py_int q.
Proof.
  intros H. rewrite py_int_floor by done. change 0 with (Qfloor 0). by apply Qfloor_resp_le.
Qed.

(** The parts of a stanza's declared count, when it is one the split applies to. *)
Definition count_parts (c : conf) (n : Z) (s : string) : option (list Z) :=
  match get_float c s "count" with
  | Some q =>
      if qlt q 0 then None
      else match largest_remainder (py_int q) (replicate (Z.to_nat n) 1%Q) with
           | Ok parts => Some parts
           | Raise _ => None
           end
  | None => None
  end.

(** The count of a stanza on one slot. *)
Definition slot_count (c : conf) (slot n : Z) (s : string) : option (option string) :=
  match count_parts c n s with
  | Some parts => Some (Some (pretty (nth (Z.to_nat slot) parts 0)))
  | None => cget c s "count"
  end.

Definition only_counts (ss : list string) (s k : string) : Prop := s ∈ ss /\ k = "count".

Lemma cget_frame P Pd c c' s k : frame P Pd c c' -> ~ P s k -> ~ Pd k -> cget c' s k = cget c s k.
Proof. intros (_ & F & D) H1 H2. unfold cget. by rewrite F, D. Qed.

Lemma cget_cset c s k v : s ∈ sections c -> cget (cset s k v c) s k = Some (Some v).
Proof.
  intros Hs. unfold cget, cset. rewrite section_update, bool_decide_true by done.
  by rewrite oget_oset, bool_decide_true.
Qed.

Lemma slot_count_frame P Pd c c' slot n s :
  frame P Pd c c' -> ~ P s "count" -> ~ Pd "count" -> slot_count c' slot n s = slot_count c slot n s.
Proof.
  intros F H1 H2. unfold slot_count, count_parts, get_float. by rewrite (cget_frame P Pd c c').
Qed.

Lemma rewrite_count_interval_spec slot n ss : forall c,
  0 <= slot < n -> NoDup ss -> (forall s, s ∈ ss -> s ∈ sections c) ->
  exists c', rewrite_count_interval ss slot n c = Ok c' /\
    frame (only_counts ss) (fun _ => False) c c' /\
    (forall s, s ∈ ss -> cget c' s "count" = slot_count c slot n s).
Proof.
  intros c Hslot. unfold rewrite_count_interval.
  destruct (Z.leb_spec 0 slot); [|lia]. destruct (Z.ltb_spec slot n); [|lia]. cbn [andb].
  revert c. induction ss as [|s ss IH]; intros c Hnd Hin; cbn [fold_result].
  { exists c. split_and!; [done|reflexivity|set_solver]. }
  apply NoDup_cons in Hnd as [Hs Hnd].
  (* the first stanza *)
  assert (exists c1, match get_float c s "count" with
      | Some count => if qlt count 0 then Ok c
          else shares ← largest_remainder (py_int count) (replicate (Z.to_nat n) 1%Q);
               Ok (cset s "count" (pretty (nth (Z.to_nat slot) shares 0)) c)
      | None => Ok c end = Ok c1 /\
    frame (only_counts [s]) (fun _ => False) c c1 /\ cget c1 s "count" = slot_count c slot n s)
    as (c1 & E1 & F1 & G1).
  { unfold slot_count, count_parts. destruct (get_float c s "count") as [q|].
    2:{ exists c. split_and!; [done|reflexivity|done]. }
    destruct (qlt_spec q 0) as [Hq|Hq]; [exists c; split_and!; [done|reflexivity|done]|].
    destruct (largest_remainder_ok (py_int q) (replicate (Z.to_nat n) 1%Q)) as [parts Hp];
      [apply py_int_nonneg; lra|]. rewrite Hp. cbn.
    eexists. split; [reflexivity|]. split.
    - apply frame_cset. unfold only_counts. set_solver.
    - apply cget_cset, Hin. set_solver. }
  rewrite E1. destruct (IH c1 Hnd) as (c' & E' & F' & G').
  { intros s' Hs'. destruct F1 as [-> _]. apply Hin. set_solver. }
  exists c'. split; [done|]. split.
  - etrans; [eapply frame_weaken; [| |exact F1]|eapply frame_weaken; [| |exact F']];
      unfold only_counts; try done; set_solver.
  - intros s' Hs'. destruct (decide (s' = s)) as [->|Hne].
    + rewrite (cget_frame _ _ _ _ s "count" F'); [done|unfold only_counts; set_solver|tauto].
    + rewrite G' by set_solver. apply (slot_count_frame _ _ _ _ _ _ _ F1); [|tauto].
      unfold only_counts. set_solver.
Qed.

(** A configparser keeps one section per name. *)
Definition wf_conf (c : conf) : Prop := NoDup (sections c).

Lemma filter_result_sub {A} (p : A -> result bool) xs : forall ys,
  filter_result p xs = Ok ys -> (forall y, y ∈ ys <-> y ∈ xs /\ p y = Ok true) /\ (NoDup xs -> NoDup ys).
Proof.
  induction xs as [|x xs IH]; intros ys; cbn [filter_result].
  { intros [= <-]. split; [set_solver|done]. }
  destruct (p x) as [b|] eqn:Ep; [|done].
  destruct (filter_result p xs) as [zs|]; [|done]. intros [= <-].
  destruct (IH zs eq_refl) as [H1 H2]. split.
  - intros y. destruct b; rewrite ?elem_of_cons, H1; split.
    + intros [->|[? ?]]; auto.
    + intros [[->|?] ?]; auto.
    + tauto.
    + intros [[->|?] ?]; [congruence|auto].
  - intros [Hx Hn]%NoDup_cons. destruct b; [|by apply H2].
    apply NoDup_cons. split; [|by apply H2]. rewrite H1. tauto.
Qed.

Lemma paced_spec c paced : wf_conf c -> paced_sections c = Ok paced ->
  NoDup paced /\ forall s, s ∈ paced <-> s ∈ sample_sections c /\ is_replay c s = Ok false.
Proof.
  intros Hwf [H1 H2]%filter_result_sub. split.
  - apply H2. unfold sample_sections. by apply NoDup_ListNoDup, List.NoDup_filter, NoDup_ListNoDup.
  - intros s. rewrite H1. destruct (is_replay c s) as [[|]|]; cbn; split; intros [? ?]; split; congruence.
Qed.

Lemma sample_in_sections c s : s ∈ sample_sections c -> s ∈ sections c.
Proof.
  intros H. apply list_elem_of_In in H. apply List.filter_In in H as [H _]. by apply list_elem_of_In.
Qed.
End Counts.

Section Fleet.
Context {R : Rounding}.

Lemma filter_result_ext {A} (p q : A -> result bool) xs :
  (forall x, p x = q x) -> filter_result p xs = filter_result q xs.
Proof. intros H. induction xs as [|x xs IH]; cbn; [done|]. by rewrite H, IH. Qed.

(** Taking over the outputs leaves the stanzas and their rates alone. *)
Lemma take_outputs_keeps dir c :
  let c0 := take_outputs dir c in
  sections c0 = sections c /\ paced_sections c0 = paced_sections c /\
  forall s k, is_output_key k = false -> k <> "sampleDir" -> cget c0 s k = cget c s k.
Proof.
  destruct (take_outputs_spec dir c) as (E & _ & _ & K). cbv zeta.
  assert (forall s k, is_output_key k = false -> k <> "sampleDir" ->
    cget (take_outputs dir c) s k = cget c s k) as Hg.
  { intros s k H1 H2. unfold cget. by destruct (K s k H1 H2) as [-> ->]. }
  split; [done|]. split; [|done]. unfold paced_sections, sample_sections. rewrite E.
  apply filter_result_ext. intros s. unfold is_replay. by rewrite Hg.
Qed.

Lemma slot_count_same c c' slot n s :
  cget c' s "count" = cget c s "count" -> slot_count c' slot n s = slot_count c slot n s.
Proof. intros E. unfold slot_count, count_parts, get_float. by rewrite E. Qed.

(** A count_interval rewrite succeeds and changes, besides the outputs, the
    counts of the paced stanzas. *)
Lemma rewrite_interval_spec c paced n share od dir w slot :
  wf_conf c -> paced_sections c = Ok paced -> 0 <= slot < n ->
  exists c', rewrite "count_interval" share od dir slot n w no_backfill c = Ok c' /\
    sections c' = sections c /\
    (forall s k, k <> "count" -> is_output_key k = false -> k <> "sampleDir" ->
       cget c' s k = cget c s k) /\
    (forall s, s ∈ paced -> cget c' s "count" = slot_count c slot n s).
Proof.
  intros Hwf Hp Hslot. unfold rewrite.
  destruct (take_outputs_keeps dir c) as (E1 & E2 & E3). set (c0 := take_outputs dir c) in *.
  rewrite E2, Hp. cbn [mbind result_bind ba_sweep no_backfill andb].
  destruct (paced_spec c paced Hwf Hp) as [Hnd Hin].
  destruct (rewrite_count_interval_spec slot n paced c0 Hslot Hnd) as (c' & Er & F & Hc).
  { intros s' Hs'. rewrite E1. by apply sample_in_sections, Hin. }
  exists c'. unfold rewrite_rate, rewrite_window. cbn -[rewrite_count_interval]. rewrite Er.
  split; [done|]. split; [destruct F as [-> _]; done|]. split.
  - intros s k Hk Ho Hd. rewrite (cget_frame _ _ _ _ _ _ F); [by apply E3|unfold only_counts; tauto|tauto].
  - intros s Hs. rewrite Hc by done. apply slot_count_same. by apply E3.
Qed.

(** In a count_interval run the fleet's counts add up.  For every paced stanza
    of a pack whose declared count is a number that is not negative, the
    rewrites on the [n] slots succeed and write parts that sum to exactly the
    integer part of that count. *)
Theorem interval_counts_add_up c paced s q n share od dir w :
  wf_conf c -> paced_sections c = Ok paced -> s ∈ paced -> 1 <= n ->
  get_float c s "count" = Some q -> (0 <= q)%Q -> (py_int q + 1) * (4 * n + 8) <= 2 ^ 53 ->
  exists parts, zsum parts = py_int q /\ Z.of_nat (length parts) = n /\
    forall slot, 0 <= slot < n -> exists c',
      rewrite "count_interval" share od dir slot n w no_backfill c = Ok c' /\
      cget c' s "count" = Some (Some (pretty (nth (Z.to_nat slot) parts 0))).
Proof.
  intros Hwf Hp Hs Hn Hq Hq0 Hb.
  destruct (largest_remainder_parts (py_int q) (replicate (Z.to_nat n) 1%Q)) as (parts & El & Ell & Es & _).
  - intros E. apply (f_equal length) in E. rewrite length_replicate in E. cbn in E. lia.
  - apply Forall_replicate. done.
  - by apply py_int_nonneg.
  - rewrite length_replicate, Z2Nat.id by lia. done.
  - exists parts. split; [done|]. split; [rewrite Ell, length_replicate; lia|].
    intros slot Hslot.
    destruct (rewrite_interval_spec c paced n share od dir w slot Hwf Hp Hslot) as (c' & Er & _ & _ & Hc).
    exists c'. split; [done|]. rewrite Hc by done. unfold slot_count, count_parts.
    rewrite Hq. destruct (qlt_spec q 0); [lra|]. by rewrite El.
Qed.

(** ** The counts of an eps run *)

Lemma fold_fadd_nonneg xs : forall a, (0 <= a)%Q -> Forall (fun q => (0 <= q)%Q) xs ->
  (0 <= fold_left fadd xs a)%Q.
Proof.
  induction xs as [|x xs IH]; intros a Ha Hx; cbn; [done|].
  apply Forall_cons in Hx as [? ?]. apply IH; [apply rnd_nonneg; lra|done].
Qed.

Lemma fdiv_nonneg x y : (0 <= x)%Q -> (0 < y)%Q -> (0 <= fdiv x y)%Q.
Proof. intros Hx Hy. apply rnd_nonneg, Qle_shift_div_l; lra. Qed.

Lemma declared_weights_nonneg c ss : Forall (fun w => (0 <= w)%Q) (declared_eps_weights c ss).
Proof.
  unfold declared_eps_weights. cbv zeta. set (raw := _ <$> ss).
  assert (Forall (fun o => match o with Some w => (0 <= w)%Q | None => True end) raw) as Hraw.
  { apply Forall_fmap, Forall_true. intros s. cbn.
    destruct (get_float c s "count") as [q|]; [|done].
    destruct (Qle_bool_spec q 0) as [|Hq]; [done|]. apply fdiv_nonneg; [lra|].
    destruct (get_float c s "interval") as [i|]; [|done]. by destruct (Qle_bool_spec i 0); [|lra]. }
  assert (Forall (fun w => (0 <= w)%Q) (omap id raw)) as Hdecl.
  { apply Forall_forall. intros w (o & Ho & E)%list_elem_of_omap. cbn in E. subst o.
    by apply (proj1 (Forall_forall _ _) Hraw) in Ho. }
  apply Forall_fmap, (Forall_impl _ _ _ Hraw). intros [w|] Hw; cbn; [done|].
  destruct (omap id raw) as [|w0 ws] eqn:E; [done|]. apply fdiv_nonneg; [by apply fold_fadd_nonneg|].
  apply rnd_pos. apply (inject_Z_lt 0). cbn. lia.
Qed.

Lemma strip_rate_maps_ok c :
  (forall s, s ∈ sections c -> exists r, is_replay c s = Ok r) -> exists c', strip_rate_maps c = Ok c'.
Proof.
  intros Hr. unfold strip_rate_maps. set (c1 := del_defaults _ c).
  assert (forall s, s ∈ sections c1 -> exists r, is_replay c1 s = Ok r) as H1.
  { intros s Hs. destruct (Hr s Hs) as [r Er]. exists r. unfold is_replay, cget in *.
    pose (p := fun k : string => bool_decide (k ∈ RATE_MAP_KEYS)).
    pose proof (oget_filter "mode" p (cf_defaults c)) as E. unfold p in E.
    rewrite bool_decide_false in E by (unfold RATE_MAP_KEYS; set_solver).
    rewrite <- Er. change (section c1 s) with (section c s).
    destruct (oget "mode" (section c s)); [done|]. unfold c1, del_defaults. cbn [cf_defaults]. by rewrite E. }
  revert H1. generalize (sections c1) at 1 2. intros ss. generalize c1. clear.
  induction ss as [|s ss IH]; intros c H; cbn [fold_result]; [eauto|].
  destruct (H s ltac:(left)) as [r Er]. rewrite Er. cbn [mbind result_bind].
  apply IH. intros s' Hs'. destruct (H s' ltac:(by right)) as [r' Er']. exists r'.
  rewrite <- Er'. destruct r; [done|].
  apply (is_replay_frame (fun _ k => k ∈ RATE_MAP_KEYS) (fun _ => False) c).
  - apply frame_foldl. intros c2 k Hk. by apply frame_cdel.
  - unfold RATE_MAP_KEYS. set_solver.
  - tauto.
Qed.

Definition only_eps (s0 s k : string) : Prop :=
  s = s0 /\ k ∈ ["interval"; "count"; "randomizeCount"].

Lemma set_eps_count_spec s z c : s ∈ sections c ->
  let c' := set_eps_count (s, z) c in
  frame (only_eps s) (fun _ => False) c c' /\
  cget c' s "interval" = Some (Some "1") /\ cget c' s "count" = Some (Some (pretty (Z.max 1 z))).
Proof.
  intros Hs c'. unfold set_eps_count in c'. split.
  { etrans; [|apply frame_cdel; unfold only_eps; set_solver].
    etrans; apply frame_cset; unfold only_eps; set_solver. }
  subst c'. unfold cget, cset, cdel. rewrite !section_update, !sections_update, !bool_decide_true by done.
  by rewrite !oget_odel, !oget_oset.
Qed.

Lemma set_eps_counts_spec ss : forall counts c,
  NoDup ss -> length counts = length ss -> (forall s, s ∈ ss -> s ∈ sections c) ->
  forall i s z, ss !! i = Some s -> counts !! i = Some z ->
  let c' := foldl (fun c sc => set_eps_count sc c) c (zip ss counts) in
  cget c' s "interval" = Some (Some "1") /\ cget c' s "count" = Some (Some (pretty (Z.max 1 z))).
Proof.
  induction ss as [|s0 ss IH]; intros [|z0 counts] c Hnd Hl Hin i s z Hi Hz; try done.
  apply NoDup_cons in Hnd as [Hs0 Hnd]. cbn [zip zip_with foldl].
  destruct (set_eps_count_spec s0 z0 c (Hin s0 ltac:(left))) as (F0 & G1 & G2).
  set (c1 := set_eps_count (s0, z0) c) in *.
  assert (forall s, s ∈ ss -> s ∈ sections c1) as Hin1
    by (intros s' Hs'; destruct F0 as [-> _]; apply Hin; by right).
  destruct i as [|i]; cbn in Hi, Hz.
  - injection Hi as ->. injection Hz as ->.
    assert (frame (fun s' _ => s' ∈ ss) (fun _ => False) c1
      (foldl (fun c sc => set_eps_count sc c) c1 (zip ss counts))) as F.
    { apply frame_foldl. intros c2 [s' z'] Hp%zip_fst_elem. cbn in Hp.
      etrans; [|by apply frame_cdel]. etrans; by apply frame_cset. }
    cbv zeta. rewrite !(cget_frame _ _ _ _ _ _ F); tauto.
  - injection Hl as Hl. by apply (IH counts c1 Hnd Hl Hin1 i).
Qed.

Lemma zsum_max parts : zsum parts <= zsum (Z.max 1 <$> parts).
Proof. induction parts as [|z parts IH]; [done|]. rewrite fmap_cons. apply Z.add_le_mono; [lia|exact IH]. Qed.

(** The weights a caller may pass. *)
Definition usable (w : option (list Q)) (paced : list string) : Prop :=
  match w with Some ws => length ws = length paced /\ Forall (fun q => (0 <= q)%Q) ws | None => True end.

Lemma eps_rewrite_spec c paced share od dir slot n w :
  wf_conf c -> (forall s, s ∈ sections c -> exists r, is_replay c s = Ok r) ->
  paced_sections c = Ok paced -> paced <> [] -> (0 < share)%Q -> (0 <= od)%Q -> usable w paced ->
  let total := round_half_even (fmul share od) in
  (total + 1) * (4 * Z.of_nat (length paced) + 8) <= 2 ^ 53 ->
  exists c' parts,
    rewrite "eps" (Some share) od dir slot n w no_backfill c = Ok c' /\
    length parts = length paced /\ zsum parts = total /\
    forall i s z, paced !! i = Some s -> parts !! i = Some z ->
      cget c' s "count" = Some (Some (pretty (Z.max 1 z))) /\ cget c' s "interval" = Some (Some "1").
Proof.
  intros Hwf Hrep Hp Hne Hsh Hod Hw total Hb.
  destruct (take_outputs_keeps dir c) as (E1 & E2 & E3).
  destruct (strip_rate_maps_ok (take_outputs dir c)) as [c1 Ec1].
  { intros s Hs. rewrite E1 in Hs. destruct (Hrep s Hs) as [r Er]. exists r.
    unfold is_replay in *. by rewrite E3. }
  pose proof Ec1 as (Es1 & _ & _)%(strip_rate_maps_frame (take_outputs dir c) paced); [|reflexivity].
  destruct (paced_spec c paced Hwf Hp) as [Hnd Hin].
  set (ws := default (declared_eps_weights c1 paced) w).
  assert (length ws = length paced) as Hlen.
  { subst ws. destruct w as [ws|]; cbn; [apply Hw|]. unfold declared_eps_weights. by rewrite !length_fmap. }
  destruct (largest_remainder_parts total ws) as (parts & El & Ell & Esum & _).
  - intros E. by rewrite E in Hlen; destruct paced.
  - subst ws. destruct w as [ws|]; cbn; [apply Hw|]. apply declared_weights_nonneg.
  - subst total. pose proof (round_half_even_mono 0 (fmul share od)) as Hm.
    apply Hm, rnd_nonneg, Qmult_le_0_compat; lra.
  - by rewrite Hlen.
  - exists (foldl (fun c sc => set_eps_count sc c) c1 (zip paced parts)), parts.
    split; [|split; [congruence|split; [done|]]].
    + unfold rewrite. rewrite E2, Hp. cbn [mbind result_bind ba_sweep no_backfill andb].
      unfold rewrite_rate, rewrite_window. rewrite bool_decide_true by done.
      cbn -[strip_rate_maps rewrite_eps Qle_bool].
      destruct (Qle_bool_spec share 0); [lra|]. rewrite Ec1. cbn -[rewrite_eps].
      assert (rewrite_eps paced share od w c1 =
        Ok (foldl (fun c sc => set_eps_count sc c) c1 (zip paced parts))) as Er.
      { unfold rewrite_eps, check_weights. fold ws. rewrite bool_decide_true by done.
        cbn. fold total. by rewrite El. }
      rewrite Er. destruct paced; [done|]. reflexivity.
    + intros i s z Hi Hz.
      destruct (set_eps_counts_spec paced parts c1) with (i := i) (s := s) (z := z); try done.
      * congruence.
      * intros s' Hs'. rewrite Es1, E1. by apply sample_in_sections, Hin.
Qed.

(** An eps rewrite keeps the bucket supplied.  On every pack whose stanzas can
    be read and pace something, with the stanzas' declared weights or any usable
    ones, the rewrite succeeds; every paced stanza then runs once a second with a
    count of at least one, and the counts together reach the overdriven share,
    [round(share * overdrive)]. *)
Theorem eps_counts_cover c paced share od dir slot n w :
  wf_conf c -> (forall s, s ∈ sections c -> exists r, is_replay c s = Ok r) ->
  paced_sections c = Ok paced -> paced <> [] -> (0 < share)%Q -> (0 <= od)%Q -> usable w paced ->
  let total := round_half_even (fmul share od) in
  (total + 1) * (4 * Z.of_nat (length paced) + 8) <= 2 ^ 53 ->
  exists c' counts,
    rewrite "eps" (Some share) od dir slot n w no_backfill c = Ok c' /\
    length counts = length paced /\ total <= zsum counts /\
    forall i s z, paced !! i = Some s -> counts !! i = Some z ->
      1 <= z /\ cget c' s "count" = Some (Some (pretty z)) /\ cget c' s "interval" = Some (Some "1").
Proof.
  intros Hwf Hrep Hp Hne Hsh Hod Hw total Hb.
  destruct (eps_rewrite_spec c paced share od dir slot n w) as (c' & parts & Er & El & Es & Hc); [done..|].
  exists c', (Z.max 1 <$> parts). split; [done|]. split; [by rewrite length_fmap|]. split.
  - etrans; [|apply zsum_max]. rewrite Es. reflexivity.
  - intros i s z Hi Hz. rewrite list_lookup_fmap in Hz. destruct (parts !! i) as [z0|] eqn:Ez; [|done].
    injection Hz as <-. destruct (Hc i s z0 Hi Ez). split_and!; [lia|done|done].
Qed.

(** The overdrive does not always cover the share.  With the default overdrive
    of 1.15 and a pack of one paced stanza, a worker whose share is between 1
    and 1.3 events a second is given a count of one a second: the engine then
    produces less than the share, whatever the bucket allows. *)
Theorem eps_supply_short c s share od dir slot n :
  wf_conf c -> (forall s, s ∈ sections c -> exists r, is_replay c s = Ok r) ->
  paced_sections c = Ok [s] -> (1 < share <= 13 # 10)%Q -> od = rnd (115 # 100) ->
  exists c', rewrite "eps" (Some share) od dir slot n None no_backfill c = Ok c' /\
    cget c' s "count" = Some (Some "1") /\ cget c' s "interval" = Some (Some "1").
Proof.
  intros Hwf Hrep Hp [Hs1 Hs2] ->.
  destruct (rnd_bounds (115 # 100)) as [O1 O2]; [done|]. set (od := rnd (115 # 100)) in *.
  assert (0 < share * od <= 1495001 # 1000000)%Q as [P1 P2] by (unfold eps in *; split; nra).
  destruct (rnd_bounds (share * od)) as [M1 M2]; [lra|]. fold (fmul share od) in M1, M2.
  assert (1 <= fmul share od)%Q as L by (unfold eps in *; nra).
  assert (fmul share od <= 1496 # 1000)%Q as U by (unfold eps in *; nra).
  assert (round_half_even (fmul share od) = 1) as Et.
  { apply round_half_even_mono in L, U. change (round_half_even 1) with 1 in L.
    change (round_half_even (1496 # 1000)) with 1 in U. lia. }
  destruct (eps_rewrite_spec c [s] share od dir slot n None) as (c' & parts & Er & El & Es & Hc);
    [done..|lra|unfold eps in *; lra|done|rewrite Et; cbn; lia|].
  rewrite Et in Es. destruct parts as [|z [|]]; try done. cbn in Es. assert (z = 1) as -> by lia.
  exists c'. split; [done|]. by apply (Hc 0%nat s 1).
Qed.
End Fleet.

(** ** Witnesses *)

(** A pack with a replayed stanza, two paced ones and pack-side outputs. *)
Definition sample_pack : conf :=
  mkConf [("outputMode", Some "httpevent"); ("hourOfDayRate", Some "{}")]
    [("global", [("threading", Some "thread")]);
     ("web.sample", [("count", Some "7"); ("index", Some "main"); ("interval", Some "30")]);
     ("auth.sample", [("count", Some "3"); ("randomizeCount", Some "0.2")]);
     ("replay.sample", [("mode", Some " replay "); ("count", Some "5"); ("httpeventServers", None)])].

Ltac conf_wf := apply (bool_decide_unpack _); vm_compute; exact I.

Lemma rewrite_owns_outputs_witness :
  exists c', @rewrite binary64 "eps" (Some 10%Q) 2 "/run/s" 0 1 None no_backfill sample_pack = Ok c' /\
    sections c' = sections sample_pack.
Proof.
  eexists. split; [vm_compute; reflexivity|].
  refine (proj1 (@rewrite_owns_outputs binary64 "eps" (Some 10%Q) 2 "/run/s" 0 1 None no_backfill
    sample_pack _ _)). vm_compute. reflexivity.
Defined.

Lemma rewrite_leaves_replay_witness :
  exists c', @rewrite binary64 "eps" (Some 10%Q) 2 "/run/s" 0 1 None no_backfill sample_pack = Ok c' /\
    oget "count" (section c' "replay.sample") = oget "count" (section sample_pack "replay.sample").
Proof.
  eexists. split; [vm_compute; reflexivity|].
  refine (@rewrite_leaves_replay binary64 "eps" (Some 10%Q) 2 "/run/s" 0 1 None no_backfill
    sample_pack _ "replay.sample" "count" _ _ _ _); [vm_compute; reflexivity..|done].
Defined.

Lemma interval_counts_add_up_witness :
  exists parts, zsum parts = 7 /\ Z.of_nat (length parts) = 3 /\
    forall slot, 0 <= slot < 3 -> exists c',
      @rewrite binary64 "count_interval" None 1 "/run/s" slot 3 None no_backfill sample_pack = Ok c' /\
      cget c' "web.sample" "count" = Some (Some (pretty (nth (Z.to_nat slot) parts 0))).
Proof.
  refine (@interval_counts_add_up binary64 sample_pack ["web.sample"; "auth.sample"] "web.sample"
    (7881299347898368 # 1125899906842624) 3
    None 1 "/run/s" None _ _ _ _ _ _ _).
  - conf_wf.
  - vm_compute. reflexivity.
  - left.
  - lia.
  - vm_compute. reflexivity.
  - done.
  - vm_compute. done.
Defined.

Lemma eps_counts_cover_witness :
  exists c' counts,
    @rewrite binary64 "eps" (Some 10%Q) 2 "/run/s" 0 1 None no_backfill sample_pack = Ok c' /\
    length counts = 2%nat /\ 20 <= zsum counts /\
    forall i s z, ["web.sample"; "auth.sample"] !! i = Some s -> counts !! i = Some z ->
      1 <= z /\ cget c' s "count" = Some (Some (pretty z)) /\ cget c' s "interval" = Some (Some "1").
Proof.
  refine (@eps_counts_cover binary64 sample_pack ["web.sample"; "auth.sample"] 10 2 "/run/s" 0 1 None
    _ _ _ _ _ _ _ _).
  - conf_wf.
  - apply Forall_forall. repeat (apply Forall_cons; split; [eexists; vm_compute; reflexivity|]). apply Forall_nil. done.
  - vm_compute. reflexivity.
  - done.
  - done.
  - done.
  - done.
  - vm_compute. done.
Defined.

Definition one_stanza : conf := mkConf [] [("web.sample", [("count", Some "5")])].

Lemma eps_supply_short_witness :
  exists c', @rewrite binary64 "eps" (Some (6 # 5)%Q) (@rnd binary64 (115 # 100)) "/s" 0 1 None no_backfill one_stanza = Ok c' /\
    cget c' "web.sample" "count" = Some (Some "1") /\ cget c' "web.sample" "interval" = Some (Some "1").
Proof.
  refine (@eps_supply_short binary64 one_stanza "web.sample" (6 # 5) _ "/s" 0 1 _ _ _ _ _).
  - conf_wf.
  - apply Forall_forall. repeat (apply Forall_cons; split; [eexists; vm_compute; reflexivity|]). apply Forall_nil. done.
  - vm_compute. reflexivity.
  - done.
  - reflexivity.
Defined.
