(* ===== verification/Shaping.v ===== *)
(** * Time-of-day shaping (worker/stoker_agent/shaping.py)

    With [rate_shape = pack] the worker's bucket follows the pack's time-of-day
    maps: at local time [t] the rate is the share times the product of the maps
    at [t], over the product of the maps' means.  The order in which Python
    iterates the frozen set of map keys is the argument [keys]; [json.loads] of a
    map's text is the argument [loads] ([None] where it raises).

    The theorems: the rate never exceeds what the engine is told to produce (the
    curve's peak), and over the whole domain of the maps the rates average to
    the share. *)

From S2P Require Import Prelude.
From S2P Require Import PyFloat.
From S2P Require Import PyValue.
From S2P Require Import Pacing.
From S2P Require Import MetricEngine.
From S2P Require Import Apportion.
From S2P Require Import ConfRewrite.
From Stdlib Require Import QArith Qround Qabs Lqa.
Open Scope Z_scope.

(** What the maps read of a [struct_time]. *)
Record struct_time : Type := mkTime {
  tm_hour : Z;
  tm_wday : Z;
  tm_min : Z;
  tm_mday : Z;
  tm_mon : Z;
}.

Inductive rate_map : Type := hourOfDay | dayOfWeek | minuteOfHour | dayOfMonth | monthOfYear.

Global Instance rate_map_eq_dec : EqDecision rate_map.
Proof. solve_decision. Defined.

Definition map_name (m : rate_map) : string :=
  match m with
  | hourOfDay => "hourOfDayRate"
  | dayOfWeek => "dayOfWeekRate"
  | minuteOfHour => "minuteOfHourRate"
  | dayOfMonth => "dayOfMonthRate"
  | monthOfYear => "monthOfYearRate"
  end.

(** [_DOMAINS]: the keys of a map, and how one is read off the clock. *)
Definition domain (m : rate_map) : list Z :=
  match m with
  | hourOfDay => seqZ 0 24
  | dayOfWeek => seqZ 0 7
  | minuteOfHour => seqZ 0 60
  | dayOfMonth => seqZ 1 31
  | monthOfYear => seqZ 1 12
  end.

Definition read_key (m : rate_map) (tm : struct_time) : Z :=
  match m with
  | hourOfDay => tm_hour tm
  | dayOfWeek => (tm_wday tm + 1) mod 7
  | minuteOfHour => tm_min tm
  | dayOfMonth => tm_mday tm
  | monthOfYear => tm_mon tm
  end.

Abbreviation values := (list (Z * Q)).

(** [values.get(k, 1.0)] *)
Definition vget (k : Z) (vs : values) : Q :=
  match List.find (fun kv => bool_decide (kv.1 = k)) vs with Some kv => kv.2 | None => 1%Q end.

(** [out[k] = v] *)
Fixpoint vset (k : Z) (v : Q) (vs : values) : values :=
  match vs with
  | [] => [(k, v)]
  | (k', v') :: vs => if bool_decide (k' = k) then (k, v) :: vs else (k', v') :: vset k v vs
  end.

Section Shaping.
Context {R : Rounding}.

Definition MIN_RATE : Q := rnd (1 # 1000).

Record ShapeCurve : Type := mkCurve {
  sc_maps : list (rate_map * values);
  sc_mean : Q;
  sc_peak : Q;
}.

Definition factors (mv : rate_map * values) : list Q := (fun k => vget k mv.2) <$> domain mv.1.

(** [max(factors)] *)
Definition maximum (qs : list Q) : Q :=
  match qs with [] => 0%Q | q :: qs => foldl pymax q qs end.

Definition mean_of (mv : rate_map * values) : Q :=
  fdiv (fsum (factors mv)) (rnd (inject_Z (Z.of_nat (length (factors mv))))).

Definition new_curve (maps : list (rate_map * values)) : ShapeCurve :=
  mkCurve maps
    (foldl (fun mean mv => fmul mean (mean_of mv)) 1%Q maps)
    (foldl (fun peak mv => fmul peak (maximum (factors mv))) 1%Q maps).

Definition peak_ratio (c : ShapeCurve) : Q := fdiv (sc_peak c) (sc_mean c).

Definition factor (c : ShapeCurve) (tm : struct_time) : Q :=
  foldl (fun f mv => fmul f (vget (read_key mv.1 tm) mv.2)) 1%Q (sc_maps c).

Definition rate (c : ShapeCurve) (share_eps : Q) (tm : struct_time) : Q :=
  pymax MIN_RATE (fdiv (fmul share_eps (factor c tm)) (sc_mean c)).

(** ** Reading the maps *)

(** [float(v)] of a JSON value *)
Definition doc_float (d : doc) : option Q :=
  match d with
  | DBool b => Some (if b then 1%Q else 0%Q)
  | DNum q => Some (rnd q)
  | DStr s => float_of_string s
  | _ => None
  end.

Definition parse_map (loads : string -> option doc) (text : string) : option values :=
  match loads text with
  | Some (DObj fields) =>
      let out := foldl (fun out kv =>
        match int_of_string kv.1, doc_float kv.2 with
        | Some k, Some v => vset k (pymax 0 v) out
        | _, _ => out
        end) [] fields in
      match out with [] => None | _ => Some out end
  | _ => None
  end.

Definition mget (m : rate_map) (maps : list (rate_map * values)) : option values :=
  snd <$> List.find (fun mv => bool_decide (mv.1 = m)) maps.

Fixpoint mset (m : rate_map) (vs : values) (maps : list (rate_map * values)) : list (rate_map * values) :=
  match maps with
  | [] => [(m, vs)]
  | (m', vs') :: maps => if bool_decide (m' = m) then (m, vs) :: maps else (m', vs') :: mset m vs maps
  end.

(** [if raw: parsed = _parse_map(key, raw); if parsed: maps[key] = parsed] *)
Definition add_map (loads : string -> option doc) (raw : option (option string)) (m : rate_map)
    (maps : list (rate_map * values)) : list (rate_map * values) :=
  match raw with
  | Some (Some text) =>
      if nonempty text then match parse_map loads text with Some vs => mset m vs maps | None => maps end
      else maps
  | _ => maps
  end.

Definition section_maps (loads : string -> option doc) (keys : list rate_map) (c : conf) (s : string)
    (maps : list (rate_map * values)) : list (rate_map * values) :=
  foldl (fun maps m => add_map loads (cget c s (map_name m)) m maps) maps keys.

Definition default_maps (loads : string -> option doc) (keys : list rate_map) (c : conf)
    (maps : list (rate_map * values)) : list (rate_map * values) :=
  foldl (fun maps m =>
    match mget m maps with
    | Some _ => maps
    | None => add_map loads (oget (map_name m) (cf_defaults c)) m maps
    end) maps keys.

(** The first paced stanza with maps of its own overrides. *)
Fixpoint stanza_maps (loads : string -> option doc) (keys : list rate_map) (c : conf) (ss : list string)
    (maps : list (rate_map * values)) : result (list (rate_map * values)) :=
  match ss with
  | [] => Ok maps
  | s :: ss =>
      match is_replay c s with
      | Raise e => Raise e
      | Ok true => stanza_maps loads keys c ss maps
      | Ok false =>
          match section_maps loads keys c s [] with
          | [] => stanza_maps loads keys c ss maps
          | own => Ok (foldl (fun maps mv => mset mv.1 mv.2 maps) maps own)
          end
      end
  end.

Definition curve_from_parser (loads : string -> option doc) (keys : list rate_map) (c : conf)
    : result (option ShapeCurve) :=
  let globals := List.filter (fun s => bool_decide (py_lower s ∈ GLOBAL_SECTIONS)) (sections c) in
  let maps := foldl (fun maps s => section_maps loads keys c s maps) [] globals in
  let maps := default_maps loads keys c maps in
  match stanza_maps loads keys c (sample_sections c) maps with
  | Raise e => Raise e
  | Ok [] => Ok None
  | Ok maps =>
      let curve := new_curve maps in
      Ok (if Qle_bool (sc_mean curve) 0 || Qle_bool (sc_peak curve) 0 then None else Some curve)
  end.
End Shaping.

(** ** The curve's maps *)

Definition valid_time (tm : struct_time) : Prop :=
  0 <= tm_hour tm < 24 /\ 0 <= tm_wday tm < 7 /\ 0 <= tm_min tm < 60 /\
  1 <= tm_mday tm <= 31 /\ 1 <= tm_mon tm <= 12.

Lemma read_in_domain m tm : valid_time tm -> read_key m tm ∈ domain m.
Proof.
  unfold valid_time. intros H. pose proof (Z.mod_pos_bound (tm_wday tm + 1) 7 ltac:(lia)).
  destruct m; cbn [read_key domain]; apply elem_of_seqZ; lia.
Qed.

Definition nonneg_values (vs : values) : Prop := Forall (fun kv => (0 <= kv.2)%Q) vs.
Definition maps_ok (maps : list (rate_map * values)) : Prop :=
  NoDup (fst <$> maps) /\ Forall (fun mv => nonneg_values mv.2) maps.

Lemma vget_nonneg k vs : nonneg_values vs -> (0 <= vget k vs)%Q.
Proof.
  intros H. unfold vget. destruct (List.find _ vs) as [kv|] eqn:E; [|done].
  apply List.find_some in E as [E _]. rewrite <- list_elem_of_In in E.
  by apply (proj1 (Forall_forall _ _) H) in E.
Qed.

Section Maps.
Context {R : Rounding}.

Lemma vset_nonneg k v vs : (0 <= v)%Q -> nonneg_values vs -> nonneg_values (vset k v vs).
Proof.
  intros Hv H. induction H as [|[k' v'] vs H1 H IH]; cbn; [by repeat constructor|].
  destruct (bool_decide (k' = k)); by constructor.
Qed.

Lemma parse_map_nonneg loads text vs : parse_map loads text = Some vs -> nonneg_values vs.
Proof.
  unfold parse_map. destruct (loads text) as [[| | | | |fields]|]; try done. cbv zeta.
  set (out := foldl _ [] fields). assert (nonneg_values out) as Hout; [|destruct out; [done|by intros [= <-]]].
  subst out. assert (nonneg_values []) as H0 by constructor. revert H0. generalize (@nil (Z * Q)).
  induction fields as [|[k d] fields IH]; intros out Ho; cbn [foldl]; [done|]. apply IH.
  cbn [fst snd]. destruct (int_of_string k), (doc_float d) as [v|]; try done. apply vset_nonneg; [|done].
  unfold pymax. destruct (qlt_spec 0 v); lra.
Qed.

Lemma mset_names m vs maps :
  fst <$> mset m vs maps = (fst <$> maps) ++ (if bool_decide (m ∈ fst <$> maps) then [] else [m]).
Proof.
  induction maps as [|[m' vs'] maps IH]; [done|]. rewrite !fmap_cons. cbn [mset fst].
  destruct (bool_decide_reflect (m' = m)) as [->|Hne].
  - rewrite fmap_cons, bool_decide_true by left. by rewrite app_nil_r.
  - rewrite fmap_cons, IH. cbn.
    rewrite (bool_decide_ext (m ∈ m' :: _) (m ∈ fst <$> maps)); [done|]. rewrite elem_of_cons. naive_solver.
Qed.

Lemma mset_ok m vs maps : nonneg_values vs -> maps_ok maps -> maps_ok (mset m vs maps).
Proof.
  intros Hv [Hn Hm]. split.
  - rewrite mset_names. case_bool_decide; [by rewrite app_nil_r|].
    apply NoDup_app. split; [done|]. split; [set_solver|apply NoDup_singleton].
  - clear Hn. induction Hm as [|[m' vs'] maps H1 Hm IH]; cbn; [by repeat constructor|].
    destruct (bool_decide (m' = m)); by constructor.
Qed.

Lemma add_map_ok loads raw m maps : maps_ok maps -> maps_ok (add_map loads raw m maps).
Proof.
  intros H. unfold add_map. destruct raw as [[text|]|]; [|done|done]. destruct (nonempty text); [|done].
  destruct (parse_map loads text) eqn:E; [|done]. apply mset_ok; [by eapply parse_map_nonneg|done].
Qed.

Lemma foldl_ok {A} (f : list (rate_map * values) -> A -> list (rate_map * values)) xs : forall maps,
  (forall maps x, x ∈ xs -> maps_ok maps -> maps_ok (f maps x)) -> maps_ok maps -> maps_ok (foldl f maps xs).
Proof.
  induction xs as [|x xs IH]; intros maps Hf H; cbn; [done|]. apply IH.
  - intros. apply Hf; [by right|done].
  - apply Hf; [left|done].
Qed.

Lemma maps_ok_nil : maps_ok [].
Proof. split; constructor. Qed.

Lemma section_maps_ok loads keys c s maps : maps_ok maps -> maps_ok (section_maps loads keys c s maps).
Proof. apply foldl_ok. intros. by apply add_map_ok. Qed.

Lemma stanza_maps_ok loads keys c ss maps maps' : maps_ok maps ->
  stanza_maps loads keys c ss maps = Ok maps' -> maps_ok maps'.
Proof.
  intros H. induction ss as [|s ss IH]; cbn [stanza_maps]; [by intros [= <-]|].
  destruct (is_replay c s) as [[|]|]; [done| |done].
  pose proof (section_maps_ok loads keys c s [] maps_ok_nil) as [_ Ho].
  destruct (section_maps loads keys c s []) as [|own owns]; [done|]. intros [= <-].
  apply (foldl_ok (fun maps mv => mset mv.1 mv.2 maps) (own :: owns)); [|done].
  intros maps1 mv Hin Hm. apply mset_ok; [|done]. by apply (proj1 (Forall_forall _ _) Ho).
Qed.

Lemma curve_ok loads keys c curve : curve_from_parser loads keys c = Ok (Some curve) ->
  maps_ok (sc_maps curve) /\ curve = new_curve (sc_maps curve) /\ (0 < sc_mean curve)%Q /\ (0 < sc_peak curve)%Q.
Proof.
  unfold curve_from_parser. cbv zeta. set (globals := List.filter _ _).
  set (m0 := default_maps _ _ _ _).
  assert (maps_ok m0) as H0.
  { apply foldl_ok.
    - intros maps m _ H. destruct (mget m maps); [done|]. by apply add_map_ok.
    - apply foldl_ok; [|apply maps_ok_nil]. intros. by apply section_maps_ok. }
  destruct (stanza_maps _ _ _ _ m0) as [maps|] eqn:E; [|done].
  apply stanza_maps_ok in E; [|done]. destruct maps as [|mv mvs] eqn:Em; [done|]. rewrite <- Em in *.
  destruct (Qle_bool_spec (sc_mean (new_curve maps)) 0) as [|H1]; [done|].
  destruct (Qle_bool_spec (sc_peak (new_curve maps)) 0) as [|H2]; [done|]. intros [= <-].
  split_and!; [done|done|lra|lra].
Qed.

(** ** Under the peak *)

Lemma foldl_pymax qs : forall a q, (q == a \/ q ∈ qs -> q <= foldl pymax a qs)%Q.
Proof.
  induction qs as [|x qs IH]; intros a q; cbn [foldl].
  { intros [H|H]; [lra|set_solver]. }
  assert (a <= pymax a x /\ x <= pymax a x)%Q as [Ha Hx].
  { unfold pymax. destruct (qlt_spec a x); lra. }
  intros [H|[->|H]%elem_of_cons].
  - eapply Qle_trans; [|apply (IH _ (pymax a x)); by left]. lra.
  - eapply Qle_trans; [exact Hx|]. apply IH. by left.
  - apply IH. by right.
Qed.

Lemma maximum_spec q qs : q ∈ qs -> (q <= maximum qs)%Q.
Proof. destruct qs as [|x qs]; [set_solver|]. intros [->|H]%elem_of_cons; apply foldl_pymax; auto. by left. Qed.

Lemma factor_le_peak maps tm : Forall (fun mv => nonneg_values mv.2) maps -> valid_time tm ->
  (0 <= factor (new_curve maps) tm <= sc_peak (new_curve maps))%Q.
Proof.
  intros Hm Ht. unfold factor. cbn [new_curve sc_maps sc_peak].
  assert (forall a b, 0 <= a <= b ->
    0 <= foldl (fun f mv => fmul f (vget (read_key mv.1 tm) mv.2)) a maps
      <= foldl (fun peak mv => fmul peak (maximum (factors mv))) b maps)%Q as H; [|apply H; lra].
  induction Hm as [|mv maps H1 Hm IH]; intros a b [Ha Hab]; cbn [foldl]; [lra|].
  apply IH. pose proof (vget_nonneg (read_key mv.1 tm) mv.2 H1) as Hv.
  assert (vget (read_key mv.1 tm) mv.2 <= maximum (factors mv))%Q as Hmx.
  { apply maximum_spec. unfold factors. apply list_elem_of_fmap. eexists. split; [done|].
    by apply read_in_domain. }
  split; [apply rnd_nonneg; by apply Qmult_le_0_compat|]. apply rnd_mono. nra.
Qed.
End Maps.

(** The engine is never asked for less than the bucket takes.  At every local time
    the shaped rate is at most the trickle, or at most what the conf rewrite
    makes the engine produce, the share times the curve's peak over its mean
    (up to four roundings). *)
Theorem rate_below_peak {R : Rounding} loads keys c curve share tm :
  curve_from_parser loads keys c = Ok (Some curve) -> valid_time tm -> (0 < share)%Q ->
  (rate curve share tm <= MIN_RATE \/
   rate curve share tm * ((1 - eps) * (1 - eps)) <= fmul share (peak_ratio curve) * ((1 + eps) * (1 + eps)))%Q.
Proof.
  intros ([_ Hm] & Ec & Hmean & Hpeak)%curve_ok Ht Hs.
  destruct (factor_le_peak (sc_maps curve) tm Hm Ht) as [F0 F1]. rewrite <- Ec in F0, F1.
  unfold rate, pymax. destruct (qlt_spec MIN_RATE (fdiv (fmul share (factor curve tm)) (sc_mean curve))) as [_|];
    [right|left; lra].
  set (f := factor curve tm) in *. set (m := sc_mean curve) in *. unfold peak_ratio. fold m.
  set (p := sc_peak curve) in *. clearbody f m p. clear Ec Hm.
  assert (0 < eps)%Q as He by done. assert (eps <= 1 # 1000)%Q as He' by done. set (e := eps) in *.
  destruct (rnd_bounds (share * f)) as [_ A]; [nra|]. fold (fmul share f) e in A.
  assert (fmul share f <= share * p * (1 + e))%Q as A'.
  { eapply Qle_trans; [exact A|]. apply Qmult_le_compat_r; [nra|lra]. }
  assert (0 <= fmul share f)%Q as A0 by (apply rnd_nonneg; nra).
  destruct (rnd_bounds (fmul share f / m)) as [_ B]; [apply Qle_shift_div_l; lra|].
  fold (fdiv (fmul share f) m) e in B.
  assert (0 < p / m)%Q as Hpm by (apply Qlt_shift_div_l; lra).
  destruct (rnd_bounds (p / m)) as [C _]; [lra|]. fold (fdiv p m) e in C.
  assert (0 <= share * fdiv p m)%Q as D0 by (apply Qmult_le_0_compat; [lra|apply rnd_nonneg; lra]).
  destruct (rnd_bounds (share * fdiv p m) D0) as [D _]. fold (fmul share (fdiv p m)) e in D.
  assert (fmul share f / m <= share * (p / m) * (1 + e))%Q as B'.
  { apply Qle_shift_div_r; [done|].
    assert (share * (p / m) * (1 + e) * m == share * p * (1 + e))%Q as -> by (field; lra). exact A'. }
  set (x := (share * (p / m))%Q) in *. assert (0 < x)%Q by (unfold x; nra).
  assert (fdiv (fmul share f) m <= x * ((1 + e) * (1 + e)))%Q as U.
  { eapply Qle_trans; [exact B|]. rewrite Qmult_assoc. apply Qmult_le_compat_r; [exact B'|lra]. }
  assert (x * ((1 - e) * (1 - e)) <= fmul share (fdiv p m))%Q as L.
  { eapply Qle_trans; [|exact D]. rewrite Qmult_assoc. apply Qmult_le_compat_r; [|lra].
    unfold x. rewrite <- Qmult_assoc. rewrite !(Qmult_comm share). apply Qmult_le_compat_r; [exact C|lra]. }
  assert (0 <= (1 - e) * (1 - e))%Q as H1 by nra. assert (0 <= (1 + e) * (1 + e))%Q as H2 by nra.
  apply (Qmult_le_compat_r _ _ _ U) in H1. apply (Qmult_le_compat_r _ _ _ L) in H2. lra.
Qed.

(** ** The average *)

Definition all_times : list struct_time :=
  h ← seqZ 0 24; w ← seqZ 0 7; mi ← seqZ 0 60; d ← seqZ 1 31; mo ← seqZ 1 12; [mkTime h w mi d mo].

Section Average.
Local Open Scope Q_scope.

Lemma qsum_app l1 l2 : qsum (l1 ++ l2) == qsum l1 + qsum l2.
Proof. induction l1 as [|x l1 IH]; cbn; [ring|]. rewrite IH. ring. Qed.

Lemma qsum_bind {A B} (f : B -> Q) (g : A -> list B) xs :
  qsum (f <$> (xs ≫= g)) == qsum ((fun x => qsum (f <$> g x)) <$> xs).
Proof.
  induction xs as [|x xs IH]; [reflexivity|].
  change ((x :: xs) ≫= g) with (g x ++ (xs ≫= g)). rewrite fmap_app, qsum_app, IH. reflexivity.
Qed.

Lemma qsum_ext {A} (f g : A -> Q) xs : (forall x, f x == g x) -> qsum (f <$> xs) == qsum (g <$> xs).
Proof. intros H. induction xs as [|x xs IH]; [reflexivity|]. rewrite !fmap_cons. cbn. by rewrite H, IH. Qed.

Lemma qsum_mul {A} (f : A -> Q) c xs : qsum ((fun x => c * f x) <$> xs) == c * qsum (f <$> xs).
Proof. induction xs as [|x xs IH]; [cbn; ring|]. rewrite !fmap_cons. cbn [qsum]. rewrite IH. ring. Qed.

Lemma qsum_factor {A} (f : A -> Q) c xs h : (forall x, h x == f x * c) -> qsum (h <$> xs) == qsum (f <$> xs) * c.
Proof.
  intros H. rewrite (qsum_ext h (fun x => c * f x)) by (intros x; rewrite H; ring).
  rewrite qsum_mul. ring.
Qed.

Abbreviation S f l := (qsum (f <$> l)).

(** A product of functions of the five fields sums to the product of their sums. *)
Lemma sum_times (fh fw fm fd fo : Z -> Q) :
  qsum ((fun t => fh (tm_hour t) * (fw (tm_wday t) * (fm (tm_min t) * (fd (tm_mday t) * fo (tm_mon t))))) <$> all_times)
  == S fh (seqZ 0 24) * (S fw (seqZ 0 7) * (S fm (seqZ 0 60) * (S fd (seqZ 1 31) * S fo (seqZ 1 12)))).
Proof.
  unfold all_times. rewrite qsum_bind. apply qsum_factor. intros h.
  rewrite qsum_bind. rewrite (qsum_factor (fun w => fh h * fw w)
    (S fm (seqZ 0 60) * (S fd (seqZ 1 31) * S fo (seqZ 1 12)))); [rewrite qsum_mul; ring|]. intros w.
  rewrite qsum_bind. rewrite (qsum_factor (fun mi => fh h * fw w * fm mi)
    (S fd (seqZ 1 31) * S fo (seqZ 1 12))); [rewrite qsum_mul; ring|]. intros mi.
  rewrite qsum_bind. rewrite (qsum_factor (fun d => fh h * fw w * fm mi * fd d) (S fo (seqZ 1 12)));
    [rewrite qsum_mul; ring|]. intros d.
  rewrite qsum_bind, <- qsum_mul. apply qsum_ext. intros mo. cbn. ring.
Qed.

Lemma length_sum {A} (l : list A) : inject_Z (Z.of_nat (length l)) == qsum ((fun _ => 1) <$> l).
Proof.
  induction l as [|x l IH]; [reflexivity|]. rewrite fmap_cons. cbn [length qsum].
  rewrite <- IH, Nat2Z.inj_succ. unfold Z.succ. rewrite inject_Z_plus. ring.
Qed.

(** A fold over maps of distinct names is the product over all five names. *)
Definition at_map (maps : list (rate_map * values)) (phi : rate_map -> values -> Q) (m : rate_map) : Q :=
  match mget m maps with Some vs => phi m vs | None => 1 end.

Definition five (phi : rate_map -> Q) : Q :=
  phi hourOfDay * (phi dayOfWeek * (phi minuteOfHour * (phi dayOfMonth * phi monthOfYear))).

Lemma mget_absent m maps : m ∉ fst <$> maps -> mget m maps = None.
Proof.
  unfold mget. induction maps as [|[m' vs] maps IH]; [done|]. rewrite fmap_cons. cbn.
  intros H. rewrite bool_decide_false by set_solver. apply IH. set_solver.
Qed.

Lemma fold_product maps phi : NoDup (fst <$> maps) ->
  forall a, foldl (fun a mv => a * phi mv.1 mv.2) a maps == a * five (at_map maps phi).
Proof.
  induction maps as [|[m vs] maps IH]; intros Hnd a; [cbn; unfold five, at_map; cbn; ring|].
  rewrite fmap_cons in Hnd. apply NoDup_cons in Hnd as [Hm Hnd]. cbn [foldl fst snd]. rewrite IH by done.
  apply mget_absent in Hm. cbn [fst] in Hm.
  assert (forall m', at_map ((m, vs) :: maps) phi m' =
    if bool_decide (m = m') then phi m vs else at_map maps phi m') as E.
  { intros m'. unfold at_map, mget. cbn. by destruct (bool_decide_reflect (m = m')) as [->|]. }
  unfold five. rewrite !E. assert (at_map maps phi m = 1) as E1 by (unfold at_map; by rewrite Hm).
  destruct m; repeat match goal with
    | |- context [bool_decide (?a = ?b :> rate_map)] =>
        let v := eval vm_compute in (bool_decide (a = b)) in change (bool_decide (a = b)) with v
    end; cbn iota; rewrite E1; ring.
Qed.

Lemma fsum_exact xs : @fsum exact xs == qsum xs.
Proof.
  unfold fsum. assert (forall a, fold_left (@fadd exact) xs a == a + qsum xs) as H; [|rewrite H; ring].
  induction xs as [|x xs IH]; intros a; cbn [fold_left qsum]; [ring|].
  rewrite IH. change (@fadd exact a x) with (a + x). ring.
Qed.

Definition map_at (maps : list (rate_map * values)) (m : rate_map) (k : Z) : Q :=
  at_map maps (fun _ vs => vget k vs) m.

Lemma sum_at maps : five (fun m => S (map_at maps m) (domain m))
  == five (at_map maps (fun m vs => qsum (factors (m, vs)) / inject_Z (Z.of_nat (length (domain m)))))
     * five (fun m => inject_Z (Z.of_nat (length (domain m)))).
Proof.
  assert (forall m, S (map_at maps m) (domain m) ==
    at_map maps (fun m vs => qsum (factors (m, vs)) / inject_Z (Z.of_nat (length (domain m)))) m
    * inject_Z (Z.of_nat (length (domain m)))) as H; [|unfold five; rewrite !H; ring].
  intros m. unfold map_at, at_map. destruct (mget m maps) as [vs|].
  - unfold factors. cbn [fst snd]. field. by destruct m.
  - rewrite length_sum. ring.
Qed.

Lemma sum_factor (maps : list (rate_map * values)) : NoDup (fst <$> maps) ->
  qsum (@factor exact (@new_curve exact maps) <$> all_times) ==
    sc_mean (@new_curve exact maps) * inject_Z (Z.of_nat (length all_times)).
Proof.
  intros Hnd.
  assert (forall t, @factor exact (@new_curve exact maps) t ==
    map_at maps hourOfDay (tm_hour t) * (map_at maps dayOfWeek ((tm_wday t + 1) mod 7)%Z *
    (map_at maps minuteOfHour (tm_min t) * (map_at maps dayOfMonth (tm_mday t) *
     map_at maps monthOfYear (tm_mon t))))) as Hf.
  { intros t. pose proof (fold_product maps (fun m vs => vget (read_key m t) vs) Hnd 1) as H.
    rewrite Qmult_1_l in H. exact H. }
  rewrite (qsum_ext _ _ _ Hf).
  rewrite (sum_times (map_at maps hourOfDay) (fun w => map_at maps dayOfWeek ((w + 1) mod 7)%Z)
    (map_at maps minuteOfHour) (map_at maps dayOfMonth) (map_at maps monthOfYear)).
  assert (S (fun w => map_at maps dayOfWeek ((w + 1) mod 7)%Z) (seqZ 0 7)
    == S (map_at maps dayOfWeek) (domain dayOfWeek)) as ->.
  { change (fun w => map_at maps dayOfWeek ((w + 1) mod 7)%Z)
      with (map_at maps dayOfWeek ∘ (fun w => (w + 1) mod 7)%Z). rewrite list_fmap_compose.
    change ((fun w => (w + 1) mod 7)%Z <$> seqZ 0 7) with [1; 2; 3; 4; 5; 6; 0]%Z.
    change (domain dayOfWeek) with [0; 1; 2; 3; 4; 5; 6]%Z.
    generalize (map_at maps dayOfWeek). intros f. rewrite !fmap_cons, fmap_nil. cbn [qsum]. ring. }
  pose proof (sum_at maps) as Hs. unfold five at 1 in Hs. cbn [domain] in Hs |- *. rewrite Hs.
  assert (sc_mean (@new_curve exact maps) == five (at_map maps (fun m vs =>
    qsum (factors (m, vs)) / inject_Z (Z.of_nat (length (domain m)))))) as ->.
  { cbn [new_curve sc_mean].
    pose proof (fold_product maps (fun m vs => @mean_of exact (m, vs)) Hnd 1) as H. rewrite Qmult_1_l in H.
    assert (foldl (fun mean mv => @fmul exact mean (mean_of mv)) 1 maps
      = foldl (fun a mv => a * @mean_of exact (mv.1, mv.2)) 1 maps) as ->.
    { clear. generalize 1. induction maps as [|[m vs] maps IH]; intros a; [done|]. cbn [foldl]. apply IH. }
    rewrite H. assert (forall m vs, @mean_of exact (m, vs) ==
      qsum (factors (m, vs)) / inject_Z (Z.of_nat (length (domain m)))) as Hm.
    { intros m vs. unfold mean_of. change (@fdiv exact ?a ?b) with (a / b).
      change (@rnd exact ?a) with a. rewrite fsum_exact. unfold factors at 2. by rewrite length_fmap. }
    unfold five, at_map. repeat (destruct (mget _ maps); rewrite ?Hm); reflexivity. }
  assert (inject_Z (Z.of_nat (length all_times)) == five (fun m => inject_Z (Z.of_nat (length (domain m))))) as ->;
    [|reflexivity].
  rewrite length_sum. transitivity (qsum ((fun t => (fun _ => 1) (tm_hour t) * ((fun _ => 1) (tm_wday t) *
    ((fun _ => 1) (tm_min t) * ((fun _ => 1) (tm_mday t) * (fun _ => 1) (tm_mon t))))) <$> all_times)).
  { apply qsum_ext. intros t. ring. }
  rewrite (sum_times (fun _ => 1) (fun _ => 1) (fun _ => 1) (fun _ => 1) (fun _ => 1)).
  unfold five. by rewrite !length_sum.
Qed.
End Average.

Lemma qsum_le {A} (f g : A -> Q) xs : (forall x, x ∈ xs -> (f x <= g x)%Q) -> (qsum (f <$> xs) <= qsum (g <$> xs))%Q.
Proof.
  intros H. induction xs as [|x xs IH]; [apply Qle_refl|]. rewrite !fmap_cons. cbn [qsum].
  apply Qplus_le_compat; [apply H; left|]. apply IH. intros. apply H. by right.
Qed.

Lemma all_times_valid t : t ∈ all_times -> valid_time t.
Proof.
  unfold all_times, valid_time. intros H.
  repeat match goal with
  | H : _ ∈ _ ≫= _ |- _ => apply list_elem_of_bind in H as (? & ? & ?)
  | H : _ ∈ seqZ _ _ |- _ => apply elem_of_seqZ in H
  end.
  match goal with H : t ∈ [_] |- _ => apply list_elem_of_singleton in H as -> end. cbn. lia.
Qed.

(** The configured rate is the average.  In exact arithmetic, over the whole
    domain of the maps the shaped rates average to the share, exceeding it by at
    most the trickle that keeps a zero-factor hour alive. *)
Theorem shaped_average loads keys c curve share :
  @curve_from_parser exact loads keys c = Ok (Some curve) -> (0 < share)%Q ->
  let n := inject_Z (Z.of_nat (length all_times)) in
  (share * n <= qsum (@rate exact curve share <$> all_times) <= share * n + @MIN_RATE exact * n)%Q.
Proof.
  intros ([Hnd Hm] & Ec & Hmean & _)%(@curve_ok exact) Hs n.
  pose proof (sum_factor (sc_maps curve) Hnd) as Hf. rewrite <- Ec in Hf. fold n in Hf.
  assert (qsum ((fun t => share / sc_mean curve * @factor exact curve t) <$> all_times) == share * n)%Q as Hx.
  { rewrite qsum_mul, Hf. field. lra. }
  assert (forall t, t ∈ all_times -> share / sc_mean curve * @factor exact curve t <= @rate exact curve share t
    <= share / sc_mean curve * @factor exact curve t + @MIN_RATE exact)%Q as Hr.
  { intros t Ht%all_times_valid. unfold rate.
    change (@fdiv exact ?a ?b) with (a / b)%Q. change (@fmul exact ?a ?b) with (a * b)%Q.
    assert (share * @factor exact curve t / sc_mean curve == share / sc_mean curve * @factor exact curve t)%Q as E
      by (field; lra).
    pose proof (@factor_le_peak exact (sc_maps curve) t Hm Ht) as [H0 _]. rewrite <- Ec in H0.
    assert (0 <= share / sc_mean curve * @factor exact curve t)%Q as H1
      by (apply Qmult_le_0_compat; [apply Qle_shift_div_l; lra|done]).
    assert (0 < @MIN_RATE exact)%Q as Hmin by done. revert Hmin. generalize (@MIN_RATE exact). intros mr Hmin.
    unfold pymax. destruct (qlt_spec mr (share * @factor exact curve t / sc_mean curve)) as [H|H];
      rewrite ?E in *; lra. }
  split.
  - rewrite <- Hx. apply qsum_le. intros t Ht. by apply Hr.
  - rewrite <- Hx. unfold n. rewrite length_sum, <- qsum_mul.
    eapply Qle_trans; [apply qsum_le; intros t Ht; by apply Hr|].
    clear. induction all_times as [|t ts IH]; [done|]. rewrite !fmap_cons. cbn [qsum]. lra.
Qed.

(** ** Witnesses *)

(** A pack with an hour-of-day map on its stanza; [loads] knows its text. *)
Definition shaped_pack : conf := mkConf [] [("web.sample", [("hourOfDayRate", Some "{...}")])].
Definition shaped_loads (text : string) : option doc :=
  if bool_decide (text = "{...}") then Some (DObj [("9", DNum 3); ("3", DNum 0)]) else None.
Definition shaped_keys : list rate_map := [dayOfMonth; hourOfDay; minuteOfHour; dayOfWeek; monthOfYear].
Definition shaped_curve (R : Rounding) : ShapeCurve := @new_curve R [(hourOfDay, [(9, rnd 3); (3, rnd 0)])].

Lemma rate_below_peak_witness :
  let curve := shaped_curve binary64 in let tm := mkTime 9 0 30 4 7 in
  (@rate binary64 curve 10 tm <= @MIN_RATE binary64 \/
   @rate binary64 curve 10 tm * ((1 - eps) * (1 - eps))
     <= @fmul binary64 10 (@peak_ratio binary64 curve) * ((1 + eps) * (1 + eps)))%Q.
Proof.
  refine (@rate_below_peak binary64 shaped_loads shaped_keys shaped_pack (shaped_curve binary64) 10
    (mkTime 9 0 30 4 7) _ _ _).
  - vm_compute. reflexivity.
  - unfold valid_time. cbn. lia.
  - done.
Defined.

Lemma shaped_average_witness :
  let n := inject_Z (Z.of_nat (length all_times)) in
  (10 * n <= qsum (@rate exact (shaped_curve exact) 10 <$> all_times) <= 10 * n + @MIN_RATE exact * n)%Q.
Proof.
  refine (shaped_average shaped_loads shaped_keys shaped_pack (shaped_curve exact) 10 _ _).
  - vm_compute. reflexivity.
  - done.
Defined.
