(* ===== verification/Lint.v ===== *)
(** * Metrics packs: the lint and the engine's values (server/bundles.py:
    lint_metrics_config; worker/engines/metrics/stoker_metrics/engine.py: _value)

    What the control plane checks of a metrics config before a run, and what the
    engine then computes from it: on a config that passes, with objects where
    the engine expects objects, every value of every series is computed and
    stays in its scaled envelope. *)

From S2P Require Import Prelude.
From S2P Require Import PyFloat.
From S2P Require Import PyValue.
From S2P Require Import Pacing.
From S2P Require Import MetricEngine.
From S2P Require Import ConfRewrite.
From S2P Require Import Shaping.
From Stdlib Require Import QArith Qround Qabs Lqa.
Open Scope Z_scope.

Definition MAX_METRICS_PER_PACK : Z := 250.
Definition MAX_METRIC_DATAPOINTS : Z := 250000.

Definition PATTERN_TYPES : list string :=
  ["constant"; "sine"; "business_hours"; "business_double_hump"; "ramp"; "spike"; "random_walk"].
Definition VALUE_KINDS : list string := ["gauge"; "count"; "counter"].

(** [d in names], of a tuple of strings *)
Definition doc_in (d : doc) (names : list string) : bool :=
  match d with DStr s => bool_decide (s ∈ names) | _ => false end.

(** [x or {}] *)
Definition or_empty (d : doc) : doc := if dtruthy d then d else DObj [].

Section Lint.
Context {R : Rounding}.

(** [float(m.get("min", 0))], [float(m.get("p95", m.get("max", 1)))] and
    [float(m.get("max", p95))]; [None] where one raises. *)
Definition envelope_of (m : list (string * doc)) : option (Q * Q * Q) :=
  vmin ← doc_float (default (DNum 0) (dfind m "min"));
  p95 ← doc_float (default (default (DNum 1) (dfind m "max")) (dfind m "p95"));
  vmax ← match dfind m "max" with Some d => doc_float d | None => Some p95 end;
  Some (vmin, p95, vmax).

Definition lint_name (name : doc) (seen : list string) : list string * list string :=
  match name with
  | DStr s =>
      if nonempty s then
        if bool_decide (s ∈ seen) then (["duplicate metric name"], seen) else ([], seen ++ [s])
      else (["metric needs a non-empty string name"], seen)
  | _ => (["metric needs a non-empty string name"], seen)
  end.

Definition lint_scale (dim_keys : list string) (scale : doc) : list string :=
  match scale with
  | DObj tables =>
      concat ((fun kt : string * doc =>
        (if bool_decide (kt.1 ∈ dim_keys) then [] else ["scale references unknown dimension"]) ++
        match kt.2 with DObj _ => [] | _ => ["scale must be an object mapping value -> multiplier"] end)
        <$> tables)
  | _ => []
  end.

(** One metric of the list: its errors, and the names seen so far. *)
Definition lint_metric (dim_keys : list string) (seen : list string) (m : doc)
    : list string * list string :=
  match m with
  | DObj m =>
      let '(name_errors, seen) := lint_name (dget m "name") seen in
      let pattern := or_empty (dget m "pattern") in
      let ptype := match pattern with
                   | DObj p => if dtruthy (dget p "type") then dget p "type" else DStr "constant"
                   | _ => DStr "constant"
                   end in
      (name_errors ++
       (if doc_in (default (DStr "gauge") (dfind m "kind")) VALUE_KINDS then []
        else ["kind must be one of gauge, count, counter"]) ++
       match envelope_of m with
       | Some (vmin, p95, vmax) =>
           if Qle_bool vmin p95 && Qle_bool p95 vmax then [] else ["require min <= p95 <= max"]
       | None => ["min/p95/max must be numbers"]
       end ++
       match doc_float (default (DNum (1 # 10)) (dfind m "noise")) with
       | Some q => if qlt q 0 then ["noise must be >= 0"] else []
       | None => ["noise must be a number"]
       end ++
       (if doc_in ptype PATTERN_TYPES then [] else ["unknown pattern type"]) ++
       lint_scale dim_keys (or_empty (dget m "scale")), seen)
  | _ => (["metric must be an object"], seen)
  end.

Fixpoint lint_metrics (dim_keys seen : list string) (ms : list doc) : list string :=
  match ms with
  | [] => []
  | m :: ms => let '(errors, seen) := lint_metric dim_keys seen m in errors ++ lint_metrics dim_keys seen ms
  end.

(** The keys of the well-formed dimensions. *)
Definition dim_keys (c : config) : list string :=
  match default (DList []) (dfind c "dimensions") with
  | DList dims =>
      omap (fun d => match d with
                     | DObj f => match dget f "key" with
                                 | DStr s => if nonempty s then Some s else None
                                 | _ => None
                                 end
                     | _ => None
                     end) dims
  | _ => []
  end.

Definition lint_metrics_config (c : config) : result (list string) :=
  let resolution_errors :=
    match doc_float (default (DNum 10) (dfind c "resolution_s")) with
    | Some q => if Qle_bool q 0 then ["resolution_s must be > 0"] else []
    | None => ["resolution_s must be a number"]
    end in
  dim_errors ← lint_dimensions c;
  match dget c "metrics" with
  | DList (m :: ms) =>
      let n := Z.of_nat (length (m :: ms)) in
      series ← metrics_series_count c;
      Ok (resolution_errors ++ dim_errors ++
          (if MAX_METRICS_PER_PACK <? n then ["too many metrics"] else []) ++
          (if MAX_METRIC_DATAPOINTS <? series * n then ["per-tick datapoint volume is too large"] else []) ++
          lint_metrics (dim_keys c) [] (m :: ms))
  | _ => Ok (resolution_errors ++ dim_errors ++ ["metrics must be a non-empty list"])
  end.

(** ** The activity of a pattern (patterns.py) *)

(** [_num]: a parameter as a number, the default where it is none. *)
Definition num (params : list (string * doc)) (key : string) (dflt : Q) : Q :=
  match dfind params key with
  | None | Some DNull => rnd dflt
  | Some v => default (rnd dflt) (doc_float v)
  end.

(** [x % y] of floats, exact for a positive [y]. *)
Definition fmod (x y : Q) : Q := x - inject_Z (Qfloor (x / y)) * y.

(** What the standard library computes: [math.cos] and [math.exp]. *)
Context (cos exp : Q -> Q).

Definition TWO_PI : Q := 884279719003555 # 140737488355328.

(** [** 2] raises where the square is past the largest float. *)
Definition FLOAT_LIMIT : Q := inject_Z (2 ^ 1024).

Definition gauss_bump (hour centre_h width_h : Q) : result Q :=
  let width_h := if Qle_bool width_h 0 then (1 # 2)%Q else width_h in
  let d := fmod (Qabs (fsub hour centre_h)) 24 in
  let d := if qlt 12 d then fsub 24 d else d in
  let x := fdiv d width_h in
  if Qle_bool FLOAT_LIMIT (fmul x x) then Raise OverflowError
  else Ok (exp (fmul (-(1 # 2)) (fmul x x))).

(** [base + (1 - base) * x], clamped *)
Definition above (base x : Q) : Q := clamp01 (fadd base (fmul (fsub 1 base) x)).

(** A spike that is no number is skipped; an overflow is not caught. *)
Definition spike_core (amp hour width : Q) (spikes : list doc) : result Q :=
  fold_result (fun sh core => match doc_float sh with
                              | Some h => b ← gauss_bump hour h width; Ok (pymax core (fmul amp b))
                              | None => Ok core
                              end) spikes 0%Q.

Definition spikes_of (p : list (string * doc)) : list doc :=
  let d := if dtruthy (dget p "spikes_h") then dget p "spikes_h"
           else if dtruthy (dget p "at_h") then dget p "at_h" else DList [] in
  match d with
  | DNum _ | DBool _ => [d]
  | d => match iterate d with Ok l => l | Raise _ => [] end
  end.

(** The activity, and where a random walk has got to.  [state] is the [rw] entry
    of the state that is threaded through, [None] without one; [gauss] is the
    draw of the state's generator for a deviation. *)
Definition activity (p : list (string * doc)) (hour : Q) (state : option (option Q))
    (gauss : option (Q -> Q)) : result (Q * option (option Q)) :=
  let ptype := match default (DStr "constant") (dfind p "type") with DStr s => s | _ => "" end in
  if bool_decide (ptype = "constant") then Ok (clamp01 (num p "level" 1), state)
  else if bool_decide (ptype = "sine") then
    let period := let q := num p "period_h" 24 in if Qeq_bool q 0 then 24%Q else q in
    let raw := fadd (1 # 2) (fmul (1 # 2) (cos (fdiv (fmul TWO_PI (fsub hour (num p "peak_h" 14))) period))) in
    Ok (above (num p "trough" 0) raw, state)
  else if bool_decide (ptype = "business_hours") then
    let start := num p "start_h" 8 in
    let finish := num p "end_h" 18 in
    let ramp := num p "ramp_h" 1 in
    let core :=
      if Qle_bool hour (fsub start ramp) || Qle_bool (fadd finish ramp) hour then 0%Q
      else if qlt hour start then fdiv (fsub hour (fsub start ramp)) ramp
      else if Qle_bool hour finish then 1%Q
      else fsub 1 (fdiv (fsub hour finish) ramp) in
    Ok (above (num p "baseline" (5 # 100)) (clamp01 core), state)
  else if bool_decide (ptype = "business_double_hump") then
    let mp := num p "morning_peak_h" 10 in
    let ap := num p "afternoon_peak_h" 15 in
    let width := num p "width_h" (16 # 10) in
    morning ← gauss_bump hour mp width;
    bump ← gauss_bump hour ap width;
    let core := pymax morning (fmul (num p "afternoon_rel" (9 # 10)) bump) in
    let lunch_h := fdiv (fadd mp ap) 2 in
    lunch ← gauss_bump hour lunch_h (fmul width (rnd (8 # 10)));
    let core := fsub core (fmul (fmul (fsub 1 (num p "lunch_dip" (1 # 2))) lunch) (1 # 2)) in
    Ok (above (num p "baseline" (5 # 100)) (clamp01 core), state)
  else if bool_decide (ptype = "ramp") then
    let a0 := num p "from" (1 # 10) in
    Ok (clamp01 (fadd a0 (fmul (fsub (num p "to" 1) a0) (fdiv hour 24))), state)
  else if bool_decide (ptype = "spike") then
    core ← spike_core (num p "amplitude" (9 # 10)) hour (num p "width_h" (25 # 100)) (spikes_of p);
    Ok (clamp01 (fadd (num p "baseline" (1 # 10)) core), state)
  else if bool_decide (ptype = "random_walk") then
    let base := num p "baseline" (1 # 2) in
    match state with
    | None => Ok (clamp01 base, None)
    | Some at_ =>
        let cur := default base at_ in
        let drift := match gauss with Some g => g (num p "step" (5 # 100)) | None => 0%Q end in
        let cur := clamp01 (fadd (fadd cur drift) (fmul (num p "revert" (2 # 100)) (fsub base cur))) in
        Ok (cur, Some (Some cur))
    end
  else Ok (1%Q, state).

(** ** The engine *)

(** One dimension's multiplier: [isinstance(table, dict) and value in table],
    where [value] must hash; a multiplier that is no number counts as one. *)
Definition scale_step (scale : list (string * doc)) (kv : doc * doc) (mult : Q) : result Q :=
  match kv.1 with
  | DStr k =>
      match dget scale k with
      | DObj table =>
          if hashable kv.2 then
            match kv.2 with
            | DStr v => match dfind table v ≫= doc_float with
                        | Some q => Ok (fmul mult q)
                        | None => Ok mult
                        end
            | _ => Ok mult
            end
          else Raise TypeError
      | _ => Ok mult
      end
  | _ => Ok mult
  end.

Definition scale_for (m : list (string * doc)) (s : series) : result Q :=
  match or_empty (dget m "scale") with
  | DObj scale => fold_result (scale_step scale) s 1%Q
  | _ => match s with [] => Ok 1%Q | _ => Raise AttributeError end
  end.

(** [float(x)] of an engine that does not catch. *)
Definition py_float (d : doc) : result Q :=
  match d with
  | DStr s => match float_of_string s with Some q => Ok q | None => Raise (ValueError "could not convert string to float") end
  | d => match doc_float d with Some q => Ok q | None => Raise TypeError end
  end.

(** The state of one metric of one series: its walk and its total.  Its
    generator shows in the draws a call makes: the walk's and the noise's. *)
Record mstate : Type := mkState { ms_walk : option Q; ms_total : Z }.
Record draws : Type := mkDraws { dr_walk : Q -> Q; dr_noise : Q -> Q }.

(** [((tick + tz_offset_s) % 86400.0) / 3600.0] *)
Definition hour_of (tick tz_offset_s : Q) : Q := fdiv (fmod (fadd tick tz_offset_s) 86400) 3600.

(** [_value]: the value of a metric for a series at a tick, and the state. *)
Definition metric_value (tick tz_offset_s : Q) (m : list (string * doc)) (s : series) (st : mstate)
    (dr : draws) : result (Q * mstate) :=
  match or_empty (dget m "pattern") with
  | DObj pattern =>
      aw ← activity pattern (hour_of tick tz_offset_s) (Some (ms_walk st)) (Some (dr_walk dr));
      let '(a, w) := aw : Q * option (option Q) in
      mult ← scale_for m s;
      vmin ← py_float (default (DNum 0) (dfind m "min"));
      p95 ← py_float (default (default (DNum 1) (dfind m "max")) (dfind m "p95"));
      vmax ← match dfind m "max" with Some d => py_float d | None => Ok (fmul p95 mult) end;
      noise ← py_float (let d := default (DNum (1 # 10)) (dfind m "noise") in if dtruthy d then d else DNum 0);
      let '(v, total) :=
        sample_value a (fmul vmin mult) (fmul p95 mult) (fmul vmax mult)
          (match default (DStr "gauge") (dfind m "kind") with DStr s => s | _ => "" end) noise
          (Some (dr_noise dr)) (Some (ms_total st)) in
      Ok (v, mkState (default (ms_walk st) w) (default (ms_total st) total))
  | _ => Raise AttributeError
  end.

(** The measurements of a series at a tick: one field per named metric, from the
    metrics with their states for the series and the draws of the tick. *)
Fixpoint fields_for (tick tz_offset_s : Q) (s : series) (ms : list (list (string * doc) * mstate * draws))
    : result (list (string * Q) * list mstate) :=
  match ms with
  | [] => Ok ([], [])
  | (m, st, dr) :: ms =>
      let unnamed := rest ← fields_for tick tz_offset_s s ms; Ok (rest.1, st :: rest.2) in
      match dget m "name" with
      | DStr name =>
          if nonempty name then
            vs ← metric_value tick tz_offset_s m s st dr;
            rest ← fields_for tick tz_offset_s s ms;
            Ok (("metric_name:" +:+ name, vs.1) :: rest.1, vs.2 :: rest.2)
          else unnamed
      | d => if dtruthy d then Raise TypeError else unnamed
      end
  end.
End Lint.

(** ** Configs that pass *)

Section Passing.
Context {R : Rounding} (cos exp : Q -> Q).

(** What the lint establishes of one metric. *)
Record metric_ok (keys : list string) (m : list (string * doc)) : Prop := {
  mo_name : exists s, dget m "name" = DStr s /\ nonempty s = true;
  mo_kind : exists s, default (DStr "gauge") (dfind m "kind") = DStr s /\ s ∈ VALUE_KINDS;
  mo_envelope : exists vmin p95 vmax, envelope_of m = Some (vmin, p95, vmax) /\ (vmin <= p95 <= vmax)%Q;
  mo_noise : exists q, doc_float (default (DNum (1 # 10)) (dfind m "noise")) = Some q /\ (0 <= q)%Q;
}.

Lemma lint_metric_ok keys seen m : (lint_metric keys seen m).1 = [] ->
  exists f s, m = DObj f /\ metric_ok keys f /\ dget f "name" = DStr s /\ (s ∉ seen) /\
    (lint_metric keys seen m).2 = seen ++ [s].
Proof.
  destruct m as [| | | | |f]; try done. cbn.
  destruct (lint_name (dget f "name") seen) as [ne seen'] eqn:En. cbn.
  intros [-> [E1 [E2 [E3 _]%app_eq_nil]%app_eq_nil]%app_eq_nil]%app_eq_nil.
  unfold lint_name in En. destruct (dget f "name") as [| | |s| |] eqn:Ename; try done.
  destruct (nonempty s) eqn:Es; [|done]. case_bool_decide as Hseen; [done|]. injection En as <-.
  exists f, s. split_and!; try done. split.
  - by exists s.
  - destruct (doc_in _ _) eqn:Ek; [|done]. unfold doc_in in Ek.
    destruct (default _ _) as [| | |k| |]; try done. exists k. split; [done|]. by apply bool_decide_eq_true in Ek.
  - destruct (envelope_of f) as [[[vmin p95] vmax]|]; [|done]. exists vmin, p95, vmax. split; [done|].
    destruct (Qle_bool vmin p95) eqn:H1, (Qle_bool p95 vmax) eqn:H2; try done.
    split; by apply Qle_bool_iff.
  - destruct (doc_float _) as [q|]; [|done]. exists q. split; [done|]. destruct (qlt_spec q 0); [done|lra].
Qed.

Lemma lint_metrics_ok keys seen ms : NoDup seen -> lint_metrics keys seen ms = [] ->
  exists fs names, ms = DObj <$> fs /\ Forall (metric_ok keys) fs /\ NoDup (seen ++ names) /\
    Forall2 (fun f s => dget f "name" = DStr s) fs names.
Proof.
  revert seen. induction ms as [|m ms IH]; intros seen Hn; cbn [lint_metrics].
  { intros _. exists [], []. rewrite app_nil_r. split_and!; by try constructor. }
  destruct (lint_metric keys seen m) as [errors seen'] eqn:E. intros [-> H]%app_eq_nil.
  destruct (lint_metric_ok keys seen m) as (f & s & -> & Hf & Hs & Hin & E'); [by rewrite E|].
  rewrite E in E'. cbn in E'. subst seen'.
  destruct (IH (seen ++ [s])) as (fs & names & -> & Hfs & Hnn & Hnames); [|done|].
  { apply NoDup_app. split_and!; [done|set_solver|apply NoDup_singleton]. }
  exists (f :: fs), (s :: names). rewrite <- app_assoc in Hnn. split_and!; [done|by constructor|done|by constructor].
Qed.

Lemma doc_float_py d q : doc_float d = Some q -> py_float d = Ok q.
Proof. destruct d; cbn; intros H; by simplify_eq || by rewrite H. Qed.

(** Where the engine takes a document apart, it finds an object, and the pattern
    is one whose activity does not overflow. *)
Definition objects (m : list (string * doc)) : Prop :=
  (exists p, or_empty (dget m "pattern") = DObj p
     /\ forall hour st g, exists a, activity cos exp p hour st g = Ok a)
  /\ exists t, or_empty (dget m "scale") = DObj t.

Lemma scale_for_ok m s : objects m -> text_dict s -> exists mult, scale_for m s = Ok mult.
Proof.
  intros [_ [t Et]] Hs. unfold scale_for. rewrite Et. generalize 1%Q.
  induction Hs as [|[k v] s [[k' Hk] [v' Hv]] Hs IH]; intros q; [by exists q|]. cbn in Hk, Hv. subst.
  cbn [fold_result]. unfold scale_step at 1. cbn [fst snd hashable].
  destruct (dget t k'); try apply IH. destruct (_ ≫= _); apply IH.
Qed.

Lemma metric_value_ok keys m s tick tz st dr :
  metric_ok keys m -> objects m -> text_dict s ->
  exists v st' mult vmin p95 vmax,
    metric_value cos exp tick tz m s st dr = Ok (v, st') /\ scale_for m s = Ok mult /\
    envelope_of m = Some (vmin, p95, vmax) /\
    (default (DStr "gauge") (dfind m "kind") = DStr "gauge" -> is_Some (dfind m "max") ->
       (round4 (low (fmul vmin mult) (fmul vmax mult)) <= v <= round4 (high (fmul vmin mult) (fmul vmax mult)))%Q).
Proof.
  intros [_ (kind & Ek & Hk) (vmin & p95 & vmax & Ee & _) (noise & En & _)] Ho Hs.
  destruct (scale_for_ok m s Ho Hs) as [mult Em]. destruct Ho as [(p & Ep & Hact) _].
  unfold metric_value. rewrite Ep, Em, Ek.
  destruct (Hact (hour_of tick tz) (Some (ms_walk st)) (Some (dr_walk dr))) as [[a w] ->].
  pose proof Ee as Henv. unfold envelope_of in Ee.
  destruct (doc_float (default (DNum 0) (dfind m "min"))) as [q1|] eqn:E1; [|done].
  destruct (doc_float (default (default (DNum 1) (dfind m "max")) (dfind m "p95"))) as [q2|] eqn:E2; [|done].
  cbn [mbind option_bind result_bind] in *. rewrite (doc_float_py _ _ E1), (doc_float_py _ _ E2). cbn [mbind result_bind].
  assert (exists q, py_float (if dtruthy (default (DNum (1 # 10)) (dfind m "noise"))
    then default (DNum (1 # 10)) (dfind m "noise") else DNum 0) = Ok q) as [q En'].
  { destruct (dtruthy _); [|by eexists]. exists noise. by apply doc_float_py. }
  destruct (dfind m "max") as [d|] eqn:Emax.
  - destruct (doc_float d) as [q3|] eqn:E3; [|done]. cbn in Ee. injection Ee as -> -> ->.
    rewrite (doc_float_py _ _ E3). cbn [mbind result_bind]. rewrite En'. cbn [mbind result_bind].
    pose proof (sample_in_envelope a (fmul vmin mult) (fmul p95 mult) (fmul vmax mult) kind q
      (Some (dr_noise dr)) (Some (ms_total st))) as Hv.
    destruct (sample_value _ _ _ _ _ _ _ _) as [v total]. eexists v, _, mult, vmin, p95, vmax.
    split_and!; try done. intros [= ->] _. by apply Hv.
  - injection Ee as -> -> ->. cbn [mbind result_bind]. rewrite En'. cbn [mbind result_bind].
    destruct (sample_value _ _ _ _ _ _ _ _) as [v total]. eexists v, _, mult, vmin, vmax, vmax.
    split_and!; done.
Qed.

Lemma fields_for_ok keys tick tz s ms :
  Forall (fun x => metric_ok keys x.1.1 /\ objects x.1.1) ms -> text_dict s ->
  exists fields states, fields_for cos exp tick tz s ms = Ok (fields, states) /\
    length states = length ms /\
    Forall2 (fun x f => exists name st, dget x.1.1 "name" = DStr name /\ f.1 = "metric_name:" +:+ name /\
               metric_value cos exp tick tz x.1.1 s x.1.2 x.2 = Ok (f.2, st)) ms fields.
Proof.
  intros H Hs. induction H as [|[[m st] dr] ms [Hm Ho] H IH]; cbn [fields_for].
  { eexists _, _. split_and!; [done|done|constructor]. }
  destruct IH as (fields & states & E & Hl & Hf). cbn [fst snd] in Hm, Ho.
  pose proof Hm as [(name & En & Hname) _ _ _]. rewrite En, Hname.
  destruct (metric_value_ok keys m s tick tz st dr Hm Ho Hs) as (v & st' & _ & _ & _ & _ & Ev & _).
  rewrite Ev, E. cbn [mbind result_bind fst snd]. eexists _, _. split_and!; [done|cbn; by rewrite Hl|].
  constructor; [|done]. cbn. eauto.
Qed.
End Passing.

(** ** Theorem *)

(** A metrics config that passes the lint generates.  With string dimension
    values, objects for patterns and scales, and patterns whose activity does
    not overflow, the engine builds its series,
    and for every series and tick, whatever its generators draw and its state
    is, it computes one measurement per metric, under distinct names; and a
    gauge that declares its maximum stays between its minimum and its maximum,
    both scaled by the series' multiplier, up to the final rounding. *)
Theorem linted_config_generates {R : Rounding} cos exp c metrics tick tz (states : list (mstate * draws)) :
  lint_metrics_config c = Ok [] -> string_values c = true ->
  dget c "metrics" = DList (DObj <$> metrics) -> Forall (objects cos exp) metrics -> length states = length metrics ->
  exists all, build_series c = Ok all /\ forall s, s ∈ all ->
    exists fields states',
      fields_for cos exp tick tz s ((fun mx => (mx.1, mx.2.1, mx.2.2)) <$> zip metrics states) = Ok (fields, states') /\
      length fields = length metrics /\ length states' = length metrics /\ NoDup (fst <$> fields) /\
      forall i m f, metrics !! i = Some m -> fields !! i = Some f ->
        default (DStr "gauge") (dfind m "kind") = DStr "gauge" -> is_Some (dfind m "max") ->
        exists mult vmin p95 vmax, scale_for m s = Ok mult /\ envelope_of m = Some (vmin, p95, vmax) /\
          (round4 (low (fmul vmin mult) (fmul vmax mult)) <= f.2 <= round4 (high (fmul vmin mult) (fmul vmax mult)))%Q.
Proof.
  intros Hl Hs Em Ho Hlen. unfold lint_metrics_config in Hl.
  destruct (lint_dimensions c) as [de|] eqn:Ed; [|done]. cbn [mbind result_bind] in Hl. rewrite Em in Hl.
  destruct (DObj <$> metrics) as [|d ds] eqn:Eds.
  { injection Hl as Hl. apply app_eq_nil in Hl as [_ [_ ?]%app_eq_nil]. done. }
  destruct (metrics_series_count c) as [n|]; [|done]. cbn [mbind result_bind] in Hl. injection Hl as Hl.
  apply app_eq_nil in Hl as [_ [-> [_ [_ Hl]%app_eq_nil]%app_eq_nil]%app_eq_nil].
  destruct (lint_metrics_ok (dim_keys c) [] (d :: ds) NoDup_nil_2 Hl) as (fs & names & Efs & Hfs & Hn & Hnames).
  rewrite <- Eds in Efs.
  assert (Inj (=) (=) DObj) as Hinj by (by intros ? ? [= ->]). apply list_fmap_eq_inj in Efs as <-; [|done].
  destruct (build_series_ok c Ed Hs) as (all & E & _ & _ & Ht). exists all. split; [done|].
  intros s Hin. rewrite Forall_forall in Ht. specialize (Ht s Hin).
  set (ms := _ <$> zip metrics states).
  assert (fst ∘ fst <$> ms = metrics) as Ems.
  { unfold ms. rewrite <- list_fmap_compose. rewrite <- (fst_zip metrics states) at 2 by lia. done. }
  destruct (fields_for_ok cos exp (dim_keys c) tick tz s ms) as (fields & states' & Ef & Hls & Hf); [|done|].
  { apply (Forall_fmap (fst ∘ fst) (fun m => metric_ok (dim_keys c) m /\ objects cos exp m)). rewrite Ems.
    apply Forall_and. done. }
  exists fields, states'. assert (length ms = length metrics) as Hlm by (rewrite <- Ems; by rewrite length_fmap).
  split_and!; [done|by rewrite <- (Forall2_length _ _ _ Hf)|lia| |].
  - assert (fst <$> fields = (fun s => "metric_name:" +:+ s) <$> names) as ->.
    { rewrite <- Ems in Hnames. clear -Hf Hnames. revert names Hnames.
      induction Hf as [|x f ms fields (name & st & En & E1 & _) Hf IH]; intros names H; inversion H; subst; [done|].
      cbn in *. rewrite E1. f_equal; [congruence|by apply IH]. }
    apply NoDup_fmap_2; [|done]. intros a b H. by injection H.
  - intros i m f Hm Hfi Hk Hmax.
    assert (exists x, ms !! i = Some x /\ x.1.1 = m) as (x & Hx & Exm).
    { rewrite <- Ems, list_lookup_fmap in Hm. destruct (ms !! i) as [x|]; [|done]. injection Hm. eauto. }
    destruct (Forall2_lookup_lr _ _ _ _ _ _ Hf Hx Hfi) as (name & st & _ & _ & Ev). rewrite Exm in Ev.
    rewrite Forall_forall in Hfs, Ho. pose proof (list_elem_of_lookup_2 _ _ _ Hm) as Hin'.
    destruct (metric_value_ok cos exp (dim_keys c) m s tick tz x.1.2 x.2 (Hfs m Hin') (Ho m Hin') Ht)
      as (v & st' & mult & vmin & p95 & vmax & Ev' & Es & Ee & Hv).
    exists mult, vmin, p95, vmax. do 2 (split; [done|]).
    rewrite Ev in Ev'. injection Ev' as -> _. by apply Hv.
Qed.

(** ** Witnesses *)

Section Witnesses.
Local Existing Instance exact.

(** Two hosts, one of them twice as busy, and one gauge. *)
Definition demo_metric : list (string * doc) :=
  [("name", DStr "cpu"); ("min", DNum 0); ("p95", DNum 80); ("max", DNum 100); ("noise", DNum 0);
   ("scale", DObj [("host", DObj [("b", DNum 2)])])].
Definition demo_config : config :=
  [("resolution_s", DNum 10);
   ("dimensions", DList [DObj [("key", DStr "host"); ("values", DList [DStr "a"; DStr "b"])]]);
   ("metrics", DList [DObj demo_metric])].
Definition demo_draws : draws := mkDraws (fun q => q) (fun q => q).
Definition demo_fields (s : series) :=
  fields_for (fun q => q) (fun q => q) 0 0 s [(demo_metric, mkState None 0, demo_draws)].

Lemma linted_config_generates_witness :
  exists all, build_series demo_config = Ok all /\
    forall s, s ∈ all -> exists fields states, demo_fields s = Ok (fields, states) /\ length fields = 1%nat.
Proof.
  destruct (linted_config_generates (fun q => q) (fun q => q) demo_config [demo_metric] 0 0
    [(mkState None 0, demo_draws)]) as (all & E & H);
    [by vm_compute|by vm_compute|done| |done|].
  { constructor; [|constructor]. split; [|by eexists]. eexists. split; [done|]. intros. by eexists. }
  exists all. split; [done|]. intros s Hs. destruct (H s Hs) as (fields & states & Ef & Hl & _).
  exists fields, states. done.
Defined.

(** Without a declared maximum the multiplier counts twice: scaled by one half,
    a gauge whose p95 is 80 tops out at 20 and not at 40. *)
Definition unbounded_metric : list (string * doc) :=
  [("name", DStr "cpu"); ("p95", DNum 80); ("noise", DNum 0);
   ("scale", DObj [("host", DObj [("b", DNum (1 # 2))])])].
Example default_maximum_scaled_twice :
  lint_metrics_config [("dimensions", DList [DObj [("key", DStr "host"); ("values", DList [DStr "b"])]]);
                       ("metrics", DList [DObj unbounded_metric])] = Ok [] /\
  match metric_value (fun q => q) (fun q => q) 0 0 unbounded_metric [(DStr "host", DStr "b")]
          (mkState None 0) demo_draws with
  | Ok (v, _) => Qeq_bool v 20
  | Raise _ => false
  end = true.
Proof. split; by vm_compute. Qed.

(** A width close to zero passes the lint and stops the engine. *)
Example narrow_hump_overflows :
  let m := [("name", DStr "cpu");
            ("pattern", DObj [("type", DStr "business_double_hump"); ("width_h", DNum (1 # 10 ^ 160))])] in
  lint_metrics_config [("dimensions", DList [DObj [("key", DStr "host"); ("values", DList [DStr "b"])]]);
                       ("metrics", DList [DObj m])] = Ok [] /\
  metric_value (fun q => q) (fun q => q) 0 0 m [(DStr "host", DStr "b")] (mkState None 0) demo_draws
    = Raise OverflowError.
Proof. split; by vm_compute. Qed.

(** A list for a scale passes the lint and stops the engine. *)
Example scale_list_passes_lint :
  let m := [("name", DStr "cpu"); ("scale", DList [DNum 1])] in
  lint_metrics_config [("dimensions", DList [DObj [("key", DStr "host"); ("values", DList [DStr "b"])]]);
                       ("metrics", DList [DObj m])] = Ok [] /\
  metric_value (fun q => q) (fun q => q) 0 0 m [(DStr "host", DStr "b")] (mkState None 0) demo_draws
    = Raise AttributeError.
Proof. split; by vm_compute. Qed.
End Witnesses.
