(* ===== verification/Packs.v ===== *)
(** * Pack directories (server/bundles.py, worker/stoker_agent/bundle.py)

    What the control plane reads of a pack's directory: which engine it is for,
    its lint, the replay section of a rawreplay pack and the manifest built from
    it; and what the worker reads back from the bundle.

    A directory is what the file system shows of it ([pack_dir]).  [re.compile],
    [repr] of a float, the address test of a URL's host and the download of a
    dataset are arguments.  Formatted values are left out of error texts.

    The theorem: a rawreplay pack that lints clean reaches the worker as
    declared: same mode, time multiple and timestamp hints, and the dataset the
    builder embedded. *)

From S2P Require Import Prelude.
From S2P Require Import PyFloat.
From S2P Require Import PyValue.
From S2P Require Import Pacing.
From S2P Require Import PackYaml.
From S2P Require Import MetricEngine.
From S2P Require Import ConfRewrite.
From S2P Require Import Shaping.
From S2P Require Import Lint.
From Stdlib Require Import QArith Qround Ascii Lqa.
Open Scope Z_scope.

(** A name joined to the pack root: outside it, no file, or a file with its path
    relative to the root and its lines. *)
Inductive place : Type := Escapes | Missing | File (rel : string) (lines : list text).

Record pack_dir : Type := mkDir {
  pd_exists : bool;
  pd_name : string;                            (* the basename *)
  pd_yaml : option text;                       (* pack.yaml *)
  pd_stoker : option (option doc);             (* stoker.json; [Some None] does not parse *)
  pd_conf : option (option conf);              (* default/eventgen.conf *)
  pd_tree : list string;                       (* the files under samples/ that are bundled *)
  pd_samples : string -> option (list text);   (* files under samples/ *)
  pd_files : string -> option (list text);     (* files under the root *)
  pd_place : string -> place;                  (* [_safe_join_pack] *)
  pd_bin : bool;                               (* bin/ holds a file *)
}.

Definition RAWREPLAY_ENGINE : string := "rawreplay".
Definition METRICS_ENGINE : string := "metrics".
Definition SAMPLE_MODES : list string := ["sample"; "replay"].
Definition REPLAY_MODES : list string := ["rate"; "cadence"].
Definition DEFAULT_TIME_MULTIPLE : Q := 1.
Definition FETCHED_DATASET_RELPATH : string := "dataset/replay.dat".
Definition DEFAULT_METRIC_SOURCETYPE : string := "stoker:metric".

(** The replay knobs of a rawreplay pack. *)
Record replay_config : Type := mkReplay {
  rp_dataset : option string;
  rp_dataset_url : option string;
  rp_fetch_url : option string;
  rp_sha256 : option string;
  rp_mode : string;
  rp_time_multiple : Q;
  rp_ts_regex : option string;
  rp_ts_strptime : option string;
  rp_ts_field : option string;
  rp_sourcetype : option string;
  rp_source : option string;
}.

Record LintResult : Type := mkLint {
  lt_ok : bool;
  lt_errors : list string;
  lt_stanzas : list string;
  lt_engines : list string;
  lt_sourcetypes : list doc;
  lt_stanza_count : Z;
  lt_est_bytes_per_event : option Q;
  lt_declared_per_day_gb : option Q;
  lt_declared_bytes_per_event : option Q;
  lt_replay : option replay_config;
  lt_metricgen : option config;
}.

Definition lint_engine (l : LintResult) : string := default "eventgen" (head (lt_engines l)).

(** A result that is only a refusal. *)
Definition lint_failed (engines errors : list string) : LintResult :=
  mkLint false errors [] engines [] 0 None None None None None.

(** [_unique] *)
Fixpoint unique_from (seen items : list string) : list string :=
  match items with
  | [] => []
  | i :: items => if bool_decide (i ∈ seen) then unique_from seen items else i :: unique_from (i :: seen) items
  end.
Definition unique : list string -> list string := unique_from [].

(** [key.endswith(suffix)] *)
Definition has_suffix (suffix key : string) : bool :=
  bool_decide (is_Some (strip_prefix (reverse (chars suffix)) (reverse (chars key)))).

Section Packs.
Context {R : Rounding} (repr_float : Q -> string).

(** [str(v)] *)
Definition py_str (v : pyval) : string :=
  match v with
  | VNone => "None"
  | VBool b => if b then "True" else "False"
  | VInt z => pretty z
  | VFloat q => repr_float q
  | VStr s => s
  end.

(** [_as_float] *)
Definition as_float (v : pyval) : option Q :=
  match v with
  | VNone => None
  | VBool b => Some (if b then 1%Q else 0%Q)
  | VInt z => Some (rnd (inject_Z z))
  | VFloat q => Some q
  | VStr s => float_of_string s
  end.

Definition read_pack_yaml (pd : pack_dir) : pack_doc :=
  match pd_yaml pd with Some t => parse_pack_yaml_server t | None => [] end.

(** [d.get(key)] of a section's dict, and the dict itself ([{}] for anything else). *)
Definition vget (k : string) (d : list (string * pyval)) : pyval := default VNone (aget k d).
Definition block_of (k : string) (d : pack_doc) : option (list (string * pyval)) :=
  match aget k d with Some (Block b) => Some b | _ => None end.
Definition top_scalar (k : string) (d : pack_doc) : pyval :=
  match aget k d with Some (Scalar v) => v | _ => VNone end.

(** [str(pack_yaml.get("engine") or "").strip().lower() == name] *)
Definition engine_is (name : string) (d : pack_doc) : bool :=
  let v := top_scalar "engine" d in
  truthy v && bool_decide (py_lower (py_strip (py_str v)) = name).

Definition is_rawreplay_pack (pd : pack_dir) : bool :=
  let d := read_pack_yaml pd in
  engine_is RAWREPLAY_ENGINE d ||
  match block_of "replay" d with
  | Some b => truthy (vget "dataset" b) || truthy (vget "dataset_url" b)
  | None => false
  end.

Definition read_stoker_json (pd : pack_dir) : result config :=
  match pd_stoker pd with
  | None => Ok []
  | Some None => Raise (BundleError "cannot read stoker.json")
  | Some (Some (DObj d)) => Ok d
  | Some (Some _) => Ok []
  end.

Definition read_metricgen (pd : pack_dir) : result (option config) :=
  d ← read_stoker_json pd;
  Ok (match dget d "metricgen" with
      | DObj block => if dtruthy (dget block "metrics") then Some block else None
      | _ => None
      end).

Definition is_metrics_pack (pd : pack_dir) : result bool :=
  m ← read_metricgen pd;
  Ok (match m with Some _ => true | None => engine_is METRICS_ENGINE (read_pack_yaml pd) end).

(** ** Estimates *)

(** [round(x, n)] to two and to one digit *)
Definition round_digits (scale : Z) (q : Q) : Q :=
  rnd (inject_Z (round_half_even (q * inject_Z scale)) / inject_Z scale).

(** [line.rstrip(b"\r\n")] *)
Fixpoint lstrip_eol (s : text) : text :=
  match s with c :: s' => if Ascii.eqb c CR || Ascii.eqb c LF then lstrip_eol s' else s | [] => [] end.
Definition rstrip_eol (s : text) : text := reverse (lstrip_eol (reverse s)).

(** The mean length of the first 200 lines that are not empty. *)
Definition mean_line_bytes (lines : list text) : option Q :=
  let counted := take 200 (List.filter (fun l => negb (bool_decide (l = []))) (rstrip_eol <$> lines)) in
  match counted with
  | [] => None
  | _ =>
      let total := Z.of_nat (list_sum (length <$> counted)) in
      Some (round_digits 100 (rnd (inject_Z total / inject_Z (Z.of_nat (length counted)))))
  end.

(** [parser.get(section, "sampleFile", fallback=None) or section] *)
Definition sample_name (c : conf) (s : string) : string :=
  match cget c s "sampleFile" with Some (Some v) => if nonempty v then v else s | _ => s end.

(** The mean of the sample file of a stanza, looked up under samples/ then the root. *)
Definition sample_mean (pd : pack_dir) (c : conf) (s : string) : option Q :=
  let n := sample_name c s in
  match pd_samples pd n ≫= mean_line_bytes with
  | Some m => Some m
  | None => pd_files pd n ≫= mean_line_bytes
  end.

Fixpoint measure_bytes_per_event (pd : pack_dir) (c : conf) (ss : list string) : option Q :=
  match ss with
  | [] => None
  | s :: ss => match sample_mean pd c s with Some m => Some m | None => measure_bytes_per_event pd c ss end
  end.

Definition collect_engines (d : pack_doc) : list string :=
  match top_scalar "engine" d with VStr e => [e] | _ => ["eventgen"] end.

(** The declared estimates: bytes per event and volume per day. *)
Definition declared_estimates (d : pack_doc) : option Q * option Q :=
  let estimates := default [] (block_of "estimates" d) in
  (as_float (vget "bytes_per_event" estimates),
   match as_float (vget "per_day_gb" estimates) with
   | Some g => Some g
   | None => as_float (top_scalar "declared_per_day_gb" d)
   end).

(** ** The replay section *)

(** [str(x).strip() if x else None] *)
Definition opt_text (v : pyval) : option string := if truthy v then Some (py_strip (py_str v)) else None.

(** [bool(x)] of an optional string *)
Definition given (x : option string) : bool := match x with Some s => nonempty s | None => false end.

(** [_opt]: the text of a value that is neither null nor empty. *)
Definition opt_hint (v : pyval) : option string :=
  match v with VNone => None | VStr s => if nonempty s then Some s else None | v => Some (py_str v) end.

(** [urlsplit] and [ip_address] on the URL: an address that is not public. *)
Context (private_host : string -> bool).

Definition dataset_errors (pd : pack_dir) (dataset : option string) : list string :=
  match dataset with
  | Some name =>
      if nonempty name then
        match pd_place pd name with
        | Escapes => ["replay: dataset escapes the pack root (rejected)"]
        | Missing => ["replay: dataset file not found under the pack"]
        | File _ _ => []
        end
      else []
  | None => []
  end.

Definition url_errors (dataset dataset_url : option string) : list string :=
  match dataset_url with
  | Some url =>
      if nonempty url && negb (given dataset) then
        if negb (String.prefix "https://" (py_lower url)) then ["replay: dataset_url must be an https:// URL"]
        else if private_host url then ["replay: dataset_url host is not a public address (refused)"]
        else []
      else []
  | None => []
  end.

Definition parse_replay_config (pd : pack_dir) (d : pack_doc) : replay_config * list string :=
  let section := block_of "replay" d in
  let raw := default [] section in
  let dataset := opt_text (vget "dataset" raw) in
  let dataset_url := opt_text (vget "dataset_url" raw) in
  let mode := py_lower (py_strip (let v := vget "mode" raw in if truthy v then py_str v else "rate")) in
  let declared := as_float (vget "time_multiple" raw) in
  let time_multiple := default DEFAULT_TIME_MULTIPLE declared in
  let defaults := default [] (block_of "defaults" d) in
  let stamp k := let v := vget k defaults in if truthy v then Some (py_str v) else None in
  (mkReplay dataset dataset_url (if given dataset then None else dataset_url)
     (py_lower <$> opt_text (vget "dataset_sha256" raw))
     (if bool_decide (mode ∈ REPLAY_MODES) then mode else "rate") time_multiple
     (opt_hint (vget "ts_regex" raw)) (opt_hint (vget "ts_strptime" raw)) (opt_hint (vget "ts_field" raw))
     (stamp "sourcetype") (stamp "source"),
   (match section with Some _ => [] | None => ["rawreplay pack.yaml must declare a 'replay:' section"] end) ++
   (if given dataset || given dataset_url then [] else ["replay: a 'dataset' or 'dataset_url' is required"]) ++
   dataset_errors pd dataset ++
   url_errors dataset dataset_url ++
   (if bool_decide (mode ∈ REPLAY_MODES) then [] else ["replay: mode must be one of rate, cadence"]) ++
   (if Qle_bool time_multiple 0 then ["replay: time_multiple must be > 0"] else [])).

Definition no_errors (errors : list string) : bool := bool_decide (errors = []).

Definition lint_rawreplay_pack (pd : pack_dir) : LintResult :=
  let d := read_pack_yaml pd in
  let '(replay, errors) := parse_replay_config pd d in
  let '(declared_bpe, declared_gb) := declared_estimates d in
  let measured :=
    match rp_dataset replay with
    | Some name =>
        if nonempty name then match pd_place pd name with File _ lines => mean_line_bytes lines | _ => None end
        else None
    | None => None
    end in
  mkLint (no_errors errors) errors [] [RAWREPLAY_ENGINE]
    (match rp_sourcetype replay with Some st => if nonempty st then [DStr st] else [] | None => [] end)
    0 (match declared_bpe with Some b => Some b | None => measured end) declared_gb declared_bpe
    (Some replay) None.

(** ** The lint *)

Definition lint_metrics_pack (pd : pack_dir) : result LintResult :=
  m ← read_metricgen pd;
  match m with
  | None => Ok (lint_failed [METRICS_ENGINE] ["engine: metrics but no metricgen block in stoker.json"])
  | Some metricgen =>
      errors ← lint_metrics_config metricgen;
      n ← (match dget metricgen "metrics" with
           | DList l => Ok (Z.of_nat (length l))
           | DObj l => Ok (Z.of_nat (length l))
           | DStr s => Ok (Z.of_nat (String.length s))
           | _ => Raise TypeError
           end);
      Ok (mkLint (no_errors errors) errors [] [METRICS_ENGINE]
            [let st := dget metricgen "sourcetype" in
             if dtruthy st then st else DStr DEFAULT_METRIC_SOURCETYPE]
            0 (Some (round_digits 10 (fadd 120 (fmul 45 (rnd (inject_Z n)))))) None None None
            (if no_errors errors then Some metricgen else None))
  end.

(** [re.compile] *)
Context (compiles : string -> bool).

(** The regular expressions of a stanza's tokens ([parser.options] lists a key
    once); [re.compile(None)] raises. *)
Definition token_errors (c : conf) (s : string) : result (list string) :=
  foldr (fun k rest =>
    errors ← rest;
    if has_suffix ".token" k then
      match cget c s k with
      | Some (Some pattern) => Ok (if compiles pattern then errors else "bad regex" :: errors)
      | _ => Raise TypeError
      end
    else Ok errors) (Ok []) (unique (options_of c s)).

Definition stanza_mode (c : conf) (s : string) : string :=
  py_strip (match cget c s "mode" with Some (Some v) => if nonempty v then v else "sample" | _ => "sample" end).

Definition stanza_errors (pd : pack_dir) (c : conf) (s : string) : result (list string) :=
  tokens ← token_errors c s;
  Ok ((if bool_decide (stanza_mode c s ∈ SAMPLE_MODES)
       then if bool_decide (is_Some (pd_samples pd (sample_name c s))) ||
               bool_decide (is_Some (pd_files pd (sample_name c s)))
            then [] else ["sample file not found under samples/"]
       else ["unsupported mode"]) ++ tokens).

Fixpoint stanzas_errors (pd : pack_dir) (c : conf) (ss : list string) : result (list string) :=
  match ss with
  | [] => Ok []
  | s :: ss => one ← stanza_errors pd c s; rest ← stanzas_errors pd c ss; Ok (one ++ rest)
  end.

Definition lint_eventgen_pack (pd : pack_dir) : result LintResult :=
  if negb (pd_exists pd) then Ok (lint_failed [] ["pack directory not found"])
  else
    match pd_conf pd with
    | None => Ok (lint_failed [] ["missing required default/eventgen.conf"])
    | Some None => Ok (lint_failed [] ["eventgen.conf parse error"])
    | Some (Some c) =>
        let ss := sample_sections c in
        stanza_errs ← stanzas_errors pd c ss;
        let errors := stanza_errs ++ (match ss with [] => ["no sample stanzas found"] | _ => [] end) in
        let d := read_pack_yaml pd in
        let st := vget "sourcetype" (default [] (block_of "defaults" d)) in
        let sourcetypes :=
          omap (fun s => match cget c s "sourcetype" with
                         | Some (Some v) => if nonempty v then Some v else None
                         | _ => None
                         end) ss
          ++ (if truthy st then [py_str st] else []) in
        let '(declared_bpe, declared_gb) := declared_estimates d in
        Ok (mkLint (no_errors errors) errors ss (unique (collect_engines d)) (DStr <$> unique sourcetypes)
              (Z.of_nat (length ss))
              (match declared_bpe with Some b => Some b | None => measure_bytes_per_event pd c ss end)
              declared_gb declared_bpe None None)
    end.

Definition lint_pack (pd : pack_dir) : result LintResult :=
  if pd_exists pd && is_rawreplay_pack pd then Ok (lint_rawreplay_pack pd)
  else
    metrics ← (if pd_exists pd then is_metrics_pack pd else Ok false);
    if metrics : bool then lint_metrics_pack pd else lint_eventgen_pack pd.

(** ** Custom code (server/gitsync/sync.py) *)

Definition generator_stanzas (pd : pack_dir) : list string :=
  match pd_conf pd with
  | Some (Some c) =>
      List.filter (fun s =>
        match cget c s "generator" with
        | Some (Some v) => nonempty (py_strip v) && negb (bool_decide (py_lower (py_strip v) = "default"))
        | _ => false
        end) (sample_sections c)
  | _ => []
  end.

Definition custom_code_errors (pd : pack_dir) : list string :=
  (if pd_bin pd then ["custom code: pack contains a bin/ directory"] else []) ++
  (match generator_stanzas pd with [] => [] | _ => ["custom code: 'generator =' stanza(s)"] end).

(** ** The manifest of a bundle *)

Definition opt_doc (x : option string) : doc := match x with Some s => DStr s | None => DNull end.

(** [{key: value}] when the text is not empty *)
Definition hint_field (key : string) (x : option string) : config :=
  match x with Some s => if nonempty s then [(key, DStr s)] else [] | None => [] end.

(** [x or y] of texts *)
Definition or_text (x y : option string) : option string := if given x then x else y.

Definition replay_block (replay : replay_config) (relpath : option string) : config :=
  [("dataset", opt_doc (or_text relpath (rp_dataset replay)));
   ("mode", DStr (if nonempty (rp_mode replay) then rp_mode replay else "rate"));
   ("time_multiple", DNum (if Qeq_bool (rp_time_multiple replay) 0 then DEFAULT_TIME_MULTIPLE
                           else rp_time_multiple replay));
   ("sourcetype", opt_doc (rp_sourcetype replay));
   ("source", opt_doc (rp_source replay))]
  ++ hint_field "ts_regex" (rp_ts_regex replay) ++ hint_field "ts_strptime" (rp_ts_strptime replay)
  ++ hint_field "ts_field" (rp_ts_field replay).

Definition num_field (key : string) (x : option Q) : config :=
  match x with Some q => [(key, DNum q)] | None => [] end.

Definition build_stoker_manifest (pd : pack_dir) (lint : LintResult) (relpath : option string) : config :=
  let name := match top_scalar "name" (read_pack_yaml pd) with VStr n => n | _ => pd_name pd end in
  [("name", DStr name);
   ("engine", DStr (lint_engine lint));
   ("estimates", DObj (num_field "bytes_per_event" (lt_est_bytes_per_event lint) ++
                       num_field "per_day_gb" (lt_declared_per_day_gb lint)));
   ("stanzas", DList (DStr <$> lt_stanzas lint));
   ("sourcetypes", DList (lt_sourcetypes lint))]
  ++ match lt_replay lint with
     | Some replay =>
         if bool_decide (lint_engine lint = RAWREPLAY_ENGINE)
         then [("replay", DObj (replay_block replay relpath))] else []
     | None => []
     end.

(** The download of a dataset, with its caps and its digest check. *)
Context (fetch : string -> result unit).

(** Where the dataset is in the bundle. *)
Definition rawreplay_dataset_members (pd : pack_dir) (replay : replay_config) : result string :=
  if given (rp_dataset replay) then
    match pd_place pd (default "" (rp_dataset replay)) with
    | File rel _ => Ok rel
    | _ => Raise (BundleError "rawreplay dataset not found under the pack (or escapes it)")
    end
  else if given (rp_fetch_url replay) then
    _ ← fetch (default "" (rp_fetch_url replay));
    Ok FETCHED_DATASET_RELPATH
  else Raise (BundleError "rawreplay pack declares neither a dataset nor a dataset_url").

(** [build_from_pack] up to the archive, which holds the manifest as stoker.json. *)
Definition build_from_pack (pd : pack_dir) : result config :=
  lint ← lint_pack pd;
  if negb (lt_ok lint) then Raise (BundleError "pack failed lint")
  else
    match lt_replay lint with
    | Some replay =>
        if bool_decide (lint_engine lint = RAWREPLAY_ENGINE) then
          rel ← rawreplay_dataset_members pd replay;
          Ok (build_stoker_manifest pd lint (Some rel))
        else Ok (build_stoker_manifest pd lint None)
    | None => Ok (build_stoker_manifest pd lint None)
    end.

(** ** The worker's view of an unpacked bundle (worker/stoker_agent/bundle.py) *)

Record ReplayConfig : Type := mkReplayConfig {
  rc_dataset : string;                (* the path inside the pack *)
  rc_mode : string;
  rc_time_multiple : Q;
  rc_ts_field : option string;
  rc_ts_regex : option string;
  rc_ts_strptime : option string;
}.

Record Bundle : Type := mkBundle {
  bn_estimates : doc;
  bn_replay : option ReplayConfig;
  bn_metricgen : option config;
}.

Definition doc_of_pyval (v : pyval) : doc :=
  match v with
  | VNone => DNull | VBool b => DBool b | VInt z => DNum (inject_Z z) | VFloat q => DNum q | VStr s => DStr s
  end.
Definition doc_of_yaml (y : yaml) : doc :=
  match y with
  | Scalar v => doc_of_pyval v
  | Block b => DObj ((fun kv => (kv.1, doc_of_pyval kv.2)) <$> b)
  end.

Definition docs_of (d : pack_doc) : config := (fun kv => (kv.1, doc_of_yaml kv.2)) <$> d.

(** stoker.json if present, else pack.yaml. *)
Definition load_pack_doc (pd : pack_dir) : result config :=
  match pd_stoker pd with
  | Some None => Raise (BundleError "stoker.json unreadable")
  | Some (Some (DObj d)) => Ok d
  | Some (Some _) => Ok []
  | None =>
      match pd_yaml pd with
      | Some t => doc ← parse_pack_yaml t; Ok (docs_of doc)
      | None => Ok []
      end
  end.

Definition resolve_metrics_config (pd : pack_dir) : result (option config) :=
  d ← load_pack_doc pd;
  match dget d "metricgen" with
  | DNull => Ok None
  | DObj block =>
      if dtruthy (dget block "metrics") then Ok (Some block)
      else Raise (BundleError "metricgen section without a 'metrics' list")
  | _ => Raise (BundleError "metricgen section without a 'metrics' list")
  end.

(** [str(d)] of a document that is no string. *)
Context (doc_text : doc -> string).

Definition opt_str (d : doc) : option string :=
  match d with DNull => None | DStr s => Some s | d => Some (doc_text d) end.

Definition resolve_replay_config (pd : pack_dir) : result (option ReplayConfig) :=
  d ← load_pack_doc pd;
  match dget d "replay" with
  | DObj section =>
      dataset ← (match dget section "dataset" with
                 | DStr s => if nonempty s then Ok s else Raise (BundleError "replay section without a 'dataset' path")
                 | _ => Raise (BundleError "replay section without a 'dataset' path")
                 end);
      path ← (match pd_place pd dataset with
              | Escapes => Raise (BundleError "replay dataset escapes the pack root (rejected)")
              | Missing => Raise (BundleError "replay dataset not found in pack")
              | File rel _ => Ok rel
              end);
      let mode := py_lower (match dget section "mode" with
                            | DStr s => if nonempty s then s else "rate"
                            | m => if dtruthy m then doc_text m else "rate"
                            end) in
      if negb (bool_decide (mode ∈ REPLAY_MODES)) then Raise (BundleError "replay mode must be one of rate, cadence")
      else
        time_multiple ← (match dget section "time_multiple" with
                         | DNull => Ok 1%Q
                         | tm => match doc_float tm with
                                 | Some q => if qlt q 0 then Raise (BundleError "replay time_multiple must be >= 0")
                                             else Ok q
                                 | None => Raise (BundleError "replay time_multiple must be a number")
                                 end
                         end);
        Ok (Some (mkReplayConfig path mode time_multiple (opt_str (dget section "ts_field"))
                    (opt_str (dget section "ts_regex")) (opt_str (dget section "ts_strptime"))))
  | _ => Ok None
  end.

(** [estimates.setdefault("bytes_per_event", v)] *)
Definition set_default (k : string) (v : doc) (d : config) : config :=
  match dfind d k with Some _ => d | None => d ++ [(k, v)] end.

Definition load_estimates (pd : pack_dir) : result doc :=
  match pd_stoker pd with
  | Some None => Raise (BundleError "stoker.json unreadable")
  | Some (Some (DObj d)) =>
      let estimates := or_empty (dget d "estimates") in
      match dfind d "bytes_per_event" with
      | None => Ok estimates
      | Some v => match estimates with
                  | DObj e => Ok (DObj (set_default "bytes_per_event" v e))
                  | _ => Raise AttributeError
                  end
      end
  | Some (Some _) => Raise AttributeError
  | None =>
      d ← load_pack_doc pd;
      Ok (match dget d "estimates" with DObj e => DObj e | _ => DObj [] end)
  end.

(** [_load_pack] on the directory of an unpacked bundle. *)
Definition load_pack (pd : pack_dir) : result Bundle :=
  match pd_conf pd with
  | None => Raise (BundleError "pack is missing required default/eventgen.conf")
  | Some _ =>
      estimates ← load_estimates pd;
      replay ← resolve_replay_config pd;
      metricgen ← resolve_metrics_config pd;
      Ok (mkBundle estimates replay metricgen)
  end.

(** ** A rawreplay pack reaches the worker as declared *)

(** An absent hint or a text that is not empty. *)
Definition proper (x : option string) : Prop := forall s, x = Some s -> nonempty s = true.

Lemma pretty_nonempty (z : Z) : nonempty (pretty z) = true.
Proof.
  assert (forall z : Z, 0 <= z -> pretty z <> EmptyString) as H.
  { intros z' Hz E. destruct (pretty_digits z' Hz) as (ds & _ & Hne & _ & Ed). by rewrite E in Ed. }
  unfold nonempty. rewrite bool_decide_false; [done|].
  destruct (decide (0 <= z)) as [Hz|Hz]; [by apply H|].
  destruct z as [|p|p]; [lia|lia|]. done.
Qed.

Lemma opt_hint_proper v : (forall q, repr_float q <> EmptyString) -> proper (opt_hint v).
Proof.
  intros Hr s. destruct v as [|[]|z|q|t]; cbn; try (intros [= <-]); try done.
  - apply pretty_nonempty.
  - unfold nonempty. by rewrite bool_decide_false.
  - destruct (nonempty t) eqn:E; [by intros [= <-]|done].
Qed.

Lemma replay_block_hints replay rel :
  proper (rp_ts_regex replay) -> proper (rp_ts_strptime replay) -> proper (rp_ts_field replay) ->
  let b := replay_block replay rel in
  dget b "ts_regex" = opt_doc (rp_ts_regex replay) /\
  dget b "ts_strptime" = opt_doc (rp_ts_strptime replay) /\
  dget b "ts_field" = opt_doc (rp_ts_field replay).
Proof.
  intros H1 H2 H3 b. subst b. unfold replay_block.
  destruct (rp_ts_regex replay) as [x|], (rp_ts_strptime replay) as [y|], (rp_ts_field replay) as [z|];
    cbn [hint_field]; rewrite ?(H1 _ eq_refl), ?(H2 _ eq_refl), ?(H3 _ eq_refl); done.
Qed.

(** What an empty list of errors says of the replay section. *)
Lemma replay_config_ok pd d :
  (parse_replay_config pd d).2 = [] -> let cfg := (parse_replay_config pd d).1 in
  rp_mode cfg ∈ REPLAY_MODES /\ (0 < rp_time_multiple cfg)%Q.
Proof.
  unfold parse_replay_config. cbn [fst snd rp_mode rp_time_multiple]. intros H.
  apply app_eq_nil in H as [_ H]. apply app_eq_nil in H as [_ H]. apply app_eq_nil in H as [_ H].
  apply app_eq_nil in H as [_ H]. apply app_eq_nil in H as [Hm Ht].
  case_bool_decide; [|done]. split; [done|].
  destruct (Qle_bool _ 0) eqn:E; [done|]. destruct (Qlt_le_dec 0 (default DEFAULT_TIME_MULTIPLE
    (as_float (vget "time_multiple" (default [] (block_of "replay" d)))))) as [|Hle]; [done|].
  apply Qle_bool_iff in Hle. congruence.
Qed.

Lemma replay_mode_lower x : x ∈ REPLAY_MODES -> nonempty x = true /\ py_lower x = x.
Proof. unfold REPLAY_MODES. intros [->|[->|[]%elem_of_nil]%elem_of_cons]%elem_of_cons; done. Qed.

Lemma rawreplay_manifest pd m rel : let cfg := (parse_replay_config pd (read_pack_yaml pd)).1 in
  pd_exists pd = true -> is_rawreplay_pack pd = true -> build_from_pack pd = Ok m ->
  rawreplay_dataset_members pd cfg = Ok rel ->
  (parse_replay_config pd (read_pack_yaml pd)).2 = [] /\
  dget m "replay" = DObj (replay_block cfg (Some rel)) /\ dget m "metricgen" = DNull /\
  dfind m "bytes_per_event" = None.
Proof.
  intros cfg He Hr Hb Hrel. unfold build_from_pack, lint_pack in Hb. rewrite He, Hr in Hb.
  cbn [andb mbind result_bind] in Hb. unfold lint_rawreplay_pack in Hb.
  destruct (parse_replay_config pd (read_pack_yaml pd)) as [cfg' errors]. cbn [fst snd] in *. subst cfg.
  destruct (declared_estimates (read_pack_yaml pd)) as [bpe gb].
  cbn [lt_ok lt_replay lint_engine lt_engines head default] in Hb. unfold no_errors in Hb.
  case_bool_decide as Herr; cbn [negb] in Hb; [|done].
  change (bool_decide (RAWREPLAY_ENGINE = RAWREPLAY_ENGINE)) with true in Hb. cbn iota in Hb.
  rewrite Hrel in Hb. cbn [mbind result_bind] in Hb. injection Hb as <-.
  by repeat split.
Qed.

(** C26: A rawreplay pack that builds is replayed as it was declared, when it also has
    a default/eventgen.conf.  The worker then loads the bundle, finds no metrics
    config in it, and gets the dataset the builder embedded, the mode and the
    timestamp hints of the pack's replay section and its time multiple, which is
    positive.  A bundle without the conf, which the builder does not ask for,
    the worker refuses. *)
Theorem replay_config_delivered pd wd m rel lines :
  let cfg := (parse_replay_config pd (read_pack_yaml pd)).1 in
  (forall q, repr_float q <> EmptyString) ->
  pd_exists pd = true -> is_rawreplay_pack pd = true -> build_from_pack pd = Ok m ->
  rawreplay_dataset_members pd cfg = Ok rel -> rel <> EmptyString ->
  pd_stoker wd = Some (Some (DObj m)) -> pd_place wd rel = File rel lines ->
  match pd_conf wd with
  | Some _ =>
      exists b, load_pack wd = Ok b /\ bn_metricgen b = None /\ (0 < rp_time_multiple cfg)%Q /\
        bn_replay b = Some (mkReplayConfig rel (rp_mode cfg) (rnd (rp_time_multiple cfg))
                              (rp_ts_field cfg) (rp_ts_regex cfg) (rp_ts_strptime cfg))
  | None => load_pack wd = Raise (BundleError "pack is missing required default/eventgen.conf")
  end.
Proof.
  intros cfg Hrepr He Hr Hb Hrel Hne Hst Hplace.
  destruct (rawreplay_manifest pd m rel He Hr Hb Hrel) as (Herr & Ereplay & Emetrics & Ebpe). fold cfg in Ereplay.
  destruct (replay_config_ok pd _ Herr) as [Hmode Htm]. fold cfg in Hmode, Htm.
  assert (load_pack_doc wd = Ok m) as Edoc by (unfold load_pack_doc; by rewrite Hst).
  assert (exists e, load_estimates wd = Ok e) as [e Ee].
  { unfold load_estimates. rewrite Hst, Ebpe. eauto. }
  assert (nonempty rel = true) as Hrel' by (unfold nonempty; by rewrite bool_decide_false).
  unfold load_pack. destruct (pd_conf wd); [|reflexivity]. rewrite Ee. cbn [mbind result_bind].
  unfold resolve_replay_config, resolve_metrics_config. rewrite Edoc. cbn [mbind result_bind].
  rewrite Ereplay, Emetrics.
  destruct (replay_block_hints cfg (Some rel)) as (-> & -> & ->); [by apply opt_hint_proper..|].
  change (dget (replay_block cfg (Some rel)) "dataset") with (opt_doc (or_text (Some rel) (rp_dataset cfg))).
  change (dget (replay_block cfg (Some rel)) "mode") with
    (DStr (if nonempty (rp_mode cfg) then rp_mode cfg else "rate")).
  change (dget (replay_block cfg (Some rel)) "time_multiple") with
    (DNum (if Qeq_bool (rp_time_multiple cfg) 0 then DEFAULT_TIME_MULTIPLE else rp_time_multiple cfg)).
  unfold or_text, given. rewrite Hrel'. cbn [opt_doc]. rewrite Hrel'. cbn [mbind result_bind]. rewrite Hplace.
  cbn [mbind result_bind].
  assert (nonempty (rp_mode cfg) = true /\ py_lower (rp_mode cfg) = rp_mode cfg) as [Hm Hl].
  { by apply replay_mode_lower. }
  rewrite Hm, Hm, Hl, bool_decide_true by done. cbn [negb].
  assert (Qeq_bool (rp_time_multiple cfg) 0 = false) as ->.
  { destruct (Qeq_bool _ 0) eqn:E; [|done]. apply Qeq_bool_iff in E. lra. }
  cbn [doc_float]. pose proof (rnd_nonneg (rp_time_multiple cfg) ltac:(lra)).
  destruct (qlt_spec (rnd (rp_time_multiple cfg)) 0); [lra|]. cbn [mbind result_bind].
  eexists. split; [reflexivity|]. cbn [bn_metricgen bn_replay].
  split; [done|]. split; [done|]. by destruct (rp_ts_field cfg), (rp_ts_regex cfg), (rp_ts_strptime cfg).
Qed.
End Packs.

(** ** Witnesses *)

Section Witnesses.
Local Instance packs_rounding : Rounding := binary64.

Definition capture : list text := [chars "login ok"; chars "login failed"].

Definition capture_pack : pack_dir :=
  mkDir true "capture"
    (Some (chars "engine: rawreplay" ++ LF :: chars "replay:" ++ LF :: chars "  dataset: samples/a.log" ++ LF
             :: chars "  mode: Cadence" ++ LF :: chars "  time_multiple: 2" ++ LF :: chars "  ts_field: _time" ++ [LF]))
    None None ["a.log"] (fun _ => None) (fun _ => None)
    (fun n => if bool_decide (n = "samples/a.log") then File n capture else Missing) false.

Definition capture_manifest : config :=
  match build_from_pack (fun _ => "1.0") (fun _ => false) (fun _ => true) (fun _ => Ok tt) capture_pack with
  | Ok m => m
  | Raise _ => []
  end.

(** The unpacked bundle, with or without an eventgen.conf. *)
Definition capture_bundle (c : option (option conf)) : pack_dir :=
  mkDir true "capture" (pd_yaml capture_pack) (Some (Some (DObj capture_manifest))) c ["a.log"]
    (fun _ => None) (fun _ => None) (pd_place capture_pack) false.

Lemma replay_config_delivered_witness :
  exists b, load_pack (fun _ => "") (capture_bundle (Some None)) = Ok b /\
    bn_replay b = Some (mkReplayConfig "samples/a.log" "cadence" (rnd (rnd 2)) (Some "_time") None None).
Proof.
  destruct (replay_config_delivered (fun _ => "1.0") (fun _ => false) (fun _ => true) (fun _ => Ok tt) (fun _ => "")
              capture_pack (capture_bundle (Some None)) capture_manifest "samples/a.log" capture)
    as (b & E & _ & _ & Er).
  - done.
  - reflexivity.
  - vm_compute. reflexivity.
  - vm_compute. reflexivity.
  - vm_compute. reflexivity.
  - done.
  - reflexivity.
  - vm_compute. reflexivity.
  - exists b. split; [exact E|]. rewrite Er. vm_compute. reflexivity.
Defined.

(** A rawreplay pack needs no eventgen.conf to lint and to build, but the worker
    refuses a bundle without one. *)
Example conf_free_bundle_refused :
  build_from_pack (fun _ => "1.0") (fun _ => false) (fun _ => true) (fun _ => Ok tt) capture_pack
    = Ok capture_manifest /\ capture_manifest <> [] /\
  load_pack (fun _ => "") (capture_bundle None)
    = Raise (BundleError "pack is missing required default/eventgen.conf").
Proof. split; [vm_compute; reflexivity|]. split; [vm_compute; discriminate|reflexivity]. Qed.
End Witnesses.
