(* ===== verification/GitSync.v ===== *)
(** * Git synchronisation of packs (server/gitsync/sync.py)

    A repository's clone is indexed: its pack roots are found, linted, held to the
    custom-code policy and upserted as rows keyed by repository and name.  A clone
    is what its directories hold ([Packs.pack_dir]); resolving a path's links is an
    argument.  A pack without a pack.yaml gets one written into the clone, which
    later syncs find there.  A pack's directory at its commit is resolved
    through [Git] and the class [Trees] of directories and archives.

    The theorems: a synchronisation reports what it did, leaves one row per repository
    and name, touches no other repository's rows, and passes only what the policy
    allows; a resolved directory holds the pack of its commit; a path is recovered
    from its row.  The examples record what a second sync makes of the file the first
    one wrote, and how one broken pack ends a sync. *)

From S2P Require Import Prelude.
From S2P Require Import PyFloat.
From S2P Require Import PyValue.
From S2P Require Import MetricEngine.
From S2P Require Import PackYaml.
From S2P Require Import ConfRewrite.
From S2P Require Import Packs.
From S2P Require Import Git.
From Stdlib Require Import QArith Ascii.
Open Scope Z_scope.

(** ** Names and metadata *)

Section Meta.
Context {R : Rounding} (repr_float : Q -> string).

(** [_yaml_scalar], through the worker's parser. *)
Definition pack_yaml_of (pd : pack_dir) : pack_doc :=
  match pd_yaml pd with
  | Some t => match parse_pack_yaml t with Ok d => d | Raise _ => [] end
  | None => []
  end.
Definition yaml_scalar (pd : pack_dir) (key : string) : pyval := top_scalar key (pack_yaml_of pd).

(** [text.rsplit(sep, 1)[-1]] *)
Fixpoint after_last (sep : ascii) (acc t : text) : text :=
  match t with [] => acc | c :: t' => if Ascii.eqb c sep then after_last sep t' t' else after_last sep acc t' end.

Fixpoint lstrip_slashes (t : text) : text := match t with c :: t' => if Ascii.eqb c "/"%char then lstrip_slashes t' else t | [] => [] end.

Definition DOT_GIT : text := chars ".git".
(** [_repo_slug] *)
Definition repo_slug (url : string) : string :=
  let t := reverse (lstrip_slashes (reverse (chars (py_strip url)))) in
  let t := match strip_prefix (reverse DOT_GIT) (reverse t) with Some r => reverse r | None => t end in
  let t := after_last "/"%char t t in
  let t := after_last ":"%char t t in
  if bool_decide (t = []) then "root" else String.string_of_list_ascii t.

(** [_pack_name]; [root] for the pack at the repository's root. *)
Definition pack_name (root : bool) (url : string) (pd : pack_dir) : string :=
  let v := yaml_scalar pd "name" in
  if truthy v then py_str repr_float v
  else if root then (if nonempty url then repo_slug url else "root") else pd_name pd.

Definition pack_description (pd : pack_dir) : option string :=
  match yaml_scalar pd "description" with VNone => None | v => Some (py_str repr_float v) end.

(** [text.split(",")] *)
Fixpoint split_comma (t : text) : list text :=
  match t with
  | [] => [[]]
  | c :: t => if Ascii.eqb c ","%char then [] :: split_comma t
              else match split_comma t with [] => [[c]] | w :: ws => (c :: w) :: ws end
  end.

(** [s.strip("[]")] *)
Definition is_bracket (c : ascii) : bool := Ascii.eqb c "["%char || Ascii.eqb c "]"%char.
Fixpoint lstrip_brackets (t : text) : text := match t with c :: t' => if is_bracket c then lstrip_brackets t' else t | [] => [] end.
Definition strip_brackets (t : text) : text := reverse (lstrip_brackets (reverse (lstrip_brackets t))).

(** [_clean_tag] *)
Definition clean_tag (t : text) : text :=
  let t := strip_chars t in
  let t := match unquote t with Some u => strip_chars u | None => t end in
  strip_chars (strip_brackets t).

(** [_pack_tags] of a text; the parser gives no lists. *)
Definition pack_tags (pd : pack_dir) : option (list string) :=
  match yaml_scalar pd "tags" with
  | VStr s =>
      let t := strip_chars (chars s) in
      if bool_decide (t = []) then None
      else
        let t := if bool_decide (head t = Some "["%char) && bool_decide (last t = Some "]"%char) then removelast (tail t) else t in
        match List.filter (fun w => negb (bool_decide (w = []))) (clean_tag <$> split_comma t) with
        | [] => None
        | ws => Some (String.string_of_list_ascii <$> ws)
        end
  | _ => None
  end.

(** [_pack_relpath] *)
Definition PACKS_MARKER : text := chars "/packs/".
Fixpoint rfind_text (needle acc : text) (found : bool) (t : text) : option text :=
  match t with
  | [] => if found then Some acc else None
  | c :: t' => match strip_prefix needle t with
               | Some _ => rfind_text needle t true t'
               | None => rfind_text needle acc found t'
               end
  end.
Definition pack_relpath (source_path : string) : string :=
  match rfind_text PACKS_MARKER [] false (chars source_path) with
  | Some t => String.string_of_list_ascii (tail t)
  | None => ""
  end.

(** [_fmt_num] *)
Definition fmt_num (value : Q) : string :=
  if Qeq_bool value (inject_Z (Qround.Qfloor value)) then pretty (Qround.Qfloor value) else repr_float (round_digits 100 value).

(** ** Token files outside the pack *)

(** [^token\.(\d+)\.<field>$] *)
Fixpoint span_digit_chars (t : text) : text * text :=
  match t with
  | c :: t' => match digit_of c with Some _ => let '(ds, r) := span_digit_chars t' in (c :: ds, r) | None => ([], t) end
  | [] => ([], [])
  end.
Definition token_key (field key : string) : option text :=
  rest ← strip_prefix (chars "token.") (chars key);
  let '(ds, r) := span_digit_chars rest in
  if bool_decide (ds = []) then None else if bool_decide (r = chars ("." +:+ field)) then Some ds else None.

Definition FILE_TYPES : list string := ["file"; "mvfile"].

(** What a key of a section holds, as text. *)
Definition option_text (c : conf) (s key : string) : string :=
  match cget c s key with Some (Some v) => v | _ => "" end.

(** [d[k] = v] *)
Fixpoint tset (k : text) (v : string) (d : list (text * string)) : list (text * string) :=
  match d with
  | [] => [(k, v)]
  | (k', v') :: d => if bool_decide (k' = k) then (k, v) :: d else (k', v') :: tset k v d
  end.

(** The numbered keys of one kind, by number. *)
Definition numbered (field : string) (read : string -> string) (keys : list string) : list (text * string) :=
  foldl (fun d key => match token_key field key with Some n => tset n (read key) d | None => d end) [] keys.

(** [_path_escapes]; [realpath] joins to the pack and resolves links. *)
Definition path_escapes (realpath : option string -> string -> string) (pack_abs path : string) : bool :=
  if negb (nonempty path) then false
  else
    let pack_real := realpath None pack_abs in
    let resolved := if String.prefix "/" path then realpath None path else realpath (Some pack_real) path in
    negb (bool_decide (resolved = pack_real)) && negb (String.prefix (pack_real +:+ "/") resolved).

Context (escapes : string -> string -> bool).

Definition stanza_escapes (path : string) (c : conf) (s : string) : list string :=
  let keys := options_of c s in
  let types := numbered "replacementType" (fun k => py_lower (py_strip (option_text c s k))) keys in
  let repls := numbered "replacement" (option_text c s) keys in
  omap (fun nt =>
    if bool_decide (nt.2 ∈ FILE_TYPES) then
      match snd <$> List.find (fun kv => bool_decide (kv.1 = nt.1)) repls with
      | Some p => if nonempty p && escapes path (py_strip p)
                  then Some ("stanza [" +:+ s +:+ "]: path escapes the pack root (rejected)") else None
      | None => None
      end
    else None) types.

(** [_token_path_escape_errors] *)
Definition token_path_escape_errors (path : string) (pd : pack_dir) : list string :=
  match pd_conf pd with
  | Some (Some c) => concat (stanza_escapes path c <$> sample_sections c)
  | _ => []
  end.
End Meta.

(** ** Rows *)

Record pack_row : Type := mkRow {
  pr_id : Z;
  pr_repo : option Z;
  pr_name : string;
  pr_path : string;
  pr_description : option string;
  pr_tags : option (list string);
  pr_engines : list string;
  pr_builder : option config;
  pr_sourcetypes : list doc;
  pr_stanza_count : Z;
  pr_est_bytes_per_event : option Q;
  pr_declared_per_day_gb : option Q;
  pr_verified : bool;
  pr_lint_status : string;
  pr_lint_errors : list string;
  pr_indexed_sha : option string;
}.

Record repo_row : Type := mkRepo {
  rp_id : Z;
  rp_url : string;
  rp_trusted_code : bool;
  rp_head_sha : option string;
  rp_last_synced : option Z;
  rp_sync_error : option string;
}.

(** A pack root in a clone: its path below the clone ([""] for the root itself) and what it holds. *)
Record root : Type := mkRoot { ro_rel : string; ro_dir : pack_dir }.

(** The clone: its directory, what stands at its root, and the directories of packs/ in order. *)
Record clone : Type := mkClone { cl_path : string; cl_top : pack_dir; cl_packs : list (string * pack_dir) }.

Record sync_state : Type := mkSync { sy_packs : list pack_row; sy_clone : clone; sy_repo : repo_row }.

Definition set_rows (rows : list pack_row) (s : sync_state) : sync_state := mkSync rows (sy_clone s) (sy_repo s).
Definition set_repo (r : repo_row) (s : sync_state) : sync_state := mkSync (sy_packs s) (sy_clone s) r.

Definition root_path (c : clone) (rel : string) : string := if nonempty rel then cl_path c +:+ "/" +:+ rel else cl_path c.

(** The directory's pack.yaml becomes this text. *)
Definition with_yaml (t : text) (pd : pack_dir) : pack_dir :=
  mkDir (pd_exists pd) (pd_name pd) (Some t) (pd_stoker pd) (pd_conf pd) (pd_tree pd) (pd_samples pd) (pd_files pd) (pd_place pd) (pd_bin pd).

(** A file written below a root of the clone. *)
Definition write_yaml (rel : string) (t : text) (c : clone) : clone :=
  if negb (nonempty rel) then mkClone (cl_path c) (with_yaml t (cl_top c)) (cl_packs c)
  else mkClone (cl_path c) (cl_top c)
         ((fun ed => if bool_decide ("packs/" +:+ ed.1 = rel) then (ed.1, with_yaml t ed.2) else ed) <$> cl_packs c).

(** [select(Pack).where(repo_id, name).first()] *)
Definition is_row (repo : Z) (name : string) (r : pack_row) : bool :=
  bool_decide (pr_repo r = Some repo) && bool_decide (pr_name r = name).

Definition next_pack_id (rows : list pack_row) : Z := foldr Z.max 0 (pr_id <$> rows) + 1.

(** Update the first row that matches, or add one. *)
Fixpoint update_first (p : pack_row -> bool) (f : pack_row -> pack_row) (rows : list pack_row) : list pack_row :=
  match rows with
  | [] => []
  | r :: rows => if p r then f r :: rows else r :: update_first p f rows
  end.

Definition blank_row (id : Z) (name : string) : pack_row :=
  mkRow id None name "" None None [] None [] 0 None None false "unknown" [] None.

Section Index.
Context {R : Rounding} (repr_float : Q -> string) (private_host compiles : string -> bool).
Context (escapes : string -> string -> bool).
Abbreviation lint pd := (lint_pack repr_float private_host compiles pd).

(** [_is_pack_root] *)
Definition is_pack_root (pd : pack_dir) : bool :=
  match pd_conf pd with Some _ => true | None => is_rawreplay_pack repr_float pd end.

(** [_find_pack_roots] *)
Definition find_pack_roots (c : clone) : list root :=
  (if is_pack_root (cl_top c) then [mkRoot "" (cl_top c)] else []) ++
  ((fun ed => mkRoot ("packs/" +:+ ed.1) ed.2) <$> List.filter (fun ed => is_pack_root ed.2) (cl_packs c)).

(** [_synthesise_pack_yaml]: the text; the write succeeds. *)
Definition quoted (s : text) : text := ascii_of_N 34 :: s ++ [ascii_of_N 34].
Definition synthesised_yaml (pd : pack_dir) (l : LintResult) : text :=
  join_lines
    ([chars "# synthesised by stoker git-sync (unverified: no author pack.yaml)";
      chars ("name: " +:+ pd_name pd);
      chars "description: " ++ quoted (chars "synthesised pack (no author pack.yaml)");
      chars ("engine: " +:+ default "eventgen" (head (lt_engines l)))] ++
     match lt_est_bytes_per_event l with
     | None => []
     | Some bpe =>
         [chars "estimates:"; chars ("  bytes_per_event: " +:+ fmt_num repr_float bpe)] ++
         match lt_declared_per_day_gb l with None => [] | Some gb => [chars ("  per_day_gb: " +:+ fmt_num repr_float gb)] end
     end).

Definition synthesise_pack_yaml (pd : pack_dir) : result pack_dir :=
  l ← lint pd; Ok (with_yaml (synthesised_yaml pd l) pd).

(** The verdict on a pack root. *)
Record pack_verdict : Type := mkVerdict { vd_lint : LintResult; vd_errors : list string; vd_verified : bool }.

(** [_upsert_pack] *)
Definition filled (repo : Z) (name path sha : string) (pd : pack_dir) (v : pack_verdict) (r : pack_row) : pack_row :=
  let l := vd_lint v in
  mkRow (pr_id r) (Some repo) name path (pack_description repr_float pd) (pack_tags pd) (lt_engines l)
    (match lt_metricgen l with Some m => Some m | None => pr_builder r end)
    (lt_sourcetypes l) (lt_stanza_count l) (lt_est_bytes_per_event l) (lt_declared_per_day_gb l)
    (vd_verified v) (if bool_decide (vd_errors v = []) then "ok" else "error") (vd_errors v) (Some sha).

Definition upsert_pack (repo : Z) (name path sha : string) (pd : pack_dir) (v : pack_verdict) (rows : list pack_row) : list pack_row :=
  match List.find (is_row repo name) rows with
  | Some _ => update_first (is_row repo name) (filled repo name path sha pd v) rows
  | None => rows ++ [filled repo name path sha pd v (blank_row (next_pack_id rows) name)]
  end.

(** Lint and policy of a directory whose pack.yaml was there ([had_yaml]) or was just written. *)
Definition judge (trusted had_yaml : bool) (path : string) (pd : pack_dir) : result pack_verdict :=
  l ← lint pd;
  let errors := lt_errors l ++ (if trusted then [] else custom_code_errors pd) ++ token_path_escape_errors escapes path pd in
  Ok (mkVerdict l errors (bool_decide (errors = []) && had_yaml)).

(** One pass of the loop of [index_packs]: the number of lint failures it adds. *)
Definition index_one (sha : string) (ro : root) : M sync_state Z := fun s =>
  let repo := sy_repo s in
  let path := root_path (sy_clone s) (ro_rel ro) in
  let name := pack_name repr_float (negb (nonempty (ro_rel ro))) (rp_url repo) (ro_dir ro) in
  let had_yaml := match pd_yaml (ro_dir ro) with Some _ => true | None => false end in
  match (if had_yaml then Ok (ro_dir ro) else synthesise_pack_yaml (ro_dir ro)) with
  | Raise e => (s, Raise e)
  | Ok pd =>
      let clone := if had_yaml then sy_clone s else write_yaml (ro_rel ro) (default [] (pd_yaml pd)) (sy_clone s) in
      match judge (rp_trusted_code repo) had_yaml path pd with
      | Raise e => (mkSync (sy_packs s) clone repo, Raise e)
      | Ok v => (mkSync (upsert_pack (rp_id repo) name path sha pd v (sy_packs s)) clone repo,
                 Ok (if bool_decide (vd_errors v = []) then 0 else 1))
      end
  end.

Fixpoint index_roots (sha : string) (roots : list root) (indexed failures : Z) : M sync_state (Z * Z) :=
  match roots with
  | [] => mret (indexed, failures)
  | ro :: roots => index_one sha ro ≫= fun f => index_roots sha roots (indexed + 1) (failures + f)
  end.

Definition index_packs (sha : string) : M sync_state (Z * Z) := fun s =>
  index_roots sha (find_pack_roots (sy_clone s)) 0 0 s.

(** [sync_repo]; [fetched] is what [clone_or_fetch] came to, with the clone it left. *)
Definition note_failure (now : Z) (msg : string) : M sync_state unit :=
  modify (fun s => let r := sy_repo s in
    set_repo (mkRepo (rp_id r) (rp_url r) (rp_trusted_code r) (rp_head_sha r) (Some now) (Some msg)) s).

Definition note_success (now : Z) (sha : string) : M sync_state unit :=
  modify (fun s => let r := sy_repo s in
    set_repo (mkRepo (rp_id r) (rp_url r) (rp_trusted_code r) (Some sha) (Some now) None) s).

(** The message of a failure: git's own, scrubbed, or the type of what was raised. *)
Definition failure_text (e : exn) : string :=
  match e with GitSyncError msg => scrub msg [] | _ => "sync failed: " +:+ exn_type e end.

Definition fetched_clone (fetched : result (clone * string)) : M sync_state string :=
  match fetched with
  | Raise e => raise e
  | Ok (c, sha) => modify (fun s => mkSync (sy_packs s) c (sy_repo s)) ≫= fun _ => mret sha
  end.

Definition sync_repo (now : Z) (fetched : result (clone * string)) : M sync_state (string * Z * Z) :=
  catch (fetched_clone fetched ≫= fun sha => index_packs sha ≫= fun counts => mret (sha, counts.1, counts.2))
    (fun e => note_failure now (failure_text e) ≫= fun _ =>
              raise (match e with GitSyncError _ => e | _ => GitSyncError (failure_text e) end)) ≫= fun out =>
  note_success now out.1.1 ≫= fun _ => mret out.
End Index.

(** ** The table after an index *)

(** One row per repository and name, and no two rows with one id. *)
Definition rows_of (repo : Z) (name : string) (rows : list pack_row) : list pack_row := List.filter (is_row repo name) rows.
Definition table_wf (rows : list pack_row) : Prop :=
  NoDup (pr_id <$> rows) /\ forall repo name, (length (rows_of repo name rows) <= 1)%nat.

(** Rows that are not [repo]'s. *)
Definition foreign (repo : Z) (rows : list pack_row) : list pack_row := List.filter (fun r => negb (bool_decide (pr_repo r = Some repo))) rows.

Lemma is_row_spec repo name r : is_row repo name r = true <-> pr_repo r = Some repo /\ pr_name r = name.
Proof. unfold is_row. rewrite andb_true_iff, !bool_decide_eq_true. done. Qed.

Lemma update_first_in p f rows r : r ∈ update_first p f rows -> r ∈ rows \/ exists r0, r0 ∈ rows /\ p r0 = true /\ r = f r0.
Proof.
  induction rows as [|r1 rows IH]; cbn; [set_solver|]. destruct (p r1) eqn:E; intros [->|Hin]%elem_of_cons.
  - right. exists r1. set_solver.
  - left. set_solver.
  - left. set_solver.
  - destruct (IH Hin) as [?|(r0 & ? & ? & ?)]; [left; set_solver|right; exists r0; set_solver].
Qed.

Lemma update_first_ids p f rows : (forall r, pr_id (f r) = pr_id r) -> pr_id <$> update_first p f rows = pr_id <$> rows.
Proof. intros Hf. induction rows as [|r rows IH]; [done|]. cbn. destruct (p r); cbn; [by rewrite Hf|by rewrite IH]. Qed.

Lemma update_first_filter p q f rows : (forall r, p r = true -> q (f r) = q r) -> (forall r, p r = true -> q r = false) ->
  List.filter q (update_first p f rows) = List.filter q rows.
Proof.
  intros Hf Hq. induction rows as [|r rows IH]; [done|]. cbn. destruct (p r) eqn:E; cbn.
  - by rewrite (Hf r E), (Hq r E).
  - by rewrite IH.
Qed.

Lemma update_first_length p q f rows : (forall r, p r = true -> q (f r) = q r) ->
  length (List.filter q (update_first p f rows)) = length (List.filter q rows).
Proof.
  intros Hf. induction rows as [|r rows IH]; [done|]. cbn. destruct (p r) eqn:E; cbn.
  - rewrite (Hf r E). by destruct (q r).
  - destruct (q r); cbn; by rewrite IH.
Qed.

Lemma find_none_filter {A} (p : A -> bool) xs : List.find p xs = None -> List.filter p xs = [].
Proof. induction xs as [|x xs IH]; [done|]. cbn. by destruct (p x). Qed.

Lemma filter_snoc {A} (p : A -> bool) xs x : List.filter p (xs ++ [x]) = List.filter p xs ++ (if p x then [x] else []).
Proof. rewrite List.filter_app. cbn. by destruct (p x). Qed.

Lemma next_pack_id_fresh rows : next_pack_id rows ∉ pr_id <$> rows.
Proof.
  unfold next_pack_id. assert (forall z, z ∈ pr_id <$> rows -> z <= foldr Z.max 0 (pr_id <$> rows)) as Hz.
  { induction rows as [|r rows IH]; cbn; [set_solver|]. intros z [->|Hin]%elem_of_cons; [lia|]. specialize (IH z Hin). lia. }
  intros Hin. specialize (Hz _ Hin). lia.
Qed.

Section Table.
Context {R : Rounding} (repr_float : Q -> string) (private_host compiles : string -> bool) (escapes : string -> string -> bool).
Abbreviation upsert := (upsert_pack repr_float).
Abbreviation filled := (filled repr_float).

Lemma filled_key repo name path sha pd v r : is_row repo name (filled repo name path sha pd v r) = true.
Proof. by apply is_row_spec. Qed.

Lemma key_apart repo name repo' name' r : is_row repo name r = true ->
  is_row repo' name' r = bool_decide (repo = repo') && bool_decide (name = name').
Proof. intros [Hr Hn]%is_row_spec. unfold is_row. rewrite Hr, Hn. f_equal. apply bool_decide_ext. split; [by intros [= ->]|by intros ->]. Qed.

Lemma upsert_foreign repo name path sha pd v rows : foreign repo (upsert repo name path sha pd v rows) = foreign repo rows.
Proof.
  unfold upsert_pack, foreign. destruct (List.find _ rows) eqn:E.
  - apply update_first_filter; intros r [Hr _]%is_row_spec; rewrite Hr; cbn; by rewrite ?bool_decide_true.
  - rewrite filter_snoc. cbn. rewrite bool_decide_true by done. apply app_nil_r.
Qed.

Lemma upsert_wf repo name path sha pd v rows : table_wf rows -> table_wf (upsert repo name path sha pd v rows).
Proof.
  intros [Hid Hu]. unfold upsert_pack. destruct (List.find _ rows) eqn:E; split.
  - by rewrite update_first_ids.
  - intros repo' name'. unfold rows_of. rewrite update_first_length; [apply Hu|].
    intros r Hr. rewrite (key_apart repo name repo' name' r Hr). by apply key_apart, filled_key.
  - rewrite fmap_app. apply NoDup_app. split_and!; [done| |apply NoDup_singleton].
    intros x Hx Hs. apply list_elem_of_singleton in Hs. cbn in Hs. subst x. by apply next_pack_id_fresh in Hx.
  - intros repo' name'. unfold rows_of. rewrite filter_snoc, length_app. rewrite (key_apart repo name repo' name' _ (filled_key repo name _ _ _ _ _)).
    destruct (bool_decide_reflect (repo = repo')) as [<-|]; [|cbn; specialize (Hu repo' name'); unfold rows_of in Hu; lia].
    destruct (bool_decide_reflect (name = name')) as [<-|]; [|cbn; specialize (Hu repo name'); unfold rows_of in Hu; lia].
    rewrite (find_none_filter _ _ E). cbn. lia.
Qed.

Lemma upsert_in repo name path sha pd v rows r : r ∈ upsert repo name path sha pd v rows ->
  r ∈ rows \/ exists r0, r = filled repo name path sha pd v r0.
Proof.
  unfold upsert_pack. destruct (List.find _ rows).
  - intros [?|(r0 & _ & _ & ->)]%update_first_in; [by left|right; by exists r0].
  - intros [?| ->%list_elem_of_singleton]%elem_of_app; [by left|right; by eexists].
Qed.

(** The row of the name after the upsert, and of any other name. *)
Lemma upsert_has repo name path sha pd v rows : exists r0, filled repo name path sha pd v r0 ∈ upsert repo name path sha pd v rows.
Proof.
  unfold upsert_pack. destruct (List.find _ rows) eqn:E.
  - clear -E. induction rows as [|r1 rows IH]; [done|]. cbn in *. destruct (is_row repo name r1); [exists r1; set_solver|].
    destruct (IH E) as (r0 & ?). exists r0. set_solver.
  - eexists. apply elem_of_app. right. by apply list_elem_of_singleton.
Qed.

Lemma upsert_keeps repo name path sha pd v rows r : r ∈ rows -> is_row repo name r = false -> r ∈ upsert repo name path sha pd v rows.
Proof.
  intros Hin Hr. unfold upsert_pack. destruct (List.find _ rows); [|set_solver].
  induction rows as [|r1 rows IH]; [set_solver|]. cbn. destruct (is_row repo name r1) eqn:E1.
  - apply elem_of_cons in Hin as [->|Hin]; [congruence|set_solver].
  - apply elem_of_cons in Hin as [->|Hin]; [set_solver|]. apply elem_of_cons. right. by apply IH.
Qed.

(** *** One root *)

(** The policy on a root. *)
Definition policy_ok (trusted : bool) (path : string) (pd : pack_dir) : Prop :=
  (trusted = false -> custom_code_errors pd = []) /\ token_path_escape_errors escapes path pd = [].

Definition name_of_root (repo : repo_row) (ro : root) : string := pack_name repr_float (negb (nonempty (ro_rel ro))) (rp_url repo) (ro_dir ro).

Lemma with_yaml_policy t trusted path pd : policy_ok trusted path (with_yaml t pd) <-> policy_ok trusted path pd.
Proof. done. Qed.

Lemma judge_policy trusted had path pd v : judge repr_float private_host compiles escapes trusted had path pd = Ok v ->
  vd_errors v = [] -> policy_ok trusted path pd.
Proof.
  unfold judge. destruct (lint_pack _ _ _ pd) as [l|e]; [|done]. cbn [mbind result_bind]. intros [= <-]. cbn [vd_errors].
  intros [_ [H1 H2]%app_nil]%app_nil. split; [|done]. by intros ->.
Qed.

Lemma write_yaml_path rel t c : cl_path (write_yaml rel t c) = cl_path c.
Proof. unfold write_yaml. by destruct (negb _). Qed.

Lemma index_one_spec sha ro s s' r : index_one repr_float private_host compiles escapes sha ro s = (s', r) ->
  sy_repo s' = sy_repo s /\ cl_path (sy_clone s') = cl_path (sy_clone s) /\
  match r with
  | Raise _ => sy_packs s' = sy_packs s
  | Ok f => exists pd v,
      sy_packs s' = upsert (rp_id (sy_repo s)) (name_of_root (sy_repo s) ro) (root_path (sy_clone s) (ro_rel ro)) sha pd v (sy_packs s) /\
      (vd_errors v = [] -> policy_ok (rp_trusted_code (sy_repo s)) (root_path (sy_clone s) (ro_rel ro)) (ro_dir ro))
  end.
Proof.
  unfold index_one. destruct (pd_yaml (ro_dir ro)) as [t|] eqn:Ey; cbv zeta.
  - destruct (judge _ _ _ _ _ _ _ _) as [v|e] eqn:Ej; intros [= <- <-]; cbn; split_and!; try done.
    exists (ro_dir ro), v. split; [done|]. by apply (judge_policy _ _ _ _ _ Ej).
  - unfold synthesise_pack_yaml. destruct (lint_pack _ _ _ (ro_dir ro)) as [l|e]; cbn [mbind result_bind].
    + destruct (judge _ _ _ _ _ _ _ _) as [v|e] eqn:Ej; intros [= <- <-]; cbn; split_and!; try done; try apply write_yaml_path.
      eexists _, v. split; [reflexivity|]. intros Hv. by apply (judge_policy _ _ _ _ _ Ej Hv).
    + intros [= <- <-]. done.
Qed.

(** *** All roots *)

(** A row this index wrote, for one of [roots]. *)
Definition justified (repo : repo_row) (c : clone) (sha : string) (roots : list root) (row : pack_row) : Prop :=
  pr_repo row = Some (rp_id repo) /\ pr_indexed_sha row = Some sha /\
  exists ro, ro ∈ roots /\ pr_name row = name_of_root repo ro /\ pr_path row = root_path c (ro_rel ro) /\
    (pr_lint_status row = "ok" -> policy_ok (rp_trusted_code repo) (pr_path row) (ro_dir ro)).

(** The name has its row at the commit. *)
Definition indexed_at (repo : Z) (name sha : string) (rows : list pack_row) : Prop :=
  exists row, row ∈ rows /\ is_row repo name row = true /\ pr_indexed_sha row = Some sha.

Lemma upsert_indexed repo name path sha pd v rows name' : indexed_at repo name' sha rows ->
  indexed_at repo name' sha (upsert repo name path sha pd v rows).
Proof.
  intros (row & Hin & Hk & Hs). destruct (is_row repo name row) eqn:E.
  - rewrite (key_apart repo name _ _ row E) in Hk. apply andb_true_iff in Hk as [_ Hn%bool_decide_eq_true]. subst name'.
    destruct (upsert_has repo name path sha pd v rows) as (r0 & Hr0). eexists. split_and!; [exact Hr0|apply filled_key|done].
  - exists row. split_and!; [by apply upsert_keeps|done|done].
Qed.

Lemma path_of_same c c' rel : cl_path c' = cl_path c -> root_path c' rel = root_path c rel.
Proof. unfold root_path. by intros ->. Qed.

Lemma justified_more repo c c' sha roots ro row : cl_path c' = cl_path c ->
  justified repo c' sha roots row -> justified repo c sha (ro :: roots) row.
Proof.
  intros Hc (Hr & Hs & ro' & Hin & Hn & Hp & Hk). split_and!; [done|done|]. exists ro'. rewrite (path_of_same _ _ _ Hc) in Hp. set_solver.
Qed.

Lemma justified_one repo c sha ro pd v r0 roots :
  (vd_errors v = [] -> policy_ok (rp_trusted_code repo) (root_path c (ro_rel ro)) (ro_dir ro)) ->
  justified repo c sha (ro :: roots) (filled (rp_id repo) (name_of_root repo ro) (root_path c (ro_rel ro)) sha pd v r0).
Proof.
  intros Hv. split_and!; [done|done|]. exists ro. split_and!; [set_solver|done|done|]. cbn. case_bool_decide as E; [|done]. intros _. by apply Hv.
Qed.

Lemma index_roots_spec sha roots : forall i f s s' r,
  index_roots repr_float private_host compiles escapes sha roots i f s = (s', r) ->
  sy_repo s' = sy_repo s /\ cl_path (sy_clone s') = cl_path (sy_clone s) /\
  foreign (rp_id (sy_repo s)) (sy_packs s') = foreign (rp_id (sy_repo s)) (sy_packs s) /\
  (table_wf (sy_packs s) -> table_wf (sy_packs s')) /\
  (forall row, row ∈ sy_packs s' -> row ∈ sy_packs s \/ justified (sy_repo s) (sy_clone s) sha roots row) /\
  (forall name, indexed_at (rp_id (sy_repo s)) name sha (sy_packs s) -> indexed_at (rp_id (sy_repo s)) name sha (sy_packs s')) /\
  (forall n m, r = Ok (n, m) -> n = i + Z.of_nat (length roots) /\
     forall ro, ro ∈ roots -> indexed_at (rp_id (sy_repo s)) (name_of_root (sy_repo s) ro) sha (sy_packs s')).
Proof.
  induction roots as [|ro roots IH]; intros i f s s' r.
  { intros [= <- <-]. split_and!; try done; [by left|]. intros n m [= <- <-]. split; [cbn; lia|set_solver]. }
  cbn [index_roots]. unfold mbind, M_bind. destruct (index_one _ _ _ _ sha ro s) as [s1 [f1|e]] eqn:E1; apply index_one_spec in E1 as (Er & Ec & H1).
  - destruct H1 as (pd & v & Ep & Hv). intros E2. apply IH in E2 as (Er2 & Ec2 & Hf & Hw & Hj & Hi & Hn). rewrite Er in *. split_and!.
    + done.
    + congruence.
    + rewrite Hf, Ep. apply upsert_foreign.
    + intros Hwf. apply Hw. rewrite Ep. by apply upsert_wf.
    + intros row Hin. destruct (Hj row Hin) as [Hin1|Hjust]; [|right; by eapply justified_more].
      rewrite Ep in Hin1. apply upsert_in in Hin1 as [?|(r0 & ->)]; [by left|]. right. by apply justified_one.
    + intros name Hix. apply Hi. rewrite Ep. by apply upsert_indexed.
    + intros n m ->. destruct (Hn n m eq_refl) as [-> Hall]. split; [cbn [length]; lia|]. intros ro' [->|Hin]%elem_of_cons; [|by apply Hall].
      apply Hi. rewrite Ep. destruct (upsert_has (rp_id (sy_repo s)) (name_of_root (sy_repo s) ro) (root_path (sy_clone s) (ro_rel ro)) sha pd v (sy_packs s)) as (r0 & Hr0).
      eexists. split_and!; [exact Hr0|apply filled_key|done].
  - intros [= <- <-]. rewrite H1. split_and!; try done. by left.
Qed.

(** The name's row is the one of the directory [path]. *)
Definition indexed_as (repo : Z) (name path sha : string) (rows : list pack_row) : Prop :=
  exists row, row ∈ rows /\ is_row repo name row = true /\ pr_indexed_sha row = Some sha /\ pr_path row = path.

(** Rows of other names stay, and the last root of a name has the row. *)
Lemma index_roots_keeps sha roots : forall i f s s' r row,
  index_roots repr_float private_host compiles escapes sha roots i f s = (s', r) -> row ∈ sy_packs s ->
  (forall ro, ro ∈ roots -> is_row (rp_id (sy_repo s)) (name_of_root (sy_repo s) ro) row = false) -> row ∈ sy_packs s'.
Proof.
  induction roots as [|ro roots IH]; intros i f s s' r row; [by intros [= <- <-]|].
  cbn [index_roots]. unfold mbind, M_bind. destruct (index_one _ _ _ _ sha ro s) as [s1 [f1|e]] eqn:E1; apply index_one_spec in E1 as (Er & _ & H1).
  - destruct H1 as (pd & v & Ep & _). intros E2 Hin Hno. eapply IH; [exact E2| |].
    + rewrite Ep. apply upsert_keeps; [done|]. apply Hno. left.
    + intros ro' Hro. rewrite Er. apply Hno. by right.
  - intros [= <- <-] Hin _. by rewrite H1.
Qed.

Lemma index_roots_last sha roots : forall i f s s' nm before ro after,
  index_roots repr_float private_host compiles escapes sha roots i f s = (s', Ok nm) -> roots = before ++ ro :: after ->
  (forall ro', ro' ∈ after -> name_of_root (sy_repo s) ro' <> name_of_root (sy_repo s) ro) ->
  indexed_as (rp_id (sy_repo s)) (name_of_root (sy_repo s) ro) (root_path (sy_clone s) (ro_rel ro)) sha (sy_packs s').
Proof.
  induction roots as [|ro1 roots IH]; intros i f s s' nm before ro after; [by destruct before|].
  cbn [index_roots]. unfold mbind, M_bind. destruct (index_one _ _ _ _ sha ro1 s) as [s1 [f1|e]] eqn:E1; [|done].
  apply index_one_spec in E1 as (Er & Ec & pd & v & Ep & _). intros E2 Hsplit Hafter.
  destruct before as [|ro0 before]; injection Hsplit as -> ->.
  - set (name := name_of_root (sy_repo s) ro) in *. set (path := root_path (sy_clone s) (ro_rel ro)) in *.
    destruct (upsert_has (rp_id (sy_repo s)) name path sha pd v (sy_packs s)) as (r0 & Hr0).
    eexists. split_and!; [|apply filled_key|done|done]. eapply index_roots_keeps; [exact E2|rewrite Ep; exact Hr0|].
    intros ro' Hro. rewrite Er. apply not_true_is_false. intros [_ Hn]%is_row_spec. by apply (Hafter ro').
  - rewrite <- Er, <- (path_of_same _ _ _ Ec). eapply IH; [exact E2|reflexivity|by rewrite Er].
Qed.

Lemma index_packs_spec sha s s' r : index_packs repr_float private_host compiles escapes sha s = (s', r) ->
  sy_repo s' = sy_repo s /\ (table_wf (sy_packs s) -> table_wf (sy_packs s')) /\
  foreign (rp_id (sy_repo s)) (sy_packs s') = foreign (rp_id (sy_repo s)) (sy_packs s) /\
  (forall row, row ∈ sy_packs s' -> row ∈ sy_packs s \/ justified (sy_repo s) (sy_clone s) sha (find_pack_roots repr_float (sy_clone s)) row) /\
  (forall n m, r = Ok (n, m) -> n = Z.of_nat (length (find_pack_roots repr_float (sy_clone s))) /\
     forall ro, ro ∈ find_pack_roots repr_float (sy_clone s) ->
       indexed_at (rp_id (sy_repo s)) (name_of_root (sy_repo s) ro) sha (sy_packs s')).
Proof.
  intros E. apply index_roots_spec in E as (Hr & _ & Hf & Hw & Hj & _ & Hn). split_and!; try done.
Qed.

(** C29: A synchronisation tells the truth about itself.  When it answers, the repository's row
    has the commit, the time and no error, every pack root of the clone is counted, its
    name has a row at that commit, and where roots share a name that row is the last
    one's directory.  When it fails, on the fetch or on the index, the row keeps its last commit
    and carries the scrubbed message of a git failure or the type of anything else, and the one
    error its callers handle is raised with the failure's own message.  Either way the
    table is in order, other repositories' packs are as they were, and every row that
    changed is of a pack root of the clone at the commit and says ok only where the
    directory has no token file outside it and, unless the repository is trusted,
    no custom code. *)
Theorem sync_reports now fetched s s' r : table_wf (sy_packs s) ->
  sync_repo repr_float private_host compiles escapes now fetched s = (s', r) ->
  table_wf (sy_packs s') /\ foreign (rp_id (sy_repo s)) (sy_packs s') = foreign (rp_id (sy_repo s)) (sy_packs s) /\
  rp_last_synced (sy_repo s') = Some now /\
  (forall row, row ∈ sy_packs s' -> row ∈ sy_packs s \/
     exists c sha, fetched = Ok (c, sha) /\ justified (sy_repo s) c sha (find_pack_roots repr_float c) row) /\
  match r with
  | Ok (sha, n, m) => exists c, fetched = Ok (c, sha) /\
      rp_head_sha (sy_repo s') = Some sha /\ rp_sync_error (sy_repo s') = None /\
      n = Z.of_nat (length (find_pack_roots repr_float c)) /\
      (forall ro, ro ∈ find_pack_roots repr_float c ->
         indexed_at (rp_id (sy_repo s)) (name_of_root (sy_repo s) ro) sha (sy_packs s')) /\
      (forall before ro after, find_pack_roots repr_float c = before ++ ro :: after ->
         (forall ro', ro' ∈ after -> name_of_root (sy_repo s) ro' <> name_of_root (sy_repo s) ro) ->
         indexed_as (rp_id (sy_repo s)) (name_of_root (sy_repo s) ro) (root_path c (ro_rel ro)) sha (sy_packs s'))
  | Raise e => exists e0,
      (fetched = Raise e0 \/ exists c sha s1, fetched = Ok (c, sha) /\
         index_packs repr_float private_host compiles escapes sha (mkSync (sy_packs s) c (sy_repo s)) = (s1, Raise e0)) /\
      rp_head_sha (sy_repo s') = rp_head_sha (sy_repo s) /\
      match e0 with
      | GitSyncError msg => e = GitSyncError msg /\ rp_sync_error (sy_repo s') = Some (scrub msg [])
      | _ => e = GitSyncError ("sync failed: " +:+ exn_type e0) /\
             rp_sync_error (sy_repo s') = Some ("sync failed: " +:+ exn_type e0)
      end
  end.
Proof.
  intros Hwf. unfold sync_repo, catch. destruct fetched as [[c sha]|e]; unfold mbind, M_bind; cbn [fetched_clone raise].
  - unfold modify, mbind, M_bind, mret, M_ret. destruct (index_packs _ _ _ _ sha _) as [s1 [[n m]|e]] eqn:E;
      pose proof E as Ei; apply index_packs_spec in E as (Er & Hw & Hf & Hj & Hn); cbn in *.
    + intros [= <- <-]. cbn. rewrite ?Er. split_and!; [by apply Hw|done|done| |].
      * intros row Hrow. destruct (Hj row Hrow); [by left|right; by do 2 eexists].
      * exists c. destruct (Hn n m eq_refl) as [-> Hall]. split_and!; [done..|].
        intros before ro after Hs Ha. exact (index_roots_last _ _ _ _ _ _ _ _ _ _ Ei Hs Ha).
    + intros E2. assert (forall row, row ∈ sy_packs s1 -> row ∈ sy_packs s \/
        exists c0 sha0, Ok (c, sha) = Ok (c0, sha0) /\ justified (sy_repo s) c0 sha0 (find_pack_roots repr_float c0) row) as Hrows
        by (intros row Hrow; destruct (Hj row Hrow); [by left|right; by do 2 eexists]).
      destruct e; injection E2 as <- <-; cbn; rewrite Er; (split_and!; [by apply Hw|done|done|done|]);
        (eexists; split; [right; by do 3 eexists|done]).
  - destruct e; intros [= <- <-]; cbn; (split_and!; [done|done|done|by left|]); (eexists; split; [by left|done]).
Qed.
End Table.

(** ** A pack at its commit *)

(** The directories of the file system, and the archives git makes. *)
Class Trees (G : Type) : Type := {
  dir_at : string -> G -> pack_dir;
  members_of : string -> list tar_member;
  place_tree : string -> list tar_member -> G -> G;
}.

Section Resolve.
Context {R : Rounding} (repr_float : Q -> string) {G : Type} `{!Git G, !Trees G}.

(** [_pack_present] *)
Definition pack_present (pd : pack_dir) : bool :=
  match pd_conf pd with Some _ => true | None => pd_exists pd && is_rawreplay_pack repr_float pd end.

(** [_extract_tree]; [split] is the directory's components. *)
Definition extract_tree (split : string -> list string) (env : environ) (clone_dir sha dest : string) : M (shell G) unit :=
  run_git env GIT_TIMEOUT_S [] [Word "-C"; Given clone_dir; Word "archive"; Word "--format=tar"; Given sha] ≫= fun out =>
  on_world (place_tree dest (safe_tar_members (split dest) (members_of out))).

(** The tree of a commit, under the repository's credential. *)
Definition checkout (split : string -> list string) (environ : environ) (decrypt : string -> string + string) (r : repo_remote)
    (clone_dir sha dest : string) : M (shell G) unit :=
  lift (decrypt_secret decrypt r) ≫= fun secret =>
  with_auth environ r secret (fun env =>
    ensure_sha_present env clone_dir sha (rm_url r) ≫= fun _ => extract_tree split env clone_dir sha dest).

(** [resolve_pack_dir] *)
Definition checkout_root (clones : string) (repo : Z) (sha : string) : string := os_join (os_join clones (pretty repo +:+ "-sha")) sha.
Definition pinned_dir (clones : string) (repo : Z) (sha : string) (row : pack_row) : string :=
  let rel := pack_relpath (pr_path row) in
  if nonempty rel then os_join (checkout_root clones repo sha) rel else checkout_root clones repo sha.

Definition resolve_pack_dir (split : string -> list string) (environ : environ) (decrypt : string -> string + string)
    (clones : string) (r : repo_remote) (row : pack_row) : M (shell G) string :=
  let repo := default 0 (rm_id r) in
  let clone_dir := os_join clones (pretty repo) in
  match pr_indexed_sha row with
  | None | Some EmptyString => raise (GitSyncError "pack has no indexed SHA (not synced from a repo)")
  | Some sha =>
      if negb (bool_decide (pr_repo row = rm_id r)) then raise (GitSyncError "pack does not belong to repo")
      else
        gets (fun s => is_git_clone clone_dir (sh_world s)) ≫= fun there =>
        if negb there then raise (GitSyncError "repo clone is missing; run a sync before building bundles")
        else
          let dir := pinned_dir clones repo sha row in
          gets (fun s => pack_present (dir_at dir (sh_world s))) ≫= fun cached =>
          if cached : bool then mret dir
          else
            checkout split environ decrypt r clone_dir sha (checkout_root clones repo sha) ≫= fun _ =>
            gets (fun s => pack_present (dir_at dir (sh_world s))) ≫= fun found =>
            if negb found then raise (GitSyncError "pack path not found at SHA in repo") else mret dir
  end.

(** [local_pack_metadata] *)
Definition local_pack_metadata (pd : pack_dir) : string * option string * option (list string) :=
  let v := yaml_scalar pd "name" in
  (if truthy v then py_str repr_float v else pd_name pd, pack_description repr_float pd, pack_tags pd).
End Resolve.

(** *** Resolution *)

Lemma ensure_runs {G} `{!Git G} (P : command -> Prop) env dir sha url :
  P [Word "-C"; Given dir; Word "cat-file"; Word "-e"; Given (sha +:+ "^{commit}")] ->
  P [Word "-C"; Given dir; Word "fetch"; Word "--depth"; Word "1"; Word "origin"; Given sha] ->
  runs P (fun _ => True) (ensure_sha_present (G := G) env dir sha url).
Proof.
  intros H1 H2 s s' r. unfold ensure_sha_present. destruct (run_git env GIT_TIMEOUT_S [] _ s) as [s1 r1] eqn:E1.
  apply (runs_git P _ _ _ _ H1) in E1 as [(c1 & El1 & Hc1) Hr]. destruct r1 as [|e]; [intros [= <- <-]; split; [by exists c1|done]|].
  destruct Hr as (msg & ->). intros E2.
  assert (runs P (fun _ : unit => True)
    (run_git (G := G) env CLONE_TIMEOUT_S [url] [Word "-C"; Given dir; Word "fetch"; Word "--depth"; Word "1"; Word "origin"; Given sha] ≫= fun _ => mret tt)) as Hf
    by git_steps.
  apply Hf in E2 as [(c2 & El2 & Hc2) HQ]. split; [|done]. exists (c1 ++ c2). rewrite El2, El1, app_assoc. split; [done|by apply Forall_app].
Qed.

Lemma sha_head sha : sha_re (chars_of sha) = true -> exists c t, sha = String c t /\ is_hex_lower c = true.
Proof.
  unfold sha_re. intros [[Hlen%Nat.leb_le _]%andb_true_iff Hall]%andb_true_iff. destruct sha as [|c sha]; [cbn in Hlen; lia|].
  exists c, sha. split; [done|]. cbn [String.list_ascii_of_string] in *. unfold anchored in *.
  destruct (reverse (c :: chars_of sha)) as [|d r] eqn:Er; [cbn in Hlen; lia|].
  destruct (Ascii.eqb d LF); [|by apply andb_true_iff in Hall as [? _]].
  apply (f_equal reverse) in Er. rewrite reverse_involutive, reverse_cons in Er.
  destruct (reverse r) as [|x xs]; [cbn in Hlen; lia|]. injection Er as -> _. by apply andb_true_iff in Hall as [? _].
Qed.

Lemma hex_not_option c t : is_hex_lower c = true -> String.prefix "-" (String c t) = false.
Proof. intros H. cbn [String.prefix]. destruct (ascii_dec "-" c) as [<-|]; [discriminate H|reflexivity]. Qed.

Section Pinned.
Context {R : Rounding} (repr_float : Q -> string) {G : Type} `{!Git G, !Trees G}.

Lemma extract_runs split env dir sha dest : String.prefix "-" dir = false -> String.prefix "-" sha = false ->
  runs (fun c => guarded c = true) (fun _ => True) (extract_tree (G := G) split env dir sha dest).
Proof. intros Hd Hs. unfold extract_tree. git_steps; [cbn; by rewrite Hd, Hs|apply runs_on_world]. Qed.

Lemma checkout_runs split environ decrypt r dir sha dest : String.prefix "-" dir = false -> sha_re (chars_of sha) = true ->
  runs (fun c => guarded c = true) (fun _ => True) (checkout (G := G) split environ decrypt r dir sha dest).
Proof.
  intros Hd (c & t & -> & Hc)%sha_head. unfold checkout.
  apply (runs_bind _ (fun _ => True)); [apply runs_decrypt|intros secret _]. apply runs_auth. intros env.
  apply (runs_bind _ (fun _ => True)); [|intros _ _; by apply extract_runs; [|apply hex_not_option]].
  apply ensure_runs; cbn [guarded]; rewrite Hd.
  - change (String c t +:+ "^{commit}") with (String c (t +:+ "^{commit}")). by rewrite hex_not_option.
  - by rewrite hex_not_option.
Qed.

(** A pack is built from the commit it was indexed at: the answer is the directory of that
    commit's tree with the path the row has, the pack is there, and where it
    was there already nothing is run or changed; what is run keeps the commit out of git's options;
    and a row without a commit, of another repository or of a path the commit lacks is
    the error the callers handle. *)
Theorem pinned_pack_present split environ decrypt clones r row s s' res : String.prefix "/" clones = true ->
  (forall sha, pr_indexed_sha row = Some sha -> sha_re (chars_of sha) = true) ->
  resolve_pack_dir (G := G) repr_float split environ decrypt clones r row s = (s', res) ->
  (exists cmds, sh_log s' = sh_log s ++ cmds /\ Forall (fun c => guarded c = true) cmds) /\
  match res with
  | Ok dir => exists sha, pr_indexed_sha row = Some sha /\ pr_repo row = rm_id r /\
      dir = pinned_dir clones (default 0 (rm_id r)) sha row /\
      pack_present repr_float (dir_at dir (sh_world s')) = true /\
      (pack_present repr_float (dir_at dir (sh_world s)) = true -> s' = s)
  | Raise e => exists msg, e = GitSyncError msg
  end.
Proof.
  intros Hroot Hsha. unfold resolve_pack_dir.
  assert (String.prefix "-" (os_join clones (pretty (default 0 (rm_id r)))) = false) as Hd by (by apply rooted_not_option, os_join_rooted).
  destruct (pr_indexed_sha row) as [[|c t]|] eqn:Esha; try (intros [= <- <-]; split; [apply no_commands|by eexists]).
  specialize (Hsha _ eq_refl). set (sha := String c t) in *.
  destruct (bool_decide_reflect (pr_repo row = rm_id r)) as [Hrepo|]; cbn [negb]; [|intros [= <- <-]; split; [apply no_commands|by eexists]].
  unfold mbind, M_bind, gets. destruct (is_git_clone _ _); cbn [negb]; [|intros [= <- <-]; split; [apply no_commands|by eexists]].
  destruct (pack_present _ (dir_at _ (sh_world s))) eqn:Ec; [intros [= <- <-]; split; [apply no_commands|by exists sha]|].
  destruct (checkout _ _ _ _ _ _ _ s) as [s1 [u|e]] eqn:E; apply (checkout_runs _ _ _ _ _ _ _ Hd Hsha) in E as [Hlog Hres].
  - destruct (pack_present _ (dir_at _ (sh_world s1))) eqn:Ep; intros [= <- <-]; (split; [done|]); [|by eexists].
    exists sha. split_and!; [done..|]. by rewrite Ec.
  - by intros [= <- <-].
Qed.
End Pinned.

(** ** A row's path leads back to its root *)

Definition slashes (t : text) : nat := length (List.filter (Ascii.eqb "/"%char) t).

Lemma slashes_cons c t : (slashes t <= slashes (c :: t))%nat.
Proof. unfold slashes. cbn [List.filter]. destruct (Ascii.eqb _ c); cbn [length]; lia. Qed.

Lemma rfind_absent acc found t : (slashes t <= 1)%nat -> rfind_text PACKS_MARKER acc found t = if found then Some acc else None.
Proof.
  revert acc found. induction t as [|c t IH]; intros acc found Hs; [done|]. cbn [rfind_text].
  destruct (strip_prefix PACKS_MARKER (c :: t)) as [r|] eqn:E.
  - apply strip_prefix_app in E. rewrite E in Hs. unfold slashes in Hs. rewrite List.filter_app, length_app in Hs. cbn in Hs. lia.
  - apply IH. pose proof (slashes_cons c t). lia.
Qed.

Lemma rfind_here p e acc found : slashes e = 0%nat -> rfind_text PACKS_MARKER acc found (p ++ PACKS_MARKER ++ e) = Some (PACKS_MARKER ++ e).
Proof.
  intros He. revert acc found. induction p as [|c p IH]; intros acc found.
  - cbn [app]. change (PACKS_MARKER ++ e) with ("/"%char :: (chars "packs/" ++ e)) at 1. cbn [rfind_text].
    change ("/"%char :: (chars "packs/" ++ e)) with (PACKS_MARKER ++ e). rewrite strip_prefix_back, rfind_absent; [done|].
    unfold slashes in *. rewrite List.filter_app, length_app, He. cbn. lia.
  - cbn [app rfind_text]. destruct (strip_prefix _ _); apply IH.
Qed.

(** The row of a pack under packs/ says where in the repository it is, wherever the
    clone stands. *)
Theorem relpath_recovered c entry : slashes (chars entry) = 0%nat ->
  pack_relpath (root_path c ("packs/" +:+ entry)) = "packs/" +:+ entry.
Proof.
  intros He. unfold pack_relpath, root_path. change (nonempty ("packs/" +:+ entry)) with true. cbv iota.
  assert (forall a b, chars (a +:+ b) = chars a ++ chars b) as Happ by (intros a b; induction a as [|x a IH]; [done|]; cbn; by rewrite <- IH).
  rewrite !Happ. change (chars "/" ++ chars "packs/" ++ chars entry) with (PACKS_MARKER ++ chars entry). rewrite rfind_here by done.
  change (tail (PACKS_MARKER ++ chars entry)) with (chars "packs/" ++ chars entry). rewrite <- Happ. apply String.string_of_list_ascii_of_string.
Qed.

(** The clone's own path decides for a pack at the root. *)
Example root_path_misread : forall pd,
  pack_relpath (root_path (mkClone "/srv/packs/repos/3" pd []) "") = "packs/repos/3" /\
  pack_relpath (root_path (mkClone "/data/repos/3" pd []) "") = "".
Proof. by intros pd. Qed.

(** ** Two syncs of one commit *)

Definition no_repr (_ : Q) : string := "0".
Definition demo_lines : list text := [chars "one event line"].
Definition demo_root : pack_dir :=
  mkDir true "3" None None (Some (Some (mkConf [] [("access.log", [])]))) ["access.log"]
    (fun f => if bool_decide (f = "access.log") then Some demo_lines else None) (fun _ => None) (fun _ => Missing) false.
Definition demo_clone : clone := mkClone "/data/repos/3" demo_root [].
Definition demo_repo : repo_row := mkRepo 3 "https://github.com/org/web-packs.git" false None None None.
Definition demo_state : sync_state := mkSync [] demo_clone demo_repo.
Definition demo_sync (s : sync_state) :=
  @sync_repo binary64 no_repr (fun _ => false) (fun _ => true) (fun _ _ => false) 10 (Ok (sy_clone s, TOY_SHA)) s.
Definition row_view (r : pack_row) := (pr_id r, pr_name r, pr_verified r, pr_lint_status r).

(** The file the first sync writes into the clone is untracked, so git keeps it: the second
    sync of the same commit finds a pack.yaml, takes its name (the clone directory's, the
    repository's id) and marks the pack verified, in a second row for the same directory. *)
Example second_sync_doubles_root :
  let s1 := fst (demo_sync demo_state) in
  row_view <$> sy_packs s1 = [(1, "web-packs", false, "ok")] /\
  row_view <$> sy_packs (fst (demo_sync s1)) = [(1, "web-packs", false, "ok"); (2, "3", true, "ok")] /\
  pr_path <$> sy_packs (fst (demo_sync s1)) = ["/data/repos/3"; "/data/repos/3"].
Proof. by vm_compute. Qed.

(** Under packs/ the second sync keeps the row and marks the unverified pack verified. *)
Definition demo_under : sync_state := mkSync [] (mkClone "/data/repos/3" (mkDir true "3" None None None [] (fun _ => None) (fun _ => None) (fun _ => Missing) false) [("web", mkDir true "web" None None (pd_conf demo_root) (pd_tree demo_root) (pd_samples demo_root) (pd_files demo_root) (pd_place demo_root) false)]) demo_repo.
Example second_sync_verifies :
  let s1 := fst (demo_sync demo_under) in
  row_view <$> sy_packs s1 = [(1, "web", false, "ok")] /\ row_view <$> sy_packs (fst (demo_sync s1)) = [(1, "web", true, "ok")].
Proof. by vm_compute. Qed.

(** A pack whose stoker.json does not parse ends the sync: the packs after it have no row. *)
Definition demo_broken : sync_state := mkSync [] (mkClone "/data/repos/3" (cl_top (sy_clone demo_under))
  [("a", mkDir true "a" (Some (chars "name: a")) (Some None) (pd_conf demo_root) [] (fun _ => None) (fun _ => None) (fun _ => Missing) false);
   ("web", snd (default ("", demo_root) (head (cl_packs (sy_clone demo_under)))))]) demo_repo.
Example broken_pack_stops_sync :
  let '(s', r) := demo_sync demo_broken in
  row_view <$> sy_packs s' = [] /\ r = Raise (GitSyncError "sync failed: BundleError") /\
  row_view <$> sy_packs (fst (demo_sync demo_under)) = [(1, "web", false, "ok")].
Proof. by vm_compute. Qed.

(** ** The theorems at an input *)

Lemma demo_sync_table_wf : table_wf (sy_packs demo_state).
Proof. split; [apply NoDup_nil_2|intros; cbn; lia]. Qed.

Lemma sync_reports_witness :
  (exists s' r, demo_sync demo_state = (s', r) /\ table_wf (sy_packs s') /\ rp_last_synced (sy_repo s') = Some 10) /\
  rp_sync_error (sy_repo (fst (@sync_repo binary64 no_repr (fun _ => false) (fun _ => true) (fun _ _ => false) 10
    (Raise (GitSyncError "git fetch failed")) demo_state))) = Some "git fetch failed".
Proof.
  split.
  - destruct (demo_sync demo_state) as [s' r] eqn:E. exists s', r. split; [done|].
    destruct (sync_reports no_repr (fun _ => false) (fun _ => true) (fun _ _ => false) 10 (Ok (demo_clone, TOY_SHA)) demo_state s' r demo_sync_table_wf E)
      as (H1 & _ & H2 & _). by split.
  - destruct (sync_reports (R := binary64) no_repr (fun _ => false) (fun _ => true) (fun _ _ => false) 10 (Raise (GitSyncError "git fetch failed"))
      demo_state _ _ demo_sync_table_wf (surjective_pairing _)) as (_ & _ & _ & _ & e0 & [[= <-]|(c & sha & s1 & [=] & _)] & _ & _ & Ht).
    rewrite Ht. vm_compute. reflexivity.
Defined.

(** The same root with a generator of its own. *)
Definition demo_custom : pack_dir :=
  mkDir true "3" (Some (chars "name: custom")) None (Some (Some (mkConf [] [("access.log", [("generator", Some "evil")])]))) ["access.log"]
    (pd_samples demo_root) (pd_files demo_root) (pd_place demo_root) false.
Definition demo_custom_state : sync_state := mkSync [] (mkClone "/data/repos/3" demo_custom []) demo_repo.
Definition demo_index (s : sync_state) := @index_packs binary64 no_repr (fun _ => false) (fun _ => true) (fun _ _ => false) TOY_SHA s.

(** An untrusted repository's generator does not pass; a trusted one's does. *)
Example custom_code_denied :
  row_view <$> sy_packs (fst (demo_index demo_custom_state)) = [(1, "custom", false, "error")] /\
  row_view <$> sy_packs (fst (demo_index (set_repo (mkRepo 3 "" true None None None) demo_custom_state))) = [(1, "custom", true, "ok")].
Proof. by vm_compute. Qed.
