(* ===== verification/Merge.v ===== *)
(** * Merging packs (server/bundles.py: the multi-pack merge)

    A spec may name several eventgen packs; they are merged into one bundle whose
    stanzas and sample files carry their pack's namespace.  Writing the merged
    conf and reading it back is left out.

    The theorems: the namespaces keep every stanza and file name apart; each
    stanza keeps its own options; and the weights the merged estimate uses are
    the weights by which the worker splits its rate. *)

From S2P Require Import Prelude.
From S2P Require Import PyFloat.
From S2P Require Import PyValue.
From S2P Require Import Pacing.
From S2P Require Import PackYaml.
From S2P Require Import MetricEngine.
From S2P Require Import ConfRewrite.
From S2P Require Import Shaping.
From S2P Require Import Lint.
From S2P Require Import Packs.
From Stdlib Require Import QArith Qround Ascii Lqa.
Open Scope Z_scope.

Definition MERGE_SEP : string := "--".
Definition FILE_TOKEN_TYPES : list string := ["file"; "mvfile"; "seqfile"].

(** ** Namespaces *)

Abbreviation dash := "-"%char.

(** [A-Za-z0-9_] *)
Definition is_word (c : ascii) : bool :=
  let n := N_of_ascii c in
  ((48 <=? n) && (n <=? 57) || (65 <=? n) && (n <=? 90) || (97 <=? n) && (n <=? 122) || (n =? 95))%N.

(** [re.sub(r"[^A-Za-z0-9_]+", "-", s)]; [inside] says a run is being replaced. *)
Fixpoint dash_runs (inside : bool) (s : text) : text :=
  match s with
  | [] => []
  | c :: s =>
      if is_word c then c :: dash_runs false s
      else if inside then dash_runs true s else dash :: dash_runs true s
  end.

(** [re.sub(r"-{2,}", "-", s)] *)
Fixpoint squeeze (after_dash : bool) (s : text) : text :=
  match s with
  | [] => []
  | c :: s =>
      if Ascii.eqb c dash then if after_dash then squeeze true s else c :: squeeze true s
      else c :: squeeze false s
  end.

(** [s.strip("-")] *)
Fixpoint lstrip_dash (s : text) : text :=
  match s with c :: s' => if Ascii.eqb c dash then lstrip_dash s' else s | [] => [] end.
Definition strip_dash (s : text) : text := reverse (lstrip_dash (reverse (lstrip_dash s))).

Definition merge_namespace (name : string) : string :=
  match strip_dash (squeeze false (dash_runs false (chars name))) with
  | [] => "pack"
  | ns => str_of ns
  end.

(** How often [ns] occurs. *)
Definition occurrences (ns : string) (l : list string) : nat :=
  length (List.filter (fun x => bool_decide (x = ns)) l).

Definition merge_pack_namespaces (pairs : list (string * Z)) : result (list string) :=
  let base := merge_namespace ∘ fst <$> pairs in
  let out := (fun p : string * Z =>
    let ns := merge_namespace p.1 in
    if Nat.eqb (occurrences ns base) 1 then ns else ns +:+ "-" +:+ pretty p.2) <$> pairs in
  if bool_decide (NoDup out) then Ok out else Raise (BundleError "cannot derive unique merge namespaces").

(** ** Sample files *)

(** [rel.replace("/", "--")] *)
Definition flatten (rel : string) : string :=
  str_of (concat ((fun c => if Ascii.eqb c "/"%char then chars MERGE_SEP else [c]) <$> chars rel)).

Definition merged_name (ns rel : string) : string := ns +:+ MERGE_SEP +:+ flatten rel.

(** The part before and the part after the last colon. *)
Fixpoint rsplit_colon (s : text) : option (text * text) :=
  match s with
  | [] => None
  | c :: s =>
      match rsplit_colon s with
      | Some (a, b) => Some (c :: a, b)
      | None => if Ascii.eqb c ":"%char then Some ([], s) else None
      end
  end.

(** The path and the column of a token's file reference. *)
Definition split_column (raw : text) : text * option text :=
  match rsplit_colon raw with
  | Some (path, column) =>
      match int_of_string (str_of column) with Some _ => (path, Some column) | None => (raw, None) end
  | None => (raw, None)
  end.

Definition rewrite_sample_ref (ns : string) (tree : list string) (value : string) : string :=
  let raw := strip_chars (chars value) in
  match raw with
  | [] => value
  | _ =>
      let '(path, column) := split_column raw in
      let norm := match strip_prefix (chars "./") path with Some rest => rest | None => path end in
      let rel :=
        match strip_prefix (chars "samples/") norm with
        | Some rest => Some (str_of rest)
        | None => if has_char "/"%char norm then None
                  else if bool_decide (str_of norm ∈ tree) then Some (str_of norm) else None
        end in
      match rel with
      | Some rel =>
          if bool_decide (rel ∈ tree) then
            "samples/" +:+ merged_name ns rel
              +:+ match column with Some c => ":" +:+ str_of c | None => "" end
          else value
      | None => value
      end
  end.

(** ** Stanzas *)

(** [d.update(e)] *)
Definition oupdate (d e : options) : options := foldl (fun d kv => oset kv.1 kv.2 d) d e.

(** [dict(parser.items(section))] *)
Definition items (c : conf) (s : string) : options := oupdate (cf_defaults c) (section c s).

(** [if d.get(k): d[k] = f(d[k])] *)
Definition rewrite_key (f : string -> string) (k : string) (d : options) : options :=
  match oget k d with Some (Some v) => if nonempty v then oset k (Some (f v)) d else d | _ => d end.

(** The key of the replacement a file token reads; [None] for other keys. *)
Definition replacement_key (d : options) (key : string) : option string :=
  match strip_prefix (reverse (chars ".replacementType")) (reverse (chars key)) with
  | Some stem =>
      match oget key d with
      | Some (Some v) =>
          if bool_decide (py_strip v ∈ FILE_TOKEN_TYPES)
          then Some (str_of (reverse stem) +:+ ".replacement") else None
      | _ => None
      end
  | None => None
  end.

Definition merged_stanza_options (c : conf) (s : string) (pack_globals : options) (ns : string)
    (tree : list string) : options :=
  let f := rewrite_sample_ref ns tree in
  let merged := rewrite_key f "sampleFile" (oupdate pack_globals (items c s)) in
  foldl (fun d key =>
           match replacement_key d key with Some k => rewrite_key f k d | None => d end)
    merged (fst <$> merged).

Definition pack_globals (c : conf) : options :=
  foldl (fun d s => if bool_decide (py_lower s ∈ GLOBAL_SECTIONS) then oupdate d (items c s) else d)
    [] (sections c).

Section Merge.
Context {R : Rounding} (repr_float : Q -> string) (private_host compiles : string -> bool).

(** ** Weights and estimates *)

(** [_as_float(options.get(k))] *)
Definition option_float (d : options) (k : string) : option Q :=
  match oget k d with Some (Some v) => float_of_string v | _ => None end.

Definition stanza_raw_eps (d : options) : option Q :=
  match option_float d "count" with
  | Some count =>
      if Qle_bool count 0 then None
      else
        let step := match option_float d "interval" with
                    | Some i => if Qle_bool i 0 then EVENTGEN_DEFAULT_INTERVAL_S else i
                    | None => EVENTGEN_DEFAULT_INTERVAL_S
                    end in
        Some (fdiv count step)
  | None => None
  end.

Definition fill_weights (raw : list (option Q)) : list Q :=
  let declared := omap (M := list) id raw in
  let fill := match declared with
              | [] => 1%Q
              | _ => fdiv (fsum declared) (rnd (inject_Z (Z.of_nat (length declared))))
              end in
  default fill <$> raw.

Definition stanza_bytes_per_event (pd : pack_dir) (lint : LintResult) (c : conf) (s : string) : option Q :=
  match lt_declared_bytes_per_event lint with
  | Some b => Some b
  | None => match sample_mean pd c s with Some m => Some m | None => lt_est_bytes_per_event lint end
  end.

(** The weighted mean over the stanzas whose size is known. *)
Definition weighted_bytes (weights : list Q) (bpes : list (option Q)) : option Q :=
  let known := omap (M := list) (fun wb : Q * option Q => (fun b => (wb.1, b)) <$> wb.2)
                 (zip weights bpes) in
  let num := fsum ((fun wb => fmul wb.1 wb.2) <$> known) in
  let den := fsum (fst <$> known) in
  if Qle_bool den 0 then None else Some (round_digits 100 (fdiv num den)).

Definition parse_eventgen_pack_for_merge (pd : pack_dir) : result (LintResult * conf) :=
  lint ← lint_pack repr_float private_host compiles pd;
  if negb (bool_decide (lint_engine lint = "eventgen"))
  then Raise (BundleError "only eventgen packs can be merged into a multi-pack bundle")
  else if negb (lt_ok lint) then Raise (BundleError "pack failed lint")
  else
    match pd_conf pd with
    | Some (Some c) =>
        if existsb (fun s => bool_decide (stanza_mode c s = "replay")) (sample_sections c)
        then Raise (BundleError "replay stanzas cannot be merged into a multi-pack bundle")
        else Ok (lint, c)
    | _ => Raise (BundleError "pack failed lint")
    end.

(** One pack of the estimate: the declared rates and the sizes of its stanzas. *)
Definition pack_estimates (pd : pack_dir) (lint : LintResult) (c : conf)
    : list (option Q) * list (option Q) :=
  ((fun s => stanza_raw_eps (items c s)) <$> sample_sections c,
   stanza_bytes_per_event pd lint c <$> sample_sections c).

Definition merged_est_bytes_per_event (pds : list pack_dir) : result (option Q) :=
  match map_result (fun pd => lc ← parse_eventgen_pack_for_merge pd;
                              Ok (pack_estimates pd (lc : LintResult * conf).1 lc.2)) pds with
  | Raise (BundleError _) => Ok None
  | Raise e => Raise e
  | Ok parts =>
      let raw := concat (fst <$> parts) in
      match raw with
      | [] => Ok None
      | _ => Ok (weighted_bytes (fill_weights raw) (concat (snd <$> parts)))
      end
  end.

(** ** The merged bundle *)

(** One pack's part: its stanzas, the names of its files, and its estimates. *)
Record part : Type := mkPart {
  pt_sections : list (string * options);
  pt_files : list (string * string);            (* merged name, path under samples/ *)
  pt_raw_eps : list (option Q);
  pt_bpes : list (option Q);
  pt_sourcetypes : list doc;
  pt_per_day_gb : option Q;
}.

Definition merge_part (ns : string) (pd : pack_dir) : result part :=
  lc ← parse_eventgen_pack_for_merge pd;
  let '(lint, c) := lc : LintResult * conf in
  let globals := pack_globals c in
  let stanza s := (ns +:+ MERGE_SEP +:+ s, merged_stanza_options c s globals ns (pd_tree pd)) in
  let ss := stanza <$> sample_sections c in
  Ok (mkPart ss ((fun rel => (merged_name ns rel, rel)) <$> pd_tree pd)
        (stanza_raw_eps ∘ snd <$> ss)
        (stanza_bytes_per_event pd lint c <$> sample_sections c)
        (lt_sourcetypes lint) (lt_declared_per_day_gb lint)).

(** Inputs in the order of their namespaces. *)
Definition ns_le (x y : string * pack_dir) : Prop := String.leb x.1 y.1 = true.
Global Instance ns_le_dec : RelDecision ns_le.
Proof. intros x y. unfold ns_le. apply _. Defined.

(** The merged directory, as the final lint reads it. *)
Definition merged_dir (c : conf) (files : list (string * list text)) : pack_dir :=
  let under n := aget n files in
  mkDir true "mergedpack" None None (Some (Some c)) (fst <$> files) under
    (fun n => match strip_prefix (chars "samples/") (chars n) with Some rest => under (str_of rest) | None => None end)
    (fun _ => Missing) false.

(** The lines of a part's files. *)
Definition part_files (pd : pack_dir) (p : part) : list (string * list text) :=
  (fun f => (f.1, default [] (pd_samples pd f.2))) <$> pt_files p.

Definition add_gb (total one : option Q) : option Q :=
  match one with Some g => Some (fadd (default 0%Q total) g) | None => total end.

(** The bundle's conf, its files under samples/ with their lines, and its manifest,
    less the manifest's provenance entry. *)
Definition build_from_packs (inputs : list (string * pack_dir)) : result (conf * list (string * list text) * config) :=
  if (length inputs <? 2)%nat then Raise (BundleError "a multi-pack bundle needs at least two packs")
  else if negb (bool_decide (NoDup (fst <$> inputs))) then Raise (BundleError "multi-pack namespaces must be unique")
  else
    let ordered := merge_sort ns_le inputs in
    parts ← map_result (fun np => merge_part np.1 np.2) ordered;
    let files := concat (pt_files <$> parts) in
    if negb (bool_decide (NoDup (fst <$> files))) then Raise (BundleError "merged sample name collision")
    else
      let merged := mkConf [] (concat (pt_sections <$> parts)) in
      let estimates :=
        num_field "bytes_per_event"
          (weighted_bytes (fill_weights (concat (pt_raw_eps <$> parts))) (concat (pt_bpes <$> parts)))
        ++ num_field "per_day_gb" (foldl (fun t p => add_gb t (pt_per_day_gb p)) None parts) in
      let samples := concat (zip_with (fun np p => part_files np.2 p) ordered parts) in
      lint ← lint_pack repr_float private_host compiles (merged_dir merged samples);
      if negb (lt_ok lint) then Raise (BundleError "merged pack failed lint (merge bug)")
      else
        Ok (merged, samples,
            [("name", DStr (String.concat "+" (fst <$> ordered)));
             ("engine", DStr "eventgen");
             ("estimates", DObj estimates);
             ("stanzas", DList (DStr <$> sections merged));
             ("sourcetypes", DList (DStr <$> unique (omap (fun d => match d with DStr s => Some s | _ => None end)
                                                       (concat (pt_sourcetypes <$> parts)))))]).
End Merge.

(** ** Namespaces keep names apart *)

Section Apart.

Lemma chars_app s t : chars (s +:+ t) = chars s ++ chars t.
Proof. induction s as [|c s IH]; [done|].
  change (c :: chars (s +:+ t) = c :: chars s ++ chars t). by f_equal.
Qed.

Lemma chars_str_of t : chars (str_of t) = t.
Proof. apply String.list_ascii_of_string_of_list_ascii. Qed.

Lemma chars_inj s t : chars s = chars t -> s = t.
Proof.
  intros H. rewrite <- (String.string_of_list_ascii_of_string s), H. apply String.string_of_list_ascii_of_string.
Qed.

(** No two dashes in a row. *)
Definition single_dashes (t : text) : Prop := forall a b, t <> a ++ dash :: dash :: b.

Record tidy (t : text) : Prop := {
  td_double : single_dashes t;
  td_last : last t <> Some dash;
}.

(** A prefix that is tidy is recovered from what it prefixes. *)
Lemma tidy_apart ns ns' x y : tidy ns -> tidy ns' ->
  ns ++ chars MERGE_SEP ++ x = ns' ++ chars MERGE_SEP ++ y -> ns = ns' /\ x = y.
Proof.
  assert (forall ns ns' x y, tidy ns -> ns ++ chars MERGE_SEP ++ x = ns' ++ chars MERGE_SEP ++ y ->
    forall k, ns = ns' ++ k -> k = []) as H.
  { intros ns1 ns2 x1 y1 [Hd Hl] E k ->. rewrite <- app_assoc in E. apply app_inv_head in E.
    destruct k as [|c [|d k]]; [done|exfalso..]; cbn in E.
    - injection E as -> _. apply Hl. by rewrite last_snoc.
    - injection E as -> -> _. by apply (Hd ns2 k). }
  intros Ht Ht' E. pose proof E as E2. apply app_eq_inv in E2 as [(k & Ek & _)|(k & Ek & _)].
  - rewrite (H _ _ _ _ Ht E k Ek), app_nil_r in Ek. subst. by apply app_inv_head, app_inv_head in E.
  - rewrite (H _ _ _ _ Ht' (eq_sym E) k Ek), app_nil_r in Ek. subst. by apply app_inv_head, app_inv_head in E.
Qed.

(** [squeeze] leaves single dashes. *)
Lemma squeeze_dashes s : forall after,
  single_dashes (squeeze after s) /\ (after = true -> head (squeeze after s) <> Some dash).
Proof.
  assert (forall c t, single_dashes t -> (c = dash -> head t <> Some dash) -> single_dashes (c :: t)) as Hcons.
  { intros c t Ht Hc [|c' a] b E; cbn in E; injection E as -> E; [|by apply (Ht a b)].
    apply Hc; [done|]. by rewrite E. }
  assert (single_dashes []) as Hnil by (intros [|? ?] ? E; discriminate E).
  induction s as [|c s IH]; intros after; cbn [squeeze]; [done|].
  destruct (Ascii.eqb_spec c dash) as [->|Hc].
  - destruct (IH true) as [H1 H2]. destruct after; [done|]. split; [|done]. apply Hcons; auto.
  - destruct (IH false) as [H1 _]. split; [by apply Hcons|]. intros _ [= ?]. done.
Qed.

Lemma lstrip_dash_suffix t : exists p, t = p ++ lstrip_dash t.
Proof.
  induction t as [|c t [p E]]; [by exists []|]. cbn. destruct (Ascii.eqb c dash); [|by exists []].
  exists (c :: p). cbn. by f_equal.
Qed.

Lemma lstrip_dash_head t : head (lstrip_dash t) <> Some dash.
Proof.
  induction t as [|c t IH]; [done|]. cbn. destruct (Ascii.eqb_spec c dash) as [->|Hc]; [done|].
  cbn. congruence.
Qed.

Lemma single_dashes_suffix p t : single_dashes (p ++ t) -> single_dashes t.
Proof. intros H a b ->. apply (H (p ++ a) b). by rewrite app_assoc. Qed.

Lemma single_dashes_reverse t : single_dashes t -> single_dashes (reverse t).
Proof.
  intros H a b E. apply (f_equal reverse) in E. rewrite reverse_involutive in E.
  rewrite reverse_app, !reverse_cons, <- !app_assoc in E. cbn in E. by apply (H (reverse b) (reverse a)).
Qed.

Lemma strip_dash_tidy t : single_dashes t -> tidy (strip_dash t).
Proof.
  intros H. unfold strip_dash. destruct (lstrip_dash_suffix t) as [p E].
  set (u := lstrip_dash t) in *.
  assert (single_dashes u) as Hu by (apply (single_dashes_suffix p); by rewrite <- E).
  apply single_dashes_reverse in Hu. destruct (lstrip_dash_suffix (reverse u)) as [q Eq].
  split.
  - apply single_dashes_reverse. apply (single_dashes_suffix q). by rewrite <- Eq.
  - pose proof (lstrip_dash_head (reverse u)) as Hh.
    destruct (lstrip_dash (reverse u)) as [|c v]; [done|]. rewrite reverse_cons, last_snoc. exact Hh.
Qed.

Lemma merge_namespace_tidy name : tidy (chars (merge_namespace name)).
Proof.
  unfold merge_namespace. pose proof (squeeze_dashes (dash_runs false (chars name)) false) as [H _].
  apply strip_dash_tidy in H. destruct (strip_dash _) as [|c t]; [|by rewrite chars_str_of].
  split; [|done]. intros a b E. apply (f_equal (existsb (Ascii.eqb dash))) in E.
  rewrite existsb_app in E. cbn in E. by rewrite orb_true_r in E.
Qed.

(** A pack id after a namespace. *)
Lemma numbered_tidy ns z : tidy ns -> 0 <= z -> tidy (ns ++ dash :: chars (pretty z)).
Proof.
  intros [Hd Hl] Hz. destruct (pretty_digits z Hz) as (ds & Hds & Hne & _ & ->).
  assert (dash ∉ ds) as Hno.
  { intros Hin. unfold all_digits in Hds. rewrite Forall_forall in Hds. by destruct (Hds _ Hin) as [? [=]]. }
  split.
  - intros a b E. apply app_eq_inv in E as [(k & Ek & E)|(k & Ek & E)].
    + destruct k as [|c [|d k]]; cbn in E; [|injection E as <- E|injection E as <- <- _].
      * rewrite app_nil_r in Ek. injection E as E. apply Hno. rewrite <- E. left.
      * apply Hl. rewrite Ek. by rewrite last_snoc.
      * by apply (Hd a k).
    + destruct k as [|c k]; cbn in E; [injection E as E|injection E as _ E]; apply Hno; rewrite E; [left|set_solver].
  - rewrite last_app_cons. destruct ds as [|d ds] using rev_ind; [done|]. clear IHds.
    rewrite app_comm_cons, last_snoc. intros [= ->]. set_solver.
Qed.
End Apart.

(** ** The merged conf *)

Section Facts.

Lemma namespaces_tidy pairs nss : Forall (fun p => 0 <= p.2) pairs ->
  merge_pack_namespaces pairs = Ok nss -> NoDup nss /\ Forall (fun ns => tidy (chars ns)) nss.
Proof.
  intros Hk. unfold merge_pack_namespaces. case_bool_decide as Hn; [|done]. intros [= <-]. split; [done|].
  apply Forall_fmap. eapply Forall_impl; [exact Hk|]. intros [name key] H. cbn in *.
  destruct (Nat.eqb _ _); [apply merge_namespace_tidy|].
  rewrite !chars_app. apply (numbered_tidy (chars (merge_namespace name)) key); [|done].
  apply merge_namespace_tidy.
Qed.

(** The merged name of a stanza. *)
Definition merged_stanza (ns s : string) : string := ns +:+ MERGE_SEP +:+ s.

Lemma merged_stanza_inj ns ns' s s' : tidy (chars ns) -> tidy (chars ns') ->
  merged_stanza ns s = merged_stanza ns' s' -> ns = ns' /\ s = s'.
Proof.
  intros H H' E. apply (f_equal chars) in E. unfold merged_stanza in E. rewrite !chars_app in E.
  apply tidy_apart in E as [E1 E2]; [|done..]. split; by apply chars_inj.
Qed.

Lemma merged_not_global ns s : py_lower (merged_stanza ns s) ∉ GLOBAL_SECTIONS.
Proof.
  intros H. assert (dash ∈ chars (py_lower (merged_stanza ns s))) as Hd.
  { unfold py_lower, merged_stanza. rewrite chars_str_of, !chars_app, !fmap_app.
    apply elem_of_app. right. apply elem_of_app. left. vm_compute. left. }
  unfold GLOBAL_SECTIONS in H.
  apply elem_of_cons in H as [E|[E|[]%elem_of_nil]%elem_of_cons]; rewrite E in Hd;
    apply list_elem_of_In in Hd; cbn in Hd; intuition discriminate.
Qed.

(** ** One stanza's options *)

Definition keys_once (d : options) : Prop := NoDup (fst <$> d).

Lemma oset_keys k v d : fst <$> oset k v d = if bool_decide (k ∈ fst <$> d) then fst <$> d else (fst <$> d) ++ [k].
Proof.
  induction d as [|[k' v'] d IH]; [done|]. cbn [oset].
  destruct (bool_decide_reflect (k' = k)) as [->|Hne]; cbn [fmap list_fmap fst].
  - rewrite bool_decide_true by left. done.
  - change (list_fmap _ _ fst ?l) with (fst <$> l). rewrite IH.
    destruct (bool_decide_reflect (k ∈ fst <$> d)) as [Hin|Hin].
    + by rewrite bool_decide_true by (by right).
    + rewrite bool_decide_false; [done|]. intros [?|?]%elem_of_cons; congruence.
Qed.

Lemma keys_once_oset k v d : keys_once d -> keys_once (oset k v d).
Proof.
  unfold keys_once. intros H. rewrite oset_keys. case_bool_decide; [done|].
  apply NoDup_app. split; [done|]. split; [|apply NoDup_singleton]. set_solver.
Qed.

Lemma oget_oupdate k d e : keys_once e ->
  oget k (oupdate d e) = match oget k e with Some v => Some v | None => oget k d end.
Proof.
  unfold oupdate. revert d. induction e as [|[k' v'] e IH]; intros d; [done|].
  intros [Hk He]%NoDup_cons. cbn [foldl fst snd]. rewrite IH, oget_cons, oget_oset by done.
  destruct (bool_decide_reflect (k' = k)) as [->|]; [|done].
  assert (oget k e = None) as -> by (by apply oget_keys). done.
Qed.

Lemma keys_once_oupdate d e : keys_once d -> keys_once (oupdate d e).
Proof.
  unfold oupdate. revert d. induction e as [|[k v] e IH]; intros d Hd; [done|]. cbn. by apply IH, keys_once_oset.
Qed.

(** Dicts hold each key once. *)
Record wf_pack (c : conf) : Prop := {
  wp_sections : wf_conf c;
  wp_defaults : keys_once (cf_defaults c);
  wp_options : forall s, keys_once (section c s);
}.

Lemma oget_items c s k : wf_pack c -> oget k (items c s) = cget c s k.
Proof. intros H. unfold items. rewrite oget_oupdate by apply H. done. Qed.

(** The value a stanza has for a key in its own pack. *)
Definition own_value (c : conf) (s : string) (k : string) : option (option string) :=
  match cget c s k with Some v => Some v | None => oget k (pack_globals c) end.

(** A reference to a file of the pack: the sample file, and the replacement of a token
    whose type is one of a file. *)
Definition token_reference (value : string -> option (option string)) (k : string) : bool :=
  match strip_prefix (reverse (chars ".replacement")) (reverse (chars k)) with
  | Some stem =>
      match value (str_of (reverse stem) +:+ ".replacementType") with
      | Some (Some t) => bool_decide (py_strip t ∈ FILE_TOKEN_TYPES)
      | _ => false
      end
  | None => false
  end.
Definition file_reference (value : string -> option (option string)) (k : string) : bool :=
  bool_decide (k = "sampleFile") || token_reference value k.

Lemma oget_rewrite_key f k k' d : k' <> k -> oget k' (rewrite_key f k d) = oget k' d.
Proof.
  intros Hne. unfold rewrite_key. destruct (oget k d) as [[v|]|]; [|done|done].
  destruct (nonempty v); [|done]. by rewrite oget_oset, bool_decide_false.
Qed.

Lemma strip_prefix_self p l : strip_prefix p (p ++ l) = Some l.
Proof. induction p as [|c p IH]; [done|]. cbn. by rewrite Ascii.eqb_refl. Qed.

Lemma strip_prefix_some p l m : strip_prefix p l = Some m -> l = p ++ m.
Proof.
  revert l. induction p as [|c p IH]; intros l; [by intros [= ->]|]. destruct l as [|d l]; [done|].
  cbn. destruct (Ascii.eqb_spec c d) as [->|]; [|done]. intros H%IH. by rewrite H.
Qed.

Lemma replacement_key_inv d key k : replacement_key d key = Some k ->
  exists stem v, key = str_of (reverse stem) +:+ ".replacementType" /\ k = str_of (reverse stem) +:+ ".replacement" /\
    oget key d = Some (Some v) /\ py_strip v ∈ FILE_TOKEN_TYPES.
Proof.
  unfold replacement_key. destruct (strip_prefix _ _) as [stem|] eqn:E; [|done].
  destruct (oget key d) as [[v|]|] eqn:Ev; [|done|done]. case_bool_decide; [|done]. intros [= <-].
  exists stem, v. split_and!; [|done|done|done]. apply strip_prefix_some in E. apply chars_inj.
  rewrite chars_app, chars_str_of. apply (f_equal reverse) in E. by rewrite reverse_involutive, reverse_app, reverse_involutive in E.
Qed.

Lemma replacement_key_of d stem v : oget (str_of (reverse stem) +:+ ".replacementType") d = Some (Some v) ->
  py_strip v ∈ FILE_TOKEN_TYPES ->
  replacement_key d (str_of (reverse stem) +:+ ".replacementType") = Some (str_of (reverse stem) +:+ ".replacement").
Proof.
  intros Ho Hv. unfold replacement_key. rewrite chars_app, chars_str_of, reverse_app, reverse_involutive, strip_prefix_self, Ho.
  by rewrite bool_decide_true.
Qed.

(** The keys of types are not keys of replacements. *)
Lemma type_not_replacement s t : s +:+ ".replacementType" <> t +:+ ".replacement".
Proof.
  intros E. assert (last (chars (s +:+ ".replacementType")) = last (chars (t +:+ ".replacement"))) as H by (by rewrite E).
  rewrite !chars_app in H. cbn in H. rewrite !last_app_cons in H. done.
Qed.

(** [if d.get(k): d[k] = f(d[k])] on the value. *)
Definition rewritten (f : string -> string) (o : option (option string)) : option (option string) :=
  match o with Some (Some v) => if nonempty v then Some (Some (f v)) else o | _ => o end.

Lemma oget_rewritten f k d : oget k (rewrite_key f k d) = rewritten f (oget k d).
Proof.
  unfold rewrite_key, rewritten. destruct (oget k d) as [[v|]|] eqn:E; [|done|done].
  destruct (nonempty v); [|done]. by rewrite oget_oset, bool_decide_true.
Qed.

Lemma replacement_key_keep f d key key' k : replacement_key d key = Some k ->
  replacement_key (rewrite_key f k d) key' = replacement_key d key'.
Proof.
  intros (stem & v & _ & -> & _)%replacement_key_inv. unfold replacement_key.
  destruct (strip_prefix _ (reverse (chars key'))) as [stem'|] eqn:E; [|done]. rewrite oget_rewrite_key; [done|].
  apply strip_prefix_some in E. apply (f_equal reverse) in E. rewrite reverse_involutive, reverse_app, reverse_involutive in E.
  replace key' with (str_of (reverse stem') +:+ ".replacementType"); [apply type_not_replacement|].
  apply chars_inj. by rewrite chars_app, chars_str_of.
Qed.

(** The loop over the token types rewrites each replacement once. *)
Lemma oget_token_loop f keys k : forall d, NoDup keys ->
  oget k (foldl (fun d key => match replacement_key d key with Some k => rewrite_key f k d | None => d end) d keys)
  = if existsb (fun key => bool_decide (replacement_key d key = Some k)) keys then rewritten f (oget k d) else oget k d.
Proof.
  induction keys as [|key keys IH]; intros d Hn; [done|]. apply NoDup_cons in Hn as [Hnot Hn]. cbn [foldl existsb].
  rewrite IH by done. destruct (replacement_key d key) as [k1|] eqn:E1; [|by rewrite bool_decide_false].
  assert (existsb (fun key0 => bool_decide (replacement_key (rewrite_key f k1 d) key0 = Some k)) keys
    = existsb (fun key0 => bool_decide (replacement_key d key0 = Some k)) keys) as ->.
  { clear -E1. induction keys as [|a keys IH]; [done|]. cbn. by rewrite IH, (replacement_key_keep f d key a k1 E1). }
  destruct (decide (k1 = k)) as [->|Hne].
  - rewrite (bool_decide_true (Some k = Some k)) by done. cbn [orb]. rewrite oget_rewritten.
    replace (existsb _ keys) with false; [done|]. symmetry. apply not_true_is_false. rewrite existsb_exists.
    intros (key2 & Hin%list_elem_of_In & E2%bool_decide_eq_true). apply Hnot. enough (key = key2) by (by subst).
    apply replacement_key_inv in E1 as (st1 & v1 & -> & Ek & _), E2 as (st2 & v2 & -> & Ek2 & _).
    rewrite Ek in Ek2. apply (f_equal chars) in Ek2. rewrite !chars_app, !chars_str_of in Ek2. apply app_inv_tail in Ek2.
    by rewrite Ek2.
  - rewrite (bool_decide_false (Some k1 = Some k)) by congruence. cbn [orb]. by rewrite oget_rewrite_key by congruence.
Qed.

Lemma token_loop_spec d k : existsb (fun key => bool_decide (replacement_key d key = Some k)) (fst <$> d)
  = token_reference (fun k => oget k d) k.
Proof.
  unfold token_reference. apply eq_bool_prop_intro. rewrite !Is_true_true, existsb_exists. split.
  - intros (key & _ & E%bool_decide_eq_true). apply replacement_key_inv in E as (stem & v & -> & -> & Ho & Hv).
    rewrite chars_app, chars_str_of, reverse_app, reverse_involutive, strip_prefix_self, Ho. by apply bool_decide_true.
  - destruct (strip_prefix _ _) as [stem|] eqn:E; [|done]. destruct (oget _ d) as [[v|]|] eqn:Ho; [|done|done].
    intros Hv%bool_decide_eq_true. exists (str_of (reverse stem) +:+ ".replacementType"). split.
    + apply list_elem_of_In. destruct (decide (str_of (reverse stem) +:+ ".replacementType" ∈ fst <$> d)) as [|Hno]; [done|].
      apply oget_keys in Hno. congruence.
    + apply bool_decide_eq_true. rewrite (replacement_key_of d stem v) by done. f_equal.
      apply strip_prefix_some in E. apply (f_equal reverse) in E. rewrite reverse_involutive, reverse_app, reverse_involutive in E.
      apply chars_inj. by rewrite chars_app, chars_str_of.
Qed.

Lemma pack_globals_once c : wf_pack c -> keys_once (pack_globals c).
Proof.
  intros _. unfold pack_globals. assert (keys_once []) as H by constructor. revert H. generalize (@nil (string * option string)).
  induction (sections c) as [|s l IH]; intros d Hd; [done|]. cbn [foldl]. apply IH. case_bool_decide; [by apply keys_once_oupdate|done].
Qed.

(** Every key of a merged stanza. *)
Lemma merged_options_get c s ns tree k : wf_pack c ->
  oget k (merged_stanza_options c s (pack_globals c) ns tree)
  = if file_reference (own_value c s) k then rewritten (rewrite_sample_ref ns tree) (own_value c s k) else own_value c s k.
Proof.
  intros Hwf. unfold merged_stanza_options. set (f := rewrite_sample_ref ns tree). set (d0 := oupdate _ _).
  assert (forall j, oget j d0 = own_value c s j) as H0.
  { intros j. subst d0. rewrite oget_oupdate by (apply keys_once_oupdate, Hwf). by rewrite oget_items. }
  assert (keys_once (rewrite_key f "sampleFile" d0)) as Hk.
  { unfold rewrite_key. assert (keys_once d0) as Hd by (by apply keys_once_oupdate, pack_globals_once).
    destruct (oget _ d0) as [[v|]|]; [|done|done]. destruct (nonempty v); [by apply keys_once_oset|done]. }
  rewrite oget_token_loop by done. rewrite token_loop_spec. unfold file_reference.
  assert (token_reference (fun j => oget j (rewrite_key f "sampleFile" d0)) k = token_reference (own_value c s) k) as ->.
  { unfold token_reference. destruct (strip_prefix _ _) as [stem|]; [|done]. rewrite oget_rewrite_key, H0; [done|].
    intros E. apply (f_equal (fun x => strip_prefix (reverse (chars ".replacementType")) (reverse (chars x)))) in E.
    by rewrite chars_app, reverse_app, strip_prefix_self in E. }
  destruct (bool_decide_reflect (k = "sampleFile")) as [->|Hne]; cbn [orb].
  - change (token_reference (own_value c s) "sampleFile") with false. by rewrite oget_rewritten, H0.
  - by rewrite oget_rewrite_key, H0.
Qed.

(** ** Reading a conf without defaults *)

Lemma section_elem c n opts : cf_defaults c = [] -> NoDup (sections c) -> (n, opts) ∈ cf_sections c ->
  forall k, cget c n k = oget k opts.
Proof.
  intros Hd Hn Hin k. unfold cget, section. rewrite Hd.
  assert (List.find (fun sd => bool_decide (sd.1 = n)) (cf_sections c) = Some (n, opts)) as ->.
  { unfold sections in Hn. induction (cf_sections c) as [|[n' o'] l IH]; [by apply elem_of_nil in Hin|].
    cbn [fmap list_fmap fst] in Hn. apply NoDup_cons in Hn as [Hnot Hn]. cbn [List.find fst].
    apply elem_of_cons in Hin as [[= <- <-]|Hin]; [by rewrite bool_decide_true|].
    rewrite bool_decide_false; [by apply IH|]. intros ->. apply Hnot, list_elem_of_fmap. by exists (n, opts). }
  cbn [fmap option_fmap option_map snd default id]. by destruct (oget k opts).
Qed.

Lemma weights_of_sections {R : Rounding} c : cf_defaults c = [] -> NoDup (sections c) ->
  (forall s, s ∈ sections c -> py_lower s ∉ GLOBAL_SECTIONS) ->
  declared_eps_weights c (sample_sections c) = fill_weights (stanza_raw_eps ∘ snd <$> cf_sections c).
Proof.
  intros Hd Hn Hg. assert (sample_sections c = sections c) as ->.
  { unfold sample_sections. induction (sections c) as [|s l IH]; [done|]. cbn [List.filter].
    rewrite bool_decide_false by (apply Hg; left). cbn [negb]. f_equal. apply IH; [by apply NoDup_cons in Hn as [_ ?]|].
    intros. apply Hg. by right. }
  transitivity (fill_weights ((fun s => match get_float c s "count" with
    | Some count =>
        if Qle_bool count 0 then None
        else
          let step := match get_float c s "interval" with
                      | Some i => if Qle_bool i 0 then EVENTGEN_DEFAULT_INTERVAL_S else i
                      | None => EVENTGEN_DEFAULT_INTERVAL_S
                      end in
          Some (fdiv count step)
    | None => None
    end) <$> sections c)); [reflexivity|]. f_equal.
  unfold sections. rewrite <- list_fmap_compose. apply list_fmap_ext. intros i [n opts] Hi.
  apply list_elem_of_lookup_2 in Hi. unfold compose, stanza_raw_eps, option_float, get_float. cbn [fst snd].
  by rewrite !(section_elem c n opts Hd Hn Hi).
Qed.
End Facts.

(** ** The whole merge *)

Section Merged.
Context {R : Rounding} (repr_float : Q -> string) (private_host compiles : string -> bool).

Lemma merge_part_spec ns pd p : merge_part repr_float private_host compiles ns pd = Ok p ->
  exists c, pd_conf pd = Some (Some c) /\
    pt_sections p = (fun s => (merged_stanza ns s, merged_stanza_options c s (pack_globals c) ns (pd_tree pd)))
                      <$> sample_sections c /\
    pt_raw_eps p = stanza_raw_eps ∘ snd <$> pt_sections p /\
    exists lint, lint_pack repr_float private_host compiles pd = Ok lint /\
      pt_bpes p = stanza_bytes_per_event pd lint c <$> sample_sections c /\
      pt_files p = (fun rel => (merged_name ns rel, rel)) <$> pd_tree pd.
Proof.
  unfold merge_part, parse_eventgen_pack_for_merge.
  destruct (lint_pack _ _ _ pd) as [lint|] eqn:El; [|done]. cbn [mbind result_bind].
  destruct (negb _); [done|]. destruct (negb _); [done|].
  destruct (pd_conf pd) as [[c|]|]; [|done|done]. destruct (existsb _ _); [done|].
  cbn [mbind result_bind]. intros [= <-]. exists c. cbn [pt_sections pt_raw_eps pt_bpes].
  split_and!; [done|done|done|]. by exists lint.
Qed.

(** What an input contributes, whatever its place in the order. *)
Definition contributes (np : string * pack_dir) (p : part) : Prop :=
  exists c, pd_conf np.2 = Some (Some c) /\
    pt_sections p = (fun s => (merged_stanza np.1 s,
        merged_stanza_options c s (pack_globals c) np.1 (pd_tree np.2))) <$> sample_sections c /\
    pt_raw_eps p = stanza_raw_eps ∘ snd <$> pt_sections p /\
    exists lint, lint_pack repr_float private_host compiles np.2 = Ok lint /\
      pt_bpes p = stanza_bytes_per_event np.2 lint c <$> sample_sections c /\
      pt_files p = (fun rel => (merged_name np.1 rel, rel)) <$> pd_tree np.2.

Lemma build_spec inputs merged files m : build_from_packs repr_float private_host compiles inputs = Ok (merged, files, m) ->
  exists ordered parts, ordered ≡ₚ inputs /\ Forall2 contributes ordered parts /\
    cf_defaults merged = [] /\ cf_sections merged = concat (pt_sections <$> parts) /\
    files = concat (zip_with (fun np p => part_files np.2 p) ordered parts) /\ NoDup (concat (pt_files <$> parts)).*1 /\
    exists e, dget m "estimates" = DObj e /\
      e = num_field "bytes_per_event"
            (weighted_bytes (fill_weights (concat (pt_raw_eps <$> parts))) (concat (pt_bpes <$> parts)))
          ++ num_field "per_day_gb" (foldl (fun t p => add_gb t (pt_per_day_gb p)) None parts).
Proof.
  unfold build_from_packs. destruct (_ <? _)%nat; [done|]. destruct (negb _); [done|].
  destruct (map_result _ _) as [parts|] eqn:Ep; [|done]. cbn [mbind result_bind].
  case_bool_decide as Hn; [|done]. cbn [negb]. destruct (lint_pack _ _ _ _) as [lint|]; [|done]. cbn [mbind result_bind].
  destruct (negb _); [done|]. intros [= <- <- <-].
  exists (merge_sort ns_le inputs), parts. split; [apply merge_sort_Permutation|].
  split; [|split_and!; [done..|by eexists]].
  apply map_result_Forall2 in Ep. eapply Forall2_impl; [exact Ep|]. intros [ns pd] p H.
  by apply merge_part_spec.
Qed.

Lemma contributes_names np p : contributes np p ->
  forall n, n ∈ fst <$> pt_sections p -> exists s, n = merged_stanza np.1 s.
Proof.
  intros (c & _ & -> & _) n. rewrite <- list_fmap_compose. intros (s & -> & _)%list_elem_of_fmap. by exists s.
Qed.

Lemma contributes_nodup np p : tidy (chars np.1) -> (forall c, pd_conf np.2 = Some (Some c) -> wf_pack c) ->
  contributes np p -> NoDup (fst <$> pt_sections p).
Proof.
  intros Ht Hw (c & Hc & -> & _). rewrite <- list_fmap_compose.
  apply NoDup_fmap_2_strong.
  - intros s s' _ _ E. cbn in E. by apply merged_stanza_inj in E as [_ ->].
  - specialize (Hw c Hc). destruct Hw as [Hs _ _]. unfold sample_sections. apply NoDup_ListNoDup, List.NoDup_filter.
    by apply NoDup_ListNoDup.
Qed.

Lemma sections_nodup ordered parts : NoDup (fst <$> ordered) ->
  Forall (fun np => tidy (chars np.1) /\ forall c, pd_conf np.2 = Some (Some c) -> wf_pack c) ordered ->
  Forall2 contributes ordered parts -> NoDup (fst <$> concat (pt_sections <$> parts)).
Proof.
  intros Hn Hf H. induction H as [|np p ordered parts Hp H IH]; [constructor|].
  apply NoDup_cons in Hn as [Hnot Hn]. apply Forall_cons in Hf as [[Ht Hw] Hf].
  cbn [fmap list_fmap concat]. rewrite fmap_app. apply NoDup_app.
  split; [by apply (contributes_nodup np)|]. split; [|by apply IH].
  intros n Hin Hin'. destruct (contributes_names np p Hp n Hin) as [s Es].
  apply list_elem_of_fmap in Hin' as ([n' o] & En & Hin'). cbn in En. subst n'.
  apply elem_of_concat_fmap in Hin' as (p' & Hp' & Hin').
  apply list_elem_of_lookup in Hp' as [i Hi]. destruct (Forall2_lookup_r _ _ _ _ _ H Hi) as (np' & Hnp & Hc').
  destruct (contributes_names np' p' Hc' n) as [s' Es'].
  { apply list_elem_of_fmap. by exists (n, o). }
  apply list_elem_of_lookup_2 in Hnp. rewrite Forall_forall in Hf. destruct (Hf np' Hnp) as [Ht' _].
  rewrite Es in Es'. apply merged_stanza_inj in Es' as [E _]; [|done..].
  apply Hnot. rewrite E. by apply list_elem_of_fmap_2.
Qed.

Section Whole.
Context (pairs : list (string * Z)) (nss : list string) (pds : list pack_dir) (merged : conf) (files : list (string * list text)) (m : config).
Context (Hkeys : Forall (fun p => 0 <= p.2) pairs) (Hns : merge_pack_namespaces pairs = Ok nss)
  (Hlen : length nss = length pds)
  (Hwf : Forall (fun pd => forall c, pd_conf pd = Some (Some c) -> wf_pack c) pds)
  (Hb : build_from_packs repr_float private_host compiles (zip nss pds) = Ok (merged, files, m)).

Lemma whole_spec : exists ordered parts, ordered ≡ₚ zip nss pds /\ Forall2 contributes ordered parts /\
  cf_defaults merged = [] /\ cf_sections merged = concat (pt_sections <$> parts) /\ NoDup (sections merged) /\
  files = concat (zip_with (fun np p => part_files np.2 p) ordered parts) /\ NoDup (concat (pt_files <$> parts)).*1 /\
  exists e, dget m "estimates" = DObj e /\
      e = num_field "bytes_per_event"
            (weighted_bytes (fill_weights (concat (pt_raw_eps <$> parts))) (concat (pt_bpes <$> parts)))
          ++ num_field "per_day_gb" (foldl (fun t p => add_gb t (pt_per_day_gb p)) None parts).
Proof using Hkeys Hns Hlen Hwf Hb.
  destruct (build_spec _ _ _ _ Hb) as (ordered & parts & Hp & Hc & Hd & Hs & Hf & Hnf & He).
  destruct (namespaces_tidy _ _ Hkeys Hns) as [Hn Ht].
  exists ordered, parts. split_and!; [done..| |done|done|done]. unfold sections. rewrite Hs.
  apply (sections_nodup ordered); [| |done].
  - rewrite Hp, fst_zip by lia. done.
  - apply Forall_forall. intros [ns pd] Hin. rewrite Hp in Hin.
    apply elem_of_zip_l in Hin as Hl. apply elem_of_zip_r in Hin as Hr. cbn [fst snd].
    split; [by apply (proj1 (Forall_forall _ _) Ht)|by apply (proj1 (Forall_forall _ _) Hwf)].
Qed.

(** The files of the bundle are those of the packs. *)
Lemma merged_file_iff n lines : (n, lines) ∈ files <->
  exists ns pd rel, (ns, pd) ∈ zip nss pds /\ rel ∈ pd_tree pd /\ n = merged_name ns rel /\ lines = default [] (pd_samples pd rel).
Proof using Hkeys Hns Hlen Hwf Hb.
  destruct whole_spec as (ordered & parts & Hp & Hc & _ & _ & _ & Ef & _). rewrite Ef.
  transitivity (exists ns pd rel, (ns, pd) ∈ ordered /\ rel ∈ pd_tree pd /\ n = merged_name ns rel /\ lines = default [] (pd_samples pd rel)).
  - clear -Hc. induction Hc as [|[ns pd] p ordered parts (c & _ & _ & _ & lint & _ & _ & Ept) _ IH].
    + cbn. split; [by intros []%elem_of_nil|]. by intros (? & ? & ? & []%elem_of_nil & _).
    + cbn [zip_with concat]. rewrite elem_of_app, IH. unfold part_files. cbn [fst snd] in *. rewrite Ept, <- list_fmap_compose, list_elem_of_fmap.
      split.
      * intros [(rel & [= -> ->] & Hr)|(ns' & pd' & rel & Hin & ?)]; [exists ns, pd, rel; split_and!; [left|done..]|].
        exists ns', pd', rel. split; [by right|done].
      * intros (ns' & pd' & rel & [[= -> ->]|Hin]%elem_of_cons & Hr & -> & ->); [left; by exists rel|right; by exists ns', pd', rel].
  - split; intros (ns & pd & rel & Hin & ?); exists ns, pd, rel; (split; [|done]); [by rewrite <- Hp|by rewrite Hp].
Qed.

Lemma merged_files_once : NoDup files.*1.
Proof using Hkeys Hns Hlen Hwf Hb.
  destruct whole_spec as (ordered & parts & _ & Hc & _ & _ & _ & Ef & Hn & _). rewrite Ef.
  replace (concat (zip_with (fun np p => part_files np.2 p) ordered parts)).*1 with (concat (pt_files <$> parts)).*1; [done|].
  clear -Hc. induction Hc as [|np p ordered parts _ _ IH]; [done|]. cbn [zip_with concat fmap list_fmap]. rewrite !fmap_app.
  f_equal; [|exact IH]. unfold part_files. by rewrite <- list_fmap_compose.
Qed.

(** A stanza of the merged conf comes from one stanza of one pack. *)
Lemma merged_section_iff n opts : (n, opts) ∈ cf_sections merged <->
  exists ns pd c s, (ns, pd) ∈ zip nss pds /\ pd_conf pd = Some (Some c) /\ s ∈ sample_sections c /\
    n = merged_stanza ns s /\ opts = merged_stanza_options c s (pack_globals c) ns (pd_tree pd).
Proof using Hkeys Hns Hlen Hwf Hb.
  destruct whole_spec as (ordered & parts & Hp & Hc & _ & Hs & _). rewrite Hs, elem_of_concat_fmap. split.
  - intros (p & Hin & Hx). apply list_elem_of_lookup in Hin as [i Hi].
    destruct (Forall2_lookup_r _ _ _ _ _ Hc Hi) as ([ns pd] & Hnp & c & Ec & Es & _).
    apply list_elem_of_lookup_2 in Hnp. rewrite Hp in Hnp. rewrite Es in Hx.
    apply list_elem_of_fmap in Hx as (s & [= -> ->] & Hin). by exists ns, pd, c, s.
  - intros (ns & pd & c & s & Hin & Ec & Hss & -> & ->). rewrite <- Hp in Hin.
    apply list_elem_of_lookup in Hin as [i Hi].
    destruct (Forall2_lookup_l _ _ _ _ _ Hc Hi) as (p & Hpi & c' & Ec' & Es & _). cbn [fst snd] in *.
    rewrite Ec in Ec'. injection Ec' as <-. exists p. split; [by eapply list_elem_of_lookup_2|].
    rewrite Es. apply list_elem_of_fmap. by exists s.
Qed.
End Whole.
End Merged.

Lemma raw_eps_concat {R : Rounding} (parts : list part) :
  Forall (fun p => pt_raw_eps p = stanza_raw_eps ∘ snd <$> pt_sections p) parts ->
  concat (pt_raw_eps <$> parts) = stanza_raw_eps ∘ snd <$> concat (pt_sections <$> parts).
Proof.
  induction 1 as [|p parts Hp _ IH]; [done|]. cbn [fmap list_fmap concat]. rewrite fmap_app, <- Hp. by f_equal.
Qed.

(** ** A reference to a sample file *)

(** A path without colons, whose last character is not blank. *)
Definition plain_path (rel : string) : Prop :=
  (":"%char ∉ chars rel) /\ exists l d, chars rel = l ++ [d] /\ is_space d = false.
(** The column of a token, or none. *)
Definition column_part (col : string) : Prop := col = "" \/ exists n, 0 <= n /\ col = ":" +:+ pretty n.

Lemma rsplit_none t : ":"%char ∉ t -> rsplit_colon t = None.
Proof.
  induction t as [|c t IH]; [done|]. intros [Hc Ht]%not_elem_of_cons. cbn. rewrite IH by done.
  by destruct (Ascii.eqb_spec c ":"%char) as [->|].
Qed.

Lemma rsplit_last a b : ":"%char ∉ b -> rsplit_colon (a ++ ":"%char :: b) = Some (a, b).
Proof. intros Hb. induction a as [|c a IH]; cbn; [by rewrite rsplit_none by done|by rewrite IH]. Qed.

(** The reference is made of the pack's directory, the path and the column. *)
Lemma split_reference rel col : plain_path rel -> column_part col ->
  exists column, split_column (strip_chars (chars ("samples/" +:+ rel +:+ col))) = (chars ("samples/" +:+ rel), column) /\
    match column with Some c => ":" +:+ str_of c | None => "" end = col.
Proof.
  intros [Hc (l & d & El & Hd)] Hcol.
  assert (forall t e, is_space e = false -> strip_chars (chars "samples/" ++ t ++ [e]) = chars "samples/" ++ t ++ [e]) as Hs.
  { intros t e He. exact (strip_chars_ends "s"%char (chars "amples/" ++ t) e eq_refl He). }
  assert (":"%char ∉ chars "samples/" ++ chars rel) as Hno.
  { rewrite not_elem_of_app. split; [|done]. apply (bool_decide_unpack _). vm_compute. exact I. }
  rewrite !chars_app. destruct Hcol as [->|(n & Hn & ->)].
  - exists None. cbn [chars String.list_ascii_of_string]. rewrite app_nil_r. rewrite El at 1. rewrite Hs by done.
    rewrite <- El. unfold split_column. by rewrite rsplit_none by done.
  - destruct (pretty_digits n Hn) as (ds & Hds & Hne & _ & Es). exists (Some ds).
    assert (":"%char ∉ ds) as Hnd.
    { intros Hin. unfold all_digits in Hds. rewrite Forall_forall in Hds. by destruct (Hds _ Hin) as [? [=]]. }
    rewrite chars_app, Es. change (chars ":") with [":"%char]. cbn [app].
    assert (strip_chars (chars "samples/" ++ chars rel ++ ":"%char :: ds) = (chars "samples/" ++ chars rel) ++ ":"%char :: ds) as ->.
    { destruct ds as [|e ds _] using rev_ind; [done|]. apply Forall_app in Hds as [_ [He _]%Forall_cons].
      apply digit_not in He as [He _]. rewrite app_comm_cons, (app_assoc (chars rel)), Hs by done. by rewrite <- !app_assoc. }
    unfold split_column. rewrite rsplit_last by done.
    assert (str_of ds = pretty n) as Ed by (apply chars_inj; by rewrite chars_str_of).
    rewrite Ed, int_of_pretty by done. done.
Qed.

(** It is moved with its file. *)
Lemma reference_moved ns tree rel col : plain_path rel -> column_part col -> rel ∈ tree ->
  rewrite_sample_ref ns tree ("samples/" +:+ rel +:+ col) = "samples/" +:+ merged_name ns rel +:+ col.
Proof.
  intros Hp Hc Hin. destruct (split_reference rel col Hp Hc) as (column & Es & Ec). unfold rewrite_sample_ref.
  destruct (strip_chars (chars ("samples/" +:+ rel +:+ col))) as [|c0 raw]; cbv zeta; rewrite ?Es.
  { exfalso. cbn in Es. by rewrite chars_app in Es. }
  rewrite chars_app. change (strip_prefix (chars "./") (chars "samples/" ++ chars rel)) with (@None text).
  cbv zeta. cbv iota. rewrite strip_prefix_self.
  assert (str_of (chars rel) = rel) as -> by apply String.string_of_list_ascii_of_string.
  rewrite bool_decide_true by done. by rewrite Ec.
Qed.


(** The size estimate of a stanza of the merged conf: that of the stanza it came
    from. *)
Definition estimate_of {R : Rounding} repr_float private_host compiles (inputs : list (string * pack_dir))
    (n : string) (b : option Q) : Prop :=
  exists ns pd c lint s, (ns, pd) ∈ inputs /\ pd_conf pd = Some (Some c) /\
    lint_pack repr_float private_host compiles pd = Ok lint /\ n = merged_stanza ns s /\
    b = stanza_bytes_per_event pd lint c s.

(** The estimate of a merged bundle is the size of what its workers send.  The
    manifest's bytes per event is the mean of the stanzas' sizes under exactly
    the weights by which a worker splits its rate over the stanzas of the
    merged conf. *)
Theorem merged_estimate_uses_worker_weights {R : Rounding} repr_float private_host compiles pairs nss pds merged files m :
  Forall (fun p => 0 <= p.2) pairs -> merge_pack_namespaces pairs = Ok nss -> length nss = length pds ->
  Forall (fun pd => forall c, pd_conf pd = Some (Some c) -> wf_pack c) pds ->
  build_from_packs repr_float private_host compiles (zip nss pds) = Ok (merged, files, m) ->
  exists e bpes, dget m "estimates" = DObj e /\
    Forall2 (estimate_of repr_float private_host compiles (zip nss pds)) (sections merged) bpes /\
    dfind e "bytes_per_event"
    = DNum <$> weighted_bytes (declared_eps_weights merged (sample_sections merged)) bpes.
Proof.
  intros Hk Hn Hl Hw Hb.
  destruct (whole_spec _ _ _ _ _ _ _ _ _ Hk Hn Hl Hw Hb) as (ordered & parts & Hp & Hc & Hd & Hs & Hnd & _ & _ & e & Ee & ->).
  pose proof (merged_section_iff _ _ _ _ _ _ _ _ _ Hk Hn Hl Hw Hb) as Hiff.
  eexists _, (concat (pt_bpes <$> parts)). split; [exact Ee|].
  assert (declared_eps_weights merged (sample_sections merged) = fill_weights (concat (pt_raw_eps <$> parts))) as ->.
  { rewrite weights_of_sections; [|done|done|].
    - rewrite raw_eps_concat; [by rewrite Hs|]. apply Forall_forall. intros p Hin.
      apply list_elem_of_lookup in Hin as [i Hi].
      by destruct (Forall2_lookup_r _ _ _ _ _ Hc Hi) as (np & _ & c & _ & _ & ? & _).
    - intros n Hin. unfold sections in Hin. apply list_elem_of_fmap in Hin as ([n' o] & -> & Hin).
      apply Hiff in Hin as (ns & pd & c & s & _ & _ & _ & -> & _). apply merged_not_global. }
  split.
  - unfold sections. rewrite Hs. assert (forall np, np ∈ ordered -> np ∈ zip nss pds) as Hin by (intros; by rewrite <- Hp).
    clear -Hc Hin. induction Hc as [|[ns pd] p ordered parts (c & Ec & Es & _ & lint & El & Eb & _) Hc IH]; [constructor|].
    cbn [fmap list_fmap concat]. rewrite fmap_app. apply Forall2_app; [|apply IH; intros; apply Hin; by right].
    rewrite Es, Eb, <- list_fmap_compose. apply Forall2_fmap, Forall_Forall2_diag, Forall_forall.
    intros s _. exists ns, pd, c, lint, s. split_and!; [apply Hin; left|done..].
  - destruct (weighted_bytes _ _); [reflexivity|]. cbn. by destruct (foldl _ _ _).
Qed.

(** ** Witnesses *)

Section Witnesses.
Local Instance merge_rounding : Rounding := binary64.

Definition eventgen_dir (name : string) (c : conf) (samples : list string) : pack_dir :=
  mkDir true name None None (Some (Some c)) samples
    (fun n => if bool_decide (n ∈ samples) then Some [chars "one event"] else None) (fun _ => None)
    (fun _ => Missing) false.

Definition web_conf : conf := mkConf [] [("web.log", [("count", Some "6"); ("interval", Some "2")])].
Definition auth_conf : conf :=
  mkConf [] [("global", [("host", Some "h1"); ("token.0.token", Some "USER"); ("token.0.replacementType", Some "file"); ("token.0.replacement", Some "samples/users.csv:1")]);
             ("web.log", [("count", Some "60")])].
Definition demo_pairs : list (string * Z) := [("Web store!", 3); ("web-store", 7)].
Definition auth_dir : pack_dir := eventgen_dir "auth" auth_conf ["web.log"; "users.csv"].
Definition demo_packs : list pack_dir := [eventgen_dir "web" web_conf ["web.log"]; auth_dir].
Definition demo_build : result (conf * list (string * list text) * config) :=
  build_from_packs (fun _ => "1.0") (fun _ => false) (fun _ => true) (zip ["Web-store"; "web-store"] demo_packs).
Definition demo_merged : conf := match demo_build with Ok (c, _, _) => c | Raise _ => mkConf [] [] end.
Definition demo_files : list (string * list text) := match demo_build with Ok (_, fs, _) => fs | Raise _ => [] end.
Definition demo_manifest : config := match demo_build with Ok (_, _, m) => m | Raise _ => [] end.

Lemma wf_by_decision c : bool_decide (NoDup (sections c)) = true -> bool_decide (NoDup (fst <$> cf_defaults c)) = true ->
  forallb (fun sd => bool_decide (NoDup (fst <$> sd.2))) (cf_sections c) = true -> wf_pack c.
Proof.
  intros H1%bool_decide_eq_true H2%bool_decide_eq_true H3. split; [done|done|].
  intros s. unfold keys_once, section. destruct (List.find _ _) as [[n o]|] eqn:E; [|constructor].
  apply List.find_some in E as [Hin _]. eapply forallb_forall in H3; [|exact Hin].
  by apply bool_decide_eq_true in H3.
Qed.

Lemma demo_packs_wf : Forall (fun pd => forall c, pd_conf pd = Some (Some c) -> wf_pack c) demo_packs.
Proof.
  repeat (apply Forall_cons; split); [..|constructor]; intros c [= <-]; by apply wf_by_decision.
Qed.


Lemma merged_estimate_uses_worker_weights_witness :
  exists e bpes, dget demo_manifest "estimates" = DObj e /\
    Forall2 (estimate_of (fun _ => "1.0") (fun _ => false) (fun _ => true) (zip ["Web-store"; "web-store"] demo_packs))
      (sections demo_merged) bpes /\
    dfind e "bytes_per_event"
    = DNum <$> weighted_bytes (declared_eps_weights demo_merged (sample_sections demo_merged)) bpes.
Proof.
  apply (merged_estimate_uses_worker_weights (fun _ => "1.0") (fun _ => false) (fun _ => true) demo_pairs ["Web-store"; "web-store"] demo_packs demo_merged demo_files demo_manifest).
  - repeat constructor; done.
  - vm_compute. reflexivity.
  - reflexivity.
  - exact demo_packs_wf.
  - vm_compute. reflexivity.
Defined.

(** The estimate the launch gate uses does not read the global sections: a rate
    declared there weighs in the bundle's estimate and not in the gate's. *)
Example gate_estimate_ignores_globals :
  let sized name c n := mkDir true name None None (Some (Some c)) ["a"]
    (fun f => if bool_decide (f = "a") then Some [repeat "x"%char n] else None) (fun _ => None)
    (fun _ => Missing) false in
  let packs := [sized "small" (mkConf [] [("a", [("count", Some "60")])]) 100%nat;
                sized "big" (mkConf [] [("global", [("count", Some "540")]); ("a", [("mode", Some "sample")])]) 1000%nat] in
  (exists q, merged_est_bytes_per_event (fun _ => "1.0") (fun _ => false) (fun _ => true) packs = Ok (Some q) /\ q == 550) /\
  (exists c fs m e q, build_from_packs (fun _ => "1.0") (fun _ => false) (fun _ => true) (zip ["small"; "big"] packs) = Ok (c, fs, m)
     /\ dget m "estimates" = DObj e /\ dfind e "bytes_per_event" = Some (DNum q) /\ q == 910)%Q.
Proof.
  split.
  - eexists. split; [vm_compute; reflexivity|reflexivity].
  - eexists _, _, _, _, _. split; [vm_compute; reflexivity|]. split; [reflexivity|]. split; reflexivity.
Qed.

(** A sample beside the conf, not under samples/, lints clean and cannot merge. *)
Example root_sample_cannot_merge :
  let rooted := mkDir true "r" None None (Some (Some (mkConf [] [("a", [])]))) [] (fun _ => None)
                  (fun n => if bool_decide (n = "a") then Some [chars "x"] else None) (fun _ => Missing) false in
  (exists l, lint_pack (fun _ => "1.0") (fun _ => false) (fun _ => true) rooted = Ok l /\ lt_ok l = true) /\
  build_from_packs (fun _ => "1.0") (fun _ => false) (fun _ => true)
    [("r", rooted); ("w", eventgen_dir "web" web_conf ["web.log"])]
  = Raise (BundleError "merged pack failed lint (merge bug)").
Proof. split; [eexists; split; vm_compute; reflexivity|vm_compute; reflexivity]. Qed.
End Witnesses.
