(* ===== verification/Sharding.v ===== *)
(** * The submit-time sharding guard (server/engines/sharding.py)

    Before a run is launched the control plane predicts how many of its workers
    will receive work, and refuses a fleet that is larger than its work.  A
    pack's conf is [None] where it is missing or does not parse.

    The theorem: for count_interval packs the prediction is exact against the
    worker's own conf rewrite (worker/stoker_agent/confrewrite.py): it is the
    number of slots whose rewritten conf still emits.  For metrics runs the same
    is shown in [MetricEngine]. *)

From S2P Require Import Prelude.
From S2P Require Import PyFloat.
From S2P Require Import PyValue.
From S2P Require Import Pacing.
From S2P Require Import Apportion.
From S2P Require Import ConfRewrite.
From S2P Require Import MetricEngine.
From Stdlib Require Import QArith Qround Lqa.
Open Scope Z_scope.

Record ShardingCheck : Type := mkCheck {
  sh_ok : bool;
  sh_active_workers : Z;
  sh_total_workers : Z;
  sh_suggested_workers : option Z;
  sh_limiting_factor : option string;
  sh_detail : option string;
}.

(** Every worker has work. *)
Definition all_active (workers : Z) (detail : option string) : ShardingCheck :=
  mkCheck true workers workers None None detail.

Definition slot_range (first_idle workers : Z) : string :=
  if workers - 1 <=? first_idle then pretty (workers - 1)
  else pretty first_idle +:+ "-" +:+ pretty (workers - 1).

Definition starved (active workers : Z) (factor what : string) : ShardingCheck :=
  let idle := workers - active in
  mkCheck false active workers (Some (Z.max 1 active)) (Some factor)
    (Some (what +:+ " so only " +:+ pretty active +:+ " of " +:+ pretty workers +:+ " workers; "
       +:+ pretty idle +:+ " worker(s) (slot" +:+ (if idle =? 1 then "" else "s") +:+ " "
       +:+ slot_range active workers +:+ ") would generate nothing for the whole run; use at most "
       +:+ pretty (Z.max 1 active) +:+ " workers")).

Section Sharding.
Context {R : Rounding}.

(** One stanza's mark on the active slots. *)
Definition mark_active (parts : list Z) (active : list bool) : list bool :=
  zip_with (fun part a => (0 <? part) || a) parts active.

(** The loop over declared counts; [None] is its early return of every worker. *)
Fixpoint scan_counts (counts : list Q) (workers : Z) (active : list bool) : result (option (list bool)) :=
  match counts with
  | [] => Ok (Some active)
  | count :: counts =>
      let total := py_int count in
      if total <? 0 then Ok None
      else
        parts ← largest_remainder total (replicate (Z.to_nat workers) 1%Q);
        scan_counts counts workers (mark_active parts active)
  end.

Definition count_interval_active_workers (stanza_counts : list (option Q)) (workers : Z) : result Z :=
  if workers <? 1 then Ok 0
  else if existsb (fun c => match c with None => true | _ => false end) stanza_counts then Ok workers
  else
    active ← scan_counts (omap (M := list) id stanza_counts) workers
               (replicate (Z.to_nat workers) false);
    Ok (match active with
        | None => workers
        | Some active => Z.of_nat (length (List.filter id active))
        end).

(** [(parser.get(section, "mode", fallback="") or "").strip() == "replay"] *)
Definition replays (c : conf) (s : string) : bool :=
  match cget c s "mode" with Some (Some v) => bool_decide (py_strip v = "replay") | _ => false end.

Definition conf_stanza_counts (c : conf) : list (option Q) :=
  (fun s => get_float c s "count") <$> List.filter (fun s => negb (replays c s)) (sample_sections c).

Definition eventgen_stanza_counts (pack : option conf) : option (list (option Q)) :=
  conf_stanza_counts <$> pack.

(** The counts of the merged packs; one unreadable conf makes them unknown. *)
Fixpoint merged_counts (packs : list (option conf)) : option (list (option Q)) :=
  match packs with
  | [] => Some []
  | pack :: packs =>
      match eventgen_stanza_counts pack with
      | None => None
      | Some one => app one <$> merged_counts packs
      end
  end.

Definition declared_counts (pack : option conf) (packs : list (option conf)) : option (list (option Q)) :=
  match packs with [] => eventgen_stanza_counts pack | _ => merged_counts packs end.

(** [(engine or "eventgen").strip() or "eventgen"] *)
Definition engine_name (engine : option string) : string :=
  let e := py_strip (match engine with Some e => if nonempty e then e else "eventgen" | None => "eventgen" end) in
  if nonempty e then e else "eventgen".

(** [sum(int(c) for c in counts if c is not None and c >= 0)] *)
Definition total_count (counts : list (option Q)) : Z :=
  foldr (fun c n => match c with Some q => if qlt q 0 then n else py_int q + n | None => n end) 0 counts.

Definition check_sharding (engine rate_mode : option string) (workers : Z)
    (metrics_config : option config) (pack : option conf) (packs : list (option conf))
    : result ShardingCheck :=
  let workers := Z.max 1 workers in
  let engine := engine_name engine in
  if workers =? 1 then Ok (all_active 1 None)
  else if bool_decide (engine = "metrics") || bool_decide (is_Some metrics_config) then
    series ← metrics_series_count (default [] metrics_config);
    let active := metrics_active_workers series workers in
    Ok (if workers <=? active then all_active workers None
        else starved active workers "metrics_series"
               ("the pack's dimension cross-product is " +:+ pretty series +:+ " series"))
  else if bool_decide (engine = "rawreplay") then Ok (all_active workers None)
  else if negb (bool_decide (rate_mode = Some "count_interval")) then Ok (all_active workers None)
  else
    match declared_counts pack packs with
    | None | Some [] => Ok (all_active workers (Some "stanza counts unknown; sharding not checked"))
    | Some counts =>
        active ← count_interval_active_workers counts workers;
        Ok (if workers <=? active then all_active workers None
            else starved active workers "count_interval"
                   ("the stanzas declare " +:+ pretty (total_count counts) +:+ " event(s) per interval"))
    end.
End Sharding.

(** ** The prediction against the worker's rewrite *)

Section Exact.
Context {R : Rounding} (n : Z) (Hn : 1 <= n).

Abbreviation equal_weights := (replicate (Z.to_nat n) 1%Q).

(** The part of a count that falls to a slot. *)
Definition part_of (q : Q) (slot : nat) : Z :=
  match largest_remainder (py_int q) equal_weights with Ok parts => nth slot parts 0 | Raise _ => 0 end.

(** A count the split applies to, small enough for exact quotas. *)
Definition small (q : Q) : Prop := (py_int q + 1) * (4 * n + 8) <= 2 ^ 53.

Lemma parts_of_count q : (0 <= q)%Q -> small q ->
  exists parts, largest_remainder (py_int q) equal_weights = Ok parts /\
    length parts = Z.to_nat n /\ Forall (fun z => 0 <= z <= 2 ^ 53) parts.
Proof.
  intros Hq Hs. destruct (largest_remainder_parts (py_int q) equal_weights) as (parts & E & El & Es & Hp).
  - intros H. apply (f_equal length) in H. rewrite length_replicate in H. cbn in H. lia.
  - by apply Forall_replicate.
  - by apply py_int_nonneg.
  - by rewrite length_replicate, Z2Nat.id by lia.
  - rewrite length_replicate in El. exists parts. split_and!; [done..|].
    assert (zsum parts <= 2 ^ 53) as Hsum by (unfold small in Hs; pose proof (py_int_nonneg q Hq); nia).
    clear -Hp Hsum. assert (forall z, z ∈ parts -> z <= zsum parts) as H.
    { clear Hsum. induction Hp as [|x l Hx Hl IH]; [set_solver|].
      assert (0 <= zsum l) by (clear -Hl; induction Hl; cbn [zsum]; lia).
      intros z [->|Hz]%elem_of_cons; cbn [zsum]; [lia|]. specialize (IH z Hz). lia. }
    rewrite Forall_forall in Hp |- *. intros z Hz. specialize (Hp z Hz). specialize (H z Hz). lia.
Qed.

(** Whether some count gives the slot a part. *)
Definition gets_part (counts : list Q) (slot : nat) : bool :=
  existsb (fun q => 0 <? part_of q slot) counts.

Lemma mark_active_spec (f : nat -> bool) q : (0 <= q)%Q -> small q ->
  exists parts, largest_remainder (py_int q) equal_weights = Ok parts /\
    mark_active parts (f <$> seq 0 (Z.to_nat n)) =
      (fun slot => (0 <? part_of q slot) || f slot) <$> seq 0 (Z.to_nat n).
Proof.
  intros Hq Hs. destruct (parts_of_count q Hq Hs) as (parts & E & El & _).
  exists parts. split; [done|]. unfold part_of. rewrite E. unfold mark_active.
  apply list_eq. intros i. rewrite lookup_zip_with, !list_lookup_fmap.
  destruct (decide (i < Z.to_nat n)%nat) as [Hi|Hi].
  - rewrite lookup_seq_lt by done. cbn.
    destruct (lookup_lt_is_Some_2 parts i) as [z Ez]; [lia|]. rewrite Ez. cbn.
    by rewrite (nth_lookup_Some _ _ _ _ Ez).
  - rewrite (lookup_ge_None_2 parts), (lookup_ge_None_2 (seq _ _)) by (rewrite ?length_seq; lia). done.
Qed.

Lemma scan_counts_spec counts :
  Forall (fun q => (q <= -(1))%Q \/ (0 <= q)%Q /\ small q) counts ->
  forall f, scan_counts counts n (f <$> seq 0 (Z.to_nat n)) =
    Ok (if existsb (fun q => qlt q 0) counts then None
        else Some ((fun slot => gets_part counts slot || f slot) <$> seq 0 (Z.to_nat n))).
Proof.
  induction 1 as [|q counts [Hq|[Hq Hs]] Hc IH]; intros f; cbn [scan_counts existsb].
  - done.
  - destruct (qlt_spec q 0); [cbn [orb]|lra].
    assert (py_int q <= -1) as Hz.
    { unfold py_int. destruct (Qlt_le_dec q 0); [|lra].
      change (-1) with (Qceiling (-(1))). by apply Qceiling_resp_le. }
    destruct (Z.ltb_spec (py_int q) 0); [done|lia].
  - destruct (Z.ltb_spec (py_int q) 0); [pose proof (py_int_nonneg q Hq); lia|].
    destruct (mark_active_spec f q Hq Hs) as (parts & -> & Em). cbn [mbind result_bind]. rewrite Em, IH.
    destruct (qlt_spec q 0); [lra|]. cbn [orb]. destruct (existsb _ counts); [done|].
    do 2 f_equal. apply list_fmap_ext. intros i slot _. unfold gets_part. cbn [existsb].
    rewrite orb_assoc. f_equal. apply orb_comm.
Qed.

Lemma filter_id_fmap (f : nat -> bool) l : length (List.filter id (f <$> l)) = length (List.filter f l).
Proof.
  induction l as [|x l IH]; [done|]. rewrite fmap_cons. cbn [List.filter]. unfold id at 1.
  destruct (f x); cbn [length]; congruence.
Qed.

(** Whether a stanza gives the slot work. *)
Definition stanza_active (o : option Q) (slot : nat) : bool :=
  match o with None => true | Some q => qlt q 0 || (0 <? part_of q slot) end.

Lemma active_workers_spec counts :
  Forall (fun o => forall q, o = Some q -> (q <= -(1))%Q \/ (0 <= q)%Q /\ small q) counts ->
  count_interval_active_workers counts n =
    Ok (Z.of_nat (length (List.filter (fun slot => existsb (fun o => stanza_active o slot) counts)
                            (seq 0 (Z.to_nat n))))).
Proof.
  intros H. unfold count_interval_active_workers. destruct (Z.ltb_spec n 1); [lia|].
  assert (forall (p : nat -> bool), (forall slot, p slot = true) ->
    n = Z.of_nat (length (List.filter p (seq 0 (Z.to_nat n))))) as Hall.
  { intros p Hp. assert (List.filter p (seq 0 (Z.to_nat n)) = seq 0 (Z.to_nat n)) as ->.
    { induction (seq 0 (Z.to_nat n)) as [|x l IH]; [done|]. cbn. by rewrite Hp, IH. }
    rewrite length_seq. lia. }
  destruct (existsb _ counts) eqn:En.
  { f_equal. apply Hall. intros slot. apply existsb_exists in En as (o & Ho & E).
    apply existsb_exists. exists o. split; [done|]. by destruct o. }
  set (qs := omap id counts).
  assert (counts = Some <$> qs) as Eqs.
  { clear -En. subst qs. induction counts as [|[q|] counts IH]; cbn in *; [done| |done].
    f_equal. by apply IH. }
  assert (replicate (Z.to_nat n) false = (fun _ : nat => false) <$> seq 0 (Z.to_nat n)) as ->.
  { apply list_eq. intros i. rewrite list_lookup_fmap. destruct (decide (i < Z.to_nat n)%nat).
    - by rewrite lookup_replicate_2, lookup_seq_lt.
    - rewrite (lookup_ge_None_2 (replicate _ _)), (lookup_ge_None_2 (seq _ _))
        by (rewrite ?length_replicate, ?length_seq; lia). done. }
  rewrite scan_counts_spec.
  2:{ rewrite Eqs in H. apply Forall_fmap in H. eapply Forall_impl; [exact H|]. cbn. intros q Hq. by apply Hq. }
  cbn [mbind result_bind]. f_equal. rewrite Eqs. clear H Eqs En. clearbody qs.
  assert (forall slot, existsb (fun o => stanza_active o slot) (Some <$> qs) =
    existsb (fun q => qlt q 0) qs || gets_part qs slot) as Ee.
  { intros slot. unfold gets_part. induction qs as [|q qs IH]; [done|]. rewrite fmap_cons.
    cbn [existsb stanza_active]. rewrite IH.
    destruct (qlt q 0), (0 <? part_of q slot), (existsb _ qs), (existsb _ qs); done. }
  destruct (existsb _ qs) eqn:Eneg.
  - apply Hall. intros slot. by rewrite Ee.
  - rewrite filter_id_fmap. do 2 f_equal. apply List.filter_ext. intros slot. rewrite Ee. apply orb_false_r.
Qed.
End Exact.

(** ** The suggested fleet size *)

Section Suggest.
Context {R : Rounding}.

(** Counts whose split is exact for every fleet up to [n]. *)
Definition exact_counts (n : Z) (counts : list (option Q)) : Prop :=
  Forall (fun o => forall q, o = Some q -> (q <= -(1))%Q \/ (0 <= q)%Q /\ small n q) counts.

Lemma exact_counts_mono n k counts : 1 <= k <= n -> exact_counts n counts -> exact_counts k counts.
Proof.
  intros Hk H. eapply Forall_impl; [exact H|]. intros o Ho q Eq. destruct (Ho q Eq) as [?|[Hq Hs]]; [by left|].
  right. split; [done|]. unfold small in *. pose proof (py_int_nonneg q Hq). nia.
Qed.

Lemma part_of_pos n q slot : 1 <= n -> (0 <= q)%Q -> small n q -> (slot < Z.to_nat n)%nat ->
  (0 <? part_of n q slot) = (Z.of_nat slot <? py_int q).
Proof.
  intros Hn Hq Hs Hslot. pose proof (py_int_nonneg q Hq) as Hz. unfold part_of.
  destruct (largest_remainder_equal (py_int q) (Z.to_nat n)) as (parts & f & k & -> & _ & Hf & Hk & Et & Hnth);
    [done|lia|rewrite Z2Nat.id by lia; exact Hs|].
  rewrite Hnth by done. rewrite Z2Nat.id in Et by lia.
  destruct (decide (slot < k)%nat), (Z.ltb_spec (Z.of_nat slot) (py_int q)); apply Z.ltb_lt || apply Z.ltb_ge; nia.
Qed.

(** The largest declared count; a stanza for everyone counts as unbounded. *)
Definition stanza_reach (n : Z) (o : option Q) : Z :=
  match o with None => n | Some q => if qlt q 0 then n else py_int q end.
Definition reach (n : Z) (counts : list (option Q)) : Z := foldr (fun o m => Z.max (stanza_reach n o) m) 0 counts.

Lemma active_is_reach n counts slot : 1 <= n -> exact_counts n counts -> (slot < Z.to_nat n)%nat ->
  existsb (fun o => stanza_active n o slot) counts = (Z.of_nat slot <? reach n counts).
Proof.
  intros Hn H Hslot. induction H as [|o counts Ho H IH]; cbn [existsb reach foldr].
  { symmetry. apply Z.ltb_ge. lia. }
  rewrite IH. fold (reach n counts).
  assert (stanza_active n o slot = (Z.of_nat slot <? stanza_reach n o)) as ->.
  { destruct o as [q|]; cbn; [|symmetry; apply Z.ltb_lt; lia].
    destruct (qlt_spec q 0) as [Hq|Hq]; cbn [orb]; [symmetry; apply Z.ltb_lt; lia|].
    destruct (Ho q eq_refl) as [?|[? ?]]; [lra|]. by apply part_of_pos. }
  destruct (Z.ltb_spec (Z.of_nat slot) (stanza_reach n o)), (Z.ltb_spec (Z.of_nat slot) (reach n counts));
    cbn [orb]; symmetry; apply Z.ltb_lt || apply Z.ltb_ge; lia.
Qed.

Lemma active_workers_reach n counts : 1 <= n -> exact_counts n counts ->
  count_interval_active_workers counts n = Ok (Z.max 0 (Z.min (reach n counts) n)).
Proof.
  intros Hn H. rewrite active_workers_spec by done. f_equal.
  pose proof (count_below (Z.to_nat n) (reach n counts)) as Ec. rewrite Z2Nat.id in Ec by lia.
  rewrite <- (Z2Nat.id (Z.max _ _)), <- Ec by lia. do 2 f_equal.
  apply List.filter_ext_in. intros slot [_ Hs]%in_seq. apply active_is_reach; [done..|lia].
Qed.

(** Below the fleet size the reach does not depend on it. *)
Lemma reach_small n k counts : 1 <= k <= n -> reach n counts < n -> (k <= reach k counts <-> k <= reach n counts).
Proof.
  intros Hk. unfold reach. induction counts as [|o counts IH]; cbn [foldr]; [lia|].
  intros Hlt. specialize (IH ltac:(lia)).
  assert (stanza_reach n o < n -> stanza_reach k o = stanza_reach n o) as Hs
    by (destruct o as [q|]; cbn; [destruct (qlt q 0)|]; lia).
  specialize (Hs ltac:(lia)). lia.
Qed.
End Suggest.

(** The fleet size the guard suggests is the right one.  When [check_sharding]
    refuses a fleet, metrics or count_interval, it suggests a smaller size [m],
    and of the sizes up to the one requested it accepts exactly those up to
    [m]. *)
Theorem suggestion_is_largest {R : Rounding} engine mode workers mc pack packs r :
  check_sharding engine mode workers mc pack packs = Ok r -> sh_ok r = false ->
  (forall counts, declared_counts pack packs = Some counts -> exact_counts workers counts) ->
  exists m, sh_suggested_workers r = Some m /\ 1 <= m < workers /\
    forall k, 1 <= k <= workers ->
      (exists r', check_sharding engine mode k mc pack packs = Ok r' /\ sh_ok r' = true) <-> k <= m.
Proof.
  intros E Hno Hex.
  assert (forall workers active k : Z, 1 <= k <= workers ->
    (forall ak f w, 0 <= active < workers -> (k <= ak <-> k <= active) ->
      (exists r', Ok (if k <=? ak then all_active k None else starved ak k f w) = Ok r' /\ sh_ok r' = true)
      <-> k <= active)) as Hverdict.
  { intros wk a k Hk ak f w Ha Hiff. split.
    - intros (r' & [= <-] & Hok). destruct (Z.leb_spec k ak); [by apply Hiff|done].
    - intros Hle%Hiff. eexists. split; [reflexivity|]. by destruct (Z.leb_spec k ak); [|lia]. }
  assert (check_sharding engine mode 1 mc pack packs = Ok (all_active 1 None)) as E1 by done.
  unfold check_sharding in *. set (e := engine_name engine) in *.
  destruct (Z.eqb_spec (Z.max 1 workers) 1) as [|Hw1]; [by injection E as <-|].
  assert (2 <= workers) as Hw by lia. rewrite Z.max_r in * by lia.
  destruct (bool_decide (e = "metrics") || bool_decide (is_Some mc)).
  - destruct (metrics_series_count (default [] mc)) as [series|] eqn:Es; [|done]. cbn [mbind result_bind] in *.
    injection E as <-. destruct (Z.leb_spec workers (metrics_active_workers series workers)) as [|Hlt]; [done|].
    unfold metrics_active_workers in *. exists (Z.max 1 (Z.max 0 (Z.min series workers))). cbn [starved sh_suggested_workers].
    split; [done|]. split; [lia|]. intros k Hk.
    destruct (Z.eqb_spec (Z.max 1 k) 1) as [|Hk1].
    { split; [lia|]. intros _. by exists (all_active 1 None). }
    rewrite Z.max_r by lia. rewrite (Hverdict workers (Z.max 0 (Z.min series workers))) by lia. lia.
  - destruct (bool_decide (e = "rawreplay")); [by injection E as <-|].
    destruct (negb _); [by injection E as <-|].
    destruct (declared_counts pack packs) as [[|o counts]|]; [by injection E as <-| |by injection E as <-].
    specialize (Hex _ eq_refl). remember (o :: counts) as cs eqn:Ecs. clear Ecs o counts.
    rewrite active_workers_reach in E by (done || lia). cbn [mbind result_bind] in E. injection E as <-.
    destruct (Z.leb_spec workers (Z.max 0 (Z.min (reach workers cs) workers))) as [|Hlt]; [done|].
    exists (Z.max 1 (Z.max 0 (Z.min (reach workers cs) workers))). cbn [starved sh_suggested_workers].
    split; [done|]. split; [lia|]. intros k Hk.
    destruct (Z.eqb_spec (Z.max 1 k) 1) as [|Hk1].
    { split; [lia|]. intros _. by exists (all_active 1 None). }
    rewrite Z.max_r by lia.
    rewrite active_workers_reach by (lia || by apply (exact_counts_mono workers)). cbn [mbind result_bind].
    pose proof (reach_small workers k cs Hk ltac:(lia)).
    rewrite (Hverdict workers (Z.max 0 (Z.min (reach workers cs) workers))) by lia. lia.
Qed.

Section Worker.
Context {R : Rounding} (c : conf) (n : Z) (Hwf : wf_conf c) (Hn : 1 <= n).

(** The packs the prediction is for: no stanza replays, or is switched off by
    [end = 0], and a declared count is at most [-1] (the whole sample) or a
    number the split can apportion exactly. *)
Definition predictable (s : string) : Prop :=
  is_replay c s = Ok false /\
  (forall e, cget c s "end" = Some (Some e) -> py_strip e <> "0") /\
  (forall q, get_float c s "count" = Some q -> (q <= -(1))%Q \/ (0 <= q)%Q /\ small n q).

(** A worker's own account of its slot: its rewritten conf emits something. *)
Definition holds_work (share : option Q) (od : Q) (dir : string) (w : option (list Q)) (slot : nat) : bool :=
  match rewrite "count_interval" share od dir (Z.of_nat slot) n w no_backfill c with
  | Ok c' => match assigned_stanza_count c' "count_interval" with Ok k => 0 <? k | Raise _ => false end
  | Raise _ => false
  end.

Lemma filter_result_const {A} (p : A -> result bool) b l :
  (forall x, x ∈ l -> p x = Ok b) -> filter_result p l = Ok (if b : bool then l else []).
Proof.
  intros H. induction l as [|x l IH]; cbn [filter_result]; [by destruct b|].
  rewrite H by left. rewrite IH by (intros; apply H; by right). by destruct b.
Qed.

Lemma filter_pos {A} (p : A -> bool) l : (0 <? Z.of_nat (length (List.filter p l))) = existsb p l.
Proof. induction l as [|x l IH]; [done|]. cbn. destruct (p x); [done|]. exact IH. Qed.

Lemma existsb_fmap {A B} (f : A -> B) p l : existsb p (f <$> l) = existsb (fun x => p (f x)) l.
Proof. induction l as [|x l IH]; [done|]. rewrite fmap_cons. cbn. by rewrite IH. Qed.

Lemma existsb_ext_in {A} (p q : A -> bool) l :
  (forall x, x ∈ l -> p x = q x) -> existsb p l = existsb q l.
Proof.
  intros H. induction l as [|x l IH]; [done|]. cbn. rewrite H by left. f_equal.
  apply IH. intros. apply H. by right.
Qed.

Lemma stanza_counts_spec : (forall s, s ∈ sample_sections c -> is_replay c s = Ok false) ->
  conf_stanza_counts c = (fun s => get_float c s "count") <$> sample_sections c.
Proof.
  intros H. unfold conf_stanza_counts. f_equal.
  assert (forall s, s ∈ sample_sections c -> replays c s = false) as Hr.
  { intros s Hs. specialize (H s Hs). unfold is_replay, replays in *.
    destruct (cget c s "mode") as [[v|]|]; [|done|done]. by injection H. }
  induction (sample_sections c) as [|s l IH]; [done|]. cbn. rewrite Hr by left. cbn. f_equal.
  apply IH; intros; [apply H|apply Hr]; by right.
Qed.

(** A stanza of the rewritten conf emits exactly when the prediction says so. *)
Lemma assigned_section_spec c' slot s :
  (slot < Z.to_nat n)%nat -> predictable s -> cget c' s "end" = cget c s "end" ->
  cget c' s "count" = slot_count c (Z.of_nat slot) n s ->
  assigned_section c' "count_interval" s = stanza_active n (get_float c s "count") slot.
Proof.
  intros Hslot (_ & He & Hq) Ee Ec. unfold assigned_section. rewrite Ee.
  assert (match cget c s "end" with
    | Some (Some e) => negb (bool_decide (py_strip e = "0")) | _ => true end = true) as ->.
  { destruct (cget c s "end") as [[e|]|]; [|done|done]. by rewrite bool_decide_false by (by apply He). }
  rewrite bool_decide_true by done. cbn [negb andb orb]. unfold get_float at 1. rewrite Ec.
  unfold slot_count, count_parts. destruct (get_float c s "count") as [q|] eqn:Eq; cbn [stanza_active].
  2:{ unfold get_float in Eq. by rewrite Eq. }
  destruct (qlt_spec q 0) as [Hlt|Hge]; cbn [orb].
  { unfold get_float in Eq. rewrite Eq. destruct (qlt_spec q 0); [|lra]. by rewrite orb_true_r. }
  destruct (Hq q eq_refl) as [?|[Hq0 Hs]]; [lra|].
  destruct (parts_of_count n Hn q Hq0 Hs) as (parts & E & El & Hp).
  unfold part_of. rewrite E, Nat2Z.id.
  destruct (lookup_lt_is_Some_2 parts slot ltac:(lia)) as [z Ez].
  rewrite (nth_lookup_Some _ _ _ _ Ez).
  apply (proj1 (Forall_lookup _ _) Hp) in Ez as Hz. cbn in Hz.
  destruct (float_of_pretty z ltac:(lia)) as (f & -> & Ef). rewrite rnd_int in Ef by lia.
  destruct (Z.ltb_spec 0 z) as [Hz'|Hz'].
  - destruct (qlt_spec 0 f) as [|Hf]; [done|]. exfalso. apply Hf. rewrite Ef. by apply (inject_Z_lt 0).
  - assert (z = 0) as -> by lia.
    destruct (qlt_spec 0 f), (qlt_spec f 0); try done; rewrite Ef in *; done.
Qed.

Lemma holds_work_spec share od dir w slot :
  (forall s, s ∈ sample_sections c -> predictable s) -> (slot < Z.to_nat n)%nat ->
  exists c' k, rewrite "count_interval" share od dir (Z.of_nat slot) n w no_backfill c = Ok c' /\
    assigned_stanza_count c' "count_interval" = Ok k /\
    (0 <? k) = existsb (fun o => stanza_active n o slot) (conf_stanza_counts c).
Proof.
  intros Hp Hslot.
  assert (paced_sections c = Ok (sample_sections c)) as Epaced.
  { apply (filter_result_const _ true). intros s [Hs _]%Hp. by rewrite Hs. }
  destruct (rewrite_interval_spec c _ n share od dir w (Z.of_nat slot) Hwf Epaced ltac:(lia))
    as (c' & Er & Es & Ek & Ec).
  assert (sample_sections c' = sample_sections c) as Ess by (unfold sample_sections; by rewrite Es).
  assert (forall s, s ∈ sample_sections c -> is_replay c' s = Ok false) as Hr.
  { intros s [Hs _]%Hp. unfold is_replay in *. by rewrite Ek. }
  exists c'. eexists. split; [done|]. unfold assigned_stanza_count, paced_sections. rewrite Ess.
  rewrite (filter_result_const (is_replay c') false) by done. cbn [mbind result_bind].
  rewrite (filter_result_const _ true) by (intros s Hs; by rewrite Hr).
  cbn [mbind result_bind length Z.of_nat]. split; [done|].
  rewrite Z.add_0_l, filter_pos, stanza_counts_spec by (intros s Hs; by apply Hp).
  rewrite existsb_fmap. apply existsb_ext_in. intros s Hs.
  apply assigned_section_spec; [done|by apply Hp|by apply Ek|by apply Ec].
Qed.
End Worker.

(** The submit-time prediction for count_interval packs is exact.  For a pack of
    predictable stanzas and any fleet, every worker's rewrite succeeds, and the
    predicted number of active workers is the number of workers whose rewritten
    conf emits anything. *)
Theorem sharding_prediction_exact {R : Rounding} c n share od dir w :
  wf_conf c -> 1 <= n -> (forall s, s ∈ sample_sections c -> predictable c n s) ->
  (forall slot, (slot < Z.to_nat n)%nat -> exists c',
     rewrite "count_interval" share od dir (Z.of_nat slot) n w no_backfill c = Ok c') /\
  count_interval_active_workers (conf_stanza_counts c) n =
    Ok (Z.of_nat (length (List.filter (holds_work c n share od dir w) (seq 0 (Z.to_nat n))))).
Proof.
  intros Hwf Hn Hp. split.
  { intros slot Hs. destruct (holds_work_spec c n Hwf Hn share od dir w slot Hp Hs) as (c' & k & ? & _).
    by exists c'. }
  rewrite active_workers_spec; [|done|].
  2:{ rewrite stanza_counts_spec by (intros s Hs; by apply Hp). apply Forall_fmap, Forall_forall.
      intros s Hs q Hq. by apply (Hp s Hs). }
  do 3 f_equal. apply List.filter_ext_in. intros slot [_ Hs]%in_seq. unfold holds_work.
  by destruct (holds_work_spec c n Hwf Hn share od dir w slot Hp ltac:(lia)) as (c' & k & -> & -> & ->).
Qed.

(** ** Witnesses *)

Definition two_stanzas : conf :=
  mkConf [] [("default", []); ("web.sample", [("count", Some "2")]); ("auth.sample", [("count", Some "3")])].

Lemma sharding_prediction_exact_witness :
  @count_interval_active_workers binary64 (@conf_stanza_counts binary64 two_stanzas) 5 =
    Ok (Z.of_nat (length (List.filter (@holds_work binary64 two_stanzas 5 None 1 "/s" None) (seq 0 5))))
  /\ @count_interval_active_workers binary64 (@conf_stanza_counts binary64 two_stanzas) 5 = Ok 3.
Proof.
  split; [|vm_compute; reflexivity].
  refine (proj2 (@sharding_prediction_exact binary64 two_stanzas 5 None 1 "/s" None _ _ _)).
  - conf_wf.
  - lia.
  - apply Forall_forall. repeat (apply Forall_cons; split); [..|apply Forall_nil; exact I];
      (split; [vm_compute; reflexivity|]; split; [done|]);
      intros q Hq; vm_compute in Hq; injection Hq as <-; right; split; (done || (vm_compute; done)).
Defined.

(** [end = 0] stanzas are counted as work by the guard and as none by the worker. *)
Example switched_off_stanza_counted :
  let c := mkConf [] [("a.sample", [("count", Some "5"); ("end", Some "0")])] in
  @count_interval_active_workers binary64 (@conf_stanza_counts binary64 c) 2 = Ok 2 /\
  List.filter (@holds_work binary64 c 2 None 1 "/s" None) (seq 0 2) = [].
Proof. by vm_compute. Qed.

Lemma suggestion_is_largest_witness :
  exists m, sh_suggested_workers (starved 3 10 "count_interval" "the stanzas declare 5 event(s) per interval") = Some m /\
    1 <= m < 10 /\
    forall k, 1 <= k <= 10 ->
      (exists r', @check_sharding binary64 None (Some "count_interval") k None (Some two_stanzas) [] = Ok r'
         /\ sh_ok r' = true) <-> k <= m.
Proof.
  refine (@suggestion_is_largest binary64 None (Some "count_interval") 10 None (Some two_stanzas) [] _ _ _ _).
  - vm_compute. reflexivity.
  - reflexivity.
  - intros counts [= <-]. unfold exact_counts.
    repeat (apply Forall_cons; split); [..|apply Forall_nil; exact I];
      intros q Hq; vm_compute in Hq; injection Hq as <-; right; split; (done || (vm_compute; done)).
Defined.
