(* ===== verification/Driver.v ===== *)
(** * Execution drivers (server/drivers/base.py, server/drivers/fake.py)

    The six-method driver surface plus the two optional capabilities
    ([list_run_ids], [extend_deadline]) as a class of operations on a driver
    state [D]; an operation returns the driver's next state together with a
    value or an exception.  [DriverLaws] is what the stray sweep relies on.
    [FakeDriver] is the in-memory driver in its bookkeeping (no-spawn) mode, and
    an instance of both classes. *)

From S2P Require Import Prelude.
From S2P Require Import PyFloat.
From S2P Require Import PyValue.
From Stdlib Require Import QArith.
Open Scope Z_scope.

Record RunSnapshot : Type := mkRunSnapshot {
  rs_run_id : Z;
  rs_image : string;
  rs_env : gmap string string;
  rs_labels : gmap string string;
  rs_driver_opts : pydict;
  rs_stop_grace_s : Z;
}.

Record DriverRef : Type := mkDriverRef {
  ref_kind : string;
  ref_id : string;
  ref_raw : pydict;
}.

(** [tasks] is observability only: slot and state per task, as far as they are known. *)
Record DriverStatus : Type := mkDriverStatus {
  st_desired : Z;
  st_running : Z;
  st_tasks : list (option Z * option string);
}.

Class Driver (D : Type) : Type := {
  (* [_KIND] of the instance, or the class-name label of [_driver_kind] *)
  drv_kind : D -> string;
  drv_namespace : D -> option string;
  drv_create : D -> RunSnapshot -> Z -> D * result DriverRef;
  drv_scale : D -> DriverRef -> Z -> D * result unit;
  drv_stop : D -> DriverRef -> Z -> D * result unit;
  drv_destroy : D -> DriverRef -> D * result unit;
  drv_status : D -> DriverRef -> D * result DriverStatus;
  drv_logs : D -> DriverRef -> option Z -> Z -> D * result string;
  drv_list_run_ids : D -> D * result (gset Z);
  (* None when the driver has no [extend_deadline] attribute *)
  drv_extend_deadline : option (D -> DriverRef -> Q -> Q -> D * result unit);
}.

(** [{"run_id": r, "name": "stoker-run-<r>"}], what the sweep addresses a stray by. *)
Definition stray_raw (run_id : Z) : pydict :=
  <[ "run_id" := VInt run_id ]> {[ "name" := VStr ("stoker-run-" +:+ pretty run_id) ]}.

(** The handle is the one the sweep makes up for run [r]. *)
Definition names_stray (r : Z) (ref : DriverRef) : Prop :=
  ref_id ref = "stoker-run-" +:+ pretty r /\ dget (ref_raw ref) "run_id" = VInt r.

(** What the sweep relies on: in a well-formed driver state, enumerating does
    not change the workloads, and destroying a stray's handle leaves those of
    every other run. *)
Class DriverLaws (D : Type) `{Driver D} : Type := {
  drv_wf : D -> Prop;
  drv_owned : D -> gset Z;
  drv_list_frame d d' res :
    drv_wf d -> drv_list_run_ids d = (d', res) -> drv_wf d' /\ drv_owned d' = drv_owned d;
  drv_destroy_frame d d' res ref r q :
    drv_wf d -> names_stray r ref -> drv_destroy d ref = (d', res) ->
    drv_wf d' /\ (q <> r -> q ∈ drv_owned d -> q ∈ drv_owned d');
}.

(** ** FakeDriver *)

Record FleetState : Type := mkFleetState {
  fs_run_id : Z;
  fs_image : string;
  fs_desired : Z;
  fs_snapshot : RunSnapshot;
  fs_stopped : bool;
  fs_destroyed : bool;
  fs_log_lines : list string;
}.

(** [_fleets] in insertion order, and the process-wide id counter. *)
Record FakeDriver : Type := mkFakeDriver {
  fk_fleets : list (string * FleetState);
  fk_counter : Z;
}.

Module Fake.

Definition init : FakeDriver := mkFakeDriver [] 1.

Fixpoint find (fs : list (string * FleetState)) (id : string) : option FleetState :=
  match fs with
  | [] => None
  | (k, s) :: fs => if bool_decide (k = id) then Some s else find fs id
  end.

Fixpoint update (fs : list (string * FleetState)) (id : string) (f : FleetState -> FleetState)
    : list (string * FleetState) :=
  match fs with
  | [] => []
  | (k, s) :: fs => if bool_decide (k = id) then (k, f s) :: fs else (k, s) :: update fs id f
  end.

Definition on_fleet (d : FakeDriver) (id : string) (f : FleetState -> FleetState) : FakeDriver :=
  mkFakeDriver (update (fk_fleets d) id f) (fk_counter d).

Definition set_desired (n : Z) (s : FleetState) : FleetState :=
  mkFleetState (fs_run_id s) (fs_image s) n (fs_snapshot s) (fs_stopped s) (fs_destroyed s)
    (fs_log_lines s).
Definition set_stopped (s : FleetState) : FleetState :=
  mkFleetState (fs_run_id s) (fs_image s) (fs_desired s) (fs_snapshot s) true (fs_destroyed s)
    (fs_log_lines s).
(** [state.destroyed = True; state.desired = 0] *)
Definition set_destroyed (s : FleetState) : FleetState :=
  mkFleetState (fs_run_id s) (fs_image s) 0 (fs_snapshot s) (fs_stopped s) true (fs_log_lines s).

(** [self._fleets[fleet_id] = state]: overwrites in place, else appends. *)
Definition put (fs : list (string * FleetState)) (id : string) (s : FleetState)
    : list (string * FleetState) :=
  match find fs id with
  | Some _ => update fs id (fun _ => s)
  | None => fs ++ [(id, s)]
  end.

Definition create (d : FakeDriver) (run : RunSnapshot) (workers : Z) : FakeDriver * result DriverRef :=
  if workers <? 1 then (d, Raise (DriverError "workers must be >= 1"))
  else
    let fleet_id := "fake-run-" +:+ pretty (rs_run_id run) +:+ "-" +:+ pretty (fk_counter d) in
    let state := mkFleetState (rs_run_id run) (rs_image run) workers run false false [] in
    (mkFakeDriver (put (fk_fleets d) fleet_id state) (fk_counter d + 1),
     Ok (mkDriverRef "fake" fleet_id
           (<[ "run_id" := VInt (rs_run_id run) ]> {[ "image" := VStr (rs_image run) ]}))).

(** [_require] *)
Definition require (d : FakeDriver) (ref : DriverRef) : result FleetState :=
  match find (fk_fleets d) (ref_id ref) with
  | Some s => if fs_destroyed s then Raise (DriverError "unknown fleet") else Ok s
  | None => Raise (DriverError "unknown fleet")
  end.

Definition scale (d : FakeDriver) (ref : DriverRef) (workers : Z) : FakeDriver * result unit :=
  if workers <? 0 then (d, Raise (DriverError "workers must be >= 0"))
  else match require d ref with
       | Ok _ => (on_fleet d (ref_id ref) (set_desired workers), Ok tt)
       | Raise e => (d, Raise e)
       end.

Definition stop (d : FakeDriver) (ref : DriverRef) (grace_s : Z) : FakeDriver * result unit :=
  match require d ref with
  | Ok _ => (on_fleet d (ref_id ref) set_stopped, Ok tt)
  | Raise e => (d, Raise e)
  end.

(** [_resolve_state]: by native id, else the first live fleet of [raw.run_id];
    the key of the fleet found. *)
Definition resolve_state (d : FakeDriver) (ref : DriverRef) : option string :=
  match find (fk_fleets d) (ref_id ref) with
  | Some _ => Some (ref_id ref)
  | None =>
      match dget (ref_raw ref) "run_id" with
      | VNone => None
      | v => fst <$> List.find (fun ks => py_eqb (VInt (fs_run_id ks.2)) v
                                          && negb (fs_destroyed ks.2)) (fk_fleets d)
      end
  end.

Definition destroy (d : FakeDriver) (ref : DriverRef) : FakeDriver * result unit :=
  match resolve_state d ref with
  | None => (d, Ok tt)
  | Some id => (on_fleet d id set_destroyed, Ok tt)
  end.

Definition status (d : FakeDriver) (ref : DriverRef) : FakeDriver * result DriverStatus :=
  match find (fk_fleets d) (ref_id ref) with
  | Some s =>
      if fs_destroyed s then (d, Ok (mkDriverStatus 0 0 []))
      else
        let desired := if fs_stopped s then 0 else fs_desired s in
        let running := desired in
        (d, Ok (mkDriverStatus desired running
                  (map (fun i => (Some (Z.of_nat i), Some (if Z.of_nat i <? running then "running" else "pending")))
                     (seq 0 (Z.to_nat (fs_desired s))))))
  | None => (d, Ok (mkDriverStatus 0 0 []))
  end.

(** ["\n".join(lines)] over [log_lines[-tail:]], the whole log when [tail = 0]. *)
Definition newline : string := String (Ascii.ascii_of_nat 10) EmptyString.
Definition logs (d : FakeDriver) (ref : DriverRef) (slot : option Z) (tail : Z)
    : FakeDriver * result string :=
  match find (fk_fleets d) (ref_id ref) with
  | None => (d, Ok "")
  | Some s =>
      let n := length (fs_log_lines s) in
      let lines :=
        if tail =? 0 then fs_log_lines s
        else if 0 <? tail then drop (n - Z.to_nat tail) (fs_log_lines s)
        else drop (Z.to_nat (- tail)) (fs_log_lines s) in
      (d, Ok (String.concat newline lines))
  end.

Definition live_fleets (d : FakeDriver) : list (string * FleetState) :=
  filter (fun ks => fs_destroyed ks.2 = false) (fk_fleets d).

Definition list_run_ids (d : FakeDriver) : FakeDriver * result (gset Z) :=
  (d, Ok (list_to_set ((fun ks => fs_run_id ks.2) <$> live_fleets d))).

End Fake.

Global Instance fake_driver : Driver FakeDriver := {|
  drv_kind := fun _ => "fake";
  drv_namespace := fun _ => None;
  drv_create := Fake.create;
  drv_scale := Fake.scale;
  drv_stop := Fake.stop;
  drv_destroy := Fake.destroy;
  drv_status := Fake.status;
  drv_logs := Fake.logs;
  drv_list_run_ids := Fake.list_run_ids;
  drv_extend_deadline := None;
|}.

(** ** The laws of FakeDriver *)

(** Fleets have distinct ids, none of them a name the sweep makes up. *)
Definition fake_wf (d : FakeDriver) : Prop :=
  NoDup (fst <$> fk_fleets d)
  /\ forall k s, (k, s) ∈ fk_fleets d -> forall r : Z, k <> "stoker-run-" +:+ pretty r.

Definition fake_owned (d : FakeDriver) : gset Z :=
  list_to_set ((fun ks => fs_run_id ks.2) <$> Fake.live_fleets d).

Lemma elem_of_fake_owned d q :
  q ∈ fake_owned d
  <-> exists k s, (k, s) ∈ fk_fleets d /\ fs_destroyed s = false /\ fs_run_id s = q.
Proof.
  unfold fake_owned, Fake.live_fleets. rewrite elem_of_list_to_set, list_elem_of_fmap. split.
  - intros ([k s] & -> & Hin). apply list_elem_of_filter in Hin as [Hd Hin]. eauto.
  - intros (k & s & Hin & Hd & <-). exists (k, s). split; [done|]. by apply list_elem_of_filter.
Qed.

Lemma fake_update_keys fs id f : fst <$> Fake.update fs id f = fst <$> fs.
Proof. induction fs as [|[k s] fs IH]; cbn; [done|]. case_bool_decide; cbn; [done|]. by f_equal. Qed.

Lemma fake_update_other fs id f k s : (k, s) ∈ fs -> k <> id -> (k, s) ∈ Fake.update fs id f.
Proof.
  induction fs as [|[k' s'] fs IH]; cbn; [set_solver|]. intros [[= <- <-]|Hin]%elem_of_cons Hne.
  - rewrite bool_decide_eq_false_2 by done. set_solver.
  - case_bool_decide; set_solver.
Qed.

Lemma fake_find_in fs id s : Fake.find fs id = Some s -> (id, s) ∈ fs.
Proof.
  induction fs as [|[k s'] fs IH]; cbn; [done|]. case_bool_decide as E.
  - intros [= ->]. subst. set_solver.
  - intros Hf. apply elem_of_cons. right. auto.
Qed.

Lemma fake_keys_in fs k : k ∈ (fst <$> fs : list string) -> exists s : FleetState, (k, s) ∈ fs.
Proof. intros Hin. apply list_elem_of_fmap in Hin as ([k' s] & -> & Hin). eauto. Qed.

Lemma fake_destroy_frame d d' res ref r q :
  fake_wf d -> names_stray r ref -> Fake.destroy d ref = (d', res) ->
  fake_wf d' /\ (q <> r -> q ∈ fake_owned d -> q ∈ fake_owned d').
Proof.
  intros [Hnd Hk] [Hid Hraw]. unfold Fake.destroy, Fake.resolve_state.
  destruct (Fake.find (fk_fleets d) (ref_id ref)) as [s|] eqn:Ef.
  { exfalso. apply fake_find_in in Ef. rewrite Hid in Ef. by destruct (Hk _ _ Ef r). }
  rewrite Hraw. destruct (List.find _ _) as [[id s]|] eqn:Es; cbn; [|by intros [= <- _]].
  apply List.find_some in Es as [Hin Hs]. apply list_elem_of_In in Hin. cbn in Hs.
  apply andb_true_iff in Hs as [Hr _]. unfold py_eqb in Hr. cbn in Hr. apply Qeq_bool_iff in Hr.
  apply (proj1 (inject_Z_injective _ _)) in Hr. intros [= <- _]. split; [split|].
  - cbn. by rewrite fake_update_keys.
  - cbn. intros k s' Hin'. apply (list_elem_of_fmap_2 fst) in Hin'. rewrite fake_update_keys in Hin'.
    apply fake_keys_in in Hin' as [s2 Hin2]. eauto.
  - intros Hq. rewrite !elem_of_fake_owned. intros (k & s' & Hin' & Hd & Hrun). exists k, s'.
    split; [|done]. cbn. apply fake_update_other; [done|]. intros ->.
    assert (s' = s) as ->; [|congruence].
    apply list_elem_of_lookup in Hin as [i Hi], Hin' as [j Hj].
    assert (i = j) as ->; [|congruence].
    rewrite NoDup_alt in Hnd. apply (Hnd i j id); by rewrite list_lookup_fmap, ?Hi, ?Hj.
Qed.

Global Instance fake_driver_laws : DriverLaws FakeDriver.
Proof.
  refine {| drv_wf := fake_wf; drv_owned := fake_owned |}.
  - intros d d' res Hw [= <- _]. done.
  - exact fake_destroy_frame.
Defined.
