(* ===== verification/Model.v ===== *)
(** * The control plane's data (server/models.py and the constants of
    server/lifecycle.py)

    The rows the lifecycle works on, as records: a run, its worker leases in
    slot order, its audit events in insertion order and its metric samples in
    insertion order.  A [world] is what one handler sees: the clock, the run
    with its rows, the targets' health, the driver registry and the supply of
    random tokens.

    Instants and durations are integers, in microseconds (the resolution of
    [datetime]); a [float] number of seconds obtained from two instants is kept
    as that exact integer.  One handler runs at one instant: every [utcnow()]
    in it reads the same clock. *)

From S2P Require Import Prelude.
From S2P Require Import PyFloat.
From S2P Require Import PyValue.
From S2P Require Import Driver.
From Stdlib Require Import QArith.
Open Scope Z_scope.

(** ** States *)

Inductive run_state : Type :=
  | Pending | Preparing | Provisioning | Releasing | Running | Paused
  | Draining | Completed | Stopped | Failed.

Inductive lease_state : Type := LFree | LClaimed | LReady | LRunning | LLost | LDone.

Global Instance run_state_eq_dec : EqDecision run_state.
Proof. solve_decision. Defined.
Global Instance lease_state_eq_dec : EqDecision lease_state.
Proof. solve_decision. Defined.

Definition state_name (s : run_state) : string :=
  match s with
  | Pending => "pending" | Preparing => "preparing" | Provisioning => "provisioning"
  | Releasing => "releasing" | Running => "running" | Paused => "paused"
  | Draining => "draining" | Completed => "completed" | Stopped => "stopped"
  | Failed => "failed"
  end.

Global Instance state_name_inj : Inj (=) (=) state_name.
Proof. intros [] []; cbn; congruence. Qed.

(** [TERMINAL_STATES] *)
Definition terminal (s : run_state) : bool :=
  match s with Completed | Stopped | Failed => true | _ => false end.

(** [(LEASE_CLAIMED, LEASE_READY, LEASE_RUNNING)] *)
Definition live (s : lease_state) : bool :=
  match s with LClaimed | LReady | LRunning => true | _ => false end.

(** ** Timing windows *)

Definition usec : Z := 1000000.
Definition RELEASE_DELAY : Z := 2 * usec.
Definition PROVISION_TIMEOUT : Z := 120 * usec.
Definition LEASE_LAPSE : Z := 30 * usec.
Definition BOOT_GRACE : Z := 60 * usec.
Definition STOP_GRACE_S : Z := 45.
Definition STOP_GRACE : Z := STOP_GRACE_S * usec.
Definition AUTO_ABORT_LOST : Z := 300 * usec.
Definition PAUSE_DEADLINE_HEADROOM : Z := 86400 * usec.

(** ** Rows *)

Record rotation : Type := mkRotation { rot_scope : option string; rot_fields : list string }.

Record backfill_block : Type := mkBackfill {
  bf_start_s : Q; bf_end_s : Q; bf_resolution_s : option Q; bf_density_eps : Q;
}.

(** [spec_snapshot_json]: the keys the lifecycle reads; [None] for an absent or
    null key.  The target block is embedded by its fields. *)
Record snapshot : Type := mkSnapshot {
  sn_engine : option string;
  sn_rate_mode : option string;
  sn_rate_value : option Q;
  sn_workers : option Z;
  sn_duration_s : option Q;
  sn_fleet : option string;
  sn_strict_release : bool;
  sn_overrides : list (string * pyval);
  sn_index : option string;
  sn_sourcetype : option string;
  sn_telemetry_interval_s : option Q;
  sn_rate_shape : option string;
  sn_hec_url : option string;
  sn_default_index : option string;
  sn_rotation : option rotation;
  sn_backfill : option backfill_block;
  sn_backpressure_original_rate : option Q;
  sn_eventgen_impl : option string;
}.

(** The [{}] that a null snapshot reads as. *)
Definition empty_snapshot : snapshot :=
  mkSnapshot None None None None None None false [] None None None None None None None None None None.

(** [run.spec]: the fleet it names and the target it points at. *)
Record spec_ref : Type := mkSpecRef { sr_fleet : option string; sr_target : option Z }.

Record Run : Type := mkRun {
  r_id : Z;
  r_spec : option spec_ref;
  r_snapshot : option snapshot;
  r_resolved_sha : option string;
  r_bundle : option string;          (* the bundle row's digest *)
  r_state : run_state;
  r_degraded : bool;
  r_jwt_kid : option string;
  r_driver_ref : option DriverRef;
  r_started_by : option string;
  r_created_at : option Z;
  r_t0 : option Z;
  r_ended_at : option Z;
  r_end_reason : option string;
  r_totals : pydict;
  r_paused_at : option Z;
  r_paused : Z;                      (* paused_s *)
}.

Record WorkerLease : Type := mkLease {
  l_slot : nat;
  l_share : pydict;
  l_id : string;                     (* lease_id *)
  l_holder : option string;
  l_state : lease_state;
  l_last_heartbeat_at : option Z;
  l_effective_t0 : option Z;
  l_restarts : Z;
  l_final_log_tail : option (list string);
}.

Record MetricSample : Type := mkSample {
  ms_slot : nat;
  ms_ts : Z;
  ms_events_total : option Z;
  ms_bytes_total : option Z;
  ms_hec_2xx : option Z;
  ms_hec_4xx : option Z;
  ms_hec_5xx : option Z;
  ms_hec_timeouts : option Z;
  ms_retries : option Z;
  ms_queue_depth : option Z;
  ms_engine_threads : option Z;
  ms_eps : option Q;
  ms_bps : option Q;
  ms_lag_s : option Q;
  ms_rss_mb : option Q;
  ms_cpu_pct : option Q;
  ms_engine_cpu_pct : option Q;
  ms_cpu_limit_cores : option Q;
}.

(** Values of an event's [detail_json]: a scalar or a list of slots. *)
Inductive jval : Type := JV (v : pyval) | JSlots (l : list nat).

Record RunEvent : Type := mkEvent {
  ev_ts : Z;
  ev_actor : string;
  ev_kind : string;
  ev_detail : list (string * jval);
}.

(** [health_state], [health_detail], [last_health_at] of a target *)
Record health : Type := mkHealth {
  h_state : string; h_detail : string; h_at : Z;
}.

Record fleet_row : Type := mkFleet { fl_driver : string; fl_config : string }.

(** The process's driver objects by identity, the cache by fleet name, and the
    [fleets] table. *)
Record registry (D : Type) : Type := mkRegistry {
  reg_objects : gmap nat D;
  reg_cache : gmap string nat;
  reg_fleets : gmap string fleet_row;
}.
Arguments mkRegistry {D}. Arguments reg_objects {D}. Arguments reg_cache {D}.
Arguments reg_fleets {D}.

Record world (D : Type) : Type := mkWorld {
  w_now : Z;
  w_run : Run;
  w_leases : list WorkerLease;
  w_events : list RunEvent;
  w_samples : list MetricSample;
  w_targets : gmap Z health;
  w_registry : registry D;
  w_tokens : nat;                    (* how many random tokens were drawn *)
}.
Arguments mkWorld {D}. Arguments w_now {D}. Arguments w_run {D}. Arguments w_leases {D}.
Arguments w_events {D}. Arguments w_samples {D}. Arguments w_targets {D}.
Arguments w_registry {D}. Arguments w_tokens {D}.

(** ** Settings and the code outside the repository *)

Record settings : Type := mkSettings {
  public_base_url : string;
  worker_image : string;
  jwt_ttl_s : Z;
  backpressure_drain_enabled : bool;
  backpressure_action : string;
  backpressure_min_failed_fraction : Q;
  backpressure_sustained : Z;
  backpressure_step_factor : Q;
  backpressure_min_rate_fraction : Q;
  backfill_cap_eps : option Q;
}.

(** What the lifecycle takes from its surroundings: float rounding, settings,
    [secrets.token_hex] (the [n]-th token drawn; tokens do not repeat), the JWT
    library, how a fleet row's driver is built, [repr] of a float, Fernet decryption
    and the text of the configured CA bundle. *)
Class Env (D : Type) : Type := {
  env_rounding :: Rounding;
  env_driver :: Driver D;
  env_settings : settings;
  token_hex : nat -> string;
  token_hex_inj :: Inj (=) (=) token_hex;
  mint_run_jwt : Z -> string -> string;
  jwt_seconds_remaining : string -> option Z;
  build_driver : fleet_row -> result D;
  repr_float : Q -> string;
  decrypt : string -> string;
  ca_bundle_pem : option string;
}.

(** ** Updates *)

Section Updates.
Context {D : Type}.
Abbreviation W := (world D).

Definition with_run (f : Run -> Run) (w : W) : W :=
  mkWorld (w_now w) (f (w_run w)) (w_leases w) (w_events w) (w_samples w) (w_targets w)
    (w_registry w) (w_tokens w).
Definition with_leases (f : list WorkerLease -> list WorkerLease) (w : W) : W :=
  mkWorld (w_now w) (w_run w) (f (w_leases w)) (w_events w) (w_samples w) (w_targets w)
    (w_registry w) (w_tokens w).
Definition with_events (f : list RunEvent -> list RunEvent) (w : W) : W :=
  mkWorld (w_now w) (w_run w) (w_leases w) (f (w_events w)) (w_samples w) (w_targets w)
    (w_registry w) (w_tokens w).
Definition with_samples (f : list MetricSample -> list MetricSample) (w : W) : W :=
  mkWorld (w_now w) (w_run w) (w_leases w) (w_events w) (f (w_samples w)) (w_targets w)
    (w_registry w) (w_tokens w).
Definition with_targets (f : gmap Z health -> gmap Z health) (w : W) : W :=
  mkWorld (w_now w) (w_run w) (w_leases w) (w_events w) (w_samples w) (f (w_targets w))
    (w_registry w) (w_tokens w).
Definition with_registry (f : registry D -> registry D) (w : W) : W :=
  mkWorld (w_now w) (w_run w) (w_leases w) (w_events w) (w_samples w) (w_targets w)
    (f (w_registry w)) (w_tokens w).
Definition with_tokens (f : nat -> nat) (w : W) : W :=
  mkWorld (w_now w) (w_run w) (w_leases w) (w_events w) (w_samples w) (w_targets w)
    (w_registry w) (f (w_tokens w)).
End Updates.

Definition set_state (s : run_state) (r : Run) : Run :=
  mkRun (r_id r) (r_spec r) (r_snapshot r) (r_resolved_sha r) (r_bundle r) s (r_degraded r)
    (r_jwt_kid r) (r_driver_ref r) (r_started_by r) (r_created_at r) (r_t0 r) (r_ended_at r)
    (r_end_reason r) (r_totals r) (r_paused_at r) (r_paused r).
Definition set_end_reason (e : option string) (r : Run) : Run :=
  mkRun (r_id r) (r_spec r) (r_snapshot r) (r_resolved_sha r) (r_bundle r) (r_state r)
    (r_degraded r) (r_jwt_kid r) (r_driver_ref r) (r_started_by r) (r_created_at r) (r_t0 r)
    (r_ended_at r) e (r_totals r) (r_paused_at r) (r_paused r).
Definition set_ended_at (t : option Z) (r : Run) : Run :=
  mkRun (r_id r) (r_spec r) (r_snapshot r) (r_resolved_sha r) (r_bundle r) (r_state r)
    (r_degraded r) (r_jwt_kid r) (r_driver_ref r) (r_started_by r) (r_created_at r) (r_t0 r)
    t (r_end_reason r) (r_totals r) (r_paused_at r) (r_paused r).
Definition set_t0 (t : option Z) (r : Run) : Run :=
  mkRun (r_id r) (r_spec r) (r_snapshot r) (r_resolved_sha r) (r_bundle r) (r_state r)
    (r_degraded r) (r_jwt_kid r) (r_driver_ref r) (r_started_by r) (r_created_at r) t
    (r_ended_at r) (r_end_reason r) (r_totals r) (r_paused_at r) (r_paused r).
Definition set_degraded (b : bool) (r : Run) : Run :=
  mkRun (r_id r) (r_spec r) (r_snapshot r) (r_resolved_sha r) (r_bundle r) (r_state r)
    b (r_jwt_kid r) (r_driver_ref r) (r_started_by r) (r_created_at r) (r_t0 r) (r_ended_at r)
    (r_end_reason r) (r_totals r) (r_paused_at r) (r_paused r).
Definition set_snapshot (s : snapshot) (r : Run) : Run :=
  mkRun (r_id r) (r_spec r) (Some s) (r_resolved_sha r) (r_bundle r) (r_state r) (r_degraded r)
    (r_jwt_kid r) (r_driver_ref r) (r_started_by r) (r_created_at r) (r_t0 r) (r_ended_at r)
    (r_end_reason r) (r_totals r) (r_paused_at r) (r_paused r).
Definition set_driver_ref (d : DriverRef) (r : Run) : Run :=
  mkRun (r_id r) (r_spec r) (r_snapshot r) (r_resolved_sha r) (r_bundle r) (r_state r)
    (r_degraded r) (r_jwt_kid r) (Some d) (r_started_by r) (r_created_at r) (r_t0 r)
    (r_ended_at r) (r_end_reason r) (r_totals r) (r_paused_at r) (r_paused r).
Definition set_totals (d : pydict) (r : Run) : Run :=
  mkRun (r_id r) (r_spec r) (r_snapshot r) (r_resolved_sha r) (r_bundle r) (r_state r)
    (r_degraded r) (r_jwt_kid r) (r_driver_ref r) (r_started_by r) (r_created_at r) (r_t0 r)
    (r_ended_at r) (r_end_reason r) d (r_paused_at r) (r_paused r).
Definition set_paused (at_ : option Z) (banked : Z) (r : Run) : Run :=
  mkRun (r_id r) (r_spec r) (r_snapshot r) (r_resolved_sha r) (r_bundle r) (r_state r)
    (r_degraded r) (r_jwt_kid r) (r_driver_ref r) (r_started_by r) (r_created_at r) (r_t0 r)
    (r_ended_at r) (r_end_reason r) (r_totals r) at_ banked.

Definition snap_set_rate (q : option Q) (s : snapshot) : snapshot :=
  mkSnapshot (sn_engine s) (sn_rate_mode s) q (sn_workers s) (sn_duration_s s) (sn_fleet s)
    (sn_strict_release s) (sn_overrides s) (sn_index s) (sn_sourcetype s)
    (sn_telemetry_interval_s s) (sn_rate_shape s) (sn_hec_url s) (sn_default_index s)
    (sn_rotation s) (sn_backfill s) (sn_backpressure_original_rate s) (sn_eventgen_impl s).
Definition snap_set_workers (n : Z) (s : snapshot) : snapshot :=
  mkSnapshot (sn_engine s) (sn_rate_mode s) (sn_rate_value s) (Some n) (sn_duration_s s)
    (sn_fleet s) (sn_strict_release s) (sn_overrides s) (sn_index s) (sn_sourcetype s)
    (sn_telemetry_interval_s s) (sn_rate_shape s) (sn_hec_url s) (sn_default_index s)
    (sn_rotation s) (sn_backfill s) (sn_backpressure_original_rate s) (sn_eventgen_impl s).
Definition snap_set_original (q : Q) (s : snapshot) : snapshot :=
  mkSnapshot (sn_engine s) (sn_rate_mode s) (sn_rate_value s) (sn_workers s) (sn_duration_s s)
    (sn_fleet s) (sn_strict_release s) (sn_overrides s) (sn_index s) (sn_sourcetype s)
    (sn_telemetry_interval_s s) (sn_rate_shape s) (sn_hec_url s) (sn_default_index s)
    (sn_rotation s) (sn_backfill s) (Some q) (sn_eventgen_impl s).

Definition set_lstate (s : lease_state) (l : WorkerLease) : WorkerLease :=
  mkLease (l_slot l) (l_share l) (l_id l) (l_holder l) s (l_last_heartbeat_at l)
    (l_effective_t0 l) (l_restarts l) (l_final_log_tail l).
Definition set_share (d : pydict) (l : WorkerLease) : WorkerLease :=
  mkLease (l_slot l) d (l_id l) (l_holder l) (l_state l) (l_last_heartbeat_at l)
    (l_effective_t0 l) (l_restarts l) (l_final_log_tail l).
Definition set_heartbeat (t : Z) (l : WorkerLease) : WorkerLease :=
  mkLease (l_slot l) (l_share l) (l_id l) (l_holder l) (l_state l) (Some t)
    (l_effective_t0 l) (l_restarts l) (l_final_log_tail l).
Definition set_log_tail (t : list string) (l : WorkerLease) : WorkerLease :=
  mkLease (l_slot l) (l_share l) (l_id l) (l_holder l) (l_state l) (l_last_heartbeat_at l)
    (l_effective_t0 l) (l_restarts l) (Some t).

(** The leases are session objects addressed by slot: an update rewrites the
    lease of that slot in place. *)
Definition upd_lease (slot : nat) (f : WorkerLease -> WorkerLease) (ls : list WorkerLease)
    : list WorkerLease :=
  (fun l => if bool_decide (l_slot l = slot) then f l else l) <$> ls.
