(* ===== verification/Shares.v ===== *)
(** * A lease's share (server/lifecycle.py, the share helpers)

    [share_json] holds the one public rate key the worker reads and private
    bookkeeping keys that start with an underscore.  The helpers that read and
    rewrite it, and what they keep: marking a retarget publishes exactly the new
    share, and the private keys never cross the wire. *)

From S2P Require Import Prelude.
From S2P Require Import PyFloat.
From S2P Require Import PyValue.
From S2P Require Import Apportion.
From S2P Require Import Driver.
From S2P Require Import Model.
From Stdlib Require Import QArith Qabs.
Open Scope Z_scope.

Definition RETARGET_MARKER : string := "_retarget".
Definition ASSIGNED_WORK_KEY : string := "_assigned_work".
Definition ASSIGNED_REASON_KEY : string := "_assigned_reason".
Definition ENGINE_IMPL_KEY : string := "_engine_impl".
Definition ENVELOPE_KEY : string := "_envelope".
Definition ASSIGNED_REASON_MAX : nat := 300.

(** [key.startswith("_")] *)
Definition is_private (key : string) : bool := String.prefix "_" key.

Definition public_share (share : pydict) : pydict :=
  filter (fun kv => is_private kv.1 = false) share.

(** [v in ("firebox", "python")] on a value that must be a string *)
Definition str_in (v : pyval) (allowed : list string) : option string :=
  match v with
  | VStr s => if bool_decide (s ∈ allowed) then Some s else None
  | _ => None
  end.

Definition store_engine_report (payload : pydict) (l : WorkerLease) : WorkerLease :=
  match str_in (dget payload "engine_impl") ["firebox"; "python"] with
  | None => l
  | Some impl =>
      let envelope := str_in (dget payload "envelope") ["hec"; "stoker"] in
      let envelope_v := match envelope with Some e => VStr e | None => VNone end in
      let share := l_share l in
      if py_eqb (dget share ENGINE_IMPL_KEY) (VStr impl)
         && py_eqb (dget share ENVELOPE_KEY) envelope_v
      then l
      else
        let share := <[ ENGINE_IMPL_KEY := VStr impl ]> share in
        set_share
          (match envelope with
           | None => delete ENVELOPE_KEY share
           | Some e => <[ ENVELOPE_KEY := VStr e ]> share
           end) l
  end.

(** [str(v)]; the rendering of a float is the [repr_float] argument. *)
Definition py_str (repr_float : Q -> string) (v : pyval) : string :=
  match v with
  | VNone => "None"
  | VBool b => if b then "True" else "False"
  | VInt z => pretty z
  | VFloat q => repr_float q
  | VStr s => s
  end.

Definition store_assigned_work {R : Rounding} (repr_float : Q -> string) (payload : pydict)
    (l : WorkerLease) : WorkerLease :=
  match coerce_int (dget payload "assigned_work") with
  | None => l
  | Some assigned =>
      let reason :=
        match dget payload "assigned_reason" with
        | VNone => None
        | v => Some (String.substring 0 ASSIGNED_REASON_MAX (py_str repr_float v))
        end in
      let reason := if 0 <? assigned then None else reason in
      let reason_v := match reason with Some s => VStr s | None => VNone end in
      let share := l_share l in
      if py_eqb (dget share ASSIGNED_WORK_KEY) (VInt assigned)
         && py_eqb (dget share ASSIGNED_REASON_KEY) reason_v
      then l
      else
        let share := <[ ASSIGNED_WORK_KEY := VInt assigned ]> share in
        set_share
          (match reason with
           | None => delete ASSIGNED_REASON_KEY share
           | Some s => <[ ASSIGNED_REASON_KEY := VStr s ]> share
           end) l
  end.

(** One of the worker-reported keys, carried over from the old share. *)
Definition carry_key (old_share : pydict) (new_share : pydict) (key : string) : pydict :=
  match old_share !! key, new_share !! key with
  | Some v, None => <[ key := v ]> new_share
  | _, _ => new_share
  end.

Definition mark_retarget (share : pydict) (l : WorkerLease) : WorkerLease :=
  let new_share :=
    foldl (carry_key (l_share l)) share
      [ASSIGNED_WORK_KEY; ASSIGNED_REASON_KEY; ENGINE_IMPL_KEY; ENVELOPE_KEY] in
  set_share (<[ RETARGET_MARKER := VBool true ]> new_share) l.

Definition clear_retarget (l : WorkerLease) : WorkerLease :=
  match l_share l !! RETARGET_MARKER with
  | Some _ => set_share (delete RETARGET_MARKER (l_share l)) l
  | None => l
  end.

Definition or_zero (value : option Q) : Q := default 0%Q value.

Definition share_for_mode (rate_mode : string) (value : option Q) : result pydict :=
  if bool_decide (rate_mode = "eps") then Ok (share "eps" (or_zero value))
  else if bool_decide (rate_mode = "per_day_gb") then Ok (share "per_day_gb" (or_zero value))
  else if bool_decide (rate_mode = "count_interval") then Ok (share "count" (or_zero value))
  else Raise (ValueError "unknown rate_mode").

Definition apportion_weights (workers : Z) : list Q :=
  replicate (Z.to_nat (Z.max 1 workers)) 1%Q.

Definition build_share_list {R : Rounding} (rate_mode : string) (rate_value : option Q)
    (workers : Z) : result (list pydict) :=
  apportion_shares rate_mode rate_value workers (Some (apportion_weights workers)).

(** [snap.get("rate_mode") or "eps"] *)
Definition rate_mode_of (snap : snapshot) : string :=
  match sn_rate_mode snap with
  | Some m => if bool_decide (m = "") then "eps" else m
  | None => "eps"
  end.

(** ** Leases *)

(** Pick by hint, else the lowest slot, among the leases that satisfy [ok]. *)
Fixpoint min_slot (ls : list WorkerLease) : option WorkerLease :=
  match ls with
  | [] => None
  | l :: ls =>
      match min_slot ls with
      | Some m => if (l_slot l <=? l_slot m)%nat then Some l else Some m
      | None => Some l
      end
  end.

Definition pick_slot (ok : lease_state -> bool) (leases : list WorkerLease)
    (hint_slot : option nat) : option WorkerLease :=
  let candidates := List.filter (fun l => ok (l_state l)) leases in
  match hint_slot with
  | Some h =>
      match List.find (fun l => Nat.eqb (l_slot l) h) candidates with
      | Some l => Some l
      | None => min_slot candidates
      end
  | None => min_slot candidates
  end.

Definition is_free (s : lease_state) : bool := bool_decide (s = LFree).
Definition claimable (s : lease_state) : bool :=
  match s with LFree | LLost => true | _ => false end.

Definition next_free_slot : list WorkerLease -> option nat -> option WorkerLease :=
  pick_slot is_free.
Definition next_claimable : list WorkerLease -> option nat -> option WorkerLease :=
  pick_slot claimable.

Definition is_lease_holder (lease : option WorkerLease) (lease_id : option string) : bool :=
  match lease with
  | Some l => bool_decide (lease_id = Some (l_id l))
  | None => false
  end.

(** ** Facts *)

Lemma public_share_lookup s k :
  public_share s !! k = if is_private k then None else s !! k.
Proof.
  unfold public_share. destruct (is_private k) eqn:E.
  - apply map_lookup_filter_None. right. intros x _ H. change (is_private k = false) in H. congruence.
  - destruct (s !! k) as [v|] eqn:Hs.
    + by apply map_lookup_filter_Some.
    + apply map_lookup_filter_None. by left.
Qed.

Lemma public_share_ext s1 s2 :
  (forall k, is_private k = false -> s1 !! k = s2 !! k) -> public_share s1 = public_share s2.
Proof.
  intros H. apply map_eq. intros k. rewrite !public_share_lookup.
  destruct (is_private k) eqn:E; auto.
Qed.

Lemma public_share_insert k v s : is_private k = true -> public_share (<[ k := v ]> s) = public_share s.
Proof.
  intros Hk. apply public_share_ext. intros k' Hk'.
  apply lookup_insert_ne. congruence.
Qed.

Lemma public_share_delete k s : is_private k = true -> public_share (delete k s) = public_share s.
Proof.
  intros Hk. apply public_share_ext. intros k' Hk'.
  apply lookup_delete_ne. congruence.
Qed.

Lemma public_share_public s : (forall k v, s !! k = Some v -> is_private k = false) -> public_share s = s.
Proof.
  intros H. apply map_eq. intros k. rewrite public_share_lookup.
  destruct (is_private k) eqn:E; [|done].
  destruct (s !! k) as [v|] eqn:Hs; [|done]. apply H in Hs. congruence.
Qed.

Lemma public_share_share key q : is_private key = false -> public_share (share key q) = share key q.
Proof.
  intros Hk. apply public_share_public. intros k v Hkv.
  unfold share in Hkv. apply lookup_singleton_Some in Hkv as [<- _]. done.
Qed.

Lemma carry_key_public old new k : is_private k = true -> public_share (carry_key old new k) = public_share new.
Proof.
  intros Hk. unfold carry_key. destruct (old !! k), (new !! k); try done.
  by apply public_share_insert.
Qed.

(** The share a retarget publishes is exactly the new one. *)
Lemma mark_retarget_public s l : public_share (l_share (mark_retarget s l)) = public_share s.
Proof.
  cbn. rewrite public_share_insert by done.
  cbn [foldl]. by rewrite !carry_key_public by done.
Qed.

Lemma mark_retarget_flag s l : l_share (mark_retarget s l) !! RETARGET_MARKER = Some (VBool true).
Proof. cbn. apply lookup_insert_eq. Qed.

Lemma clear_retarget_public l : public_share (l_share (clear_retarget l)) = public_share (l_share l).
Proof.
  unfold clear_retarget. destruct (l_share l !! RETARGET_MARKER); [|done].
  cbn. by apply public_share_delete.
Qed.

Lemma clear_retarget_flag l : l_share (clear_retarget l) !! RETARGET_MARKER = None.
Proof.
  unfold clear_retarget. destruct (l_share l !! RETARGET_MARKER) eqn:E; [|done].
  cbn. apply lookup_delete_eq.
Qed.

(** Heartbeat bookkeeping rewrites private keys only. *)
Lemma store_engine_report_public p l :
  public_share (l_share (store_engine_report p l)) = public_share (l_share l).
Proof.
  unfold store_engine_report. destruct (str_in _ _) as [impl|]; [|done].
  destruct (_ && _); [done|]. destruct (str_in _ ["hec"; "stoker"]); cbn;
    rewrite ?public_share_insert, ?public_share_delete, ?public_share_insert by done; done.
Qed.

Lemma store_assigned_work_public {R : Rounding} rf p l :
  public_share (l_share (store_assigned_work rf p l)) = public_share (l_share l).
Proof.
  unfold store_assigned_work. destruct (coerce_int _) as [a|]; [|done].
  destruct (_ && _); [done|].
  match goal with |- context [match ?r with None => _ | _ => _ end] => destruct r end;
    cbn; rewrite ?public_share_insert, ?public_share_delete, ?public_share_insert by done; done.
Qed.

Lemma min_slot_spec ls :
  match min_slot ls with
  | Some m => m ∈ ls /\ (forall l, l ∈ ls -> (l_slot m <= l_slot l)%nat)
  | None => ls = []
  end.
Proof.
  induction ls as [|l ls IH]; cbn; [done|].
  destruct (min_slot ls) as [m|].
  - destruct IH as [Hin Hmin]. destruct (Nat.leb_spec (l_slot l) (l_slot m)); split;
      try set_solver; intros l' [->|Hl']%elem_of_cons; try lia; specialize (Hmin _ Hl'); lia.
  - subst ls. split; [set_solver|]. intros l' Hl'. assert (l' = l) as -> by set_solver. lia.
Qed.

(** [pick_slot] returns an eligible lease: the hinted one when it is eligible,
    else the lowest-slot one; it returns nothing only when none is eligible. *)
Lemma pick_slot_spec ok ls hint :
  match pick_slot ok ls hint with
  | Some l =>
      l ∈ ls /\ ok (l_state l) = true
      /\ (Some (l_slot l) = hint
          \/ (forall l', l' ∈ ls -> ok (l_state l') = true ->
                Some (l_slot l') <> hint /\ (l_slot l <= l_slot l')%nat))
  | None => forall l, l ∈ ls -> ok (l_state l) = false
  end.
Proof.
  unfold pick_slot. set (cs := List.filter _ ls).
  assert (forall l, l ∈ cs <-> l ∈ ls /\ ok (l_state l) = true) as Hcs.
  { intros l. subst cs. rewrite !list_elem_of_In, filter_In. done. }
  pose proof (min_slot_spec cs) as Hmin.
  assert (hint = None \/ (exists h, hint = Some h /\
     List.find (fun l => Nat.eqb (l_slot l) h) cs = None) \/
     exists h l, hint = Some h /\ List.find (fun l => Nat.eqb (l_slot l) h) cs = Some l) as Hh.
  { destruct hint as [h|]; [|by left]. right.
    destruct (List.find (fun l => Nat.eqb (l_slot l) h) cs) eqn:E; [right|left]; eauto. }
  destruct Hh as [->|[(h & -> & E)|(h & l & -> & E)]].
  - destruct (min_slot cs) as [m|].
    + destruct Hmin as [Hm Hle]. apply Hcs in Hm as [? ?]. repeat split; auto. right.
      intros l' Hl' Ho. split; [done|]. apply Hle. by apply Hcs.
    + intros l Hl. destruct (ok (l_state l)) eqn:Eo; [|done].
      assert (l ∈ cs) as Hx by (by apply Hcs). rewrite Hmin in Hx. set_solver.
  - rewrite E. destruct (min_slot cs) as [m|].
    + destruct Hmin as [Hm Hle]. apply Hcs in Hm as [? ?]. repeat split; auto. right.
      intros l' Hl' Ho. assert (l' ∈ cs) as Hx by (by apply Hcs). split; [|by apply Hle].
      intros [= Heq]. apply list_elem_of_In in Hx.
      apply (List.find_none _ _ E) in Hx. cbn in Hx. subst. by rewrite Nat.eqb_refl in Hx.
    + intros l Hl. destruct (ok (l_state l)) eqn:Eo; [|done].
      assert (l ∈ cs) as Hx by (by apply Hcs). rewrite Hmin in Hx. set_solver.
  - rewrite E. apply List.find_some in E as [Hin Heq].
    apply list_elem_of_In, Hcs in Hin as [? ?]. apply Nat.eqb_eq in Heq. subst. auto.
Qed.

(** ** The rate a set of leases carries *)

(** The sum of the leases' shares under one rate key. *)
Definition fleet_rate (key : string) (leases : list WorkerLease) : Q :=
  qsum (share_value key <$> (l_share <$> leases)).

Definition gated (mode : string) : Prop := mode = "eps" \/ mode = "per_day_gb".

Lemma gated_public mode : gated mode -> is_private mode = false.
Proof. by intros [-> | ->]. Qed.

Lemma share_value_lookup key s1 s2 : s1 !! key = s2 !! key -> share_value key s1 = share_value key s2.
Proof. intros E. unfold share_value, dget. by rewrite E. Qed.

Lemma share_value_public key s : is_private key = false -> share_value key (public_share s) = share_value key s.
Proof. intros Hk. apply share_value_lookup. by rewrite public_share_lookup, Hk. Qed.

Lemma share_value_mark_retarget key s l :
  is_private key = false -> share_value key (l_share (mark_retarget s l)) = share_value key s.
Proof.
  intros Hk. rewrite <- share_value_public, mark_retarget_public by done.
  by rewrite share_value_public.
Qed.

(** The shares of a gated rate over [n] slots, as every caller computes them. *)
Lemma build_share_list_ok {R : Rounding} mode v n :
  gated mode -> (0 < v)%Q -> 1 <= n -> 8 * n <= 2 ^ 53 ->
  exists shares,
    build_share_list mode (Some v) n = Ok shares
    /\ length shares = Z.to_nat n
    /\ Forall (fun s => exists q, s = share mode q /\ (0 < q)%Q) shares
    /\ (Qabs (qsum (share_value mode <$> shares) - v) <= 4 * eps * v)%Q.
Proof.
  intros Hm Hv H1 H2. destruct (apportion_shares_equal mode v (Z.to_nat n) Hm Hv) as (sh & E & Hl & Hs);
    [lia..|]. exists sh. split; [|done]. unfold build_share_list, apportion_weights.
  replace (Z.max 1 n) with n by lia. by rewrite Z2Nat.id in E by lia.
Qed.
