(* ===== verification/Session.v ===== *)
(** * Session-level helpers (server/lifecycle.py, the pure helpers)

    The audit trail, the one function that changes a run's state, lease lookup
    and seeding, driver resolution, heartbeat counters and the folding of
    totals, as effects on a [world]. *)

From S2P Require Import Prelude.
From S2P Require Import PyFloat.
From S2P Require Import PyValue.
From S2P Require Import Apportion.
From S2P Require Import Driver.
From S2P Require Import Model.
From S2P Require Import Shares.
From Stdlib Require Import QArith.
Open Scope Z_scope.

Definition jstr (s : string) : jval := JV (VStr s).
Definition jint (z : Z) : jval := JV (VInt z).
Definition jbool (b : bool) : jval := JV (VBool b).
Definition jopt (s : option string) : jval :=
  match s with Some s => jstr s | None => JV VNone end.

(** Microseconds as a float number of seconds, rounded to [n] decimals. *)
Definition seconds (us : Z) : Q := (inject_Z us / inject_Z usec)%Q.
Definition py_round (n : Z) (q : Q) : Q :=
  (inject_Z (round_half_even (q * inject_Z (10 ^ n))) / inject_Z (10 ^ n))%Q.

Section Session.
Context {D : Type} `{Env D}.
Abbreviation eff := (M (world D)).

Definition utcnow : eff Z := gets w_now.

(** Assignments to attributes of the run and of one lease. *)
Definition on_run (f : Run -> Run) : eff unit := modify (with_run f).
Definition on_lease (slot : nat) (f : WorkerLease -> WorkerLease) : eff unit :=
  modify (with_leases (upd_lease slot f)).

(** ** Events and transitions *)

Definition push_event (kind : string) (detail : list (string * jval)) (actor : string)
    (w : world D) : world D :=
  with_events (fun es => es ++ [mkEvent (w_now w) actor kind detail]) w.

Definition append_event (kind : string) (detail : list (string * jval)) (actor : string)
    : eff unit :=
  modify (push_event kind detail actor).

(** [payload.update(detail)] keeps the position of an existing key. *)
Definition update_detail (base extra : list (string * jval)) : list (string * jval) :=
  foldl (fun d kv =>
           if existsb (fun p => bool_decide (p.1 = kv.1)) d
           then (fun p => if bool_decide (p.1 = kv.1) then kv else p) <$> d
           else d ++ [kv]) base extra.

Definition state_payload (old_state new_state : run_state) (end_reason : option string)
    (detail : list (string * jval)) : list (string * jval) :=
  update_detail
    (("from", jstr (state_name old_state)) :: ("to", jstr (state_name new_state))
       :: match end_reason with Some e => [("end_reason", jstr e)] | None => [] end)
    detail.

(** The telemetry event that the code ships after the transition does not touch
    the session. *)
Definition transition_world (new_state : run_state) (detail : list (string * jval))
    (actor : string) (end_reason : option string) (w : world D) : world D :=
  let run := w_run w in
  let old_state := r_state run in
  let c1 := negb (bool_decide (old_state = new_state)) in
  let run := if c1 then set_state new_state run else run in
  let c2 := match end_reason with
            | Some _ => negb (bool_decide (r_end_reason run = end_reason))
            | None => false
            end in
  let run := if c2 then set_end_reason end_reason run else run in
  let c3 := terminal new_state && bool_decide (r_ended_at run = None) in
  let run := if c3 then set_ended_at (Some (w_now w)) run else run in
  let w := with_run (fun _ => run) w in
  if c1 || c2 || c3
  then push_event "state" (state_payload old_state new_state end_reason detail) actor w
  else w.

Definition transition_run (new_state : run_state) (detail : list (string * jval))
    (actor : string) (end_reason : option string) : eff unit :=
  modify (transition_world new_state detail actor end_reason).

(** ** Leases *)

Definition new_lease_id : eff string :=
  w ← get;
  _ ← modify (with_tokens S);
  mret ("le_" +:+ token_hex (w_tokens w)).

Definition free_lease (slot : nat) (share : pydict) (id : string) : WorkerLease :=
  mkLease slot share id None LFree None None 0 None.

(** [enumerate(shares)] from slot [first]: one free lease each. *)
Fixpoint seed_from (first : nat) (shares : list pydict) : eff unit :=
  match shares with
  | [] => mret tt
  | share :: shares =>
      id ← new_lease_id;
      _ ← modify (with_leases (fun ls => ls ++ [free_lease first share id]));
      seed_from (S first) shares
  end.

Definition seed_leases (shares : list pydict) : eff unit := seed_from 0 shares.

Definition get_run_leases : eff (list WorkerLease) := gets w_leases.

Definition lookup_slot (slot : nat) (leases : list WorkerLease) : option WorkerLease :=
  List.find (fun l => Nat.eqb (l_slot l) slot) leases.

Definition find_lease (slot : nat) : eff (option WorkerLease) :=
  gets (fun w => lookup_slot slot (w_leases w)).

(** [run.spec_snapshot_json or {}] *)
Definition snap_of (r : Run) : snapshot := default empty_snapshot (r_snapshot r).

(** [_seconds_between], in microseconds *)
Definition seconds_between (earlier : option Z) (later : Z) : Z :=
  match earlier with Some e => later - e | None => 0 end.

(** ** Drivers *)

Definition object_at (oid : nat) : eff (option D) :=
  gets (fun w => reg_objects (w_registry w) !! oid).

Definition set_objects (f : gmap nat D -> gmap nat D) (r : registry D) : registry D :=
  mkRegistry (f (reg_objects r)) (reg_cache r) (reg_fleets r).

(** Call one method of the driver object [oid], keeping its next state. *)
Definition call {A} (oid : nat) (op : D -> D * result A) : eff A := fun w =>
  match reg_objects (w_registry w) !! oid with
  | None => (w, Raise (DriverError "no such driver"))
  | Some d =>
      let '(d', r) := op d in (with_registry (set_objects (<[ oid := d' ]>)) w, r)
  end.

(** [get_driver] on a fleet row: the cached driver, else build and cache it. *)
Definition get_driver (name : string) (row : fleet_row) : eff nat :=
  w ← get;
  match reg_cache (w_registry w) !! name with
  | Some oid => mret oid
  | None =>
      d ← lift (build_driver row);
      let oid := fresh (dom (reg_objects (w_registry w))) in
      _ ← modify (with_registry (fun r =>
            mkRegistry (<[ oid := d ]> (reg_objects r)) (<[ name := oid ]> (reg_cache r))
              (reg_fleets r)));
      mret oid
  end.

(** A name with no row is tried as a bare driver name; a [DriverError] is
    re-raised with the list of fleets. *)
Definition resolve_fleet_driver (fleet_name : string) : eff nat :=
  w ← get;
  match reg_fleets (w_registry w) !! fleet_name with
  | Some row => get_driver fleet_name row
  | None =>
      catch (get_driver fleet_name (mkFleet fleet_name ""))
        (fun e => match e with
                  | DriverError _ => raise (DriverError "unknown fleet")
                  | e => raise e
                  end)
  end.

(** The [drivers] mapping handed to the supervisor: fleet name to driver object
    ([None] for a null entry). *)
Abbreviation driver_map := (list (string * option nat)).

Definition lookup_driver (name : string) (drivers : driver_map) : option (option nat) :=
  snd <$> List.find (fun kv => bool_decide (kv.1 = name)) drivers.

(** [spec.fleet], else the snapshot's fleet. *)
Definition fleet_name_of (r : Run) : option string :=
  match r_spec r with
  | Some sp => match sr_fleet sp with Some f => Some f | None => sn_fleet (snap_of r) end
  | None => sn_fleet (snap_of r)
  end.

Definition get_run_driver (drivers : driver_map) : eff (option nat) :=
  w ← get;
  match fleet_name_of (w_run w) with
  | None => mret None
  | Some name =>
      if bool_decide (name = "") then mret None
      else match lookup_driver name drivers with
           | Some d => mret d
           | None =>
               catch (oid ← resolve_fleet_driver name; mret (Some oid))
                 (fun e => match e with DriverError _ => mret None | e => raise e end)
           end
  end.

Definition driver_ref_of (r : Run) : option DriverRef := r_driver_ref r.

(** ** Counters and totals *)

Definition build_metric_sample (slot : nat) (ts : Z) (p : pydict) : MetricSample :=
  let int_ k := coerce_int (dget p k) in
  let float_ k := coerce_float (dget p k) in
  mkSample slot ts (int_ "events_total") (int_ "bytes_total") (int_ "hec_2xx") (int_ "hec_4xx")
    (int_ "hec_5xx") (int_ "hec_timeouts") (int_ "retries") (int_ "queue_depth")
    (int_ "engine_threads") (float_ "eps") (float_ "bps") (float_ "lag_s") (float_ "rss_mb")
    (float_ "cpu_pct") (float_ "engine_cpu_pct") (float_ "cpu_limit_cores").

(** One key of a final summary folded into the totals. *)
Definition fold_key (totals : pydict) (kv : string * pyval) : result pydict :=
  let '(key, value) := kv in
  match value with
  | VBool _ => Ok (<[ key := value ]> totals)
  | VInt _ | VFloat _ =>
      v ← py_add (dget_or totals key (VInt 0)) value;
      Ok (<[ key := v ]> totals)
  | _ => Ok (<[ key := value ]> totals)
  end.

Fixpoint fold_summary (totals : pydict) (summary : list (string * pyval)) : result pydict :=
  match summary with
  | [] => Ok totals
  | kv :: summary => t ← fold_key totals kv; fold_summary t summary
  end.

Definition fold_totals (summary : list (string * pyval)) : eff unit :=
  w ← get;
  totals ← lift (fold_summary (r_totals (w_run w)) summary);
  on_run (set_totals totals).

(** [_LIVE_TOTAL_KEYS] with the column each reads. *)
Definition LIVE_TOTAL_KEYS : list (string * (MetricSample -> option Z)) :=
  [("events_total", ms_events_total); ("bytes_total", ms_bytes_total);
   ("hec_2xx", ms_hec_2xx); ("hec_4xx", ms_hec_4xx); ("hec_5xx", ms_hec_5xx);
   ("hec_timeouts", ms_hec_timeouts); ("retries", ms_retries)].

(** The newest sample of a slot (samples are in insertion order). *)
Definition newest_sample (slot : nat) (samples : list MetricSample) : option MetricSample :=
  last (List.filter (fun s => Nat.eqb (ms_slot s) slot) samples).

Definition add_sample (sample : MetricSample) (totals : pydict) : result pydict :=
  foldl (fun acc kc =>
           t ← acc;
           match kc.2 sample with
           | None => Ok t
           | Some value =>
               v ← py_add (dget_or t kc.1 (VInt 0)) (VInt value);
               Ok (<[ kc.1 := v ]> t)
           end) (Ok totals) LIVE_TOTAL_KEYS.

(** One slot's contribution to the live totals. *)
Definition live_step (samples : list MetricSample) (acc : result pydict) (l : WorkerLease)
    : result pydict :=
  t ← acc;
  if bool_decide (l_state l = LDone) then Ok t
  else match newest_sample (l_slot l) samples with
       | None => Ok t
       | Some s => add_sample s t
       end.

(** [live_totals] for one run: its totals plus, for every lease that is not
    done, the slot's newest heartbeat counters. *)
Definition live_totals (totals : pydict) (leases : list WorkerLease)
    (samples : list MetricSample) : result pydict :=
  foldl (live_step samples) (Ok totals) leases.

Definition fold_heartbeat_totals : eff unit :=
  w ← get;
  live ← lift (live_totals (r_totals (w_run w)) (w_leases w) (w_samples w));
  on_run (set_totals
            (foldl (fun t kc => match live !! kc.1 with
                                | Some v => <[ kc.1 := v ]> t
                                | None => t
                                end)
               (r_totals (w_run w)) LIVE_TOTAL_KEYS)).

(** ** Token refresh *)

(** [remaining <= settings.jwt_ttl_s * JWT_REFRESH_FRACTION]; seconds in
    microseconds, the fraction 0.2. *)
Definition maybe_refresh_jwt (run : Run) (current_token : option string) : option string :=
  match current_token, r_jwt_kid run with
  | Some tok, Some kid =>
      if bool_decide (tok = "") || bool_decide (kid = "") then None
      else match jwt_seconds_remaining tok with
           | None => None
           | Some remaining =>
               if 5 * remaining <=? jwt_ttl_s env_settings * usec
               then Some (mint_run_jwt (r_id run) kid)
               else None
           end
  | _, _ => None
  end.

(** ** Target health *)

Definition flag_target_unhealthy (detail : string) : eff unit :=
  w ← get;
  match r_spec (w_run w) with
  | None => mret tt
  | Some sp =>
      match sr_target sp with
      | None => mret tt
      | Some t => modify (with_targets (<[ t := mkHealth "red" detail (w_now w) ]>))
      end
  end.
End Session.

Abbreviation driver_map := (list (string * option nat)).
