(* ===== verification/Protocol.v ===== *)
(** * The agent protocol (server/lifecycle.py: claim, ready, heartbeat, final;
    release and completion)

    The transitions a worker drives: claiming a lease, reporting ready, the
    heartbeat with the command it answers, the final report; and the two
    evaluations they trigger, release of the fleet and completion of the run. *)

From S2P Require Import Prelude.
From S2P Require Import PyFloat.
From S2P Require Import PyValue.
From S2P Require Import Apportion.
From S2P Require Import Driver.
From S2P Require Import Model.
From S2P Require Import Shares.
From S2P Require Import Session.
From Stdlib Require Import QArith.
Open Scope Z_scope.

(** The command of a heartbeat response; [release] carries T0. *)
Inductive cmd : Type :=
  | Continue | Superseded | Drain | Pause | Release (t0 : Z) | Retarget (share : pydict).

(** A heartbeat response body: the command, and the optional keys. *)
Record response : Type := mkResponse {
  rp_command : cmd;
  rp_paused_s : option Q;
  rp_jwt : option string;
}.

Definition is_live (l : WorkerLease) : bool := live (l_state l).
Definition in_state (s : lease_state) (l : WorkerLease) : bool := bool_decide (l_state l = s).

(** ** Which terminal state *)

Definition STOPPED_REASONS : list string := ["operator-stop"].
Definition FAILED_REASONS : list string :=
  ["provision-failed"; "strict-release-timeout"; "auto-abort-lost"; "auto-abort-auth";
   "all-workers-lost"; "orphaned"; "no-events"].

Definition reason_in (reason : option string) (rs : list string) : bool :=
  match reason with Some r => bool_decide (r ∈ rs) | None => false end.

(** [int(totals.get("events_total") or 0)], 0 when [int] rejects it *)
Definition delivered_events (run : Run) : Z :=
  match dget (r_totals run) "events_total" with
  | VNone => 0
  | VBool b => if b then 1 else 0
  | VInt z => z
  | VFloat q => py_int q
  | VStr s => default 0 (int_of_string s)
  end.

Definition some_lost_none_done (leases : list WorkerLease) : bool :=
  existsb (in_state LLost) leases && negb (existsb (in_state LDone) leases).

Definition terminal_state_for (run : Run) (reason : option string) (leases : list WorkerLease)
    : run_state :=
  if reason_in reason FAILED_REASONS then Failed
  else if reason_in reason STOPPED_REASONS then Stopped
  else if some_lost_none_done leases then Failed
  else if delivered_events run =? 0 then Failed
  else Completed.

Definition default_end_reason (term : run_state) (leases : list WorkerLease) (run : Run)
    : string :=
  match term with
  | Completed => "completed"
  | Stopped => "operator-stop"
  | _ =>
      if some_lost_none_done leases then "all-workers-lost"
      else if existsb (in_state LDone) leases && (delivered_events run =? 0) then "no-events"
      else "failed"
  end.

(** [reason or default] *)
Definition or_reason (reason : option string) (dflt : string) : string :=
  match reason with
  | Some r => if bool_decide (r = "") then dflt else r
  | None => dflt
  end.

(** May a run with these leases reach its terminal state now? *)
Definition completable (state : run_state) (leases : list WorkerLease) : bool :=
  match state with
  | Running | Releasing | Paused | Draining =>
      negb (bool_decide (leases = []))
      && negb (existsb is_live leases)
      && existsb (fun l => in_state LDone l || in_state LLost l) leases
      && (bool_decide (state = Draining) || existsb (in_state LDone) leases)
  | _ => false
  end.

Definition count (f : WorkerLease -> bool) (ls : list WorkerLease) : Z :=
  Z.of_nat (length (List.filter f ls)).

Section Protocol.
Context {D : Type} `{Env D}.
Abbreviation eff := (M (world D)).

Definition maybe_complete_run : eff bool :=
  w ← get;
  let run := w_run w in
  let leases := w_leases w in
  if terminal (r_state run) then mret false
  else if negb (completable (r_state run) leases) then mret false
  else
    let reason := r_end_reason run in
    let term := terminal_state_for run reason leases in
    let end_reason := or_reason reason (default_end_reason term leases run) in
    let detail := [("done", jint (count (in_state LDone) leases));
                   ("lost", jint (count (in_state LLost) leases))] in
    let no_events := bool_decide (end_reason = "no-events") in
    _ ← when no_events
          (append_event "no_events" [("message", jstr "delivered no events")] "system");
    _ ← transition_run term
          (if no_events then detail ++ [("events_total", jint 0)] else detail)
          "system" (Some end_reason);
    mret true.

(** ** Release *)

(** [for lease, share in zip(leases, shares): mark_retarget(lease, share)] *)
Definition retarget_all (leases : list WorkerLease) (shares : list pydict) : eff unit :=
  for_each (zip leases shares) (fun ls => on_lease (l_slot ls.1) (mark_retarget ls.2)).

Definition reapportion_ready (ready : list WorkerLease) : eff unit :=
  w ← get;
  let snap := snap_of (w_run w) in
  if bool_decide (ready = []) then mret tt
  else
    shares ← lift (build_share_list (rate_mode_of snap) (sn_rate_value snap)
                     (Z.of_nat (length ready)));
    retarget_all ready shares.

Definition is_pending (l : WorkerLease) : bool :=
  match l_state l with LFree | LClaimed => true | _ => false end.

Definition mark_lost (ls : list WorkerLease) : eff unit :=
  for_each ls (fun l => on_lease (l_slot l) (set_lstate LLost)).

Definition evaluate_release (force_partial : bool) : eff bool :=
  w ← get;
  let run := w_run w in
  if negb (bool_decide (r_t0 run = None)) then mret false
  else if negb (bool_decide (r_state run ∈ [Provisioning; Preparing; Releasing])) then mret false
  else
    let leases := w_leases w in
    let ready := List.filter (in_state LReady) leases in
    if bool_decide (ready = []) then mret false
    else
      let pending := List.filter is_pending leases in
      let some_pending := negb (bool_decide (pending = [])) in
      if some_pending && negb force_partial then mret false
      else if some_pending && sn_strict_release (snap_of run) then
        _ ← mark_lost pending;
        _ ← transition_run Failed [("missing_slots", JSlots (l_slot <$> pending))] "system"
              (Some "strict-release-timeout");
        mret false
      else
        _ ← when some_pending
              (_ ← mark_lost pending;
               _ ← on_run (set_degraded true);
               _ ← reapportion_ready ready;
               append_event "partial_release"
                 [("ready_slots", JSlots (l_slot <$> ready));
                  ("lost_slots", JSlots (l_slot <$> pending))] "system");
        now ← utcnow;
        _ ← on_run (set_t0 (Some (now + RELEASE_DELAY)));
        _ ← transition_run Releasing
              [("t0", jint (now + RELEASE_DELAY));
               ("workers_ready", jint (Z.of_nat (length ready)))] "system" None;
        mret true.

(** ** Claim *)

(** Write the local view of a lease back to its row. *)
Definition save (l : WorkerLease) : eff unit := on_lease (l_slot l) (fun _ => l).

(** The new holder's share: the private keys it had, and the new public one. *)
Definition replace_public (old new : pydict) : pydict :=
  new ∪ filter (fun kv => is_private kv.1 = true) old.

(** The members whose stored share is not the recomputed one, with that one. *)
Definition changed_members (participants : list WorkerLease) (shares : list pydict)
    : list (WorkerLease * pydict) :=
  List.filter (fun ms => negb (pydict_eqb (public_share (l_share ms.1)) ms.2))
    (zip participants shares).

Definition reapportion_on_takeover (slot : nat) : eff unit :=
  w ← get;
  let run := w_run w in
  if terminal (r_state run) || bool_decide (r_state run = Draining) then mret tt
  else if negb (r_degraded run) then mret tt
  else
    let snap := snap_of run in
    let participants := List.filter is_live (w_leases w) in
    if bool_decide (participants = []) then mret tt
    else
      match build_share_list (rate_mode_of snap) (sn_rate_value snap)
              (Z.of_nat (length participants)) with
      | Raise (ValueError _) => mret tt
      | Raise e => raise e
      | Ok shares =>
          let changed := changed_members participants shares in
          _ ← for_each changed (fun ms =>
                on_lease (l_slot ms.1)
                  (if Nat.eqb (l_slot ms.1) slot
                   then fun l => set_share (replace_public (l_share l) ms.2) l
                   else mark_retarget ms.2));
          when (negb (bool_decide (length changed = 0%nat)))
            (append_event "reapportioned"
               [("reason", jstr "lost-lease-takeover"); ("slot", jint (Z.of_nat slot));
                ("participants", JSlots (l_slot <$> participants));
                ("changed_slots", JSlots ((fun ms => l_slot ms.1) <$> changed));
                ("rate_mode", jstr (rate_mode_of snap))] "agent")
      end.

(** The lease a claim issues: fresh id, new holder, claimed. *)
Definition issue (l : WorkerLease) (id holder : string) (taking_over : bool)
    (effective_t0 : option Z) (now : Z) : WorkerLease :=
  mkLease (l_slot l)
    (if taking_over
     then delete ASSIGNED_REASON_KEY (delete ASSIGNED_WORK_KEY (l_share l))
     else l_share l)
    id (Some holder) LClaimed (Some now) effective_t0
    (if taking_over then l_restarts l + 1 else l_restarts l) (l_final_log_tail l).

Definition claim_lease (holder : string) (hint_slot : option nat) : eff WorkerLease :=
  w ← get;
  let run := w_run w in
  if terminal (r_state run)
  then raise (HTTPException 409 "run is not accepting claims")
  else
    match List.find (fun l => bool_decide (l_holder l = Some holder) && is_live l)
            (w_leases w) with
    | Some lease =>
        let lease := set_heartbeat (w_now w) lease in
        _ ← save lease;
        _ ← append_event "claim"
              [("slot", jint (Z.of_nat (l_slot lease))); ("holder", jstr holder);
               ("reissue", jstr "same-holder")] "agent";
        mret lease
    | None =>
        match next_claimable (w_leases w) hint_slot with
        | None => raise (HTTPException 409 "no free lease available")
        | Some lease =>
            let taking_over := in_state LLost lease in
            let reissue := negb (bool_decide (r_t0 run = None)) in
            id ← new_lease_id;
            let issued := issue lease id holder taking_over
                            (if reissue then Some (w_now w) else r_t0 run) (w_now w) in
            _ ← save issued;
            _ ← when (taking_over && reissue) (reapportion_on_takeover (l_slot lease));
            _ ← append_event "claim"
                  [("slot", jint (Z.of_nat (l_slot lease))); ("holder", jstr holder);
                   ("reissue", jbool reissue); ("takeover", jbool taking_over)] "agent";
            gets (fun w => default issued (lookup_slot (l_slot lease) (w_leases w)))
        end
    end.

(** ** Ready *)

Definition mark_ready (slot : nat) (lease_id : option string) : eff unit :=
  found ← find_lease slot;
  match found with
  | None => raise (HTTPException 409 "unknown slot")
  | Some lease =>
      if negb (is_lease_holder (Some lease) lease_id)
      then raise (HTTPException 409 "lease is not the slot holder")
      else
        now ← utcnow;
        let lease := set_heartbeat now lease in
        let promote := in_state LClaimed lease || in_state LReady lease in
        _ ← save (if promote then set_lstate LReady lease else lease);
        _ ← when promote (append_event "ready" [("slot", jint (Z.of_nat slot))] "agent");
        _ ← evaluate_release false;
        mret tt
  end.

(** ** Heartbeat *)

(** Running total of paused time, a pause under way included. *)
Definition paused_seconds (run : Run) (now : Z) : Z :=
  match r_paused_at run with
  | Some p => r_paused run + Z.max 0 (now - p)
  | None => r_paused run
  end.

Definition maybe_mark_running : eff unit :=
  w ← get;
  when (bool_decide (r_state (w_run w) = Releasing)) (transition_run Running [] "system" None).

(** [protocol_version in SUPPORTED_PROTOCOL_VERSIONS] *)
Definition supported (protocol_version : pyval) : bool := py_eqb protocol_version (VInt 1).

(** A lost lease whose holder is heard again. *)
Definition recover (t0 : option Z) (l : WorkerLease) : WorkerLease :=
  if in_state LLost l
  then set_lstate (match t0 with Some _ => LRunning | None => LReady end) l
  else l.

(** Ready after T0 means running. *)
Definition promote_ready (t0 : option Z) (l : WorkerLease) : WorkerLease :=
  match t0 with
  | Some _ => if in_state LReady l then set_lstate LRunning l else l
  | None => l
  end.

Definition heartbeat_command (lease : WorkerLease) (protocol_version : pyval) (now : Z)
    : eff cmd :=
  w ← get;
  let run := w_run w in
  if bool_decide (r_state run = Draining) || terminal (r_state run) then mret Drain
  else if negb (supported protocol_version) then mret Drain
  else
    let lease := recover (r_t0 run) lease in
    _ ← save lease;
    match r_t0 run, l_state lease with
    | Some t0, (LClaimed | LReady) =>
        _ ← when (t0 <=? now)
              (_ ← save (set_lstate LRunning lease);
               _ ← append_event "running" [("slot", jint (Z.of_nat (l_slot lease)))] "agent";
               maybe_mark_running);
        mret (Release t0)
    | _, _ =>
        if bool_decide (r_state run = Paused) then
          _ ← save (promote_ready (r_t0 run) lease);
          mret Pause
        else
          match l_share lease !! RETARGET_MARKER with
          | Some _ =>
              let cleared := clear_retarget lease in
              _ ← save (match r_t0 run, l_state cleared with
                        | Some _, (LClaimed | LReady) => set_lstate LRunning cleared
                        | _, _ => cleared
                        end);
              mret (Retarget (public_share (l_share lease)))
          | None =>
              _ ← save (promote_ready (r_t0 run) lease);
              mret Continue
          end
    end.

Definition bearer_of (payload : pydict) : option string :=
  match dget payload "_bearer" with VStr s => Some s | _ => None end.

Definition record_heartbeat (slot : nat) (lease_id : option string) (payload : pydict)
    : eff response :=
  let bearer := bearer_of payload in
  let payload := delete "_bearer" payload in
  found ← find_lease slot;
  match found with
  | Some lease =>
      if negb (is_lease_holder (Some lease) lease_id)
      then mret (mkResponse Superseded None None)
      else
        now ← utcnow;
        let lease := set_heartbeat now lease in
        let lease := store_assigned_work repr_float payload lease in
        let lease := store_engine_report payload lease in
        _ ← save lease;
        _ ← modify (with_samples (fun ss => ss ++ [build_metric_sample slot now payload]));
        _ ← when (truthy (dget payload "auth_failed"))
              (append_event "hec_auth_failed" [("slot", jint (Z.of_nat slot))] "agent");
        command ← heartbeat_command lease (dget_or payload "protocol_version" (VInt 1)) now;
        w ← get;
        let paused := paused_seconds (w_run w) now in
        let paused_s :=
          if (0 <? paused) && negb (match command with Drain | Superseded => true | _ => false end)
          then Some (py_round 3 (seconds paused)) else None in
        mret (mkResponse command paused_s (maybe_refresh_jwt (w_run w) bearer))
  | None => mret (mkResponse Superseded None None)
  end.

(** ** Final *)

(** [(summary or {}).get("reason")] *)
Definition summary_reason (summary : list (string * pyval)) : jval :=
  match List.find (fun kv => bool_decide (kv.1 = "reason")) summary with
  | Some kv => JV kv.2
  | None => JV VNone
  end.

Definition record_final (slot : nat) (summary : list (string * pyval)) (log_tail : list string)
    (lease_id : option string) : eff unit :=
  found ← find_lease slot;
  match found with
  | None => raise (HTTPException 409 "unknown slot")
  | Some lease =>
      if match lease_id with Some _ => negb (is_lease_holder (Some lease) lease_id) | None => false end
      then mret tt
      else
        let already_final := in_state LDone lease in
        let lease := set_log_tail log_tail lease in
        _ ← save lease;
        _ ← when (negb already_final)
              (_ ← fold_totals summary;
               _ ← save (set_lstate LDone lease);
               append_event "final"
                 [("slot", jint (Z.of_nat slot)); ("reason", summary_reason summary)] "agent");
        _ ← maybe_complete_run;
        mret tt
  end.

End Protocol.
