(* ===== verification/Operators.v ===== *)
(** * Operator actions (server/lifecycle.py: stop, pause, resume, scale, rescale)

    What an operator (or the supervisor on its behalf) does to a run that is
    not terminal.  [driver] arguments are driver objects by identity. *)

From S2P Require Import Prelude.
From S2P Require Import PyFloat.
From S2P Require Import PyValue.
From S2P Require Import Apportion.
From S2P Require Import Driver.
From S2P Require Import Model.
From S2P Require Import Shares.
From S2P Require Import Session.
From S2P Require Import Protocol.
From Stdlib Require Import QArith.
Open Scope Z_scope.

(** [(engine or "").strip() in SINGLE_WORKER_ENGINES] forces one worker. *)
Definition effective_workers (engine : option string) (workers : Z) : Z :=
  if bool_decide (py_strip (default "" engine) = "rawreplay") then 1 else Z.max 1 workers.

(** [rotation.get("scope") or "pass"] *)
Definition rotation_scope (r : rotation) : string :=
  match rot_scope r with
  | Some s => if bool_decide (s = "") then "pass" else s
  | None => "pass"
  end.

Definition rotation_pins_fleet (snap : snapshot) : option rotation :=
  match sn_rotation snap with
  | Some r => if bool_decide (rotation_scope r = "pass") then Some r else None
  | None => None
  end.

(** One lease's share after a re-apportionment: a live worker is told on its
    next heartbeat, an idle slot's stored share is replaced. *)
Definition assign_share (shares : list pydict) (l : WorkerLease) : WorkerLease :=
  match shares !! l_slot l with
  | None => l
  | Some new_share => if live (l_state l) then mark_retarget new_share l else set_share new_share l
  end.

Section Operators.
Context {D : Type} `{Env D}.
Abbreviation eff := (M (world D)).

(** ** Pause accounting *)

(** Close a pause under way; the length of the pause closed. *)
Definition end_pause : eff Z :=
  w ← get;
  match r_paused_at (w_run w) with
  | None => mret 0
  | Some p =>
      let length := Z.max 0 (w_now w - p) in
      _ ← on_run (set_paused None (r_paused (w_run w) + length));
      mret length
  end.

Definition driver_error (op : string) (e : exn) : eff unit :=
  append_event "driver_error" [("op", jstr op); ("error", jstr (str_exn e))] "system".

Definition nonzero (q : option Q) : option Q :=
  match q with Some v => if Qeq_bool v 0 then None else Some v | None => None end.

Definition extend_driver_deadline (driver : option nat) (paused : Z) : eff unit :=
  w ← get;
  match nonzero (sn_duration_s (snap_of (w_run w))), driver_ref_of (w_run w), driver,
        drv_extend_deadline with
  | Some duration_s, Some ref, Some oid, Some extend =>
      catch (call oid (fun d => extend d ref duration_s (seconds paused)))
        (driver_error "extend_deadline")
  | _, _, _, _ => mret tt
  end.

Definition pause_run (driver : option nat) (actor : string) : eff unit :=
  w ← get;
  if negb (bool_decide (r_state (w_run w) = Running))
  then raise (ValueError "only a running run can be paused")
  else
    _ ← on_run (fun r => set_paused (Some (w_now w)) (r_paused r) r);
    _ ← transition_run Paused [] actor None;
    w' ← get;
    extend_driver_deadline driver
      (paused_seconds (w_run w') (w_now w) + PAUSE_DEADLINE_HEADROOM).

Definition resume_run (driver : option nat) (actor : string) : eff unit :=
  w ← get;
  if negb (bool_decide (r_state (w_run w) = Paused))
  then raise (ValueError "only a paused run can be resumed")
  else
    length ← end_pause;
    w' ← get;
    _ ← transition_run Running
          [("paused_for_s", JV (VFloat (py_round 3 (seconds length))));
           ("paused_total_s", JV (VFloat (py_round 3 (seconds (r_paused (w_run w'))))))]
          actor None;
    extend_driver_deadline driver (r_paused (w_run w')).

(** ** Stop *)

Definition force_state (s : lease_state) : lease_state :=
  match s with
  | LClaimed | LReady | LRunning => LDone
  | LFree => LLost
  | s => s
  end.

Definition stop_run (driver : nat) (force : bool) (actor : string) : eff unit :=
  w ← get;
  if terminal (r_state (w_run w)) then mret tt
  else
    _ ← end_pause;
    _ ← transition_run Draining [("force", jbool force)] actor (Some "operator-stop");
    _ ← match driver_ref_of (w_run w) with
        | None => mret tt
        | Some ref =>
            _ ← catch (call driver (fun d => drv_stop d ref STOP_GRACE_S)) (driver_error "stop");
            when force
              (catch (call driver (fun d => drv_destroy d ref)) (driver_error "destroy"))
        end;
    when force
      (_ ← fold_heartbeat_totals;
       _ ← modify (with_leases (fmap (fun l => set_lstate (force_state (l_state l)) l)));
       _ ← maybe_complete_run;
       mret tt).

(** ** Scale and rescale *)

Definition apply_shares (shares : list pydict) : eff unit :=
  modify (with_leases (fmap (assign_share shares))).

(** Grow with free leases on the new high slots, or drop the high slots. *)
Definition resize_leases (workers : Z) : eff unit :=
  w ← get;
  let current := length (w_leases w) in
  if Z.of_nat current <? workers
  then seed_from current (replicate (Z.to_nat workers - current) ∅)
  else if workers <? Z.of_nat current
       then modify (with_leases (List.filter (fun l => Z.of_nat (l_slot l) <? workers)))
       else mret tt.

(** The count the rotation check compares with: the snapshot's, when truthy;
    otherwise the code reads [run.worker_leases], which a run does not have. *)
Definition pinned_workers (snap : snapshot) : result Z :=
  match sn_workers snap with
  | Some n => if n =? 0 then Raise AttributeError else Ok n
  | None => Raise AttributeError
  end.

Definition rotation_guard (snap : snapshot) (workers : Z) : result unit :=
  match rotation_pins_fleet snap with
  | None => Ok tt
  | Some _ =>
      n ← pinned_workers snap;
      if workers =? n then Ok tt
      else Raise (ValueError "this run rotates identities per replay")
  end.

Definition scale_run (driver : nat) (workers : Z) (actor : string) : eff unit :=
  w ← get;
  if workers <? 1 then raise (ValueError "workers must be >= 1")
  else if terminal (r_state (w_run w)) then mret tt
  else
    let snap := snap_of (w_run w) in
    let workers := effective_workers (sn_engine snap) workers in
    _ ← lift (rotation_guard snap workers);
    _ ← match driver_ref_of (w_run w) with
        | None => mret tt
        | Some ref =>
            catch (call driver (fun d => drv_scale d ref workers))
              (fun e => _ ← driver_error "scale" e; raise e)
        end;
    _ ← resize_leases workers;
    shares ← lift (build_share_list (rate_mode_of snap) (sn_rate_value snap) workers);
    _ ← apply_shares shares;
    _ ← on_run (set_snapshot (snap_set_workers workers snap));
    append_event "scaled"
      [("workers", jint workers); ("rate_mode", jstr (rate_mode_of snap))] actor.

Definition rescale_run (rate_value : option Q) (actor : string) : eff unit :=
  w ← get;
  if terminal (r_state (w_run w)) then mret tt
  else
    let snap := snap_of (w_run w) in
    let workers := length (w_leases w) in
    if (workers <? 1)%nat then mret tt
    else
      shares ← lift (build_share_list (rate_mode_of snap) rate_value (Z.of_nat workers));
      _ ← apply_shares shares;
      _ ← on_run (set_snapshot (snap_set_rate rate_value snap));
      append_event "rescaled"
        [("rate_mode", jstr (rate_mode_of snap));
         ("rate_value", JV (match rate_value with Some q => VFloat q | None => VNone end))]
        actor.

End Operators.
