(* ===== verification/Provision.v ===== *)
(** * Provisioning a run (server/lifecycle.py: plan_backfill, the snapshots,
    provision_run)

    From a spec to a run in [provisioning]: the snapshot is frozen, one free
    lease per worker is seeded from the apportioned rate, the driver is asked
    for the fleet.  The bundle (built from the pack's files) and the pack's
    metrics series count are arguments: they come from the file system. *)

From S2P Require Import Prelude.
From S2P Require Import PyFloat.
From S2P Require Import PyValue.
From S2P Require Import Apportion.
From S2P Require Import Driver.
From S2P Require Import Model.
From S2P Require Import Shares.
From S2P Require Import Session.
From S2P Require Import Protocol.
From S2P Require Import Operators.
From Stdlib Require Import QArith Qround.
Open Scope Z_scope.

Record Spec : Type := mkSpec {
  sp_id : Z;
  sp_name : string;
  sp_engine : string;
  sp_rate_mode : string;
  sp_rate_value : option Q;
  sp_workers : Z;
  sp_duration_s : option Z;
  sp_fleet : string;
  sp_strict_release : bool;
  sp_overrides : list (string * pyval);
  sp_driver_opts : pydict;
  sp_eventgen_impl : option string;
  sp_fast_envelope : option bool;
  sp_rate_shape : option string;
  (* of the spec's pack: series and resolution of its metrics config, rotation *)
  sp_series : Z;
  sp_pack_resolution : option Q;
  sp_rotation : option rotation;
}.

Record Target : Type := mkTarget {
  tg_id : Z;
  tg_hec_url : option string;
  tg_default_index : option string;
  tg_verify_tls : bool;
  tg_token_encrypted : option string;
}.

Record backfill_request : Type := mkBackfillRequest {
  bq_window_s : option Q;
  bq_start_s : option Q;
  bq_end_s : option Q;
  bq_resolution_s : option Q;
  bq_cap_eps : option Q;
}.

Record backfill_plan : Type := mkPlan {
  pl_start_s : Q;
  pl_end_s : Q;
  pl_window_s : Q;
  pl_resolution_s : option Q;
  pl_cap_eps : Q;
  pl_deliver_eps : Q;
  pl_density_eps : Q;
  pl_events : Z;
  pl_duration_s : Q;
  pl_seconds : Q;
}.

Definition DEFAULT_BACKFILL_CAP_EPS : Q := 5000.

(** [x if x and x > 0 else dflt] *)
Definition positive_or (x : option Q) (dflt : Q) : Q :=
  match x with Some v => if Qle_bool v 0 then dflt else v | None => dflt end.

Definition qmax (x y : Q) : Q := if Qle_bool x y then y else x.

Section Plan.
Context {R : Rounding}.

Definition plan_window (window_s start_s end_s : option Q) (now : Q) : result (Q * Q * Q) :=
  match start_s, end_s with
  | Some s, Some e =>
      if Qle_bool e s then Raise (ValueError "backfill end must be after start")
      else Ok (s, e, fsub e s)
  | _, _ =>
      let w := or_zero window_s in
      if Qle_bool w 0 then Raise (ValueError "a backfill needs a window, or a start and end")
      else Ok (fsub now w, now, w)
  end.

Definition plan_backfill (engine : string) (series_count : Z) (live_eps window_s resolution_s
    cap_eps : option Q) (now : Q) (settings_cap : option Q) (start_s end_s : option Q)
    : result backfill_plan :=
  sew ← plan_window window_s start_s end_s now;
  let '(start_s, end_s, window_s) := sew : Q * Q * Q in
  let fallback := positive_or settings_cap DEFAULT_BACKFILL_CAP_EPS in
  let cap := qmax 1 (positive_or cap_eps fallback) in
  let deliver_eps := cap in
  let density_eps := positive_or live_eps cap in
  let metrics := bool_decide (engine = "metrics") in
  let res := positive_or resolution_s 10 in
  let bf_res := if metrics then Some res else None in
  let events :=
    if metrics
    then Qceiling (fdiv window_s res)
         * Z.max 1 (if series_count =? 0 then 1 else series_count)
    else Qceiling (fmul window_s density_eps) in
  let seconds := fdiv (rnd (inject_Z events)) deliver_eps in
  let duration_s := qmax 15 (fadd (rnd (inject_Z (Qceiling (fmul seconds (3 # 2))))) 15) in
  Ok (mkPlan start_s end_s window_s bf_res cap deliver_eps density_eps events duration_s seconds).
End Plan.

(** ** Snapshots *)

(** [dict(base); d.update(extra)] *)
Definition dict_update (base extra : list (string * pyval)) : list (string * pyval) :=
  foldl (fun d kv =>
           if existsb (fun p => bool_decide (p.1 = kv.1)) d
           then (fun p => if bool_decide (p.1 = kv.1) then kv else p) <$> d
           else d ++ [kv]) base extra.

Definition dict_str (d : list (string * pyval)) (key : string) : option string :=
  match List.find (fun kv => bool_decide (kv.1 = key)) d with
  | Some (_, VStr s) => Some s
  | _ => None
  end.

Definition as_float (v : pyval) : option Q := num_of v.

(** [x if x is not None else dflt] *)
Definition or_else {A} (x dflt : option A) : option A :=
  match x with Some v => Some v | None => dflt end.

Definition build_spec_snapshot (spec : Spec) (target : Target) (overrides : list (string * pyval))
    (rate_mode : option string) (rate_value duration_s : option Q)
    (backfill : option backfill_block) : snapshot :=
  let merged := dict_update (sp_overrides spec) overrides in
  mkSnapshot (Some (sp_engine spec))
    (or_else rate_mode (Some (sp_rate_mode spec)))
    (or_else rate_value (sp_rate_value spec))
    (Some (sp_workers spec))
    (or_else duration_s (inject_Z <$> sp_duration_s spec))
    (Some (sp_fleet spec))
    (sp_strict_release spec)
    merged
    (dict_str merged "index")
    (dict_str merged "sourcetype")
    (as_float (dget_or (sp_driver_opts spec) "telemetry_interval_s" (VInt 5)))
    (Some (match sp_rate_shape spec with
           | Some s => if bool_decide (s = "") then "flat" else s
           | None => "flat"
           end))
    (tg_hec_url target)
    (tg_default_index target)
    None
    backfill
    None
    (Some (match sp_eventgen_impl spec with
           | Some s => if bool_decide (s = "") then "auto" else s
           | None => "auto"
           end)).

Definition snap_set_rotation (r : option rotation) (s : snapshot) : snapshot :=
  mkSnapshot (sn_engine s) (sn_rate_mode s) (sn_rate_value s) (sn_workers s) (sn_duration_s s)
    (sn_fleet s) (sn_strict_release s) (sn_overrides s) (sn_index s) (sn_sourcetype s)
    (sn_telemetry_interval_s s) (sn_rate_shape s) (sn_hec_url s) (sn_default_index s)
    r (sn_backfill s) (sn_backpressure_original_rate s) (sn_eventgen_impl s).

(** [_snapshot_rotation] *)
Definition snapshot_rotation (spec : Spec) : option rotation :=
  match sp_rotation spec with
  | None => None
  | Some r => Some (mkRotation (Some (rotation_scope r)) (rot_fields r))
  end.

(** [{k: v}] added when the condition holds *)
Definition env_when (b : bool) (k v : string) (env : gmap string string) : gmap string string :=
  if b then <[ k := v ]> env else env.

(** [driver_opts.setdefault("duration_s", v)] when [v] is truthy *)
Definition set_default_duration (v : option Q) (opts : pydict) : pydict :=
  match nonzero v with
  | None => opts
  | Some q => match opts !! "duration_s" with
              | Some _ => opts
              | None => <[ "duration_s" := VFloat q ]> opts
              end
  end.

Section Provision.
Context {D : Type} `{Env D}.
Abbreviation eff := (M (world D)).

Definition build_env (run_id : Z) (jwt : string) (spec : Spec) (target : Target)
    (hec_token : option string) (workers : Z) : gmap string string :=
  let base : gmap string string :=
    <[ "STOKER_RUN_ID" := pretty run_id ]>
    (<[ "STOKER_CONTROL_URL" := public_base_url env_settings ]>
    (<[ "STOKER_RUN_JWT" := jwt ]>
    {[ "STOKER_TOTAL_WORKERS" := pretty workers ]})) in
  let engine := py_strip (if nonempty (sp_engine spec) then sp_engine spec else "eventgen") in
  let env :=
    if nonempty engine && negb (bool_decide (engine = "eventgen"))
    then <[ "STOKER_ENGINE" := engine ]> base
    else
      let impl := py_lower (py_strip (default "" (sp_eventgen_impl spec))) in
      env_when (bool_decide (sp_fast_envelope spec = Some false)) "STOKER_FAST_ENVELOPE" "0"
        (env_when (nonempty impl && negb (bool_decide (impl = "auto")))
           "STOKER_EVENTGEN_IMPL" impl base) in
  let env :=
    match hec_token with
    | Some t => env_when (nonempty t) "STOKER_HEC_TOKEN" t env
    | None => env
    end in
  let env := env_when (negb (tg_verify_tls target)) "STOKER_HEC_VERIFY_TLS" "0" env in
  match ca_bundle_pem with
  | Some pem => env_when (tg_verify_tls target && nonempty pem) "STOKER_CA_BUNDLE_PEM" pem env
  | None => env
  end.

Definition build_run_snapshot (run_id : Z) (kid : string) (spec : Spec) (target : Target)
    (hec_token : option string) (workers : Z) (duration_s : option Q) : RunSnapshot :=
  mkRunSnapshot run_id (worker_image env_settings)
    (build_env run_id (mint_run_jwt run_id kid) spec target hec_token workers)
    {[ "stoker.run" := pretty run_id ]}
    (set_default_duration (or_else duration_s (inject_Z <$> sp_duration_s spec))
       (sp_driver_opts spec))
    STOP_GRACE_S.

(** The effective rate, duration and window of the launch. *)
Definition effective_rate (spec : Spec) (backfill : option backfill_request) (now : Z)
    : result (string * option Q * option Q * option backfill_block) :=
  let plain := (sp_rate_mode spec, sp_rate_value spec, inject_Z <$> sp_duration_s spec, None) in
  match backfill with
  | None => Ok plain
  | Some b =>
      let ranged := match bq_start_s b, bq_end_s b with Some _, Some _ => true | _, _ => false end in
      if match nonzero (bq_window_s b) with Some _ => true | None => ranged end then
        let live_eps :=
          if bool_decide (sp_rate_mode spec = "eps") then sp_rate_value spec else None in
        plan ← plan_backfill (sp_engine spec) (sp_series spec) live_eps (bq_window_s b)
                 (or_else (nonzero (bq_resolution_s b)) (sp_pack_resolution spec)) (bq_cap_eps b)
                 (seconds now) (backfill_cap_eps env_settings) (bq_start_s b) (bq_end_s b);
        Ok ("eps", Some (pl_deliver_eps plan), Some (pl_duration_s plan),
            Some (mkBackfill (pl_start_s plan) (pl_end_s plan) (pl_resolution_s plan)
                    (pl_density_eps plan)))
      else Ok plain
  end.

(** The row [Run(...)] inserts. *)
Definition new_run (run_id : Z) (spec : Spec) (target : Target) (snap : snapshot)
    (bundle kid : string) (started_by : option string) (now : Z) : Run :=
  mkRun run_id (Some (mkSpecRef (Some (sp_fleet spec)) (Some (tg_id target)))) (Some snap)
    (Some bundle) (Some bundle) Pending false (Some kid) None started_by (Some now) None None
    None ∅ None 0.

(** Ask the driver for the fleet, and record its handle. *)
Definition launch (driver : nat) (run_snapshot : RunSnapshot) (workers : Z) : eff unit :=
  ref ← catch (call driver (fun d => drv_create d run_snapshot workers))
          (fun e => _ ← transition_run Failed [("error", jstr (str_exn e))] "system"
                          (Some "provision-failed");
                    raise e);
  _ ← on_run (set_driver_ref ref);
  transition_run Provisioning
    [("driver", jstr (ref_kind ref)); ("driver_id", jstr (ref_id ref))] "system" None.

Definition provision_run (run_id : Z) (spec : Spec) (target : Target) (bundle : string)
    (driver : nat) (overrides : list (string * pyval)) (started_by : option string)
    (backfill : option backfill_request) : eff unit :=
  now ← utcnow;
  let workers := effective_workers (Some (sp_engine spec)) (sp_workers spec) in
  rate ← lift (effective_rate spec backfill now);
  let '(rate_mode, rate_value, duration_s, block) :=
    rate : string * option Q * option Q * option backfill_block in
  let snap := build_spec_snapshot spec target overrides (Some rate_mode) rate_value duration_s
                block in
  let snap := if workers =? sp_workers spec then snap else snap_set_workers workers snap in
  let snap := match snapshot_rotation spec with
              | Some r => snap_set_rotation (Some r) snap
              | None => snap
              end in
  w ← get;
  _ ← modify (with_tokens S);
  let kid := "k_" +:+ token_hex (w_tokens w) in
  let actor := match started_by with
               | Some s => if nonempty s then s else "operator"
               | None => "operator"
               end in
  _ ← on_run (fun _ => new_run run_id spec target snap bundle kid started_by now);
  _ ← append_event "created"
        [("spec_id", jint (sp_id spec)); ("workers", jint workers);
         ("fleet", jstr (sp_fleet spec)); ("bundle", jstr bundle)] actor;
  _ ← transition_run Preparing [] actor None;
  shares ← lift (build_share_list rate_mode rate_value workers);
  _ ← seed_leases shares;
  let hec_token := match tg_token_encrypted target with
                   | Some t => if nonempty t then Some (decrypt t) else None
                   | None => None
                   end in
  let run_snapshot := build_run_snapshot run_id kid spec target hec_token workers duration_s in
  launch driver run_snapshot workers.

End Provision.
