(* ===== verification/Ceilings.v ===== *)
(** * Per-worker ceilings (server/engines/ceilings.py, and the launch gate's use
    of them in server/routes/api.py)

    The three layers of per-worker bounds, the check of one worker's share
    against them, and the fleet size it suggests.  The check is exact; the
    suggestion clears the ceiling for a run of one worker, and is too small for
    a run that already has several. *)

From S2P Require Import Prelude.
From S2P Require Import PyFloat.
From S2P Require Import PyValue.
From S2P Require Import Apportion.
From S2P Require Import Driver.
From S2P Require Import Model.
From S2P Require Import Shares.
From S2P Require Import Provision.
From Stdlib Require Import QArith Qround Lqa.
Open Scope Z_scope.

(** ** Bounds *)

(** [max_gb_day_per_worker] and [max_eps_per_worker]; [None] is a disabled bound. *)
Record ceilings : Type := mkCeilings { c_gb_day : option Q; c_eps : option Q }.

Definition CEILINGS (engine : string) : option ceilings :=
  if bool_decide (engine = "eventgen") then Some (mkCeilings (Some 250%Q) (Some 10000%Q))
  else if bool_decide (engine = "rawreplay") then Some (mkCeilings (Some 25%Q) (Some 5000%Q))
  else None.

Definition PYTHON_EVENTGEN_CEILINGS : ceilings := mkCeilings (Some 25%Q) (Some 5000%Q).

Inductive ceiling_key : Type := KGbDay | KEps.

Global Instance ceiling_key_eq_dec : EqDecision ceiling_key.
Proof. solve_decision. Defined.

(** The environment's layer: the global values and the per-engine entries. *)
Record ceiling_settings : Type := mkCeilingSettings {
  cs_gb_day : option Q;
  cs_eps : option Q;
  cs_per_engine : list (string * ceiling_key * Q);
}.

(** A configured value of zero or less disables the bound. *)
Definition normalise_bound (value : Q) : option Q := if Qle_bool value 0 then None else Some value.

Definition set_bound (k : ceiling_key) (v : option Q) (c : ceilings) : ceilings :=
  match k with KGbDay => mkCeilings v (c_eps c) | KEps => mkCeilings (c_gb_day c) v end.

(** A configured value replaces the bound; an absent one keeps it. *)
Definition override (k : ceiling_key) (value : option Q) (c : ceilings) : ceilings :=
  match value with Some v => set_bound k (normalise_bound v) c | None => c end.

(** The built-in layer. *)
Definition builtin (engine : string) (impl : option string) : option ceilings :=
  if bool_decide (engine = "eventgen") && bool_decide (py_lower (py_strip (default "" impl)) = "python")
  then Some PYTHON_EVENTGEN_CEILINGS else CEILINGS engine.

Definition resolve_ceilings (engine : string) (settings : option ceiling_settings)
    (fleet_gb_day fleet_eps : option Q) (impl : option string) : option ceilings :=
  match builtin engine impl with
  | None => None
  | Some resolved =>
      let resolved :=
        match settings with
        | None => resolved
        | Some s =>
            foldl (fun c '(eng, key, value) =>
                     if bool_decide (eng = engine) then set_bound key (normalise_bound value) c else c)
              (override KEps (cs_eps s) (override KGbDay (cs_gb_day s) resolved)) (cs_per_engine s)
        end in
      Some (override KEps fleet_eps (override KGbDay fleet_gb_day resolved))
  end.

(** ** The check *)

Inductive factor : Type := FEps | FGbDay.

(** The [detail] text is left out. *)
Record CeilingCheck : Type := mkCheck {
  ck_ok : bool;
  ck_suggested_workers : option Z;
  ck_limiting_factor : option factor;
}.

Definition within_ceiling : CeilingCheck := mkCheck true None None.

Section Check.
Context {R : Rounding}.

(** [not bytes_per_event or bytes_per_event <= 0] *)
Definition known_size (bytes_per_event : option Q) : option Q :=
  match bytes_per_event with Some b => if Qle_bool b 0 then None else Some b | None => None end.

Definition gb_day_to_eps (per_day_gb : Q) (bytes_per_event : option Q) : option Q :=
  match known_size bytes_per_event with
  | None => None
  | Some b => Some (fdiv (fdiv (fmul per_day_gb 1000000000) b) 86400)
  end.

Definition eps_to_gb_day (eps : Q) (bytes_per_event : option Q) : option Q :=
  match known_size bytes_per_event with
  | None => None
  | Some b => Some (fdiv (fmul (fmul eps b) 86400) 1000000000)
  end.

Definition exceeded (f : factor) (value ceiling : Q) : CeilingCheck :=
  mkCheck false (Some (Z.max 2 (Qceiling (fdiv value ceiling)))) (Some f).

(** [bound is not None and value is not None and value > bound] *)
Definition over (value bound : option Q) : option (Q * Q) :=
  match value, bound with
  | Some v, Some b => if Qle_bool v b then None else Some (v, b)
  | _, _ => None
  end.

(** The two bounds in the order the mode checks them. *)
Definition check_bounds (first second : factor * option Q * option Q) : CeilingCheck :=
  let '(f1, v1, b1) := first in
  let '(f2, v2, b2) := second in
  match over v1 b1 with
  | Some (v, b) => exceeded f1 v b
  | None => match over v2 b2 with Some (v, b) => exceeded f2 v b | None => within_ceiling end
  end.

Definition check_slice (rate_mode : string) (per_worker_value bytes_per_event : option Q)
    (engine : string) (c : option ceilings) : result CeilingCheck :=
  let c := match c with Some c => Some c | None => resolve_ceilings engine None None None None end in
  match c with
  | None => Ok within_ceiling
  | Some c =>
      if bool_decide (rate_mode = "count_interval") then Ok within_ceiling
      else match per_worker_value with
           | None => Ok within_ceiling
           | Some v =>
               if Qle_bool v 0 then Ok within_ceiling
               else if bool_decide (rate_mode = "eps") then
                 Ok (check_bounds (FEps, Some v, c_eps c)
                       (FGbDay, eps_to_gb_day v bytes_per_event, c_gb_day c))
               else if bool_decide (rate_mode = "per_day_gb") then
                 Ok (check_bounds (FGbDay, Some v, c_gb_day c)
                       (FEps, gb_day_to_eps v bytes_per_event, c_eps c))
               else Raise (ValueError "unknown rate_mode")
           end
  end.

(** [max(share values)] *)
Definition qmaximum (qs : list Q) : Q := match qs with [] => 0%Q | q :: qs => foldl qmax q qs end.

(** The largest share of the run's workers (server/routes/api.py). *)
Definition per_worker_share (rate_mode : string) (rate_value : option Q) (workers : Z)
    : result (option Q) :=
  if bool_decide (rate_mode = "count_interval") then Ok None
  else match rate_value with
       | None => Ok None
       | Some v =>
           if Qle_bool v 0 then Ok None
           else
             shares ← build_share_list rate_mode (Some v) (Z.max 1 workers);
             let key := if bool_decide (rate_mode = "eps") then "eps" else "per_day_gb" in
             Ok (Some (qmaximum (share_value key <$> shares)))
       end.

(** The launch gate's ceiling step: the largest share of the requested fleet,
    checked against the resolved bounds. *)
Definition ceiling_gate (rate_mode : string) (rate_value : option Q) (workers : Z)
    (bytes_per_event : option Q) (engine : string) (settings : option ceiling_settings)
    (fleet_gb_day fleet_eps : option Q) (impl : option string) : result CeilingCheck :=
  per_worker ← per_worker_share rate_mode rate_value workers;
  check_slice rate_mode per_worker bytes_per_event engine
    (resolve_ceilings engine settings fleet_gb_day fleet_eps impl).
End Check.

(** ** Facts *)

Section Facts.
Context {R : Rounding}.

(** A bound that is disabled, or a value that is unknown, is never exceeded. *)
Definition within (value bound : option Q) : Prop :=
  forall v b, value = Some v -> bound = Some b -> (v <= b)%Q.

Lemma over_None value bound : over value bound = None <-> within value bound.
Proof.
  unfold within, over. destruct value as [v|], bound as [b|]; try (split; [intros _ ? ?|]; done).
  destruct (Qle_bool v b) eqn:E; split; [| done | done |].
  - intros _ ? ? [= <-] [= <-]. by apply Qle_bool_iff.
  - intros H. specialize (H v b eq_refl eq_refl). apply Qle_bool_iff in H. congruence.
Qed.

Lemma over_Some value bound v b :
  over value bound = Some (v, b) <-> value = Some v /\ bound = Some b /\ (b < v)%Q.
Proof.
  unfold over. destruct value as [v'|], bound as [b'|]; try naive_solver.
  destruct (Qle_bool v' b') eqn:E.
  - apply Qle_bool_iff in E. split; [done|]. intros ([= ->] & [= ->] & ?). lra.
  - assert (b' < v')%Q.
    { destruct (Qlt_le_dec b' v') as [|H]; [done|]. apply Qle_bool_iff in H. congruence. }
    naive_solver.
Qed.

Lemma check_bounds_ok f1 v1 b1 f2 v2 b2 :
  ck_ok (check_bounds (f1, v1, b1) (f2, v2, b2)) = true <-> within v1 b1 /\ within v2 b2.
Proof.
  rewrite <- !over_None. unfold check_bounds.
  destruct (over v1 b1) as [[??]|]; [|destruct (over v2 b2) as [[??]|]]; simpl; naive_solver.
Qed.

(** The two rates one worker's share implies, in the units of the two bounds. *)
Definition implied_eps (mode : string) (v : Q) (size : option Q) : option Q :=
  if bool_decide (mode = "eps") then Some v else gb_day_to_eps v size.

Definition implied_gb_day (mode : string) (v : Q) (size : option Q) : option Q :=
  if bool_decide (mode = "eps") then eps_to_gb_day v size else Some v.

Definition gated_mode (mode : string) : Prop := mode = "eps" \/ mode = "per_day_gb".

Lemma Qle_bool_pos v : (0 < v)%Q -> Qle_bool v 0 = false.
Proof.
  intros H. destruct (Qle_bool v 0) eqn:E; [|done]. apply Qle_bool_iff in E. lra.
Qed.

Local Arguments check_bounds : simpl never.
Local Arguments over : simpl never.
Local Arguments exceeded : simpl never.

Lemma check_slice_gated mode v size engine c :
  gated_mode mode -> (0 < v)%Q ->
  exists r, check_slice mode (Some v) size engine (Some c) = Ok r /\
    (ck_ok r = true <-> within (implied_eps mode v size) (c_eps c) /\
                        within (implied_gb_day mode v size) (c_gb_day c)) /\
    (forall f, ck_limiting_factor r = Some f ->
       exists x b, over (match f with FEps => implied_eps mode v size
                         | FGbDay => implied_gb_day mode v size end)
                        (match f with FEps => c_eps c | FGbDay => c_gb_day c end) = Some (x, b)
              /\ r = exceeded f x b).
Proof.
  intros [-> | ->] Hv; unfold check_slice, implied_eps, implied_gb_day; rewrite Qle_bool_pos by done;
    simpl; (eexists; split; [done|]; split; [rewrite check_bounds_ok; tauto|]);
    intros f; unfold check_bounds;
    (destruct (over (Some v) _) as [[??]|] eqn:E1;
      [|destruct (over _ _) as [[??]|] eqn:E2 in |- *; [|done]]);
    intros [= <-]; eauto.
Qed.

(** A refusal names the bound it exceeds, with the suggestion computed from it. *)
Lemma check_slice_refused mode v size engine c r :
  gated_mode mode -> (0 < v)%Q ->
  check_slice mode (Some v) size engine (Some c) = Ok r -> ck_ok r = false ->
  exists f x b, over (match f with FEps => implied_eps mode v size
                      | FGbDay => implied_gb_day mode v size end)
                     (match f with FEps => c_eps c | FGbDay => c_gb_day c end) = Some (x, b)
           /\ r = exceeded f x b.
Proof.
  intros Hm Hv Hr Hbad.
  destruct (check_slice_gated mode v size engine c Hm Hv) as (r' & E & _ & Hf).
  rewrite Hr in E. injection E as <-.
  destruct (ck_limiting_factor r) as [f|] eqn:Ef; [exists f; by apply Hf|].
  exfalso. revert Hr Hbad Ef. unfold check_slice, check_bounds.
  destruct Hm as [-> | ->]; rewrite Qle_bool_pos by done; simpl;
    repeat case_match; intros; simplify_eq.
Qed.

Lemma Qceiling_spec q : (q <= inject_Z (Qceiling q) /\ inject_Z (Qceiling q) - 1 < q)%Q.
Proof.
  split; [apply Qle_ceiling|]. pose proof (Qceiling_lt q) as H.
  unfold Z.sub in H. rewrite inject_Z_plus in H. exact H.
Qed.

(** The suggested size brings the value under the ceiling, and one fewer would
    not, both within one rounding of the quotient. *)
Lemma exceeded_suggestion f v b :
  (0 < b)%Q -> (b < v)%Q ->
  exists n, ck_suggested_workers (exceeded f v b) = Some n /\ 2 <= n /\
    (v * (1 - eps) <= inject_Z n * b)%Q /\
    (2 < n -> ((inject_Z n - 1) * b < v * (1 + eps))%Q).
Proof.
  intros Hb Hv. eexists; split; [reflexivity|].
  assert (0 <= v / b)%Q as Hq by (apply Qle_shift_div_l; lra).
  pose proof (rnd_bounds (v / b)%Q Hq) as [H1 H2].
  change (rnd (v / b)) with (fdiv v b) in *.
  destruct (Qceiling_spec (fdiv v b)) as [H3 H4].
  assert (v == v / b * b)%Q as E by (field; lra).
  set (q := (v / b)%Q) in *. set (d := fdiv v b) in *. set (n := Qceiling d) in *.
  split; [lia|split].
  - apply Qle_trans with (inject_Z n * b)%Q.
    + apply Qle_trans with (q * (1 - eps) * b)%Q; [rewrite E at 1; lra|].
      apply Qmult_le_compat_r; lra.
    + apply Qmult_le_compat_r; [apply inject_Z_le; lia|lra].
  - intros Hn. rewrite Z.max_r by lia.
    apply Qlt_le_trans with (q * (1 + eps) * b)%Q; [|rewrite E at 1; lra].
    apply Qmult_lt_r; lra.
Qed.

(** ** Resolution *)

Definition bound_of (k : ceiling_key) (c : ceilings) : option Q :=
  match k with KGbDay => c_gb_day c | KEps => c_eps c end.

Lemma bound_of_set k k' v c :
  bound_of k (set_bound k' v c) = if decide (k = k') then v else bound_of k c.
Proof. by destruct k, k'. Qed.

Lemma bound_of_override k k' value c :
  bound_of k (override k' value c) =
  match value with
  | Some v => if decide (k = k') then normalise_bound v else bound_of k c
  | None => bound_of k c
  end.
Proof. destruct value; [apply bound_of_set|done]. Qed.

(** The last entry of the environment for an engine and a key. *)
Definition last_entry (engine : string) (k : ceiling_key) (es : list (string * ceiling_key * Q))
    : option Q :=
  last (omap (fun '(eng, k', v) =>
    if decide (eng = engine /\ k' = k) then Some v else None) es).

Lemma bound_of_entries engine k es c :
  bound_of k (foldl (fun c '(eng, key, value) =>
    if bool_decide (eng = engine) then set_bound key (normalise_bound value) c else c) c es) =
  match last_entry engine k es with Some v => normalise_bound v | None => bound_of k c end.
Proof.
  unfold last_entry. induction es as [|[[eng k'] v] es IH] using rev_ind; [done|].
  rewrite foldl_snoc, omap_app. simpl.
  case_decide as D; [destruct D as [-> ->]|]; simpl.
  - rewrite last_snoc, bool_decide_true by done. by rewrite bound_of_set, decide_True.
  - rewrite app_nil_r. case_bool_decide; [|done].
    rewrite bound_of_set, decide_False by naive_solver. done.
Qed.

(** Every enabled bound is positive, so the quotient of the check is defined. *)
Definition positive (c : ceilings) : Prop := forall k b, bound_of k c = Some b -> (0 < b)%Q.

Lemma normalise_bound_pos v b : normalise_bound v = Some b -> (0 < b)%Q.
Proof.
  unfold normalise_bound. destruct (Qle_bool v 0) eqn:E; [done|]. intros [= <-].
  destruct (Qlt_le_dec 0 v) as [|H]; [done|]. apply Qle_bool_iff in H. congruence.
Qed.

(** The configured values of a key, most specific first. *)
Definition layers (engine : string) (settings : option ceiling_settings) (fleet : option Q)
    (k : ceiling_key) : option Q :=
  let env := settings ≫= fun s => last_entry engine k (cs_per_engine s) in
  let glob := settings ≫= fun s => match k with KGbDay => cs_gb_day s | KEps => cs_eps s end in
  match fleet with Some v => Some v | None => match env with Some v => Some v | None => glob end end.

Lemma resolve_bound engine settings fg fe impl k :
  bound_of k <$> resolve_ceilings engine settings fg fe impl =
  (fun c => match layers engine settings (match k with KGbDay => fg | KEps => fe end) k with
            | Some v => normalise_bound v
            | None => bound_of k c
            end) <$> builtin engine impl.
Proof.
  unfold resolve_ceilings.
  destruct (builtin engine impl) as [c|]; [simpl; f_equal|done].
  rewrite !bound_of_override. unfold layers.
  destruct settings as [s|]; simpl.
  - rewrite !bound_of_entries, !bound_of_override.
    destruct k, fg, fe, (last_entry _ _ _), (cs_gb_day s), (cs_eps s); done.
  - by destruct k, fg, fe.
Qed.

Lemma builtin_positive engine impl c : builtin engine impl = Some c -> positive c.
Proof.
  unfold builtin, CEILINGS. intros H k b.
  repeat case_match; simplify_eq; destruct k; intros [= <-]; reflexivity.
Qed.

Lemma resolve_positive engine settings fg fe impl c :
  resolve_ceilings engine settings fg fe impl = Some c -> positive c.
Proof.
  intros H k b Hb. pose proof (resolve_bound engine settings fg fe impl k) as E.
  rewrite H in E. destruct (builtin engine impl) as [c0|] eqn:Hc; [|done].
  simpl in E. injection E as E. rewrite Hb in E.
  destruct (layers _ _ _ _); [by eapply normalise_bound_pos|].
  by eapply builtin_positive.
Qed.
End Facts.

(** ** Claims *)

Section Claims.
Context {R : Rounding}.

(** The bound in force for each key is the most specific configured one: the
    fleet's value, then the last environment entry for the engine, then the
    global environment value, then the built-in table of the engine (or of the
    Python eventgen implementation).  A configured value of zero or less
    disables the bound, an engine without a table has no bounds at all, and
    every bound left enabled is positive. *)
Theorem ceilings_most_specific_wins engine settings fleet_gb_day fleet_eps impl k :
  bound_of k <$> resolve_ceilings engine settings fleet_gb_day fleet_eps impl =
  (fun table =>
     match layers engine settings (match k with KGbDay => fleet_gb_day | KEps => fleet_eps end) k with
     | Some v => normalise_bound v
     | None => bound_of k table
     end) <$> builtin engine impl
  /\ forall c b, resolve_ceilings engine settings fleet_gb_day fleet_eps impl = Some c ->
       bound_of k c = Some b -> (0 < b)%Q.
Proof.
  split; [apply resolve_bound|]. intros c b H. by apply (resolve_positive _ _ _ _ _ _ H).
Qed.

(** The check of one worker's share is exact: in the two rate modes that
    have ceilings it returns, and it accepts a positive share precisely when
    the events per second and the volume per day the share implies are both
    within their bounds, a disabled bound or an unknown event size being no
    restriction; when it refuses, it names a bound that is exceeded. *)
Theorem check_slice_exact mode v size engine c :
  gated_mode mode -> (0 < v)%Q ->
  exists r, check_slice mode (Some v) size engine (Some c) = Ok r /\
    (ck_ok r = true <-> within (implied_eps mode v size) (c_eps c) /\
                        within (implied_gb_day mode v size) (c_gb_day c)) /\
    (ck_ok r = false -> exists f x b, ck_limiting_factor r = Some f /\ (b < x)%Q /\
       match f with
       | FEps => implied_eps mode v size = Some x /\ c_eps c = Some b
       | FGbDay => implied_gb_day mode v size = Some x /\ c_gb_day c = Some b
       end).
Proof.
  intros Hm Hv. destruct (check_slice_gated mode v size engine c Hm Hv) as (r & E & Hok & _).
  exists r. split; [done|]. split; [done|]. intros Hr.
  destruct (check_slice_refused mode v size engine c r Hm Hv E Hr) as (f & x & b & Ho & ->).
  exists f, x, b. destruct f; apply over_Some in Ho; naive_solver.
Qed.

(** The fleet size a refusal suggests is right for a load that one worker
    holds: against the resolved ceilings, a refused share [v] is refused
    because some implied rate [x] exceeds its bound [b], the suggestion [n] is
    at least two, [n] workers at the bound carry [x], and, past two, one worker
    fewer would not, both up to one binary64 rounding. *)
Theorem suggestion_clears_ceiling mode v size engine settings fleet_gb_day fleet_eps impl c r :
  gated_mode mode -> (0 < v)%Q ->
  resolve_ceilings engine settings fleet_gb_day fleet_eps impl = Some c ->
  check_slice mode (Some v) size engine (Some c) = Ok r -> ck_ok r = false ->
  exists n x b, ck_suggested_workers r = Some n /\ 2 <= n /\
    (over (implied_eps mode v size) (c_eps c) = Some (x, b) \/
     over (implied_gb_day mode v size) (c_gb_day c) = Some (x, b)) /\
    (x * (1 - eps) <= inject_Z n * b)%Q /\
    (2 < n -> ((inject_Z n - 1) * b < x * (1 + eps))%Q).
Proof.
  intros Hm Hv Hc Hr Hbad. apply resolve_positive in Hc.
  destruct (check_slice_refused mode v size engine c r Hm Hv Hr Hbad) as (f & x & b & Ho & ->).
  pose proof Ho as Ho'. apply over_Some in Ho' as (_ & Hb & Hlt).
  assert (0 < b)%Q as Hpos by (destruct f; [by apply (Hc KEps)|by apply (Hc KGbDay)]).
  destruct (exceeded_suggestion f x b Hpos Hlt) as (n & ? & ? & ? & ?).
  exists n, x, b. destruct f; naive_solver.
Qed.
End Claims.

(** The launch gate passes the check the share of a run that is already
    split, so the size it suggests is not the one that fits.  At the built-in
    eventgen ceilings, 60000 events per second over three workers is refused
    with the advice to use two; two workers are refused with the advice to use
    three; the smallest fleet that is accepted has six. *)
Theorem suggestion_ignores_fleet :
  let gate workers := @ceiling_gate binary64 "eps" (Some 60000%Q) workers None "eventgen" None None None None in
  gate 3 = Ok (mkCheck false (Some 2) (Some FEps)) /\
  gate 2 = Ok (mkCheck false (Some 3) (Some FEps)) /\
  gate 5 = Ok (mkCheck false (Some 2) (Some FEps)) /\
  gate 6 = Ok within_ceiling.
Proof. vm_compute. done. Qed.

(** ** Witnesses *)

(** One worker asked for 25000 events per second of 200 bytes. *)
Lemma check_slice_exact_witness :
  exists r, @check_slice binary64 "eps" (Some 25000%Q) (Some 200%Q) "eventgen"
              (Some (mkCeilings (Some 250%Q) (Some 10000%Q))) = Ok r /\ ck_ok r = false.
Proof.
  destruct (@check_slice_exact binary64 "eps" 25000%Q (Some 200%Q) "eventgen"
              (mkCeilings (Some 250%Q) (Some 10000%Q)) (or_introl eq_refl) eq_refl)
    as (r & E & H & _).
  exists r. split; [exact E|]. vm_compute in E. injection E as <-. reflexivity.
Defined.

Lemma suggestion_clears_ceiling_witness :
  exists n x b, ck_suggested_workers (mkCheck false (Some 3) (Some FEps)) = Some n /\ 2 <= n /\
    (@over (Some 25000%Q) (Some 10000%Q) = Some (x, b) \/
     @over (@eps_to_gb_day binary64 25000 (Some 200%Q)) (Some 250%Q) = Some (x, b)) /\
    (x * (1 - eps) <= inject_Z n * b)%Q /\
    (2 < n -> ((inject_Z n - 1) * b < x * (1 + eps))%Q).
Proof.
  apply (@suggestion_clears_ceiling binary64 "eps" 25000%Q (Some 200%Q) "eventgen"
           None None None None (mkCeilings (Some 250%Q) (Some 10000%Q))
           (mkCheck false (Some 3) (Some FEps)));
    [by left|done|done|by vm_compute|done].
Defined.

(** The second half of [ceilings_most_specific_wins] at the Python eventgen,
    with the environment's volume bound switched off by the fleet. *)
Lemma ceilings_most_specific_wins_witness :
  resolve_ceilings "eventgen" (Some (mkCeilingSettings (Some 100%Q) None [("eventgen", KEps, 700%Q)]))
    (Some 0%Q) None (Some " Python ") = Some (mkCeilings None (Some 700%Q)) /\ (0 < 700)%Q.
Proof.
  split; [reflexivity|].
  exact (proj2 (ceilings_most_specific_wins "eventgen"
    (Some (mkCeilingSettings (Some 100%Q) None [("eventgen", KEps, 700%Q)]))
    (Some 0%Q) None (Some " Python ") KEps) _ _ eq_refl eq_refl).
Defined.
