(* ===== verification/Gate.v ===== *)
(** * Launching a spec (server/routes/api.py: run_spec and its checks)

    The operator's launch: the checks in the order of the route, each with the
    refusal it answers, and then the provisioning.  The rows of the tables the
    route reads are in [tables]; packs are directories ([Packs]) or stored
    metrics configs.

    The theorems: a fleet that is admitted has work on every slot and stays
    within the ceilings of its engine and the cap of its target; a launch either
    leaves a well-formed run whose every share is within the ceilings, or a failed
    run, or nothing. *)

From S2P Require Import Prelude.
From S2P Require Import PyFloat.
From S2P Require Import PyValue.
From S2P Require Import Apportion.
From S2P Require Import Pacing.
From S2P Require Import PackYaml.
From S2P Require Import MetricEngine.
From S2P Require Import ConfRewrite.
From S2P Require Import Lint.
From S2P Require Import Packs.
From S2P Require Import Merge.
From S2P Require Import Sharding.
From S2P Require Import Driver.
From S2P Require Import Model.
From S2P Require Import Shares.
From S2P Require Import Session.
From S2P Require Import Protocol.
From S2P Require Import Operators.
From S2P Require Import Provision.
From S2P Require Import Ceilings.
From Stdlib Require Import QArith Qabs Qround Lqa.
Open Scope Z_scope.

(** ** Rows *)

Record Pack : Type := mkPack {
  pk_id : Z;
  pk_name : string;
  pk_builder : option config;          (* builder_config_json *)
  pk_dir : pack_dir;                   (* source_path *)
  pk_bytes_per_event : option Q;       (* est_bytes_per_event *)
}.

Record SpecRow : Type := mkSpecRow {
  sr_spec : Spec;
  sr_target_id : Z;
  sr_pack_id : Z;
  sr_extra_ids : list Z;               (* extra_pack_ids_json or [] *)
}.

Record TargetRow : Type := mkTargetRow {
  tr_target : Target;
  tr_cap : option Q;                   (* max_concurrent_gb_day *)
  tr_health : string;                  (* health_state *)
}.

(** A run of the table, with the id of its spec. *)
Record RunRow : Type := mkRunRow { rr_spec_id : Z; rr_state : run_state; rr_snapshot : option snapshot }.

(** The limits a fleet's config_json sets. *)
Record fleet_limits : Type := mkLimits {
  fm_max_workers : option Z; fm_gb_day : option Q; fm_eps : option Q;
}.

Record tables : Type := mkTables {
  tb_specs : gmap Z SpecRow;
  tb_targets : gmap Z TargetRow;
  tb_packs : gmap Z Pack;
  tb_runs : list RunRow;
  tb_limits : gmap string fleet_limits;
}.

Record LaunchBody : Type := mkLaunch {
  lb_overrides : list (string * pyval);
  lb_backfill : backfill_request;
}.

(** ** Refusals *)

Inductive refusal : Type :=
  | NotFound (what : string)
  | PackLintFailed (errors : list string)
  | EnginePackMismatch (why : string)
  | MetricsRateMode
  | MultiPackUnsupported (why : string)
  | InprocessWorkerCap (max_workers : Z)
  | InprocessCustomCode (errors : list string)
  | ReplaySingleWorker (workers : Z)
  | SliceExceedsCeiling (check : CeilingCheck)
  | WorkersExceedWork (check : ShardingCheck)
  | TargetCapExceeded (headroom : Q)
  | TargetUnhealthy
  | BackfillExceedsCeiling (deliver_eps : Q) (check : CeilingCheck)
  | FleetUnavailable
  | UnknownFleet
  | ProvisionFailed (detail : string)
  | NotActive (state : run_state)
  | NotRunning
  | PauseUnsupported
  | NotPaused
  | RunPaused
  | BadRequest (detail : string)
  | RotationFixedFleet
  | NoDriver
  | DriverFailed (op detail : string).

(** The HTTP status of a refusal. *)
Definition status (r : refusal) : Z :=
  match r with
  | NotFound _ => 404
  | ReplaySingleWorker _ | TargetCapExceeded _ | TargetUnhealthy | NotActive _ | NotRunning
  | PauseUnsupported | NotPaused | RunPaused | RotationFixedFleet | NoDriver => 409
  | ProvisionFailed _ | DriverFailed _ _ => 502
  | _ => 422
  end.

(** A check: it may refuse the request, or fail with an exception nobody
    catches (a 500). *)
Definition G (A : Type) : Type := result (refusal + A).
Global Instance G_ret : MRet G := fun A a => Ok (inr a).
Global Instance G_bind : MBind G := fun A B f m =>
  match m with
  | Ok (inr a) => f a
  | Ok (inl r) => Ok (inl r)
  | Raise e => Raise e
  end.
Definition refuse {A} (r : refusal) : G A := Ok (inl r).
Definition refuse_if (b : bool) (r : refusal) : G unit := if b then refuse r else mret tt.
Definition compute {A} (m : result A) : G A := match m with Ok a => mret a | Raise e => Raise e end.
Definition found {A} (x : option A) (what : string) : G A :=
  match x with Some a => mret a | None => refuse (NotFound what) end.

Definition HEALTH_RED : string := "red".

(** ** Packs *)

Definition conf_of (p : Pack) : option conf :=
  match pd_conf (pk_dir p) with Some (Some c) => Some c | _ => None end.

(** [_pack_has_replay] *)
Definition pack_has_replay (p : Pack) : bool :=
  match conf_of p with
  | Some c => existsb (fun s => bool_decide (stanza_mode c s = "replay")) (sample_sections c)
  | None => false
  end.

Section Checks.
Context {R : Rounding} (repr_float : Q -> string) (private_host compiles : string -> bool).

Abbreviation rawreplay p := (is_rawreplay_pack repr_float (pk_dir p)).

Definition pack_errors (p : Pack) : result (list string) :=
  match pk_builder p with
  | Some c => lint_metrics_config c
  | None => l ← lint_pack repr_float private_host compiles (pk_dir p); Ok (lt_errors l)
  end.

Fixpoint load_extras (packs : gmap Z Pack) (ids : list Z) : G (list Pack) :=
  match ids with
  | [] => mret []
  | i :: ids =>
      p ← found (packs !! i) "spec extra pack no longer exists";
      ps ← load_extras packs ids;
      mret (p :: ps)
  end.

Fixpoint all_errors (packs : list Pack) : result (list string) :=
  match packs with
  | [] => Ok []
  | p :: packs => one ← pack_errors p; rest ← all_errors packs; Ok (one ++ rest)
  end.

(** [_multi_pack_guard] *)
Definition multi_pack_guard (engine : string) (packs : list Pack) : G unit :=
  if negb (bool_decide (py_strip (if nonempty engine then engine else "eventgen") = "eventgen"))
  then refuse (MultiPackUnsupported "engine")
  else
    foldr (fun p rest =>
      if bool_decide (is_Some (pk_builder p)) then refuse (MultiPackUnsupported "metrics pack")
      else if rawreplay p then refuse (MultiPackUnsupported "rawreplay pack")
      else if pack_has_replay p then refuse (MultiPackUnsupported "replay stanza")
      else rest) (mret tt) packs.

(** [_is_replay_run] *)
Definition is_replay_run (spec : Spec) (p : Pack) : bool :=
  bool_decide (py_strip (sp_engine spec) = RAWREPLAY_ENGINE) || rawreplay p || pack_has_replay p.

(** ** Volumes *)

(** [float(x) if x else None] *)
Definition rate_given (x : option Q) : option Q :=
  match x with Some v => if Qeq_bool v 0 then None else Some v | None => None end.

(** [_run_gb_day] and [_rate_to_gb_day] *)
Definition rate_to_gb_day (rate_mode : option string) (rate_value bytes_per_event : option Q) : option Q :=
  match rate_given rate_value with
  | None => None
  | Some v =>
      if bool_decide (rate_mode = Some "per_day_gb") then Some v
      else if bool_decide (rate_mode = Some "eps") then eps_to_gb_day v bytes_per_event
      else None
  end.

Definition run_gb_day (spec : Spec) (bytes_per_event : option Q) : option Q :=
  rate_to_gb_day (Some (sp_rate_mode spec)) (sp_rate_value spec) bytes_per_event.

Definition active_state (s : run_state) : bool :=
  match s with
  | Pending | Preparing | Provisioning | Releasing | Running | Paused | Draining => true
  | _ => false
  end.

(** What one run of the table adds to the target's volume. *)
Definition active_gb_day (t : tables) (target_id : Z) (r : RunRow) : option Q :=
  match tb_specs t !! rr_spec_id r with
  | Some s =>
      if bool_decide (sr_target_id s = target_id) && active_state (rr_state r) then
        let snap := default empty_snapshot (rr_snapshot r) in
        let bpe := tb_packs t !! sr_pack_id s ≫= pk_bytes_per_event in
        rate_given (rate_to_gb_day (sn_rate_mode snap) (sn_rate_value snap) bpe)
      else None
  | None => None
  end.

Definition active_gb_day_for_target (t : tables) (target_id : Z) : Q :=
  fsum (omap (active_gb_day t target_id) (tb_runs t)).

Definition target_headroom_gb_day (t : tables) (target : TargetRow) (spec : Spec)
    (bytes_per_event : option Q) : option Q :=
  match tr_cap target with
  | None => None
  | Some cap =>
      if Qle_bool cap 0 then None
      else
        match run_gb_day spec bytes_per_event with
        | None => None
        | Some this_run => Some (fsub (fsub cap (active_gb_day_for_target t (tg_id (tr_target target)))) this_run)
        end
  end.

(** ** The gates, in order *)

(** The ceilings' environment layer, and the default cap of an in-process fleet. *)
Context (ceiling_env : option ceiling_settings) (inprocess_max_workers : Z) (settings_cap : option Q).

(** [int(cfg.get("max_workers") or settings.inprocess_max_workers)] *)
Definition max_workers_of (l : fleet_limits) : Z :=
  match fm_max_workers l with Some n => if n =? 0 then inprocess_max_workers else n | None => inprocess_max_workers end.

Definition no_limits : fleet_limits := mkLimits None None None.

Fixpoint code_errors (packs : list Pack) : list string :=
  match packs with
  | [] => []
  | p :: packs =>
      (match pk_builder p with Some _ => [] | None => custom_code_errors (pk_dir p) end) ++ code_errors packs
  end.

(** 1b and 1c: the engine of the spec and the kind of the pack. *)
Definition engine_gates (spec : Spec) (pack : Pack) : G unit :=
  let engine := py_strip (sp_engine spec) in
  let metrics_pack := bool_decide (is_Some (pk_builder pack)) in
  let metrics_spec := bool_decide (engine = METRICS_ENGINE) in
  _ ← refuse_if (bool_decide (engine = RAWREPLAY_ENGINE) && negb (rawreplay pack))
        (EnginePackMismatch "not a rawreplay pack");
  _ ← refuse_if (metrics_spec && negb metrics_pack) (EnginePackMismatch "not a metrics pack");
  _ ← refuse_if (metrics_pack && negb metrics_spec) (EnginePackMismatch "the spec engine must be metrics");
  refuse_if (metrics_spec && negb (bool_decide (sp_rate_mode spec = "count_interval"))) MetricsRateMode.

(** 1c2: the merge, and the size of an event of the run. *)
Definition merge_gate (spec : Spec) (pack : Pack) (extras : list Pack) : G (option Q) :=
  match extras with
  | [] => mret (pk_bytes_per_event pack)
  | _ =>
      _ ← multi_pack_guard (sp_engine spec) (pack :: extras);
      merged ← compute (merged_est_bytes_per_event repr_float private_host compiles (pk_dir <$> pack :: extras));
      mret (match merged with Some b => Some b | None => pk_bytes_per_event pack end)
  end.

(** 1d: workers inside the control plane. *)
Definition inprocess_gates (fleet : option fleet_row) (limits : fleet_limits) (spec : Spec) (packs : list Pack)
    : G unit :=
  match fleet with
  | Some row =>
      if bool_decide (fl_driver row = "inprocess") then
        _ ← refuse_if (max_workers_of limits <? sp_workers spec) (InprocessWorkerCap (max_workers_of limits));
        refuse_if (negb (no_errors (code_errors packs))) (InprocessCustomCode (code_errors packs))
      else mret tt
  | None => mret tt
  end.

(** 3b: work for every worker. *)
Definition sharding_gate (spec : Spec) (pack : Pack) (extras : list Pack) : G unit :=
  check ← compute (check_sharding (Some (sp_engine spec)) (Some (sp_rate_mode spec)) (sp_workers spec)
                     (pk_builder pack)
                     (match pk_builder pack with None => conf_of pack | Some _ => None end)
                     (match extras with [] => [] | _ => conf_of <$> pack :: extras end));
  refuse_if (negb (sh_ok check)) (WorkersExceedWork check).

(** [(window and window > 0) or (start is not None and end is not None)] *)
Definition backfill_asked (b : backfill_request) : bool :=
  match bq_window_s b with Some w => negb (Qle_bool w 0) | None => false end
  || match bq_start_s b, bq_end_s b with Some _, Some _ => true | _, _ => false end.

(** The rate a backfill is checked at. *)
Definition deliver_eps (b : backfill_request) : Q :=
  match nonzero (bq_cap_eps b) with
  | Some q => q
  | None => match nonzero settings_cap with Some q => q | None => DEFAULT_BACKFILL_CAP_EPS end
  end.

Definition backfill_gate (b : backfill_request) (spec : Spec) (bytes_per_event : option Q) (c : option ceilings)
    : G (option backfill_request) :=
  if backfill_asked b then
    check ← compute (per_worker ← per_worker_share "eps" (Some (deliver_eps b)) (sp_workers spec);
                     check_slice "eps" per_worker bytes_per_event (sp_engine spec) c);
    _ ← refuse_if (negb (ck_ok check)) (BackfillExceedsCeiling (deliver_eps b) check);
    mret (Some b)
  else mret None.

(** What the gates admit. *)
Record admitted : Type := mkAdmitted {
  ad_spec : Spec;
  ad_target : Target;
  ad_backfill : option backfill_request;
}.

Definition gates (t : tables) (fleets : gmap string fleet_row) (spec_id : Z) (body : LaunchBody) : G admitted :=
  row ← found (tb_specs t !! spec_id) "unknown spec";
  let spec := sr_spec row in
  target ← found (tb_targets t !! sr_target_id row) "spec target no longer exists";
  pack ← found (tb_packs t !! sr_pack_id row) "spec pack no longer exists";
  extras ← load_extras (tb_packs t) (sr_extra_ids row);
  errors ← compute (all_errors (pack :: extras));
  _ ← refuse_if (negb (no_errors errors)) (PackLintFailed errors);
  _ ← engine_gates spec pack;
  bytes_per_event ← merge_gate spec pack extras;
  let fleet := fleets !! sp_fleet spec in
  let limits := default no_limits (tb_limits t !! sp_fleet spec) in
  _ ← inprocess_gates fleet limits spec (pack :: extras);
  _ ← refuse_if (is_replay_run spec pack && negb (sp_workers spec =? 1)) (ReplaySingleWorker (sp_workers spec));
  let c := resolve_ceilings (sp_engine spec) ceiling_env
             (match fleet with Some _ => fm_gb_day limits | None => None end)
             (match fleet with Some _ => fm_eps limits | None => None end) (sp_eventgen_impl spec) in
  check ← compute (per_worker ← per_worker_share (sp_rate_mode spec) (sp_rate_value spec) (sp_workers spec);
                   check_slice (sp_rate_mode spec) per_worker bytes_per_event (sp_engine spec) c);
  _ ← refuse_if (negb (ck_ok check)) (SliceExceedsCeiling check);
  _ ← sharding_gate spec pack extras;
  _ ← (match target_headroom_gb_day t target spec bytes_per_event with
       | Some h => refuse_if (negb (Qle_bool 0 h)) (TargetCapExceeded h)
       | None => mret tt
       end);
  _ ← refuse_if (bool_decide (tr_health target = HEALTH_RED)) TargetUnhealthy;
  backfill ← backfill_gate (lb_backfill body) spec bytes_per_event c;
  mret (mkAdmitted spec (tr_target target) backfill).
End Checks.

(** ** The route *)

Section Route.
Context {D : Type} `{Env D} (private_host compiles : string -> bool)
  (ceiling_env : option ceiling_settings) (inprocess_max_workers : Z).
Abbreviation W := (world D).

(** The session is rolled back; driver calls and drawn tokens stay. *)
Definition rollback (w w' : W) : W :=
  with_tokens (fun _ => w_tokens w') (with_registry (fun _ => w_registry w') w).

(** [run_spec]: [bundle] is what building the bundle gives. *)
Definition run_spec (t : tables) (run_id spec_id : Z) (body : LaunchBody) (actor : string)
    (bundle : Spec -> result string) (w : W) : W * result (refusal + run_state) :=
  match gates repr_float private_host compiles ceiling_env inprocess_max_workers
          (backfill_cap_eps env_settings) t (reg_fleets (w_registry w)) spec_id body with
  | Raise e => (w, Raise e)
  | Ok (inl r) => (w, Ok (inl r))
  | Ok (inr ad) =>
      let spec := ad_spec ad in
      match resolve_fleet_driver (sp_fleet spec) w with
      | (w1, Raise (DriverError _)) =>
          (rollback w w1,
           Ok (inl (if bool_decide (is_Some (reg_fleets (w_registry w) !! sp_fleet spec))
                    then FleetUnavailable else UnknownFleet)))
      | (w1, Raise e) => (rollback w w1, Raise e)
      | (w1, Ok driver) =>
          match (digest ← lift (bundle spec);
                 provision_run run_id spec (ad_target ad) digest driver (lb_overrides body) (Some actor)
                   (ad_backfill ad)) w1 with
          | (w2, Ok _) => (w2, Ok (inr (r_state (w_run w2))))
          | (w2, Raise (DriverError m)) => (w2, Ok (inl (ProvisionFailed m)))
          | (w2, Raise e) => (rollback w w2, Raise e)
          end
      end
  end.
End Route.

(** ** What passing the gates means *)

Section Passed.

Lemma G_bind_inr {A B} (m : G A) (f : A -> G B) b :
  (m ≫= f) = Ok (inr b) -> exists a, m = Ok (inr a) /\ f a = Ok (inr b).
Proof. destruct m as [[r|a]|e]; [done|eauto|done]. Qed.

Lemma refuse_if_inr b r x : refuse_if b r = Ok (inr x) -> b = false.
Proof. by destruct b. Qed.

Lemma compute_inr {A} (m : result A) a : compute m = Ok (inr a) -> m = Ok a.
Proof. destruct m; [by intros [= ->]|done]. Qed.

Lemma found_inr {A} (x : option A) what a : found x what = Ok (inr a) -> x = Some a.
Proof. destruct x; [by intros [= ->]|done]. Qed.

Context {R : Rounding} (repr_float : Q -> string) (private_host compiles : string -> bool)
  (ceiling_env : option ceiling_settings) (inprocess_max_workers : Z) (settings_cap : option Q).

Abbreviation gates := (gates repr_float private_host compiles ceiling_env inprocess_max_workers settings_cap).

(** The ceilings in force for a spec on its fleet. *)
Definition gate_ceilings (t : tables) (fleets : gmap string fleet_row) (spec : Spec) : option ceilings :=
  let limits := default no_limits (tb_limits t !! sp_fleet spec) in
  let fleet := fleets !! sp_fleet spec in
  resolve_ceilings (sp_engine spec) ceiling_env
    (match fleet with Some _ => fm_gb_day limits | None => None end)
    (match fleet with Some _ => fm_eps limits | None => None end) (sp_eventgen_impl spec).

Record passed (t : tables) (fleets : gmap string fleet_row) (spec_id : Z) (body : LaunchBody) (ad : admitted)
    (row : SpecRow) (target : TargetRow) (pack : Pack) (extras : list Pack) (size : option Q) : Prop := {
  ps_row : tb_specs t !! spec_id = Some row;
  ps_spec : ad_spec ad = sr_spec row;
  ps_target : tb_targets t !! sr_target_id row = Some target;
  ps_pack : tb_packs t !! sr_pack_id row = Some pack;
  ps_extras : load_extras (tb_packs t) (sr_extra_ids row) = Ok (inr extras);
  ps_lint : all_errors repr_float private_host compiles (pack :: extras) = Ok [];
  ps_engine : engine_gates repr_float (sr_spec row) pack = Ok (inr tt);
  ps_size : merge_gate repr_float private_host compiles (sr_spec row) pack extras = Ok (inr size);
  ps_replay : is_replay_run repr_float (sr_spec row) pack = true -> sp_workers (sr_spec row) = 1;
  ps_ceiling : exists per_worker check,
    per_worker_share (sp_rate_mode (sr_spec row)) (sp_rate_value (sr_spec row)) (sp_workers (sr_spec row)) = Ok per_worker
    /\ check_slice (sp_rate_mode (sr_spec row)) per_worker size (sp_engine (sr_spec row))
         (gate_ceilings t fleets (sr_spec row)) = Ok check
    /\ ck_ok check = true;
  ps_sharding : sharding_gate (sr_spec row) pack extras = Ok (inr tt);
  ps_headroom : forall h, target_headroom_gb_day t target (sr_spec row) size = Some h -> (0 <= h)%Q;
  ps_health : tr_health target <> HEALTH_RED;
  ps_backfill : backfill_gate settings_cap (lb_backfill body) (sr_spec row) size
                  (gate_ceilings t fleets (sr_spec row)) = Ok (inr (ad_backfill ad));
}.

Lemma gates_passed t fleets spec_id body ad : gates t fleets spec_id body = Ok (inr ad) ->
  exists row target pack extras size, passed t fleets spec_id body ad row target pack extras size.
Proof.
  unfold Gate.gates. intros H.
  apply G_bind_inr in H as (row & Erow%found_inr & H).
  apply G_bind_inr in H as (target & Etarget%found_inr & H).
  apply G_bind_inr in H as (pack & Epack%found_inr & H).
  apply G_bind_inr in H as (extras & Eextras & H).
  apply G_bind_inr in H as (errors & Eerrors%compute_inr & H).
  apply G_bind_inr in H as ([] & Elint%refuse_if_inr & H).
  apply G_bind_inr in H as ([] & Eengine & H).
  apply G_bind_inr in H as (size & Esize & H). cbv zeta in H.
  apply G_bind_inr in H as ([] & Einproc & H).
  apply G_bind_inr in H as ([] & Ereplay%refuse_if_inr & H).
  apply G_bind_inr in H as (check & Echeck%compute_inr & H).
  apply G_bind_inr in H as ([] & Eok%refuse_if_inr & H).
  apply G_bind_inr in H as ([] & Esharding & H).
  apply G_bind_inr in H as ([] & Eheadroom & H).
  apply G_bind_inr in H as ([] & Ehealth%refuse_if_inr & H).
  apply G_bind_inr in H as (backfill & Ebackfill & H). injection H as <-.
  exists row, target, pack, extras, size. split; try done.
  - apply negb_false_iff, bool_decide_eq_true in Elint. by subst errors.
  - intros Hr. rewrite Hr in Ereplay. cbn [andb] in Ereplay. apply negb_false_iff in Ereplay. lia.
  - destruct (per_worker_share _ _ _) as [pw|]; [|done]. exists pw, check.
    split_and!; [done|done|by apply negb_false_iff].
  - intros h Eh. rewrite Eh in Eheadroom. apply refuse_if_inr, negb_false_iff in Eheadroom.
    by apply Qle_bool_iff.
  - by apply bool_decide_eq_false in Ehealth.
Qed.
End Passed.

(** ** Every admitted worker has work *)

Section Work.
Context {R : Rounding}.

Lemma engine_name_strip e name : name <> EmptyString -> name <> "eventgen" ->
  engine_name (Some e) = name -> py_strip e = name.
Proof.
  intros H1 H2. unfold engine_name. destruct (nonempty e) eqn:E; [|by intros <-].
  destruct (nonempty (py_strip e)); [done|by intros <-].
Qed.

Lemma engine_gates_metrics repr_float spec pack : engine_gates repr_float spec pack = Ok (inr tt) ->
  (py_strip (sp_engine spec) = METRICS_ENGINE <-> is_Some (pk_builder pack)).
Proof.
  unfold engine_gates. intros H. apply G_bind_inr in H as (_ & _ & H).
  apply G_bind_inr in H as (_ & E1%refuse_if_inr & H). apply G_bind_inr in H as (_ & E2%refuse_if_inr & _).
  destruct (bool_decide_reflect (py_strip (sp_engine spec) = METRICS_ENGINE)),
    (bool_decide_reflect (is_Some (pk_builder pack))); done.
Qed.

(** All of a fleet's slots pass a test that as many slots pass as the fleet has. *)
Lemma all_pass (p : nat -> bool) n : 1 <= n -> n <= Z.of_nat (length (List.filter p (seq 0 (Z.to_nat n)))) ->
  forall slot, (slot < Z.to_nat n)%nat -> p slot = true.
Proof.
  intros Hn H slot Hs. destruct (p slot) eqn:E; [done|exfalso].
  assert (length (List.filter p (seq 0 (Z.to_nat n))) + length (List.filter (negb ∘ p) (seq 0 (Z.to_nat n)))
    = Z.to_nat n)%nat as Hsum.
  { rewrite <- (length_seq (Z.to_nat n) 0) at 3. generalize (seq 0 (Z.to_nat n)) as l.
    induction l as [|x l IH]; [done|]. cbn. destruct (p x); cbn; lia. }
  assert (slot ∈ List.filter (negb ∘ p) (seq 0 (Z.to_nat n))) as Hin.
  { apply list_elem_of_In, List.filter_In. split; [apply in_seq; lia|]. cbn. by rewrite E. }
  destruct (List.filter (negb ∘ p) _); [by apply elem_of_nil in Hin|]. cbn in Hsum. lia.
Qed.

Lemma lint_metrics_dimensions c : lint_metrics_config c = Ok [] -> lint_dimensions c = Ok [].
Proof.
  unfold lint_metrics_config. destruct (lint_dimensions c) as [errs|]; [|done]. cbn [mbind result_bind].
  assert (forall a b : list string, a ++ errs ++ b = [] -> errs = []) as Hnil.
  { intros a b [_ H]%app_eq_nil. by apply app_eq_nil in H as [? _]. }
  destruct (dget c "metrics") as [| | | |[|m ms]|]; try (intros [= H]; by rewrite (Hnil _ _ H)).
  destruct (metrics_series_count c); [|done]. cbn [mbind result_bind]. intros [= H]. by rewrite (Hnil _ _ H).
Qed.

(** A metrics fleet: the sharding check counts the series the workers stride over. *)
Lemma metrics_gate_work spec pack c n : pk_builder pack = Some c -> lint_metrics_config c = Ok [] ->
  n = sp_workers spec -> 2 <= n -> sharding_gate spec pack [] = Ok (inr tt) ->
  forall slot, 0 <= slot < n -> exists k, owned_series c slot n = Ok k /\ 0 < k.
Proof.
  intros Eb Hl -> Hn Hg slot Hs. unfold sharding_gate in Hg. rewrite Eb in Hg.
  apply G_bind_inr in Hg as (check & Ec%compute_inr & Hok%refuse_if_inr). apply negb_false_iff in Hok.
  destruct (lint_axes c (lint_metrics_dimensions c Hl)) as (dims & axes & Ei & Hax & _).
  destruct (counts_agree c dims axes Ei Hax) as [Ecount Etotal].
  set (total := foldr Z.mul 1 (axis_len <$> axes)) in *.
  unfold check_sharding in Ec. rewrite Z.max_r in Ec by lia.
  destruct (Z.eqb_spec (sp_workers spec) 1); [lia|].
  rewrite (bool_decide_true (is_Some (Some c))), orb_true_r in Ec by (by eexists).
  cbn [default from_option id] in Ec. rewrite Ecount in Ec. cbn [mbind result_bind] in Ec. injection Ec as <-.
  destruct (Z.leb_spec (sp_workers spec) (metrics_active_workers total (sp_workers spec))) as [Hle|]; [|done].
  unfold metrics_active_workers in Hle. unfold owned_series. rewrite Etotal. cbn [mbind result_bind].
  eexists. split; [reflexivity|]. apply range_len_pos; lia.
Qed.

(** A count_interval fleet of one eventgen pack: the check counts the workers
    whose own rewritten conf emits. *)
Lemma interval_gate_work repr_float spec pack c : let n := sp_workers spec in
  pk_builder pack = None -> conf_of pack = Some c -> engine_gates repr_float spec pack = Ok (inr tt) ->
  (is_replay_run repr_float spec pack = true -> n = 1) ->
  sp_rate_mode spec = "count_interval" -> 2 <= n -> sharding_gate spec pack [] = Ok (inr tt) ->
  wf_conf c -> sample_sections c <> [] -> (forall s, s ∈ sample_sections c -> predictable c n s) ->
  forall share od dir w slot, (slot < Z.to_nat n)%nat -> holds_work c n share od dir w slot = true.
Proof.
  intros n Eb Ec He Hr Hm Hn Hg Hwf Hne Hp share od dir w slot Hs.
  unfold sharding_gate in Hg. rewrite Eb, Ec in Hg.
  apply G_bind_inr in Hg as (check & Ek%compute_inr & Hok%refuse_if_inr). apply negb_false_iff in Hok.
  unfold check_sharding in Ek. rewrite Z.max_r in Ek by (subst n; lia). fold n in Ek.
  destruct (Z.eqb_spec n 1); [lia|].
  destruct (bool_decide_reflect (engine_name (Some (sp_engine spec)) = "metrics")) as [Em|_].
  { apply engine_name_strip in Em; [|done..]. apply (engine_gates_metrics _ _ _ He) in Em. rewrite Eb in Em.
    by destruct Em. }
  rewrite (bool_decide_false (is_Some None)) in Ek by (by intros [? ?]). cbn [orb] in Ek.
  destruct (bool_decide_reflect (engine_name (Some (sp_engine spec)) = "rawreplay")) as [Em|_].
  { apply engine_name_strip in Em; [|done..]. exfalso. enough (n = 1) by lia. apply Hr. unfold is_replay_run.
    by rewrite Em. }
  rewrite Hm, bool_decide_true in Ek by done. cbn [negb declared_counts eventgen_stanza_counts fmap option_fmap option_map] in Ek.
  rewrite stanza_counts_spec in Ek by (intros s Hin; by apply Hp).
  destruct ((fun s => get_float c s "count") <$> sample_sections c) as [|o counts] eqn:Eo.
  { by apply fmap_nil_inv in Eo. }
  rewrite <- Eo in Ek. rewrite active_workers_spec in Ek; [|lia|].
  2:{ apply Forall_fmap, Forall_forall. intros s Hin q Hq. by apply (Hp s Hin). }
  cbn [mbind result_bind] in Ek. injection Ek as <-.
  destruct (Z.leb_spec n (Z.of_nat (length (List.filter (fun slot => existsb (fun o => stanza_active n o slot)
     ((fun s => get_float c s "count") <$> sample_sections c)) (seq 0 (Z.to_nat n)))))) as [Hle|]; [|done].
  pose proof (all_pass _ n ltac:(lia) Hle slot Hs) as Hact. cbn beta in Hact.
  destruct (holds_work_spec c n Hwf ltac:(lia) share od dir w slot Hp Hs) as (c' & k & E1 & E2 & E3).
  unfold holds_work. rewrite E1, E2, E3, stanza_counts_spec by (intros s Hin; by apply Hp). done.
Qed.
End Work.

(** A fleet that is admitted has work on every slot.  A replay run has one
    worker.  In a larger fleet, each worker of a metrics run owns at least one
    series; and each worker of a count_interval run of one eventgen pack, whose
    stanzas the prediction covers, finds something to emit in its own rewritten
    conf. *)
Theorem admitted_fleet_has_work {R : Rounding} repr_float private_host compiles ceiling_env inprocess_max_workers
    settings_cap t fleets spec_id body ad (n := sp_workers (ad_spec ad)) :
  gates repr_float private_host compiles ceiling_env inprocess_max_workers settings_cap t fleets spec_id body
    = Ok (inr ad) ->
  exists row pack extras, tb_specs t !! spec_id = Some row /\ sr_spec row = ad_spec ad /\
    tb_packs t !! sr_pack_id row = Some pack /\ load_extras (tb_packs t) (sr_extra_ids row) = Ok (inr extras) /\
    (is_replay_run repr_float (ad_spec ad) pack = true -> n = 1) /\
    (2 <= n -> forall c, pk_builder pack = Some c ->
       forall slot, 0 <= slot < n -> exists k, owned_series c slot n = Ok k /\ 0 < k) /\
    (2 <= n -> forall c, pk_builder pack = None -> extras = [] -> sp_rate_mode (ad_spec ad) = "count_interval" ->
       conf_of pack = Some c -> wf_conf c -> sample_sections c <> [] ->
       (forall s, s ∈ sample_sections c -> predictable c n s) ->
       forall share od dir w slot, (slot < Z.to_nat n)%nat -> holds_work c n share od dir w slot = true).
Proof.
  intros H. apply gates_passed in H as (row & target & pack & extras & size & P).
  destruct P as [Erow Espec _ Epack Eextras Hlint Hengine Hsize Hreplay _ Hshard _ _ _]. subst n. rewrite Espec.
  exists row, pack, extras. split_and!; [done..| |].
  - intros Hn c Eb. assert (extras = []) as ->.
    { destruct extras as [|p ps]; [done|].
      unfold merge_gate in Hsize. apply G_bind_inr in Hsize as (? & Hm & _). unfold multi_pack_guard in Hm.
      destruct (negb _) in Hm; [done|]. cbn [foldr] in Hm. by rewrite Eb in Hm. }
    apply (metrics_gate_work (sr_spec row) pack c); [done| |done|done|done].
    cbn [all_errors] in Hlint.
    unfold pack_errors in Hlint. rewrite Eb in Hlint. destruct (lint_metrics_config c) as [errs|]; [|done].
    cbn [mbind result_bind] in Hlint. injection Hlint as Hl. by rewrite app_nil_r in Hl; subst.
  - intros Hn c Eb -> Hm Ec Hwf Hne Hp.
    by apply (interval_gate_work repr_float (sr_spec row) pack c).
Qed.

(** ** Within the limits *)

Section Limits.
Context {R : Rounding}.

Lemma qmaximum_ge q qs : q ∈ qs -> (q <= qmaximum qs)%Q.
Proof.
  assert (forall qs a, (a <= foldl qmax a qs)%Q /\ forall q, q ∈ qs -> (q <= foldl qmax a qs)%Q) as H.
  { clear. induction qs as [|x qs IH]; intros a; cbn [foldl]; [split; [lra|by intros ? []%elem_of_nil]|].
    destruct (IH (qmax a x)) as [H1 H2]. unfold qmax in *. destruct (Qle_bool a x) eqn:E.
    - apply Qle_bool_iff in E. split; [lra|]. intros q [->|Hq]%elem_of_cons; [done|by apply H2].
    - assert (x <= a)%Q.
      { destruct (Qlt_le_dec a x) as [Hlt|]; [|done]. apply Qlt_le_weak, Qle_bool_iff in Hlt. congruence. }
      split; [done|]. intros q [->|Hq]%elem_of_cons; [lra|by apply H2]. }
  destruct qs as [|a qs]; [by intros []%elem_of_nil|]. cbn. destruct (H qs a) as [H1 H2].
  intros [->|Hq]%elem_of_cons; [done|by apply H2].
Qed.

Lemma fdiv_mono x y b : (x <= y)%Q -> (0 < b)%Q -> (fdiv x b <= fdiv y b)%Q.
Proof.
  intros H Hb. apply rnd_mono. unfold Qdiv. apply Qmult_le_compat_r; [done|]. apply Qlt_le_weak, Qinv_lt_0_compat, Hb.
Qed.

Lemma fmul_mono x y b : (x <= y)%Q -> (0 <= b)%Q -> (fmul x b <= fmul y b)%Q.
Proof. intros H Hb. apply rnd_mono. by apply Qmult_le_compat_r. Qed.

(** A smaller share implies smaller rates. *)
Lemma within_smaller mode x y size be bg : (x <= y)%Q ->
  within (implied_eps mode y size) be /\ within (implied_gb_day mode y size) bg ->
  within (implied_eps mode x size) be /\ within (implied_gb_day mode x size) bg.
Proof.
  intros Hle [H1 H2]. unfold implied_eps, implied_gb_day, gb_day_to_eps, eps_to_gb_day, within in *.
  destruct (known_size size) as [b|] eqn:Es.
  - assert (0 < b)%Q as Hb.
    { unfold known_size in Es. destruct size as [b'|]; [|done]. destruct (Qle_bool b' 0) eqn:E; [done|].
      injection Es as ->. destruct (Qlt_le_dec 0 b) as [|Hc]; [done|]. apply Qle_bool_iff in Hc. congruence. }
    case_bool_decide; split; intros v bound [= <-] Ebound.
    + specialize (H1 _ _ eq_refl Ebound). lra.
    + specialize (H2 _ _ eq_refl Ebound). eapply Qle_trans; [|exact H2].
      apply fdiv_mono; [|done]. apply fmul_mono; [|done]. apply fmul_mono; [done|lra].
    + specialize (H1 _ _ eq_refl Ebound). eapply Qle_trans; [|exact H1].
      apply fdiv_mono; [|done]. apply fdiv_mono; [|done]. by apply fmul_mono.
    + specialize (H2 _ _ eq_refl Ebound). lra.
  - case_bool_decide; split; intros v bound E Ebound; try done; injection E as <-.
    + specialize (H1 _ _ eq_refl Ebound). lra.
    + specialize (H2 _ _ eq_refl Ebound). lra.
Qed.

Lemma rnd_sign x : (0 <= rnd x)%Q -> (0 <= x)%Q.
Proof.
  intros H. destruct (Qlt_le_dec x 0) as [Hx|]; [|done]. exfalso.
  pose proof (rnd_err x) as He. rewrite (Qabs_neg x) in He by lra.
  apply Qabs_Qle_condition in He. unfold eps in He. lra.
Qed.

(** The volumes of the target's active runs and of this one fit under its cap,
    up to the rounding of one subtraction. *)
Lemma headroom_fits t target spec size h : target_headroom_gb_day t target spec size = Some h -> (0 <= h)%Q ->
  exists cap gb, tr_cap target = Some cap /\ run_gb_day spec size = Some gb /\
    (active_gb_day_for_target t (tg_id (tr_target target)) + gb
       <= cap + eps * Qabs (cap - active_gb_day_for_target t (tg_id (tr_target target))))%Q.
Proof.
  unfold target_headroom_gb_day. destruct (tr_cap target) as [cap|]; [|done].
  destruct (Qle_bool cap 0); [done|]. destruct (run_gb_day spec size) as [gb|]; [|done].
  intros [= <-] H. exists cap, gb. split_and!; [done|done|]. apply rnd_sign in H.
  set (active := active_gb_day_for_target _ _) in *. pose proof (rnd_err (cap - active)) as He.
  change (rnd (cap - active)) with (fsub cap active) in He. apply Qabs_Qle_condition in He. lra.
Qed.
End Limits.

(** ** Witnesses *)

Section Witnesses.
Local Instance gate_rounding : Rounding := binary64.

(** Two stanzas of two and three events per interval. *)
Definition shop_conf : conf :=
  mkConf [] [("web.sample", [("count", Some "2")]); ("auth.sample", [("count", Some "3")])].
Definition shop_dir : pack_dir := eventgen_dir "shop" shop_conf ["web.sample"; "auth.sample"].
Definition shop_pack : Pack := mkPack 1 "shop" None shop_dir (Some 9%Q).
Definition shop_spec (mode : string) (rate : option Q) (workers : Z) : Spec :=
  mkSpec 7 "shop" "eventgen" mode rate workers (Some 600) "fake" false [] ∅ None None None 0 None None.
Definition shop_target (cap : option Q) : TargetRow :=
  mkTargetRow (mkTarget 3 (Some "https://hec.example:8088") (Some "main") true (Some "s3cret")) cap "green".
Definition shop_tables (spec : Spec) (cap : option Q) (runs : list RunRow) : tables :=
  mkTables {[ 7 := mkSpecRow spec 3 1 [] ]} {[ 3 := shop_target cap ]} {[ 1 := shop_pack ]} runs ∅.
Definition no_window : backfill_request := mkBackfillRequest None None None None None.
Definition plain_launch : LaunchBody := mkLaunch [] no_window.

Definition shop_gates (spec : Spec) (cap : option Q) (runs : list RunRow) (body : LaunchBody) : G admitted :=
  gates (fun _ => "1.0") (fun _ => false) (fun _ => true) None 4 None (shop_tables spec cap runs) ∅ 7 body.

Lemma admitted_fleet_has_work_witness : holds_work shop_conf 2 None 1 "/s" None 1 = true.
Proof.
  destruct (admitted_fleet_has_work (fun _ => "1.0") (fun _ => false) (fun _ => true) None 4 None
              (shop_tables (shop_spec "count_interval" None 2) None []) ∅ 7 plain_launch
              (mkAdmitted (shop_spec "count_interval" None 2) (tr_target (shop_target None)) None))
    as (row & pack & extras & Erow & _ & Epack & Eextras & _ & _ & H).
  - vm_compute. reflexivity.
  - injection Erow as <-. injection Epack as <-. injection Eextras as <-.
    apply (H ltac:(done) shop_conf eq_refl eq_refl eq_refl eq_refl); [conf_wf|done| |cbn; lia].
    apply Forall_forall. repeat (apply Forall_cons; split); [..|apply Forall_nil; exact I];
      (split; [vm_compute; reflexivity|]; split; [done|]);
      intros q Hq; vm_compute in Hq; injection Hq as <-; right; split; (done || (vm_compute; done)).
Defined.

(** A fleet of four is refused, with the three workers that would have work. *)
Example oversized_fleet_refused :
  exists check, shop_gates (shop_spec "count_interval" None 4) None [] plain_launch = Ok (inl (WorkersExceedWork check))
    /\ sh_suggested_workers check = Some 3.
Proof. eexists. split; [vm_compute; reflexivity|reflexivity]. Qed.

(** A negative delivery cap passes the ceiling check of a backfill, as no rate at
    all, and the plan then delivers at its default of 5000 events per second,
    beyond the configured ceiling of 100. *)
Definition backfill_at (cap : Q) : LaunchBody := mkLaunch [] (mkBackfillRequest (Some 3600%Q) None None None (Some cap)).
Definition slow_ceilings : ceiling_settings := mkCeilingSettings None (Some 100%Q) [].

Example negative_cap_passes_gate :
  let spec := shop_spec "eps" (Some 10%Q) 1 in
  let run cap := gates (fun _ => "1.0") (fun _ => false) (fun _ => true) (Some slow_ceilings) 4 None
                   (shop_tables spec None []) ∅ 7 (backfill_at cap) in
  (exists check, run 5000%Q = Ok (inl (BackfillExceedsCeiling 5000 check))) /\
  (exists ad, run (-1)%Q = Ok (inr ad)) /\
  (exists plan, plan_backfill "eventgen" 0 (Some 10%Q) (Some 3600%Q) None (Some (-1)%Q) 0 None None None = Ok plan
     /\ pl_deliver_eps plan = 5000%Q).
Proof.
  split; [eexists; vm_compute; reflexivity|]. split; [eexists; vm_compute; reflexivity|].
  eexists. split; vm_compute; reflexivity.
Qed.

(** The target's cap is checked at the spec's rate: a backfill that delivers two
    hundred times as much is admitted under it. *)
Example backfill_ignores_target_cap :
  let spec := shop_spec "eps" (Some 10%Q) 1 in
  (exists ad, shop_gates spec (Some 1%Q) [] (backfill_at 2000) = Ok (inr ad)) /\
  (exists gb, rate_to_gb_day (Some "eps") (Some 2000%Q) (Some 9%Q) = Some gb /\ (1 < gb)%Q).
Proof.
  split; [eexists; vm_compute; reflexivity|]. eexists. split; vm_compute; reflexivity.
Qed.
End Witnesses.
