(* ===== verification/Scenario.v ===== *)
(** * A concrete environment and run

    The instance the library's theorems are exercised at: CPython floats, the
    in-memory driver, tokens numbered in decimal, backpressure on.  [demo_run]
    is a launched run of three workers at 100 events per second. *)

From S2P Require Import Prelude.
From S2P Require Import PyFloat.
From S2P Require Import PyValue.
From S2P Require Import Apportion.
From S2P Require Import Driver.
From S2P Require Import Model.
From S2P Require Import Shares.
From S2P Require Import Session.
From S2P Require Import Protocol.
From S2P Require Import Operators.
From S2P Require Import Provision.
From Stdlib Require Import QArith.
Open Scope Z_scope.

Definition demo_settings : settings :=
  mkSettings "https://stoker.example" "stoker-worker" 3600 true "step_down" (1 # 2)
    (60 * usec) (1 # 2) (1 # 10) None.

Global Instance demo : Env FakeDriver := {|
  env_rounding := binary64;
  env_driver := fake_driver;
  env_settings := demo_settings;
  token_hex := fun n => pretty n;
  mint_run_jwt := fun run_id kid => "jwt-" +:+ pretty run_id +:+ "-" +:+ kid;
  jwt_seconds_remaining := fun _ => Some (1800 * usec);
  build_driver := fun row =>
    if bool_decide (fl_driver row = "fake") then Ok Fake.init
    else Raise (DriverError "unknown fleet driver");
  repr_float := fun _ => "0.0";
  decrypt := fun s => s;
  ca_bundle_pem := None;
|}.

Definition demo_spec (workers : Z) : Spec :=
  mkSpec 7 "soak" "eventgen" "eps" (Some 100%Q) workers (Some 600) "fake" false [] ∅ None None
    None 0 None None.

Definition demo_target : Target :=
  mkTarget 3 (Some "https://hec.example:8088") (Some "main") true (Some "s3cret").

Definition blank_run : Run :=
  mkRun 0 None None None None Pending false None None None None None None None ∅ None 0.

(** An empty session with one driver object, bound to the fleet name [fake]. *)
Definition blank : world FakeDriver :=
  mkWorld 1000000000 blank_run [] [] [] ∅
    (mkRegistry {[ 0%nat := Fake.init ]} {[ "fake" := 0%nat ]} ∅) 0.

Definition demo_drivers : driver_map := [("fake", Some 0%nat)].

Definition demo_run : world FakeDriver :=
  fst (provision_run 42 (demo_spec 3) demo_target "sha" 0 [] (Some "alice") None blank).

Example demo_run_leases :
  (fun l => (l_slot l, l_id l, l_state l)) <$> w_leases demo_run
  = [(0%nat, "le_1", LFree); (1%nat, "le_2", LFree); (2%nat, "le_3", LFree)].
Proof. vm_compute. done. Qed.

Example demo_run_state :
  r_state (w_run demo_run) = Provisioning /\ ev_kind <$> w_events demo_run = ["created"; "state"; "state"].
Proof. vm_compute. done. Qed.
