(* ===== verification/AgentConfig.v ===== *)
(** * The worker's environment contract (worker/stoker_agent/config.py)

    [load_config] reads the variables a worker is started with into a frozen
    configuration, or raises [ConfigError], here with the variable its message
    names.  What the file system holds and the host's name are arguments.

    The theorems: a configuration that is accepted is within the contract's bounds,
    a violation always names a variable of the contract, and the environment the
    control plane projects for a run ([Provision.build_env]) is accepted and
    gives the worker the run, the fleet size, the engine, the token and the
    TLS choice it was launched with. *)

From S2P Require Import Prelude.
From S2P Require Import PyFloat.
From S2P Require Import PyValue.
From S2P Require Import PackYaml.
From S2P Require Import Driver.
From S2P Require Import Model.
From S2P Require Import Provision.
From S2P Require Import Scenario.
From Stdlib Require Import QArith Ascii Lqa.
Open Scope Z_scope.

Abbreviation environ := (gmap string string).

Definition RATE_MODES : list string := ["eps"; "per_day_gb"; "count_interval"].
Definition ENGINES : list string := ["eventgen"; "rawreplay"; "metrics"].

(** The defaults, as [str()] prints them. *)
Definition DEFAULT_OUTPUT_SOCKET : string := "/tmp/stoker-output.sock".
Definition DEFAULT_HEARTBEAT_S : string := "5.0".
Definition DEFAULT_OVERDRIVE : string := "1.15".
Definition DEFAULT_CATCHUP_S : string := "5.0".
Definition DEFAULT_METRICS_PORT : string := "9100".
Definition DEFAULT_DEADMAN_S : string := "600.0".
Definition DEFAULT_ZERO_OUTPUT_S : string := "45.0".
Definition DEFAULT_ZERO_OUTPUT_MAX_RESTARTS : string := "3".
Definition DEFAULT_DRAIN_BUDGET_S : string := "40.0".

(** A file of certificates: one the container has, or one written with this text. *)
Inductive ca_bundle : Type := CaPath (path : string) | CaWritten (pem : text).

Record Config : Type := mkConfig {
  cf_standalone : bool;
  cf_run_id : option string;
  cf_control_url : option string;
  cf_run_jwt : option string;
  cf_holder : string;
  cf_hint_slot : option Z;
  cf_bundle : option string;
  cf_bundle_sha256 : option string;
  cf_hec_url : option string;
  cf_index : option string;
  cf_sourcetype : option string;
  cf_host_field : option string;
  cf_source : option string;
  cf_rate_mode : option string;
  cf_rate_value : option Q;
  cf_duration_s : option Q;
  cf_slot : Z;
  cf_engine : string;
  cf_hec_token : string;
  cf_total_workers : Z;
  cf_output_socket : string;
  cf_heartbeat_s : Q;
  cf_overdrive : Q;
  cf_catchup_s : Q;
  cf_metrics_port : Z;
  cf_deadman_s : Q;
  cf_drain_budget_s : Q;
  cf_hec_verify_tls : bool;
  cf_hec_ca_bundle : option ca_bundle;
  cf_zero_output_s : Q;
  cf_zero_output_max_restarts : Z;
  cf_fast_envelope : bool;
}.

(** ** Reading one variable *)

Definition env_get (env : environ) (key : string) : option string :=
  match env !! key with
  | None => None
  | Some val => let val := py_strip val in if nonempty val then Some val else None
  end.

Definition require (env : environ) (key : string) : result string :=
  match env_get env key with Some val => Ok val | None => Raise (ConfigError key) end.

Definition as_int (key val : string) (minimum : option Z) : result Z :=
  match int_of_string val with
  | None => Raise (ConfigError key)
  | Some parsed =>
      match minimum with
      | Some m => if parsed <? m then Raise (ConfigError key) else Ok parsed
      | None => Ok parsed
      end
  end.

Definition as_bool (key val : string) : result bool :=
  let low := py_lower val in
  if bool_decide (low ∈ ["1"; "true"; "yes"; "on"]) then Ok true
  else if bool_decide (low ∈ ["0"; "false"; "no"; "off"]) then Ok false
  else Raise (ConfigError key).

(** [needle in hay] *)
Fixpoint infix_of (needle hay : text) : bool :=
  match strip_prefix needle hay with
  | Some _ => true
  | None => match hay with _ :: hay => infix_of needle hay | [] => false end
  end.

Definition BEGIN_CERTIFICATE : text := String.list_ascii_of_string "-----BEGIN CERTIFICATE-----".

(** [s.startswith(p)] *)
Definition startswith (p s : string) : bool :=
  match strip_prefix (String.list_ascii_of_string p) (String.list_ascii_of_string s) with Some _ => true | None => false end.

(** [s.rstrip("/")] *)
Fixpoint drop_slashes (t : text) : text :=
  match t with c :: t' => if Ascii.eqb c "/"%char then drop_slashes t' else t | [] => [] end.
Definition rstrip_slash (s : string) : string :=
  String.string_of_list_ascii (reverse (drop_slashes (reverse (String.list_ascii_of_string s)))).

Section Load.
Context {R : Rounding}.
(** [os.path.exists] and [socket.gethostname()] *)
Context (exists_path : string -> bool) (hostname : string).

Definition as_float (key val : string) (minimum : option Q) : result Q :=
  match float_of_string val with
  | None => Raise (ConfigError key)
  | Some parsed =>
      match minimum with
      | Some m => if Qle_bool m parsed then Ok parsed else Raise (ConfigError key)
      | None => Ok parsed
      end
  end.

Definition resolve_ca_bundle (env : environ) : result (option ca_bundle) :=
  match env !! "STOKER_CA_BUNDLE_PEM" with
  | Some pem =>
      if nonempty (py_strip pem) then
        let t := String.list_ascii_of_string pem in
        if infix_of BEGIN_CERTIFICATE t
        then Ok (Some (CaWritten (if bool_decide (last t = Some LF) then t else t ++ [LF])))
        else Raise (ConfigError "STOKER_CA_BUNDLE_PEM")
      else
        match env_get env "STOKER_CA_BUNDLE" with
        | None => Ok None
        | Some path => if exists_path path then Ok (Some (CaPath path)) else Raise (ConfigError "STOKER_CA_BUNDLE")
        end
  | None =>
      match env_get env "STOKER_CA_BUNDLE" with
      | None => Ok None
      | Some path => if exists_path path then Ok (Some (CaPath path)) else Raise (ConfigError "STOKER_CA_BUNDLE")
      end
  end.

(** [_as_float(key, _get(env, key) or dflt, minimum)] *)
Definition float_var (env : environ) (key dflt : string) (minimum : Q) : result Q :=
  as_float key (default dflt (env_get env key)) (Some minimum).
Definition int_var (env : environ) (key dflt : string) (minimum : Z) : result Z :=
  as_int key (default dflt (env_get env key)) (Some minimum).

(** The settings both modes share, in the order they are read. *)
Record tuning : Type := mkTuning {
  tn_output_socket : string;
  tn_heartbeat_s : Q;
  tn_overdrive : Q;
  tn_catchup_s : Q;
  tn_metrics_port : Z;
  tn_deadman_s : Q;
  tn_drain_budget_s : Q;
  tn_hec_verify_tls : bool;
  tn_hec_ca_bundle : option ca_bundle;
  tn_zero_output_s : Q;
  tn_fast_envelope : bool;
  tn_zero_output_max_restarts : Z;
  tn_hec_token : string;
  tn_engine : string;
}.

Definition common_tuning (env : environ) : result tuning :=
  heartbeat_s ← float_var env "STOKER_HEARTBEAT_S" DEFAULT_HEARTBEAT_S (rnd (1 # 10));
  overdrive ← float_var env "STOKER_OVERDRIVE" DEFAULT_OVERDRIVE 1;
  catchup_s ← float_var env "STOKER_CATCHUP_S" DEFAULT_CATCHUP_S 0;
  metrics_port ← int_var env "STOKER_METRICS_PORT" DEFAULT_METRICS_PORT 0;
  deadman_s ← float_var env "STOKER_DEADMAN_S" DEFAULT_DEADMAN_S 1;
  drain_budget_s ← float_var env "STOKER_DRAIN_BUDGET_S" DEFAULT_DRAIN_BUDGET_S 1;
  hec_verify_tls ← as_bool "STOKER_HEC_VERIFY_TLS" (default "1" (env_get env "STOKER_HEC_VERIFY_TLS"));
  hec_ca_bundle ← resolve_ca_bundle env;
  zero_output_s ← float_var env "STOKER_ZERO_OUTPUT_S" DEFAULT_ZERO_OUTPUT_S 0;
  zero_output_max_restarts ← int_var env "STOKER_ZERO_OUTPUT_MAX_RESTARTS" DEFAULT_ZERO_OUTPUT_MAX_RESTARTS 0;
  hec_token ← require env "STOKER_HEC_TOKEN";
  let engine := default "eventgen" (env_get env "STOKER_ENGINE") in
  if bool_decide (engine ∈ ENGINES) then
    Ok (mkTuning (default DEFAULT_OUTPUT_SOCKET (env_get env "STOKER_OUTPUT_SOCKET")) heartbeat_s overdrive catchup_s
          metrics_port deadman_s drain_budget_s hec_verify_tls hec_ca_bundle zero_output_s
          (negb (bool_decide (py_lower (default "1" (env_get env "STOKER_FAST_ENVELOPE")) ∈ ["0"; "false"; "no"; "off"])))
          zero_output_max_restarts hec_token engine)
  else Raise (ConfigError "STOKER_ENGINE").

Definition standalone_rate (env : environ) (rate_mode : string) : result (option Q) :=
  if bool_decide (rate_mode = "count_interval") then Ok None
  else
    match env_get env "STOKER_RATE_VALUE" with
    | None => Raise (ConfigError "STOKER_RATE_VALUE")
    | Some raw =>
        v ← as_float "STOKER_RATE_VALUE" raw (Some 0%Q);
        if Qle_bool v 0 then Raise (ConfigError "STOKER_RATE_VALUE") else Ok (Some v)
    end.

Definition standalone_duration (env : environ) : result (option Q) :=
  match env_get env "STOKER_DURATION_S" with
  | None => Ok None
  | Some raw => v ← as_float "STOKER_DURATION_S" raw (Some 0%Q); Ok (if Qeq_bool v 0 then None else Some v)
  end.

Definition load_standalone (env : environ) (t : tuning) : result Config :=
  bundle ← require env "STOKER_BUNDLE";
  hec_url ← require env "STOKER_HEC_URL";
  index ← require env "STOKER_INDEX";
  rate_mode ← require env "STOKER_RATE_MODE";
  if negb (bool_decide (rate_mode ∈ RATE_MODES)) then Raise (ConfigError "STOKER_RATE_MODE")
  else
    rate_value ← standalone_rate env rate_mode;
    duration_s ← standalone_duration env;
    slot ← int_var env "STOKER_SLOT" "0" 0;
    total_workers ← int_var env "STOKER_TOTAL_WORKERS" "1" 1;
    if total_workers <=? slot then Raise (ConfigError "STOKER_SLOT")
    else
      Ok (mkConfig true None None None (default hostname (env_get env "STOKER_HOLDER")) None
            (Some bundle) (env_get env "STOKER_BUNDLE_SHA256") (Some hec_url) (Some index)
            (env_get env "STOKER_SOURCETYPE") (env_get env "STOKER_HOST_FIELD") (env_get env "STOKER_SOURCE")
            (Some rate_mode) rate_value duration_s slot (tn_engine t) (tn_hec_token t) total_workers
            (tn_output_socket t) (tn_heartbeat_s t) (tn_overdrive t) (tn_catchup_s t) (tn_metrics_port t)
            (tn_deadman_s t) (tn_drain_budget_s t) (tn_hec_verify_tls t) (tn_hec_ca_bundle t)
            (tn_zero_output_s t) (tn_zero_output_max_restarts t) (tn_fast_envelope t)).

Definition hint_slot (env : environ) : result (option Z) :=
  match env_get env "STOKER_HINT_SLOT" with
  | None => Ok None
  | Some raw => v ← as_int "STOKER_HINT_SLOT" raw (Some 0); Ok (Some v)
  end.

Definition load_managed (env : environ) (t : tuning) : result Config :=
  run_id ← require env "STOKER_RUN_ID";
  control_url ← require env "STOKER_CONTROL_URL";
  if negb (startswith "http://" control_url || startswith "https://" control_url)
  then Raise (ConfigError "STOKER_CONTROL_URL")
  else
    run_jwt ← require env "STOKER_RUN_JWT";
    raw_workers ← require env "STOKER_TOTAL_WORKERS";
    total_workers ← as_int "STOKER_TOTAL_WORKERS" raw_workers (Some 1);
    hint ← hint_slot env;
    Ok (mkConfig false (Some run_id) (Some (rstrip_slash control_url)) (Some run_jwt)
          (default hostname (env_get env "STOKER_HOLDER")) hint
          None None None None None None None None None None 0 (tn_engine t) (tn_hec_token t) total_workers
          (tn_output_socket t) (tn_heartbeat_s t) (tn_overdrive t) (tn_catchup_s t) (tn_metrics_port t)
          (tn_deadman_s t) (tn_drain_budget_s t) (tn_hec_verify_tls t) (tn_hec_ca_bundle t)
          (tn_zero_output_s t) (tn_zero_output_max_restarts t) (tn_fast_envelope t)).

Definition is_standalone (env : environ) : bool :=
  bool_decide (env_get env "STOKER_STANDALONE" ∈ [Some "1"; Some "true"; Some "yes"]).

Definition load_config (env : environ) : result Config :=
  t ← common_tuning env;
  if is_standalone env then load_standalone env t else load_managed env t.
End Load.

(** ** What is accepted *)

Lemma bind_Ok {A B} (m : result A) (f : A -> result B) b : (m ≫= f) = Ok b -> exists a, m = Ok a /\ f a = Ok b.
Proof. destruct m as [a|e]; [|done]. intros H. by exists a. Qed.

Lemma bind_Raise {A B} (m : result A) (f : A -> result B) e :
  (m ≫= f) = Raise e -> m = Raise e \/ exists a, m = Ok a /\ f a = Raise e.
Proof. destruct m as [a|e']; intros H; [right; by exists a|left; cbn in H; congruence]. Qed.

Ltac unbind H := repeat (apply bind_Ok in H as (? & ? & H)).

Lemma env_get_nonempty env key v : env_get env key = Some v -> v <> "".
Proof.
  unfold env_get. destruct (env !! key) as [val|]; [|done]. cbn zeta. unfold nonempty.
  destruct (bool_decide_reflect (py_strip val = "")); cbn; congruence.
Qed.

Lemma require_nonempty env key v : require env key = Ok v -> v <> "".
Proof. unfold require. destruct (env_get env key) eqn:E; [|done]. intros [= <-]. by eapply env_get_nonempty. Qed.

Section Accepted.
Context {R : Rounding} (exists_path : string -> bool) (hostname : string).

Definition tuning_wf (t : tuning) : Prop :=
  (rnd (1 # 10) <= tn_heartbeat_s t)%Q /\ (1 <= tn_overdrive t)%Q /\ (0 <= tn_catchup_s t)%Q /\
  0 <= tn_metrics_port t /\ (1 <= tn_deadman_s t)%Q /\ (1 <= tn_drain_budget_s t)%Q /\
  (0 <= tn_zero_output_s t)%Q /\ 0 <= tn_zero_output_max_restarts t /\
  tn_hec_token t <> "" /\ tn_engine t ∈ ENGINES.

(** The rate and the duration of a worker that runs alone. *)
Definition standalone_wf (c : Config) : Prop :=
  is_Some (cf_bundle c) /\ is_Some (cf_hec_url c) /\ is_Some (cf_index c) /\
  0 <= cf_slot c < cf_total_workers c /\
  (exists m, cf_rate_mode c = Some m /\ m ∈ RATE_MODES /\
     if bool_decide (m = "count_interval") then cf_rate_value c = None
     else exists v, cf_rate_value c = Some v /\ (0 < v)%Q) /\
  (forall d, cf_duration_s c = Some d -> (0 < d)%Q).

Definition managed_wf (c : Config) : Prop :=
  (exists run_id, cf_run_id c = Some run_id /\ run_id <> "") /\ is_Some (cf_control_url c) /\
  (exists jwt, cf_run_jwt c = Some jwt /\ jwt <> "") /\ (forall s, cf_hint_slot c = Some s -> 0 <= s).

Definition config_wf (c : Config) : Prop :=
  tuning_wf (mkTuning (cf_output_socket c) (cf_heartbeat_s c) (cf_overdrive c) (cf_catchup_s c) (cf_metrics_port c)
    (cf_deadman_s c) (cf_drain_budget_s c) (cf_hec_verify_tls c) (cf_hec_ca_bundle c) (cf_zero_output_s c)
    (cf_fast_envelope c) (cf_zero_output_max_restarts c) (cf_hec_token c) (cf_engine c)) /\
  1 <= cf_total_workers c /\
  if cf_standalone c then standalone_wf c else managed_wf c.

Lemma as_float_min key val m v : as_float key val (Some m) = Ok v -> (m <= v)%Q.
Proof.
  unfold as_float. destruct (float_of_string val) as [q|]; [|done].
  destruct (Qle_bool m q) eqn:E; [|done]. intros [= <-]. by apply Qle_bool_iff.
Qed.

Lemma as_int_min key val m v : as_int key val (Some m) = Ok v -> m <= v.
Proof. unfold as_int. destruct (int_of_string val) as [z|]; [|done]. destruct (Z.ltb_spec z m); [done|]. by intros [= <-]. Qed.

Lemma common_tuning_wf env t : common_tuning exists_path env = Ok t -> tuning_wf t.
Proof.
  intros H. unfold common_tuning in H. unbind H. cbn zeta in H. case_bool_decide as He; [|done]. injection H as <-.
  unfold float_var, int_var in *. unfold tuning_wf. cbn.
  split_and!; try (by eapply as_float_min); try (by eapply as_int_min); [by eapply require_nonempty|done].
Qed.

Lemma standalone_rate_wf env m v : standalone_rate env m = Ok v ->
  if bool_decide (m = "count_interval") then v = None else exists q, v = Some q /\ (0 < q)%Q.
Proof.
  unfold standalone_rate. case_bool_decide; [by intros [= <-]|]. destruct (env_get _ _); [|done].
  intros H'. unbind H'. destruct (Qle_bool x 0) eqn:E; [done|]. injection H' as <-. exists x. split; [done|].
  apply Qnot_le_lt. by intros ?%Qle_bool_iff%not_false_iff_true.
Qed.

Lemma standalone_duration_wf env v d : standalone_duration env = Ok v -> v = Some d -> (0 < d)%Q.
Proof.
  unfold standalone_duration. destruct (env_get _ _); [|congruence]. intros H. unbind H. injection H as <-.
  destruct (Qeq_bool x 0) eqn:E; [done|]. intros [= <-]. apply Qeq_bool_neq in E. apply as_float_min in H0.
  apply Qle_lt_or_eq in H0 as [?|?]; [done|]. by destruct E.
Qed.

Lemma load_standalone_wf env t c : tuning_wf t -> load_standalone hostname env t = Ok c -> config_wf c.
Proof.
  intros Ht H. unfold load_standalone in H. unbind H. case_bool_decide as Hm; [|done]. cbn [negb] in H. unbind H.
  destruct (Z.leb_spec x6 x5); [done|]. injection H as <-. unfold int_var in *.
  repeat match goal with E : as_int _ _ (Some _) = Ok _ |- _ => apply as_int_min in E end.
  unfold config_wf, standalone_wf. cbn. split_and!; [by destruct t|done|by eexists..|lia|lia| |].
  - exists x2. split_and!; [done|done|by eapply standalone_rate_wf].
  - intros d. by eapply standalone_duration_wf.
Qed.

Lemma hint_slot_wf env v s : hint_slot env = Ok v -> v = Some s -> 0 <= s.
Proof.
  unfold hint_slot. destruct (env_get _ _); [|congruence]. intros H. unbind H. injection H as <-. intros [= <-].
  by eapply as_int_min.
Qed.

Lemma load_managed_wf env t c : tuning_wf t -> load_managed hostname env t = Ok c -> config_wf c.
Proof.
  intros Ht H. unfold load_managed in H. unbind H. destruct (startswith _ _ || _); [|done]. cbn [negb] in H. unbind H.
  injection H as <-. repeat match goal with E : as_int _ _ (Some _) = Ok _ |- _ => apply as_int_min in E end.
  unfold config_wf, managed_wf. cbn. split_and!; [by destruct t|done| | | |].
  - eexists. split; [done|]. by eapply require_nonempty.
  - by eexists.
  - eexists. split; [done|]. by eapply require_nonempty.
  - intros s. by eapply hint_slot_wf.
Qed.

(** Every configuration the worker starts with is well formed: the tuning values are within
    the contract's bounds, the engine and the token are there, and by mode the worker has
    either its run and credentials, or a bundle, a target, a slot within its fleet and a
    positive rate unless the pack paces itself. *)
Theorem config_well_formed env c : load_config exists_path hostname env = Ok c -> config_wf c.
Proof.
  intros H. unfold load_config in H. apply bind_Ok in H as (t & Ht & H). apply common_tuning_wf in Ht.
  destruct (is_standalone env); [by eapply load_standalone_wf|by eapply load_managed_wf].
Qed.
End Accepted.

(** ** What is refused *)

(** The variables of the contract, as the loader reads them. *)
Definition CONTRACT : list string :=
  ["STOKER_STANDALONE"; "STOKER_OUTPUT_SOCKET"; "STOKER_HEARTBEAT_S"; "STOKER_OVERDRIVE"; "STOKER_CATCHUP_S";
   "STOKER_METRICS_PORT"; "STOKER_DEADMAN_S"; "STOKER_DRAIN_BUDGET_S"; "STOKER_HEC_VERIFY_TLS"; "STOKER_CA_BUNDLE";
   "STOKER_CA_BUNDLE_PEM"; "STOKER_ZERO_OUTPUT_S"; "STOKER_FAST_ENVELOPE"; "STOKER_ZERO_OUTPUT_MAX_RESTARTS";
   "STOKER_HEC_TOKEN"; "STOKER_ENGINE"; "STOKER_BUNDLE"; "STOKER_HEC_URL"; "STOKER_INDEX"; "STOKER_RATE_MODE";
   "STOKER_RATE_VALUE"; "STOKER_DURATION_S"; "STOKER_SLOT"; "STOKER_TOTAL_WORKERS"; "STOKER_HOLDER";
   "STOKER_BUNDLE_SHA256"; "STOKER_SOURCETYPE"; "STOKER_HOST_FIELD"; "STOKER_SOURCE"; "STOKER_RUN_ID";
   "STOKER_CONTROL_URL"; "STOKER_RUN_JWT"; "STOKER_HINT_SLOT"].

(** A computation that fails only by naming a variable of the contract. *)
Definition names_variable {A} (r : result A) : Prop := forall e, r = Raise e -> exists v, e = ConfigError v /\ v ∈ CONTRACT.

Lemma names_ok {A} (a : A) : names_variable (Ok a).
Proof. intros e [=]. Qed.
Lemma names_raise {A} v : v ∈ CONTRACT -> names_variable (@Raise A (ConfigError v)).
Proof. intros Hv e [= <-]. by exists v. Qed.
Lemma names_bind {A B} (m : result A) (f : A -> result B) :
  names_variable m -> (forall a, names_variable (f a)) -> names_variable (m ≫= f).
Proof. intros Hm Hf e [He|(a & _ & He)]%bind_Raise; [by apply Hm|by apply (Hf a)]. Qed.
Lemma names_require env v : v ∈ CONTRACT -> names_variable (require env v).
Proof. intros Hv. unfold require. destruct (env_get env v); [apply names_ok|by apply names_raise]. Qed.
Lemma names_as_int v val m : v ∈ CONTRACT -> names_variable (as_int v val m).
Proof. intros Hv. unfold as_int. repeat case_match; (apply names_ok || by apply names_raise). Qed.
Lemma names_as_float {R : Rounding} v val m : v ∈ CONTRACT -> names_variable (as_float v val m).
Proof. intros Hv. unfold as_float. repeat case_match; (apply names_ok || by apply names_raise). Qed.
Lemma names_as_bool v val : v ∈ CONTRACT -> names_variable (as_bool v val).
Proof. intros Hv. unfold as_bool. repeat case_match; (apply names_ok || by apply names_raise). Qed.

(** [v ∈ CONTRACT] for a variable that is there *)
Ltac listed := apply (bool_decide_unpack _); vm_compute; exact I.

Ltac names := repeat first
  [ apply names_ok | apply names_raise; listed | apply names_require; listed | apply names_as_int; listed
  | apply names_as_float; listed | apply names_as_bool; listed | apply names_bind; [|intros ?] | case_match ].

(** Every refusal is a [ConfigError] whose message names a variable of the contract; the
    loader raises nothing else. *)
Theorem refusals_name_variable {R : Rounding} exists_path hostname env e :
  load_config exists_path hostname env = Raise e -> exists v, e = ConfigError v /\ v ∈ CONTRACT.
Proof.
  revert e. change (names_variable (load_config exists_path hostname env)).
  unfold load_config, common_tuning, load_standalone, load_managed, resolve_ca_bundle, standalone_rate,
    standalone_duration, hint_slot, float_var, int_var. cbv zeta. names.
Qed.

Lemma refusals_name_variable_witness :
  @load_config exact (fun _ => true) "host" {[ "STOKER_OVERDRIVE" := "0.5" ]} = Raise (ConfigError "STOKER_OVERDRIVE") /\
  exists v, ConfigError "STOKER_OVERDRIVE" = ConfigError v /\ v ∈ CONTRACT.
Proof.
  assert (@load_config exact (fun _ => true) "host" {[ "STOKER_OVERDRIVE" := "0.5" ]} =
            Raise (ConfigError "STOKER_OVERDRIVE")) as E by (vm_compute; reflexivity).
  split; [exact E|]. exact (refusals_name_variable _ _ _ _ E).
Defined.

(** ** What the control plane projects *)

Lemma string_chars_inj s t : String.list_ascii_of_string s = String.list_ascii_of_string t -> s = t.
Proof.
  intros H. rewrite <- (String.string_of_list_ascii_of_string s), <- (String.string_of_list_ascii_of_string t). by rewrite H.
Qed.

Lemma py_strip_pretty z : 0 <= z -> py_strip (pretty z) = pretty z.
Proof.
  intros Hz. destruct (pretty_digits z Hz) as (ds & Hd & _ & _ & Es). apply string_chars_inj. unfold py_strip.
  rewrite String.list_ascii_of_string_of_list_ascii, Es. by apply strip_digits.
Qed.

Lemma decimal_nonempty z : 0 <= z -> nonempty (pretty z) = true.
Proof.
  intros Hz. destruct (pretty_digits z Hz) as (ds & _ & Hne & _ & Es). unfold nonempty.
  rewrite bool_decide_false; [done|]. intros E. rewrite E in Es. by subst ds.
Qed.

Lemma lstrip_nil l : lstrip l = [] -> PackYaml.blank l.
Proof. destruct (lstrip_split l) as (sp & E & Hsp). intros Hl. rewrite Hl, app_nil_r in E. by subst. Qed.

Lemma strip_nil l : strip_chars l = [] -> PackYaml.blank l.
Proof.
  unfold strip_chars. intros H. apply (f_equal reverse) in H. rewrite reverse_involutive in H.
  apply lstrip_nil in H. unfold PackYaml.blank in *. rewrite Forall_reverse in H.
  destruct (lstrip_split l) as (sp & E & Hsp). rewrite E. by apply Forall_app.
Qed.

Lemma blank_no_certificate l : PackYaml.blank l -> infix_of BEGIN_CERTIFICATE l = false.
Proof.
  induction 1 as [|c l Hc _ IH]; [done|]. cbn [infix_of]. rewrite IH.
  change BEGIN_CERTIFICATE with ("-"%char :: tail BEGIN_CERTIFICATE). cbn [strip_prefix].
  by destruct (Ascii.eqb_spec "-"%char c) as [<-|].
Qed.

Lemma certificate_nonempty pem : infix_of BEGIN_CERTIFICATE (String.list_ascii_of_string pem) = true ->
  nonempty (py_strip pem) = true.
Proof.
  intros H. unfold nonempty. rewrite bool_decide_false; [done|]. intros E.
  rewrite blank_no_certificate in H; [done|]. apply strip_nil. unfold py_strip in E.
  apply (f_equal String.list_ascii_of_string) in E. by rewrite String.list_ascii_of_string_of_list_ascii in E.
Qed.

(** The environment of a worker process the in-tree driver spawns (server/drivers/fake.py,
    [_child_env]): the driver's own, under the run's, with the slot as a hint. *)
Definition child_env (process snapshot overrides : environ) (slot : Z) : environ :=
  let env := overrides ∪ (snapshot ∪ process) in
  match env !! "STOKER_HINT_SLOT" with
  | Some _ => env
  | None => <[ "STOKER_HINT_SLOT" := pretty slot ]> env
  end.

(** Decides the equalities between names in the goal. *)
Ltac decide_names := repeat match goal with
  | |- context [bool_decide (String ?c ?s = String ?d ?t)] =>
      let v := eval vm_compute in (bool_decide (String c s = String d t)) in change (bool_decide (String c s = String d t)) with v
  end; rewrite ?andb_false_r, ?andb_true_r.

Section Projected.
Context {D : Type} `{Env D} {R : Rounding}.
Context (exists_path : string -> bool) (hostname : string).
Context (run_id slot workers : Z) (jwt token : string) (spec : Spec) (target : Target).

(** The engine the spec names, and the one the worker runs. *)
Definition spec_engine : string := py_strip (if nonempty (sp_engine spec) then sp_engine spec else "eventgen").
Definition worker_engine : string := if nonempty spec_engine then spec_engine else "eventgen".

Definition projected : environ := build_env run_id jwt spec target (Some token) workers.

Lemma lookup_env_when b k v (env : environ) k' :
  env_when b k v env !! k' = if b && bool_decide (k = k') then Some v else env !! k'.
Proof.
  unfold env_when. destruct b; [|done]. case_bool_decide as E; [subst; apply lookup_insert_eq|by apply lookup_insert_ne].
Qed.

Lemma lookup_projected k : projected !! k =
  let engine := spec_engine in
  let own := nonempty engine && negb (bool_decide (engine = "eventgen")) in
  let impl := py_lower (py_strip (default "" (sp_eventgen_impl spec))) in
  if match ca_bundle_pem with Some pem => tg_verify_tls target && nonempty pem && bool_decide ("STOKER_CA_BUNDLE_PEM" = k) | None => false end
  then ca_bundle_pem
  else if negb (tg_verify_tls target) && bool_decide ("STOKER_HEC_VERIFY_TLS" = k) then Some "0"
  else if nonempty token && bool_decide ("STOKER_HEC_TOKEN" = k) then Some token
  else if own && bool_decide ("STOKER_ENGINE" = k) then Some engine
  else if negb own && bool_decide (sp_fast_envelope spec = Some false) && bool_decide ("STOKER_FAST_ENVELOPE" = k) then Some "0"
  else if negb own && (nonempty impl && negb (bool_decide (impl = "auto"))) && bool_decide ("STOKER_EVENTGEN_IMPL" = k) then Some impl
  else if bool_decide ("STOKER_RUN_ID" = k) then Some (pretty run_id)
  else if bool_decide ("STOKER_CONTROL_URL" = k) then Some (public_base_url env_settings)
  else if bool_decide ("STOKER_RUN_JWT" = k) then Some jwt
  else if bool_decide ("STOKER_TOTAL_WORKERS" = k) then Some (pretty workers) else None.
Proof.
  assert (forall (j : string) v (env : environ), <[ j := v ]> env !! k = if bool_decide (j = k) then Some v else env !! k) as Hi.
  { intros j v env. case_bool_decide as E; [subst; apply lookup_insert_eq|by apply lookup_insert_ne]. }
  assert (forall (j : string) v, ({[ j := v ]} : environ) !! k = if bool_decide (j = k) then Some v else None) as Hs.
  { intros j v. case_bool_decide as E; [subst; apply lookup_singleton_eq|by apply lookup_singleton_ne]. }
  unfold projected, build_env. cbv zeta. change (py_strip (if nonempty (sp_engine spec) then sp_engine spec else "eventgen")) with spec_engine.
  destruct ca_bundle_pem as [pem|]; rewrite ?lookup_env_when; [destruct (tg_verify_tls target && nonempty pem && _); [done|]|];
    (destruct (negb (tg_verify_tls target) && _); [done|]); (destruct (nonempty token && _); [done|]);
    destruct (nonempty spec_engine && _); cbn [negb andb]; rewrite ?lookup_env_when, ?Hi, ?Hs; done.
Qed.

Ltac look := rewrite lookup_projected; cbv zeta; decide_names; destruct ca_bundle_pem; decide_names; cbv iota.

(** What the control plane leaves to the worker's defaults. *)
Definition QUIET : list string :=
  ["STOKER_STANDALONE"; "STOKER_OUTPUT_SOCKET"; "STOKER_HEARTBEAT_S"; "STOKER_OVERDRIVE"; "STOKER_CATCHUP_S";
   "STOKER_METRICS_PORT"; "STOKER_DEADMAN_S"; "STOKER_DRAIN_BUDGET_S"; "STOKER_ZERO_OUTPUT_S";
   "STOKER_ZERO_OUTPUT_MAX_RESTARTS"; "STOKER_HOLDER"; "STOKER_HINT_SLOT"].

Lemma quiet k : k ∈ QUIET -> projected !! k = None.
Proof. unfold QUIET. intros Hk. repeat (apply elem_of_cons in Hk as [->|Hk]; [look; done|]). by apply elem_of_nil in Hk. Qed.

Lemma projected_no_path : projected !! "STOKER_CA_BUNDLE" = None.
Proof. look; done. Qed.

Lemma as_float_ok key s q m m' : float_of_string s = Some (rnd q) -> (m == rnd m')%Q -> (m' <= q)%Q ->
  as_float key s (Some m) = Ok (rnd q).
Proof.
  intros Hs Hm Hq. unfold as_float. rewrite Hs. assert (Qle_bool m (rnd q) = true) as ->; [|done].
  apply Qle_bool_iff. rewrite Hm. by apply rnd_mono.
Qed.

Lemma env_get_lookup (env : environ) k v : env !! k = Some v -> nonempty (py_strip v) = true -> env_get env k = Some (py_strip v).
Proof. intros E Hv. unfold env_get. by rewrite E, Hv. Qed.
Lemma env_get_none (env : environ) k : env !! k = None -> env_get env k = None.
Proof. intros E. unfold env_get. by rewrite E. Qed.

(** What the launch relies on: the run has a token and credentials, the control plane a
    URL, the fleet a worker, and the certificate bundle holds a certificate. *)
Record launchable : Prop := {
  la_run_id : 0 <= run_id;
  la_slot : 0 <= slot;
  la_workers : 1 <= workers;
  la_jwt : nonempty (py_strip jwt) = true;
  la_token : nonempty (py_strip token) = true;
  la_engine : worker_engine ∈ ENGINES;
  la_url : startswith "http://" (py_strip (public_base_url env_settings)) ||
           startswith "https://" (py_strip (public_base_url env_settings)) = true;
  la_pem pem : ca_bundle_pem = Some pem -> infix_of BEGIN_CERTIFICATE (String.list_ascii_of_string pem) = true;
}.

Section Read.
Context (Hl : launchable) (env : environ).
Context (Henv : forall k, k ∈ CONTRACT -> k <> "STOKER_HINT_SLOT" -> k <> "STOKER_CA_BUNDLE" -> env !! k = projected !! k).
Context (Hhint : env !! "STOKER_HINT_SLOT" = Some (pretty slot)).
Context (Hca : forall path, env_get env "STOKER_CA_BUNDLE" = Some path -> exists_path path = true).

Ltac look_env := rewrite Henv by (listed || done); look.

Lemma quiet_env k : k ∈ QUIET -> k ∈ CONTRACT -> k <> "STOKER_HINT_SLOT" -> k <> "STOKER_CA_BUNDLE" -> env_get env k = None.
Proof. intros Hq Hc Hk Hb. apply env_get_none. rewrite Henv by done. by apply quiet. Qed.

Lemma nonempty_token : nonempty token = true.
Proof. pose proof (la_token Hl) as Ht. unfold nonempty in *. by destruct (bool_decide_reflect (token = "")) as [->|]. Qed.

Lemma get_run_id : env_get env "STOKER_RUN_ID" = Some (pretty run_id).
Proof.
  pose proof (la_run_id Hl). rewrite (env_get_lookup _ _ (pretty run_id)), py_strip_pretty; [done|lia|by look_env|].
  rewrite py_strip_pretty by lia. by apply decimal_nonempty.
Qed.
Lemma get_workers : env_get env "STOKER_TOTAL_WORKERS" = Some (pretty workers).
Proof.
  pose proof (la_workers Hl). rewrite (env_get_lookup _ _ (pretty workers)), py_strip_pretty; [done|lia|by look_env|].
  rewrite py_strip_pretty by lia. apply decimal_nonempty. lia.
Qed.
Lemma get_hint : env_get env "STOKER_HINT_SLOT" = Some (pretty slot).
Proof.
  pose proof (la_slot Hl). rewrite (env_get_lookup _ _ _ Hhint), py_strip_pretty; [done|lia|].
  rewrite py_strip_pretty by lia. by apply decimal_nonempty.
Qed.
Lemma get_jwt : env_get env "STOKER_RUN_JWT" = Some (py_strip jwt).
Proof. apply env_get_lookup; [by look_env|apply (la_jwt Hl)]. Qed.
Lemma get_token : env_get env "STOKER_HEC_TOKEN" = Some (py_strip token).
Proof. apply env_get_lookup; [|apply (la_token Hl)]. look_env; by rewrite nonempty_token. Qed.
Lemma get_url : env_get env "STOKER_CONTROL_URL" = Some (py_strip (public_base_url env_settings)).
Proof.
  apply env_get_lookup; [by look_env|]. pose proof (la_url Hl) as Hu. unfold nonempty.
  by destruct (bool_decide_reflect (py_strip (public_base_url env_settings) = "")) as [E|]; [rewrite E in Hu|].
Qed.
Lemma get_engine : default "eventgen" (env_get env "STOKER_ENGINE") = worker_engine.
Proof.
  pose proof (la_engine Hl) as He. unfold env_get. look_env; unfold worker_engine in *;
    (destruct (nonempty spec_engine) eqn:E; [|done]); cbn [andb];
    unfold ENGINES in He; rewrite !elem_of_cons, elem_of_nil in He; destruct He as [He|[He|[He|[]]]]; by rewrite He.
Qed.
Lemma get_verify : as_bool "STOKER_HEC_VERIFY_TLS" (default "1" (env_get env "STOKER_HEC_VERIFY_TLS")) = Ok (tg_verify_tls target).
Proof. unfold env_get. look_env; by destruct (tg_verify_tls target). Qed.
Lemma get_fast : bool_decide (py_lower (default "1" (env_get env "STOKER_FAST_ENVELOPE")) ∈ ["0"; "false"; "no"; "off"]) =
  bool_decide (worker_engine = "eventgen") && bool_decide (sp_fast_envelope spec = Some false).
Proof.
  pose proof (la_engine Hl) as He. unfold env_get. look_env; unfold worker_engine in *;
    (destruct (nonempty spec_engine) eqn:E; cbn [andb negb];
     [unfold ENGINES in He; rewrite !elem_of_cons, elem_of_nil in He; destruct He as [He|[He|[He|[]]]]; rewrite He|]);
    by destruct (bool_decide (sp_fast_envelope spec = Some false)).
Qed.

(** The text the certificate file is written with. *)
Definition written (pem : string) : text :=
  let t := String.list_ascii_of_string pem in if bool_decide (last t = Some LF) then t else t ++ [LF].

(** The certificates: the run's, when its target is verified and the control plane has
    any, and otherwise those the driver's process names by path. *)
Definition certificates (path : option string) : option ca_bundle :=
  match (if tg_verify_tls target then (CaWritten ∘ written) <$> ca_bundle_pem else None) with
  | Some bundle => Some bundle
  | None => CaPath <$> path
  end.

Lemma get_ca : resolve_ca_bundle exists_path env = Ok (certificates (env_get env "STOKER_CA_BUNDLE")).
Proof.
  pose proof (la_pem Hl) as Hp. unfold resolve_ca_bundle, certificates.
  assert (match env_get env "STOKER_CA_BUNDLE" with
          | None => Ok None
          | Some path => if exists_path path then Ok (Some (CaPath path)) else Raise (ConfigError "STOKER_CA_BUNDLE")
          end = Ok (CaPath <$> env_get env "STOKER_CA_BUNDLE")) as ->.
  { destruct (env_get env _) as [path|]; [|done]. by rewrite (Hca path). }
  rewrite Henv by (listed || done). rewrite lookup_projected. cbv zeta. decide_names. destruct ca_bundle_pem as [pem|].
  - specialize (Hp pem eq_refl). pose proof (certificate_nonempty pem Hp) as Hne.
    assert (nonempty pem = true) as ->.
    { unfold nonempty in *. by destruct (bool_decide_reflect (pem = "")) as [->|]. }
    destruct (tg_verify_tls target); [|done]. cbn [andb]. by rewrite Hne, Hp.
  - by destruct (tg_verify_tls target).
Qed.

(** A default is read, and is within its bound. *)
Ltac default_ok := first [reflexivity | symmetry; apply rnd_int; lia | apply Qle_bool_iff; reflexivity].

Lemma tuning_read : exists t, common_tuning exists_path env = Ok t /\ tn_engine t = worker_engine /\
  tn_hec_token t = py_strip token /\ tn_hec_verify_tls t = tg_verify_tls target /\
  tn_hec_ca_bundle t = certificates (env_get env "STOKER_CA_BUNDLE") /\
  tn_fast_envelope t = negb (bool_decide (worker_engine = "eventgen") && bool_decide (sp_fast_envelope spec = Some false)) /\
  tn_output_socket t = DEFAULT_OUTPUT_SOCKET.
Proof.
  unfold common_tuning, float_var, int_var. 
  rewrite (quiet_env "STOKER_HEARTBEAT_S"), (quiet_env "STOKER_OVERDRIVE"), (quiet_env "STOKER_CATCHUP_S"),
    (quiet_env "STOKER_METRICS_PORT"), (quiet_env "STOKER_DEADMAN_S"), (quiet_env "STOKER_DRAIN_BUDGET_S"),
    (quiet_env "STOKER_ZERO_OUTPUT_S"), (quiet_env "STOKER_ZERO_OUTPUT_MAX_RESTARTS"), (quiet_env "STOKER_OUTPUT_SOCKET")
    by (listed || done). cbn [default from_option id].
  rewrite (as_float_ok "STOKER_HEARTBEAT_S" DEFAULT_HEARTBEAT_S (inject_Z 50 * Qpower 10 (0 - 1)) _ (1 # 10)) by default_ok. cbn [mbind result_bind].
  rewrite (as_float_ok "STOKER_OVERDRIVE" DEFAULT_OVERDRIVE (inject_Z 115 * Qpower 10 (0 - 2)) _ (inject_Z 1)) by default_ok. cbn [mbind result_bind].
  rewrite (as_float_ok "STOKER_CATCHUP_S" DEFAULT_CATCHUP_S (inject_Z 50 * Qpower 10 (0 - 1)) _ (inject_Z 0)) by default_ok. cbn [mbind result_bind].
  change (as_int "STOKER_METRICS_PORT" DEFAULT_METRICS_PORT (Some 0)) with (Ok 9100). cbn [mbind result_bind].
  rewrite (as_float_ok "STOKER_DEADMAN_S" DEFAULT_DEADMAN_S (inject_Z 6000 * Qpower 10 (0 - 1)) _ (inject_Z 1)) by default_ok. cbn [mbind result_bind].
  rewrite (as_float_ok "STOKER_DRAIN_BUDGET_S" DEFAULT_DRAIN_BUDGET_S (inject_Z 400 * Qpower 10 (0 - 1)) _ (inject_Z 1)) by default_ok. cbn [mbind result_bind].
  rewrite get_verify. cbn [mbind result_bind]. rewrite get_ca. cbn [mbind result_bind].
  rewrite (as_float_ok "STOKER_ZERO_OUTPUT_S" DEFAULT_ZERO_OUTPUT_S (inject_Z 450 * Qpower 10 (0 - 1)) _ (inject_Z 0)) by default_ok. cbn [mbind result_bind].
  change (as_int "STOKER_ZERO_OUTPUT_MAX_RESTARTS" DEFAULT_ZERO_OUTPUT_MAX_RESTARTS (Some 0)) with (Ok 3). cbn [mbind result_bind].
  unfold require. rewrite get_token. cbn [mbind result_bind]. cbv zeta. rewrite get_engine, get_fast.
  rewrite bool_decide_true by apply (la_engine Hl). eexists. split; [reflexivity|]. by cbn.
Qed.

(** The configuration the worker ends up with. *)
Definition launched_as (path : option string) (c : Config) : Prop :=
  cf_standalone c = false /\ cf_run_id c = Some (pretty run_id) /\
  cf_control_url c = Some (rstrip_slash (py_strip (public_base_url env_settings))) /\
  cf_run_jwt c = Some (py_strip jwt) /\ cf_hec_token c = py_strip token /\
  cf_hint_slot c = Some slot /\ cf_total_workers c = workers /\ cf_engine c = worker_engine /\
  cf_hec_verify_tls c = tg_verify_tls target /\
  cf_hec_ca_bundle c = certificates path /\
  cf_fast_envelope c = negb (bool_decide (worker_engine = "eventgen") && bool_decide (sp_fast_envelope spec = Some false)) /\
  cf_output_socket c = DEFAULT_OUTPUT_SOCKET /\ cf_holder c = hostname.

Lemma projected_read : exists c, load_config exists_path hostname env = Ok c /\
  launched_as (env_get env "STOKER_CA_BUNDLE") c.
Proof.
  destruct tuning_read as (t & Et & E1 & E2 & E3 & E4 & E5 & E6). unfold load_config. rewrite Et. cbn [mbind result_bind].
  unfold is_standalone. rewrite quiet_env by (listed || done). cbv beta. change (bool_decide (None ∈ _)) with false. cbv iota.
  unfold load_managed, require. rewrite get_run_id. cbn [mbind result_bind]. rewrite get_url. cbn [mbind result_bind].
  rewrite (la_url Hl). cbn [negb]. rewrite get_jwt. cbn [mbind result_bind]. rewrite get_workers. cbn [mbind result_bind].
  pose proof (la_workers Hl). pose proof (la_slot Hl).
  unfold as_int at 1. rewrite int_of_pretty by lia. destruct (Z.ltb_spec workers 1); [lia|]. cbn [mbind result_bind].
  unfold hint_slot. rewrite get_hint. unfold as_int. rewrite int_of_pretty by lia. destruct (Z.ltb_spec slot 0); [lia|].
  cbn [mbind result_bind]. rewrite (quiet_env "STOKER_HOLDER") by (listed || done).
  eexists. split; [reflexivity|]. unfold launched_as. cbn. by split_and!.
Qed.
End Read.

(** C36: What the control plane projects, the worker accepts.  Take a run with a token and
    credentials on a target, an engine the worker has, at least one worker, a control plane
    with an http(s) URL and, if it has certificates, PEM ones; and a driver's process that
    sets, of the worker's contract, only variables the run sets too, and perhaps the
    control plane's own [STOKER_CA_BUNDLE], of a path that exists.  Then a worker process spawned
    over that environment loads a configuration, and it is the launch's: the run, the fleet's
    size, the slot as its hint, the engine, the token, the choices of TLS verification and
    envelope, and the run's certificates, or those of the process where the run has none. *)
Theorem projected_env_accepted (process : environ) :
  launchable ->
  (forall k, k ∈ CONTRACT -> k <> "STOKER_CA_BUNDLE" -> projected !! k = None -> process !! k = None) ->
  (forall path, env_get process "STOKER_CA_BUNDLE" = Some path -> exists_path path = true) ->
  exists c, load_config exists_path hostname (child_env process projected ∅ slot) = Ok c /\
    launched_as (env_get process "STOKER_CA_BUNDLE") c.
Proof.
  intros Hl Hp Hb. unfold child_env. rewrite (left_id_L ∅ (∪)).
  assert (forall k, k ∈ CONTRACT -> k <> "STOKER_CA_BUNDLE" -> (projected ∪ process) !! k = projected !! k) as Hu.
  { intros k Hk Hne. rewrite lookup_union. destruct (projected !! k) eqn:E; [by destruct (process !! k)|].
    by rewrite (Hp k Hk Hne E). }
  assert (env_get (<[ "STOKER_HINT_SLOT" := pretty slot ]> (projected ∪ process)) "STOKER_CA_BUNDLE"
    = env_get process "STOKER_CA_BUNDLE") as Eca.
  { unfold env_get. rewrite lookup_insert_ne by done. rewrite lookup_union, projected_no_path.
    by destruct (process !! _). }
  cbv zeta. rewrite Hu by (listed || done). rewrite (quiet "STOKER_HINT_SLOT") by listed.
  rewrite <- Eca. apply projected_read; [done| |apply lookup_insert_eq|by rewrite Eca].
  intros k Hk Hne Hc. rewrite lookup_insert_ne by done. by apply Hu.
Qed.
End Projected.

(** The driver's process has its own token and certificates. *)
Definition demo_process : environ :=
  {[ "PATH" := "/usr/bin"; "STOKER_RUN_JWT" := "stale"; "STOKER_CA_BUNDLE" := "/etc/ca.pem" ]}.

Lemma projected_env_accepted_witness : exists c,
  load_config (R := binary64) (fun p => bool_decide (p = "/etc/ca.pem")) "worker-1"
    (child_env demo_process (projected 42 3 "jwt-42" "s3cret" (demo_spec 3) demo_target) ∅ 2) = Ok c /\
  launched_as "worker-1" 42 2 3 "jwt-42" "s3cret" (demo_spec 3) demo_target (Some "/etc/ca.pem") c.
Proof.
  apply (projected_env_accepted (D := FakeDriver) (R := binary64) (fun p => bool_decide (p = "/etc/ca.pem")) "worker-1"
           42 2 3 "jwt-42" "s3cret" (demo_spec 3) demo_target demo_process).
  - constructor; try (vm_compute; (reflexivity || discriminate)); apply (bool_decide_unpack _); vm_compute; exact I.
  - intros k Hk Hne Hn. destruct (decide (k = "STOKER_RUN_JWT")) as [->|Hj]; [vm_compute in Hn; discriminate|].
    assert (k <> "PATH") as Hpath by (intros ->; revert Hk; apply (bool_decide_unpack _); vm_compute; exact I).
    unfold demo_process. rewrite !lookup_insert_ne by congruence. by apply lookup_singleton_ne.
  - intros path. vm_compute. by intros [= <-].
Defined.

(** The control plane's own bundle reaches a worker of the in-tree driver although the
    target is not verified, and a path that is gone stops it. *)
Example process_bundle_reaches_worker :
  let unverified := mkTarget 3 (Some "https://hec.example:8088") (Some "main") false (Some "s3cret") in
  let env := child_env {[ "STOKER_CA_BUNDLE" := "/etc/ca.pem" ]}
               (projected (D := FakeDriver) 42 3 "jwt-42" "s3cret" (demo_spec 3) unverified) ∅ 2 in
  (exists c, load_config (R := binary64) (fun _ => true) "worker-1" env = Ok c /\
     cf_hec_verify_tls c = false /\ cf_hec_ca_bundle c = Some (CaPath "/etc/ca.pem")) /\
  load_config (R := binary64) (fun _ => false) "worker-1" env = Raise (ConfigError "STOKER_CA_BUNDLE").
Proof. split; [eexists; split; [vm_compute; reflexivity|by split]|vm_compute; reflexivity]. Qed.

Lemma config_well_formed_witness : exists c,
  @load_config exact (fun _ => true) "host"
    {[ "STOKER_STANDALONE" := "1"; "STOKER_HEC_TOKEN" := "t"; "STOKER_BUNDLE" := "/b.tgz"; "STOKER_HEC_URL" := "https://h";
       "STOKER_INDEX" := "main"; "STOKER_RATE_MODE" := "eps"; "STOKER_RATE_VALUE" := "12.5" ]} = Ok c /\ @config_wf exact c.
Proof.
  eexists. split; [vm_compute; reflexivity|].
  apply (config_well_formed (R := exact) (fun _ => true) "host"
    {[ "STOKER_STANDALONE" := "1"; "STOKER_HEC_TOKEN" := "t"; "STOKER_BUNDLE" := "/b.tgz"; "STOKER_HEC_URL" := "https://h";
       "STOKER_INDEX" := "main"; "STOKER_RATE_MODE" := "eps"; "STOKER_RATE_VALUE" := "12.5" ]}).
  vm_compute. reflexivity.
Defined.
