(* ===== verification/RawReplay.v ===== *)
(** * The raw replay engine (worker/engines/rawreplay/stoker_rawreplay/engine.py)

    The engine reads a recorded dataset line by line and writes an envelope per line
    to the agent's socket: as fast as the socket takes them and from the top again
    (rate), or once, sleeping the recorded gaps (cadence).  The dataset is its decoded
    text, the socket the outcome of each write, and the state the log of what the engine
    did: its sleeps and its writes, in order.

    The theorems: in rate mode the events are the dataset's lines in order, over and
    over, until the socket closes, and the engine returns then; in cadence mode the
    replayed timeline is the recorded one, moved to now and scaled, and each line is
    written when that time has been slept; no replay
    goes back in time; and the agent forwards each line as it was recorded. *)

From S2P Require Import Prelude.
From S2P Require Import PyFloat.
From S2P Require Import PyValue.
From S2P Require Import Json.
From S2P Require Import PackYaml.
From S2P Require Import SockServer.
From S2P Require Import Timestamps.
From S2P Require Import AgentConfig.
From Stdlib Require Import QArith Ascii Lqa.
Open Scope Z_scope.

Abbreviation text := PackYaml.text.

Inductive mode : Type := Rate | Cadence.

Record replay_settings : Type := mkReplayConfig {
  rc_socket_path : string;
  rc_dataset : string;
  rc_mode : mode;
  rc_time_multiple : Q;
  rc_ts_field : option string;
  rc_ts_regex : option string;
  rc_ts_strptime : option string;
  rc_fallback_gap_s : Q;
}.

Definition DEFAULT_SOCKET_PATH : string := "/tmp/stoker-output.sock".
Definition DEFAULT_TIME_MULTIPLE : Q := 1.

(** ** The environment *)

Section Config.
Context {R : Rounding} (isfile : string -> bool).

Definition DEFAULT_FALLBACK_GAP_S : Q := rnd (1 # 10).

(** A number that may not be negative. *)
Definition nonnegative_var (env : environ) (key : string) (dflt : Q) : result Q :=
  match env_get env key with
  | None => Ok dflt
  | Some raw =>
      match float_of_string raw with
      | None => Raise (RawReplayError key)
      | Some v => if Qle_bool 0 v then Ok v else Raise (RawReplayError key)
      end
  end.

Definition mode_of (s : string) : option mode :=
  if bool_decide (s = "rate") then Some Rate else if bool_decide (s = "cadence") then Some Cadence else None.

Definition load_replay_config (env : environ) : result replay_settings :=
  match env_get env "STOKER_RAWREPLAY_DATASET" with
  | None => Raise (RawReplayError "STOKER_RAWREPLAY_DATASET")
  | Some dataset =>
      if negb (isfile dataset) then Raise (RawReplayError "STOKER_RAWREPLAY_DATASET")
      else
        match mode_of (py_lower (default "rate" (env_get env "STOKER_RAWREPLAY_MODE"))) with
        | None => Raise (RawReplayError "STOKER_RAWREPLAY_MODE")
        | Some m =>
            time_multiple ← nonnegative_var env "STOKER_RAWREPLAY_TIME_MULTIPLE" DEFAULT_TIME_MULTIPLE;
            fallback_gap_s ← nonnegative_var env "STOKER_RAWREPLAY_FALLBACK_GAP_S" DEFAULT_FALLBACK_GAP_S;
            Ok (mkReplayConfig (default DEFAULT_SOCKET_PATH (env_get env "STOKER_OUTPUT_SOCKET")) dataset m time_multiple
                  (env_get env "STOKER_RAWREPLAY_TS_FIELD") (env_get env "STOKER_RAWREPLAY_TS_REGEX")
                  (env_get env "STOKER_RAWREPLAY_TS_STRPTIME") fallback_gap_s)
        end
  end.
End Config.

(** ** The dataset *)

(** Iterating a text file opened with [newline=""]: a line ends with LF, CR or both, and
    keeps its ending. *)
Fixpoint file_lines (s : text) : list text :=
  match s with
  | [] => []
  | c :: s' =>
      if Ascii.eqb c LF then [c] :: file_lines s'
      else if Ascii.eqb c CR then
        match s' with
        | c' :: s'' => if Ascii.eqb c' LF then [c; c'] :: file_lines s'' else [c] :: file_lines s'
        | [] => [[c]]
        end
      else match file_lines s' with [] => [[c]] | l :: ls => (c :: l) :: ls end
  end.

(** [line.rstrip("\r\n")] *)
Definition is_newline (c : ascii) : bool := Ascii.eqb c LF || Ascii.eqb c CR.
Fixpoint drop_newlines (t : text) : text :=
  match t with c :: t' => if is_newline c then drop_newlines t' else t | [] => [] end.
Definition rstrip_newlines (t : text) : text := reverse (drop_newlines (reverse t)).

Definition iter_lines (dataset : text) : list text :=
  List.filter (fun l => negb (bool_decide (strip_chars l = []))) (rstrip_newlines <$> file_lines dataset).

(** ** Envelopes and the socket *)

Definition encode (time_value : option Q) (event : text) : jobj :=
  [("time", jnumber time_value); ("host", JNull); ("source", JNull); ("sourcetype", JNull); ("index", JNull);
   ("event", JStr (String.string_of_list_ascii event))].

(** How a write ends: taken, on a closed socket, or on another fault. *)
Inductive write_outcome : Type := Written | PeerClosed | Fault.

(** What the engine did, in order. *)
Inductive action : Type := Slept (g : Q) | Sent (e : jobj).
Definition replay : Type := list action.

Definition sent (s : replay) : list jobj := omap (fun a => match a with Sent e => Some e | Slept _ => None end) s.
Definition emitted (s : replay) : nat := length (sent s).

(** The connect loop: each attempt succeeds or not, and then the clock is read. *)
Fixpoint connect_loop {R : Rounding} (deadline : Q) (attempts : list (bool * Q)) : option (result unit) :=
  match attempts with
  | [] => None
  | (true, _) :: _ => Some (Ok tt)
  | (false, now) :: rest => if Qle_bool deadline now then Some (Raise (RawReplayError "cannot connect")) else connect_loop deadline rest
  end.

Definition CONNECT_RETRY_S : Q := 5.
Definition connect {R : Rounding} (start : Q) (attempts : list (bool * Q)) : option (result unit) :=
  connect_loop (fadd start CONNECT_RETRY_S) attempts.

Section Engine.
Context {R : Rounding}.
(** The outcome of the [i]-th write. *)
Context (out : nat -> write_outcome).

Definition send (e : jobj) : M replay bool := fun s =>
  match out (emitted s) with
  | Written => (s ++ [Sent e], Ok true)
  | PeerClosed => (s, Ok false)
  | Fault => (s, Raise (RawReplayError "agent socket write failed"))
  end.

(** *** Rate *)

(** One pass over the dataset; [false] when the socket closed. *)
Fixpoint rate_pass (lines : list text) : M replay bool :=
  match lines with
  | [] => mret true
  | line :: lines => send (encode None line) ≫= fun ok : bool => if ok then rate_pass lines else mret false
  end.

(** The loop, for at most [fuel] passes; [false] when the fuel ran out. *)
Fixpoint run_rate (fuel : nat) (lines : list text) : M replay bool :=
  match fuel with
  | O => mret false
  | S fuel =>
      rate_pass lines ≫= fun more : bool =>
      if negb more then mret true
      else if bool_decide (lines = []) then mret true else run_rate fuel lines
  end.

(** *** Cadence *)

Definition gap (prev_ts ts : option Q) (time_multiple fallback_gap_s : Q) : Q :=
  if Qeq_bool time_multiple 0 then 0
  else
    match prev_ts, ts with
    | Some p, Some t =>
        let delta := fmul (fsub t p) time_multiple in
        if Qle_bool 0 delta then delta else fmul fallback_gap_s time_multiple
    | _, _ => fmul fallback_gap_s time_multiple
    end.

(** [if gap > 0: sleep(gap)] *)
Definition sleep (g : Q) : M replay unit :=
  modify (fun s => if Qle_bool g 0 then s else s ++ [Slept g]).

Context (p : parser) (cfg : replay_settings) (now : Q).

Fixpoint run_cadence (base : option Q) (cumulative : Q) (prev_ts : option Q) (lines : list text) : M replay unit :=
  match lines with
  | [] => mret tt
  | line :: lines =>
      lift (parse p line) ≫= fun ts : option Q =>
      let g := match base with None => 0%Q | Some _ => gap prev_ts ts (rc_time_multiple cfg) (rc_fallback_gap_s cfg) end in
      let cumulative := match base with None => 0%Q | Some _ => fadd cumulative g end in
      let b := default now base in
      sleep g ≫= fun _ =>
      send (encode (Some (fadd b cumulative)) line) ≫= fun ok : bool =>
      if ok then run_cadence (Some b) cumulative (match ts with Some _ => ts | None => prev_ts end) lines else mret tt
  end.

(** [RawReplayEngine.run] on a dataset, once connected. *)
Definition run (fuel : nat) (dataset : text) : M replay bool :=
  match rc_mode cfg with
  | Rate => run_rate fuel (iter_lines dataset)
  | Cadence => run_cadence None 0 None (iter_lines dataset) ≫= fun _ => mret true
  end.
End Engine.

(** [main]: the exit code. *)
Definition exit_code {R : Rounding} (isfile : string -> bool) (env : environ) (engine : replay_settings -> result unit) : Z :=
  match load_replay_config isfile env with
  | Raise _ => 2
  | Ok cfg => match engine cfg with Ok _ => 0 | Raise _ => 1 end
  end.

(** ** The log *)

Lemma sent_app s s' : sent (s ++ s') = sent s ++ sent s'.
Proof. apply omap_app. Qed.

Lemma sent_writes es : sent (Sent <$> es) = es.
Proof. unfold sent. induction es as [|e es IH]; cbn; [done|by f_equal]. Qed.

Lemma emitted_app s s' : emitted (s ++ s') = (emitted s + emitted s')%nat.
Proof. unfold emitted. by rewrite sent_app, length_app. Qed.

(** ** Rate: the dataset over and over *)

Section RateTheory.
Context {R : Rounding} (out : nat -> write_outcome) (lines : list text).
Abbreviation len := (length lines).

(** The first [n] events of the endless replay. *)
Definition looped (n : nat) : list jobj := (fun i => encode None (lines !!! (i mod len)%nat)) <$> seq 0 n.

Lemma looped_pass k r : (r <= len)%nat -> looped (k * len + r) = looped (k * len) ++ (encode None <$> take r lines).
Proof.
  intros Hr. unfold looped. rewrite seq_app, fmap_app. f_equal. cbn [Nat.add].
  apply list_eq. intros i. rewrite !list_lookup_fmap. destruct (decide (i < r)%nat) as [Hi|Hi].
  - rewrite lookup_seq_lt by done. rewrite lookup_take_lt by done. cbn. destruct (lookup_lt_is_Some_2 lines i) as [l El]; [lia|].
    rewrite El. cbn. rewrite Nat.add_comm, Nat.Div0.mod_add, Nat.mod_small by lia. by rewrite (list_lookup_total_correct _ _ _ El).
  - rewrite lookup_seq_ge, lookup_take_ge by lia. done.
Qed.

Lemma looped_next k : looped (S k * len) = looped (k * len) ++ (encode None <$> lines).
Proof. replace (S k * len)%nat with (k * len + len)%nat by lia. by rewrite looped_pass, take_ge by lia. Qed.

Lemma looped_length n : length (looped n) = n.
Proof. unfold looped. by rewrite length_fmap, length_seq. Qed.

(** How the socket ended. *)
Definition ended (o : write_outcome) : result bool :=
  match o with Fault => Raise (RawReplayError "agent socket write failed") | _ => Ok true end.

Context (n : nat) (Hw : forall i, (i < n)%nat -> out i = Written) (Hn : out n <> Written).

Lemma pass_whole ls s : (emitted s + length ls <= n)%nat ->
  rate_pass out ls s = (s ++ (Sent <$> (encode None <$> ls)), Ok true).
Proof.
  revert s. induction ls as [|l ls IH]; intros s Hs; cbn [rate_pass fmap list_fmap].
  - by rewrite app_nil_r.
  - cbn in Hs. unfold mbind at 1, M_bind, send. rewrite Hw by lia. rewrite IH by (rewrite emitted_app; cbn; lia).
    by rewrite <- app_assoc.
Qed.

Lemma pass_ends ls s : (emitted s <= n < emitted s + length ls)%nat ->
  rate_pass out ls s = (s ++ (Sent <$> (encode None <$> take (n - emitted s) ls)),
    match out n with Fault => Raise (RawReplayError "agent socket write failed") | _ => Ok false end).
Proof.
  revert s. induction ls as [|l ls IH]; intros s Hs; [cbn in Hs; lia|]. cbn [rate_pass]. unfold mbind at 1, M_bind, send.
  destruct (decide (emitted s = n)) as [E|E].
  - rewrite E, Nat.sub_diag. cbn. rewrite app_nil_r. by destruct (out n) eqn:Eo.
  - rewrite Hw by lia. cbn in Hs. rewrite IH by (rewrite emitted_app; cbn; lia). rewrite emitted_app. cbn.
    replace (n - emitted s)%nat with (S (n - (emitted s + 1)))%nat by lia. cbn. by rewrite <- app_assoc.
Qed.

Lemma run_rate_from fuel k : lines <> [] -> (k * len <= n)%nat -> (n - k * len < fuel)%nat ->
  run_rate out fuel lines (Sent <$> looped (k * len)) = (Sent <$> looped n, ended (out n)).
Proof.
  intros Hne. assert (0 < len)%nat as Hlen by (destruct lines; [done|cbn; lia]).
  revert k. induction fuel as [|fuel IH]; intros k Hk Hf; [lia|]. cbn [run_rate]. unfold mbind at 1, M_bind.
  assert (emitted (Sent <$> looped (k * len)) = (k * len)%nat) as Es.
  { unfold emitted. rewrite sent_writes. apply looped_length. }
  destruct (decide (n < k * len + len)%nat) as [Hlt|Hge].
  - rewrite pass_ends by (rewrite Es; lia). rewrite Es, <- fmap_app.
    rewrite <- looped_pass by lia. replace (k * len + (n - k * len))%nat with n by lia. unfold ended. by destruct (out n).
  - rewrite pass_whole by (rewrite Es; lia). cbn [negb]. rewrite bool_decide_false by done.
    rewrite <- fmap_app, <- looped_next. apply IH; lia.
Qed.
End RateTheory.

(** In rate mode the engine sends the dataset's lines in order, from the top again when
    they are exhausted, each without a time of its own, for as long as the socket takes them:
    if the first [n] writes succeed and the next does not, the events are the first [n]
    of that endless stream, and the engine returns (with an error only for a fault that is not
    the peer's close). *)
Theorem rate_replays_in_order {R : Rounding} out p cfg now dataset n fuel :
  rc_mode cfg = Rate -> iter_lines dataset <> [] ->
  (forall i, (i < n)%nat -> out i = Written) -> out n <> Written -> (n < fuel)%nat ->
  run out p cfg now fuel dataset [] = (Sent <$> looped (iter_lines dataset) n, ended (out n)).
Proof.
  intros Hm Hne Hw Hn Hf. unfold run. rewrite Hm.
  apply (run_rate_from out (iter_lines dataset) n Hw Hn fuel 0); [done|cbn; lia|cbn; lia].
Qed.

(** An empty dataset stops the engine at once, whatever the socket. *)
Lemma empty_dataset_stops {R : Rounding} out p cfg now dataset fuel s :
  rc_mode cfg = Rate -> iter_lines dataset = [] -> run out p cfg now (S fuel) dataset s = (s, Ok true).
Proof. intros Hm He. unfold run. by rewrite Hm, He. Qed.

Definition demo_dataset : text := String.list_ascii_of_string "a
b

c
".
Definition demo_config (m : mode) : replay_settings := mkReplayConfig "/s" "/d" m 2 None None None (1 # 10).
Definition no_parser : parser := mkParser None None 2026.

Lemma rate_replays_in_order_witness :
  run (R := exact) (fun i => if decide (i < 5)%nat then Written else PeerClosed) no_parser (demo_config Rate) 0 6 demo_dataset []
  = (Sent <$> (encode None <$> [["a"]; ["b"]; ["c"]; ["a"]; ["b"]]%char), Ok true).
Proof.
  rewrite (rate_replays_in_order (R := exact) _ _ _ _ _ 5);
    [vm_compute; reflexivity|reflexivity|vm_compute; discriminate| |vm_compute; discriminate|lia].
  intros i Hi. by rewrite decide_True.
Defined.

(** ** Cadence: the recorded timeline *)

Section CadenceTheory.
Context (p : parser) (cfg : replay_settings) (now : Q).
Abbreviation tm := (rc_time_multiple cfg).
Context (Htm : (0 <= tm)%Q).

Lemma gap_recorded t0 t : (t0 <= t)%Q -> (gap (R := exact) (Some t0) (Some t) tm (rc_fallback_gap_s cfg) == tm * (t - t0))%Q.
Proof.
  intros Ht. unfold gap. destruct (Qeq_bool tm 0) eqn:E.
  - apply Qeq_bool_iff in E. rewrite E. ring.
  - unfold fmul, fsub. cbn [rnd exact]. assert (Qle_bool 0 ((t - t0) * tm) = true) as ->.
    { apply Qle_bool_iff. apply Qmult_le_0_compat; [lra|done]. }
    ring.
Qed.

(** [xs] is non-decreasing from [t]. *)
Fixpoint ascending (t : Q) (xs : list Q) : Prop :=
  match xs with [] => True | x :: xs => (t <= x)%Q /\ ascending x xs end.

(** The events of a log, each with the time slept before it. *)
Fixpoint timed (elapsed : Q) (log : replay) : list (Q * jobj) :=
  match log with
  | [] => []
  | Slept g :: log => timed (elapsed + g) log
  | Sent e :: log => (elapsed, e) :: timed elapsed log
  end.

(** A line is replayed on time: [tm * (t - t0)] after the start, and stamped so. *)
Definition on_time (base t0 start : Q) (lt : text * Q) (de : Q * jobj) : Prop :=
  exists q, de.2 = encode (Some q) lt.1 /\ (q == base + tm * (lt.2 - t0))%Q /\ (de.1 == start + tm * (lt.2 - t0))%Q.

Lemma sleep_eq g s : exists log, sleep g s = (s ++ log, Ok tt) /\ sent log = [] /\
  forall e, (0 <= g)%Q -> exists e', (e' == e + g)%Q /\ forall log', timed e (log ++ log') = timed e' log'.
Proof.
  unfold sleep, modify. destruct (Qle_bool g 0) eqn:E.
  - exists []. rewrite app_nil_r. split_and!; [done..|]. intros e Hg. apply Qle_bool_iff in E.
    exists e. split; [lra|done].
  - exists [Slept g]. split_and!; [done..|]. intros e _. exists (e + g)%Q. done.
Qed.

Lemma cadence_from out n (Hw : forall i, (i < n)%nat -> out i = Written) lts :
  forall b cum t0 s elapsed,
  Forall (fun lt => parse (R := exact) p lt.1 = Ok (Some lt.2)) lts -> ascending t0 (snd <$> lts) ->
  (emitted s <= n)%nat -> ((n < emitted s + length lts)%nat -> out n <> Written) ->
  exists log, run_cadence (R := exact) out p cfg now (Some b) cum (Some t0) (fst <$> lts) s
      = (s ++ log, if (n - emitted s <? length lts)%nat then ended (out n) ≫= (fun _ => Ok tt) else Ok tt) /\
    Forall2 (on_time (b + cum) t0 elapsed) (take (n - emitted s) lts) (timed elapsed log).
Proof.
  induction lts as [|[l t] lts IH]; intros b cum t0 s elapsed Hp Ha Hs Hn.
  { exists []. cbn. rewrite app_nil_r, firstn_nil. split; [done|constructor]. }
  apply Forall_cons in Hp as [Hl Hp]. cbn in Hl. destruct Ha as [Ht Ha]. cbn [fmap list_fmap fst snd] in *.
  cbn [run_cadence]. unfold mbind at 1, M_bind at 1, Prelude.lift. rewrite Hl. cbv zeta. cbn [default from_option id].
  set (g := gap (Some t0) (Some t) tm _). assert (g == tm * (t - t0))%Q as Hg by (by apply gap_recorded).
  assert (0 <= g)%Q as Hg0 by (rewrite Hg; apply Qmult_le_0_compat; [done|lra]).
  destruct (sleep_eq g s) as (lg & Es & Hsent & Hlg). destruct (Hlg elapsed Hg0) as (e' & He' & Htl).
  unfold mbind at 1, M_bind at 1. rewrite Es.
  assert (emitted (s ++ lg) = emitted s) as Hem by (rewrite emitted_app; unfold emitted; rewrite Hsent; cbn; lia).
  unfold mbind at 1, M_bind at 1, send. rewrite Hem. destruct (decide (emitted s = n)) as [E|E].
  - specialize (Hn ltac:(cbn; lia)). exists lg. rewrite E, Nat.sub_diag. cbn [take Nat.ltb Nat.leb length].
    specialize (Htl []). rewrite app_nil_r in Htl. rewrite Htl. split; [by destruct (out n)|constructor].
  - rewrite Hw by lia. cbv iota. set (e := encode _ l). set (cum' := fadd cum g).
    destruct (IH b cum' t ((s ++ lg) ++ [Sent e]) e' Hp Ha) as (log & Er & HF).
    { rewrite emitted_app, Hem. cbn. lia. }
    { rewrite emitted_app, Hem. intros Hlt. apply Hn. cbn in *. lia. }
    rewrite emitted_app, Hem in Er, HF. change (emitted [Sent e]) with 1%nat in Er, HF.
    exists (lg ++ Sent e :: log). split.
    + etransitivity; [exact Er|]. f_equal; [by rewrite <- !app_assoc|]. cbn [length].
      replace (n - emitted s)%nat with (S (n - (emitted s + 1)))%nat by lia. done.
    + rewrite Htl. replace (n - emitted s)%nat with (S (n - (emitted s + 1)))%nat by lia. cbn [take timed].
      unfold cum', fadd in *. cbn [rnd exact] in *. constructor.
      * eexists. split; [reflexivity|]. cbn [fst snd]. rewrite He', Hg. split; ring.
      * eapply Forall2_impl; [exact HF|]. intros lt de (q & Hq1 & Hq2 & Hq3). exists q. split; [done|].
        rewrite Hq2, Hq3, He', Hg. split; ring.
Qed.
End CadenceTheory.

(** C40: In cadence mode the replayed timeline is the recorded one.  On a dataset whose lines all
    carry a timestamp, none before its predecessor, let the first [n] writes succeed and the next one,
    when there is one, not (the agent closes the socket on a drain, or a fault).  Then the engine sends the first [n]
    lines (all of them when there are no more), once and in order; each is stamped the recorded
    distance from the first, scaled by the time multiple, after now; and it is written when the
    engine has slept exactly that distance since the first.  The replay returns when the lines are
    exhausted or the peer closes, and raises only on a fault.  Arithmetic is exact. *)
Theorem cadence_keeps_timeline out p cfg now fuel dataset l0 t0 lts n :
  rc_mode cfg = Cadence -> (0 <= rc_time_multiple cfg)%Q ->
  (forall i, (i < n)%nat -> out i = Written) -> ((n < length (iter_lines dataset))%nat -> out n <> Written) ->
  iter_lines dataset = l0 :: (fst <$> lts) -> parse (R := exact) p l0 = Ok (Some t0) ->
  Forall (fun lt => parse (R := exact) p lt.1 = Ok (Some lt.2)) lts -> ascending t0 (snd <$> lts) ->
  exists log, run (R := exact) out p cfg now fuel dataset []
      = (log, if (n <? length (iter_lines dataset))%nat then ended (out n) else Ok true) /\
    Forall2 (on_time cfg now t0 0) (take n ((l0, t0) :: lts)) (timed 0 log).
Proof.
  intros Hm Htm Hw Hn Hd Hl Hp Ha. unfold run. rewrite Hm, Hd. cbn [run_cadence length]. rewrite length_fmap.
  unfold mbind at 1, M_bind at 1.
  unfold mbind at 1, M_bind at 1, Prelude.lift. rewrite Hl. cbv zeta. cbn [default from_option id].
  unfold mbind at 1, M_bind at 1. change (sleep 0 []) with (@nil action, @Ok unit tt). cbv iota.
  unfold mbind at 1, M_bind at 1, send. change (emitted []) with 0%nat. destruct n as [|n].
  { rewrite Hd in Hn. specialize (Hn ltac:(cbn; lia)). exists []. split; [|constructor]. by destruct (out 0%nat). }
  rewrite (Hw 0%nat) by lia. cbv iota. cbn [app].
  destruct (cadence_from p cfg now Htm out (S n) Hw lts now 0%Q t0
    [Sent (encode (Some (fadd (R := exact) now 0)) l0)] 0 Hp Ha ltac:(cbn; lia)) as (log & E & HF).
  { rewrite Hd in Hn. cbn in *. rewrite length_fmap in Hn. intros ?. apply Hn. lia. }
  rewrite E. change (emitted [Sent _]) with 1%nat in *. replace (S n - 1)%nat with n in * by lia.
  eexists. split.
  - change (S n <? S (length lts))%nat with (n <? length lts)%nat. destruct (n <? length lts)%nat; [|reflexivity].
    destruct (out (S n)); reflexivity.
  - cbn [take app timed]. constructor.
    + eexists. split; [reflexivity|]. unfold fadd. cbn [rnd exact fst snd]. split; ring.
    + eapply Forall2_impl; [exact HF|]. intros lt de (q & Hq1 & Hq2 & Hq3). exists q. split; [done|].
      rewrite Hq2, Hq3. split; ring.
Qed.

Definition epoch_lines : text := String.list_ascii_of_string "1700000000 a
1700000003 b
1700000004 c
".

Lemma cadence_keeps_timeline_witness : exists log,
  run (R := exact) (fun i => if decide (i < 2)%nat then Written else PeerClosed) no_parser (demo_config Cadence) 50 0
    epoch_lines [] = (log, Ok true) /\
  length (timed 0 log) = 2%nat /\ exists e, timed 0 log !! 1%nat = Some e /\ (e.1 == 6)%Q /\ jget e.2 "time" <> JNull.
Proof.
  destruct (cadence_keeps_timeline (fun i => if decide (i < 2)%nat then Written else PeerClosed) no_parser
    (demo_config Cadence) 50 0 epoch_lines (String.list_ascii_of_string "1700000000 a") 1700000000
    [(String.list_ascii_of_string "1700000003 b", 1700000003%Q); (String.list_ascii_of_string "1700000004 c", 1700000004%Q)] 2)
    as (log & E & HF).
  - reflexivity.
  - vm_compute. discriminate.
  - intros i Hi. by rewrite decide_True.
  - vm_compute. discriminate.
  - vm_compute. reflexivity.
  - vm_compute. reflexivity.
  - repeat constructor; vm_compute; reflexivity.
  - cbn. split; [vm_compute; discriminate|]. split; [vm_compute; discriminate|done].
  - exists log. split; [exact E|]. split; [by apply Forall2_length in HF|].
    destruct (Forall2_lookup_l _ _ _ 1%nat _ HF eq_refl) as (de & Hde & q & Eq & _ & Hd). exists de.
    split; [done|]. split; [rewrite Hd; vm_compute; reflexivity|]. by rewrite Eq.
Defined.

(** ** No replay goes back in time *)

Section Forward.
Context (out : nat -> write_outcome) (p : parser) (cfg : replay_settings) (now : Q).
Context (Htm : (0 <= rc_time_multiple cfg)%Q) (Hfb : (0 <= rc_fallback_gap_s cfg)%Q).

Lemma gap_nonneg prev ts : (0 <= gap (R := exact) prev ts (rc_time_multiple cfg) (rc_fallback_gap_s cfg))%Q.
Proof.
  unfold gap, fmul. cbn [rnd exact]. pose proof (Qmult_le_0_compat _ _ Hfb Htm).
  destruct (Qeq_bool _ _); [done|]. destruct prev, ts; try done. destruct (Qle_bool 0 _) eqn:E; [by apply Qle_bool_iff|done].
Qed.

(** What a replay adds to the state: events that carry a first part of the lines in order,
    at times that never decrease from [t]. *)
Definition forward_from (t : Q) (lines : list text) (s s' : replay) : Prop :=
  exists qs, sent s' = sent s ++ zip_with (fun q l => encode (Some q) l) qs lines /\
    (length qs <= length lines)%nat /\ ascending t qs.

Lemma ascending_weaken t u qs : (t <= u)%Q -> ascending u qs -> ascending t qs.
Proof. destruct qs as [|q qs]; [done|]. cbn. intros Ht [Hu Ha]. split; [lra|done]. Qed.

Lemma forward_none t lines s s' : sent s' = sent s -> forward_from t lines s s'.
Proof. intros E. exists []. cbn. rewrite app_nil_r. split_and!; [done|lia|done]. Qed.

(** One line: the sleep, the write, and the rest. *)
Lemma forward_line t q l lines (k : M replay unit) s s1 : sent s1 = sent s -> (t <= q)%Q ->
  (forall s2, forward_from q lines s2 (fst (k s2))) ->
  forward_from t (l :: lines) s (fst ((send out (encode (Some q) l) ≫= fun ok : bool => if ok then k else mret tt) s1)).
Proof.
  intros E Hq Hk. unfold mbind, M_bind, send. destruct (out (emitted s1)); cbn [fst]; [|by apply forward_none..].
  destruct (Hk (s1 ++ [Sent (encode (Some q) l)])) as (qs & Eq & Hl & Ha).
  exists (q :: qs). cbn [zip_with length ascending]. rewrite Eq, sent_app, E, <- app_assoc. split_and!; [done|lia|done|done].
Qed.

Lemma cadence_forward lines : forall b cum prev s,
  forward_from (b + cum) lines s (fst (run_cadence (R := exact) out p cfg now (Some b) cum prev lines s)).
Proof.
  induction lines as [|l lines IH]; intros b cum prev s; [by apply forward_none|].
  cbn [run_cadence]. unfold mbind at 1, M_bind at 1, Prelude.lift. destruct (parse p l) as [ts|e]; [|by apply forward_none].
  cbv zeta. set (g := gap _ _ _ _). pose proof (gap_nonneg prev ts) as Hg. fold g in Hg.
  unfold mbind at 1, M_bind at 1. destruct (sleep_eq g s) as (lg & -> & Hlg & _).
  assert (sent (s ++ lg) = sent s) as Hs by (by rewrite sent_app, Hlg, app_nil_r).
  apply forward_line; [done|cbn; unfold fadd; cbn; lra|]. intros s2. apply IH.
Qed.
End Forward.

(** Whatever the dataset, the pattern and the socket do, cadence never goes back in time: the
    events sent are the dataset's lines in order from the first, and their times start at
    now and never decrease (in exact arithmetic), also over lines that are out of order or
    carry no timestamp, and also when the replay is cut short or fails. *)
Theorem cadence_never_rewinds isfile env cfg out p now fuel dataset :
  load_replay_config (R := exact) isfile env = Ok cfg -> rc_mode cfg = Cadence ->
  forward_from now (iter_lines dataset) []
    (fst (run (R := exact) out p cfg now fuel dataset [])).
Proof.
  intros Hc Hm. assert (0 <= rc_time_multiple cfg /\ 0 <= rc_fallback_gap_s cfg)%Q as [Htm Hfb].
  { assert (forall k d v, (0 <= d)%Q -> nonnegative_var (R := exact) env k d = Ok v -> (0 <= v)%Q) as Hv.
    { intros k d v Hd. unfold nonnegative_var. destruct (env_get env k); [|by intros [= <-]].
      destruct (float_of_string _) as [q|]; [|done]. destruct (Qle_bool 0 q) eqn:E; [|done]. intros [= <-]. by apply Qle_bool_iff. }
    unfold load_replay_config in Hc. destruct (env_get env _); [|done]. destruct (isfile _); [|done]. cbn [negb] in Hc.
    destruct (mode_of _); [|done]. unbind Hc. injection Hc as <-. cbn. split; (eapply Hv; [|eassumption]); vm_compute; discriminate. }
  unfold run. rewrite Hm. unfold mbind at 1, M_bind at 1.
  assert (forward_from now (iter_lines dataset) []
    (fst (run_cadence (R := exact) out p cfg now None 0 None (iter_lines dataset) []))) as HF.
  { destruct (iter_lines dataset) as [|l lines]; [by apply forward_none|]. cbn [run_cadence].
    unfold mbind at 1, M_bind at 1, Prelude.lift. destruct (parse p l) as [ts|e]; [|by apply forward_none].
    cbv zeta. unfold mbind at 1, M_bind at 1. change (sleep 0 []) with (@nil action, @Ok unit tt). cbv iota.
    apply forward_line; [done|cbn; unfold fadd; cbn; lra|]. intros s2. by apply cadence_forward. }
  destruct (run_cadence _ _ _ _ _ _ _ _) as [s' [r|e]]; exact HF.
Qed.

Lemma cadence_never_rewinds_witness :
  forward_from 50 (iter_lines demo_dataset) []
    (fst (run (R := exact) (fun _ => Written) no_parser
      (mkReplayConfig "/tmp/stoker-output.sock" "/d" Cadence 1 None None None (1 # 10)) 50 0 demo_dataset [])).
Proof.
  apply (cadence_never_rewinds (fun _ => true) {[ "STOKER_RAWREPLAY_DATASET" := "/d"; "STOKER_RAWREPLAY_MODE" := "Cadence" ]});
    vm_compute; reflexivity.
Defined.

(** ** What the agent makes of it *)

(** The agent forwards each replayed line as it was recorded, with the engine's time, or now
    where the engine gave none. *)
Theorem replayed_line_reaches_hec overrides defaults now tv line :
  let e := fill overrides defaults now (encode tv line) in
  jget e "event" = JStr (String.string_of_list_ascii line) /\ jget e "time" = JNum (default now tv).
Proof.
  cbv zeta. unfold fill, META_FIELDS. destruct tv as [q|];
    [change (is_jnull (jget (encode (Some q) line) "time")) with false|change (is_jnull (jget (encode None line) "time")) with true];
    cbn [foldl]; unfold fill_field;
    destruct (jfind overrides "index"), (jfind overrides "sourcetype"), (jfind overrides "source"), (jfind overrides "host");
    repeat match goal with |- context [if ?b then _ else _] => destruct b end; split; reflexivity.
Qed.

(** ** Where the replay differs from the recording *)

(** A line without a timestamp adds the fallback gap on top of the recorded distance of its
    neighbours: the third event is at 12.1 seconds, not 12. *)
Example unparsed_line_adds_gap :
  (fun e => jget e "time") <$> sent (fst (run (R := exact) (fun _ => Written) no_parser
    (mkReplayConfig "/s" "/d" Cadence 1 None None None (1 # 10)) 0 0
    (String.list_ascii_of_string "1700000000 a
continued
1700000012 b
") [])) = [JNum 0; JNum (1 # 10); JNum (121 # 10)].
Proof. vm_compute. reflexivity. Qed.

(** A leap second under the operator's own format ends the replay with an exception of the
    timestamp parser. *)
Example leap_second_ends_replay :
  snd (run (R := exact) (fun _ => Written)
    (mkParser (Some Some) (Some (fun _ => Some (mkDatetime 2016 12 31 23 59 60))) 2026) (demo_config Cadence) 0 0
    (String.list_ascii_of_string "2016-12-31 23:59:60 a") []) = Raise (ValueError "second must be in 0..59").
Proof. vm_compute. reflexivity. Qed.
