(* ===== verification/K8s.v ===== *)
(** * The Kubernetes driver (server/drivers/k8s.py)

    One Indexed Job per run, and one Secret for the run's HEC token.  The cluster
    is a parameter: the API calls the driver makes ([Cluster]), and of their
    documented behaviour what the driver relies on ([ClusterLaws]): a read changes
    nothing, a call touches only the object it names, a patch sets what it says.

    The theorems: the driver obeys the laws the stray sweep asks of a driver;
    a fleet has the size it was last given; a create that fails leaves no
    Secret behind; the deadline of a paused run does not accumulate; and a
    pod of the Job starts with the configuration the run was launched with, its
    token read from the Secret and nowhere in the Job. *)

From S2P Require Import Prelude.
From S2P Require Import PyFloat.
From S2P Require Import PyValue.
From S2P Require Import PackYaml.
From S2P Require Import Packs.
From S2P Require Import Driver.
From S2P Require Import Model.
From S2P Require Import Provision.
From S2P Require Import Scenario.
From S2P Require Import AgentConfig.
From Stdlib Require Import QArith Qround Ascii.
Open Scope Z_scope.

Definition KIND : string := "k8s".
Definition HEC_ENV : string := "STOKER_HEC_TOKEN".
Definition HEC_SECRET_KEY : string := "hec-token".
Definition RUNNING_PHASES : list string := ["Running"].

Definition job_name (run_id : Z) : string := "stoker-run-" +:+ pretty run_id.
Definition secret_name (run_id : Z) : string := "stoker-run-" +:+ pretty run_id +:+ "-hec".

(** ** Manifests *)

(** A JSON object of scalars, in order. *)
Abbreviation fields := (list (string * pyval)).

Inductive env_source : Type :=
  | EnvValue (v : string)
  | SecretKeyRef (name key : string)
  | FieldRef (path : string).

Record env_var : Type := mkEnvVar { ev_name : string; ev_source : env_source }.

Record secret : Type := mkSecret {
  sec_name : string;
  sec_namespace : string;
  sec_labels : gmap string string;
  sec_string_data : gmap string string;
}.

Record pod_spec : Type := mkPodSpec {
  ps_restart_policy : string;
  ps_automount_token : bool;
  ps_grace_s : Z;
  ps_image : string;
  ps_pull_policy : string;
  ps_env : list env_var;
  ps_resources : option fields;
  ps_node_selector : option fields;
  ps_tolerations : list fields;
}.

Record job_spec : Type := mkJobSpec {
  js_completion_mode : string;
  js_parallelism : option Z;
  js_completions : option Z;
  js_backoff_limit : Z;
  js_ttl_s : Z;
  js_template_labels : gmap string string;
  js_pod : pod_spec;
  js_active_deadline : option Z;
}.

(** A Job: what is posted, and what the cluster adds. *)
Record job : Type := mkJob {
  jb_name : string;
  jb_namespace : string;
  jb_labels : gmap string string;
  jb_spec : job_spec;
  jb_uid : option string;
  jb_active : option Z;
}.

Record pod : Type := mkPod {
  pd_name : option string;
  pd_annotations : gmap string string;
  pd_node : option string;
  pd_phase : option string;
}.

(** ** The API *)

(** An error with an HTTP status, or of another kind (its class name). *)
Inductive api_error : Type := ApiStatus (status : Z) | ApiOther (cls : string).
Abbreviation api A := (api_error + A)%type.

Inductive job_patch : Type := PatchSize (n : Z) | PatchDeadline (seconds : Z).

Class Cluster (W : Type) : Type := {
  create_namespaced_secret : string -> secret -> W -> W * api unit;
  patch_namespaced_secret : string -> string -> string * string -> W -> W * api unit;
  delete_namespaced_secret : string -> string -> W -> W * api unit;
  create_namespaced_job : string -> job -> W -> W * api job;
  patch_namespaced_job : string -> string -> job_patch -> W -> W * api unit;
  delete_namespaced_job : string -> string -> option Z -> W -> W * api unit;
  read_namespaced_job : string -> string -> W -> W * api job;
  list_namespaced_job : string -> W -> W * api (list job);
  list_namespaced_pod : string -> string -> W -> W * api (list pod);
  read_namespaced_pod_log : string -> string -> option Z -> W -> W * api string;
}.

(** [_call]: the two kinds of driver error, [NotFound] and the rest. *)
Inductive call_error : Type := NotFound (msg : string) | Failed (msg : string).

Definition call_error_of (name : string) (e : api_error) : call_error :=
  match e with
  | ApiStatus s =>
      let msg := "k8s " +:+ name +:+ " -> HTTP " +:+ pretty s in
      if s =? 404 then NotFound msg else Failed msg
  | ApiOther cls => Failed ("k8s " +:+ name +:+ " failed: " +:+ cls)
  end.

Definition call {W A} (name : string) (op : W -> W * api A) (w : W) : W * (call_error + A) :=
  match op w with (w', inl e) => (w', inl (call_error_of name e)) | (w', inr a) => (w', inr a) end.

(** Both are [DriverError]s to a caller. *)
Definition escape (e : call_error) : exn := match e with NotFound m | Failed m => DriverError m end.

(** ** Reading what the cluster returns *)

(** [_job_run_id] *)
Definition strip_run_prefix (name : string) : option string :=
  String.string_of_list_ascii <$> strip_prefix (String.list_ascii_of_string "stoker-run-") (String.list_ascii_of_string name).
Definition job_run_id (j : job) : option Z :=
  match jb_labels j !! "stoker.run" with
  | Some raw => int_of_string raw
  | None => strip_run_prefix (jb_name j) ≫= int_of_string
  end.

Definition uid_of (j : job) : string := default "" (jb_uid j).
Definition job_parallelism (j : job) : Z := default 0 (js_parallelism (jb_spec j)).
Definition job_active (j : job) : Z := default 0 (jb_active j).

Definition pod_completion_index (p : pod) : option Z :=
  let get k := match pd_annotations p !! k with Some s => if nonempty s then Some s else None | None => None end in
  raw ← match get "batch.kubernetes.io/job-completion-index" with
        | Some s => Some s
        | None => pd_annotations p !! "batch.alpha.kubernetes.io/job-completion-index"
        end;
  int_of_string raw.

Definition pod_view (p : pod) : option Z * option string := (pod_completion_index p, pd_phase p).

(** ** Building manifests *)

Definition TOLERATION_KEYS : list string := ["key"; "operator"; "value"; "effect"; "tolerationSeconds"].

(** [entry.get(k) not in (None, "")] *)
Definition given_field (entry : fields) (k : string) : option (string * pyval) :=
  match snd <$> List.find (fun kv => bool_decide (kv.1 = k)) entry with
  | Some v => if py_eqb v VNone || py_eqb v (VStr "") then None else Some (k, v)
  | None => None
  end.

Definition field_of (entry : fields) (k : string) : option pyval := snd <$> List.find (fun kv => bool_decide (kv.1 = k)) entry.

(** [_clean_tolerations]; [None] is a value that is not a list, or an entry that is not
    an object. *)
Definition clean_tolerations (tolerations : option (list (option fields))) : list fields :=
  omap (fun entry : option fields =>
    e ← entry;
    let tol := omap (given_field e) TOLERATION_KEYS in
    if match field_of tol "key" with Some _ => true | None => false end ||
       match field_of tol "operator" with Some v => py_eqb v (VStr "Exists") | None => false end
    then Some tol else None) (default [] tolerations).

(** The nested options of a spec's [driver_opts]; [None] where the value is not an object. *)
Record placement : Type := mkPlacement {
  pl_resources : option fields;
  pl_node_selector : option fields;
  pl_tolerations : option (list (option fields));
}.

Record K8sDriver (W : Type) : Type := mkK8sDriver {
  kd_namespace : string;
  kd_node_selector : option fields;
  kd_tolerations : list fields;
  kd_resources : option fields;
  kd_cluster : W;
}.
Arguments mkK8sDriver {W}. Arguments kd_namespace {W}. Arguments kd_node_selector {W}.
Arguments kd_tolerations {W}. Arguments kd_resources {W}. Arguments kd_cluster {W}.

(** [dict(x) if x else None] *)
Definition nonempty_fields (f : option fields) : option fields := match f with Some [] => None | _ => f end.

(** [K8sDriver(...)] *)
Definition new_k8s {W} (namespace : string) (node_selector resources : option fields)
    (tolerations : option (list (option fields))) (w : W) : K8sDriver W :=
  mkK8sDriver (if nonempty namespace then namespace else "stoker") (nonempty_fields node_selector)
    (clean_tolerations tolerations) (nonempty_fields resources) w.

(** [opts.get(k)] when it is a non-empty object, else the fleet's default. *)
Definition or_default (own fleet : option fields) : option fields :=
  match nonempty_fields own with Some f => Some f | None => nonempty_fields fleet end.

Section Manifest.
Context {R : Rounding}.

(** [_active_deadline] *)
Definition active_deadline (run : RunSnapshot) : option Z :=
  match dget (rs_driver_opts run) "duration_s" with
  | VNone => None
  | v =>
      d ← match v with VStr s => float_of_string s | _ => rnd <$> num_of v end;
      if Qle_bool d 0 then None else Some (py_int d + 300)
  end.

Definition key_leb (a b : string * string) : Prop := String.leb a.1 b.1 = true.
Global Instance key_leb_dec : RelDecision key_leb.
Proof. intros a b. unfold key_leb. apply _. Defined.

Definition INDEX_PATH : string := "metadata.annotations['batch.kubernetes.io/job-completion-index']".

(** [_env_vars] *)
Definition env_vars (run : RunSnapshot) : list env_var :=
  ((fun kv => mkEnvVar kv.1 (EnvValue kv.2)) <$> filter (fun kv => kv.1 <> HEC_ENV) (merge_sort key_leb (map_to_list (rs_env run)))) ++
  (match rs_env run !! HEC_ENV with
   | Some _ => [mkEnvVar HEC_ENV (SecretKeyRef (secret_name (rs_run_id run)) HEC_SECRET_KEY)]
   | None => []
   end) ++
  [mkEnvVar "STOKER_HINT_SLOT" (FieldRef INDEX_PATH)].

(** [labels.setdefault("stoker.run", str(run_id))] *)
Definition run_labels (run : RunSnapshot) : gmap string string :=
  match rs_labels run !! "stoker.run" with
  | Some _ => rs_labels run
  | None => <[ "stoker.run" := pretty (rs_run_id run) ]> (rs_labels run)
  end.

Definition job_manifest {W} (d : K8sDriver W) (pl : placement) (run : RunSnapshot) (workers : Z) : job :=
  let tolerations := clean_tolerations (pl_tolerations pl) in
  mkJob (job_name (rs_run_id run)) (kd_namespace d) (run_labels run)
    (mkJobSpec "Indexed" (Some workers) (Some workers) (3 * workers) 3600 (run_labels run)
       (mkPodSpec "OnFailure" false (rs_stop_grace_s run) (rs_image run) "Always" (env_vars run)
          (or_default (pl_resources pl) (kd_resources d)) (or_default (pl_node_selector pl) (kd_node_selector d))
          (match tolerations with [] => kd_tolerations d | _ => tolerations end))
       (active_deadline run))
    None None.

Definition secret_manifest {W} (d : K8sDriver W) (run : RunSnapshot) (token : string) : secret :=
  mkSecret (secret_name (rs_run_id run)) (kd_namespace d) {[ "stoker.run" := pretty (rs_run_id run) ]}
    {[ HEC_SECRET_KEY := token ]}.
End Manifest.

(** ** Operations *)

Section Operations.
Context {R : Rounding} {W : Type} `{Cluster W} (repr_float : Q -> string).

Definition set_cluster (w : W) (d : K8sDriver W) : K8sDriver W :=
  mkK8sDriver (kd_namespace d) (kd_node_selector d) (kd_tolerations d) (kd_resources d) w.

(** [str((ref.raw or {}).get("namespace") or self._namespace)] *)
Definition namespace_of (d : K8sDriver W) (ref : DriverRef) : string :=
  let v := dget (ref_raw ref) "namespace" in if truthy v then py_str repr_float v else kd_namespace d.

(** [name.rsplit("-", 1)[-1]] *)
Fixpoint after_last_dash (acc t : text) : text :=
  match t with [] => acc | c :: t' => if Ascii.eqb c "-"%char then after_last_dash t' t' else after_last_dash acc t' end.

(** [_run_label] *)
Definition run_label (ref : DriverRef) : string :=
  match dget (ref_raw ref) "run_id" with
  | VNone =>
      let v := dget (ref_raw ref) "name" in
      let name := if truthy v then py_str repr_float v else ref_id ref in
      let t := String.list_ascii_of_string name in String.string_of_list_ascii (after_last_dash t t)
  | v => py_str repr_float v
  end.

(** [_adopt_secret], [_delete_secret_quietly]: failures are swallowed. *)
Definition adopt_secret (ns s_name j_name uid : string) (w : W) : W :=
  fst (call "patch_namespaced_secret" (patch_namespaced_secret s_name ns (j_name, uid)) w).
Definition delete_secret_quietly (ns s_name : string) (w : W) : W :=
  fst (call "delete_namespaced_secret" (delete_namespaced_secret s_name ns) w).

(** The Secret of a run with a token, before its Job. *)
Definition create_secret (d : K8sDriver W) (run : RunSnapshot) (token : option string) : W * (call_error + unit) :=
  match token with
  | Some t => call "create_namespaced_secret" (create_namespaced_secret (kd_namespace d) (secret_manifest d run t)) (kd_cluster d)
  | None => (kd_cluster d, inr tt)
  end.

Definition hec_token_of (run : RunSnapshot) : option string :=
  match rs_env run !! HEC_ENV with Some t => if nonempty t then Some t else None | None => None end.

Definition create_placed (pl : placement) (d : K8sDriver W) (run : RunSnapshot) (workers : Z) : K8sDriver W * result DriverRef :=
  if workers <? 1 then (d, Raise (DriverError "workers must be >= 1"))
  else
    let ns := kd_namespace d in
    let s_name := secret_name (rs_run_id run) in
    let j_name := job_name (rs_run_id run) in
    let hec_token := hec_token_of run in
    match create_secret d run hec_token with
    | (w, inl e) => (set_cluster w d, Raise (escape e))
    | (w, inr _) =>
        match call "create_namespaced_job" (create_namespaced_job ns (job_manifest d pl run workers)) w with
        | (w, inl e) =>
            (set_cluster (match hec_token with Some _ => delete_secret_quietly ns s_name w | None => w end) d, Raise (escape e))
        | (w, inr created) =>
            let uid := uid_of created in
            let w := match hec_token with
                     | Some _ => if nonempty uid then adopt_secret ns s_name j_name uid w else w
                     | None => w
                     end in
            (set_cluster w d,
             Ok (mkDriverRef KIND j_name
                   (<[ "run_id" := VInt (rs_run_id run) ]> (<[ "name" := VStr j_name ]> (<[ "namespace" := VStr ns ]>
                   (<[ "secret" := VStr s_name ]> {[ "uid" := VStr uid ]}))))))
        end
    end.

(** A spec whose [driver_opts] are scalars places nothing of its own. *)
Definition no_placement : placement := mkPlacement None None None.
Definition create : K8sDriver W -> RunSnapshot -> Z -> K8sDriver W * result DriverRef := create_placed no_placement.

Definition scale (d : K8sDriver W) (ref : DriverRef) (workers : Z) : K8sDriver W * result unit :=
  if workers <? 0 then (d, Raise (DriverError "workers must be >= 0"))
  else
    match call "patch_namespaced_job" (patch_namespaced_job (ref_id ref) (namespace_of d ref) (PatchSize workers)) (kd_cluster d) with
    | (w, inl e) => (set_cluster w d, Raise (escape e))
    | (w, inr _) => (set_cluster w d, Ok tt)
    end.

Definition deadline_seconds (duration_s paused_s : Q) : Z :=
  py_int duration_s + 300 + Qceiling (if Qle_bool paused_s 0 then 0 else paused_s).

Definition extend_deadline (d : K8sDriver W) (ref : DriverRef) (duration_s paused_s : Q) : K8sDriver W * result unit :=
  if Qle_bool duration_s 0 then (d, Ok tt)
  else
    match call "patch_namespaced_job" (patch_namespaced_job (ref_id ref) (namespace_of d ref)
                 (PatchDeadline (deadline_seconds duration_s paused_s))) (kd_cluster d) with
    | (w, inl e) => (set_cluster w d, Raise (escape e))
    | (w, inr _) => (set_cluster w d, Ok tt)
    end.

(** Delete the Job; one that is gone already is a success. *)
Definition delete_job (d : K8sDriver W) (ref : DriverRef) (grace_s : option Z) : K8sDriver W * result unit :=
  match call "delete_namespaced_job" (delete_namespaced_job (ref_id ref) (namespace_of d ref) grace_s) (kd_cluster d) with
  | (w, inl (NotFound _)) | (w, inr _) => (set_cluster w d, Ok tt)
  | (w, inl e) => (set_cluster w d, Raise (escape e))
  end.

Definition stop (d : K8sDriver W) (ref : DriverRef) (grace_s : Z) : K8sDriver W * result unit := delete_job d ref (Some grace_s).
Definition destroy (d : K8sDriver W) (ref : DriverRef) : K8sDriver W * result unit := delete_job d ref None.

Definition is_running (t : option Z * option string) : bool :=
  match t.2 with Some s => bool_decide (s ∈ RUNNING_PHASES) | None => false end.

Definition status (d : K8sDriver W) (ref : DriverRef) : K8sDriver W * result DriverStatus :=
  let ns := namespace_of d ref in
  match call "read_namespaced_job" (read_namespaced_job (ref_id ref) ns) (kd_cluster d) with
  | (w, inl (NotFound _)) => (set_cluster w d, Ok (mkDriverStatus 0 0 []))
  | (w, inl e) => (set_cluster w d, Raise (escape e))
  | (w, inr j) =>
      match call "list_namespaced_pod" (list_namespaced_pod ns ("stoker.run=" +:+ run_label ref)) w with
      | (w, inl _) => (set_cluster w d, Ok (mkDriverStatus (job_parallelism j) (job_active j) []))
      | (w, inr pods) =>
          let tasks := pod_view <$> pods in
          (set_cluster w d, Ok (mkDriverStatus (job_parallelism j) (Z.of_nat (length (List.filter is_running tasks))) tasks))
      end
  end.

(** The logs of the pods one after the other. *)
Fixpoint pod_logs (ns : string) (slot : option Z) (tail : Z) (pods : list pod) (w : W) : W * list string :=
  match pods with
  | [] => (w, [])
  | p :: pods =>
      if match slot with Some s => negb (bool_decide (pod_completion_index p = Some s)) | None => false end
      then pod_logs ns slot tail pods w
      else
        match pd_name p with
        | None => pod_logs ns slot tail pods w
        | Some name =>
            if negb (nonempty name) then pod_logs ns slot tail pods w
            else
              match call "read_namespaced_pod_log" (read_namespaced_pod_log name ns (if 0 <? tail then Some tail else None)) w with
              | (w, inl _) => pod_logs ns slot tail pods w
              | (w, inr text) =>
                  let '(w, chunks) := pod_logs ns slot tail pods w in
                  (w, if nonempty text then text :: chunks else chunks)
              end
        end
  end.

Definition logs (d : K8sDriver W) (ref : DriverRef) (slot : option Z) (tail : Z) : K8sDriver W * result string :=
  let ns := namespace_of d ref in
  match call "list_namespaced_pod" (list_namespaced_pod ns ("stoker.run=" +:+ run_label ref)) (kd_cluster d) with
  | (w, inl _) => (set_cluster w d, Ok "")
  | (w, inr pods) => let '(w, chunks) := pod_logs ns slot tail pods w in (set_cluster w d, Ok (String.concat Fake.newline chunks))
  end.

Definition list_run_ids (d : K8sDriver W) : K8sDriver W * result (gset Z) :=
  match call "list_namespaced_job" (list_namespaced_job (kd_namespace d)) (kd_cluster d) with
  | (w, inl e) => (set_cluster w d, Raise (escape e))
  | (w, inr jobs) => (set_cluster w d, Ok (list_to_set (omap job_run_id jobs)))
  end.

Instance k8s_driver : Driver (K8sDriver W) := {|
  drv_kind := fun _ => KIND;
  drv_namespace := fun d => Some (kd_namespace d);
  drv_create := create;
  drv_scale := scale;
  drv_stop := stop;
  drv_destroy := destroy;
  drv_status := status;
  drv_logs := logs;
  drv_list_run_ids := list_run_ids;
  drv_extend_deadline := Some extend_deadline;
|}.
End Operations.

(** ** Authentication of the client *)

(** Which of the two configurations is loaded; the loaders succeed or not. *)
Inductive kube_auth : Type := ServiceAccount | KubeConfig (context : option string).

Definition load_kube_auth (incluster_ok : bool) (kubeconfig_ok : option string -> bool)
    (context : option string) (in_cluster : option bool) : result kube_auth :=
  match in_cluster with
  | Some true => if incluster_ok then Ok ServiceAccount else Raise (DriverError "k8s auth: service account unavailable")
  | _ =>
      if match context with Some _ => true | None => false end || bool_decide (in_cluster = Some false) then
        if kubeconfig_ok context then Ok (KubeConfig context) else Raise (DriverError "k8s auth: could not load kubeconfig")
      else if kubeconfig_ok None then Ok (KubeConfig None)
      else if incluster_ok then Ok ServiceAccount
      else Raise (DriverError "k8s auth: no kubeconfig and no in-cluster service account")
  end.

(** ** What the driver relies on *)

(** The size and deadline a patch sets. *)
Definition patched (p : job_patch) (j : job) : job :=
  let s := jb_spec j in
  let set n c dl := mkJob (jb_name j) (jb_namespace j) (jb_labels j)
    (mkJobSpec (js_completion_mode s) n c (js_backoff_limit s) (js_ttl_s s) (js_template_labels s) (js_pod s) dl) (jb_uid j) (jb_active j) in
  match p with
  | PatchSize n => set (Some n) (Some n) (js_active_deadline s)
  | PatchDeadline seconds => set (js_parallelism s) (js_completions s) (Some seconds)
  end.

(** The objects of the cluster by namespace and name, and the documented behaviour of the
    calls.  [cl_*_frame]: whatever its outcome, a call on one object leaves the others. *)
Class ClusterLaws (W : Type) `{Cluster W} : Type := {
  cl_jobs : W -> gmap (string * string) job;
  cl_secrets : W -> gmap (string * string) secret;
  cl_list_jobs ns w : cl_jobs (fst (list_namespaced_job ns w)) = cl_jobs w;
  cl_read_job name ns w : cl_jobs (fst (read_namespaced_job name ns w)) = cl_jobs w;
  cl_read_job_ok name ns w j : snd (read_namespaced_job name ns w) = inr j -> cl_jobs w !! (ns, name) = Some j;
  cl_read_job_404 name ns w : snd (read_namespaced_job name ns w) = inl (ApiStatus 404) -> cl_jobs w !! (ns, name) = None;
  cl_patch_secret name ns o w : cl_jobs (fst (patch_namespaced_secret name ns o w)) = cl_jobs w;
  cl_create_secret_err ns s w n : snd (create_namespaced_secret ns s w) = inl (ApiStatus n) ->
    cl_secrets (fst (create_namespaced_secret ns s w)) = cl_secrets w;
  cl_create_secret_frame ns s w k : k <> (ns, sec_name s) ->
    cl_secrets (fst (create_namespaced_secret ns s w)) !! k = cl_secrets w !! k;
  cl_delete_secret_ok name ns w : snd (delete_namespaced_secret name ns w) = inr tt ->
    cl_secrets (fst (delete_namespaced_secret name ns w)) = delete (ns, name) (cl_secrets w);
  cl_create_job_secrets ns j w : cl_secrets (fst (create_namespaced_job ns j w)) = cl_secrets w;
  cl_create_job_ok ns j w j' : snd (create_namespaced_job ns j w) = inr j' ->
    cl_jobs (fst (create_namespaced_job ns j w)) !! (ns, jb_name j) = Some j' /\ jb_spec j' = jb_spec j;
  cl_patch_job_ok name ns p w : snd (patch_namespaced_job name ns p w) = inr tt ->
    cl_jobs (fst (patch_namespaced_job name ns p w)) = alter (patched p) (ns, name) (cl_jobs w) /\ is_Some (cl_jobs w !! (ns, name));
  cl_delete_job_frame name ns g w k : k <> (ns, name) ->
    cl_jobs (fst (delete_namespaced_job name ns g w)) !! k = cl_jobs w !! k;
  cl_delete_job_same name ns g w j :
    cl_jobs (fst (delete_namespaced_job name ns g w)) !! (ns, name) = Some j -> cl_jobs w !! (ns, name) = Some j;
}.

Lemma call_fst {W A} name (op : W -> W * api A) w : fst (call name op w) = fst (op w).
Proof. unfold call. by destruct (op w) as [w' [e|a]]. Qed.

Lemma call_inr {W A} name (op : W -> W * api A) w w' a : call name op w = (w', inr a) -> op w = (w', inr a).
Proof. unfold call. destruct (op w) as [w1 [e|a1]]; congruence. Qed.

Section Laws.
Context {R : Rounding} {W : Type} `{ClusterLaws W} (repr_float : Q -> string).
#[local] Existing Instance k8s_driver.

(** ** The laws of the driver *)

(** Every Job the sweep would count as run [q]'s in this namespace is named for it. *)
Definition k8s_wf (d : K8sDriver W) : Prop :=
  forall name j q, cl_jobs (kd_cluster d) !! (kd_namespace d, name) = Some j -> job_run_id j = Some q -> name = job_name q.

Definition owned_job (ns : string) (kj : (string * string) * job) : option Z :=
  if bool_decide (kj.1.1 = ns) then job_run_id kj.2 else None.
Definition k8s_owned (d : K8sDriver W) : gset Z :=
  list_to_set (omap (owned_job (kd_namespace d)) (map_to_list (cl_jobs (kd_cluster d)))).

Lemma elem_of_owned d q : q ∈ k8s_owned d <->
  exists name j, cl_jobs (kd_cluster d) !! (kd_namespace d, name) = Some j /\ job_run_id j = Some q.
Proof.
  unfold k8s_owned. rewrite elem_of_list_to_set, list_elem_of_omap. unfold owned_job. split.
  - intros ([[ns name] j] & Hin & E). apply elem_of_map_to_list in Hin. cbn in E. case_bool_decide as En; [|done]. cbn in En. subst. eauto.
  - intros (name & j & Hl & E). exists ((kd_namespace d, name), j). split; [by apply elem_of_map_to_list|]. cbn. by rewrite bool_decide_true.
Qed.

Lemma job_name_inj q r : job_name q = job_name r -> q = r.
Proof. unfold job_name. intros E. apply (inj (String.app "stoker-run-")) in E. by apply (inj pretty) in E. Qed.

Lemma delete_job_frame d ref g k :
  k <> (namespace_of repr_float d ref, ref_id ref) ->
  cl_jobs (kd_cluster (fst (delete_job repr_float d ref g))) !! k = cl_jobs (kd_cluster d) !! k.
Proof.
  intros Hk. unfold delete_job. pose proof (call_fst "delete_namespaced_job" (delete_namespaced_job (ref_id ref) (namespace_of repr_float d ref) g) (kd_cluster d)) as E.
  destruct (call _ _ _) as [w [[?|?]|?]]; cbn in *; subst w; by apply cl_delete_job_frame.
Qed.

Lemma delete_job_shrinks d ref g k j :
  cl_jobs (kd_cluster (fst (delete_job repr_float d ref g))) !! k = Some j -> cl_jobs (kd_cluster d) !! k = Some j.
Proof.
  destruct (decide (k = (namespace_of repr_float d ref, ref_id ref))) as [->|Hk]; [|by rewrite delete_job_frame].
  unfold delete_job. pose proof (call_fst "delete_namespaced_job" (delete_namespaced_job (ref_id ref) (namespace_of repr_float d ref) g) (kd_cluster d)) as E.
  destruct (call _ _ _) as [w [[?|?]|?]]; cbn in *; subst w; apply cl_delete_job_same.
Qed.

Lemma delete_job_ns d ref g : kd_namespace (fst (delete_job repr_float d ref g)) = kd_namespace d.
Proof. unfold delete_job. by destruct (call _ _ _) as [w [[?|?]|?]]. Qed.

Lemma list_run_ids_jobs d : cl_jobs (kd_cluster (fst (list_run_ids d))) = cl_jobs (kd_cluster d) /\
  kd_namespace (fst (list_run_ids d)) = kd_namespace d.
Proof.
  unfold list_run_ids. pose proof (call_fst "list_namespaced_job" (list_namespaced_job (kd_namespace d)) (kd_cluster d)) as E.
  destruct (call _ _ _) as [w [?|?]]; cbn in *; subst w; split; (apply cl_list_jobs || done).
Qed.

Instance k8s_driver_laws : @DriverLaws (K8sDriver W) (k8s_driver repr_float).
Proof.
  refine {| drv_wf := k8s_wf; drv_owned := k8s_owned |}.
  - intros d d' res Hwf E. cbn in E. destruct (list_run_ids_jobs d) as [Ej En]. rewrite E in Ej, En. cbn in Ej, En.
    unfold k8s_wf, k8s_owned in *. by rewrite Ej, En.
  - intros d d' res ref r q Hwf [Hid _] E. cbn in E. unfold destroy in E.
    pose proof (delete_job_ns d ref None) as En. pose proof (delete_job_shrinks d ref None) as Hs. pose proof (delete_job_frame d ref None) as Hf.
    rewrite E in En, Hs, Hf. cbn in En, Hs, Hf. split.
    + intros name j q' Hl. rewrite En in Hl. by apply (Hwf name j q'), Hs.
    + intros Hq. rewrite !elem_of_owned, En. intros (name & j & Hl & Ej). exists name, j. split; [|done].
      rewrite Hf; [done|]. intros [= _ Hn]. apply (Hwf name j q Hl) in Ej. subst name. apply Hq, job_name_inj. rewrite Hn. exact Hid.
Defined.

(** ** The size of a fleet *)

Lemma namespace_of_created ns s_name uid run_id (d : K8sDriver W) : ns = kd_namespace d ->
  namespace_of repr_float d (mkDriverRef KIND (job_name run_id)
    (<[ "run_id" := VInt run_id ]> (<[ "name" := VStr (job_name run_id) ]> (<[ "namespace" := VStr ns ]>
      (<[ "secret" := VStr s_name ]> {[ "uid" := VStr uid ]}))))) = kd_namespace d.
Proof.
  intros ->. unfold namespace_of, dget. cbn [ref_raw]. rewrite !lookup_insert_ne by done. rewrite lookup_insert_eq. cbn.
  by destruct (bool_decide (kd_namespace d = "")).
Qed.

Lemma adopt_jobs ns s_name j_name uid w : cl_jobs (adopt_secret ns s_name j_name uid w) = cl_jobs w.
Proof. unfold adopt_secret. rewrite call_fst. apply cl_patch_secret. Qed.

(** The Job a served create leaves under the handle. *)
Lemma create_places pl (d : K8sDriver W) run n d' ref : create_placed pl d run n = (d', Ok ref) ->
  exists j, cl_jobs (kd_cluster d') !! (namespace_of repr_float d' ref, ref_id ref) = Some j /\ jb_spec j = jb_spec (job_manifest d pl run n).
Proof.
  unfold create_placed. destruct (n <? 1); [done|]. destruct (create_secret d run _) as [w1 [e|[]]]; [done|].
  destruct (call "create_namespaced_job" _ w1) as [w2 [e|j]] eqn:Ec; [done|]. apply call_inr in Ec.
  destruct (cl_create_job_ok (kd_namespace d) (job_manifest d pl run n) w1 j) as [Hj Hs]; [by rewrite Ec|]. rewrite Ec in Hj. cbn in Hj.
  intros [= <- <-]. exists j. split; [|done]. cbn [ref_id]. rewrite namespace_of_created by done. cbn [kd_namespace kd_cluster set_cluster].
  assert (forall w', cl_jobs w' = cl_jobs w2 -> cl_jobs w' !! (kd_namespace d, job_name (rs_run_id run)) = Some j) as Hw by (by intros w' ->).
  destruct (hec_token_of run); [|by apply Hw]. destruct (nonempty _); apply Hw; [apply adopt_jobs|done].
Qed.

Lemma scale_places d ref n d' : scale repr_float d ref n = (d', Ok tt) ->
  namespace_of repr_float d' ref = namespace_of repr_float d ref /\
  exists j, cl_jobs (kd_cluster d') !! (namespace_of repr_float d' ref, ref_id ref) = Some j /\
    js_parallelism (jb_spec j) = Some n /\ js_completions (jb_spec j) = Some n.
Proof.
  unfold scale. destruct (n <? 0); [done|]. destruct (call _ _ _) as [w [e|[]]] eqn:Ec; [done|]. apply call_inr in Ec. intros [= <-].
  split; [done|]. change (namespace_of repr_float (set_cluster w d) ref) with (namespace_of repr_float d ref).
  destruct (cl_patch_job_ok (ref_id ref) (namespace_of repr_float d ref) (PatchSize n) (kd_cluster d)) as [Ej [j Hj]]; [by rewrite Ec|].
  rewrite Ec in Ej. cbn in Ej. exists (patched (PatchSize n) j). cbn [kd_cluster set_cluster]. rewrite Ej, lookup_alter_eq, Hj. done.
Qed.

Lemma status_reads d ref d' st j : status repr_float d ref = (d', Ok st) ->
  cl_jobs (kd_cluster d) !! (namespace_of repr_float d ref, ref_id ref) = Some j -> st_desired st = job_parallelism j.
Proof.
  unfold status. destruct (read_namespaced_job (ref_id ref) (namespace_of repr_float d ref) (kd_cluster d)) as [w r] eqn:Er.
  unfold call at 1. rewrite Er. destruct r as [[s|cls]|j'].
  - cbn [call_error_of]. destruct (Z.eqb_spec s 404) as [->|]; [|done]. intros _ Hj.
    rewrite (cl_read_job_404 (ref_id ref) (namespace_of repr_float d ref) (kd_cluster d)) in Hj by (by rewrite Er). done.
  - done.
  - intros Hs Hj. rewrite (cl_read_job_ok (ref_id ref) (namespace_of repr_float d ref) (kd_cluster d) j') in Hj by (by rewrite Er).
    injection Hj as <-. destruct (call _ _ w) as [w' [e|pods]]; by injection Hs as <- <-.
Qed.

(** A fleet has the size it was last given: after a served create or scale to [n] workers,
    whatever status then answers is a fleet of [n]; a failure to read it is an error and
    never a fleet that is gone. *)
Theorem fleet_size_follows d ref n d' d'' st :
  (exists run, create d run n = (d', Ok ref)) \/ scale repr_float d ref n = (d', Ok tt) ->
  status repr_float d' ref = (d'', Ok st) -> st_desired st = n.
Proof.
  intros [[run Hc]|Hc] Hs.
  - destruct (create_places _ _ _ _ _ _ Hc) as (j & Hj & Ej). rewrite (status_reads _ _ _ _ _ Hs Hj). unfold job_parallelism. by rewrite Ej.
  - destruct (scale_places _ _ _ _ Hc) as (_ & j & Hj & Ep & _). rewrite (status_reads _ _ _ _ _ Hs Hj). unfold job_parallelism. by rewrite Ep.
Qed.

(** ** The Secret of a create that fails *)

(** A create that is refused leaves no credential behind: where the API answers and the
    clean-up is served, the namespace's Secrets are those from before. *)
Theorem failed_create_leaves_no_secret d run n d' e :
  cl_secrets (kd_cluster d) !! (kd_namespace d, secret_name (rs_run_id run)) = None ->
  (forall s w cls, snd (create_namespaced_secret (kd_namespace d) s w) <> inl (ApiOther cls)) ->
  (forall w, snd (delete_namespaced_secret (secret_name (rs_run_id run)) (kd_namespace d) w) = inr tt) ->
  create d run n = (d', Raise e) -> cl_secrets (kd_cluster d') = cl_secrets (kd_cluster d).
Proof.
  intros Hnone Hans Hdel. unfold create, create_placed. destruct (n <? 1); [by intros [= <- _]|].
  unfold create_secret. destruct (hec_token_of run) as [token|].
  - set (s := secret_manifest d run token). pose proof (Hans s (kd_cluster d)) as Ha.
    pose proof (cl_create_secret_err (kd_namespace d) s (kd_cluster d)) as He.
    pose proof (fun k => cl_create_secret_frame (kd_namespace d) s (kd_cluster d) k) as Hf.
    unfold call at 1. destruct (create_namespaced_secret (kd_namespace d) s (kd_cluster d)) as [w1 [[c|cls]|[]]]; cbn [fst snd] in *.
    + intros [= <- _]. by apply (He c).
    + by destruct (Ha cls).
    + pose proof (cl_create_job_secrets (kd_namespace d) (job_manifest d no_placement run n) w1) as Hj.
      rewrite <- (call_fst "create_namespaced_job") in Hj. destruct (call _ _ w1) as [w2 [e2|j]]; [|done]. cbn in Hj. intros [= <- _].
      unfold delete_secret_quietly. rewrite call_fst. cbn [kd_cluster set_cluster]. rewrite cl_delete_secret_ok, Hj by apply Hdel.
      apply map_eq. intros k. destruct (decide (k = (kd_namespace d, secret_name (rs_run_id run)))) as [->|Hk].
      * by rewrite lookup_delete_eq, Hnone.
      * rewrite lookup_delete_ne by done. by apply Hf.
  - pose proof (cl_create_job_secrets (kd_namespace d) (job_manifest d no_placement run n) (kd_cluster d)) as Hj.
    rewrite <- (call_fst "create_namespaced_job") in Hj. destruct (call _ _ (kd_cluster d)) as [w2 [e2|j]]; [|done]. cbn in Hj. by intros [= <- _].
Qed.
End Laws.

(** ** The deadline of a paused run *)

(** Extending moves the deadline to the run's duration, the margin and the time paused so
    far; extending again moves it from there, not on top. *)
Theorem deadline_does_not_compound {R : Rounding} {W : Type} `{ClusterLaws W} repr_float (d d1 d2 : K8sDriver W) ref duration p1 p2 j :
  (0 < duration)%Q -> cl_jobs (kd_cluster d) !! (namespace_of repr_float d ref, ref_id ref) = Some j ->
  extend_deadline repr_float d ref duration p1 = (d1, Ok tt) -> extend_deadline repr_float d1 ref duration p2 = (d2, Ok tt) ->
  exists j', cl_jobs (kd_cluster d2) !! (namespace_of repr_float d2 ref, ref_id ref) = Some j' /\
    js_active_deadline (jb_spec j') = Some (deadline_seconds duration p2) /\ js_parallelism (jb_spec j') = js_parallelism (jb_spec j) /\
    js_pod (jb_spec j') = js_pod (jb_spec j).
Proof.
  intros Hd Hj. unfold extend_deadline. assert (Qle_bool duration 0 = false) as ->.
  { apply not_true_iff_false. intros ?%Qle_bool_iff. by apply (Qlt_not_le _ _ Hd). }
  destruct (call _ _ (kd_cluster d)) as [w1 [?|[]]] eqn:E1; [done|]. intros [= <-].
  match goal with |- context [call ?n ?o ?w] => destruct (call n o w) as [w2 [?|[]]] eqn:E2 end; [done|]. intros [= <-]. apply call_inr in E1, E2.
  cbn [kd_cluster set_cluster] in E2. change (namespace_of repr_float (set_cluster w1 d) ref) with (namespace_of repr_float d ref) in *.
  pose proof (cl_patch_job_ok (ref_id ref) (namespace_of repr_float d ref) (PatchDeadline (deadline_seconds duration p1)) (kd_cluster d)) as Hp1.
  pose proof (cl_patch_job_ok (ref_id ref) (namespace_of repr_float d ref) (PatchDeadline (deadline_seconds duration p2)) w1) as Hp2.
  rewrite E1 in Hp1. rewrite E2 in Hp2. destruct (Hp1 eq_refl) as [Ej1 _]. destruct (Hp2 eq_refl) as [Ej2 _]. cbn [fst] in Ej1, Ej2.
  eexists. split; [|split; [|split]].
  - change (namespace_of repr_float (set_cluster w2 (set_cluster w1 d)) ref) with (namespace_of repr_float d ref).
    cbn [kd_cluster set_cluster]. rewrite Ej2, Ej1, !lookup_alter_eq, Hj. reflexivity.
  - reflexivity.
  - reflexivity.
  - reflexivity.
Qed.

(** ** What a pod starts with *)

(** The value a source stands for in the pod of completion index [idx]. *)
Definition resolves (sec : secret) (idx : Z) (src : env_source) (v : string) : Prop :=
  match src with
  | EnvValue s => v = s
  | SecretKeyRef name key => sec_name sec = name -> sec_string_data sec !! key = Some v
  | FieldRef path => path = INDEX_PATH -> v = pretty idx
  end.

(** The environment Kubernetes gives the container: every variable of its spec, and of the
    contract's variables no other.  A literal value arrives as it is written: the expansion
    of [$(NAME)] and [$$] in it is not modelled, and the projected values hold neither unless
    a URL or a name of the operator's does. *)
Definition pod_environ (vars : list env_var) (sec : secret) (idx : Z) (env : environ) : Prop :=
  (forall x, x ∈ vars -> exists v, env !! ev_name x = Some v /\ resolves sec idx (ev_source x) v) /\
  (forall k, k ∈ CONTRACT -> (forall x, x ∈ vars -> ev_name x <> k) -> env !! k = None).

Lemma elem_of_env_vars run x : x ∈ env_vars run <->
  (exists k v, rs_env run !! k = Some v /\ k <> HEC_ENV /\ x = mkEnvVar k (EnvValue v)) \/
  (is_Some (rs_env run !! HEC_ENV) /\ x = mkEnvVar HEC_ENV (SecretKeyRef (secret_name (rs_run_id run)) HEC_SECRET_KEY)) \/
  x = mkEnvVar "STOKER_HINT_SLOT" (FieldRef INDEX_PATH).
Proof.
  unfold env_vars. rewrite !elem_of_app, list_elem_of_fmap, list_elem_of_singleton. split.
  - intros [([k v] & -> & Hin)|[Hin|Hin]].
    + left. apply list_elem_of_filter in Hin as [Hne Hin]. rewrite merge_sort_Permutation in Hin. apply elem_of_map_to_list in Hin. eauto.
    + right. left. destruct (rs_env run !! HEC_ENV); [|by apply elem_of_nil in Hin]. apply list_elem_of_singleton in Hin. eauto.
    + auto.
  - intros [(k & v & Hl & Hne & ->)|[[[t Ht] ->]| ->]].
    + left. exists (k, v). split; [done|]. apply list_elem_of_filter. split; [done|]. rewrite merge_sort_Permutation. by apply elem_of_map_to_list.
    + right. left. rewrite Ht. by apply list_elem_of_singleton.
    + auto.
Qed.

(** C37: A pod of the run's Job starts as the run was launched.  Whatever the placement, the pod of
    completion index [idx] loads the configuration of the run's environment with that index as
    its slot hint and the token that is in the run's Secret; and in the Job itself the token's
    variable only refers to the Secret. *)
Theorem pod_loads_launch {W D : Type} `{Env D} {R : Rounding} exists_path hostname (d : K8sDriver W) pl run
    run_id idx workers jwt token spec target env :
  launchable run_id idx workers jwt token spec ->
  rs_env run = projected run_id workers jwt token spec target ->
  pod_environ (ps_env (js_pod (jb_spec (job_manifest d pl run workers)))) (secret_manifest d run token) idx env ->
  (exists c, load_config exists_path hostname env = Ok c /\ launched_as hostname run_id idx workers jwt token spec target None c) /\
  (forall x, x ∈ ps_env (js_pod (jb_spec (job_manifest d pl run workers))) -> ev_name x = HEC_ENV ->
     ev_source x = SecretKeyRef (secret_name (rs_run_id run)) HEC_SECRET_KEY).
Proof.
  intros Hl Er [Hin Hout]. cbn [job_manifest jb_spec js_pod ps_env] in *.
  assert (projected run_id workers jwt token spec target !! HEC_ENV = Some token) as Ht.
  { unfold HEC_ENV. rewrite lookup_projected. cbv zeta. decide_names. rewrite (nonempty_token _ _ _ _ _ _ Hl).
    destruct ca_bundle_pem; decide_names; done. }
  assert (forall k, k ∈ CONTRACT -> k <> "STOKER_HINT_SLOT" -> env !! k = projected run_id workers jwt token spec target !! k) as Henv.
  { intros k Hk Hne. destruct (projected _ _ _ _ _ _ !! k) as [v|] eqn:Ek.
    - destruct (decide (k = HEC_ENV)) as [->|Hh].
      + destruct (Hin (mkEnvVar HEC_ENV (SecretKeyRef (secret_name (rs_run_id run)) HEC_SECRET_KEY))) as (v' & E & Hv).
           { apply elem_of_env_vars. right. left. rewrite Er, Ek. eauto. }
           cbn in E. rewrite E. specialize (Hv eq_refl). cbn [secret_manifest sec_string_data] in Hv. rewrite lookup_singleton_eq in Hv. congruence.
      + destruct (Hin (mkEnvVar k (EnvValue v))) as (v' & E & Hv); [|cbn in E, Hv; by subst v'].
           apply elem_of_env_vars. left. exists k, v. by rewrite Er.
    - apply Hout; [done|]. intros x Hx. apply elem_of_env_vars in Hx as [(k' & v & Hl' & _ & ->)|[[[t Ht'] ->]| ->]]; cbn.
      + rewrite Er in Hl'. congruence.
      + rewrite Er in Ht'. intros <-. congruence.
      + congruence. }
  assert (env_get env "STOKER_CA_BUNDLE" = None) as Hca.
  { apply env_get_none. rewrite Henv; [apply projected_no_path|listed|done]. }
  split.
  - rewrite <- Hca. eapply projected_read; [exact Hl|intros k Hk Hne _; by apply Henv| |by rewrite Hca].
    destruct (Hin (mkEnvVar "STOKER_HINT_SLOT" (FieldRef INDEX_PATH))) as (v & E & Hv); [apply elem_of_env_vars; auto|].
    cbn in E, Hv. by rewrite E, Hv.
  - intros x Hx Hn. apply elem_of_env_vars in Hx as [(k & v & _ & Hk & ->)|[[_ ->]| ->]]; cbn in *; [done|done|by vm_compute in Hn].
Qed.

(** ** A cluster in memory *)

(** Jobs and Secrets by namespace and name; [mc_full] refuses new Jobs. *)
Record memory : Type := mkMemory {
  mc_jobs : gmap (string * string) job;
  mc_secrets : gmap (string * string) secret;
  mc_full : bool;
}.

Definition with_jobs (js : gmap (string * string) job) (w : memory) : memory := mkMemory js (mc_secrets w) (mc_full w).
Definition with_secrets (ss : gmap (string * string) secret) (w : memory) : memory := mkMemory (mc_jobs w) ss (mc_full w).

Definition mem_create_secret (ns : string) (s : secret) (w : memory) : memory * api unit :=
  match mc_secrets w !! (ns, sec_name s) with
  | Some _ => (w, inl (ApiStatus 409))
  | None => (with_secrets (<[ (ns, sec_name s) := s ]> (mc_secrets w)) w, inr tt)
  end.
Definition mem_delete_secret (name ns : string) (w : memory) : memory * api unit :=
  (with_secrets (delete (ns, name) (mc_secrets w)) w, inr tt).
Definition mem_create_job (ns : string) (j : job) (w : memory) : memory * api job :=
  if mc_full w then (w, inl (ApiStatus 403))
  else
    match mc_jobs w !! (ns, jb_name j) with
    | Some _ => (w, inl (ApiStatus 409))
    | None =>
        let j' := mkJob (jb_name j) (jb_namespace j) (jb_labels j) (jb_spec j) (Some "uid-1") (Some 0) in
        (with_jobs (<[ (ns, jb_name j) := j' ]> (mc_jobs w)) w, inr j')
    end.
Definition mem_patch_job (name ns : string) (p : job_patch) (w : memory) : memory * api unit :=
  match mc_jobs w !! (ns, name) with
  | None => (w, inl (ApiStatus 404))
  | Some _ => (with_jobs (alter (patched p) (ns, name) (mc_jobs w)) w, inr tt)
  end.
Definition mem_delete_job (name ns : string) (g : option Z) (w : memory) : memory * api unit :=
  match mc_jobs w !! (ns, name) with
  | None => (w, inl (ApiStatus 404))
  | Some _ => (with_jobs (delete (ns, name) (mc_jobs w)) w, inr tt)
  end.
Definition mem_read_job (name ns : string) (w : memory) : memory * api job :=
  match mc_jobs w !! (ns, name) with None => (w, inl (ApiStatus 404)) | Some j => (w, inr j) end.

Instance memory_cluster : Cluster memory := {|
  create_namespaced_secret := mem_create_secret;
  patch_namespaced_secret := fun _ _ _ w => (w, inr tt);
  delete_namespaced_secret := mem_delete_secret;
  create_namespaced_job := mem_create_job;
  patch_namespaced_job := mem_patch_job;
  delete_namespaced_job := mem_delete_job;
  read_namespaced_job := mem_read_job;
  list_namespaced_job := fun ns w => (w, inr ((snd <$> filter (fun kj => kj.1.1 = ns) (map_to_list (mc_jobs w))) : list job));
  list_namespaced_pod := fun _ _ w => (w, inr []);
  read_namespaced_pod_log := fun _ _ _ w => (w, inr "");
|}.

Instance memory_laws : ClusterLaws memory.
Proof.
  refine {| cl_jobs := mc_jobs; cl_secrets := mc_secrets |}; cbn; unfold mem_create_secret, mem_delete_secret, mem_create_job,
    mem_patch_job, mem_delete_job, mem_read_job; intros; repeat case_match; cbn in *; simplify_eq; try done;
    rewrite ?lookup_insert_ne, ?lookup_insert_eq, ?lookup_delete_ne, ?lookup_delete_eq in * by done; done.
Defined.

Definition demo_snapshot : RunSnapshot :=
  mkRunSnapshot 42 "worker:1" (projected 42 3 "jwt-42" "s3cret" (demo_spec 3) demo_target) {[ "stoker.run" := "42" ]} ∅ 45.
Definition demo_driver (full : bool) : K8sDriver memory := new_k8s "stoker" None None None (mkMemory ∅ ∅ full).

Lemma fleet_size_follows_witness :
  match create (R := exact) (demo_driver false) demo_snapshot 3 with
  | (d', Ok ref) => match status (fun _ => "") d' ref with (_, Ok st) => st_desired st = 3 | _ => False end
  | _ => False
  end.
Proof.
  destruct (create (R := exact) (demo_driver false) demo_snapshot 3) as [d' [ref|e]] eqn:Ec; [|vm_compute in Ec; discriminate].
  destruct (status (fun _ => "") d' ref) as [d'' [st|e]] eqn:Es.
  - refine (fleet_size_follows (R := exact) (fun _ => "") (demo_driver false) ref 3 d' d'' st _ Es). left. exists demo_snapshot. exact Ec.
  - vm_compute in Ec. injection Ec as <- <-. vm_compute in Es. discriminate.
Defined.

Lemma failed_create_leaves_no_secret_witness :
  match create (R := exact) (demo_driver true) demo_snapshot 3 with
  | (d', Raise _) => mc_secrets (kd_cluster d') = ∅
  | _ => False
  end.
Proof.
  destruct (create (R := exact) (demo_driver true) demo_snapshot 3) as [d' [ref|e]] eqn:Ec; [vm_compute in Ec; discriminate|].
  refine (failed_create_leaves_no_secret (R := exact) (demo_driver true) demo_snapshot 3 d' e _ _ _ Ec).
  - vm_compute. reflexivity.
  - intros s w cls. cbn. unfold mem_create_secret. by case_match.
  - reflexivity.
Defined.

Definition demo_handle : DriverRef := mkDriverRef KIND "stoker-run-42" ∅.
Definition paused_driver : K8sDriver memory := fst (create (R := exact) (demo_driver false) demo_snapshot 3).

Lemma deadline_does_not_compound_witness :
  exists d1 d2 j', extend_deadline (fun _ => "") paused_driver demo_handle 600 10 = (d1, Ok tt) /\
    extend_deadline (fun _ => "") d1 demo_handle 600 (25 # 2) = (d2, Ok tt) /\
    mc_jobs (kd_cluster d2) !! ("stoker", "stoker-run-42") = Some j' /\ js_active_deadline (jb_spec j') = Some 913.
Proof.
  destruct (mc_jobs (kd_cluster paused_driver) !! ("stoker", "stoker-run-42")) as [j|] eqn:Ej; [|vm_compute in Ej; discriminate].
  destruct (extend_deadline (fun _ => "") paused_driver demo_handle 600 10) as [d1 [[]|e]] eqn:E1; [|vm_compute in E1; discriminate].
  destruct (extend_deadline (fun _ => "") d1 demo_handle 600 (25 # 2)) as [d2 [[]|e]] eqn:E2.
  - assert (cl_jobs (kd_cluster paused_driver) !! (namespace_of (fun _ => "") paused_driver demo_handle, ref_id demo_handle) = Some j) as Ej'.
    { replace (namespace_of (fun _ => "") paused_driver demo_handle) with "stoker" by (vm_compute; reflexivity). exact Ej. }
    destruct (deadline_does_not_compound (R := exact) (fun _ => "") paused_driver d1 d2 demo_handle 600 10 (25 # 2) j eq_refl Ej' E1 E2) as (j' & Hj & Hd & _).
    exists d1, d2, j'. split_and!; [done|done| |exact Hd].
    vm_compute in E1. injection E1 as <-. vm_compute in E2. injection E2 as <-. exact Hj.
  - vm_compute in E1. injection E1 as <-. vm_compute in E2. discriminate.
Defined.

(** The environment of pod 2 of the demo's Job. *)
Definition demo_pod_env : environ :=
  <[ "STOKER_HINT_SLOT" := "2" ]> (projected 42 3 "jwt-42" "s3cret" (demo_spec 3) demo_target).

Lemma pod_loads_launch_witness : exists c,
  load_config (R := binary64) (fun _ => false) "pod-2" demo_pod_env = Ok c /\
  launched_as "pod-2" 42 2 3 "jwt-42" "s3cret" (demo_spec 3) demo_target None c.
Proof.
  refine (proj1 (pod_loads_launch (R := binary64) (D := FakeDriver) (fun _ => false) "pod-2" (demo_driver false) no_placement demo_snapshot
    42 2 3 "jwt-42" "s3cret" (demo_spec 3) demo_target demo_pod_env _ eq_refl _)).
  - constructor; try (vm_compute; (reflexivity || discriminate)); apply (bool_decide_unpack _); vm_compute; exact I.
  - cbn [job_manifest jb_spec js_pod ps_env]. unfold demo_pod_env. split.
    + intros x Hx. apply elem_of_env_vars in Hx as [(k & v & Hl & Hne & ->)|[[_ ->]| ->]]; cbn [ev_name ev_source].
      * exists v. split; [|done]. rewrite lookup_insert_ne; [exact Hl|]. intros <-. vm_compute in Hl. discriminate.
      * exists "s3cret". split; [vm_compute; reflexivity|]. intros _. reflexivity.
      * exists "2". split; [apply lookup_insert_eq|done].
    + intros k Hk Hn. rewrite lookup_insert_ne.
      * destruct (rs_env demo_snapshot !! k) as [v|] eqn:Ek; [|exact Ek]. exfalso.
        destruct (decide (k = HEC_ENV)) as [->|Hh].
        -- apply (Hn (mkEnvVar HEC_ENV (SecretKeyRef (secret_name 42) HEC_SECRET_KEY))); [|done]. apply elem_of_env_vars. right. left. eauto.
        -- apply (Hn (mkEnvVar k (EnvValue v))); [|done]. apply elem_of_env_vars. left. eauto.
      * apply (Hn (mkEnvVar "STOKER_HINT_SLOT" (FieldRef INDEX_PATH))). apply elem_of_env_vars. auto.
Defined.
