(* ===== verification/Swarm.v ===== *)
(** * The Swarm driver (server/drivers/swarm.py)

    One replicated Docker service per run, through Portainer's proxy.  The HTTP
    client is a parameter: what a request is answered with, as a status, a
    body that is JSON or not, and its bytes.  Bodies are documents ([MetricEngine.doc]).

    The theorems: changing a fleet's size posts the service's own specification with
    nothing but its replicas changed; a status that could not be read is an
    error, never a fleet that is gone; an image reference is pinned without its
    tag and with its registry's port; and the frames of a log stream come out as
    the text that went in. *)

From S2P Require Import Prelude.
From S2P Require Import PyFloat.
From S2P Require Import PyValue.
From S2P Require Import PackYaml.
From S2P Require Import MetricEngine.
From S2P Require Import Driver.
From S2P Require Import AgentConfig.
From S2P Require Import K8s.
From Stdlib Require Import QArith Ascii.
Open Scope Z_scope.

Abbreviation text := PackYaml.text.
Abbreviation dict := (list (string * doc)).

Definition SWARM_KIND : string := "swarm".
Definition RUNNING_STATES : list string := ["running"].
Definition service_name (run_id : Z) : string := "stoker-run-" +:+ pretty run_id.

(** [_portainer_base_url] *)
Definition portainer_base_url (host : option string) : string :=
  let h := rstrip_slash (py_strip (default "" host)) in
  if negb (nonempty h) then ""
  else if startswith "http://" h || startswith "https://" h then h
  else "https://" +:+ h +:+ ":9443".

(** ** Requests *)

Record docker_request : Type := mkDockerRequest {
  rq_method : string;
  rq_path : string;
  rq_params : list (string * string);
  rq_body : option dict;
}.

(** An answer: its status, its bytes, and the document they are ([None]: not JSON). *)
Record docker_response : Type := mkResponse { rp_status : Z; rp_content : text; rp_json : option doc }.

(** A transport error, or an answer. *)
Inductive http_outcome : Type := HttpError (msg : string) | Answered (r : docker_response).

Class Portainer (W : Type) : Type := { exchange : docker_request -> W -> W * http_outcome }.

Record SwarmDriver (W : Type) : Type := mkSwarmDriver {
  sd_host : string;
  sd_endpoint : Z;
  sd_world : W;
}.
Arguments mkSwarmDriver {W}. Arguments sd_host {W}. Arguments sd_endpoint {W}. Arguments sd_world {W}.

(** ** Reading documents *)

(** [(f.get(k) or {})] before another [.get]: a value that is not an object has none. *)
Definition sub (f : dict) (k : string) : result dict :=
  let v := MetricEngine.dget f k in
  if dtruthy v then match v with DObj g => Ok g | _ => Raise AttributeError end else Ok [].

(** [int(v)] on a document; [None] for [TypeError] and [ValueError]. *)
Definition doc_int (v : doc) : option Z :=
  match v with
  | DBool b => Some (if b then 1 else 0)
  | DNum q => Some (py_int q)
  | DStr s => int_of_string s
  | _ => None
  end.

(** [float(v)] *)
Definition doc_float {R : Rounding} (v : doc) : option Q :=
  match v with
  | DBool b => Some (if b then 1%Q else 0%Q)
  | DNum q => Some q
  | DStr s => float_of_string s
  | _ => None
  end.

(** [d[k] = v] on a dict that keeps its order, and [d.pop(k, None)]. *)
Fixpoint doset (k : string) (v : doc) (d : dict) : dict :=
  match d with
  | [] => [(k, v)]
  | (k', v') :: d => if bool_decide (k' = k) then (k, v) :: d else (k', v') :: doset k v d
  end.
Definition dopop (k : string) (d : dict) : dict := List.filter (fun kv => negb (bool_decide (kv.1 = k))) d.

(** [_version_index] *)
Definition version_index (service : dict) : result Z :=
  version ← sub service "Version";
  match MetricEngine.dget version "Index" with
  | DNull => Raise (DriverError "swarm service has no Version.Index for update")
  | v => match doc_int v with Some i => Ok i | None => Raise (DriverError "swarm service Version.Index is not an integer") end
  end.

(** [_service_run_id]; a specification or labels that are not objects have no [get]. *)
Definition service_run_id (service : doc) : result (option Z) :=
  match service with
  | DObj f =>
      spec ← sub f "Spec";
      let labels := MetricEngine.dget spec "Labels" in
      let raw := match labels with DObj l => dfind l "stoker.run" | _ => None end in
      match raw with
      | Some DNull | None =>
          let name := if dtruthy (MetricEngine.dget spec "Name") then MetricEngine.dget spec "Name" else MetricEngine.dget f "Name" in
          match name with
          | DStr s => Ok (strip_run_prefix s ≫= int_of_string)
          | _ => Ok None
          end
      | Some v => Ok (doc_int v)
      end
  | _ => Ok None
  end.

(** [_task_view]: the slot and the state. *)
Definition lower_state (v : doc) : option string := match v with DStr s => Some (py_lower s) | _ => None end.
Definition task_view (task : doc) : result (option Z * option string) :=
  match task with
  | DObj f =>
      status ← sub f "Status";
      _ ← sub status "ContainerStatus";
      Ok (match MetricEngine.dget f "Slot" with DNum q => Some (py_int q) | _ => None end, lower_state (MetricEngine.dget status "State"))
  | _ => Ok (None, None)
  end.

(** ** Image references *)

(** [s.split("@", 1)[0]] *)
Fixpoint before_at (t : text) : text :=
  match t with [] => [] | c :: t => if Ascii.eqb c "@"%char then [] else c :: before_at t end.

(** [s.rfind(c)], [-1] where it does not occur *)
Fixpoint rfind_from (c : ascii) (i acc : Z) (t : text) : Z :=
  match t with [] => acc | d :: t => rfind_from c (i + 1) (if Ascii.eqb d c then i else acc) t end.
Definition rfind (c : ascii) (t : text) : Z := rfind_from c 0 (-1) t.

Definition repo_without_tag (ref : text) : text :=
  let ref := before_at ref in
  let slash := rfind "/"%char ref in
  let colon := rfind ":"%char ref in
  if slash <? colon then take (Z.to_nat colon) ref else ref.

(** ** Log streams *)

Definition byte_val (c : ascii) : Z := Z.of_N (N_of_ascii c).
(** [int.from_bytes(_, "big")] *)
Definition from_bytes (bs : text) : Z := foldl (fun acc c => 256 * acc + byte_val c) 0 bs.

(** [_demux], for at most [fuel] frames. *)
Fixpoint demux_loop (fuel : nat) (raw : text) : text :=
  match fuel with
  | O => []
  | S fuel =>
      if (length raw <? 8)%nat then []
      else
        let length := Z.to_nat (from_bytes (take 4 (drop 4 raw))) in
        let rest := drop 8 raw in
        take length rest ++ demux_loop fuel (drop length rest)
  end.
Definition demux (raw : text) : text := demux_loop (length raw) raw.

(** [_decode_logs] *)
Definition decode_logs (raw : text) : text :=
  match raw with
  | a :: b :: c :: d :: _ =>
      if (byte_val a <=? 2) && (8 <=? length raw)%nat && (byte_val b =? 0) && (byte_val c =? 0) && (byte_val d =? 0)
      then demux raw else raw
  | _ => raw
  end.

(** ** Operations *)

Section Operations.
Context {R : Rounding} {W : Type} `{Portainer W} (repr_float : Q -> string).

Definition with_world (w : W) (d : SwarmDriver W) : SwarmDriver W := mkSwarmDriver (sd_host d) (sd_endpoint d) w.

(** A call of the driver: its state and an answer or an error; [NotFound] is told apart. *)
Definition swarm (A : Type) : Type := SwarmDriver W -> SwarmDriver W * (call_error + A).

(** [_request]: the path is below the endpoint's docker base. *)
Definition request (method path : string) (params : list (string * string)) (body : option dict) (ok : list Z) : swarm docker_response := fun d =>
  if negb (nonempty (sd_host d)) then (d, inl (Failed "SwarmDriver has no Portainer host configured"))
  else
    let url := sd_host d +:+ "/api/endpoints/" +:+ pretty (sd_endpoint d) +:+ "/docker" +:+ path in
    match exchange (mkDockerRequest method url params body) (sd_world d) with
    | (w, HttpError msg) => (with_world w d, inl (Failed ("swarm " +:+ method +:+ " " +:+ path +:+ " failed: " +:+ msg)))
    | (w, Answered resp) =>
        if bool_decide (rp_status resp ∈ ok) then (with_world w d, inr resp)
        else
          let msg := "swarm " +:+ method +:+ " " +:+ path +:+ " -> HTTP " +:+ pretty (rp_status resp) in
          (with_world w d, inl (if rp_status resp =? 404 then NotFound msg else Failed msg))
    end.

(** [_json] *)
Definition json_of_response (resp : docker_response) : call_error + doc :=
  match rp_content resp with
  | [] => inr (DObj [])
  | _ => match rp_json resp with Some v => inr v | None => inl (Failed "swarm response was not valid JSON") end
  end.

(** [_get_service] *)
Definition get_service (id : string) : swarm dict := fun d =>
  match request "GET" ("/services/" +:+ id) [] None [200] d with
  | (d, inl e) => (d, inl e)
  | (d, inr resp) =>
      match json_of_response resp with
      | inl e => (d, inl e)
      | inr (DObj f) => (d, inr f)
      | inr _ => (d, inl (Failed ("swarm service " +:+ id +:+ " inspect returned non-object")))
      end
  end.

(** The specification with its replicas set: [setdefault], item assignment and [pop]. *)
Definition resized (spec : dict) (replicas : Z) : result dict :=
  match default (DObj []) (dfind spec "Mode") with
  | DObj mode =>
      match default (DObj []) (dfind mode "Replicated") with
      | DObj replicated =>
          Ok (doset "Mode" (DObj (dopop "Global" (doset "Replicated" (DObj (doset "Replicas" (DNum (inject_Z replicas)) replicated)) mode))) spec)
      | _ => Raise TypeError
      end
  | _ => Raise AttributeError
  end.

(** [_update_replicas] *)
Definition update_replicas (ref : DriverRef) (replicas : Z) (d : SwarmDriver W) : SwarmDriver W * result unit :=
  match get_service (ref_id ref) d with
  | (d, inl e) => (d, Raise (escape e))
  | (d, inr service) =>
      match version_index service with
      | Raise e => (d, Raise e)
      | Ok version =>
          match MetricEngine.dget service "Spec" with
          | DObj spec =>
              match resized spec replicas with
              | Raise e => (d, Raise e)
              | Ok spec =>
                  match request "POST" ("/services/" +:+ ref_id ref +:+ "/update") [("version", pretty version)] (Some spec) [200; 201] d with
                  | (d, inl e) => (d, Raise (escape e))
                  | (d, inr _) => (d, Ok tt)
                  end
              end
          | _ => (d, Raise (DriverError "swarm service has no Spec to update"))
          end
      end
  end.

Definition scale (d : SwarmDriver W) (ref : DriverRef) (workers : Z) : SwarmDriver W * result unit :=
  if workers <? 0 then (d, Raise (DriverError "workers must be >= 0")) else update_replicas ref workers d.
Definition stop (d : SwarmDriver W) (ref : DriverRef) (grace_s : Z) : SwarmDriver W * result unit := update_replicas ref 0 d.

Definition destroy (d : SwarmDriver W) (ref : DriverRef) : SwarmDriver W * result unit :=
  match request "DELETE" ("/services/" +:+ ref_id ref) [] None [200; 201; 404] d with
  | (d, inl e) => (d, Raise (escape e))
  | (d, inr _) => (d, Ok tt)
  end.

(** [_desired_replicas] *)
Definition desired_replicas (ref : DriverRef) (d : SwarmDriver W) : SwarmDriver W * result Z :=
  match get_service (ref_id ref) d with
  | (d, inl (NotFound _)) => (d, Ok 0)
  | (d, inl e) => (d, Raise (escape e))
  | (d, inr service) =>
      (d, spec ← sub service "Spec"; mode ← sub spec "Mode"; replicated ← sub mode "Replicated";
          Ok (default 0 (doc_int (MetricEngine.dget replicated "Replicas"))))
  end.

(** [_name_of] *)
Definition name_of (ref : DriverRef) : string :=
  let name := PyValue.dget (ref_raw ref) "name" in
  if truthy name then Packs.py_str repr_float name
  else match PyValue.dget (ref_raw ref) "run_id" with VNone => ref_id ref | v => "stoker-run-" +:+ Packs.py_str repr_float v end.

Definition task_running (t : option Z * option string) : bool :=
  match t.2 with Some s => bool_decide (s ∈ RUNNING_STATES) | None => false end.

(** [json.dumps({"service": [name]})] *)
Definition quote : string := String (ascii_of_N 34) "".
Definition service_filter (name : string) : string :=
  "{" +:+ quote +:+ "service" +:+ quote +:+ ": [" +:+ quote +:+ name +:+ quote +:+ "]}".
Definition label_filter : string := "{" +:+ quote +:+ "label" +:+ quote +:+ ": [" +:+ quote +:+ "stoker.run" +:+ quote +:+ "]}".

Definition status (d : SwarmDriver W) (ref : DriverRef) : SwarmDriver W * result DriverStatus :=
  match desired_replicas ref d with
  | (d, Raise e) => (d, Raise e)
  | (d, Ok desired) =>
      match request "GET" "/tasks" [("filters", service_filter (name_of ref))] None [200; 201] d with
      | (d, inl e) => (d, Raise (escape e))
      | (d, inr resp) =>
          match json_of_response resp with
          | inl e => (d, Raise (escape e))
          | inr body =>
              (d, tasks ← map_result task_view (match body with DList l => l | _ => [] end);
                  Ok (mkDriverStatus desired (Z.of_nat (length (List.filter task_running tasks))) tasks))
          end
      end
  end.

Definition logs (d : SwarmDriver W) (ref : DriverRef) (slot : option Z) (tail : Z) : SwarmDriver W * result string :=
  match request "GET" ("/services/" +:+ ref_id ref +:+ "/logs")
          [("stdout", "true"); ("stderr", "true"); ("timestamps", "false"); ("tail", if 0 <? tail then pretty tail else "all")]
          None [200; 201] d with
  | (d, inl _) => (d, Ok "")
  | (d, inr resp) => (d, Ok (String.string_of_list_ascii (decode_logs (rp_content resp))))
  end.

Definition list_run_ids (d : SwarmDriver W) : SwarmDriver W * result (gset Z) :=
  match request "GET" "/services" [("filters", label_filter)] None [200; 201] d with
  | (d, inl e) => (d, Raise (escape e))
  | (d, inr resp) =>
      match json_of_response resp with
      | inl e => (d, Raise (escape e))
      | inr (DList services) => (d, ids ← map_result service_run_id services; Ok (list_to_set (omap id ids)))
      | inr _ => (d, Raise (DriverError "swarm /services returned non-list body"))
      end
  end.

(** *** Creating *)

Definition SHA_PREFIX : text := String.list_ascii_of_string "sha256:".

(** [_resolve_image] *)
Definition resolve_image (image : string) (d : SwarmDriver W) : SwarmDriver W * result string :=
  if negb (nonempty image) || infix_of ("@"%char :: SHA_PREFIX) (String.list_ascii_of_string image) then (d, Ok image)
  else
    match request "GET" ("/distribution/" +:+ image +:+ "/json") [] None [200] d with
    | (d, inl _) => (d, Ok image)
    | (d, inr resp) =>
        match json_of_response resp with
        | inl _ => (d, Ok image)
        | inr (DObj f) =>
            (d, desc ← sub f "Descriptor";
                Ok (match MetricEngine.dget desc "digest" with
                    | DStr digest =>
                        match strip_prefix SHA_PREFIX (String.list_ascii_of_string digest) with
                        | Some _ => String.string_of_list_ascii (repo_without_tag (String.list_ascii_of_string image)) +:+ "@" +:+ digest
                        | None => image
                        end
                    | _ => image
                    end))
        | inr _ => (d, Raise AttributeError)
        end
    end.

(** [_env_list] *)
Definition env_list (env : environ) : list string :=
  (fun kv => kv.1 +:+ "=" +:+ kv.2) <$> merge_sort key_leb (map_to_list env).

Definition labels_doc (m : gmap string string) : dict := (fun kv => (kv.1, DStr kv.2)) <$> map_to_list m.

(** The nested options of [driver_opts] that are objects and lists. *)
Record swarm_opts : Type := mkSwarmOpts { so_resources : doc; so_constraints : doc }.

(** One amount of a resources block: scaled, and dropped unless positive. *)
Definition amount (block : dict) (key name : string) (factors : list Q) : dict :=
  match MetricEngine.dget block key with
  | DNull => []
  | v => match doc_float v with
         | None => []
         | Some x => let n := py_int (foldl fmul x factors) in if 0 <? n then [(name, DNum (inject_Z n))] else []
         end
  end.

(** [_resources] *)
Definition resources (o : swarm_opts) : dict :=
  match so_resources o with
  | DObj spec_res =>
      concat ((fun '(our, theirs) =>
        match MetricEngine.dget spec_res our with
        | DObj block =>
            match amount block "cpus" "NanoCPUs" [1000000000%Q] ++ amount block "memory_mb" "MemoryBytes" [1024%Q; 1024%Q] with
            | [] => []
            | rendered => [(theirs, DObj rendered)]
            end
        | _ => []
        end) <$> [("limits", "Limits"); ("reservations", "Reservations")])
  | _ => []
  end.

(** [str(c)] of a constraint: those that are strings. *)
Definition swarm_placement (o : swarm_opts) : dict :=
  ("Preferences", DList [DObj [("Spread", DObj [("SpreadDescriptor", DStr "node.id")])]]) ::
  match so_constraints o with DList (c :: cs) => [("Constraints", DList (c :: cs))] | _ => [] end.

Definition service_spec (o : swarm_opts) (run : RunSnapshot) (workers : Z) (image : string) : dict :=
  let labels := run_labels run in
  [("Name", DStr (service_name (rs_run_id run)));
   ("Labels", DObj (labels_doc labels));
   ("TaskTemplate", DObj
      ([("ContainerSpec", DObj
           [("Image", DStr (if nonempty image then image else rs_image run));
            ("Env", DList (DStr <$> env_list (rs_env run)));
            ("Labels", DObj (labels_doc labels));
            ("StopGracePeriod", DNum (inject_Z (rs_stop_grace_s run * 1000000000)))]);
        ("RestartPolicy", DObj [("Condition", DStr "on-failure")]);
        ("Placement", DObj (swarm_placement o))] ++
       match resources o with [] => [] | r => [("Resources", DObj r)] end));
   ("Mode", DObj [("Replicated", DObj [("Replicas", DNum (inject_Z workers))])])].

(** [body.get("ID") or body.get("Id") or ""] as text *)
Definition service_id (body : dict) : string :=
  let pick k := match MetricEngine.dget body k with DStr s => s | _ => "" end in
  if nonempty (pick "ID") then pick "ID" else pick "Id".

Definition create_with (o : swarm_opts) (d : SwarmDriver W) (run : RunSnapshot) (workers : Z) : SwarmDriver W * result DriverRef :=
  if workers <? 1 then (d, Raise (DriverError "workers must be >= 1"))
  else
    match resolve_image (rs_image run) d with
    | (d, Raise e) => (d, Raise e)
    | (d, Ok image) =>
        match request "POST" "/services/create" [] (Some (service_spec o run workers image)) [200; 201] d with
        | (d, inl e) => (d, Raise (escape e))
        | (d, inr resp) =>
            match json_of_response resp with
            | inl e => (d, Raise (escape e))
            | inr (DObj body) =>
                let id := service_id body in
                if nonempty id then
                  (d, Ok (mkDriverRef SWARM_KIND id
                        (<[ "run_id" := VInt (rs_run_id run) ]> (<[ "name" := VStr (service_name (rs_run_id run)) ]>
                           {[ "endpoint" := VInt (sd_endpoint d) ]}))))
                else (d, Raise (DriverError "swarm create returned no service ID"))
            | inr _ => (d, Raise AttributeError)
            end
        end
    end.

Definition no_opts : swarm_opts := mkSwarmOpts DNull DNull.
Definition create : SwarmDriver W -> RunSnapshot -> Z -> SwarmDriver W * result DriverRef := create_with no_opts.

Instance swarm_driver : Driver (SwarmDriver W) := {|
  drv_kind := fun _ => SWARM_KIND;
  drv_namespace := fun _ => None;
  drv_create := create;
  drv_scale := scale;
  drv_stop := stop;
  drv_destroy := destroy;
  drv_status := status;
  drv_logs := logs;
  drv_list_run_ids := list_run_ids;
  drv_extend_deadline := None;
|}.
End Operations.

(** ** Resizing a service *)

Lemma dfind_doset k v d k' : dfind (doset k v d) k' = if bool_decide (k = k') then Some v else dfind d k'.
Proof.
  unfold dfind. induction d as [|[j u] d IH]; cbn.
  - by destruct (bool_decide (k = k')).
  - destruct (bool_decide_reflect (j = k)) as [->|E]; cbn.
    + by destruct (bool_decide (k = k')).
    + destruct (bool_decide (j = k')) eqn:Ej; [|exact IH]. apply bool_decide_eq_true in Ej. subst j. by rewrite bool_decide_false.
Qed.

Lemma dfind_dopop k d k' : dfind (dopop k d) k' = if bool_decide (k = k') then None else dfind d k'.
Proof.
  unfold dfind, dopop. induction d as [|[j u] d IH]; cbn; [by destruct (bool_decide (k = k'))|].
  destruct (bool_decide_reflect (j = k)) as [->|E]; cbn.
  - rewrite IH. by destruct (bool_decide (k = k')).
  - destruct (bool_decide (j = k')) eqn:Ej; [|exact IH]. apply bool_decide_eq_true in Ej. subst j. by rewrite bool_decide_false.
Qed.

(** The fields of an object below a key, none where there is no object. *)
Definition below (d : dict) (k : string) : dict := match dfind d k with Some (DObj f) => f | _ => [] end.

(** The second specification is the first but for its replicas, [n], and without a global mode. *)
Definition resized_to (n : Z) (old new : dict) : Prop :=
  (forall k, k <> "Mode" -> dfind new k = dfind old k) /\
  (forall k, k <> "Replicated" -> k <> "Global" -> dfind (below new "Mode") k = dfind (below old "Mode") k) /\
  dfind (below new "Mode") "Global" = None /\
  (forall k, k <> "Replicas" -> dfind (below (below new "Mode") "Replicated") k = dfind (below (below old "Mode") "Replicated") k) /\
  dfind (below (below new "Mode") "Replicated") "Replicas" = Some (DNum (inject_Z n)).

Lemma resized_resizes old n new : resized old n = Ok new -> resized_to n old new.
Proof.
  unfold resized. destruct (default (DObj []) (dfind old "Mode")) as [| | | | |mode] eqn:Em; try done.
  destruct (default (DObj []) (dfind mode "Replicated")) as [| | | | |repl] eqn:Er; try done. intros [= <-].
  assert (below old "Mode" = mode) as Hm by (unfold below; destruct (dfind old "Mode"); cbn in Em; by simplify_eq).
  assert (below mode "Replicated" = repl) as Hr by (unfold below; destruct (dfind mode "Replicated"); cbn in Er; by simplify_eq).
  set (mode' := dopop "Global" (doset "Replicated" _ mode)).
  assert (below (doset "Mode" (DObj mode') old) "Mode" = mode') as Hm' by (unfold below; by rewrite dfind_doset).
  assert (below mode' "Replicated" = doset "Replicas" (DNum (inject_Z n)) repl) as Hr'
    by (unfold below, mode'; by rewrite dfind_dopop, dfind_doset).
  unfold resized_to. rewrite Hm', Hm, Hr', Hr. split_and!.
  - intros k Hk. rewrite dfind_doset. by rewrite bool_decide_false.
  - intros k H1 H2. unfold mode'. rewrite dfind_dopop, dfind_doset. by rewrite !bool_decide_false.
  - unfold mode'. by rewrite dfind_dopop.
  - intros k Hk. rewrite dfind_doset. by rewrite bool_decide_false.
  - by rewrite dfind_doset.
Qed.

Section Theory.
Context {R : Rounding} {W : Type} `{Portainer W} (repr_float : Q -> string).

(** The address of a docker path. *)
Definition url_of (d : SwarmDriver W) (path : string) : string :=
  sd_host d +:+ "/api/endpoints/" +:+ pretty (sd_endpoint d) +:+ "/docker" +:+ path.

Lemma request_inr method path params body ok (d d' : SwarmDriver W) resp :
  request method path params body ok d = (d', inr resp) ->
  exchange (mkDockerRequest method (url_of d path) params body) (sd_world d) = (sd_world d', Answered resp) /\
  rp_status resp ∈ ok /\ d' = with_world (sd_world d') d.
Proof.
  unfold request, url_of. destruct (nonempty (sd_host d)); [|done]. cbn [negb]. destruct (exchange _ _) as [w [msg|r]]; [done|].
  case_bool_decide; [|done]. by intros [= <- <-].
Qed.

Lemma get_service_inr id (d d' : SwarmDriver W) service : get_service id d = (d', inr service) ->
  exists resp, exchange (mkDockerRequest "GET" (url_of d ("/services/" +:+ id)) [] None) (sd_world d) = (sd_world d', Answered resp) /\
    json_of_response resp = inr (DObj service) /\ d' = with_world (sd_world d') d.
Proof.
  unfold get_service. destruct (request _ _ _ _ _ d) as [d1 [e|resp]] eqn:Er; [done|]. apply request_inr in Er as (Ex & _ & Ed).
  destruct (json_of_response resp) as [e|[| | | | |f]] eqn:Ej; try done. intros [= <- <-]. eauto.
Qed.

(** A served change of size posts the service's own specification: the document the swarm
    answered with, under the version it carried, with the replicas set to the new
    size and nothing else of the specification changed. *)
Theorem scale_posts_own_spec (d d' : SwarmDriver W) ref n : scale d ref n = (d', Ok tt) ->
  exists w resp service version spec resp',
    exchange (mkDockerRequest "GET" (url_of d ("/services/" +:+ ref_id ref)) [] None) (sd_world d) = (w, Answered resp) /\
    json_of_response resp = inr (DObj service) /\ version_index service = Ok version /\
    resized_to n (below service "Spec") spec /\
    exchange (mkDockerRequest "POST" (url_of d ("/services/" +:+ ref_id ref +:+ "/update")) [("version", pretty version)] (Some spec)) w =
      (sd_world d', Answered resp') /\ rp_status resp' ∈ [200; 201].
Proof.
  unfold scale, update_replicas. destruct (n <? 0); [done|]. destruct (get_service _ d) as [d1 [e|service]] eqn:Eg; [done|].
  apply get_service_inr in Eg as (resp & Ex & Ej & Ed). destruct (version_index service) as [version|e] eqn:Ev; [|done].
  destruct (MetricEngine.dget service "Spec") as [| | | | |spec] eqn:Es; try done. destruct (resized spec n) as [spec'|e] eqn:Er; [|done].
  destruct (request "POST" _ _ _ _ d1) as [d2 [e|resp']] eqn:Ep; [done|]. apply request_inr in Ep as (Ex' & Hok & _). intros [= <-].
  exists (sd_world d1), resp, service, version, spec', resp'. split_and!; [done|done|done| | |done].
  - assert (below service "Spec" = spec) as ->; [|by apply resized_resizes].
    unfold below. unfold MetricEngine.dget in Es. destruct (dfind service "Spec"); cbn in Es; by subst.
  - rewrite Ed in Ex'. exact Ex'.
Qed.

(** A status that could not be read is an error: unless the swarm answers that the service is
    there (200) or gone (404), [status] raises, and so never reports a fleet of none. *)
Theorem unread_status_is_error (d : SwarmDriver W) ref :
  (forall w r, exchange (mkDockerRequest "GET" (url_of d ("/services/" +:+ ref_id ref)) [] None) (sd_world d) = (w, Answered r) ->
     rp_status r <> 200 /\ rp_status r <> 404) ->
  exists d' msg, status repr_float d ref = (d', Raise (DriverError msg)).
Proof.
  intros Hr. unfold status, desired_replicas, get_service, request. fold (url_of d ("/services/" +:+ ref_id ref)).
  destruct (nonempty (sd_host d)); cbn [negb]; [|by eexists _, _].
  destruct (exchange _ _) as [w [msg|r]]; [by eexists _, _|]. destruct (Hr w r eq_refl) as [H2 H4].
  rewrite bool_decide_false by (by intros ?%list_elem_of_singleton).
  destruct (Z.eqb_spec (rp_status r) 404); [done|]. by eexists _, _.
Qed.
End Theory.

(** ** Log streams *)

Definition byte (z : Z) : ascii := ascii_of_N (Z.to_N z).
(** [n.to_bytes(4, "big")] *)
Definition be4 (n : Z) : text := [byte (n / 16777216); byte (n / 65536 mod 256); byte (n / 256 mod 256); byte (n mod 256)].
(** One frame as Docker writes it. *)
Definition frame (sp : ascii * text) : text := sp.1 :: byte 0 :: byte 0 :: byte 0 :: be4 (Z.of_nat (length sp.2)) ++ sp.2.

Lemma byte_val_byte z : 0 <= z < 256 -> byte_val (byte z) = z.
Proof. intros Hz. unfold byte_val, byte. rewrite N_ascii_embedding by lia. lia. Qed.

Lemma from_be4 n : 0 <= n < 2 ^ 32 -> from_bytes (be4 n) = n.
Proof.
  intros Hn. unfold from_bytes, be4. cbn [foldl].
  rewrite !byte_val_byte by (Z.to_euclidean_division_equations; lia). Z.to_euclidean_division_equations; lia.
Qed.

Lemma demux_frames fs : Forall (fun sp => Z.of_nat (length sp.2) < 2 ^ 32) fs ->
  forall fuel, (length fs <= fuel)%nat -> demux_loop fuel (concat (frame <$> fs)) = concat (snd <$> fs).
Proof.
  induction 1 as [|[s p] fs Hp _ IH]; intros fuel Hf.
  - by destruct fuel.
  - destruct fuel as [|fuel]; [cbn in Hf; lia|]. cbn [fmap list_fmap concat snd demux_loop].
    set (rest := concat (frame <$> fs)). cbn in Hp.
    assert (frame (s, p) ++ rest = s :: byte 0 :: byte 0 :: byte 0 :: be4 (Z.of_nat (length p)) ++ (p ++ rest)) as ->
      by (unfold frame; cbn [fst snd]; rewrite <- !app_comm_cons, <- app_assoc; done).
    assert ((length (s :: byte 0 :: byte 0 :: byte 0 :: be4 (Z.of_nat (length p)) ++ (p ++ rest)) <? 8)%nat = false) as ->
      by (apply Nat.ltb_ge; cbn; lia).
    change (take 4 (drop 4 (s :: byte 0 :: byte 0 :: byte 0 :: be4 (Z.of_nat (length p)) ++ (p ++ rest)))) with (be4 (Z.of_nat (length p))).
    change (drop 8 (s :: byte 0 :: byte 0 :: byte 0 :: be4 (Z.of_nat (length p)) ++ (p ++ rest))) with (p ++ rest).
    rewrite from_be4, Nat2Z.id by lia. rewrite take_app_length, drop_app_length. f_equal. apply IH. cbn in Hf. lia.
Qed.

Lemma frames_length fs : (8 * length fs <= length (concat (frame <$> fs)))%nat.
Proof. induction fs as [|[s p] fs IH]; [done|]. cbn [fmap list_fmap concat length]. rewrite length_app. unfold frame at 1. cbn. lia. Qed.

(** The log of a service comes out as the text its tasks wrote: for a stream of one or more
    frames, of stdin, stdout or stderr and less than 4 GiB each, the decoding ends and is
    the frames' payloads one after the other. *)
Theorem log_stream_decoded fs : fs <> [] ->
  Forall (fun sp => byte_val sp.1 <= 2 /\ Z.of_nat (length sp.2) < 2 ^ 32) fs ->
  decode_logs (concat (frame <$> fs)) = concat (snd <$> fs).
Proof.
  intros Hne Hfs. pose proof (frames_length fs) as Hlen. assert (1 <= length fs)%nat as H1 by (destruct fs; [done|cbn; lia]).
  assert (demux (concat (frame <$> fs)) = concat (snd <$> fs)) as Hd.
  { unfold demux. apply demux_frames; [|lia]. eapply Forall_impl; [exact Hfs|]. by intros sp [_ ?]. }
  destruct fs as [|[s p] fs]; [done|]. apply Forall_cons in Hfs as [[Hs _] _]. cbn in Hs.
  rewrite <- Hd. unfold decode_logs. set (raw := concat (frame <$> (s, p) :: fs)) in *.
  assert (exists tl, raw = s :: byte 0 :: byte 0 :: byte 0 :: tl) as (tl & Er) by (eexists; reflexivity).
  rewrite Er at 1. rewrite (proj2 (Z.leb_le _ _) Hs), (proj2 (Nat.leb_le 8 (length raw))) by lia. reflexivity.
Qed.

Lemma log_stream_decoded_witness :
  decode_logs (concat (frame <$> [(byte 1, ["h"; "i"]%char); (byte 2, []); (byte 1, ["!"]%char)])) = ["h"; "i"; "!"]%char.
Proof. apply log_stream_decoded; [done|]. repeat constructor; cbn; lia || (vm_compute; (reflexivity || discriminate)). Defined.

(** ** Image references *)

Lemma rfind_from_none c i acc t : c ∉ t -> rfind_from c i acc t = acc.
Proof.
  revert i acc. induction t as [|d t IH]; intros i acc Hc; [done|]. cbn. apply not_elem_of_cons in Hc as [Hd Hc].
  destruct (Ascii.eqb_spec d c); [congruence|]. by apply IH.
Qed.

Lemma rfind_from_last c i acc a b : c ∉ b -> rfind_from c i acc (a ++ c :: b) = i + Z.of_nat (length a).
Proof.
  intros Hb. revert i acc. induction a as [|d a IH]; intros i acc; cbn.
  - rewrite Ascii.eqb_refl, rfind_from_none by done. lia.
  - rewrite IH. lia.
Qed.

Lemma rfind_from_bound c t : forall i acc, acc < i -> rfind_from c i acc t < i + Z.of_nat (length t).
Proof.
  induction t as [|d t IH]; intros i acc Ha; cbn; [lia|]. specialize (IH (i + 1) (if Ascii.eqb d c then i else acc)).
  destruct (Ascii.eqb d c); lia.
Qed.

Lemma rfind_from_app c a b : c ∉ b -> forall i acc, rfind_from c i acc (a ++ b) = rfind_from c i acc a.
Proof. intros Hb. induction a as [|d a IH]; intros i acc; cbn; [by apply rfind_from_none|]. apply IH. Qed.

Lemma before_at_id t : "@"%char ∉ t -> before_at t = t.
Proof.
  induction t as [|c t IH]; intros Hc; [done|]. cbn. apply not_elem_of_cons in Hc as [Hd Hc].
  destruct (Ascii.eqb_spec c "@"%char); [congruence|]. by rewrite IH.
Qed.

(** The tag of an image reference, and only the tag, is cut before the digest is put in its
    place: whatever the repository is, the port of its registry included. *)
Theorem tag_cut repo tag : "@"%char ∉ repo -> "@"%char ∉ tag -> "/"%char ∉ tag -> ":"%char ∉ tag ->
  repo_without_tag (repo ++ ":"%char :: tag) = repo.
Proof.
  intros Hr Ha Hs Hc. unfold repo_without_tag, rfind. rewrite before_at_id by (rewrite elem_of_app, elem_of_cons; intros [?|[?|?]]; done).
  rewrite (rfind_from_last ":"%char) by done.
  rewrite (rfind_from_app "/"%char) by (rewrite elem_of_cons; intros [?|?]; done).
  pose proof (rfind_from_bound "/"%char repo 0 (-1) ltac:(lia)). destruct (Z.ltb_spec (rfind_from "/" 0 (-1) repo) (0 + Z.of_nat (length repo))); [|lia].
  rewrite Z.add_0_l, Nat2Z.id. apply take_app_length.
Qed.
