(* ===== verification/InProcess.v ===== *)
(** * The in-process driver (server/drivers/inprocess.py)

    The in-tree driver in its spawning mode, inside the control plane's container:
    workers are capped, talk to the loopback address, open no metrics port and
    get an output socket each.  The processes themselves are not modelled; the
    bookkeeping is [Driver.Fake]'s, and the environment of a spawned worker is
    [AgentConfig.child_env] with the driver's overrides and the slot's socket.

    The theorems: the cap holds of every fleet the driver has, and no two
    workers, of one run or of two, share an output socket. *)

From S2P Require Import Prelude.
From S2P Require Import PyFloat.
From S2P Require Import PyValue.
From S2P Require Import Driver.
From S2P Require Import AgentConfig.
From Stdlib Require Import QArith Ascii.
Open Scope Z_scope.

Record InProcessDriver : Type := mkInProcess {
  ip_control_url : string;
  ip_pythonpath : string;
  ip_max_workers : Z;
  ip_base : FakeDriver;
}.

Definition env_overrides (d : InProcessDriver) : environ :=
  <[ "STOKER_CONTROL_URL" := ip_control_url d ]> (<[ "STOKER_METRICS_PORT" := "0" ]> {[ "PYTHONPATH" := ip_pythonpath d ]}).

Definition set_base (b : FakeDriver) (d : InProcessDriver) : InProcessDriver :=
  mkInProcess (ip_control_url d) (ip_pythonpath d) (ip_max_workers d) b.

(** [_require_within_cap] *)
Definition within_cap (d : InProcessDriver) (workers : Z) : result unit :=
  if ip_max_workers d <? workers then Raise (DriverError "in-process fleet is capped") else Ok tt.

Definition create (d : InProcessDriver) (run : RunSnapshot) (workers : Z) : InProcessDriver * result DriverRef :=
  match within_cap d workers with
  | Raise e => (d, Raise e)
  | Ok _ => let '(b, r) := Fake.create (ip_base d) run workers in (set_base b d, r)
  end.

Definition scale (d : InProcessDriver) (ref : DriverRef) (workers : Z) : InProcessDriver * result unit :=
  match within_cap d workers with
  | Raise e => (d, Raise e)
  | Ok _ => let '(b, r) := Fake.scale (ip_base d) ref workers in (set_base b d, r)
  end.

Section SlotEnv.
(** [tempfile.gettempdir()] *)
Context (tmp : string).

(** [_slot_env] *)
Definition slot_socket (run_id slot : Z) : string :=
  tmp +:+ "/stoker-inproc-" +:+ pretty run_id +:+ "-" +:+ pretty slot +:+ ".sock".

(** The environment of worker [slot] of a fleet: [_child_env] with the overrides below the
    slot's own. *)
Definition worker_env (process : environ) (d : InProcessDriver) (snapshot : environ) (run_id slot : Z) : environ :=
  child_env process snapshot (<[ "STOKER_OUTPUT_SOCKET" := slot_socket run_id slot ]> (env_overrides d)) slot.
End SlotEnv.

(** [build_inprocess_driver]; [worker_root] is what [_find_worker_root] found. *)
Definition build_inprocess_driver (enabled : bool) (worker_root : option string) (port max_setting : Z)
    (control_url : option string) (max_workers : option Z) (pythonpath : string -> string) : result InProcessDriver :=
  if negb enabled then Raise (DriverError "the in-process fleet is disabled")
  else
    match worker_root with
    | None => Raise (DriverError "the in-process fleet needs the worker source")
    | Some root =>
        Ok (mkInProcess
              (match control_url with Some u => if nonempty u then u else "http://127.0.0.1:" +:+ pretty port
                                    | None => "http://127.0.0.1:" +:+ pretty port end)
              (pythonpath root)
              (match max_workers with Some m => if m =? 0 then max_setting else m | None => max_setting end)
              Fake.init)
    end.

(** [_worker_pythonpath] *)
Definition worker_pythonpath (existing : option string) (root : string) : string :=
  String.concat ":" ([root; root +:+ "/engines/eventgen"; root +:+ "/engines/rawreplay"] ++
    match existing with Some e => if nonempty e then [e] else [] | None => [] end).

(** ** The cap *)

Definition capped (d : InProcessDriver) : Prop :=
  forall k s, (k, s) ∈ fk_fleets (ip_base d) -> fs_desired s <= ip_max_workers d.

Lemma update_in fs id f k s : (k, s) ∈ Fake.update fs id f -> (k, s) ∈ fs \/ exists s0, (k, s0) ∈ fs /\ s = f s0.
Proof.
  induction fs as [|[k' s'] fs IH]; cbn; [set_solver|]. case_bool_decide.
  - intros [[= -> ->]|Hin]%elem_of_cons; [right; exists s'; set_solver|left; set_solver].
  - intros [[= -> ->]|Hin]%elem_of_cons; [left; set_solver|]. destruct (IH Hin) as [?|(s0 & ? & ->)]; [left; set_solver|right; exists s0; set_solver].
Qed.

(** No fleet is larger than the cap: a driver with none keeps that through every create and
    scale, and one that asks for more is refused and changes nothing. *)
Theorem fleets_capped d :
  capped d -> (forall run n, capped (fst (create d run n))) /\ (forall ref n, capped (fst (scale d ref n))) /\
  (forall run n, ip_max_workers d < n -> create d run n = (d, Raise (DriverError "in-process fleet is capped"))).
Proof.
  intros Hc. split_and!.
  - intros run n. unfold create, within_cap. destruct (Z.ltb_spec (ip_max_workers d) n) as [|Hn]; [done|].
    unfold Fake.create. destruct (n <? 1); [done|]. cbn. intros k s Hin. cbn in *. unfold Fake.put in Hin.
    destruct (Fake.find _ _).
    + apply update_in in Hin as [Hin|(s0 & _ & ->)]; [by apply (Hc k)|done].
    + apply elem_of_app in Hin as [Hin|[= -> ->]%list_elem_of_singleton]; [by apply (Hc k)|done].
  - intros ref n. unfold scale, within_cap. destruct (Z.ltb_spec (ip_max_workers d) n) as [|Hn]; [done|].
    unfold Fake.scale. destruct (n <? 0); [done|]. destruct (Fake.require _ _); [|done]. cbn. intros k s Hin. cbn in *.
    apply update_in in Hin as [Hin|(s0 & _ & ->)]; [by apply (Hc k)|done].
  - intros run n Hn. unfold create, within_cap. by rewrite (proj2 (Z.ltb_lt _ _) Hn).
Qed.

(** ** Sockets *)

Lemma string_chars_app (a b : string) :
  String.list_ascii_of_string (a +:+ b) = String.list_ascii_of_string a ++ String.list_ascii_of_string b.
Proof. induction a as [|c a IH]; [done|]. cbn. by rewrite <- IH. Qed.

Lemma digits_dash_inj a b c d : all_digits a -> all_digits c -> a ++ "-"%char :: b = c ++ "-"%char :: d -> a = c /\ b = d.
Proof.
  intros Ha. revert c. induction Ha as [|x a [v Hx] _ IH]; intros c Hc E.
  - destruct c as [|y c]; [by injection E|]. injection E as <- _. apply Forall_cons in Hc as [[v Hv] _]. done.
  - destruct c as [|y c]; [injection E as -> _; done|]. injection E as <- E. apply Forall_cons in Hc as [_ Hc].
    destruct (IH c Hc E) as [-> ->]. done.
Qed.

Lemma pretty_dash_inj (r s r' s' : Z) (t : string) : 0 <= r -> 0 <= r' ->
  pretty r +:+ "-" +:+ pretty s +:+ t = pretty r' +:+ "-" +:+ pretty s' +:+ t -> r = r' /\ pretty s +:+ t = pretty s' +:+ t.
Proof.
  intros Hr Hr' E. destruct (pretty_digits r Hr) as (ds & Hd & _ & Hv & Es). destruct (pretty_digits r' Hr') as (ds' & Hd' & _ & Hv' & Es').
  apply (f_equal String.list_ascii_of_string) in E. rewrite !string_chars_app, Es, Es' in E. cbn [String.list_ascii_of_string app] in E.
  apply digits_dash_inj in E as [E1 E2]; [|done|done]. subst ds'. split; [congruence|].
  apply string_chars_inj. rewrite !string_chars_app. exact E2.
Qed.

Lemma string_app_inj_r (a b t : string) : a +:+ t = b +:+ t -> a = b.
Proof.
  intros E. apply string_chars_inj. apply (f_equal String.list_ascii_of_string) in E.
  rewrite !string_chars_app in E. by apply app_inv_tail in E.
Qed.

(** No two workers share an output socket: whatever the environments they are spawned from,
    the workers of different slots, and those of different runs, read different paths. *)
Theorem sockets_distinct tmp process d snap snap' r r' s s' : 0 <= r -> 0 <= r' ->
  worker_env tmp process d snap r s !! "STOKER_OUTPUT_SOCKET" = worker_env tmp process d snap' r' s' !! "STOKER_OUTPUT_SOCKET" ->
  r = r' /\ s = s'.
Proof.
  intros Hr Hr'. assert (forall sn q n, worker_env tmp process d sn q n !! "STOKER_OUTPUT_SOCKET" = Some (slot_socket tmp q n)) as Hl.
  { intros sn q n. unfold worker_env, child_env. cbv zeta. set (env := _ ∪ _). assert (env !! "STOKER_OUTPUT_SOCKET" = Some (slot_socket tmp q n)) as E.
    { unfold env. apply lookup_union_Some_l, lookup_insert_eq. }
    destruct (env !! "STOKER_HINT_SLOT"); [done|]. by rewrite lookup_insert_ne. }
  rewrite !Hl. intros [= E]. unfold slot_socket in E. apply (inj (String.app tmp)) in E. apply (inj (String.app "/stoker-inproc-")) in E.
  apply pretty_dash_inj in E as [-> E]; [|done|done]. split; [done|]. apply string_app_inj_r in E. by apply (inj pretty) in E.
Qed.
