(* ===== verification/Upload.v ===== *)
(** * Uploaded packs (server/packupload.py)

    An archive sent over HTTP is extracted by hand into a throwaway directory, its pack
    root is found and moved to a directory of its own.  The file system is a map from
    paths (lists of components) to files and directories; reading the two archive
    formats is the argument [reader]: the members in their order, each with the
    chunks its stream gives and what ends it.  [os.path.realpath] is an argument too.

    The theorems: whatever the archive holds and however the extraction ends, nothing
    outside the throwaway directory changes, no file is larger than the member cap and
    the disk grows by no more than the total cap; and an upload either
    leaves the file system as it was, or adds one new directory that holds a pack. *)

From S2P Require Import Prelude.
From S2P Require Import PyFloat.
From S2P Require Import PyValue.
From S2P Require Import PackYaml.
From S2P Require Import Git.
From Stdlib Require Import Ascii.
Open Scope Z_scope.

(** ** The file system *)

Abbreviation path := (list string).
Inductive node : Type := NDir | NFile (content : text).
Global Instance node_eq_dec : EqDecision node.
Proof. solve_decision. Defined.
Abbreviation fs := (gmap path node).

Definition exists_at (p : path) (s : fs) : bool := bool_decide (is_Some (s !! p)).
Definition isdir (p : path) (s : fs) : bool := match s !! p with Some NDir => true | _ => false end.
Definition isfile (p : path) (s : fs) : bool := match s !! p with Some (NFile _) => true | _ => false end.

Definition under_dir (d p : path) : bool := bool_decide (d `prefix_of` p).

(** [os.makedirs(p, exist_ok=True)], ancestor by ancestor; the root is there. *)
Definition mkdir_ok (p : path) : M fs unit := fun s =>
  match s !! p with
  | Some (NFile _) => (s, Raise OSError)
  | Some NDir => (s, Ok tt)
  | None => (<[p := NDir]> s, Ok tt)
  end.
Fixpoint makedirs_from (base rest : path) : M fs unit :=
  match rest with
  | [] => mret tt
  | c :: rest => mkdir_ok (base ++ [c]) ≫= fun _ => makedirs_from (base ++ [c]) rest
  end.
Definition makedirs (p : path) : M fs unit := makedirs_from [] p.

(** [open(p, "wb")], and a write to the open file *)
Definition open_wb (p : path) : M fs unit := fun s =>
  match s !! p with
  | Some NDir => (s, Raise OSError)
  | _ => (<[p := NFile []]> s, Ok tt)
  end.
Definition append_to (p : path) (c : text) : M fs unit := modify (fun s =>
  match s !! p with Some (NFile t) => <[p := NFile (t ++ c)]> s | _ => s end).

(** [shutil.rmtree(d, ignore_errors=True)] and [os.rename(root, final)] *)
Definition rmtree_fs (d : path) (s : fs) : fs := filter (fun pn => under_dir d pn.1 = false) s.
Definition moved_path (root final p : path) : path := if under_dir root p then final ++ drop (length root) p else p.
Definition rename_dir (root final : path) : M fs unit := fun s =>
  if exists_at final s then (s, Raise OSError)
  else (list_to_map ((fun pn => (moved_path root final pn.1, pn.2)) <$> map_to_list s), Ok tt).

(** ** Archives *)

(** A member's stream: the chunks its reads give, and what ends it when it is not the end. *)
Record stream : Type := mkStream { st_chunks : list text; st_fault : option exn }.

Inductive tar_kind : Type := TReg | TDir | TSym | TLink | TDevice | TOther.
Record tar_info : Type := mkTar { ti_name : string; ti_kind : tar_kind; ti_stream : stream }.
Record zip_info : Type := mkZip { zi_name : string; zi_attr : Z; zi_stream : stream }.

(** A tar is read as it is iterated; a zip's directory is read at once. *)
Record reader : Type := mkReader {
  rd_tar : text -> option (list tar_info * option exn);
  rd_zip : text -> option (list zip_info);
}.

Record UploadLimits : Type := mkLimits { max_members : Z; max_member_bytes : Z; max_total_bytes : Z }.

(** [detect_format] *)
Inductive archive_format : Type := Zip | Tar.
Definition bytes_text (ns : list N) : text := ascii_of_N <$> ns.
Definition ZIP_MAGICS : list text := bytes_text <$> [[80; 75; 3; 4]; [80; 75; 5; 6]; [80; 75; 7; 8]]%N.
Definition GZIP_MAGIC : text := bytes_text [31; 139]%N.
Definition TAR_MAGIC_OFFSET : nat := 257.
Definition TAR_MAGICS : list text := bytes_text <$> [[117; 115; 116; 97; 114; 0]; [117; 115; 116; 97; 114; 32]]%N.
Definition starts_with (m t : text) : bool := match strip_prefix m t with Some _ => true | None => false end.
Definition detect_format (data : text) : option archive_format :=
  if existsb (fun m => starts_with m data) ZIP_MAGICS then Some Zip
  else if starts_with GZIP_MAGIC data then Some Tar
  else if existsb (fun m => starts_with m (take 6 (drop TAR_MAGIC_OFFSET data))) TAR_MAGICS then Some Tar
  else None.

(** [text.split("/")] *)
Fixpoint split_slash (t : text) : list text :=
  match t with
  | [] => [[]]
  | c :: t => if Ascii.eqb c "/"%char then [] :: split_slash t
              else match split_slash t with [] => [[c]] | w :: ws => (c :: w) :: ws end
  end.

(** [_WINDOWS_DRIVE_RE] *)
Definition drive_letter (c : ascii) : bool :=
  let n := N_of_ascii c in ((65 <=? n) && (n <=? 90) || (97 <=? n) && (n <=? 122))%N.
Definition has_drive (t : text) : bool := match t with c :: d :: _ => drive_letter c && Ascii.eqb d ":"%char | _ => false end.

(** [_member_dest] *)
Definition unslash (c : ascii) : ascii := if Ascii.eqb c BACKSLASH then "/"%char else c.
Definition parts_of (t : text) : path :=
  of_chars <$> List.filter (fun p => negb (bool_decide (p = []) || bool_decide (p = ["."%char]))) (split_slash t).
Definition member_dest (realpath : path -> path) (dest_dir : path) (name : string) : result path :=
  let normalised := unslash <$> chars_of name in
  match normalised with
  | [] => Raise (PackUploadError "absolute path (refused)")
  | c :: _ =>
      if Ascii.eqb c "/"%char then Raise (PackUploadError "absolute path (refused)")
      else if has_drive normalised then Raise (PackUploadError "drive-letter path (refused)")
      else
        let parts := parts_of normalised in
        if bool_decide (parts = []) then Raise (PackUploadError "empty path (refused)")
        else if bool_decide (".." ∈ parts) then Raise (PackUploadError "escapes the extraction directory (refused)")
        else
          let dest := dest_dir ++ parts in
          if under_dir (realpath dest_dir) (realpath dest) then Ok dest
          else Raise (PackUploadError "escapes the extraction directory (refused)")
  end.

(** [_copy_capped] *)
Fixpoint copy_chunks (dest : path) (member_cap total total_cap written : Z) (chunks : list text) (fault : option exn) : M fs Z :=
  match chunks with
  | [] => match fault with Some e => raise e | None => mret (total + written) end
  | [] :: _ => mret (total + written)
  | c :: chunks =>
      let written := written + Z.of_nat (length c) in
      if member_cap <? written then raise (PackUploadError "member exceeds the per-file limit (refused)")
      else if total_cap <? total + written then raise (PackUploadError "archive exceeds the total uncompressed limit (refused)")
      else append_to dest c ≫= fun _ => copy_chunks dest member_cap total total_cap written chunks fault
  end.

Definition copy_capped (src : stream) (dest : path) (member_cap total total_cap : Z) : M fs Z :=
  makedirs (removelast dest) ≫= fun _ =>
  open_wb dest ≫= fun _ =>
  copy_chunks dest member_cap total total_cap 0 (st_chunks src) (st_fault src).

Section Extract.
Context (realpath : path -> path) (limits : UploadLimits) (dest_dir : path).

(** [_extract_tar] *)
Fixpoint tar_members (infos : list tar_info) (fault : option exn) (members total : Z) : M fs unit :=
  match infos with
  | [] => match fault with Some e => raise e | None => mret tt end
  | info :: infos =>
      let members := members + 1 in
      if max_members limits <? members then raise (PackUploadError "too many members (refused)")
      else
        match ti_kind info with
        | TSym => raise (PackUploadError "symlink (refused: links are never extracted)")
        | TLink => raise (PackUploadError "hardlink (refused: links are never extracted)")
        | TDevice => raise (PackUploadError "device/fifo node (refused)")
        | TDir => lift (member_dest realpath dest_dir (ti_name info)) ≫= fun d => makedirs d ≫= fun _ => tar_members infos fault members total
        | TOther => raise (PackUploadError "unsupported type (refused)")
        | TReg =>
            lift (member_dest realpath dest_dir (ti_name info)) ≫= fun dest =>
            copy_capped (ti_stream info) dest (max_member_bytes limits) total (max_total_bytes limits) ≫= fun total =>
            tar_members infos fault members total
        end
  end.

Definition extract_tar (archive : option (list tar_info * option exn)) : M fs unit :=
  match archive with
  | None => raise (PackUploadError "could not read the upload as a tar archive")
  | Some (infos, fault) => tar_members infos fault 0 0
  end.

(** [_extract_zip] *)
Definition S_IFMT (mode : Z) : Z := Z.land mode 61440.
Definition S_IFLNK : Z := 40960.
Definition S_IFREG : Z := 32768.
Definition S_IFDIR : Z := 16384.
Definition zip_mode (info : zip_info) : Z := Z.shiftr (zi_attr info) 16.
Definition zip_is_dir (info : zip_info) : bool := bool_decide (last (chars_of (zi_name info)) = Some "/"%char).

Definition corrupt_refused {A} (m : M fs A) : M fs A :=
  catch m (fun e => raise (match e with ArchiveError => PackUploadError "member is corrupt" | _ => e end)).

Fixpoint zip_members (infos : list zip_info) (total : Z) : M fs unit :=
  match infos with
  | [] => mret tt
  | info :: infos =>
      let mode := zip_mode info in
      if S_IFMT mode =? S_IFLNK then raise (PackUploadError "symlink (refused: links are never extracted)")
      else if negb (bool_decide (S_IFMT mode ∈ [0; S_IFREG; S_IFDIR])) then raise (PackUploadError "not a regular file or directory (refused)")
      else if zip_is_dir info then
        lift (member_dest realpath dest_dir (zi_name info)) ≫= fun d => makedirs d ≫= fun _ => zip_members infos total
      else
        lift (member_dest realpath dest_dir (zi_name info)) ≫= fun dest =>
        corrupt_refused (copy_capped (zi_stream info) dest (max_member_bytes limits) total (max_total_bytes limits)) ≫= fun total =>
        zip_members infos total
  end.

Definition extract_zip (archive : option (list zip_info)) : M fs unit :=
  match archive with
  | None => raise (PackUploadError "could not read the upload as a zip archive")
  | Some infos =>
      if max_members limits <? Z.of_nat (length infos) then raise (PackUploadError "too many members (refused)")
      else zip_members infos 0
  end.
End Extract.

(** ** The pack root and its directory *)

(** [lifecycle._looks_like_pack_root] *)
Definition looks_like_pack_root (d : path) (s : fs) : bool :=
  isfile (d ++ ["default"; "eventgen.conf"]) s || isfile (d ++ ["pack.yaml"]) s || isfile (d ++ ["stoker.json"]) s.

Definition JUNK_NAMES : list string := ["__MACOSX"; ".DS_Store"].
Definition is_junk (entry : string) : bool := bool_decide (entry ∈ JUNK_NAMES) || String.prefix "._" entry.

(** The directories directly in [d], packaging junk apart; the code sorts them, which does
    not matter to whether there is exactly one. *)
Definition entry_of_dir (d : path) (p : path) : option string :=
  if under_dir d p then match drop (length d) p with [e] => Some e | _ => None end else None.
Definition wrapped_dirs (d : path) (s : fs) : list path :=
  omap (fun pn =>
    match entry_of_dir d pn.1, pn.2 with
    | Some e, NDir => if is_junk e then None else Some pn.1
    | _, _ => None
    end) (map_to_list s).

(** [find_pack_root] *)
Definition find_pack_root (extract_dir : path) (s : fs) : result path :=
  if looks_like_pack_root extract_dir s then Ok extract_dir
  else
    match wrapped_dirs extract_dir s with
    | [d] => if looks_like_pack_root d s then Ok d else Raise (PackUploadError "no pack found in the archive")
    | _ => Raise (PackUploadError "no pack found in the archive")
    end.

(** [_SLUG_BAD_RE.sub("-", hint)]: a run of other characters becomes one dash. *)
Definition is_slug_char (c : ascii) : bool :=
  let n := N_of_ascii c in drive_letter c || ((48 <=? n) && (n <=? 57))%N || bool_decide (c ∈ ["."; "_"; "-"]%char).
Fixpoint slug_chars (in_run : bool) (t : text) : text :=
  match t with
  | [] => []
  | c :: t => if is_slug_char c then c :: slug_chars false t
              else if in_run then slug_chars true t else "-"%char :: slug_chars true t
  end.
Fixpoint lstrip_of (x : ascii) (t : text) : text := match t with c :: t' => if Ascii.eqb c x then lstrip_of x t' else t | [] => [] end.
Definition strip_of (x : ascii) (t : text) : text := reverse (lstrip_of x (reverse (lstrip_of x t))).
Definition slug_of (hint : string) : string :=
  match lstrip_of "."%char (strip_of "-"%char (slug_chars false (chars_of hint))) with [] => "pack" | t => of_chars t end.

(** [_unique_pack_dir]; one try per path of the file system and one more. *)
Fixpoint next_free (fuel : nat) (upload_dir : path) (slug : string) (counter : Z) (s : fs) : option path :=
  match fuel with
  | O => None
  | S fuel =>
      let candidate := upload_dir ++ [slug +:+ "-" +:+ pretty counter] in
      if exists_at candidate s then next_free fuel upload_dir slug (counter + 1) s else Some candidate
  end.
Definition unique_pack_dir (upload_dir : path) (hint : string) (s : fs) : option path :=
  let slug := slug_of hint in
  if exists_at (upload_dir ++ [slug]) s then next_free (S (size s)) upload_dir slug 2 s else Some (upload_dir ++ [slug]).

(** [store_uploaded_pack]; [uuid] is the fresh hexadecimal of the staging directory. *)
Section Store.
Context (rd : reader) (realpath : path -> path) (limits : UploadLimits).

Definition extract (fmt : archive_format) (data : text) (staging : path) : M fs unit :=
  match fmt with
  | Zip => extract_zip realpath limits staging (rd_zip rd data)
  | Tar => extract_tar realpath limits staging (rd_tar rd data)
  end.

Definition place_pack (upload_dir staging : path) (name_hint : option string) : M fs path := fun s =>
  match find_pack_root staging s with
  | Raise e => (s, Raise e)
  | Ok root =>
      let hint := match name_hint with Some h => if nonempty h then h else default "" (last root) | None => default "" (last root) end in
      match unique_pack_dir upload_dir hint s with
      | None => (s, Raise OSError)
      | Some final => (rename_dir root final ≫= fun _ => mret final) s
      end
  end.

Definition staging_of (upload_dir : path) (uuid : string) : path := upload_dir ++ [".extract-" +:+ uuid].

Definition store_uploaded_pack (data : text) (upload_dir : path) (uuid : string) (name_hint : option string) : M fs path :=
  match detect_format data with
  | None => raise (PackUploadError "unrecognised archive")
  | Some fmt =>
      let staging := staging_of upload_dir uuid in
      makedirs upload_dir ≫= fun _ =>
      makedirs staging ≫= fun _ =>
      catch (extract fmt data staging ≫= fun _ => place_pack upload_dir staging name_hint)
        (fun e => modify (rmtree_fs staging) ≫= fun _ => raise e) ≫= fun final =>
      modify (rmtree_fs staging) ≫= fun _ => mret final
  end.
End Store.

(** ** The body and the removal (server/routes/api.py) *)

(** [_read_upload_capped] over the chunks the body's reads give *)
Fixpoint read_body (max_bytes total : Z) (acc : text) (chunks : list text) : result text :=
  match chunks with
  | [] | [] :: _ => if total =? 0 then Raise (HTTPException 400 "empty upload") else Ok acc
  | c :: chunks =>
      let total := total + Z.of_nat (length c) in
      if max_bytes <? total then Raise (HTTPException 413 "pack_upload_too_large") else read_body max_bytes total (acc ++ c) chunks
  end.
Definition read_upload_capped (chunks : list text) (max_bytes : Z) : result text := read_body max_bytes 0 [] chunks.

(** [_remove_uploaded_pack_dir]: only what lies strictly inside the upload directory *)
Definition remove_uploaded_pack_dir (realpath : path -> path) (upload_dir source_path : path) (s : fs) : fs :=
  let root := realpath upload_dir in
  let real := realpath source_path in
  if under_dir root real && negb (bool_decide (real = root)) && isdir real s then rmtree_fs real s else s.

(** ** Extraction stays in its directory and within its caps *)

Definition node_size (n : node) : nat := match n with NDir => 0%nat | NFile t => length t end.

(** The bytes of all files. *)
Definition bytes (s : fs) : nat := sum_list_with (fun pn => node_size pn.2) (map_to_list s).

Definition old_size (p : path) (s : fs) : nat := match s !! p with Some n => node_size n | None => 0%nat end.

Lemma bytes_fresh p n s : s !! p = None -> bytes (<[p := n]> s) = (node_size n + bytes s)%nat.
Proof. intros H. unfold bytes. by rewrite (map_to_list_insert s p n H). Qed.

Lemma bytes_insert p n s : (bytes (<[p := n]> s) + old_size p s = node_size n + bytes s)%nat.
Proof.
  unfold old_size. destruct (s !! p) as [o|] eqn:E; [|rewrite bytes_fresh by done; lia].
  pose proof (bytes_fresh p o (delete p s) (lookup_delete_eq s p)) as Ho. rewrite insert_delete_id in Ho by done.
  pose proof (bytes_fresh p n (delete p s) (lookup_delete_eq s p)) as Hn. rewrite insert_delete_eq in Hn. lia.
Qed.

(** What an effect below [d] may do: change nothing elsewhere, keep directories, let the
    disk grow by [grow] bytes, and leave no new file above [cap]. *)
Definition confined (d : path) (cap grow : Z) (s s' : fs) : Prop :=
  (forall p, under_dir d p = false -> s' !! p = s !! p) /\
  (forall p, s !! p = Some NDir -> s' !! p = Some NDir) /\
  Z.of_nat (bytes s') <= Z.of_nat (bytes s) + grow /\
  (forall p t, s' !! p = Some (NFile t) -> s !! p = Some (NFile t) \/ Z.of_nat (length t) <= cap).

Lemma confined_refl d cap s : confined d cap 0 s s.
Proof. split_and!; [done|done|lia|by left]. Qed.

Lemma confined_trans d cap g1 g2 s1 s2 s3 : confined d cap g1 s1 s2 -> confined d cap g2 s2 s3 -> confined d cap (g1 + g2) s1 s3.
Proof.
  intros (H1 & H2 & H3 & H4) (K1 & K2 & K3 & K4). split_and!; [intros; by rewrite K1, H1|auto|lia|].
  intros p t Hp. destruct (K4 p t Hp) as [Hp'|]; [apply (H4 p t Hp')|by right].
Qed.

Lemma confined_more d cap g g' s s' : g <= g' -> confined d cap g s s' -> confined d cap g' s s'.
Proof. intros Hg (H1 & H2 & H3 & H4). split_and!; [done|done|lia|done]. Qed.

Lemma confined_insert d cap p n s : under_dir d p = true -> s !! p <> Some NDir ->
  (forall t, n = NFile t -> s !! p = Some (NFile t) \/ Z.of_nat (length t) <= cap) ->
  confined d cap (Z.of_nat (node_size n) - Z.of_nat (old_size p s)) s (<[p := n]> s).
Proof.
  intros Hd Hp Hn. split_and!.
  - intros q Hq. apply lookup_insert_ne. intros ->. congruence.
  - intros q Hq. rewrite lookup_insert_ne; [done|]. intros ->. done.
  - pose proof (bytes_insert p n s). lia.
  - intros q t. destruct (decide (p = q)) as [<-|Hne].
    + rewrite lookup_insert_eq. intros [= ->]. by apply Hn.
    + rewrite lookup_insert_ne by done. by left.
Qed.

Lemma under_dir_app d r : under_dir d (d ++ r) = true.
Proof. apply bool_decide_eq_true. by exists r. Qed.

Lemma under_dir_spec d p : under_dir d p = true <-> exists r, p = d ++ r.
Proof. unfold under_dir. rewrite bool_decide_eq_true. done. Qed.

(** Directories on the way to [d] exist, so what is made is below it. *)
Definition rooted_at (d : path) (s : fs) : Prop := forall q, q `prefix_of` d -> q <> [] -> s !! q = Some NDir.

Lemma rooted_confined d cap g s s' : rooted_at d s -> confined d cap g s s' -> rooted_at d s'.
Proof. intros Hr (_ & Hk & _) q Hq Hne. by apply Hk, Hr. Qed.

Lemma makedirs_through base e r s : (forall q, q `prefix_of` e -> q <> [] -> s !! (base ++ q) = Some NDir) ->
  makedirs_from base (e ++ r) s = makedirs_from (base ++ e) r s.
Proof.
  revert base. induction e as [|c e IH]; intros base H; [by rewrite app_nil_r|].
  cbn [app makedirs_from]. unfold mbind, M_bind, mkdir_ok. rewrite (H [c]) by (by try exists e). cbv beta iota.
  rewrite IH; [by rewrite <- app_assoc|]. intros q Hq Hne. rewrite <- app_assoc. apply (H (c :: q)); [|done]. by apply prefix_cons.
Qed.

Lemma makedirs_below d cap base rest : forall s s' r, under_dir d base = true ->
  makedirs_from base rest s = (s', r) -> confined d cap 0 s s'.
Proof.
  revert base. induction rest as [|c rest IH]; intros base s s' r Hb; cbn [makedirs_from].
  { intros [= <- _]. apply confined_refl. }
  assert (under_dir d (base ++ [c]) = true) as Hc.
  { apply under_dir_spec in Hb as [e ->]. rewrite <- app_assoc. apply under_dir_app. }
  unfold mbind, M_bind, mkdir_ok. destruct (s !! (base ++ [c])) as [[|t]|] eqn:E.
  - by apply IH.
  - intros [= <- _]. apply confined_refl.
  - intros Hrest. apply IH in Hrest; [|done]. change 0 with (0 + 0). eapply confined_trans; [|exact Hrest].
    eapply confined_more; [|apply (confined_insert d cap (base ++ [c]) NDir s Hc); [by rewrite E|done]]. unfold old_size. rewrite E. cbn. lia.
Qed.

Lemma makedirs_confined d cap r s s' res : rooted_at d s -> makedirs (d ++ r) s = (s', res) -> confined d cap 0 s s'.
Proof.
  intros Hr. unfold makedirs. rewrite makedirs_through by (intros q; apply Hr). apply makedirs_below. cbn [app]. rewrite <- (app_nil_r d) at 2. apply under_dir_app.
Qed.

Lemma open_confined d cap p s s' r : 0 <= cap -> under_dir d p = true -> open_wb p s = (s', r) ->
  confined d cap 0 s s' /\ match r with Ok _ => s' !! p = Some (NFile []) | Raise _ => True end.
Proof.
  intros Hcap Hp. unfold open_wb. destruct (s !! p) as [[|t]|] eqn:E; intros [= <- <-].
  - split; [apply confined_refl|done].
  - split; [|apply lookup_insert_eq]. eapply confined_more; [|apply confined_insert; [done|by rewrite E|intros t' [= <-]; right; cbn; lia]]. cbn. lia.
  - split; [|apply lookup_insert_eq]. eapply confined_more; [|apply confined_insert; [done|by rewrite E|intros t' [= <-]; right; cbn; lia]]. cbn. lia.
Qed.

Lemma copy_chunks_confined d cap p total total_cap fault chunks : under_dir d p = true -> forall written s s' r t,
  s !! p = Some (NFile t) -> Z.of_nat (length t) = written -> total + written <= total_cap ->
  copy_chunks p cap total total_cap written chunks fault s = (s', r) ->
  confined d cap (match r with Ok total' => total' - total - written | Raise _ => total_cap - total - written end) s s' /\
  match r with Ok total' => total + written <= total' <= total_cap | Raise _ => True end.
Proof.
  intros Hp. induction chunks as [|c chunks IH]; intros written s s' r t Ht Hw Htot; cbn [copy_chunks].
  { destruct fault; intros [= <- <-]; (split; [eapply confined_more; [|apply confined_refl]|]; try lia); done. }
  destruct c as [|x c].
  { intros [= <- <-]. split; [eapply confined_more; [|apply confined_refl]|]; lia. }
  destruct (Z.ltb_spec cap (written + Z.of_nat (length (x :: c)))) as [|Hcap].
  { intros [= <- <-]. split; [eapply confined_more; [|apply confined_refl]; lia|done]. }
  destruct (Z.ltb_spec total_cap (total + (written + Z.of_nat (length (x :: c))))) as [|Htc].
  { intros [= <- <-]. split; [eapply confined_more; [|apply confined_refl]; lia|done]. }
  unfold mbind, M_bind, append_to, modify. rewrite Ht. intros E.
  assert (Z.of_nat (length (t ++ x :: c)) = written + Z.of_nat (length (x :: c))) as Hlen by (rewrite length_app; lia).
  apply (IH _ _ _ _ (t ++ x :: c)) in E as [Hc Hr]; [|apply lookup_insert_eq|done|lia].
  split; [|destruct r; [lia|done]]. eapply confined_more; [|eapply confined_trans; [|exact Hc]].
  2: apply confined_insert; [done|by rewrite Ht|intros t' [= <-]; right; lia].
  unfold old_size. rewrite Ht. cbn [node_size]. destruct r; lia.
Qed.

Lemma member_dest_below realpath d name dest : member_dest realpath d name = Ok dest ->
  exists parts, dest = d ++ parts /\ parts <> [] /\ ".." ∉ parts.
Proof.
  unfold member_dest. destruct (unslash <$> chars_of name) as [|c t]; [done|]. destruct (Ascii.eqb c "/"); [done|].
  destruct (has_drive (c :: t)); [done|]. destruct (bool_decide_reflect (parts_of (c :: t) = [])) as [|Hne]; [done|].
  destruct (bool_decide_reflect (".." ∈ parts_of (c :: t))) as [|Hdots]; [done|].
  destruct (under_dir _ _); [|done]. intros [= <-]. by exists (parts_of (c :: t)).
Qed.

Section Confined.
Context (realpath : path -> path) (limits : UploadLimits) (d : path).
Hypothesis caps : 0 <= max_member_bytes limits /\ 0 <= max_total_bytes limits.
Abbreviation cap := (max_member_bytes limits).
Abbreviation tcap := (max_total_bytes limits).

Lemma copy_capped_confined src parts total s s' r : rooted_at d s -> parts <> [] -> total <= tcap ->
  copy_capped src (d ++ parts) cap total tcap s = (s', r) ->
  confined d cap (match r with Ok total' => total' - total | Raise _ => tcap - total end) s s' /\
  match r with Ok total' => total' <= tcap | Raise _ => True end.
Proof.
  intros Hr Hne Htot. unfold copy_capped, mbind, M_bind. rewrite removelast_app by done.
  destruct (makedirs _ s) as [s1 [[]|e]] eqn:E1; apply (makedirs_confined d cap) in E1; try done.
  2: { intros [= <- <-]. split; [eapply confined_more; [|exact E1]; lia|done]. }
  destruct (open_wb _ s1) as [s2 [[]|e]] eqn:E2; apply (open_confined d cap) in E2 as [H2 Hfile]; try apply under_dir_app; try lia.
  2: { intros [= <- <-]. split; [|done]. eapply confined_more; [|eapply confined_trans; [exact E1|exact H2]]. lia. }
  intros E3. apply (copy_chunks_confined d cap _ _ _ _ _ (under_dir_app d parts)) with (t := []) in E3 as [H3 Hbound]; [|done|done|lia].
  split; [|destruct r; [lia|done]]. eapply confined_more; [|eapply confined_trans; [exact E1|eapply confined_trans; [exact H2|exact H3]]]. destruct r; lia.
Qed.

(** A member made or copied, and then the rest. *)
Lemma dir_then_confined (name : string) (total : Z) (k : M fs unit) s s' r : rooted_at d s -> total <= tcap ->
  (forall s1, rooted_at d s1 -> forall s' r, k s1 = (s', r) -> confined d cap (tcap - total) s1 s') ->
  (lift (member_dest realpath d name) ≫= fun p => makedirs p ≫= fun _ => k) s = (s', r) -> confined d cap (tcap - total) s s'.
Proof.
  intros Hr Htot Hk. unfold mbind, M_bind, lift. destruct (member_dest realpath d name) as [p|e] eqn:Ed.
  2: { intros [= <- _]. eapply confined_more; [|apply confined_refl]. lia. }
  apply member_dest_below in Ed as (parts & -> & _). destruct (makedirs _ s) as [s1 [[]|e]] eqn:E1; apply (makedirs_confined d cap) in E1; try done.
  - intros E2. apply Hk in E2; [|by eapply rooted_confined]. replace (tcap - total) with (0 + (tcap - total)) by lia. by eapply confined_trans.
  - intros [= <- _]. eapply confined_more; [|exact E1]. lia.
Qed.

Lemma file_then_confined (name : string) (total : Z) (copy : path -> M fs Z) (k : Z -> M fs unit) s s' r : rooted_at d s -> total <= tcap ->
  (forall parts s s' r, parts <> [] -> rooted_at d s -> copy (d ++ parts) s = (s', r) ->
     confined d cap (match r with Ok total' => total' - total | Raise _ => tcap - total end) s s' /\
     match r with Ok total' => total' <= tcap | Raise _ => True end) ->
  (forall total s1, total <= tcap -> rooted_at d s1 -> forall s' r, k total s1 = (s', r) -> confined d cap (tcap - total) s1 s') ->
  (lift (member_dest realpath d name) ≫= fun p => copy p ≫= k) s = (s', r) -> confined d cap (tcap - total) s s'.
Proof.
  intros Hr Htot Hcopy Hk. unfold mbind, M_bind, lift. destruct (member_dest realpath d name) as [p|e] eqn:Ed.
  2: { intros [= <- _]. eapply confined_more; [|apply confined_refl]. lia. }
  apply member_dest_below in Ed as (parts & -> & Hne & _). destruct (copy _ s) as [s1 [t|e]] eqn:E1; apply Hcopy in E1 as [H1 Ht]; try done.
  - intros E2. apply Hk in E2; [|done|by eapply rooted_confined]. replace (tcap - total) with (t - total + (tcap - t)) by lia. by eapply confined_trans.
  - intros [= <- _]. done.
Qed.

Ltac refused := intros [= <- _]; eapply confined_more; [|apply confined_refl]; lia.

Lemma tar_confined fault infos : forall members total s s' r, rooted_at d s -> total <= tcap ->
  tar_members realpath limits d infos fault members total s = (s', r) -> confined d cap (tcap - total) s s'.
Proof.
  induction infos as [|info infos IH]; intros members total s s' r Hr Htot; cbn [tar_members].
  { destruct fault; refused. }
  destruct (_ <? _); [refused|]. destruct (ti_kind info); try refused.
  - apply file_then_confined; [done|done| |].
    + intros parts s1 s1' r1 Hne Hr1. by apply copy_capped_confined.
    + intros t s1 Ht Hr1 s1' r1. by apply IH.
  - apply dir_then_confined; [done|done|]. intros s1 Hr1 s1' r1. by apply IH.
Qed.

Lemma corrupt_confined (copy : path -> M fs Z) (total : Z) p s s' r :
  (forall s s' r, rooted_at d s -> copy p s = (s', r) ->
     confined d cap (match r with Ok total' => total' - total | Raise _ => tcap - total end) s s' /\
     match r with Ok total' => total' <= tcap | Raise _ => True end) -> rooted_at d s ->
  corrupt_refused (copy p) s = (s', r) ->
  confined d cap (match r with Ok total' => total' - total | Raise _ => tcap - total end) s s' /\
  match r with Ok total' => total' <= tcap | Raise _ => True end.
Proof.
  intros Hc Hr. unfold corrupt_refused, catch. destruct (copy p s) as [s1 [t|e]] eqn:E; apply Hc in E as [H1 H2]; try done.
  - by intros [= <- <-].
  - by intros [= <- <-].
Qed.

Lemma zip_confined infos : forall total s s' r, rooted_at d s -> total <= tcap ->
  zip_members realpath limits d infos total s = (s', r) -> confined d cap (tcap - total) s s'.
Proof.
  induction infos as [|info infos IH]; intros total s s' r Hr Htot; cbn [zip_members].
  { refused. }
  destruct (_ =? _); [refused|]. destruct (negb _); [refused|]. destruct (zip_is_dir info).
  - apply dir_then_confined; [done|done|]. intros s1 Hr1 s1' r1. by apply IH.
  - apply (file_then_confined _ _ (fun p => corrupt_refused (copy_capped (zi_stream info) p cap total tcap))); [done|done| |].
    + intros parts s1 s1' r1 Hne Hr1. apply (corrupt_confined (fun p => copy_capped (zi_stream info) p cap total tcap)); [|done].
      intros. by eapply copy_capped_confined.
    + intros t s1 Ht Hr1 s1' r1. by apply IH.
Qed.

Lemma extract_confined rd fmt data s s' r : rooted_at d s -> extract rd realpath limits fmt data d s = (s', r) -> confined d cap tcap s s'.
Proof.
  intros Hr. replace tcap with (tcap - 0) by lia. destruct fmt; cbn [extract].
  - unfold extract_zip. destruct (rd_zip rd data) as [infos|]; [|refused]. destruct (_ <? _); [refused|]. apply zip_confined; [done|lia].
  - unfold extract_tar. destruct (rd_tar rd data) as [[infos fault]|]; [|refused]. apply tar_confined; [done|lia].
Qed.

(** C25: Whatever the archive holds, and whether the extraction ends or is refused on the way:
    nothing outside the directory changes, the disk grows by no more than the total cap,
    and no file that was written is larger than the member cap. *)
Theorem extraction_bounded rd fmt data s s' r : rooted_at d s -> extract rd realpath limits fmt data d s = (s', r) ->
  (forall p, under_dir d p = false -> s' !! p = s !! p) /\
  Z.of_nat (bytes s') <= Z.of_nat (bytes s) + tcap /\
  (forall p t, s' !! p = Some (NFile t) -> s !! p = Some (NFile t) \/ Z.of_nat (length t) <= cap).
Proof.
  intros Hr E. by apply extract_confined in E as (H1 & _ & H3 & H4).
Qed.
End Confined.

(** ** The name of the directory *)

Lemma slug_chars_ok b t : Forall (fun c => is_slug_char c = true) (slug_chars b t).
Proof.
  revert b. induction t as [|c t IH]; intros b; [constructor|]. cbn [slug_chars].
  destruct (is_slug_char c) eqn:E; [by constructor|]. destruct b; [done|by constructor].
Qed.

Lemma lstrip_of_ok (P : ascii -> Prop) x t : Forall P t -> Forall P (lstrip_of x t).
Proof. induction 1 as [|c t Hc Ht IH]; [constructor|]. cbn [lstrip_of]. destruct (Ascii.eqb c x); [done|by constructor]. Qed.

Lemma strip_of_ok (P : ascii -> Prop) x t : Forall P t -> Forall P (strip_of x t).
Proof. intros H. unfold strip_of. by apply Forall_reverse, lstrip_of_ok, Forall_reverse, lstrip_of_ok. Qed.

Lemma lstrip_of_head x t c t' : lstrip_of x t = c :: t' -> c <> x.
Proof. induction t as [|a t IH]; [done|]. cbn [lstrip_of]. destruct (Ascii.eqb_spec a x); [done|]. by intros [= <- _]. Qed.

(** A name that is one visible component. *)
Definition visible (name : string) : Prop :=
  Forall (fun c => is_slug_char c = true) (chars_of name) /\ exists c t, name = String c t /\ c <> "."%char.

Lemma slug_visible hint : visible (slug_of hint).
Proof.
  unfold slug_of. destruct (lstrip_of _ _) as [|c t] eqn:E.
  - split; [repeat constructor|by do 2 eexists].
  - split; [rewrite String.list_ascii_of_string_of_list_ascii, <- E; by apply lstrip_of_ok, strip_of_ok, slug_chars_ok|].
    exists c, (of_chars t). split; [done|]. by eapply lstrip_of_head.
Qed.

Lemma chars_of_app (a b : string) : chars_of (a +:+ b) = chars_of a ++ chars_of b.
Proof. induction a as [|c a IH]; [done|]. cbn. by rewrite <- IH. Qed.

Lemma digit_slug c : is_Some (digit_of c) -> is_slug_char c = true.
Proof.
  intros [v H]. unfold digit_of in H. unfold is_slug_char. destruct ((48 <=? Z.of_N (N_of_ascii c)) && (Z.of_N (N_of_ascii c) <=? 57)) eqn:E; [|done].
  apply andb_true_iff in E as [E1%Z.leb_le E2%Z.leb_le]. apply orb_true_iff. left. apply orb_true_iff. right.
  apply andb_true_iff. split; apply N.leb_le; lia.
Qed.

Lemma numbered_visible slug counter : 0 <= counter -> visible slug -> visible (slug +:+ "-" +:+ pretty counter).
Proof.
  intros Hc [Hs (c & t & -> & Hd)]. destruct (pretty_digits counter Hc) as (ds & Hds & _ & _ & Es). split.
  - rewrite !chars_of_app, Es. apply Forall_app. split; [done|]. cbn [String.list_ascii_of_string app]. constructor; [done|].
    eapply Forall_impl; [exact Hds|]. intros x. apply digit_slug.
  - by exists c, (t +:+ "-" +:+ pretty counter).
Qed.

Lemma next_free_spec fuel upload_dir slug : forall counter s final, 0 <= counter -> visible slug ->
  next_free fuel upload_dir slug counter s = Some final -> exists name, final = upload_dir ++ [name] /\ visible name /\ s !! final = None.
Proof.
  induction fuel as [|fuel IH]; intros counter s final Hc Hv; [done|]. cbn [next_free]. unfold exists_at.
  destruct (bool_decide_reflect (is_Some (s !! (upload_dir ++ [slug +:+ "-" +:+ pretty counter])))) as [|Hfree].
  - apply IH; [lia|done].
  - intros [= <-]. eexists. split_and!; [done|by apply numbered_visible|by apply eq_None_not_Some].
Qed.

Lemma unique_pack_dir_spec upload_dir hint s final : unique_pack_dir upload_dir hint s = Some final ->
  exists name, final = upload_dir ++ [name] /\ visible name /\ s !! final = None.
Proof.
  unfold unique_pack_dir, exists_at.
  destruct (bool_decide_reflect (is_Some (s !! (upload_dir ++ [slug_of hint])))) as [|Hfree].
  - apply next_free_spec; [lia|apply slug_visible].
  - intros [= <-]. eexists. split_and!; [done|apply slug_visible|by apply eq_None_not_Some].
Qed.

(** The numbers tried, as long as all are taken. *)
Lemma next_free_none fuel upload_dir slug : forall counter s, next_free fuel upload_dir slug counter s = None ->
  forall k, (k < fuel)%nat -> is_Some (s !! (upload_dir ++ [slug +:+ "-" +:+ pretty (counter + Z.of_nat k)])).
Proof.
  induction fuel as [|fuel IH]; intros counter s H k Hk; [lia|]. cbn [next_free] in H. unfold exists_at in H.
  destruct (bool_decide_reflect (is_Some (s !! (upload_dir ++ [slug +:+ "-" +:+ pretty counter])))) as [He|]; [|done].
  destruct k as [|k]; [by rewrite Z.add_0_r|]. replace (counter + Z.of_nat (S k)) with (counter + 1 + Z.of_nat k) by lia. apply (IH _ _ H). lia.
Qed.

(** The search for a free directory ends: not every number can be taken. *)
Theorem unique_dir_found upload_dir hint s : is_Some (unique_pack_dir upload_dir hint s).
Proof.
  unfold unique_pack_dir. destruct (exists_at _ s); [|by eexists]. destruct (next_free _ _ _ _ _) eqn:E; [by eexists|exfalso].
  pose proof (next_free_none _ _ _ _ _ E) as Hall. set (f := fun k : nat => upload_dir ++ [slug_of hint +:+ "-" +:+ pretty (2 + Z.of_nat k)]).
  assert (Inj (=) (=) f) as Hinj.
  { intros a b Hab. unfold f in Hab. apply app_inv_head in Hab. injection Hab as Hab. apply (inj (String.app (slug_of hint))), (inj (String.app "-")), (inj pretty) in Hab. lia. }
  assert (list_to_set (f <$> seq 0 (S (size s))) ⊆@{gset path} dom s) as Hsub.
  { intros p Hp. apply elem_of_list_to_set, list_elem_of_fmap in Hp as (k & -> & Hk). apply elem_of_seq in Hk. apply elem_of_dom, Hall. lia. }
  apply subseteq_size in Hsub. rewrite size_list_to_set, length_fmap, length_seq, size_dom in Hsub by (by apply NoDup_fmap_2, NoDup_seq). lia.
Qed.

(** ** Moving and removing directories *)

Lemma rename_some root final s q n : (forall p, is_Some (s !! p) -> under_dir final p = false) ->
  (list_to_map ((fun pn => (moved_path root final pn.1, pn.2)) <$> map_to_list s) : fs) !! q = Some n <->
  exists p, s !! p = Some n /\ q = moved_path root final p.
Proof.
  intros Hfree. assert (forall p p' a b, s !! p = Some a -> s !! p' = Some b -> moved_path root final p = moved_path root final p' -> p = p') as Hinj.
  { intros p p' a b Hp Hp'. unfold moved_path. destruct (under_dir root p) eqn:E, (under_dir root p') eqn:E'; try done.
    - apply under_dir_spec in E as [u ->], E' as [u' ->]. rewrite !drop_app_length. intros H%app_inv_head. by subst.
    - intros Heq. pose proof (Hfree p' (mk_is_Some _ _ Hp')) as Hf. by rewrite <- Heq, under_dir_app in Hf.
    - intros Heq. pose proof (Hfree p (mk_is_Some _ _ Hp)) as Hf. by rewrite Heq, under_dir_app in Hf. }
  split.
  - intros H%elem_of_list_to_map_2. apply list_elem_of_fmap in H as ([p m] & [= -> ->] & H%elem_of_map_to_list). by exists p.
  - intros (p & Hp & ->). apply elem_of_list_to_map_1'.
    + intros y Hy. apply list_elem_of_fmap in Hy as ([p' m] & [= Heq ->] & H%elem_of_map_to_list). pose proof (Hinj p p' n m Hp H Heq). subst p'. congruence.
    + apply list_elem_of_fmap. exists (p, n). split; [done|]. by apply elem_of_map_to_list.
Qed.

Lemma lookup_rmtree d s p : rmtree_fs d s !! p = if under_dir d p then None else s !! p.
Proof.
  unfold rmtree_fs. destruct (under_dir d p) eqn:E.
  - apply map_lookup_filter_None. right. intros n _. cbn. by rewrite E.
  - destruct (s !! p) as [n|] eqn:Ep; [by apply map_lookup_filter_Some|]. apply map_lookup_filter_None. by left.
Qed.

(** Every path has its directory. *)
Definition closed (s : fs) : Prop := forall p c, is_Some (s !! (p ++ [c])) -> p = [] \/ s !! p = Some NDir.

Lemma closed_below s p r : closed s -> s !! p = None -> p <> [] -> s !! (p ++ r) = None.
Proof.
  intros Hc Hp Hne. induction r as [|c r IH] using rev_ind; [by rewrite app_nil_r|].
  rewrite app_assoc. destruct (s !! ((p ++ r) ++ [c])) eqn:E; [|done]. exfalso.
  destruct (Hc (p ++ r) c) as [H|H]; [by eexists|by apply app_eq_nil in H as [? _]|congruence].
Qed.

Lemma makedirs_from_closed base rest : forall s s' r, closed s -> base = [] \/ s !! base = Some NDir -> makedirs_from base rest s = (s', r) ->
  closed s' /\ match r with Ok _ => forall q, q `prefix_of` rest -> q <> [] -> s' !! (base ++ q) = Some NDir | Raise _ => True end /\
  (forall p, s !! p = Some NDir -> s' !! p = Some NDir).
Proof.
  revert base. induction rest as [|c rest IH]; intros base s s' r Hc Hb; cbn [makedirs_from].
  { intros [= <- <-]. split_and!; [done| |done]. intros q Hq Hne. by apply prefix_nil_inv in Hq. }
  unfold mbind, M_bind, mkdir_ok. destruct (s !! (base ++ [c])) as [[|t]|] eqn:E.
  - intros Hrest. apply IH in Hrest as (H1 & H2 & H3); [|done|by right]. split_and!; [done| |done]. destruct r; [|done].
    intros q Hq Hne. destruct q as [|x q]; [done|]. pose proof (prefix_cons_inv_1 _ _ _ _ Hq) as ->. apply prefix_cons_inv_2 in Hq.
    destruct q as [|y q]; [by apply H3|]. change (c :: y :: q) with ([c] ++ y :: q). rewrite app_assoc. by apply H2.
  - intros [= <- <-]. by split_and!.
  - intros Hrest. assert (closed (<[base ++ [c] := NDir]> s)) as Hc'.
    { intros p x Hx. destruct (decide (base ++ [c] = p ++ [x])) as [Heq|Hne].
      - apply app_inj_tail in Heq as [<- <-]. destruct Hb as [|Hb]; [by left|]. right. rewrite lookup_insert_ne; [done|].
        intros Heq. apply (f_equal length) in Heq. rewrite length_app in Heq. cbn in Heq. lia.
      - rewrite lookup_insert_ne in Hx by done. destruct (Hc p x Hx) as [|Hp]; [by left|right].
        destruct (decide (base ++ [c] = p)) as [<-|]; [apply lookup_insert_eq|by rewrite lookup_insert_ne]. }
    apply IH in Hrest as (H1 & H2 & H3); [|done|right; apply lookup_insert_eq]. split_and!; [done| |].
    + destruct r; [|done]. intros q Hq Hne. destruct q as [|x q]; [done|]. pose proof (prefix_cons_inv_1 _ _ _ _ Hq) as ->. apply prefix_cons_inv_2 in Hq.
      destruct q as [|y q]; [apply H3, lookup_insert_eq|]. change (c :: y :: q) with ([c] ++ y :: q). rewrite app_assoc. by apply H2.
    + intros p Hp. apply H3. rewrite lookup_insert_ne; [done|]. intros <-. congruence.
Qed.

Lemma makedirs_from_far base rest : forall s s' r p, makedirs_from base rest s = (s', r) ->
  (length base + length rest < length p)%nat -> s' !! p = s !! p.
Proof.
  revert base. induction rest as [|c rest IH]; intros base s s' r p; cbn [makedirs_from]; [by intros [= <- _]|].
  unfold mbind, M_bind, mkdir_ok. cbn [length]. intros E Hlen.
  destruct (s !! (base ++ [c])) as [[|t]|] eqn:Ep; [| by injection E as <- _ |]; apply IH with (p := p) in E; try (rewrite length_app; cbn; lia); rewrite E; [done|].
  apply lookup_insert_ne. intros <-. rewrite length_app in Hlen. cbn in Hlen. lia.
Qed.

(** Nothing is below [d]. *)
Definition vacant (d : path) (s : fs) : Prop := forall p, under_dir d p = true -> s !! p = None.

Lemma staged upload_dir uuid s s1 u : closed s -> vacant (staging_of upload_dir uuid) s -> makedirs upload_dir s = (s1, Ok u) ->
  let staging := staging_of upload_dir uuid in
  closed s1 /\ vacant staging s1 /\ makedirs staging s1 = (<[staging := NDir]> s1, Ok tt) /\ rooted_at staging (<[staging := NDir]> s1).
Proof.
  intros Hc Hv E staging. pose proof (makedirs_from_closed _ _ _ _ _ Hc (or_introl eq_refl) E) as (Hc1 & Hd1 & _).
  assert (vacant staging s1) as Hv1.
  { intros p Hp. pose proof Hp as [q ->]%under_dir_spec. unfold staging, staging_of in *. rewrite (makedirs_from_far _ _ _ _ _ _ E) by (rewrite !length_app; cbn; lia). by apply Hv. }
  assert (makedirs staging s1 = (<[staging := NDir]> s1, Ok tt)) as Hm.
  { unfold makedirs, staging, staging_of. rewrite makedirs_through by (intros q; apply Hd1). cbn [app makedirs_from]. unfold mbind, M_bind, mkdir_ok.
    rewrite (Hv1 (upload_dir ++ [".extract-" +:+ uuid])); [done|]. rewrite <- (app_nil_r staging). unfold staging, staging_of. rewrite app_nil_r. rewrite <- (app_nil_r (upload_dir ++ _)) at 2. apply under_dir_app. }
  split_and!; [done|done|done|]. pose proof (makedirs_from_closed _ _ _ _ _ Hc1 (or_introl eq_refl) Hm) as (_ & Hd & _).
  intros q Hq Hne. by apply Hd.
Qed.

(** Removing the staging directory gives back what there was. *)
Lemma cleaned staging s1 s3 : vacant staging s1 ->
  (forall p, under_dir staging p = false -> s3 !! p = <[staging := NDir]> s1 !! p) -> rmtree_fs staging s3 = s1.
Proof.
  intros Hv Hout. apply map_eq. intros p. rewrite lookup_rmtree. destruct (under_dir staging p) eqn:E; [by rewrite Hv|].
  rewrite Hout by done. apply lookup_insert_ne. intros <-. rewrite <- (app_nil_r staging) in E at 2. by rewrite under_dir_app in E.
Qed.

Lemma entry_of_dir_spec d p e : entry_of_dir d p = Some e -> p = d ++ [e].
Proof.
  unfold entry_of_dir. destruct (under_dir d p) eqn:E; [|done]. apply under_dir_spec in E as [r ->]. rewrite drop_app_length.
  destruct r as [|x [|]]; [done| |done]. by intros [= ->].
Qed.

Lemma find_pack_root_spec staging s root : s !! staging = Some NDir -> find_pack_root staging s = Ok root ->
  under_dir staging root = true /\ s !! root = Some NDir /\ looks_like_pack_root root s = true.
Proof.
  intros Hd. unfold find_pack_root. destruct (looks_like_pack_root staging s) eqn:El.
  { intros [= <-]. split_and!; [|done|done]. rewrite <- (app_nil_r staging) at 2. apply under_dir_app. }
  destruct (wrapped_dirs staging s) as [|d [|]] eqn:Ew; try done. destruct (looks_like_pack_root d s) eqn:Ed; [|done]. intros [= <-].
  assert (d ∈ wrapped_dirs staging s) as Hin by (rewrite Ew; by apply list_elem_of_singleton). unfold wrapped_dirs in Hin.
  apply list_elem_of_omap in Hin as ([p n] & Hp%elem_of_map_to_list & H). cbn [fst snd] in H.
  destruct (entry_of_dir staging p) as [e|] eqn:Ee; [|done]. destruct n; [|done]. destruct (is_junk e); [done|]. injection H as <-.
  apply entry_of_dir_spec in Ee as ->. split_and!; [apply under_dir_app|done|done].
Qed.

Lemma staging_apart upload_dir uuid name : visible name ->
  (forall q, under_dir (staging_of upload_dir uuid) ((upload_dir ++ [name]) ++ q) = false) /\
  (forall q, under_dir (upload_dir ++ [name]) (staging_of upload_dir uuid ++ q) = false).
Proof.
  intros [_ (c & t & -> & Hc)]. split; intros q; apply bool_decide_eq_false; intros [k Hk]; unfold staging_of in Hk;
    rewrite <- !app_assoc in Hk; apply app_inv_head in Hk; cbn in Hk; injection Hk as H _; congruence.
Qed.

(** The file system after [root] went to [final] and the staging directory away. *)
Definition relocated (staging root final : path) (s : fs) : fs :=
  rmtree_fs staging (list_to_map ((fun pn => (moved_path root final pn.1, pn.2)) <$> map_to_list s)).

Section Relocated.
Context (staging root final : path) (s : fs).
Hypothesis free : forall p, is_Some (s !! p) -> under_dir final p = false.

Lemma relocated_below a : under_dir staging (final ++ a) = false -> relocated staging root final s !! (final ++ a) = s !! (root ++ a).
Proof.
  intros Hs. unfold relocated. rewrite lookup_rmtree, Hs. apply option_eq. intros n. rewrite rename_some by done. split.
  - intros (p & Hp & Heq). unfold moved_path in Heq. destruct (under_dir root p) eqn:E.
    + apply under_dir_spec in E as [b ->]. rewrite drop_app_length in Heq. apply app_inv_head in Heq. by subst.
    + subst p. pose proof (free _ (mk_is_Some _ _ Hp)) as H. by rewrite under_dir_app in H.
  - intros Hp. exists (root ++ a). split; [done|]. unfold moved_path. by rewrite under_dir_app, drop_app_length.
Qed.

Lemma relocated_elsewhere p : under_dir staging p = false -> under_dir root p = false -> under_dir final p = false ->
  relocated staging root final s !! p = s !! p.
Proof.
  intros Hs Hr Hf. unfold relocated. rewrite lookup_rmtree, Hs. apply option_eq. intros n. rewrite rename_some by done. split.
  - intros (q & Hq & Heq). unfold moved_path in Heq. destruct (under_dir root q) eqn:E2; [|by subst]. subst p. by rewrite under_dir_app in Hf.
  - intros Hp3. exists p. split; [done|]. unfold moved_path. by rewrite Hr.
Qed.

Lemma relocated_root_file a : under_dir staging (final ++ a) = false -> isfile (final ++ a) (relocated staging root final s) = isfile (root ++ a) s.
Proof. intros Hs. unfold isfile. by rewrite relocated_below. Qed.
End Relocated.

Lemma under_dir_refl d : under_dir d d = true.
Proof. rewrite <- (app_nil_r d) at 2. apply under_dir_app. Qed.

Lemma kept_outside (staging : path) (s1 s3 : fs) : (forall p, under_dir staging p = false -> s3 !! p = <[staging := NDir]> s1 !! p) ->
  forall p, under_dir staging p = false -> s3 !! p = s1 !! p.
Proof. intros Hout p Hp. rewrite Hout by done. apply lookup_insert_ne. intros <-. by rewrite under_dir_refl in Hp. Qed.

(** Nothing is below a directory that does not exist. *)
Lemma final_free (upload_dir : path) (uuid name : string) (s1 s3 : fs) : let staging := staging_of upload_dir uuid in let final := upload_dir ++ [name] in
  closed s1 -> (forall p, under_dir staging p = false -> s3 !! p = <[staging := NDir]> s1 !! p) -> visible name -> s3 !! final = None ->
  forall p, is_Some (s3 !! p) -> under_dir final p = false.
Proof.
  intros staging final Hc Hout Hvis Hfree p [n Hp]. destruct (staging_apart upload_dir uuid name Hvis) as [Hap1 _]. fold final staging in Hap1.
  pose proof (kept_outside staging s1 s3 Hout) as Hold. destruct (under_dir final p) eqn:E; [|done]. apply under_dir_spec in E as [q ->].
  rewrite Hold in Hp by apply Hap1. rewrite closed_below in Hp; [done|done| |by unfold final; destruct upload_dir].
  rewrite <- Hold; [done|]. rewrite <- (app_nil_r final). apply Hap1.
Qed.

Section Outcome.
Context (rd : reader) (realpath : path -> path) (limits : UploadLimits).
Hypothesis caps : 0 <= max_member_bytes limits /\ 0 <= max_total_bytes limits.

(** What a served upload leaves: a new, visible directory that is a pack root within the
    member cap, and everything else as it was. *)
Definition added (upload_dir final : path) (s1 s' : fs) : Prop :=
  (exists name, final = upload_dir ++ [name] /\ visible name) /\ s1 !! final = None /\
  (forall p, under_dir final p = false -> s' !! p = s1 !! p) /\
  s' !! final = Some NDir /\ looks_like_pack_root final s' = true /\
  (forall p t, under_dir final p = true -> s' !! p = Some (NFile t) -> Z.of_nat (length t) <= max_member_bytes limits).

Lemma relocated_added upload_dir uuid name root s1 s3 : let staging := staging_of upload_dir uuid in let final := upload_dir ++ [name] in
  closed s1 -> vacant staging s1 -> confined staging (max_member_bytes limits) (max_total_bytes limits) (<[staging := NDir]> s1) s3 ->
  visible name -> s3 !! final = None ->
  under_dir staging root = true -> s3 !! root = Some NDir -> looks_like_pack_root root s3 = true ->
  added upload_dir final s1 (relocated staging root final s3).
Proof.
  intros staging final Hc Hv (Hout & _ & _ & Hcap) Hvis Hfree [k ->]%under_dir_spec Hrd Hlook.
  destruct (staging_apart upload_dir uuid name Hvis) as [Hap1 _]. fold final staging in Hap1.
  pose proof (kept_outside staging s1 s3 Hout) as Hold.
  assert (s1 !! final = None) as Hf1 by (rewrite <- Hold; [done|rewrite <- (app_nil_r final); apply Hap1]).
  pose proof (final_free upload_dir uuid name s1 s3 Hc Hout Hvis Hfree) as Hnone. fold final in Hnone.
  split_and!.
  - by exists name.
  - done.
  - intros p Hp. destruct (under_dir staging p) eqn:E.
    { unfold relocated. by rewrite lookup_rmtree, E, Hv. }
    rewrite relocated_elsewhere; [by apply Hold|done|done| |done].
    destruct (under_dir (staging ++ k) p) eqn:E2; [|done]. apply under_dir_spec in E2 as [j ->]. by rewrite <- app_assoc, under_dir_app in E.
  - pose proof (relocated_below staging (staging ++ k) final s3 Hnone [] (Hap1 [])) as H. rewrite !app_nil_r in H. by rewrite H.
  - unfold looks_like_pack_root in *. by rewrite !relocated_root_file.
  - intros p t [a ->]%under_dir_spec. rewrite relocated_below by done. intros Ht.
    destruct (Hcap _ _ Ht) as [H|]; [|done]. rewrite <- app_assoc in H. destruct (k ++ a) as [|x l].
    + by rewrite app_nil_r, lookup_insert_eq in H.
    + rewrite lookup_insert_ne in H; [by rewrite Hv in H by apply under_dir_app|].
      intros Heq. apply (f_equal length) in Heq. rewrite length_app in Heq. cbn in Heq. lia.
Qed.

Lemma place_pack_spec upload_dir uuid hint s1 s3 s4 r : let staging := staging_of upload_dir uuid in
  closed s1 -> vacant staging s1 -> confined staging (max_member_bytes limits) (max_total_bytes limits) (<[staging := NDir]> s1) s3 ->
  place_pack upload_dir staging hint s3 = (s4, r) ->
  match r with Raise _ => s4 = s3 | Ok final => added upload_dir final s1 (rmtree_fs staging s4) end.
Proof.
  intros staging Hc Hv Hconf. unfold place_pack.
  destruct (find_pack_root staging s3) as [root|e] eqn:Er; [|by intros [= <- <-]].
  pose proof Hconf as (_ & Hdirs & _). apply find_pack_root_spec in Er as (Hroot & Hrd & Hlook); [|apply Hdirs, lookup_insert_eq].
  destruct (unique_pack_dir upload_dir _ s3) as [final|] eqn:Eu; [|by intros [= <- <-]].
  apply unique_pack_dir_spec in Eu as (name & -> & Hvis & Hfree).
  unfold rename_dir, mbind, M_bind, exists_at. rewrite Hfree. rewrite bool_decide_false by (by intros []). intros [= <- <-].
  by apply relocated_added.
Qed.

(** C24: An upload leaves a pack or nothing.  Whatever the archive holds: when it is refused, or
    fails in any way, the file system is what it was (with the upload directory made);
    when it is served, one directory has been added below the upload directory, under a
    name that did not exist and is no hidden or nested path, that directory is a pack
    root whose files are within the member cap, and nothing else has changed. *)
Theorem upload_all_or_nothing data upload_dir uuid hint s s' r : closed s -> vacant (staging_of upload_dir uuid) s ->
  store_uploaded_pack rd realpath limits data upload_dir uuid hint s = (s', r) ->
  let s1 := fst (makedirs upload_dir s) in
  match r with
  | Raise _ => s' = s \/ s' = s1
  | Ok final =>
      (exists name, final = upload_dir ++ [name] /\ visible name) /\ s1 !! final = None /\
      (forall p, under_dir final p = false -> s' !! p = s1 !! p) /\
      s' !! final = Some NDir /\ looks_like_pack_root final s' = true /\
      (forall p t, under_dir final p = true -> s' !! p = Some (NFile t) -> Z.of_nat (length t) <= max_member_bytes limits)
  end.
Proof.
  intros Hc Hv. unfold store_uploaded_pack. destruct (detect_format data) as [fmt|]; [|intros [= <- <-]; by left]. cbv zeta.
  unfold mbind, M_bind. destruct (makedirs upload_dir s) as [s1 [u|e]] eqn:E1; [|intros [= <- <-]; by right]. cbn [fst].
  destruct (staged upload_dir uuid s s1 u Hc Hv E1) as (Hc1 & Hv1 & -> & Hroot).
  unfold catch. destruct (extract rd realpath limits fmt data _ _) as [s3 r3] eqn:E3.
  apply (extract_confined realpath limits _ caps) in E3; [|done].
  assert (rmtree_fs (staging_of upload_dir uuid) s3 = s1) as Hclean by (apply cleaned; [done|apply E3]).
  destruct r3 as [u3|e3]; [|intros [= <- <-]; by right].
  destruct (place_pack _ _ _ s3) as [s4 [final|e4]] eqn:E4; apply (place_pack_spec _ _ _ s1) in E4; try done.
  - by intros [= <- <-].
  - subst s4. intros [= <- <-]. by right.
Qed.
End Outcome.

(** A body that is passed on is not empty and within the limit. *)
Lemma read_body_bound max_bytes chunks : forall total acc data, Z.of_nat (length acc) = total -> total <= max_bytes ->
  read_body max_bytes total acc chunks = Ok data -> 0 < Z.of_nat (length data) <= max_bytes.
Proof.
  induction chunks as [|c chunks IH]; intros total acc data Ha Ht; cbn [read_body].
  { destruct (Z.eqb_spec total 0); [done|]. intros [= <-]. lia. }
  destruct c as [|x c].
  { destruct (Z.eqb_spec total 0); [done|]. intros [= <-]. lia. }
  destruct (Z.ltb_spec max_bytes (total + Z.of_nat (length (x :: c)))); [done|]. apply IH; [rewrite length_app; lia|done].
Qed.

(** Removing an uploaded pack touches nothing outside the upload directory, and not the
    upload directory itself. *)
Theorem removal_confined realpath upload_dir source s p : under_dir (realpath upload_dir) p = false \/ p = realpath upload_dir ->
  remove_uploaded_pack_dir realpath upload_dir source s !! p = s !! p.
Proof.
  intros Hp. unfold remove_uploaded_pack_dir. destruct (under_dir (realpath upload_dir) (realpath source)) eqn:Eu; [|done].
  destruct (bool_decide_reflect (realpath source = realpath upload_dir)) as [|Hne]; [done|]. destruct (isdir _ s); [|done].
  cbn [negb andb]. rewrite lookup_rmtree. destruct (under_dir (realpath source) p) eqn:E; [|done]. exfalso.
  apply under_dir_spec in Eu as [k Hk], E as [j ->]. rewrite Hk in *. destruct Hp as [Hp|Hp]; [by rewrite <- app_assoc, under_dir_app in Hp|].
  apply Hne. apply (f_equal length) in Hp. rewrite !length_app in Hp. destruct k; [by rewrite app_nil_r|cbn in Hp; lia].
Qed.

(** ** An upload *)

Definition demo_limits : UploadLimits := mkLimits 10 100 200.
Definition demo_data : text := GZIP_MAGIC ++ chars_of "...".
Definition demo_disk : fs := {[ ["data"] := NDir ]}.
Definition file_of (name content : string) : tar_info := mkTar name TReg (mkStream [chars_of content] None).
Definition demo_reader (infos : list tar_info) : reader := mkReader (fun _ => Some (infos, None)) (fun _ => None).
Definition demo_store (infos : list tar_info) (s : fs) :=
  store_uploaded_pack (demo_reader infos) (fun p => p) demo_limits demo_data ["data"; "packs"] "ab12" None s.
Definition demo_pack : list tar_info := [mkTar "my pack/" TDir (mkStream [] None); file_of "my pack/pack.yaml" "name: web"; file_of "my pack/samples\a.log" "one line"].

Lemma demo_disk_closed : closed demo_disk.
Proof.
  intros p c H. destruct p as [|x p]; [by left|]. destruct H as [n H]. unfold demo_disk in H. apply lookup_singleton_Some in H as [H _]. by destruct p.
Qed.

Lemma demo_disk_vacant : vacant (staging_of ["data"; "packs"] "ab12") demo_disk.
Proof. intros p [q ->]%under_dir_spec. unfold demo_disk. by apply lookup_singleton_ne. Qed.

Lemma upload_all_or_nothing_witness :
  exists s' final, demo_store demo_pack demo_disk = (s', Ok final) /\ final = ["data"; "packs"; "my-pack"] /\
    s' !! (final ++ ["samples"; "a.log"]) = Some (NFile (chars_of "one line")) /\
    s' !! final = Some NDir /\ looks_like_pack_root final s' = true.
Proof.
  destruct (demo_store demo_pack demo_disk) as [s' r] eqn:E.
  pose proof (upload_all_or_nothing (demo_reader demo_pack) (fun p => p) demo_limits ltac:(cbn; lia) demo_data ["data"; "packs"] "ab12" None
    demo_disk s' r demo_disk_closed demo_disk_vacant E) as H.
  assert (r = Ok ["data"; "packs"; "my-pack"]) as -> by (apply (f_equal snd) in E; vm_compute in E; by rewrite <- E).
  exists s', ["data"; "packs"; "my-pack"]. destruct H as (_ & _ & _ & H1 & H2 & _). split_and!; [done|done| |done|done].
  apply (f_equal fst) in E. cbn [fst] in E. rewrite <- E. by vm_compute.
Defined.

Lemma extraction_bounded_witness :
  let s := fst (makedirs ["data"; "x"] demo_disk) in
  let s' := fst (extract (demo_reader demo_pack) (fun p => p) demo_limits Tar demo_data ["data"; "x"] s) in
  bytes s = 0%nat /\ bytes s' = 17%nat /\ Z.of_nat (bytes s') <= Z.of_nat (bytes s) + 200.
Proof.
  intros s s'. split; [by vm_compute|]. split; [by vm_compute|].
  destruct (extract (demo_reader demo_pack) (fun p => p) demo_limits Tar demo_data ["data"; "x"] s) as [s2 r2] eqn:E.
  assert (s' = s2) as -> by (unfold s'; by rewrite ?E).
  apply (extraction_bounded (fun p => p) demo_limits ["data"; "x"] ltac:(cbn; lia) (demo_reader demo_pack) Tar demo_data s s2 r2); [|done].
  intros q Hq Hne. unfold s. destruct q as [|a [|b [|c q]]]; [done| | |].
  - apply prefix_cons_inv_1 in Hq as ->. by vm_compute.
  - pose proof (prefix_cons_inv_1 _ _ _ _ Hq) as ->. apply prefix_cons_inv_2, prefix_cons_inv_1 in Hq as ->. by vm_compute.
  - apply prefix_length in Hq. cbn in Hq. lia.
Defined.

(** Hostile members are refused, and nothing is left. *)
Definition refused_cleanly (infos : list tar_info) : bool :=
  match demo_store infos demo_disk with
  | (s', Raise (PackUploadError _)) => bool_decide (s' = <[["data"; "packs"] := NDir]> demo_disk)
  | _ => false
  end.
Example hostile_members_refused :
  forallb refused_cleanly
    [[file_of "../../etc/cron.d/x" "boom"]; [file_of "/etc/passwd" "x"]; [file_of "C:\x" "y"]; [mkTar "a" TSym (mkStream [] None)];
     [file_of "pack.yaml" (String.concat "" (repeat "0123456789" 11))]; [file_of "readme" "no pack here"]] = true.
Proof. by vm_compute. Qed.

(** Members that collide (a file where another's directory should be), and a tar that breaks
    off inside a member, are not refused but raise what the route does not handle. *)
Example colliding_members_raise :
  snd (demo_store [file_of "pack.yaml" "name: x"; file_of "a" "1"; file_of "a/b" "2"] demo_disk) = Raise OSError /\
  snd (demo_store [file_of "pack.yaml" "name: x"; mkTar "a" TReg (mkStream [chars_of "half"] (Some ArchiveError))] demo_disk) = Raise ArchiveError.
Proof. by vm_compute. Qed.
