(* ===== verification/Export.v ===== *)
(** * Exported packs (server/packexport.py)

    A pack leaves an instance as a tar of the files of a fixed list and of its samples,
    under one directory named after it, within the caps of the instance that will
    read it.  Files are read from [Upload]'s file system; which of them are links or lie
    outside the pack, what its replay configuration says, and the tar's bytes are arguments.

    The theorem: what is exported is accepted by the upload of another instance with the
    same limits, and each file is there again with its content ([Upload]).  The examples
    record the names that do not travel. *)

From S2P Require Import Prelude.
From S2P Require Import PyFloat.
From S2P Require Import PyValue.
From S2P Require Import PackYaml.
From S2P Require Import Git.
From S2P Require Import Upload.
From Stdlib Require Import Ascii.
Open Scope Z_scope.

(** ** Names *)

Definition EXPORT_RELPATHS : list path :=
  [["pack.yaml"]; ["default"; "eventgen.conf"]; ["stoker.json"]; ["stoker-builder.json"]; ["README.md"]].

(** [s.strip("-._")] *)
Definition is_edge (c : ascii) : bool := bool_decide (c ∈ ["-"; "."; "_"]%char).
Fixpoint lstrip_edges (t : text) : text := match t with c :: t' => if is_edge c then lstrip_edges t' else t | [] => [] end.
Definition strip_edges (t : text) : text := reverse (lstrip_edges (reverse (lstrip_edges t))).

(** [safe_basename] *)
Definition safe_basename (name : string) : string :=
  match strip_edges (take 64 (strip_edges (slug_chars false (chars_of name)))) with [] => "pack" | t => of_chars t end.

(** ["%s/%s" % (base, rel)] *)
Fixpoint join_path (base : string) (rel : path) : string :=
  match rel with [] => base | c :: rel => base +:+ "/" +:+ join_path c rel end.

(** ** The files *)

Abbreviation entry := (path * text)%type.

(** [_read] of a path below the pack, unless it was read or may not be. *)
Definition read_entry (unsafe : path -> bool) (pack_dir : path) (s : fs) (entries : list entry) (rel : path) : list entry :=
  if bool_decide (rel ∈ entries.*1) then entries
  else match s !! (pack_dir ++ rel) with
       | Some (NFile c) => if unsafe (pack_dir ++ rel) then entries else entries ++ [(rel, c)]
       | _ => entries
       end.

(** The files below samples/, in any order: the entries are sorted in the end. *)
Definition sample_rels (pack_dir : path) (s : fs) : list path :=
  omap (fun pn =>
    if under_dir (pack_dir ++ ["samples"]) pn.1 then
      match pn.2 with NFile _ => Some (drop (length pack_dir) pn.1) | NDir => None end
    else None) (map_to_list s).

(** [_collect] *)
Definition collect (unsafe : path -> bool) (pack_dir : path) (s : fs) : list entry :=
  foldl (read_entry unsafe pack_dir s) [] (EXPORT_RELPATHS ++ sample_rels pack_dir s).

(** ** The dataset of a replay pack *)

(** [text.replace("\r\n", "\n").split("\n")] *)
Definition CR : ascii := ascii_of_N 13.
Fixpoint split_lf (t : text) : list text :=
  match t with
  | [] => [[]]
  | c :: t' =>
      if Ascii.eqb c LF then [] :: split_lf t'
      else if Ascii.eqb c CR && bool_decide (head t' = Some LF) then split_lf t'
      else match split_lf t' with [] => [[c]] | w :: ws => (c :: w) :: ws end
  end.
Fixpoint join_lf (lines : list text) : text :=
  match lines with [] => [] | [l] => l | l :: lines => l ++ LF :: join_lf lines end.

(** A top-level [replay:] with at most a comment behind it, and an indented [dataset:] with a value. *)
Definition is_replay_line (l : text) : bool :=
  match strip_prefix (chars_of "replay:") l with
  | Some r => match lstrip r with [] => true | c :: _ => Ascii.eqb c "#"%char end
  | None => false
  end.
Definition is_dataset_line (l : text) : bool :=
  match l with
  | c :: _ => is_space c &&
      match strip_prefix (chars_of "dataset:") (lstrip l) with Some r => negb (bool_decide (lstrip r = [])) | None => false end
  | [] => false
  end.

(** The block already names a local dataset. *)
Definition indented (l : text) : bool :=
  match l with c :: _ => Ascii.eqb c " "%char || Ascii.eqb c (ascii_of_N 9) | [] => false end.
Fixpoint names_dataset (in_block : bool) (lines : list text) : bool :=
  match lines with
  | [] => false
  | l :: lines =>
      if is_replay_line l then names_dataset true lines
      else if in_block then
        if negb (bool_decide (strip_chars l = [])) && negb (indented l) then false
        else is_dataset_line l || names_dataset true lines
      else names_dataset false lines
  end.

Definition DATASET_NOTE : text :=
  chars_of "  # dataset embedded by the pack export; any dataset_url below is provenance only (a local dataset wins).".
Fixpoint insert_dataset (relpath : string) (lines : list text) : option (list text) :=
  match lines with
  | [] => None
  | l :: lines =>
      if is_replay_line l then Some (l :: DATASET_NOTE :: chars_of ("  dataset: " +:+ relpath) :: lines)
      else cons l <$> insert_dataset relpath lines
  end.

(** [_add_local_dataset_key] *)
Definition add_local_dataset_key (t : text) (relpath : string) : option text :=
  if names_dataset false (split_lf t) then Some t else join_lf <$> insert_dataset relpath (split_lf t).

(** What a pack's replay configuration says: none, a local dataset with its path below the
    pack ([None] where it is missing or escapes), a dataset to fetch with what fetching it
    gave, or neither. *)
Inductive replay_view : Type :=
  | NoReplay
  | LocalDataset (rel : option path)
  | FetchedDataset (got : result (list entry * string))
  | NoDataset.

Definition embed_dataset (pack_dir : path) (s : fs) (include_dataset : bool) (replay : replay_view) (entries : list entry) : result (list entry * bool) :=
  match replay with
  | NoReplay | NoDataset => Ok (entries, false)
  | LocalDataset None => Raise (ValueError "the declared dataset is missing or escapes the pack")
  | LocalDataset (Some rel) =>
      Ok (if bool_decide (rel ∈ entries.*1) then entries
          else match s !! (pack_dir ++ rel) with Some (NFile c) => entries ++ [(rel, c)] | _ => entries end, true)
  | FetchedDataset got =>
      if negb include_dataset then Ok (entries, false)
      else
        match got with
        | Raise _ => Raise (ValueError "could not fetch the pack's dataset_url for export")
        | Ok (extra, rel) =>
            match (fun pc => add_local_dataset_key pc.2 rel) <$> List.find (fun pc => bool_decide (pc.1 = ["pack.yaml"])) entries with
            | Some (Some rewritten) =>
                Ok (((fun pc => if bool_decide (pc.1 = ["pack.yaml"]) then (pc.1, rewritten) else pc) <$> entries) ++ extra, true)
            | _ => Raise (ValueError "the pack's pack.yaml has no replay block to point at the embedded dataset")
            end
        end
  end.

(** ** The archive *)

Record ExportResult : Type := mkExport {
  ex_filename : string;
  ex_data : text;
  ex_members : Z;
  ex_uncompressed : Z;
  ex_dataset : bool;
}.

Definition total_size (entries : list (string * text)) : Z := foldr (fun e acc => Z.of_nat (length e.2) + acc) 0 entries.
Definition arc_le (a b : string * text) : Prop := String.leb a.1 b.1 = true.
Global Instance arc_le_dec a b : Decision (arc_le a b) := decide (String.leb a.1 b.1 = true).

(** [export_pack_bytes]; [tar_gz] makes the archive's bytes. *)
Section ExportPack.
Context (tar_gz : list (string * text) -> text) (limits : UploadLimits) (max_archive_bytes : Z).

Definition named_entries (base : string) (entries : list entry) : list (string * text) :=
  merge_sort arc_le ((fun e => (join_path base e.1, e.2)) <$> entries).

Definition pack_archive (base : string) (entries : list entry) (embedded : bool) : result ExportResult :=
  let named := named_entries base entries in
  if max_members limits <? Z.of_nat (length named) then Raise (ValueError "over the member limit")
  else if existsb (fun e => max_member_bytes limits <? Z.of_nat (length e.2)) named then Raise (ValueError "over the per-file upload limit")
  else if max_total_bytes limits <? total_size named then Raise (ValueError "over the total upload limit")
  else
    let data := tar_gz named in
    if max_archive_bytes <? Z.of_nat (length data) then Raise (ValueError "over the upload-body limit")
    else Ok (mkExport (base +:+ ".tar.gz") data (Z.of_nat (length named)) (total_size named) embedded).

Definition export_pack_bytes (unsafe : path -> bool) (pack_dir : path) (pack_name : string) (include_dataset : bool) (replay : result replay_view)
    (s : fs) : result ExportResult :=
  if negb (isdir pack_dir s) then Raise (ValueError "the pack has no directory on this control plane")
  else
    let entries := collect unsafe pack_dir s in
    if bool_decide (entries = []) then Raise (ValueError "the pack directory holds no exportable files")
    else
      match replay with
      | Raise _ => Raise (ValueError "cannot read the pack's replay config")
      | Ok replay =>
          out ← embed_dataset pack_dir s include_dataset replay entries;
          pack_archive (safe_basename pack_name) (fst (out : list entry * bool)) (snd (out : list entry * bool))
      end.
End ExportPack.

(** ** A metric pack without a directory *)

(** [" ".join(str(text).split())] *)
Fixpoint squeeze_blanks (pending : bool) (t : text) : text :=
  match t with
  | [] => []
  | c :: t => if is_space c then squeeze_blanks true t
              else if pending then " "%char :: c :: squeeze_blanks false t else c :: squeeze_blanks false t
  end.

(** [_yaml_scalar] *)
Definition export_scalar (t : text) : text :=
  let one := squeeze_blanks false (lstrip t) in
  ascii_of_N 34 :: ((fun c => if Ascii.eqb c BACKSLASH then "/"%char else if Ascii.eqb c (ascii_of_N 34) then "'"%char else c) <$> one) ++ [ascii_of_N 34].

Fixpoint join_comma (ts : list text) : text :=
  match ts with [] => [] | [t] => t | t :: ts => t ++ chars_of ", " ++ join_comma ts end.

(** The pack.yaml of [export_metric_pack_bytes]; [bpe] is the rounded estimate as text. *)
Definition metric_yaml (pack_name bpe sourcetype : string) (tags : list string) (description : option string) : text :=
  let tag_list := List.filter (fun t => negb (bool_decide (t = []))) ((fun t => strip_chars (chars_of t)) <$> tags) in
  join_lf
    ([chars_of "# Stoker metric pack exported from another instance. The metricgen block";
      chars_of "# in stoker.json is the pack; this file is its metadata.";
      chars_of ("name: " +:+ pack_name);
      chars_of "engine: metrics"] ++
     (match tag_list with [] => [] | _ => [chars_of "tags: " ++ join_comma tag_list] end) ++
     (match description with Some t => if nonempty t then [chars_of "description: " ++ export_scalar (chars_of t)] else [] | None => [] end) ++
     [chars_of "estimates:"; chars_of ("  bytes_per_event: " +:+ bpe); chars_of "defaults:"; chars_of ("  sourcetype: " +:+ sourcetype); []]).

(** [export_metric_pack_bytes]; [errors] is the lint of the config and [manifest] its stoker.json. *)
Definition export_metric_pack_bytes (tar_gz : list (string * text) -> text) (pack_name bpe sourcetype : string) (tags : list string)
    (description : option string) (errors : list string) (manifest : text) : result ExportResult :=
  if negb (bool_decide (errors = [])) then Raise (ValueError "the metric pack fails lint, so it would not import")
  else
    let base := safe_basename pack_name in
    let named := named_entries base [(["pack.yaml"], metric_yaml pack_name bpe sourcetype tags description); (["stoker.json"], manifest)] in
    Ok (mkExport (base +:+ ".tar.gz") (tar_gz named) (Z.of_nat (length named)) (total_size named) false).

(** ** Extracting well-named files *)

Lemma makedirs_clear base rest : forall s, (forall q t, q `prefix_of` rest -> q <> [] -> s !! (base ++ q) <> Some (NFile t)) ->
  exists s', makedirs_from base rest s = (s', Ok tt) /\
    (forall q, q `prefix_of` rest -> q <> [] -> s' !! (base ++ q) = Some NDir) /\
    (forall p, (forall q, q `prefix_of` rest -> q <> [] -> p <> base ++ q) -> s' !! p = s !! p).
Proof.
  revert base. induction rest as [|c rest IH]; intros base s Hc.
  { exists s. split_and!; [done| |done]. intros q Hq Hne. by apply prefix_nil_inv in Hq. }
  set (s1 := match s !! (base ++ [c]) with Some _ => s | None => <[base ++ [c] := NDir]> s end).
  assert (mkdir_ok (base ++ [c]) s = (s1, Ok tt) /\ s1 !! (base ++ [c]) = Some NDir /\ forall p, p <> base ++ [c] -> s1 !! p = s !! p) as (Hm & H1 & Ho).
  { unfold mkdir_ok, s1. destruct (s !! (base ++ [c])) as [[|t]|] eqn:E; [done| |].
    - by destruct (Hc [c] t) as []; [apply prefix_cons, prefix_nil| |].
    - split_and!; [done|apply lookup_insert_eq|]. intros p Hp. by apply lookup_insert_ne. }
  destruct (IH (base ++ [c]) s1) as (s' & Hr & Hd & Hrest).
  { intros q t Hq Hne. rewrite <- app_assoc. rewrite Ho by (intros Heq%app_inv_head; by destruct q).
    apply (Hc (c :: q)); [by apply prefix_cons|done]. }
  exists s'. split_and!.
  - cbn [makedirs_from]. unfold mbind, M_bind. by rewrite Hm.
  - intros q Hq Hne. destruct q as [|x q]; [done|]. pose proof (prefix_cons_inv_1 _ _ _ _ Hq) as ->. apply prefix_cons_inv_2 in Hq.
    destruct q as [|y q]; [|specialize (Hd (y :: q) Hq ltac:(done)); by rewrite <- app_assoc in Hd].
    rewrite Hrest; [done|]. intros q Hq' Hne'. rewrite <- app_assoc. intros Heq%app_inv_head. by destruct q.
  - intros p Hp. rewrite Hrest, Ho; [done| |].
    + apply (Hp [c]); [apply prefix_cons, prefix_nil|done].
    + intros q Hq Hne. rewrite <- app_assoc. apply (Hp (c :: q)); [by apply prefix_cons|done].
Qed.

Lemma copy_chunks_all p cap total tcap chunks : Forall (fun c => c <> []) chunks -> forall written t s,
  s !! p = Some (NFile t) -> written + Z.of_nat (length (concat chunks)) <= cap -> total + written + Z.of_nat (length (concat chunks)) <= tcap ->
  copy_chunks p cap total tcap written chunks None s =
    (<[p := NFile (t ++ concat chunks)]> s, Ok (total + written + Z.of_nat (length (concat chunks)))).
Proof.
  induction 1 as [|c chunks Hc Hcs IH]; intros written t s Ht Hcap Htot.
  { cbn. rewrite app_nil_r, insert_id, Z.add_0_r by done. done. }
  destruct c as [|x c]; [done|]. cbn [copy_chunks]. cbn [concat] in *. rewrite length_app, Nat2Z.inj_add in Hcap, Htot |- *.
  destruct (Z.ltb_spec cap (written + Z.of_nat (length (x :: c)))); [lia|].
  destruct (Z.ltb_spec tcap (total + (written + Z.of_nat (length (x :: c))))); [lia|].
  unfold mbind, M_bind, append_to, modify. rewrite Ht. rewrite (IH _ (t ++ x :: c)); [|apply lookup_insert_eq|lia|lia].
  rewrite insert_insert_eq, <- app_assoc. f_equal. f_equal. lia.
Qed.

(** A member is copied where nothing stands in its way. *)
Lemma copy_capped_all d init x chunks cap total tcap s : Forall (fun c => c <> []) chunks -> rooted_at d s ->
  (forall q t, q `prefix_of` init -> q <> [] -> s !! (d ++ q) <> Some (NFile t)) -> s !! (d ++ init ++ [x]) <> Some NDir ->
  Z.of_nat (length (concat chunks)) <= cap -> total + Z.of_nat (length (concat chunks)) <= tcap ->
  exists s', copy_capped (mkStream chunks None) (d ++ init ++ [x]) cap total tcap s = (s', Ok (total + Z.of_nat (length (concat chunks)))) /\
    s' !! (d ++ init ++ [x]) = Some (NFile (concat chunks)) /\
    (forall q, q `prefix_of` init -> q <> [] -> s' !! (d ++ q) = Some NDir) /\
    (forall p, p <> d ++ init ++ [x] -> (forall q, q `prefix_of` init -> q <> [] -> p <> d ++ q) -> s' !! p = s !! p).
Proof.
  intros Hch Hr Hclear Hdir Hcap Htot. unfold copy_capped. rewrite app_assoc, removelast_last, <- app_assoc.
  destruct (makedirs_clear d init s Hclear) as (s1 & Hm & Hd & Ho).
  assert (forall q, q `prefix_of` init -> d ++ init ++ [x] <> d ++ q) as Hlast.
  { intros q Hq%prefix_length Heq. apply (f_equal length) in Heq. rewrite !length_app in Heq. cbn in Heq. lia. }
  assert (s1 !! (d ++ init ++ [x]) = s !! (d ++ init ++ [x])) as Hsame by (apply Ho; auto).
  unfold mbind, M_bind, makedirs. rewrite makedirs_through by (intros q; apply Hr). cbn [app]. rewrite Hm.
  assert (open_wb (d ++ init ++ [x]) s1 = (<[d ++ init ++ [x] := NFile []]> s1, Ok tt)) as ->
    by (unfold open_wb; rewrite Hsame; by destruct (s !! (d ++ init ++ [x])) as [[]|]).
  cbn [st_chunks st_fault]. rewrite (copy_chunks_all _ cap total tcap chunks Hch 0 []); [|apply lookup_insert_eq|lia|lia].
  rewrite insert_insert_eq, Z.add_0_r. cbn [app]. eexists. split_and!; [reflexivity|apply lookup_insert_eq| |].
  - intros q Hq Hne. rewrite lookup_insert_ne by auto. by apply Hd.
  - intros p Hp Hq. rewrite lookup_insert_ne by done. by apply Ho.
Qed.

(** Below [d] there are these files, the directories on the way to them, and nothing else. *)
Record stored (d : path) (files : list entry) (s : fs) : Prop := {
  sd_file p c : (p, c) ∈ files -> s !! (d ++ p) = Some (NFile c);
  sd_only p t : s !! (d ++ p) = Some (NFile t) -> (p, t) ∈ files;
  sd_dir p : s !! (d ++ p) = Some NDir -> p = [] \/ exists q c, (q, c) ∈ files /\ p `prefix_of` removelast q;
  sd_way q c p : (q, c) ∈ files -> p `prefix_of` removelast q -> s !! (d ++ p) = Some NDir;
}.

(** No file stands where another's directory should. *)
Definition antichain (files : list entry) : Prop := forall p c q e, (p, c) ∈ files -> (q, e) ∈ files -> ~ p `prefix_of` removelast q.

Lemma stored_step d files q c chunks cap total tcap s : concat chunks = c -> Forall (fun x => x <> []) chunks -> rooted_at d s -> d <> [] ->
  stored d files s -> antichain (files ++ [(q, c)]) -> q <> [] -> q ∉ files.*1 ->
  Z.of_nat (length c) <= cap -> total + Z.of_nat (length c) <= tcap ->
  exists s', copy_capped (mkStream chunks None) (d ++ q) cap total tcap s = (s', Ok (total + Z.of_nat (length c))) /\
    stored d (files ++ [(q, c)]) s' /\ rooted_at d s'.
Proof.
  intros <- Hch Hr Hd0 [Ha Hb Hc Hw] Hanti Hne Hq Hcap Htot.
  destruct (exists_last Hne) as (init & x & ->).
  assert (forall p, p `prefix_of` init -> p <> init ++ [x]) as Hinit.
  { intros p Hp%prefix_length Heq. apply (f_equal length) in Heq. rewrite length_app in Heq. cbn in Heq. lia. }
  assert (forall p e, (p, e) ∈ files -> ~ p `prefix_of` init) as Hold.
  { intros p e Hin Hp. apply (Hanti p e (init ++ [x]) (concat chunks)); [set_solver|set_solver|by rewrite removelast_last]. }
  assert (forall p e, (p, e) ∈ files -> ~ (init ++ [x]) `prefix_of` removelast p) as Hnew.
  { intros p e Hin. apply (Hanti _ (concat chunks) p e); set_solver. }
  destruct (copy_capped_all d init x chunks cap total tcap s Hch Hr) as (s' & Hcopy & Hfile & Hdirs & Ho); [| |done|done|].
  { intros p t Hp Hpne Hpt. apply Hb in Hpt. by eapply Hold. }
  { intros [Hnil|(p & e & Hin & Hp)]%Hc; [by destruct init|]. by eapply Hnew. }
  assert (forall p, p <> init ++ [x] -> ~ (p `prefix_of` init /\ p <> []) -> s' !! (d ++ p) = s !! (d ++ p)) as Hsame.
  { intros p Hp Hn. apply Ho; [by intros ?%app_inv_head|]. intros p' Hp' Hne' ->%app_inv_head. by apply Hn. }
  assert (s' !! d = s !! d) as Hroot by (rewrite <- (app_nil_r d); apply Hsame; [by destruct init|by intros [_ ?]]).
  exists s'. split_and!; [done| |].
  - split.
    + intros p e [Hin|[= -> ->]%list_elem_of_singleton]%elem_of_app; [|done]. rewrite Hsame; [by apply Ha| |].
      * intros ->. apply Hq. apply list_elem_of_fmap. by exists (init ++ [x], e).
      * intros [Hp _]. by eapply Hold.
    + intros p t Hp. apply elem_of_app. destruct (decide (p = init ++ [x])) as [->|Hpx].
      { right. rewrite Hfile in Hp. injection Hp as <-. by apply list_elem_of_singleton. }
      destruct (decide (p `prefix_of` init /\ p <> [])) as [[H1 H2]|Hn]; [by rewrite Hdirs in Hp|]. left. apply Hb. by rewrite <- Hsame.
    + intros p Hp. destruct (decide (p = init ++ [x])) as [->|Hpx]; [by rewrite Hfile in Hp|].
      destruct (decide (p `prefix_of` init /\ p <> [])) as [[H1 H2]|Hn].
      { right. exists (init ++ [x]), (concat chunks). rewrite removelast_last. set_solver. }
      rewrite Hsame in Hp by done. destruct (Hc p Hp) as [|(q & e & Hin & Hq')]; [by left|right]. exists q, e. set_solver.
    + intros q e p [Hin|[= -> ->]%list_elem_of_singleton]%elem_of_app Hp.
      * destruct (decide (p = init ++ [x])) as [->|Hpx]; [by exfalso; eapply Hnew|].
        destruct (decide (p `prefix_of` init /\ p <> [])) as [[H1 H2]|Hn]; [by apply Hdirs|]. rewrite Hsame by done. by eapply Hw.
      * rewrite removelast_last in Hp. destruct p as [|y p]; [|by apply Hdirs]. rewrite app_nil_r, Hroot. by apply Hr.
  - intros p Hp Hpne. destruct (decide (p = d)) as [->|Hpd]; [rewrite Hroot; by apply Hr|].
    assert (length p < length d)%nat as Hlen.
    { destruct Hp as [k ->]. destruct k; [by rewrite app_nil_r in Hpd|]. rewrite length_app. cbn. lia. }
    rewrite Ho; [by apply Hr| |].
    + intros ->. rewrite length_app in Hlen. lia.
    + intros q _ _ ->. rewrite length_app in Hlen. lia.
Qed.

Definition sizes (files : list entry) : Z := foldr (fun e acc => Z.of_nat (length e.2) + acc) 0 files.

Lemma sizes_nonneg files : 0 <= sizes files.
Proof. unfold sizes. induction files as [|e files IH]; cbn [foldr]; lia. Qed.

Section Extracted.
Context (realpath : path -> path) (limits : UploadLimits) (d : path) (chunks : text -> list text) (name : path -> string).
Hypothesis chunked : forall c, concat (chunks c) = c /\ Forall (fun x => x <> []) (chunks c).
Hypothesis below : d <> [].

(** The members as a tar of these files gives them. *)
Definition member_of (e : entry) : tar_info := mkTar (name e.1) TReg (mkStream (chunks e.2) None).

Lemma files_extracted files : forall done members total s, rooted_at d s -> stored d done s -> antichain (done ++ files) -> NoDup (done ++ files).*1 ->
  (forall q c, (q, c) ∈ files -> q <> [] /\ member_dest realpath d (name q) = Ok (d ++ q) /\ Z.of_nat (length c) <= max_member_bytes limits) ->
  members + Z.of_nat (length files) <= max_members limits -> total + sizes files <= max_total_bytes limits ->
  exists s', tar_members realpath limits d (member_of <$> files) None members total s = (s', Ok tt) /\ stored d (done ++ files) s' /\ rooted_at d s'.
Proof.
  induction files as [|[q c] files IH]; intros done members total s Hr Hs Ha Hn Hf Hm Ht.
  { exists s. by rewrite app_nil_r. }
  change (done ++ (q, c) :: files) with (done ++ ([(q, c)] ++ files)) in *. rewrite app_assoc in Ha, Hn |- *.
  destruct (Hf q c) as (Hne & Hdest & Hcap); [set_solver|]. destruct (chunked c) as [Hcat Hnonempty]. cbn [sizes foldr length snd] in Ht, Hm.
  assert (0 <= sizes files) as Hpos by apply sizes_nonneg. fold (sizes files) in Ht.
  destruct (stored_step d done q c (chunks c) (max_member_bytes limits) total (max_total_bytes limits) s) as (s1 & Hcopy & Hs1 & Hr1); try done.
  { intros p e p' e' H1 H2. apply (Ha p e p' e'); set_solver. }
  { intros Hin. rewrite !fmap_app in Hn. apply NoDup_app in Hn as [Hn _]. apply NoDup_app in Hn as (_ & Hd & _). apply (Hd q Hin). set_solver. }
  { lia. }
  destruct (IH (done ++ [(q, c)]) (members + 1) (total + Z.of_nat (length c)) s1) as (s' & Hrun & Hs' & Hr'); try done.
  { intros q' c' Hin. apply Hf. set_solver. }
  { lia. }
  { lia. }
  exists s'. split_and!; [|done|done]. cbn [fmap list_fmap tar_members member_of ti_kind ti_name ti_stream fst snd].
  destruct (Z.ltb_spec (max_members limits) (members + 1)); [lia|]. unfold mbind, M_bind, lift. rewrite Hdest, Hcopy. exact Hrun.
Qed.
End Extracted.

(** ** Names read back *)

(** A component an archive can carry. *)
Definition clean_comp (c : string) : Prop :=
  c <> "" /\ c <> "." /\ c <> ".." /\ Forall (fun x => x <> "/"%char /\ x <> BACKSLASH) (chars_of c).

Lemma split_slash_clean t rest : Forall (fun x => x <> "/"%char) t -> split_slash (t ++ "/"%char :: rest) = t :: split_slash rest.
Proof.
  induction 1 as [|x t Hx Ht IH]; [done|]. cbn [app split_slash]. rewrite (proj2 (Ascii.eqb_neq x "/"%char) Hx), IH. done.
Qed.

Lemma split_slash_last t : Forall (fun x => x <> "/"%char) t -> split_slash t = [t].
Proof. induction 1 as [|x t Hx Ht IH]; [done|]. cbn [split_slash]. by rewrite (proj2 (Ascii.eqb_neq x "/"%char) Hx), IH. Qed.

Lemma split_join base rel : Forall clean_comp (base :: rel) -> split_slash (chars_of (join_path base rel)) = chars_of <$> (base :: rel).
Proof.
  revert base. induction rel as [|c rel IH]; intros base [(_ & _ & _ & Hb) Hrel]%Forall_cons; cbn [join_path].
  { rewrite split_slash_last; [done|]. eapply Forall_impl; [exact Hb|]. by intros x []. }
  rewrite !chars_of_app. cbn [String.list_ascii_of_string app]. rewrite split_slash_clean by (eapply Forall_impl; [exact Hb|]; by intros x []).
  by rewrite IH.
Qed.

Lemma no_backslash base rel : Forall clean_comp (base :: rel) -> unslash <$> chars_of (join_path base rel) = chars_of (join_path base rel).
Proof.
  intros H. assert (Forall (fun x => x <> BACKSLASH) (chars_of (join_path base rel))) as Hb.
  { revert base H. induction rel as [|c rel IH]; intros base [(_ & _ & _ & Hb) Hrel]%Forall_cons; cbn [join_path].
    - eapply Forall_impl; [exact Hb|]. by intros x [].
    - rewrite !chars_of_app. apply Forall_app. split; [eapply Forall_impl; [exact Hb|]; by intros x []|].
      cbn [String.list_ascii_of_string app]. constructor; [done|by apply IH]. }
  induction Hb as [|x t Hx Ht IH]; [done|]. rewrite fmap_cons, IH. unfold unslash. by rewrite (proj2 (Ascii.eqb_neq x BACKSLASH) Hx).
Qed.

Lemma parts_clean base rel : Forall clean_comp (base :: rel) -> parts_of (chars_of (join_path base rel)) = base :: rel.
Proof.
  intros H. unfold parts_of. rewrite split_join by done.
  induction H as [|c cs (Hne & Hdot & _ & _) Hcs IH]; [done|]. rewrite fmap_cons. cbn [List.filter].
  rewrite (bool_decide_false (chars_of c = [])) by (by destruct c). rewrite bool_decide_false.
  2: { intros E. apply Hdot. rewrite <- (String.string_of_list_ascii_of_string c), E. done. }
  cbn [orb negb]. rewrite fmap_cons, String.string_of_list_ascii_of_string. f_equal. exact IH.
Qed.

Definition slugs (t : text) : Prop := Forall (fun c => is_slug_char c = true) t.

Lemma member_dest_clean realpath d base rel : Forall clean_comp (base :: rel) -> slugs (chars_of base) ->
  under_dir (realpath d) (realpath (d ++ base :: rel)) = true -> member_dest realpath d (join_path base rel) = Ok (d ++ base :: rel).
Proof.
  intros Hc Hs Hu. unfold member_dest. rewrite no_backslash by done. pose proof (parts_clean base rel Hc) as Hp.
  apply Forall_cons in Hc as [(Hne & _ & Hdots & Hb) Hrel].
  destruct base as [|c base]; [done|]. cbn [String.list_ascii_of_string] in Hb, Hs. apply Forall_cons in Hb as [[Hslash _] _]. apply Forall_cons in Hs as [_ Hs].
  assert (exists t, chars_of (join_path (String c base) rel) = c :: t /\ has_drive (c :: t) = false) as (t & E & Hdrive).
  { assert (forall r, has_drive (c :: chars_of base ++ "/"%char :: r) = false /\ has_drive (c :: chars_of base) = false) as Hd.
    { intros r. destruct (chars_of base) as [|x b]; [cbn; by rewrite andb_false_r|]. apply Forall_cons in Hs as [Hx _].
      cbn. destruct (Ascii.eqb_spec x ":"%char) as [->|]; [done|]. by rewrite andb_false_r. }
    destruct rel as [|r rel]; cbn [join_path].
    - exists (chars_of base). split; [done|by apply (Hd [])].
    - exists (chars_of base ++ "/"%char :: chars_of (join_path r rel)). split; [|by apply Hd].
      change (chars_of (String c base +:+ "/" +:+ join_path r rel)) with (c :: chars_of (base +:+ "/" +:+ join_path r rel)). by rewrite !chars_of_app. }
  rewrite E in Hp |- *. rewrite (proj2 (Ascii.eqb_neq c "/"%char) Hslash), Hdrive. rewrite Hp. cbv zeta.
  rewrite bool_decide_false by done. rewrite bool_decide_false; [by rewrite Hu|].
  intros [Heq|Hin]%elem_of_cons; [by rewrite Heq in Hdots|]. rewrite Forall_forall in Hrel. by destruct (Hrel _ Hin) as (_ & _ & ? & _).
Qed.

(** ** The directory's name *)

Lemma lstrip_edges_slugs t : slugs t -> slugs (lstrip_edges t).
Proof. induction 1 as [|c t Hc Ht IH]; [constructor|]. cbn [lstrip_edges]. destruct (is_edge c); [done|by constructor]. Qed.

Lemma strip_edges_slugs t : slugs t -> slugs (strip_edges t).
Proof. intros H. unfold strip_edges. by apply Forall_reverse, lstrip_edges_slugs, Forall_reverse, lstrip_edges_slugs. Qed.

Lemma lstrip_edges_head t c t' : lstrip_edges t = c :: t' -> is_edge c = false.
Proof. induction t as [|a t IH]; [done|]. cbn [lstrip_edges]. destruct (is_edge a) eqn:E; [done|]. by intros [= <- _]. Qed.

Lemma lstrip_snoc t x : is_edge x = false -> exists u, lstrip_edges (t ++ [x]) = u ++ [x].
Proof.
  intros Hx. induction t as [|a t [u IH]]; [exists []; cbn; by rewrite Hx|]. cbn [app lstrip_edges]. destruct (is_edge a); [by exists u|by exists (a :: t)].
Qed.

Lemma strip_edges_head t c t' : strip_edges t = c :: t' -> is_edge c = false.
Proof.
  unfold strip_edges. destruct (lstrip_edges t) as [|a u] eqn:E; [done|]. apply lstrip_edges_head in E. rewrite reverse_cons.
  destruct (lstrip_snoc (reverse u) a E) as [v ->]. rewrite reverse_snoc. by intros [= <- _].
Qed.

Lemma basename_spec name : slugs (chars_of (safe_basename name)) /\ exists c t, safe_basename name = String c t /\ is_edge c = false.
Proof.
  unfold safe_basename. destruct (strip_edges _) as [|c t] eqn:E.
  - split; [repeat constructor|by do 2 eexists].
  - split; [|exists c, (of_chars t); split; [done|by eapply strip_edges_head]].
    rewrite String.list_ascii_of_string_of_list_ascii, <- E. apply strip_edges_slugs, Forall_take, strip_edges_slugs, slug_chars_ok.
Qed.

Lemma basename_clean name : clean_comp (safe_basename name) /\ is_junk (safe_basename name) = false.
Proof.
  destruct (basename_spec name) as [Hs (c & t & E & Hc)]. rewrite E in *.
  assert (c <> "."%char /\ c <> "_"%char) as [Hdot Hund] by (split; intros ->; discriminate Hc).
  split.
  - split_and!; [done|congruence|congruence|]. eapply Forall_impl; [exact Hs|]. intros x Hx. split; intros ->; discriminate Hx.
  - unfold is_junk. rewrite bool_decide_false by (unfold JUNK_NAMES; set_solver). cbn [orb String.prefix]. by destruct (ascii_dec "." c) as [<-|].
Qed.

(** ** What is collected *)

Definition from_dir (pack_dir : path) (s : fs) (e : entry) : Prop :=
  s !! (pack_dir ++ e.1) = Some (NFile e.2) /\ (e.1 ∈ EXPORT_RELPATHS \/ exists r, e.1 = "samples" :: r).

Lemma sample_rels_spec pack_dir s rel : rel ∈ sample_rels pack_dir s -> exists r, rel = "samples" :: r.
Proof.
  unfold sample_rels. intros ([p n] & _ & H)%list_elem_of_omap. cbn [fst snd] in H.
  destruct (under_dir _ p) eqn:E; [|done]. destruct n; [done|]. injection H as <-. apply under_dir_spec in E as [r ->].
  exists r. by rewrite <- app_assoc, drop_app_length.
Qed.

Lemma read_entries_spec unsafe pack_dir s rels : (forall rel, rel ∈ rels -> rel ∈ EXPORT_RELPATHS \/ exists r, rel = "samples" :: r) ->
  forall entries, Forall (from_dir pack_dir s) entries -> NoDup entries.*1 ->
  Forall (from_dir pack_dir s) (foldl (read_entry unsafe pack_dir s) entries rels) /\ NoDup (foldl (read_entry unsafe pack_dir s) entries rels).*1.
Proof.
  induction rels as [|rel rels IH]; intros Hr entries Hf Hn; [done|]. cbn [foldl].
  assert (Forall (from_dir pack_dir s) (read_entry unsafe pack_dir s entries rel) /\ NoDup (read_entry unsafe pack_dir s entries rel).*1) as [Hf' Hn'].
  { unfold read_entry. destruct (bool_decide_reflect (rel ∈ entries.*1)) as [|Hin]; [done|]. destruct (s !! (pack_dir ++ rel)) as [[|c]|] eqn:E; [done| |done].
    destruct (unsafe _); [done|]. split.
    - apply Forall_app. split; [done|]. apply Forall_singleton. split; [done|]. apply Hr. set_solver.
    - rewrite fmap_app. apply NoDup_app. split_and!; [done| |apply NoDup_singleton]. intros x Hx ->%list_elem_of_singleton. done. }
  apply IH; [|done|done]. intros r Hin. apply Hr. set_solver.
Qed.

Lemma collect_spec unsafe pack_dir s : Forall (from_dir pack_dir s) (collect unsafe pack_dir s) /\ NoDup (collect unsafe pack_dir s).*1.
Proof.
  apply read_entries_spec; [|constructor|constructor]. intros rel [Hin|Hin]%elem_of_app; [by left|right]. by eapply sample_rels_spec.
Qed.

Lemma closed_strict s p c r : closed s -> is_Some (s !! (p ++ c :: r)) -> p <> [] -> s !! p = Some NDir.
Proof.
  intros Hc. revert p c. induction r as [|y r IH]; intros p c Hs Hne.
  - by destruct (Hc p c Hs).
  - change (p ++ c :: y :: r) with (p ++ [c] ++ y :: r) in Hs. rewrite app_assoc in Hs. apply IH in Hs; [|by destruct p].
    by destruct (Hc p c) as [|]; [rewrite Hs|..].
Qed.

Lemma from_dir_nonempty pack_dir s e : from_dir pack_dir s e -> e.1 <> [].
Proof. intros [_ [Hin|[r ->]]]; [|done]. intros E. rewrite E in Hin. unfold EXPORT_RELPATHS in Hin. set_solver. Qed.

(** Files of one file system never stand in each other's way. *)
Lemma collected_antichain base pack_dir s entries : closed s -> Forall (from_dir pack_dir s) entries ->
  antichain ((fun e => (base :: e.1, e.2)) <$> entries).
Proof.
  intros Hc Hf p c q e ([p' c'] & [= -> ->] & Hp)%list_elem_of_fmap ([q' e'] & [= -> ->] & Hq)%list_elem_of_fmap. cbn [fst] in *.
  rewrite Forall_forall in Hf. pose proof (from_dir_nonempty _ _ _ (Hf _ Hp)) as Hpne. pose proof (from_dir_nonempty _ _ _ (Hf _ Hq)) as Hqne.
  destruct (Hf _ Hp) as [Hps _], (Hf _ Hq) as [Hqs _]. cbn [fst snd] in *. destruct (exists_last Hqne) as (init & x & ->).
  change (base :: init ++ [x]) with ((base :: init) ++ [x]). rewrite removelast_last. intros Hpre%prefix_cons_inv_2. destruct Hpre as [k ->].
  assert (s !! (pack_dir ++ p') = Some NDir) as Hd; [|congruence].
  destruct k as [|y k].
  - apply (closed_strict s _ x [] Hc); [rewrite app_nil_r in Hqs; rewrite <- app_assoc; by rewrite Hqs|]. by destruct p', pack_dir.
  - apply (closed_strict s _ y (k ++ [x]) Hc); [|by destruct p', pack_dir]. rewrite <- app_assoc in Hqs. cbn [app] in Hqs. rewrite <- app_assoc. cbn [app]. by rewrite Hqs.
Qed.

(** ** The root of what was extracted *)

Lemma wrapped_one staging base files s : stored staging files s -> is_junk base = false ->
  (forall q c, (q, c) ∈ files -> exists rel, q = base :: rel /\ rel <> []) -> files <> [] ->
  wrapped_dirs staging s = [staging ++ [base]].
Proof.
  intros Hs Hj Hf Hne.
  assert (forall p, p ∈ wrapped_dirs staging s -> p = staging ++ [base]) as Hall.
  { unfold wrapped_dirs. intros p ([p' n] & Hp%elem_of_map_to_list & H)%list_elem_of_omap. cbn [fst snd] in H.
    destruct (entry_of_dir staging p') as [e|] eqn:Ee; [|done]. destruct n; [|done]. destruct (is_junk e); [done|]. injection H as <-.
    apply entry_of_dir_spec in Ee as ->. destruct (sd_dir _ _ _ Hs [e] Hp) as [|(q & c & Hin & Hq)]; [done|].
    destruct (Hf q c Hin) as (rel & -> & Hrel). destruct (exists_last Hrel) as (i & x & ->).
    change (base :: i ++ [x]) with ((base :: i) ++ [x]) in Hq. rewrite removelast_last in Hq. by apply prefix_cons_inv_1 in Hq as ->. }
  assert (staging ++ [base] ∈ wrapped_dirs staging s) as Hin.
  { destruct files as [|[q c] files]; [done|]. destruct (Hf q c) as (rel & -> & Hrel); [set_solver|]. destruct (exists_last Hrel) as (i & x & ->).
    unfold wrapped_dirs. apply list_elem_of_omap. exists (staging ++ [base], NDir). split.
    - apply elem_of_map_to_list. apply (sd_way _ _ _ Hs (base :: i ++ [x]) c [base]); [set_solver|].
      change (base :: i ++ [x]) with ((base :: i) ++ [x]). rewrite removelast_last. apply prefix_cons, prefix_nil.
    - cbn [fst snd]. unfold entry_of_dir. by rewrite under_dir_app, drop_app_length, Hj. }
  assert (NoDup (wrapped_dirs staging s)) as Hnd.
  { unfold wrapped_dirs. apply (sublist_NoDup _ (map_to_list s).*1); [apply NoDup_fst_map_to_list|]. generalize (map_to_list s). intros l.
    induction l as [|[p n] l IH]; [constructor|]. cbn. destruct (entry_of_dir staging p) as [e|]; [|by constructor].
    destruct n; [|by constructor]. destruct (is_junk e); by constructor. }
  destruct (wrapped_dirs staging s) as [|p [|p' l]] eqn:E; [by apply not_elem_of_nil in Hin|by rewrite (Hall p) by set_solver|].
  exfalso. apply NoDup_cons in Hnd as [Hp _]. apply Hp. rewrite (Hall p) by set_solver. rewrite (Hall p') by set_solver. set_solver.
Qed.

(** ** From one instance to another *)

(** The files that make a directory a pack root. *)
Definition MANIFESTS : list path := [["default"; "eventgen.conf"]; ["pack.yaml"]; ["stoker.json"]].

Definition name_of_parts (q : path) : string := match q with b :: r => join_path b r | [] => "" end.

Lemma exported_root staging base entries s : stored staging ((fun e => (base :: e.1, e.2)) <$> entries) s -> is_junk base = false ->
  (forall e, e ∈ entries -> e.1 ∈ EXPORT_RELPATHS \/ exists r, e.1 = "samples" :: r) ->
  (exists m, m ∈ MANIFESTS /\ m ∈ entries.*1) -> find_pack_root staging s = Ok (staging ++ [base]).
Proof.
  intros Hs Hj Hrel (m & Hm & Hin).
  assert (forall p, p ∈ MANIFESTS -> isfile (staging ++ p) s = false) as Hnot.
  { intros p Hp. unfold isfile. destruct (s !! (staging ++ p)) as [[|t]|] eqn:E; [done| |done]. exfalso.
    apply (sd_only _ _ _ Hs) in E. apply list_elem_of_fmap in E as ([rel c] & [= Hpr ->] & He). cbn [fst] in *. destruct (Hrel _ He) as [Hr|[r Hr]]; cbn [fst] in Hr.
    - unfold MANIFESTS, EXPORT_RELPATHS in *. set_solver.
    - subst rel. unfold MANIFESTS in Hp. set_solver. }
  assert (looks_like_pack_root staging s = false) as Hl.
  { unfold looks_like_pack_root. rewrite !Hnot; [done|unfold MANIFESTS; set_solver..]. }
  assert (looks_like_pack_root (staging ++ [base]) s = true) as Hl2.
  { apply list_elem_of_fmap in Hin as ([rel c] & -> & He). cbn [fst] in Hm.
    assert (isfile ((staging ++ [base]) ++ rel) s = true) as Hfile.
    { unfold isfile. rewrite <- app_assoc. cbn [app]. rewrite (sd_file _ _ _ Hs (base :: rel) c); [done|]. apply list_elem_of_fmap. by exists (rel, c). }
    unfold MANIFESTS in Hm. unfold looks_like_pack_root.
    apply elem_of_cons in Hm as [->|Hm]; [by rewrite Hfile|]. apply elem_of_cons in Hm as [->|Hm]; [rewrite Hfile; apply orb_true_iff; left; apply orb_true_r|].
    apply list_elem_of_singleton in Hm as ->. rewrite Hfile. apply orb_true_r. }
  unfold find_pack_root. rewrite Hl, (wrapped_one staging base _ s Hs Hj), Hl2; [done| |].
  - intros q c ([rel c'] & [= -> ->] & He)%list_elem_of_fmap. exists rel. split; [done|]. destruct (Hrel _ He) as [Hr|[r Hr]]; cbn [fst] in Hr; [|by subst].
    intros ->. unfold EXPORT_RELPATHS in Hr. set_solver.
  - destruct entries; [|done]. by apply not_elem_of_nil in Hin.
Qed.

Lemma named_sizes base entries : total_size ((fun e => (join_path base e.1, e.2)) <$> entries) = sizes ((fun e : entry => (base :: e.1, e.2)) <$> entries).
Proof. unfold total_size, sizes. induction entries as [|e entries IH]; [done|]. cbn [fmap list_fmap foldr fst snd]. by rewrite IH. Qed.

Lemma pack_archive_ok tar_gz limits mab base entries embedded res : pack_archive tar_gz limits mab base entries embedded = Ok res ->
  exists entries', entries' ≡ₚ entries /\ let named := (fun e => (join_path base e.1, e.2)) <$> entries' in
    named_entries base entries = named /\ ex_data res = tar_gz named /\ Z.of_nat (length entries') <= max_members limits /\
    (forall e, e ∈ entries' -> Z.of_nat (length e.2) <= max_member_bytes limits) /\ total_size named <= max_total_bytes limits.
Proof.
  unfold pack_archive. assert (named_entries base entries ≡ₚ (fun e => (join_path base e.1, e.2)) <$> entries) as Hp by apply merge_sort_Permutation.
  apply Permutation_map_inv in Hp as (entries' & Hnamed & Hperm). set (named := (fun e => (join_path base e.1, e.2)) <$> entries').
  assert (named_entries base entries = named) as -> by exact Hnamed. cbv zeta.
  destruct (Z.ltb_spec (max_members limits) (Z.of_nat (length named))) as [|Hm]; [done|].
  destruct (existsb _ named) eqn:Ee; [done|]. destruct (Z.ltb_spec (max_total_bytes limits) (total_size named)) as [|Ht]; [done|].
  destruct (_ <? _); [done|]. intros [= <-]. exists entries'. unfold named in Hm. rewrite length_fmap in Hm. split_and!; [done|done|done|done| |done].
  intros e He. pose proof (proj1 (existsb_false _ _) Ee (join_path base e.1, e.2)) as Hcap. cbn [snd] in Hcap.
  apply Z.ltb_ge, Hcap. apply list_elem_of_fmap. by exists e.
Qed.

Section RoundTrip.
Context (tar_gz : list (string * text) -> text) (rd : reader) (realpath : path -> path) (limits : UploadLimits) (chunks : text -> list text).
Hypothesis chunked : forall c, concat (chunks c) = c /\ Forall (fun x => x <> []) (chunks c).
Hypothesis caps : 0 <= max_member_bytes limits /\ 0 <= max_total_bytes limits.

(** The reader gives back, of these bytes, the members the archive was made of. *)
Definition reads_back (named : list (string * text)) : Prop :=
  detect_format (tar_gz named) = Some Tar /\
  rd_tar rd (tar_gz named) = Some ((fun e => mkTar e.1 TReg (mkStream (chunks e.2) None)) <$> named, None).

Lemma exported_extracts unsafe pack_dir pack_name s entries' d t : let base := safe_basename pack_name in
  closed s -> entries' ≡ₚ collect unsafe pack_dir s -> (forall e, e ∈ entries' -> Forall clean_comp e.1) ->
  reads_back ((fun e => (join_path base e.1, e.2)) <$> entries') -> Z.of_nat (length entries') <= max_members limits ->
  (forall e, e ∈ entries' -> Z.of_nat (length e.2) <= max_member_bytes limits) ->
  total_size ((fun e => (join_path base e.1, e.2)) <$> entries') <= max_total_bytes limits ->
  d <> [] -> rooted_at d t -> stored d [] t -> (forall p, under_dir (realpath d) (realpath (d ++ p)) = true) ->
  exists t', extract rd realpath limits Tar (tar_gz ((fun e => (join_path base e.1, e.2)) <$> entries')) d t = (t', Ok tt) /\
    stored d ((fun e => (base :: e.1, e.2)) <$> entries') t'.
Proof.
  intros base Hc Hperm Hclean [_ Hrd] Hm Hmb Ht Hd Hr Hs Hreal. destruct (collect_spec unsafe pack_dir s) as [Hfrom Hnd]. rewrite <- Hperm in Hfrom, Hnd.
  destruct (files_extracted realpath limits d chunks name_of_parts chunked Hd ((fun e => (base :: e.1, e.2)) <$> entries') [] 0 0 t)
    as (t' & Hrun & Hst & _); [done|done| | | | | |].
  - by eapply collected_antichain.
  - cbn [app]. rewrite <- list_fmap_compose. change (fst ∘ (fun e : entry => (base :: e.1, e.2))) with (cons base ∘ (fst : entry -> path)).
    rewrite list_fmap_compose. by apply NoDup_fmap_2; [apply _|].
  - intros q c ([rel c'] & [= -> ->] & He)%list_elem_of_fmap. split_and!; [done| |by apply (Hmb _ He)]. cbn [name_of_parts fst].
    apply member_dest_clean; [|apply basename_spec|apply Hreal]. constructor; [apply basename_clean|by apply (Hclean _ He)].
  - rewrite length_fmap. lia.
  - rewrite <- named_sizes. lia.
  - exists t'. split; [|done]. unfold extract, extract_tar. rewrite Hrd. rewrite <- list_fmap_compose. rewrite <- list_fmap_compose in Hrun. exact Hrun.
Qed.

Lemma vacant_stored staging t : vacant staging t -> stored staging [] (<[staging := NDir]> t).
Proof.
  intros Hv. assert (forall p, p <> [] -> <[staging := NDir]> t !! (staging ++ p) = None) as Hp.
  { intros p Hne. rewrite lookup_insert_ne; [apply Hv, under_dir_app|]. intros Heq. apply (f_equal length) in Heq. rewrite length_app in Heq. destruct p; [done|cbn in Heq; lia]. }
  split; [set_solver| | |set_solver].
  - intros [|x p] c; [by rewrite app_nil_r, lookup_insert_eq|by rewrite Hp].
  - intros [|x p]; [by left|by rewrite Hp].
Qed.

(** C38: A pack travels.  What one instance exports of a pack that needs no dataset, another with
    the same limits accepts, and the directory it adds holds exactly the exported files with
    their contents: provided the pack has a file that makes it one, its files' names are
    ones an archive can carry, and the archive's bytes are read as they were written. *)
Theorem exported_pack_arrives unsafe pack_dir pack_name include_dataset mab s res upload_dir uuid hint t t1 :
  closed s -> export_pack_bytes tar_gz limits mab unsafe pack_dir pack_name include_dataset (Ok NoReplay) s = Ok res ->
  (exists m, m ∈ MANIFESTS /\ m ∈ (collect unsafe pack_dir s).*1) ->
  (forall e, e ∈ collect unsafe pack_dir s -> Forall clean_comp e.1) ->
  reads_back (named_entries (safe_basename pack_name) (collect unsafe pack_dir s)) ->
  closed t -> vacant (staging_of upload_dir uuid) t -> makedirs upload_dir t = (t1, Ok tt) ->
  (forall p, under_dir (realpath (staging_of upload_dir uuid)) (realpath (staging_of upload_dir uuid ++ p)) = true) ->
  exists t' final, store_uploaded_pack rd realpath limits (ex_data res) upload_dir uuid hint t = (t', Ok final) /\
    forall rel c, (rel, c) ∈ collect unsafe pack_dir s <-> t' !! (final ++ rel) = Some (NFile c).
Proof.
  intros Hc Hex Hman Hclean Hread Hct Hvt Hmk Hreal. set (base := safe_basename pack_name) in *. set (staging := staging_of upload_dir uuid) in *.
  unfold export_pack_bytes in Hex. destruct (negb _); [done|]. destruct (bool_decide _); [done|]. cbn [embed_dataset mbind result_bind fst snd] in Hex.
  apply pack_archive_ok in Hex as (entries' & Hperm & Hnamed & Hdata & Hm & Hmb & Htot). fold base in Hnamed, Hdata, Htot. rewrite Hnamed in Hread.
  destruct (staged upload_dir uuid t t1 tt Hct Hvt Hmk) as (Hc1 & Hv1 & Hms & Hroot). fold staging in Hv1, Hms, Hroot.
  destruct (exported_extracts unsafe pack_dir pack_name s entries' staging (<[staging := NDir]> t1)) as (t3 & Hext & Hst); try done.
  { intros e He. apply Hclean. by rewrite <- Hperm. }
  { unfold staging, staging_of. by destruct upload_dir. }
  { by apply vacant_stored. }
  fold base in Hext, Hst. pose proof (extract_confined realpath limits staging caps _ _ _ _ _ _ Hroot Hext) as (Hout & _).
  destruct (collect_spec unsafe pack_dir s) as [Hfrom _]. rewrite <- Hperm in Hfrom. rewrite Forall_forall in Hfrom.
  assert (find_pack_root staging t3 = Ok (staging ++ [base])) as Hfind.
  { apply (exported_root staging base entries'); [done|apply basename_clean|intros e He; apply (Hfrom e He)|]. destruct Hman as (m & H1 & H2). exists m. by rewrite Hperm. }
  set (h := match hint with Some h => if nonempty h then h else default "" (last (staging ++ [base])) | None => default "" (last (staging ++ [base])) end).
  destruct (unique_dir_found upload_dir h t3) as [final Hu]. pose proof Hu as (name & -> & Hvis & Hfree)%unique_pack_dir_spec.
  exists (relocated staging (staging ++ [base]) (upload_dir ++ [name]) t3), (upload_dir ++ [name]). split.
  - unfold store_uploaded_pack. rewrite Hdata. destruct Hread as [-> _]. cbv zeta. unfold mbind, M_bind, catch. rewrite Hmk. fold staging. rewrite Hms, Hext.
    unfold place_pack. rewrite Hfind. fold h. rewrite Hu. unfold rename_dir, mbind, M_bind, exists_at. rewrite bool_decide_false; [done|]. rewrite Hfree. by intros [].
  - intros rel c. rewrite relocated_below; [|by eapply final_free|apply (staging_apart upload_dir uuid name Hvis)]. rewrite <- app_assoc. cbn [app].
    rewrite <- Hperm. split.
    + intros He. apply (sd_file _ _ _ Hst). apply list_elem_of_fmap. by exists (rel, c).
    + intros Hl%(sd_only _ _ _ Hst). apply list_elem_of_fmap in Hl as ([rel' c'] & [= -> ->] & He). done.
Qed.
End RoundTrip.

(** ** A pack that travels, and two that do not *)

Definition one_chunk (c : text) : list text := match c with [] => [] | _ => [c] end.
Definition bytes_of (_ : list (string * text)) : text := GZIP_MAGIC.
Definition reader_of (named : list (string * text)) : reader :=
  mkReader (fun _ => Some ((fun e => mkTar e.1 TReg (mkStream (one_chunk e.2) None)) <$> named, None)) (fun _ => None).

Definition disk_of (files : list (path * string)) : fs :=
  foldr (fun f s => <[f.1 := NFile (chars_of f.2)]> s)
    {[ ["srv"] := NDir; ["srv"; "web"] := NDir; ["srv"; "web"; "samples"] := NDir ]} files.
Definition web_disk : fs := disk_of [(["srv"; "web"; "pack.yaml"], "name: web"); (["srv"; "web"; "samples"; "a.log"], "one line"); (["srv"; "web"; "key"], "not exported")].
Definition no_links (_ : path) : bool := false.
Definition export_of (s : fs) := export_pack_bytes bytes_of demo_limits 1000 no_links ["srv"; "web"] "Web pack" true (Ok NoReplay) s.
Definition arrive (s : fs) :=
  store_uploaded_pack (reader_of (named_entries (safe_basename "Web pack") (collect no_links ["srv"; "web"] s))) (fun p => p) demo_limits
    GZIP_MAGIC ["data"; "packs"] "ab12" None demo_disk.

Lemma one_chunk_ok c : concat (one_chunk c) = c /\ Forall (fun x => x <> []) (one_chunk c).
Proof. destruct c; cbn; [done|]. rewrite app_nil_r. split; [done|by apply Forall_singleton]. Qed.

Definition closed_check (s : fs) : bool :=
  forallb (fun pn => match removelast pn.1 with [] => true | d => isdir d s end) (map_to_list s).

Lemma closed_check_ok s : closed_check s = true -> closed s.
Proof.
  unfold closed_check. rewrite List.forallb_forall. intros H p c [n Hn]. specialize (H (p ++ [c], n)). cbn [fst] in H. rewrite removelast_last in H.
  destruct p as [|x p]; [by left|right]. assert (isdir (x :: p) s = true) as Hd by (apply H, list_elem_of_In, elem_of_map_to_list, Hn).
  unfold isdir in Hd. by destruct (s !! (x :: p)) as [[]|].
Qed.

Lemma web_clean e : e ∈ collect no_links ["srv"; "web"] web_disk -> Forall clean_comp e.1.
Proof.
  assert (collect no_links ["srv"; "web"] web_disk = [(["pack.yaml"], chars_of "name: web"); (["samples"; "a.log"], chars_of "one line")]) as -> by (by vm_compute).
  intros [->|[->|[]%not_elem_of_nil]%elem_of_cons]%elem_of_cons; cbn [fst]; repeat constructor; try done.
Qed.

Lemma exported_pack_arrives_witness : exists res t' final, export_of web_disk = Ok res /\ arrive web_disk = (t', Ok final) /\
  t' !! (final ++ ["samples"; "a.log"]) = Some (NFile (chars_of "one line")).
Proof.
  destruct (export_of web_disk) as [res|e] eqn:Ex; [|by vm_compute in Ex].
  destruct (exported_pack_arrives bytes_of (reader_of (named_entries (safe_basename "Web pack") (collect no_links ["srv"; "web"] web_disk))) (fun p => p) demo_limits
    one_chunk one_chunk_ok ltac:(cbn; lia) no_links ["srv"; "web"] "Web pack" true 1000 web_disk res ["data"; "packs"] "ab12" None
    demo_disk (<[["data"; "packs"] := NDir]> demo_disk)) as (t' & final & Hst & Hfiles).
  - by apply closed_check_ok; vm_compute.
  - exact Ex.
  - exists ["pack.yaml"]. split; [by apply elem_of_cons; right; apply elem_of_cons; left|]. apply (bool_decide_unpack _). by vm_compute.
  - apply web_clean.
  - split; [by vm_compute|reflexivity].
  - apply demo_disk_closed.
  - apply demo_disk_vacant.
  - reflexivity.
  - intros p. apply under_dir_app.
  - exists res, t', final. split_and!; [done| |].
    + assert (ex_data res = GZIP_MAGIC) as Hd by (apply (f_equal (fun r => match r with Ok x => ex_data x | Raise _ => [] end)) in Ex; cbv beta iota in Ex; rewrite <- Ex; by vm_compute).
      unfold arrive. by rewrite <- Hd.
    + apply Hfiles. apply (bool_decide_unpack _). by vm_compute.
Defined.

(** A sample's name with a backslash is read as a path on the way in; a directory with samples
    alone is exported and then refused. *)
Example names_and_roots_lost :
  let odd := disk_of [(["srv"; "web"; "pack.yaml"], "name: web"); (["srv"; "web"; "samples"; "a\b.log"], "x")] in
  let bare := disk_of [(["srv"; "web"; "samples"; "a.log"], "x")] in
  is_ok (export_of odd) = true /\ isfile ["data"; "packs"; "Web-pack"; "samples"; "a"; "b.log"] (fst (arrive odd)) = true /\
  is_ok (export_of bare) = true /\ snd (arrive bare) = Raise (PackUploadError "no pack found in the archive").
Proof. by vm_compute. Qed.

(** The name is written bare: one with a [#] is cut at it when the other side reads the file. *)
Example exported_name_cut :
  let t := metric_yaml "web #2" "165.0" "stoker:metric" ["a"; " b "] (Some "two  words") in
  aget "name" (@parse_pack_yaml_server binary64 t) = Some (Scalar (VStr "web")) /\
  aget "tags" (@parse_pack_yaml_server binary64 t) = Some (Scalar (VStr "a, b")) /\
  aget "description" (@parse_pack_yaml_server binary64 t) = Some (Scalar (VStr "two words")) /\
  aget "engine" (@parse_pack_yaml_server binary64 t) = Some (Scalar (VStr "metrics")).
Proof. by vm_compute. Qed.
