(* ===== verification/Supervisor.v ===== *)
(** * The supervisor (server/lifecycle.py: one run's share of a tick)

    Lease lapse, the release timeout, the duration end, the auto-abort policies,
    target backpressure, the drain reap and completion, in the order
    [_supervise_run] runs them. *)

From S2P Require Import Prelude.
From S2P Require Import PyFloat.
From S2P Require Import PyValue.
From S2P Require Import Apportion.
From S2P Require Import Driver.
From S2P Require Import Model.
From S2P Require Import Shares.
From S2P Require Import Session.
From S2P Require Import Protocol.
From S2P Require Import Operators.
From Stdlib Require Import QArith.
Open Scope Z_scope.

(** ** Reading the audit trail *)

Definition detail_get (d : list (string * jval)) (key : string) : option jval :=
  snd <$> List.find (fun kv => bool_decide (kv.1 = key)) d.

(** [detail.get("to") == state] on a ["state"] event *)
Definition enters (state : run_state) (e : RunEvent) : bool :=
  bool_decide (ev_kind e = "state") &&
  match detail_get (ev_detail e) "to" with
  | Some (JV (VStr s)) => bool_decide (s = state_name state)
  | _ => false
  end.

Definition last_state_ts (events : list RunEvent) (state : run_state) : option Z :=
  ev_ts <$> last (List.filter (enters state) events).

Definition has_event (events : list RunEvent) (kind : string) : bool :=
  existsb (fun e => bool_decide (ev_kind e = kind)) events.

Definition event_slot (e : RunEvent) : option Z :=
  match detail_get (ev_detail e) "slot" with
  | Some (JV (VInt z)) => Some z
  | _ => None
  end.

Definition auth_failed_slots (events : list RunEvent) : gset Z :=
  list_to_set (omap event_slot
    (List.filter (fun e => bool_decide (ev_kind e = "hec_auth_failed")) events)).

(** The streak that [_open_backpressure_since] folds over the events. *)
Definition streak_step (since : option Z) (e : RunEvent) : option Z :=
  if bool_decide (ev_kind e ∈ ["backpressure_cleared"; "backpressure_step_down"]) then None
  else if bool_decide (ev_kind e = "backpressure_detected")
       then match since with None => Some (ev_ts e) | s => s end
       else since.

Definition open_backpressure_since (events : list RunEvent) : option Z :=
  foldl streak_step None events.

(** ** Recent delivery *)

Definition or0 (z : option Z) : Z := default 0 z.

(** The last two samples of a slot, the newest first. *)
Definition last_two (slot : nat) (samples : list MetricSample)
    : option (MetricSample * MetricSample) :=
  match reverse (List.filter (fun s => Nat.eqb (ms_slot s) slot) samples) with
  | latest :: prev :: _ => Some (latest, prev)
  | _ => None
  end.

Definition slot_delta (slot : nat) (samples : list MetricSample) : Z * Z :=
  match last_two slot samples with
  | None => (0, 0)
  | Some (latest, prev) =>
      (Z.max 0 (or0 (ms_hec_2xx latest) - or0 (ms_hec_2xx prev)),
       Z.max 0 ((or0 (ms_hec_5xx latest) + or0 (ms_hec_timeouts latest))
                - (or0 (ms_hec_5xx prev) + or0 (ms_hec_timeouts prev))))
  end.

Definition recent_delivery_deltas (samples : list MetricSample) (live_slots : list nat) : Z * Z :=
  foldl (fun '(ok, fail) slot =>
           let '(o, f) := slot_delta slot samples in (ok + o, fail + f)) (0, 0) live_slots.

(** ** Deadlines *)

(** [last_heartbeat_at or created_at or boot_time] *)
Definition last_contact (run : Run) (boot_time : Z) (l : WorkerLease) : Z :=
  match l_last_heartbeat_at l with
  | Some t => t
  | None => default boot_time (r_created_at run)
  end.

Definition lapse_deadline (run : Run) (boot_time : Z) (l : WorkerLease) : Z :=
  Z.max (last_contact run boot_time l + LEASE_LAPSE) (boot_time + BOOT_GRACE).

(** [t0 + timedelta(seconds=duration_s + paused)], to the microsecond *)
Definition duration_end (t0 : Z) (duration_s : Q) (paused : Z) : Z :=
  t0 + round_half_even (duration_s * inject_Z usec + inject_Z paused).

(** Leases that ran and were lost: they carry a heartbeat instant. *)
Definition lost_running (leases : list WorkerLease) : list Z :=
  omap (fun l => if in_state LLost l then l_last_heartbeat_at l else None) leases.

Section Supervisor.
Context {D : Type} `{Env D}.
Abbreviation eff := (M (world D)).

Definition lapse_stale_leases (boot_time : Z) : eff unit :=
  w ← get;
  for_each (w_leases w) (fun lease =>
    when (is_live lease && (lapse_deadline (w_run w) boot_time lease <? w_now w))
      (_ ← on_lease (l_slot lease) (set_lstate LLost);
       append_event "lease_lost"
         [("slot", jint (Z.of_nat (l_slot lease))); ("holder", jopt (l_holder lease));
          ("silent_for_s",
           JV (VFloat (py_round 1 (seconds (w_now w - last_contact (w_run w) boot_time lease)))))]
         "system")).

Definition destroy_fleet (drivers : option driver_map) (why : string) : eff unit :=
  w ← get;
  match driver_ref_of (w_run w), drivers with
  | Some ref, Some drivers =>
      driver ← get_run_driver drivers;
      match driver with
      | None => mret tt
      | Some oid =>
          catch (_ ← call oid (fun d => drv_destroy d ref);
                 append_event "fleet_destroyed" [("why", jstr why)] "system")
            (driver_error "destroy")
      end
  | _, _ => mret tt
  end.

(** Step 2 of [_supervise_run]. *)
Definition release_timeout (drivers : option driver_map) (boot_time : Z) : eff unit :=
  w ← get;
  let run := w_run w in
  when (bool_decide (r_state run = Provisioning) && bool_decide (r_t0 run = None)
        && (PROVISION_TIMEOUT <? w_now w - default boot_time (r_created_at run)))
    (if existsb (in_state LReady) (w_leases w) then
       _ ← evaluate_release true; mret tt
     else if negb (existsb is_pending (w_leases w)) then
       _ ← transition_run Failed
             [("reason", jstr "no worker reached ready");
              ("leases", jint (Z.of_nat (length (w_leases w))))] "system"
             (Some "provision-timeout");
       destroy_fleet drivers "provision-timeout"
     else mret tt).

Definition check_duration : eff unit :=
  w ← get;
  let run := w_run w in
  match r_state run, r_t0 run, nonzero (sn_duration_s (snap_of run)) with
  | (Running | Releasing), Some t0, Some duration_s =>
      when (duration_end t0 duration_s (paused_seconds run (w_now w)) <=? w_now w)
        (transition_run Draining
           [("reason", jstr "duration-complete"); ("duration_s", JV (VFloat duration_s))]
           "system" (Some "duration-complete"))
  | _, _, _ => mret tt
  end.

(** More than half the fleet lost after running, and the latest of them silent
    for the abort window. *)
Definition lost_subset (leases : list WorkerLease) (now : Z) : bool :=
  let lost := lost_running leases in
  (Z.of_nat (length leases) <? 2 * Z.of_nat (length lost))
  && match lost with
     | [] => false
     | t :: ts => AUTO_ABORT_LOST <=? now - foldl Z.max t ts
     end.

Definition check_auto_abort (drivers : option driver_map) : eff unit :=
  w ← get;
  let run := w_run w in
  let leases := w_leases w in
  let total := length leases in
  if terminal (r_state run) || bool_decide (r_state run = Draining) then mret tt
  else if (total <? 1)%nat then mret tt
  else if negb (bool_decide (r_t0 run = None)) && lost_subset leases (w_now w) then
    _ ← transition_run Failed
          [("lost", jint (Z.of_nat (length (lost_running leases))));
           ("total", jint (Z.of_nat total))] "system" (Some "auto-abort-lost");
    destroy_fleet drivers "auto-abort-lost"
  else
    let auth_slots := auth_failed_slots (w_events w) in
    when (negb (bool_decide (auth_slots = ∅))
          && (Z.max 1 (Z.of_nat total / 2) <=? Z.of_nat (size auth_slots)))
      (_ ← transition_run Failed
             [("auth_failed_slots",
               JSlots (Z.to_nat <$> merge_sort Z.le (elements auth_slots)))]
             "system" (Some "auto-abort-auth");
       _ ← flag_target_unhealthy "HEC auth failed across the fleet";
       destroy_fleet drivers "auto-abort-auth").

(** Multiply the rate by the step factor; [false] when stepping cannot help. *)
Definition step_down_for_backpressure (ok fail : Z) (frac : Q) : eff bool :=
  w ← get;
  let snap := snap_of (w_run w) in
  let cfg := env_settings in
  match sn_rate_value snap with
  | Some current =>
      if bool_decide (rate_mode_of snap = "count_interval") || Qle_bool current 0
      then mret false
      else
        let original := default current (nonzero (sn_backpressure_original_rate snap)) in
        let floor := fmul original (backpressure_min_rate_fraction cfg) in
        let new_rate := fmul current (backpressure_step_factor cfg) in
        if negb (Qle_bool floor new_rate) then mret false
        else
          _ ← on_run (set_snapshot (snap_set_original original snap));
          _ ← rescale_run (Some new_rate) "supervisor";
          _ ← on_run (set_degraded true);
          _ ← append_event "backpressure_step_down"
                [("from_rate", JV (VFloat current)); ("to_rate", JV (VFloat new_rate));
                 ("original_rate", JV (VFloat original)); ("floor_rate", JV (VFloat floor));
                 ("rate_mode", jstr (rate_mode_of snap)); ("ok", jint ok);
                 ("failed", jint fail); ("failed_fraction", JV (VFloat frac));
                 ("sustained_s", JV (VFloat (seconds (backpressure_sustained cfg))))] "system";
          mret true
  | None => mret false
  end.

Definition check_backpressure : eff unit :=
  w ← get;
  let run := w_run w in
  let cfg := env_settings in
  if negb (backpressure_drain_enabled cfg) then mret tt
  else if negb (bool_decide (r_state run ∈ [Running; Releasing]))
          || bool_decide (r_t0 run = None) then mret tt
  else
    let live_slots := l_slot <$> List.filter is_live (w_leases w) in
    if bool_decide (live_slots = []) then mret tt
    else
      let '(ok, fail) := recent_delivery_deltas (w_samples w) live_slots in
      let attempts := ok + fail in
      let ratio := fdiv (inject_Z fail) (inject_Z attempts) in
      let failing := (0 <? attempts) && Qle_bool (backpressure_min_failed_fraction cfg) ratio in
      let frac := if attempts =? 0 then 0%Q else py_round 3 ratio in
      let detail := [("ok", jint ok); ("failed", jint fail);
                     ("failed_fraction", JV (VFloat frac))] in
      let since := open_backpressure_since (w_events w) in
      if negb failing then
        when (negb (bool_decide (since = None)))
          (append_event "backpressure_cleared" detail "system")
      else
        match since with
        | None => append_event "backpressure_detected" detail "system"
        | Some s =>
            when (backpressure_sustained cfg <=? w_now w - s)
              (stepped ← (if bool_decide (backpressure_action cfg = "step_down")
                          then step_down_for_backpressure ok fail frac else mret false);
               when (negb stepped)
                 (_ ← transition_run Draining
                        (("reason", jstr "target backpressure") :: detail
                         ++ [("sustained_s", JV (VFloat (seconds (backpressure_sustained cfg))))])
                        "system"
                        (Some "backpressure-drain");
                  flag_target_unhealthy "HEC delivery failing (backpressure)"))
        end.

Definition is_final (l : WorkerLease) : bool := in_state LDone l || in_state LLost l.

Definition reap_draining (drivers : option driver_map) : eff unit :=
  w ← get;
  if negb (bool_decide (r_state (w_run w) = Draining)) then mret tt
  else
    match last_state_ts (w_events w) Draining with
    | None => mret tt
    | Some since =>
        if w_now w - since <? STOP_GRACE then mret tt
        else
          _ ← destroy_fleet drivers "stop-grace";
          w' ← get;
          for_each (w_leases w') (fun lease =>
            when (negb (is_final lease))
              (_ ← on_lease (l_slot lease) (set_lstate LLost);
               append_event "lease_lost"
                 [("slot", jint (Z.of_nat (l_slot lease)));
                  ("reason", jstr "drain-grace-expired")] "system"))
    end.

Definition supervise_run (drivers : option driver_map) (boot_time : Z) : eff unit :=
  _ ← lapse_stale_leases boot_time;
  _ ← release_timeout drivers boot_time;
  _ ← check_duration;
  _ ← check_auto_abort drivers;
  _ ← check_backpressure;
  _ ← reap_draining drivers;
  _ ← maybe_complete_run;
  mret tt.

End Supervisor.
