(* ===== verification/Invariants.v ===== *)
(** * Invariants of a run and how it may evolve

    [Inv] is the well-formedness of a run and its leases; [evolves] is what no
    handler may undo (the state follows the edges of the run's state machine,
    T0 and the end instant are set once, the audit trail only grows).  This file
    proves both for the primitives and for each handler; [Trace.v] lifts them to
    every reachable state. *)

From S2P Require Import Prelude.
From S2P Require Import PyFloat.
From S2P Require Import PyValue.
From S2P Require Import Apportion.
From S2P Require Import Driver.
From S2P Require Import Model.
From S2P Require Import Shares.
From S2P Require Import Session.
From S2P Require Import Protocol.
From S2P Require Import Operators.
From S2P Require Import Supervisor.
From Stdlib Require Import QArith.
Open Scope Z_scope.

(** ** The state machine *)

(** The moves of a run's state, each with the end reason it is made with.  The
    documented machine (the module comment of lifecycle.py) is [edge_prepare] to
    [edge_resume], a drain, and the end of a draining run; the code also drains
    a run from any state when an operator asks (draining again included), and
    ends a released run whose workers are all gone without draining it. *)
Inductive edge : option string -> run_state -> run_state -> Prop :=
  | edge_prepare : edge None Pending Preparing
  | edge_provision : edge None Preparing Provisioning
  | edge_release s : s = Preparing \/ s = Provisioning -> edge None s Releasing
  | edge_start : edge None Releasing Running
  | edge_pause : edge None Running Paused
  | edge_resume : edge None Paused Running
  | edge_drain e s :
      e = "duration-complete" \/ e = "backpressure-drain" -> s = Running \/ s = Releasing ->
      edge (Some e) s Draining
  | edge_stop s : terminal s = false -> edge (Some "operator-stop") s Draining
  | edge_provision_failed : edge (Some "provision-failed") Preparing Failed
  | edge_provision_timeout : edge (Some "provision-timeout") Provisioning Failed
  | edge_strict_timeout s :
      s = Preparing \/ s = Provisioning -> edge (Some "strict-release-timeout") s Failed
  | edge_abort_lost s :
      s = Running \/ s = Releasing \/ s = Paused -> edge (Some "auto-abort-lost") s Failed
  | edge_abort_auth s :
      terminal s = false -> s <> Draining -> edge (Some "auto-abort-auth") s Failed
  | edge_end_released e n s :
      (e, n) = ("completed", Completed) \/ (e, n) = ("no-events", Failed) ->
      s = Running \/ s = Releasing \/ s = Paused -> edge (Some e) s n
  | edge_end_draining e n : n = Completed \/ n = Failed -> edge (Some e) Draining n
  | edge_stopped : edge (Some "operator-stop") Draining Stopped.

Lemma edge_terminal e s s' : edge e s s' -> terminal s = false.
Proof. intros []; repeat match goal with H : _ \/ _ |- _ => destruct H end; subst; done. Qed.

Definition step (s s' : run_state) : Prop := exists e, edge e s s'.

Lemma edges_terminal s s' : rtc step s s' -> terminal s = true -> s' = s.
Proof. intros [|? ? ? [e He%edge_terminal] _] Ht; [done|congruence]. Qed.

(** ** Run invariant *)

Record run_inv (r : Run) : Prop := mkRunInv {
  ri_released : r_state r = Releasing \/ r_state r = Running \/ r_state r = Paused ->
    is_Some (r_t0 r);
  ri_unreleased : r_state r = Pending \/ r_state r = Preparing \/ r_state r = Provisioning ->
    r_t0 r = None;
  ri_ended : terminal (r_state r) = true <-> is_Some (r_ended_at r);
  ri_reason : is_Some (r_end_reason r) -> r_state r = Draining \/ terminal (r_state r) = true;
  ri_paused : r_state r = Paused -> is_Some (r_paused_at r);
  ri_paused_at : is_Some (r_paused_at r) -> r_state r = Paused \/ terminal (r_state r) = true;
  ri_banked : 0 <= r_paused r;
}.

Record run_evolves (r r' : Run) : Prop := mkRunEvolves {
  re_state : rtc step (r_state r) (r_state r');
  re_t0 : forall t, r_t0 r = Some t -> r_t0 r' = Some t;
  re_ended : forall t, r_ended_at r = Some t -> r_ended_at r' = Some t;
  re_id : r_id r' = r_id r;
  re_created : r_created_at r' = r_created_at r;
}.

Global Instance run_evolves_preorder : PreOrder run_evolves.
Proof.
  split.
  - intros r. split; done.
  - intros r1 r2 r3 [] []. split; [by etrans|auto..|congruence|congruence].
Qed.

(** ** Lease invariant *)

Section Inv.
Context {D : Type} `{Env D}.
Abbreviation W := (world D).

Definition slots (w : W) : list nat := l_slot <$> w_leases w.
Definition ids (w : W) : list string := l_id <$> w_leases w.

(** Slots are [0 .. n-1] in order, lease ids are distinct and were all drawn
    from the token supply. *)
Record lease_wf (w : W) : Prop := mkLeaseWf {
  lw_slots : slots w = seq 0 (length (w_leases w));
  lw_ids : NoDup (ids w);
  lw_drawn : forall id, id ∈ ids w -> exists n, (n < w_tokens w)%nat /\ id = "le_" +:+ token_hex n;
}.

Record Inv (w : W) : Prop := mkInv { inv_run : run_inv (w_run w); inv_leases : lease_wf w }.

(** A lease id of the later state was there before, or was drawn since. *)
Definition ids_drawn (w w' : W) : Prop :=
  forall id, id ∈ ids w' ->
    id ∈ ids w \/ exists n, (w_tokens w <= n)%nat /\ id = "le_" +:+ token_hex n.

Lemma ids_drawn_same w w' : ids w' = ids w -> ids_drawn w w'.
Proof. intros E id Hid. left. by rewrite <- E. Qed.

Lemma ids_drawn_trans w1 w2 w3 :
  (w_tokens w1 <= w_tokens w2)%nat -> ids_drawn w1 w2 -> ids_drawn w2 w3 -> ids_drawn w1 w3.
Proof.
  intros Ht H1 H2 id Hid. destruct (H2 id Hid) as [Hid2|(n & Hn & ->)]; [by apply H1|].
  right. exists n. split; [lia|done].
Qed.

(** The states a run goes through, as its audit trail tells them: from [s], each
    [state] event records a move from the state reached so far, and [s'] is the
    last one reached. *)
Inductive walk : run_state -> list RunEvent -> run_state -> Prop :=
  | walk_nil s : walk s [] s
  | walk_other s ev evs s' : ev_kind ev <> "state" -> walk s evs s' -> walk s (ev :: evs) s'
  | walk_move ts a d e s1 s2 s3 evs :
      edge e s1 s2 -> walk s2 evs s3 ->
      walk s1 (mkEvent ts a "state" (state_payload s1 s2 e d) :: evs) s3.

Lemma walk_app s1 s2 s3 evs evs' : walk s1 evs s2 -> walk s2 evs' s3 -> walk s1 (evs ++ evs') s3.
Proof. induction 1; intros; cbn; [done|by constructor; auto|by constructor; auto]. Qed.

Definition logged (w w' : W) : Prop :=
  exists evs, w_events w' = w_events w ++ evs /\ walk (r_state (w_run w)) evs (r_state (w_run w')).

Lemma logged_same w w' :
  w_events w' = w_events w -> r_state (w_run w') = r_state (w_run w) -> logged w w'.
Proof. intros E1 E2. exists []. rewrite E1, E2, app_nil_r. split; [done|constructor]. Qed.

Global Instance logged_preorder : PreOrder logged.
Proof.
  split; [intros w; by apply logged_same|]. intros w1 w2 w3 (es & E1 & H1) (es' & E2 & H2).
  exists (es ++ es'). rewrite E2, E1, app_assoc. split; [done|by eapply walk_app].
Qed.

Lemma logged_prefix w w' : logged w w' -> w_events w `prefix_of` w_events w'.
Proof. intros (evs & -> & _). by apply prefix_app_r. Qed.

Record evolves (w w' : W) : Prop := mkEvolves {
  ev_run : run_evolves (w_run w) (w_run w');
  ev_log : logged w w';
  ev_clock : w_now w' = w_now w;
  ev_tokens : (w_tokens w <= w_tokens w')%nat;
  ev_ids : ids_drawn w w';
}.

Global Instance evolves_preorder : PreOrder evolves.
Proof.
  split.
  - intros w. split; [done|reflexivity|done|lia|by apply ids_drawn_same].
  - intros w1 w2 w3 [] []. split; [by etrans|by etrans|congruence|lia|by eapply ids_drawn_trans].
Qed.

(** The relation every handler respects. *)
Definition sound (w w' : W) : Prop := Inv w -> Inv w' /\ evolves w w'.

Global Instance sound_preorder : PreOrder sound.
Proof.
  split.
  - intros w Hi. split; [done|reflexivity].
  - intros w1 w2 w3 H1 H2 Hi. destruct (H1 Hi) as [Hi2 He2]. destruct (H2 Hi2) as [Hi3 He3].
    split; [done|by etrans].
Qed.

(** ** Leases: updates that keep slots and ids *)

Lemma lease_wf_ext w w' :
  slots w' = slots w -> ids w' = ids w -> (w_tokens w <= w_tokens w')%nat ->
  lease_wf w -> lease_wf w'.
Proof.
  intros Hs Hi Ht []. split.
  - rewrite Hs, lw_slots0. f_equal. apply (f_equal length) in Hs.
    unfold slots in Hs. by rewrite !length_fmap in Hs.
  - by rewrite Hi.
  - intros id Hid. rewrite Hi in Hid. destruct (lw_drawn0 _ Hid) as (n & ? & ?).
    exists n. split; [lia|done].
Qed.

Lemma fmap_upd_lease {A} (g : WorkerLease -> A) slot f ls :
  (forall l, l ∈ ls -> l_slot l = slot -> g (f l) = g l) -> g <$> upd_lease slot f ls = g <$> ls.
Proof.
  intros Hf. unfold upd_lease. rewrite <- list_fmap_compose. apply list_fmap_ext.
  intros i l Hl. cbn. case_bool_decide; [|done]. apply Hf; [|done].
  by eapply list_elem_of_lookup_2.
Qed.

(** A well-formed world keeps slot [i] at position [i]. *)
Lemma lease_index w i l : lease_wf w -> w_leases w !! i = Some l -> l_slot l = i.
Proof.
  intros [Hs _ _] Hl.
  assert (slots w !! i = Some (l_slot l)) as E
    by (unfold slots; by rewrite list_lookup_fmap, Hl).
  rewrite Hs in E. apply lookup_seq in E. lia.
Qed.

Lemma upd_lease_alter w slot f :
  lease_wf w -> upd_lease slot f (w_leases w) = alter f slot (w_leases w).
Proof.
  intros Hw. apply list_eq. intros i. unfold upd_lease. rewrite list_lookup_fmap.
  destruct (w_leases w !! i) as [l|] eqn:Hl; cbn.
  - pose proof (lease_index _ _ _ Hw Hl) as Hi. destruct (decide (slot = i)) as [->|Hne].
    + rewrite bool_decide_eq_true_2 by done. by rewrite list_lookup_alter_eq, Hl.
    + rewrite bool_decide_eq_false_2 by congruence. by rewrite list_lookup_alter_ne, Hl.
  - symmetry. apply lookup_ge_None. rewrite length_alter. by apply lookup_ge_None.
Qed.

Lemma lookup_slot_index w slot : lease_wf w -> lookup_slot slot (w_leases w) = w_leases w !! slot.
Proof.
  intros Hw. unfold lookup_slot. destruct (List.find _ _) as [l|] eqn:E.
  - apply List.find_some in E as [Hin Heq]. apply Nat.eqb_eq in Heq.
    apply list_elem_of_In, list_elem_of_lookup in Hin as [i Hi].
    rewrite (lease_index _ _ _ Hw Hi) in Heq. by subst.
  - destruct (w_leases w !! slot) as [l|] eqn:Hl; [|done].
    apply (List.find_none _ _) with (x := l) in E.
    + rewrite (lease_index _ _ _ Hw Hl), Nat.eqb_refl in E. done.
    + apply list_elem_of_In. by eapply list_elem_of_lookup_2.
Qed.

(** Lease objects of one slot are the same object. *)
Lemma lease_wf_unique w l1 l2 :
  lease_wf w -> l1 ∈ w_leases w -> l2 ∈ w_leases w -> l_slot l1 = l_slot l2 -> l1 = l2.
Proof.
  intros Hw H1 H2 Heq.
  apply list_elem_of_lookup in H1 as [i Hi], H2 as [j Hj].
  pose proof (lease_index _ _ _ Hw Hi). pose proof (lease_index _ _ _ Hw Hj).
  assert (i = j) by congruence. congruence.
Qed.

Lemma sound_leases (w : W) f :
  l_slot <$> f (w_leases w) = l_slot <$> w_leases w ->
  l_id <$> f (w_leases w) = l_id <$> w_leases w ->
  sound w (with_leases f w).
Proof.
  intros Hs Hi [Hr Hl]. split.
  - split; [done|]. eapply lease_wf_ext; [..|exact Hl]; done.
  - split; cbn; [reflexivity|by apply logged_same|done|lia|by apply ids_drawn_same].
Qed.

Lemma sound_on_lease slot f w :
  (forall l, l_slot (f l) = l_slot l) -> (forall l, l_id (f l) = l_id l) ->
  sound w (with_leases (upd_lease slot f) w).
Proof. intros Hs Hi. apply sound_leases; apply fmap_upd_lease; auto. Qed.

(** The slot is held under this lease id. *)
Definition owns (w : W) (slot : nat) (id : string) : Prop :=
  exists l, l ∈ w_leases w /\ l_slot l = slot /\ l_id l = id.

Lemma sound_save l w :
  owns w (l_slot l) (l_id l) -> sound w (with_leases (upd_lease (l_slot l) (fun _ => l)) w).
Proof.
  intros (l0 & Hin & Hs & Hid) Hi. revert Hi. intros [Hr Hl].
  assert (forall l', l' ∈ w_leases w -> l_slot l' = l_slot l -> l' = l0) as Hu.
  { intros l' Hl' Heq. apply (lease_wf_unique w); [done..|congruence]. }
  apply sound_leases; [..|done]; apply fmap_upd_lease; intros l' Hl' Heq.
  - done.
  - rewrite (Hu l') by done. done.
Qed.

Lemma owns_save w l slot id :
  (slot = l_slot l -> id = l_id l) ->
  owns w slot id -> owns (with_leases (upd_lease (l_slot l) (fun _ => l)) w) slot id.
Proof.
  intros Hid (l0 & Hin & Hs & Hid0).
  exists (if bool_decide (l_slot l0 = l_slot l) then l else l0). split.
  - cbn. unfold upd_lease. apply list_elem_of_fmap. exists l0. done.
  - case_bool_decide; [|done]. subst slot. split; [done|]. symmetry. by apply Hid.
Qed.

(** ** Events *)

Lemma sound_push_event kind d a w : kind <> "state" -> sound w (push_event kind d a w).
Proof.
  intros Hk [Hr Hl]. split.
  - split; [done|]. eapply lease_wf_ext; [..|exact Hl]; done.
  - split; cbn; [reflexivity| |done|lia|by apply ids_drawn_same].
    eexists. split; [reflexivity|]. by repeat constructor.
Qed.

(** ** Run-only updates *)

Lemma sound_run f (w : W) :
  (run_inv (w_run w) -> run_inv (f (w_run w)) /\ run_evolves (w_run w) (f (w_run w))) ->
  r_state (f (w_run w)) = r_state (w_run w) ->
  sound w (with_run f w).
Proof.
  intros Hf Hst [Hr Hl]. destruct (Hf Hr) as [Hr' He]. split.
  - split; [done|]. eapply lease_wf_ext; [..|exact Hl]; done.
  - split; cbn; [done|by apply logged_same|done|lia|by apply ids_drawn_same].
Qed.

(** Updates of fields no invariant reads. *)
Lemma sound_frame f (w : W) :
  (forall r, r_state (f r) = r_state r /\ r_t0 (f r) = r_t0 r /\ r_ended_at (f r) = r_ended_at r
     /\ r_end_reason (f r) = r_end_reason r /\ r_paused_at (f r) = r_paused_at r
     /\ r_paused (f r) = r_paused r /\ r_id (f r) = r_id r /\ r_created_at (f r) = r_created_at r) ->
  sound w (with_run f w).
Proof.
  intros Hf. apply sound_run; [|apply Hf]. intros [].
  destruct (Hf (w_run w)) as (E1 & E2 & E3 & E4 & E5 & E6 & E7 & E8).
  split; split; rewrite ?E1, ?E2, ?E3, ?E4, ?E5, ?E6; auto using rtc_refl.
Qed.

(** ** Transitions *)

(** The run after [transition_run]. *)
Definition run_after (new_state : run_state) (end_reason : option string) (now : Z) (r : Run)
    : Run :=
  let r := set_state new_state r in
  let r := match end_reason with Some _ => set_end_reason end_reason r | None => r end in
  if terminal new_state then set_ended_at (Some (default now (r_ended_at r))) r else r.

Lemma w_run_transition n d a e (w : W) :
  w_run (transition_world n d a e w) = run_after n e (w_now w) (w_run w).
Proof.
  unfold transition_world, run_after.
  assert (forall (c : bool) k p (w' : W), w_run (if c then push_event k p a w' else w') = w_run w')
    as ->.
  { intros [] ? ? ?; reflexivity. }
  cbn [w_run with_run]. destruct (w_run w) as [? ? ? ? ? s ? ? ? ? ? ? ended er ? ? ?].
  cbn [r_state r_end_reason r_ended_at].
  assert (forall (P : Prop) `{Decision P}, P -> bool_decide P = true) as Ht
    by (intros; by apply bool_decide_eq_true_2).
  assert (forall (P : Prop) `{Decision P}, ~ P -> bool_decide P = false) as Hf
    by (intros; by apply bool_decide_eq_false_2).
  destruct (decide (s = n)) as [->|Hs]; [rewrite (Ht (n = n)) by done|rewrite (Hf (s = n)) by done];
    cbn; (destruct e as [e|]; [destruct (decide (er = Some e)) as [->|He];
      [rewrite (Ht (Some e = Some e)) by done|rewrite (Hf (er = Some e)) by done]|]); cbn;
    destruct (terminal n), ended; cbn; done.
Qed.

Lemma transition_frame n d a e (w : W) (w' := transition_world n d a e w) :
  w_leases w' = w_leases w /\ w_now w' = w_now w /\ w_tokens w' = w_tokens w
  /\ w_samples w' = w_samples w /\ w_registry w' = w_registry w /\ w_targets w' = w_targets w
  /\ w_events w `prefix_of` w_events w'.
Proof.
  subst w'. unfold transition_world. destruct (_ || _); repeat split; cbn; try done.
  by apply prefix_app_r.
Qed.

Lemma transition_leases n d a e (w : W) : w_leases (transition_world n d a e w) = w_leases w.
Proof. apply transition_frame. Qed.

Lemma transition_now n d a e (w : W) : w_now (transition_world n d a e w) = w_now w.
Proof. apply transition_frame. Qed.

(** A transition to another state is logged. *)
Lemma transition_events n d a e (w : W) :
  r_state (w_run w) <> n ->
  w_events (transition_world n d a e w)
  = w_events w ++ [mkEvent (w_now w) a "state" (state_payload (r_state (w_run w)) n e d)].
Proof. intros Hn. unfold transition_world. by rewrite (bool_decide_eq_false_2 _ Hn). Qed.

Lemma transition_logged n d a e (w : W) :
  edge e (r_state (w_run w)) n -> logged w (transition_world n d a e w).
Proof.
  intros He. assert (r_state (w_run (transition_world n d a e w)) = n) as En.
  { rewrite w_run_transition. unfold run_after. by destruct e, (terminal n). }
  revert En. unfold transition_world. destruct (_ || _ || _) eqn:Ec; intros En.
  - eexists. split; [reflexivity|]. cbn in En |- *. rewrite En.
    apply walk_move; [done|constructor].
  - apply logged_same; [done|]. rewrite En.
    by apply orb_false_iff in Ec as [[->%negb_false_iff%bool_decide_eq_true_1 _]%orb_false_iff _].
Qed.

(** The conditions under which a transition of [r] is legal. *)
Record legal (r : Run) (n : run_state) (e : option string) : Prop := mkLegal {
  lg_live : terminal (r_state r) = false;
  lg_edge : edge e (r_state r) n;
  lg_released : n = Releasing \/ n = Running \/ n = Paused -> is_Some (r_t0 r);
  lg_unreleased : n = Pending \/ n = Preparing \/ n = Provisioning -> r_t0 r = None;
  lg_reason : is_Some e \/ is_Some (r_end_reason r) -> n = Draining \/ terminal n = true;
  lg_paused : n = Paused -> is_Some (r_paused_at r);
  lg_paused_at : is_Some (r_paused_at r) -> n = Paused \/ terminal n = true;
}.

Lemma run_after_ok n e now r :
  (terminal (r_state r) = true <-> is_Some (r_ended_at r)) -> 0 <= r_paused r ->
  legal r n e ->
  run_inv (run_after n e now r) /\ run_evolves r (run_after n e now r).
Proof.
  intros He Hp []. unfold run_after. destruct r as [? ? ? ? ? s ? ? ? ? ? ? ended er ? pa ?]; cbn in *.
  assert (ended = None) as -> by (destruct ended; [|done]; destruct He as [_ He]; rewrite He in *; eauto; done).
  destruct (terminal n) eqn:Et; destruct e; cbn; split; split; cbn; rewrite ?Et; eauto; try done;
    try (split; intros; by eauto); try (split; [done|intros [? ?]; done]);
    try (apply rtc_once; eexists; eassumption).
Qed.

Lemma sound_transition n d a e (w : W) :
  legal (w_run w) n e -> sound w (transition_world n d a e w).
Proof.
  intros Hl [Hr Hw]. destruct (transition_frame n d a e w) as (E1 & E2 & E3 & _ & _ & _ & E7).
  destruct (run_after_ok n e (w_now w) (w_run w)) as [H1 H2]; [apply Hr|apply Hr|done|].
  split.
  - split; [by rewrite w_run_transition|].
    eapply lease_wf_ext; [..|exact Hw]; unfold slots, ids; rewrite ?E1, ?E3; done.
  - split; rewrite ?w_run_transition, ?E2, ?E3; [done|by apply transition_logged, Hl|done|lia|].
    apply ids_drawn_same. unfold ids. by rewrite E1.
Qed.

(** [run.t0 = ...] followed by the transition, and other paired updates. *)
Lemma sound_run_transition f n d a e (w : W) :
  (run_inv (w_run w) ->
     legal (f (w_run w)) n e /\ run_evolves (w_run w) (f (w_run w))
     /\ r_ended_at (f (w_run w)) = r_ended_at (w_run w) /\ r_state (f (w_run w)) = r_state (w_run w)
     /\ 0 <= r_paused (f (w_run w))) ->
  sound w (transition_world n d a e (with_run f w)).
Proof.
  intros Hf [Hr Hw]. destruct (Hf Hr) as (Hl & He & E8 & E9 & Hb).
  destruct (transition_frame n d a e (with_run f w)) as (E1 & E2 & E3 & _ & _ & _ & E7).
  destruct (run_after_ok n e (w_now w) (f (w_run w))) as [H1 H2];
    [rewrite E8, E9; apply Hr|done|done|].
  split.
  - split; [rewrite w_run_transition; exact H1|].
    eapply lease_wf_ext; [..|exact Hw]; unfold slots, ids; rewrite ?E1, ?E3; done.
  - split; rewrite ?w_run_transition, ?E2, ?E3; cbn; [by etrans| |done|lia|].
    { etrans; [|apply transition_logged, Hl]. by apply logged_same. }
    apply ids_drawn_same. unfold ids. by rewrite E1.
Qed.
End Inv.
