(* ===== verification/Soundness.v ===== *)
(** * Every handler keeps the invariant and only moves the run forward

    For each handler [m] of the protocol, the operators and the supervisor:
    run in a state that satisfies [Inv], it ends (returning or raising) in a
    state that satisfies [Inv] and that the first one [evolves] to. *)

From S2P Require Import Prelude.
From S2P Require Import PyFloat.
From S2P Require Import PyValue.
From S2P Require Import Apportion.
From S2P Require Import Driver.
From S2P Require Import Model.
From S2P Require Import Shares.
From S2P Require Import Session.
From S2P Require Import Protocol.
From S2P Require Import Operators.
From S2P Require Import Supervisor.
From S2P Require Import Invariants.
From Stdlib Require Import QArith.
Open Scope Z_scope.

(** The primitive effects are [modify] and [gets]. *)
Ltac unfold_prims :=
  unfold driver_error, save, append_event, on_run, on_lease, transition_run, utcnow,
    get_run_leases, find_lease in *.

Section Soundness.
Context {D : Type} `{Env D}.
Abbreviation W := (world D).

Lemma sound_intro {A} (m : M W A) w : (Inv w -> transits sound m w) -> transits sound m w.
Proof. intros Hm Hi. exact (Hm Hi Hi). Qed.

(** ** Small steps *)

Lemma set_lstate_slot s l : l_slot (set_lstate s l) = l_slot l. Proof. done. Qed.
Lemma set_lstate_id s l : l_id (set_lstate s l) = l_id l. Proof. done. Qed.
Lemma set_share_slot s l : l_slot (set_share s l) = l_slot l. Proof. done. Qed.
Lemma set_share_id s l : l_id (set_share s l) = l_id l. Proof. done. Qed.
Lemma mark_retarget_slot s l : l_slot (mark_retarget s l) = l_slot l. Proof. done. Qed.
Lemma mark_retarget_id s l : l_id (mark_retarget s l) = l_id l. Proof. done. Qed.

Lemma store_work_frame rf p l (l' := store_assigned_work rf p l) :
  l_slot l' = l_slot l /\ l_id l' = l_id l /\ l_state l' = l_state l /\ l_holder l' = l_holder l
  /\ l_last_heartbeat_at l' = l_last_heartbeat_at l.
Proof.
  subst l'. unfold store_assigned_work. destruct (coerce_int _); [|done].
  destruct (_ && _); done.
Qed.

Lemma store_report_frame p l (l' := store_engine_report p l) :
  l_slot l' = l_slot l /\ l_id l' = l_id l /\ l_state l' = l_state l /\ l_holder l' = l_holder l
  /\ l_last_heartbeat_at l' = l_last_heartbeat_at l.
Proof.
  subst l'. unfold store_engine_report. destruct (str_in _ _); [|done].
  destruct (_ && _); done.
Qed.

Lemma recover_frame t0 l : l_slot (recover t0 l) = l_slot l /\ l_id (recover t0 l) = l_id l.
Proof. unfold recover. destruct (in_state _ _); done. Qed.

Lemma promote_ready_frame t0 l :
  l_slot (promote_ready t0 l) = l_slot l /\ l_id (promote_ready t0 l) = l_id l.
Proof. unfold promote_ready. destruct t0; [|done]. destruct (in_state _ _); done. Qed.

Lemma clear_retarget_frame l :
  l_slot (clear_retarget l) = l_slot l /\ l_id (clear_retarget l) = l_id l
  /\ l_state (clear_retarget l) = l_state l.
Proof. unfold clear_retarget. destruct (l_share l !! _); done. Qed.

Lemma sound_registry (f : registry D -> registry D) (w : W) : sound w (with_registry f w).
Proof.
  intros [Hr Hl]. split.
  - split; [done|]. eapply lease_wf_ext; [..|exact Hl]; done.
  - split; cbn; [reflexivity|by apply logged_same|done|lia|by apply ids_drawn_same].
Qed.

Lemma sound_samples f (w : W) : sound w (with_samples f w).
Proof.
  intros [Hr Hl]. split.
  - split; [done|]. eapply lease_wf_ext; [..|exact Hl]; done.
  - split; cbn; [reflexivity|by apply logged_same|done|lia|by apply ids_drawn_same].
Qed.

Lemma sound_targets f (w : W) : sound w (with_targets f w).
Proof.
  intros [Hr Hl]. split.
  - split; [done|]. eapply lease_wf_ext; [..|exact Hl]; done.
  - split; cbn; [reflexivity|by apply logged_same|done|lia|by apply ids_drawn_same].
Qed.

Lemma sound_call {A} oid (op : D -> D * result A) w : transits sound (call oid op) w.
Proof.
  unfold transits, call. destruct (reg_objects (w_registry w) !! oid) as [d|]; [|cbn; reflexivity].
  destruct (op d) as [d' r]. apply sound_registry.
Qed.

Hint Extern 1 (_ <> _ :> string) => discriminate : stoker.
Hint Resolve sound_call sound_push_event sound_registry sound_samples sound_targets : stoker.

Lemma sound_append_event k d a w : k <> "state" -> transits sound (append_event k d a) w.
Proof. apply sound_push_event. Qed.
Hint Resolve sound_append_event : stoker.

Lemma sound_driver_error op e w : transits sound (driver_error op e) w.
Proof. unfold driver_error. transits. Qed.
Hint Resolve sound_driver_error : stoker.

(** ** Seeding *)

Lemma token_fresh (w : W) : lease_wf w -> "le_" +:+ token_hex (w_tokens w) ∉ ids w.
Proof.
  intros Hl Hin. destruct (lw_drawn _ Hl _ Hin) as (n & Hn & Heq).
  apply (inj (String.append "le_")) in Heq. apply (inj token_hex) in Heq. lia.
Qed.

(** One more free lease at the end, under a fresh id. *)
Lemma sound_grow s (w : W) :
  sound w (with_leases (fun ls => ls ++ [free_lease (length (w_leases w)) s ("le_" +:+ token_hex (w_tokens w))])
             (with_tokens S w)).
Proof.
  intros [Hr Hl]. pose proof (token_fresh w Hl) as Hf. destruct Hl as [Hs Hn Hd]. split.
  - split; [done|]. split; unfold slots, ids in *; cbn; rewrite ?fmap_app; cbn.
    + rewrite Hs, length_app. cbn [length]. by rewrite Nat.add_1_r, seq_S.
    + apply NoDup_app. split; [done|]. split; [set_solver|apply NoDup_singleton].
    + intros id [Hid|Hid]%elem_of_app.
      * destruct (Hd _ Hid) as (n & ? & ?). exists n. split; [lia|done].
      * apply list_elem_of_singleton in Hid as ->. exists (w_tokens w). split; [lia|done].
  - split; cbn; [reflexivity|by apply logged_same|done|lia|]. unfold ids_drawn, ids. cbn. rewrite fmap_app.
    intros id [Hid|Hid]%elem_of_app; [by left|right]. exists (w_tokens w). split; [done|].
    by apply list_elem_of_singleton in Hid.
Qed.

Lemma sound_seed_from shares first (w : W) :
  first = length (w_leases w) -> transits sound (seed_from first shares) w.
Proof.
  revert first w. induction shares as [|sh shares IH]; intros first w ->; cbn [seed_from]; [transits|].
  refine (transitivity (sound_grow sh w) _).
  refine (IH (S (length (w_leases w))) _ _). cbn. rewrite length_app. cbn. lia.
Qed.

(** ** Completion *)

Lemma terminal_state_for_terminal r reason ls : terminal (terminal_state_for r reason ls) = true.
Proof. unfold terminal_state_for. repeat case_match; done. Qed.

Lemma completable_state s ls :
  completable s ls = true -> s = Running \/ s = Releasing \/ s = Paused \/ s = Draining.
Proof. destruct s; cbn; auto; done. Qed.

(** Only an operator stop ends [stopped], and that reason is only recorded by
    draining; a run that is not draining has no reason yet and a worker that is
    done. *)
Lemma terminal_state_edge r ls (reason := r_end_reason r) (term := terminal_state_for r reason ls) :
  run_inv r -> terminal (r_state r) = false -> completable (r_state r) ls = true ->
  edge (Some (or_reason reason (default_end_reason term ls r))) (r_state r) term.
Proof.
  intros Hi Ht Hc. pose proof (completable_state _ _ Hc) as Hs.
  destruct (decide (r_state r = Draining)) as [Ed|Hd].
  - rewrite Ed. subst term. unfold terminal_state_for.
    destruct (reason_in reason FAILED_REASONS); [apply edge_end_draining; auto|].
    destruct (reason_in reason STOPPED_REASONS) eqn:E; [|repeat case_match; apply edge_end_draining; auto].
    assert (reason = Some "operator-stop") as ->; [|apply edge_stopped].
    unfold reason_in in E. destruct reason as [x|]; [|done].
    by apply bool_decide_eq_true_1, list_elem_of_singleton in E as ->.
  - assert (reason = None) as En.
    { subst reason. destruct (r_end_reason r) eqn:E; [|done].
      destruct (ri_reason _ Hi) as [?|?]; [by rewrite E|done|congruence]. }
    assert (existsb (in_state LDone) ls = true) as Hdone.
    { destruct (r_state r); try done; cbn in Hc;
        repeat (apply andb_true_iff in Hc as [Hc ?]); done. }
    assert (some_lost_none_done ls = false) as Hl.
    { unfold some_lost_none_done. rewrite Hdone. by rewrite andb_false_r. }
    subst term. unfold terminal_state_for, default_end_reason. rewrite En. cbn [reason_in].
    rewrite Hl, Hdone. cbn [andb or_reason].
    destruct (delivered_events r =? 0); apply edge_end_released; auto; tauto.
Qed.

Lemma legal_end r n e :
  run_inv r -> terminal (r_state r) = false -> terminal n = true -> edge e (r_state r) n ->
  legal r n e.
Proof.
  intros Hi Hl Hn He. split; eauto.
  - intros [-> | [-> | ->]]; done.
  - intros [-> | [-> | ->]]; done.
  - intros ->; done.
Qed.

Lemma sound_maybe_complete_run w : transits sound (@maybe_complete_run D) w.
Proof.
  apply sound_intro. intros [Hi _]. unfold maybe_complete_run. unfold_prims. transits_step.
  destruct (terminal (r_state (w_run w))) eqn:Ht; [transits|].
  destruct (completable _ _) eqn:Hc; cbn [negb]; [|transits]. cbv zeta.
  set (no_events := bool_decide _).
  apply (transits_bind _); [transits|]. intros u w' Ew.
  assert (w_run w' = w_run w) as Er by (destruct no_events; cbn in Ew; injection Ew as <- _; done).
  apply (transits_modify _); [|transits]. apply sound_transition. rewrite Er.
  apply legal_end; auto using terminal_state_for_terminal, terminal_state_edge.
Qed.
Hint Resolve sound_maybe_complete_run : stoker.

(** ** Release *)

Lemma sound_retarget_all ls shares (w : W) : transits sound (retarget_all ls shares) w.
Proof.
  unfold retarget_all. unfold_prims. transits. by apply sound_on_lease.
Qed.
Hint Resolve sound_retarget_all : stoker.

Lemma sound_mark_lost ls (w : W) : transits sound (mark_lost ls) w.
Proof. unfold mark_lost. unfold_prims. transits. by apply sound_on_lease. Qed.
Hint Resolve sound_mark_lost : stoker.

Lemma sound_reapportion_ready ready (w : W) : transits sound (reapportion_ready ready) w.
Proof. unfold reapportion_ready. transits. Qed.
Hint Resolve sound_reapportion_ready : stoker.

(** Effects that leave the run row alone. *)
Definition same_run (w w' : W) : Prop := w_run w' = w_run w /\ w_now w' = w_now w.

Global Instance same_run_preorder : PreOrder same_run.
Proof. split; [done|]. intros w1 w2 w3 [] []. split; congruence. Qed.

Lemma same_run_mark_lost ls (w : W) : transits same_run (mark_lost ls) w.
Proof. unfold mark_lost. unfold_prims. transits. Qed.

Lemma same_run_reapportion_ready ready (w : W) : transits same_run (reapportion_ready ready) w.
Proof. unfold reapportion_ready, retarget_all. unfold_prims. transits. Qed.

Lemma legal_release r t0 now :
  run_inv r -> r_state r = Preparing \/ r_state r = Provisioning -> t0 = Some now ->
  legal (set_t0 t0 r) Releasing None.
Proof.
  intros Hi Hs ->. split; cbn.
  - destruct Hs as [-> | ->]; done.
  - by constructor.
  - eauto.
  - intros [|[|]]; done.
  - intros [[? ?]|Hr]; [done|]. destruct (ri_reason _ Hi Hr) as [E|E]; destruct Hs as [E'|E'];
      rewrite E' in E; done.
  - done.
  - intros Hp. destruct (ri_paused_at _ Hi Hp) as [E|E]; destruct Hs as [E'|E']; rewrite E' in E; done.
Qed.

Lemma set_t0_evolves r t : r_t0 r = None -> run_evolves r (set_t0 t r).
Proof. intros E. split; cbn; auto using rtc_refl. intros t'. rewrite E. done. Qed.

Lemma fail_legal r e : run_inv r -> edge (Some e) (r_state r) Failed -> legal r Failed (Some e).
Proof. intros Hi He. apply legal_end; [done|by eapply edge_terminal|done..]. Qed.

Lemma sound_evaluate_release force (w : W) : transits sound (evaluate_release force) w.
Proof.
  apply sound_intro. intros [Hi _]. unfold evaluate_release. unfold_prims. transits_step.
  destruct (bool_decide (r_t0 (w_run w) = None)) eqn:Ht0; cbn [negb]; [|transits].
  apply bool_decide_eq_true in Ht0.
  destruct (bool_decide (r_state (w_run w) ∈ _)) eqn:Hs; cbn [negb]; [|transits].
  apply bool_decide_eq_true in Hs.
  assert (r_state (w_run w) = Preparing \/ r_state (w_run w) = Provisioning) as Hs'.
  { assert (r_state (w_run w) = Preparing \/ r_state (w_run w) = Provisioning
            \/ r_state (w_run w) = Releasing) as [?|[?|E]] by set_solver; [auto..|].
    destruct (ri_released _ Hi) as [t Et]; [auto|congruence]. }
  assert (terminal (r_state (w_run w)) = false) as Hl by (destruct Hs' as [-> | ->]; done).
  cbv zeta. set (pending := List.filter is_pending _). set (ready := List.filter (in_state LReady) _).
  destruct (bool_decide (ready = [])); [transits|].
  destruct (negb (bool_decide (pending = [])) && negb force); [transits|].
  destruct (negb (bool_decide (pending = [])) && _).
  - apply (transits_bind _); [transits|]. intros [] w1 E1.
    pose proof (same_run_mark_lost pending w) as Hsr. unfold transits in Hsr. rewrite E1 in Hsr.
    destruct Hsr as [Er _]. cbn in Er.
    apply (transits_modify _); [|transits]. apply sound_transition. rewrite Er.
    apply fail_legal; [done|by constructor].
  - apply (transits_bind _).
    { transits. by apply sound_frame. }
    intros [] w1 E1.
    assert (exists b, w_run w1 = (if b : bool then set_degraded true (w_run w) else w_run w)) as [b Er].
    { destruct (negb (bool_decide (pending = []))); [exists true|exists false].
      - unfold when, mbind, M_bind in E1.
        pose proof (same_run_mark_lost pending w) as H1. unfold transits in H1.
        destruct (mark_lost pending w) as [w2 [?|?]]; [|done]. cbn in E1.
        pose proof (same_run_reapportion_ready ready (with_run (set_degraded true) w2)) as H2.
        unfold transits in H2.
        destruct (reapportion_ready ready _) as [w3 [?|?]]; [|done]. cbn in E1. simplify_eq.
        cbn in H1, H2 |- *. destruct H1 as [E _], H2 as [E' _]. injection E1 as <-. cbn. rewrite E'. cbn. by rewrite E.
      - cbn in E1. injection E1 as <-. done. }
    transits_step. apply (transits_modify2 _); [|transits].
    apply sound_run_transition. intros _. rewrite Er.
    assert (forall r, r = w_run w \/ r = set_degraded true (w_run w) ->
      legal (set_t0 (Some (w_now w1 + RELEASE_DELAY)) r) Releasing None
      /\ run_evolves r (set_t0 (Some (w_now w1 + RELEASE_DELAY)) r) /\ 0 <= r_paused r) as Hr.
    { intros r Hr. assert (run_inv r) as Hri.
      { destruct Hr as [-> | ->]; [done|]. destruct Hi. by split. }
      split; [|split].
      - apply (legal_release _ _ (w_now w1 + RELEASE_DELAY)); [done| |done].
        by destruct Hr as [-> | ->].
      - apply set_t0_evolves. by destruct Hr as [-> | ->].
      - apply Hri. }
    destruct (Hr (if b then set_degraded true (w_run w) else w_run w)) as (H1 & H2 & H3);
      [destruct b; auto|]. split; [done|]. split; [done|]. done.
Qed.
Hint Resolve sound_evaluate_release : stoker.

(** ** Claim *)

Lemma sound_reapportion_on_takeover slot (w : W) : transits sound (reapportion_on_takeover slot) w.
Proof.
  unfold reapportion_on_takeover. unfold_prims. transits.
  apply sound_on_lease; intros l; destruct (_ =? _)%nat; done.
Qed.
Hint Resolve sound_reapportion_on_takeover : stoker.

(** Re-issuing a slot under a fresh id. *)
Lemma sound_reissue l (w : W) :
  l_id l = "le_" +:+ token_hex (w_tokens w) -> is_Some (w_leases w !! l_slot l) ->
  sound w (with_leases (upd_lease (l_slot l) (fun _ => l)) (with_tokens S w)).
Proof.
  intros Hid [l0 Hl0] [Hr Hw]. pose proof (token_fresh w Hw) as Hf.
  set (w' := with_leases _ _).
  assert (w_leases w' = <[ l_slot l := l ]> (w_leases w)) as Els.
  { change (w_leases w') with (upd_lease (l_slot l) (fun _ => l) (w_leases w)).
    rewrite upd_lease_alter by done. apply list_eq. intros i.
    destruct (decide (l_slot l = i)) as [<-|Hne].
    - rewrite list_lookup_alter_eq, Hl0, list_lookup_insert_eq; [done|]. by eapply lookup_lt_Some.
    - by rewrite list_lookup_alter_ne, list_lookup_insert_ne. }
  assert (ids w' = <[ l_slot l := l_id l ]> (ids w)) as Eids
    by (unfold ids; by rewrite Els, list_fmap_insert).
  split; [split; [done|split]|].
  - unfold slots. rewrite Els, list_fmap_insert, length_insert. fold (slots w).
    rewrite list_insert_id; [apply Hw|]. unfold slots. rewrite list_lookup_fmap, Hl0. cbn.
    by rewrite (lease_index _ _ _ Hw Hl0).
  - rewrite Eids. apply NoDup_alt. intros i j x.
    destruct Hw as [_ Hn _]. rewrite NoDup_alt in Hn. rewrite <- Hid in Hf.
    rewrite !list_lookup_insert_Some. intros [(E1 & E2 & _)|(Hi & Ei)] [(E3 & E4 & _)|(Hj & Ej)];
      [congruence| | |by eapply Hn]; destruct Hf; subst; by eapply list_elem_of_lookup_2.
  - rewrite Eids. intros id Hin. apply list_elem_of_lookup in Hin as [i Hi].
    apply list_lookup_insert_Some in Hi as [(<- & <- & _)|(_ & Hi)].
    + exists (w_tokens w). split; [cbn; lia|done].
    + apply list_elem_of_lookup_2, (lw_drawn _ Hw) in Hi as (n & ? & ?).
      exists n. split; [cbn; lia|done].
  - split; cbn; [reflexivity|by apply logged_same|done|lia|]. intros id Hin. rewrite Eids in Hin.
    apply list_elem_of_lookup in Hin as [i Hi].
    apply list_lookup_insert_Some in Hi as [(_ & <- & _)|(_ & Hi)]; [right; eauto|left].
    by eapply list_elem_of_lookup_2.
Qed.

Lemma next_claimable_in ls hint l :
  next_claimable ls hint = Some l -> l ∈ ls /\ claimable (l_state l) = true.
Proof.
  intros E. pose proof (pick_slot_spec claimable ls hint) as Hp.
  fold next_claimable in Hp. rewrite E in Hp. tauto.
Qed.

Lemma in_leases_lookup (w : W) l : lease_wf w -> l ∈ w_leases w -> w_leases w !! l_slot l = Some l.
Proof.
  intros Hw Hin. apply list_elem_of_lookup in Hin as [i Hi].
  by rewrite (lease_index _ _ _ Hw Hi).
Qed.

Lemma sound_claim_lease holder hint (w : W) : transits sound (claim_lease holder hint) w.
Proof.
  apply sound_intro. intros [Hi Hw]. unfold claim_lease. unfold_prims. transits_step. cbv zeta.
  destruct (terminal _); [transits|].
  destruct (List.find _ _) as [lease|] eqn:Ef.
  - apply List.find_some in Ef as [Hin _]. apply list_elem_of_In in Hin.
    transits. apply sound_save. by exists lease.
  - destruct (next_claimable _ _) as [lease|] eqn:En; [|transits].
    apply next_claimable_in in En as [Hin _].
    apply (transits_modify2 _); [|transits]; cbn.
    apply (sound_reissue (issue _ _ _ _ _ _)); [done|]. cbn. eauto using in_leases_lookup.
Qed.

(** ** Ready *)

Lemma lookup_slot_owns (w : W) slot l :
  lookup_slot slot (w_leases w) = Some l -> l_slot l = slot /\ owns w (l_slot l) (l_id l).
Proof.
  intros E. apply List.find_some in E as [Hin Heq]. apply Nat.eqb_eq in Heq.
  split; [done|]. exists l. by apply list_elem_of_In in Hin.
Qed.

Lemma sound_mark_ready slot lid (w : W) : transits sound (mark_ready slot lid) w.
Proof.
  unfold mark_ready. unfold_prims. transits_step.
  destruct (lookup_slot _ _) as [l|] eqn:El; [|transits].
  apply lookup_slot_owns in El as [_ Ho].
  destruct (negb _); [transits|]. transits_step. cbv zeta.
  match goal with |- context [upd_lease (l_slot ?x) _] => set (l' := x) end.
  assert (l_slot l' = l_slot l /\ l_id l' = l_id l) as [Es Eid] by (subst l'; destruct (_ || _); done).
  transits. apply sound_save. by rewrite Es, Eid.
Qed.


(** ** Heartbeat *)

Lemma legal_start r : run_inv r -> r_state r = Releasing -> legal r Running None.
Proof.
  intros Hi Hs. split; rewrite ?Hs; auto.
  - constructor.
  - intros _. apply Hi. auto.
  - intros [|[|]]; done.
  - intros [[? ?]|Hr]; [done|]. destruct (ri_reason _ Hi Hr) as [E|E]; rewrite Hs in E; done.
  - done.
  - intros Hp. destruct (ri_paused_at _ Hi Hp) as [E|E]; rewrite Hs in E; done.
Qed.

Lemma sound_maybe_mark_running (w : W) : transits sound maybe_mark_running w.
Proof.
  apply sound_intro. intros [Hi _]. unfold maybe_mark_running. unfold_prims. transits.
  apply sound_transition, legal_start; [done|]. by eapply bool_decide_eq_true_1.
Qed.
Hint Resolve sound_maybe_mark_running : stoker.

Lemma sound_heartbeat_command lease pv now (w : W) :
  owns w (l_slot lease) (l_id lease) -> transits sound (heartbeat_command lease pv now) w.
Proof.
  intros Ho. unfold heartbeat_command. unfold_prims. transits_step. cbv zeta.
  destruct (_ || _); [transits|]. destruct (negb _); [transits|].
  destruct (recover_frame (r_t0 (w_run w)) lease) as [Es Eid].
  set (l1 := recover _ lease) in *.
  assert (owns w (l_slot l1) (l_id l1)) as Ho1 by (by rewrite Es, Eid).
  apply (transits_modify _); [by apply sound_save|].
  set (w1 := with_leases _ w).
  assert (forall l, l_slot l = l_slot l1 -> l_id l = l_id l1 ->
            sound w1 (with_leases (upd_lease (l_slot l) (fun _ => l)) w1)) as Hsave.
  { intros l E1 E2. apply sound_save. rewrite E1, E2. subst w1. by apply owns_save. }
  destruct (promote_ready_frame (r_t0 (w_run w)) l1) as [Ep1 Ep2].
  destruct (clear_retarget_frame l1) as (Ec1 & Ec2 & _).
  assert (forall b : bool, transits sound (when b
      (modify (with_leases (upd_lease (l_slot (set_lstate LRunning l1)) (fun _ => set_lstate LRunning l1)))
         ≫= (fun _ => modify (push_event "running" [("slot", jint (Z.of_nat (l_slot l1)))] "agent")
         ≫= (fun _ => maybe_mark_running)))) w1) as Hrun.
  { intros b. transits. }
  destruct (r_t0 (w_run w)) as [t0|] eqn:Et0; [destruct (l_state l1)|];
    try (apply (transits_bind _); [apply Hrun|intros ? ? _; transits]);
    (destruct (bool_decide _); [transits|]);
    (destruct (l_share l1 !! _); transits; apply Hsave; by repeat case_match).
Qed.

Lemma sound_record_heartbeat slot lid p (w : W) : transits sound (record_heartbeat slot lid p) w.
Proof.
  unfold record_heartbeat. unfold_prims. cbv zeta. transits_step.
  destruct (lookup_slot _ _) as [l|] eqn:El; [|transits].
  apply lookup_slot_owns in El as [_ Ho].
  destruct (negb _); [transits|]. transits_step.
  set (l1 := store_assigned_work _ _ _).
  destruct (store_work_frame repr_float (delete "_bearer" p) (set_heartbeat (w_now w) l))
    as (E1 & E2 & _). fold l1 in E1, E2.
  destruct (store_report_frame (delete "_bearer" p) l1) as (E3 & E4 & _).
  set (l2 := store_engine_report _ l1) in *.
  assert (owns w (l_slot l2) (l_id l2)) as Ho2 by (by rewrite E3, E4, E1, E2).
  apply (transits_modify _); [by apply sound_save|].
  apply (owns_save _ l2) in Ho2; [|done].
  transits_step; [transits|].
  match goal with |- transits _ _ ?w => set (w2 := w) end.
  assert (owns w2 (l_slot l2) (l_id l2)) as Ho3 by exact Ho2. clearbody w2. clear Ho2.
  apply (transits_bind _); [transits|]. intros [] w3 E5.
  assert (owns w3 (l_slot l2) (l_id l2)) as Ho4.
  { destruct (truthy _); cbn in E5; injection E5 as <-; exact Ho3. }
  apply (transits_bind _); [by apply sound_heartbeat_command|]. intros c w4 _. transits.
Qed.

(** ** Final *)

Lemma sound_fold_totals s (w : W) : transits sound (fold_totals s) w.
Proof. unfold fold_totals. unfold_prims. transits. by apply sound_frame. Qed.
Hint Resolve sound_fold_totals : stoker.

Lemma fold_totals_leases s (w w' : W) : (fold_totals s @ w ⇓ tt @ w')%eff -> w_leases w' = w_leases w.
Proof.
  unfold fold_totals, mbind, M_bind, lift. cbn. destruct (fold_summary _ _); [|done].
  cbn. by injection 1 as <-.
Qed.

Lemma sound_record_final slot s lt lid (w : W) : transits sound (record_final slot s lt lid) w.
Proof.
  unfold record_final. unfold_prims. transits_step.
  destruct (lookup_slot _ _) as [l|] eqn:El; [|transits].
  apply lookup_slot_owns in El as [_ Ho].
  destruct (match lid with Some _ => _ | None => _ end); [transits|]. cbv zeta.
  apply (transits_modify _); [by apply sound_save|].
  assert (owns (with_leases (upd_lease (l_slot (set_log_tail lt l)) (fun _ => set_log_tail lt l)) w)
            (l_slot l) (l_id l)) as Ho1 by (by apply owns_save).
  match goal with |- transits _ _ ?w => set (w1 := w) in * end. clearbody w1.
  apply (transits_bind _); [|intros ? ? _; transits]. apply (transits_when _). intros _.
  apply (transits_bind _); [transits|]. intros [] w2 E2.
  apply (transits_modify _); [|transits]. apply sound_save.
  unfold owns. rewrite (fold_totals_leases _ _ _ E2). exact Ho1.
Qed.
Hint Resolve sound_claim_lease sound_mark_ready sound_record_heartbeat sound_record_final : stoker.

(** ** Pause, resume, stop *)

Definition close_pause (now : Z) (r : Run) : Run :=
  match r_paused_at r with
  | Some p => set_paused None (r_paused r + Z.max 0 (now - p)) r
  | None => r
  end.

Lemma end_pause_eq (w : W) :
  end_pause w = (with_run (close_pause (w_now w)) w,
                 Ok (match r_paused_at (w_run w) with
                     | Some p => Z.max 0 (w_now w - p)
                     | None => 0
                     end)).
Proof.
  unfold end_pause, close_pause, with_run, on_run, modify, mbind, M_bind, get, mret, M_ret.
  destruct w as [? r]. cbn.
  destruct (r_paused_at r); reflexivity.
Qed.

Lemma close_pause_frame now r (r' := close_pause now r) :
  r_paused_at r' = None /\ r_state r' = r_state r /\ r_t0 r' = r_t0 r
  /\ r_end_reason r' = r_end_reason r /\ r_ended_at r' = r_ended_at r
  /\ r_paused r <= r_paused r'.
Proof.
  subst r'. unfold close_pause. destruct (r_paused_at r) eqn:E; cbn;
    repeat split; (done || lia).
Qed.

Lemma close_pause_evolves now r : run_evolves r (close_pause now r).
Proof. unfold close_pause. destruct (r_paused_at r); [|reflexivity]. by split. Qed.

Lemma legal_drain r e :
  edge (Some e) (r_state r) Draining -> r_paused_at r = None -> legal r Draining (Some e).
Proof.
  intros He Hp. split; auto.
  - by eapply edge_terminal.
  - intros [|[|]]; done.
  - intros [|[|]]; done.
  - done.
  - rewrite Hp. intros [? ?]. done.
Qed.

Lemma drain_legal_active r e :
  run_inv r -> r_state r = Running \/ r_state r = Releasing ->
  e = "duration-complete" \/ e = "backpressure-drain" -> legal r Draining (Some e).
Proof.
  intros Hi Hs He. apply legal_drain; [by constructor|].
  destruct (r_paused_at r) eqn:E; [|done].
  destruct (ri_paused_at _ Hi) as [E'|E']; [eauto|..]; destruct Hs as [Es|Es]; rewrite Es in E'; done.
Qed.

Lemma legal_resume now r : run_inv r -> r_state r = Paused -> legal (close_pause now r) Running None.
Proof.
  intros Hi Hs. destruct (close_pause_frame now r) as (E1 & E2 & E3 & E4 & E5 & E6).
  split; rewrite ?E1, ?E2, ?E3, ?E4, ?Hs; auto.
  - constructor.
  - intros _. apply Hi. auto.
  - intros [|[|]]; done.
  - intros [[? ?]|Hr]; [done|]. destruct (ri_reason _ Hi Hr) as [E|E]; rewrite Hs in E; done.
  - done.
  - intros [? ?]. done.
Qed.

Lemma legal_pause now r :
  run_inv r -> r_state r = Running -> legal (set_paused (Some now) (r_paused r) r) Paused None.
Proof.
  intros Hi Hs. split; cbn; rewrite ?Hs; auto.
  - constructor.
  - intros _. apply Hi. auto.
  - intros [|[|]]; done.
  - intros [[? ?]|Hr]; [done|]. destruct (ri_reason _ Hi Hr) as [E|E]; rewrite Hs in E; done.
Qed.

Lemma sound_extend_driver_deadline drv p (w : W) : transits sound (extend_driver_deadline drv p) w.
Proof. unfold extend_driver_deadline. transits. Qed.
Hint Resolve sound_extend_driver_deadline : stoker.

Lemma sound_pause_run drv a (w : W) : transits sound (pause_run drv a) w.
Proof.
  unfold pause_run. unfold_prims. transits_step.
  destruct (bool_decide _) eqn:Hs; cbn [negb]; [|transits]. apply bool_decide_eq_true in Hs.
  apply (transits_modify2 _); [|transits].
  apply sound_run_transition. intros Hi. split; [by apply legal_pause|].
  split; [by split|]. split; [done|]. split; [done|]. apply Hi.
Qed.

Lemma sound_resume_run drv a (w : W) : transits sound (resume_run drv a) w.
Proof.
  unfold resume_run. unfold_prims. transits_step.
  destruct (bool_decide _) eqn:Hs; cbn [negb]; [|transits]. apply bool_decide_eq_true in Hs.
  unfold transits. unfold mbind at 1, M_bind at 1. rewrite end_pause_eq. cbv iota.
  match goal with |- sound w (fst ((get ≫= ?k) ?w1)) => change (sound w (fst (k w1 w1))) end.
  cbv beta. set (k := fun _ : unit => extend_driver_deadline _ _).
  match goal with |- sound w (fst ((modify ?g ≫= k) ?w1)) => change (sound w (fst (k tt (g w1)))) end.
  etrans; [|apply sound_extend_driver_deadline].
  apply sound_run_transition. intros Hi.
  destruct (close_pause_frame (w_now w) (w_run w)) as (E1 & E2 & E3 & E4 & E5 & E6).
  split; [by apply legal_resume|]. split; [apply close_pause_evolves|].
  split; [done|]. split; [done|]. etrans; [apply Hi|done].
Qed.

Lemma sound_fold_heartbeat_totals (w : W) : transits sound fold_heartbeat_totals w.
Proof. unfold fold_heartbeat_totals. unfold_prims. transits. by apply sound_frame. Qed.
Hint Resolve sound_fold_heartbeat_totals : stoker.

Lemma sound_fmap_leases f (w : W) :
  (forall l, l_slot (f l) = l_slot l) -> (forall l, l_id (f l) = l_id l) ->
  sound w (with_leases (fmap f) w).
Proof.
  intros Hs Hi. apply sound_leases; rewrite <- list_fmap_compose; apply list_fmap_ext; intros ? ? _; cbn; auto.
Qed.

Lemma sound_stop_run drv force a (w : W) : transits sound (stop_run drv force a) w.
Proof.
  unfold stop_run. unfold_prims. transits_step.
  destruct (terminal _) eqn:Ht; [transits|].
  destruct (close_pause_frame (w_now w) (w_run w)) as (E1 & E2 & E3 & E4 & E5 & E6).
  eapply (transits_then_modify _); [apply end_pause_eq|..].
  - apply sound_run_transition. intros Hi. split; [apply legal_drain; [constructor|]; congruence|].
    split; [apply close_pause_evolves|]. split; [done|]. split; [done|]. etrans; [apply Hi|done].
  - transits. by apply sound_fmap_leases.
Qed.

(** ** Scale and rescale *)

Lemma assign_share_frame shares l :
  l_slot (assign_share shares l) = l_slot l /\ l_id (assign_share shares l) = l_id l
  /\ l_state (assign_share shares l) = l_state l.
Proof. unfold assign_share. destruct (shares !! _); [|done]. by destruct (live _). Qed.

Lemma sound_apply_shares shares (w : W) : transits sound (apply_shares shares) w.
Proof. unfold apply_shares. transits. apply sound_fmap_leases; apply assign_share_frame. Qed.
Hint Resolve sound_apply_shares : stoker.

Lemma filter_below n ls s :
  l_slot <$> ls = seq s (length ls) ->
  List.filter (fun l => Z.of_nat (l_slot l) <? n) ls = take (Z.to_nat n - s) ls.
Proof.
  revert s. induction ls as [|l ls IH]; intros s Hs; cbn in *; [by rewrite take_nil|].
  injection Hs as Hl Hs. rewrite (IH _ Hs), Hl.
  destruct (Z.ltb_spec (Z.of_nat s) n).
  - replace (Z.to_nat n - s)%nat with (S (Z.to_nat n - S s))%nat by lia. done.
  - replace (Z.to_nat n - s)%nat with 0%nat by lia.
    by replace (Z.to_nat n - S s)%nat with 0%nat by lia.
Qed.

Lemma sound_shrink n (w : W) :
  sound w (with_leases (List.filter (fun l => Z.of_nat (l_slot l) <? n)) w).
Proof.
  intros [Hr Hw]. set (w' := with_leases _ w).
  assert (w_leases w' = take (Z.to_nat n) (w_leases w)) as E.
  { subst w'. cbn. rewrite (filter_below n _ 0) by apply Hw. by rewrite Nat.sub_0_r. }
  destruct Hw as [Hs Hn Hd]. split; [split; [done|split]|].
  - unfold slots in *. rewrite E, fmap_take, Hs, length_take. apply take_seq.
  - unfold ids in *. rewrite E, fmap_take. by eapply sublist_NoDup, sublist_take.
  - unfold ids in *. rewrite E, fmap_take. intros id Hid. apply Hd.
    eapply elem_of_submseteq; [exact Hid|]. apply sublist_submseteq, sublist_take.
  - split; cbn; [reflexivity|by apply logged_same|done|lia|]. intros id Hid. left. unfold ids in *.
    rewrite E, fmap_take in Hid. eapply elem_of_submseteq; [exact Hid|].
    apply sublist_submseteq, sublist_take.
Qed.

Lemma sound_resize_leases n (w : W) : transits sound (resize_leases n) w.
Proof.
  unfold resize_leases. transits; [by apply sound_seed_from|apply sound_shrink].
Qed.
Hint Resolve sound_resize_leases : stoker.

Lemma sound_scale_run drv n a (w : W) : transits sound (scale_run drv n a) w.
Proof. unfold scale_run. unfold_prims. transits. by apply sound_frame. Qed.

Lemma sound_rescale_run q a (w : W) : transits sound (rescale_run q a) w.
Proof. unfold rescale_run. unfold_prims. transits. by apply sound_frame. Qed.
Hint Resolve sound_pause_run sound_resume_run sound_stop_run sound_scale_run sound_rescale_run : stoker.

(** ** Supervisor *)

Lemma sound_get_driver name row (w : W) : transits sound (get_driver name row) w.
Proof. unfold get_driver. transits. Qed.
Hint Resolve sound_get_driver : stoker.

Lemma sound_get_run_driver ds (w : W) : transits sound (get_run_driver ds) w.
Proof. unfold get_run_driver, resolve_fleet_driver. transits. Qed.
Hint Resolve sound_get_run_driver : stoker.

Lemma sound_destroy_fleet ds why (w : W) : transits sound (destroy_fleet ds why) w.
Proof. unfold destroy_fleet. transits. Qed.
Hint Resolve sound_destroy_fleet : stoker.

Lemma sound_flag_target_unhealthy d (w : W) : transits sound (flag_target_unhealthy d) w.
Proof. unfold flag_target_unhealthy. transits. Qed.
Hint Resolve sound_flag_target_unhealthy : stoker.

Lemma sound_lapse_stale_leases boot (w : W) : transits sound (lapse_stale_leases boot) w.
Proof. unfold lapse_stale_leases. unfold_prims. transits. by apply sound_on_lease. Qed.
Hint Resolve sound_lapse_stale_leases : stoker.

Lemma sound_fail d a e (w : W) :
  edge (Some e) (r_state (w_run w)) Failed -> sound w (transition_world Failed d a (Some e) w).
Proof. intros Ht Hi. apply sound_transition; [|done]. apply fail_legal; [apply Hi|done]. Qed.

Lemma sound_release_timeout ds boot (w : W) : transits sound (release_timeout ds boot) w.
Proof.
  unfold release_timeout. unfold_prims. transits_step. apply (transits_when _). intros Hg.
  apply andb_true_iff in Hg as [[Hg _]%andb_true_iff _]. apply bool_decide_eq_true in Hg.
  transits. apply sound_fail. rewrite Hg. constructor.
Qed.
Hint Resolve sound_release_timeout : stoker.

Lemma sound_drain d a e (w : W) :
  r_state (w_run w) = Running \/ r_state (w_run w) = Releasing ->
  e = "duration-complete" \/ e = "backpressure-drain" ->
  sound w (transition_world Draining d a (Some e) w).
Proof. intros Hs He Hi. apply sound_transition; [|done]. apply drain_legal_active; [apply Hi|done..]. Qed.

Lemma sound_check_duration (w : W) : transits sound check_duration w.
Proof. unfold check_duration. unfold_prims. transits; apply sound_drain; auto. Qed.
Hint Resolve sound_check_duration : stoker.

Lemma sound_check_auto_abort ds (w : W) : transits sound (check_auto_abort ds) w.
Proof.
  apply sound_intro. intros [Hi _]. unfold check_auto_abort. unfold_prims. transits_step. cbv zeta.
  destruct (terminal _) eqn:Ht; cbn [orb]; [transits|].
  destruct (bool_decide (_ = Draining)) eqn:Hd; [transits|]. apply bool_decide_eq_false_1 in Hd.
  destruct (_ <? 1)%nat; [transits|].
  destruct (negb (bool_decide (r_t0 _ = None)) && _) eqn:Hl.
  - apply andb_true_iff in Hl as [Hn%negb_true_iff%bool_decide_eq_false_1 _]. transits. apply sound_fail.
    apply edge_abort_lost. pose proof (ri_unreleased _ Hi) as Hu. destruct (r_state (w_run w)); auto; try done; destruct Hn; auto.
  - transits. apply sound_fail. by apply edge_abort_auth.
Qed.
Hint Resolve sound_check_auto_abort : stoker.

(** Effects that keep the run's state and everything the drain conditions read. *)
Definition same_state (w w' : W) : Prop := r_state (w_run w') = r_state (w_run w).

Global Instance same_state_preorder : PreOrder same_state.
Proof. split; [done|]. intros w1 w2 w3 E1 E2. unfold same_state in *. congruence. Qed.

Lemma same_state_rescale q a (w : W) : transits same_state (rescale_run q a) w.
Proof. unfold rescale_run, apply_shares. unfold_prims. transits. Qed.

Lemma sound_step_down ok fail frac (w : W) : transits sound (step_down_for_backpressure ok fail frac) w.
Proof. unfold step_down_for_backpressure. unfold_prims. transits; by apply sound_frame. Qed.
Hint Resolve sound_step_down : stoker.

Lemma same_state_step_down ok fail frac (w : W) :
  transits same_state (step_down_for_backpressure ok fail frac) w.
Proof.
  pose proof same_state_rescale as Hre. unfold step_down_for_backpressure. unfold_prims. transits.
Qed.

Lemma sound_check_backpressure (w : W) : transits sound check_backpressure w.
Proof.
  unfold check_backpressure. unfold_prims. transits_step. cbv zeta.
  destruct (negb (backpressure_drain_enabled _)); [transits|].
  destruct (bool_decide (r_state (w_run w) ∈ [Running; Releasing])) eqn:Hs; cbn [negb orb];
    [|transits].
  apply bool_decide_eq_true in Hs.
  assert (r_state (w_run w) = Running \/ r_state (w_run w) = Releasing) as Hs' by set_solver.
  destruct (bool_decide (r_t0 (w_run w) = None)); [transits|].
  destruct (bool_decide _); [transits|]. destruct (recent_delivery_deltas _ _) as [ok fail].
  destruct (negb _); [transits|]. destruct (open_backpressure_since _); [|transits].
  apply (transits_when _). intros _. apply (transits_bind _); [transits|].
  intros stepped w1 E1.
  assert (same_state w w1) as Hst.
  { destruct (bool_decide _); [|by injection E1 as <-].
    match type of E1 with step_down_for_backpressure ?a ?b ?c _ = _ =>
      pose proof (same_state_step_down a b c w) as Hst end.
    unfold transits in Hst. rewrite E1 in Hst. exact Hst. }
  transits. apply sound_drain; [by rewrite Hst|auto].
Qed.
Hint Resolve sound_check_backpressure : stoker.

Lemma sound_reap_draining ds (w : W) : transits sound (reap_draining ds) w.
Proof. unfold reap_draining. unfold_prims. transits. by apply sound_on_lease. Qed.
Hint Resolve sound_reap_draining : stoker.

Lemma sound_supervise_run ds boot (w : W) : transits sound (supervise_run ds boot) w.
Proof. unfold supervise_run. transits. Qed.

End Soundness.

#[export] Hint Resolve sound_claim_lease sound_mark_ready sound_record_heartbeat
  sound_record_final sound_stop_run sound_pause_run sound_resume_run sound_scale_run
  sound_rescale_run sound_supervise_run sound_maybe_complete_run sound_evaluate_release : stoker.
