(* ===== verification/Updates.v ===== *)
(** * Loops over leases, in closed form

    A Python loop that updates one lease per iteration is one pass over the
    lease list when the updated slots are distinct. *)

From S2P Require Import Prelude.
From S2P Require Import PyFloat.
From S2P Require Import PyValue.
From S2P Require Import Apportion.
From S2P Require Import Driver.
From S2P Require Import Model.
From S2P Require Import Shares.
From S2P Require Import Session.
From S2P Require Import Protocol.
From S2P Require Import Operators.
From S2P Require Import Supervisor.
From S2P Require Import Invariants.
From S2P Require Import Soundness.
From Stdlib Require Import QArith.
Open Scope Z_scope.

Section Entry.
Context {X : Type} (slot : X -> nat).

Definition entry (xs : list X) (s : nat) : option X := List.find (fun x => Nat.eqb (slot x) s) xs.

Lemma entry_none xs s : s ∉ (slot <$> xs) -> entry xs s = None.
Proof.
  unfold entry. induction xs as [|x xs IH]; intros Hs; cbn; [done|].
  destruct (Nat.eqb_spec (slot x) s) as [<-|Hne]; [set_solver|]. apply IH. set_solver.
Qed.

Lemma entry_in xs x : NoDup (slot <$> xs) -> x ∈ xs -> entry xs (slot x) = Some x.
Proof.
  unfold entry. induction xs as [|y xs IH]; intros Hnd Hin; [set_solver|].
  cbn in *. apply NoDup_cons in Hnd as [Hy Hnd].
  destruct (Nat.eqb_spec (slot y) (slot x)) as [E|Hne].
  - apply elem_of_cons in Hin as [->|Hin]; [done|]. destruct Hy. rewrite E.
    apply list_elem_of_fmap. eauto.
  - apply elem_of_cons in Hin as [->|Hin]; [done|]. by apply IH.
Qed.

End Entry.

Section Pass.
Context {X : Type} (slot : X -> nat) (f : X -> WorkerLease -> WorkerLease).

(** What the loop over [xs] does to one lease. *)
Definition updated (xs : list X) (l : WorkerLease) : WorkerLease :=
  match entry slot xs (l_slot l) with Some x => f x l | None => l end.

Lemma foldl_upd_lease xs ls :
  (forall x l, l_slot (f x l) = l_slot l) -> NoDup (slot <$> xs) ->
  foldl (fun ls x => upd_lease (slot x) (f x) ls) ls xs = updated xs <$> ls.
Proof.
  intros Hf. revert ls. induction xs as [|x xs IH]; intros ls Hnd; cbn.
  - symmetry. apply list_fmap_id.
  - cbn in Hnd. apply NoDup_cons in Hnd as [Hx Hnd]. rewrite IH by done.
    unfold upd_lease. rewrite <- list_fmap_compose. apply list_fmap_ext. intros _ l _.
    unfold updated. cbn. case_bool_decide as Hs.
    + rewrite Hf, Hs, Nat.eqb_refl. by rewrite (entry_none slot xs (slot x)).
    + destruct (Nat.eqb_spec (slot x) (l_slot l)); [congruence|done].
Qed.

Lemma for_each_on_lease {D} `{Env D} xs (w : world D) :
  for_each xs (fun x => on_lease (slot x) (f x)) w
  = (with_leases (fun ls => foldl (fun ls x => upd_lease (slot x) (f x) ls) ls xs) w, Ok tt).
Proof.
  revert w. induction xs as [|x xs IH]; intros w; cbn [for_each foldl].
  - unfold mret, M_ret, with_leases. by destruct w.
  - unfold on_lease. run. rewrite IH. done.
Qed.
End Pass.

(** ** Every lease selected by a predicate *)

Section Select.
Context {X : Type}.

Lemma filter_slots_nodup (P : WorkerLease -> bool) ls :
  NoDup (l_slot <$> ls) -> NoDup (l_slot <$> List.filter P ls).
Proof.
  induction ls as [|l ls IH]; intros Hnd; cbn in *; [done|].
  apply NoDup_cons in Hnd as [Hl Hnd]. destruct (P l); cbn; [|by apply IH].
  apply NoDup_cons. split; [|by apply IH]. intros Hin. apply Hl.
  apply list_elem_of_fmap in Hin as (l' & E & Hin). apply list_elem_of_fmap. exists l'.
  split; [done|]. apply list_elem_of_In in Hin. apply filter_In in Hin as [Hin _].
  by apply list_elem_of_In.
Qed.

(** [for l in [l for l in leases if P l]: l.update()] *)
Lemma updated_filter (P : WorkerLease -> bool) (f : WorkerLease -> WorkerLease) ls l :
  NoDup (l_slot <$> ls) -> l ∈ ls ->
  updated l_slot (fun _ => f) (List.filter P ls) l = if P l then f l else l.
Proof.
  intros Hnd Hin. unfold updated. destruct (P l) eqn:E.
  - assert (l ∈ List.filter P ls) as Hl
      by (apply list_elem_of_In, filter_In; by apply list_elem_of_In in Hin).
    rewrite (entry_in l_slot _ l (filter_slots_nodup P ls Hnd) Hl). done.
  - assert (entry l_slot (List.filter P ls) (l_slot l) = None) as ->; [|done].
    apply entry_none. intros Hs. apply list_elem_of_fmap in Hs as (l' & Es & Hl').
    apply list_elem_of_In, filter_In in Hl' as [Hl' Hp]. apply list_elem_of_In in Hl'.
    assert (l' = l) as ->; [|congruence].
    apply list_elem_of_lookup in Hin as [i Hi], Hl' as [j Hj].
    assert (i = j) as ->; [|congruence].
    rewrite NoDup_alt in Hnd. apply (Hnd i j (l_slot l)); rewrite list_lookup_fmap.
    + by rewrite Hi.
    + rewrite Hj. cbn. by rewrite Es.
Qed.

(** [for l, x in zip([l for l in leases if P l], xs): f x l]: the leases that
    satisfy [P] afterwards are the updated ones, in order, and the others are
    untouched. *)
Lemma updated_zip (P : WorkerLease -> bool) (f : X -> WorkerLease -> WorkerLease) ls xs :
  (forall x l, l_slot (f x l) = l_slot l) -> (forall x l, P (f x l) = P l) ->
  NoDup (l_slot <$> ls) -> length xs = length (List.filter P ls) ->
  let upd := updated (fun lx => l_slot lx.1) (fun lx => f lx.2) (zip (List.filter P ls) xs) in
  List.filter P (upd <$> ls) = zip_with (fun l x => f x l) (List.filter P ls) xs
  /\ (forall l, l ∈ ls -> P l = false -> upd l = l).
Proof.
  intros Hf HP. revert xs. induction ls as [|l ls IH]; intros xs Hnd Hlen; cbn in *.
  { destruct xs; [|done]. split; [done|set_solver]. }
  apply NoDup_cons in Hnd as [Hl Hnd].
  assert (forall l', l' ∈ ls -> l_slot l' <> l_slot l) as Hne.
  { intros l' Hl' E. apply Hl. rewrite <- E. apply list_elem_of_fmap. eauto. }
  destruct (P l) eqn:EP; cbn in *.
  - destruct xs as [|x xs]; [done|]. cbn in *. injection Hlen as Hlen.
    destruct (IH xs Hnd Hlen) as [IH1 IH2].
    assert (forall l', l' ∈ ls ->
      updated (fun lx => l_slot lx.1) (fun lx => f lx.2) ((l, x) :: zip (List.filter P ls) xs) l'
      = updated (fun lx => l_slot lx.1) (fun lx => f lx.2) (zip (List.filter P ls) xs) l') as Hskip.
    { intros l' Hl'. unfold updated, entry. cbn.
      destruct (Nat.eqb_spec (l_slot l) (l_slot l')) as [E|_]; [|done].
      by destruct (Hne l' Hl'). }
    assert (updated (fun lx => l_slot lx.1) (fun lx => f lx.2) ((l, x) :: zip (List.filter P ls) xs) l
            = f x l) as Hhead by (unfold updated, entry; cbn; by rewrite Nat.eqb_refl).
    split.
    + rewrite Hhead, HP, EP. f_equal. rewrite <- IH1. f_equal. apply list_fmap_ext.
      intros i l' Hl'. apply Hskip. by eapply list_elem_of_lookup_2.
    + intros l' [->|Hl']%elem_of_cons Hp; [congruence|]. rewrite Hskip by done. by apply IH2.
  - destruct (IH xs Hnd Hlen) as [IH1 IH2].
    assert (updated (fun lx => l_slot lx.1) (fun lx => f lx.2) (zip (List.filter P ls) xs) l = l)
      as Hhead.
    { unfold updated.
      assert (entry (fun lx => l_slot lx.1) (zip (List.filter P ls) xs) (l_slot l) = None) as ->;
        [|done].
      apply entry_none. intros Hin.
      apply list_elem_of_fmap in Hin as ([l' x] & E & Hin). cbn in E.
      apply elem_of_zip_l, list_elem_of_In, filter_In in Hin as [Hin _].
      apply list_elem_of_In in Hin. by destruct (Hne l' Hin). }
    split.
    + rewrite Hhead, EP. done.
    + intros l' [->|Hl']%elem_of_cons Hp; [done|]. by apply IH2.
Qed.
End Select.

Lemma lease_wf_nodup {D} `{Env D} (w : world D) : lease_wf w -> NoDup (l_slot <$> w_leases w).
Proof. intros [Hs _ _]. unfold slots in Hs. rewrite Hs. apply NoDup_seq. Qed.

(** [for l in leases: if P l: l.state = LOST; append_event(...)] *)
Lemma lose_each_loop {D} `{Env D} (P : WorkerLease -> bool) k
    (d : WorkerLease -> list (string * jval)) a ls (w : world D) :
  for_each ls (fun l =>
    when (P l) (_ ← on_lease (l_slot l) (set_lstate LLost); append_event k (d l) a)) w
  = (with_events (fun es => es ++ ((fun l => mkEvent (w_now w) a k (d l)) <$> List.filter P ls))
       (with_leases (fun x => foldl (fun x l => upd_lease (l_slot l) (set_lstate LLost) x) x
                                (List.filter P ls)) w), Ok tt).
Proof.
  revert w. induction ls as [|l ls IH]; intros w; cbn [for_each List.filter].
  - unfold mret, M_ret, with_events, with_leases. cbn. rewrite app_nil_r. by destruct w.
  - destruct (P l); cbn [when]; unfold on_lease, append_event; run; rewrite IH; [|done].
    unfold with_events, with_leases. cbn. by rewrite <- app_assoc.
Qed.

Lemma lose_each {D} `{Env D} (P : WorkerLease -> bool) k (d : WorkerLease -> list (string * jval)) a
    (w : world D) :
  lease_wf w ->
  for_each (w_leases w) (fun l =>
    when (P l) (_ ← on_lease (l_slot l) (set_lstate LLost); append_event k (d l) a)) w
  = (with_events (fun es => es ++ ((fun l => mkEvent (w_now w) a k (d l))
                                     <$> List.filter P (w_leases w)))
       (with_leases (fmap (fun l => if P l then set_lstate LLost l else l)) w), Ok tt).
Proof.
  intros Hw. pose proof (lease_wf_nodup w Hw) as Hnd. rewrite lose_each_loop.
  unfold with_events, with_leases. cbn.
  rewrite (foldl_upd_lease l_slot (fun _ => set_lstate LLost)); [|done|by apply filter_slots_nodup].
  do 2 f_equal. apply list_fmap_ext. intros i l Hl. apply updated_filter; [done|].
  by eapply list_elem_of_lookup_2.
Qed.
