(* ===== verification/Launch.v ===== *)
(** * Launching a run: what provisioning establishes *)

From S2P Require Import Prelude.
From S2P Require Import PyFloat.
From S2P Require Import PyValue.
From S2P Require Import Apportion.
From S2P Require Import Driver.
From S2P Require Import Model.
From S2P Require Import Shares.
From S2P Require Import Session.
From S2P Require Import Protocol.
From S2P Require Import Operators.
From S2P Require Import Provision.
From S2P Require Import Scenario.
From S2P Require Import Supervisor.
From S2P Require Import Invariants.
From S2P Require Import Soundness.
From Stdlib Require Import QArith Qabs Qround Lqa.
Open Scope Z_scope.

(** ** Seeding, in closed form *)

Section Seeded.
Context {D : Type} `{Env D}.
Abbreviation W := (world D).

(** The leases [seed_from] creates when [tokens] tokens were drawn before. *)
Fixpoint seeded (first tokens : nat) (shares : list pydict) : list WorkerLease :=
  match shares with
  | [] => []
  | s :: shares =>
      free_lease first s ("le_" +:+ token_hex tokens) :: seeded (S first) (S tokens) shares
  end.

Lemma seed_from_eq shares : forall first (w : W),
  seed_from first shares w
  = (with_leases (fun ls => ls ++ seeded first (w_tokens w) shares)
       (with_tokens (Nat.add (length shares)) w), Ok tt).
Proof.
  induction shares as [|s shares IH]; intros first w.
  - cbn. unfold with_leases, with_tokens. cbn. rewrite app_nil_r. by destruct w.
  - cbn [seed_from]. unfold new_lease_id, mbind, M_bind, get, modify, mret, M_ret.
    rewrite IH. unfold with_leases, with_tokens. cbn. do 2 f_equal; [|lia].
    rewrite <- app_assoc. done.
Qed.

Lemma seeded_share first tokens shares : l_share <$> seeded first tokens shares = shares.
Proof. revert first tokens. induction shares; intros; cbn; [done|]. by f_equal. Qed.

Lemma seeded_length first tokens shares : length (seeded first tokens shares) = length shares.
Proof. rewrite <- (seeded_share first tokens shares) at 2. by rewrite length_fmap. Qed.

Lemma seeded_free first tokens shares : Forall (fun l => l_state l = LFree) (seeded first tokens shares).
Proof. revert first tokens. induction shares; intros; cbn; constructor; auto. Qed.

Lemma seeded_slots first tokens shares : l_slot <$> seeded first tokens shares = seq first (length shares).
Proof. revert first tokens. induction shares; intros; cbn; [done|]. by f_equal. Qed.

(** ** Provisioning *)

Lemma run_inv_new id spec target snap b kid by_ now :
  run_inv (new_run id spec target snap b kid by_ now).
Proof.
  split; cbn; try done; try (intros [|[|]]; done); try (intros [? ?]; done).
Qed.

Lemma legal_provisioning r :
  run_inv r -> r_state r = Preparing -> legal r Provisioning None.
Proof.
  intros Hi Hs. split; rewrite ?Hs; auto.
  - constructor.
  - intros [|[|]]; done.
  - intros _. apply Hi. auto.
  - intros [[? ?]|Hr]; [done|]. destruct (ri_reason _ Hi Hr) as [E|E]; rewrite Hs in E; done.
  - done.
  - intros Hp. destruct (ri_paused_at _ Hi Hp) as [E|E]; rewrite Hs in E; done.
Qed.

(** Everything before the driver is asked. *)
Lemma run_provision (w : W) run_id spec target bundle driver overrides by_ backfill
    mode rv dur block shares
    (workers := effective_workers (Some (sp_engine spec)) (sp_workers spec)) :
  w_leases w = [] ->
  effective_rate spec backfill (w_now w) = Ok (mode, rv, dur, block) ->
  build_share_list mode rv workers = Ok shares ->
  exists w1 snap,
    provision_run run_id spec target bundle driver overrides by_ backfill w
      = launch driver snap workers w1
    /\ Inv w1 /\ r_state (w_run w1) = Preparing
    /\ w_leases w1 = seeded 0 (S (w_tokens w)) shares.
Proof.
  intros Hl Hr Es. unfold provision_run, utcnow, on_run, append_event, transition_run, seed_leases.
  fold workers. run. rewrite Hr. run. rewrite Es. run.
  erewrite run_bind by apply seed_from_eq. run.
  match goal with |- context [launch _ ?s _ ?w1] => exists w1, s end.
  split; [done|].
  match goal with |- context [transition_world Preparing ?d ?a ?e ?w] =>
    pose proof (transition_frame Preparing d a e w) as (E1 & _ & E3 & _);
    pose proof (w_run_transition Preparing d a e w) as Erun;
    pose proof (sound_transition Preparing d a e w) as Hs3;
    set (w2 := w) in *; set (w3 := transition_world Preparing d a e w2) in * end.
  assert (Inv w2) as Hi2.
  { split; [apply run_inv_new|]. split; unfold slots, ids; cbn; rewrite ?Hl; cbn;
      [done|constructor|intros ?; set_solver]. }
  destruct Hs3 as [Hi3 _]; [|done|].
  { split; cbn; try done; try (intros [|[|]]; done);
      try (intros [[? ?]|[? ?]]; done); try (intros [? ?]; done).
    constructor. }
  assert (w_leases w3 = []) as El3 by (rewrite E1; exact Hl).
  split; [|split].
  - pose proof (sound_seed_from shares 0 w3) as Hsd. rewrite El3 in Hsd. specialize (Hsd eq_refl).
    unfold transits in Hsd. rewrite seed_from_eq in Hsd. apply Hsd, Hi3.
  - change (r_state (w_run w3) = Preparing). by rewrite Erun.
  - cbn. rewrite El3, E3. done.
Qed.

Lemma launch_eq driver snap workers (w : W) :
  launch driver snap workers w
  = match reg_objects (w_registry w) !! driver with
    | None => (transition_world Failed [("error", jstr "no such driver")] "system"
                 (Some "provision-failed") w, Raise (DriverError "no such driver"))
    | Some d =>
        let '(d', r) := drv_create d snap workers in
        let w1 := with_registry (set_objects (<[ driver := d' ]>)) w in
        match r with
        | Ok ref =>
            (transition_world Provisioning
               [("driver", jstr (ref_kind ref)); ("driver_id", jstr (ref_id ref))] "system" None
               (with_run (set_driver_ref ref) w1), Ok tt)
        | Raise e =>
            (transition_world Failed [("error", jstr (str_exn e))] "system"
               (Some "provision-failed") w1, Raise e)
        end
    end.
Proof.
  unfold launch, transition_run, on_run, mbind, M_bind, catch, call.
  destruct (reg_objects (w_registry w) !! driver) as [d|]; [|done].
  by destruct (drv_create d snap workers) as [d' [?|?]].
Qed.

Lemma launch_ok driver snap workers (w : W) :
  r_state (w_run w) = Preparing -> Inv w ->
  let '(w', r) := launch driver snap workers w in
  Inv w' /\ w_leases w' = w_leases w
  /\ match r with
     | Ok _ => r_state (w_run w') = Provisioning /\ is_Some (r_driver_ref (w_run w'))
     | Raise _ => r_state (w_run w') = Failed /\ r_end_reason (w_run w') = Some "provision-failed"
     end.
Proof.
  intros Hs Hi. rewrite launch_eq.
  assert (forall e (w1 : W), w_run w1 = w_run w -> w_leases w1 = w_leases w -> Inv w1 ->
    let w' := transition_world Failed e "system" (Some "provision-failed") w1 in
    Inv w' /\ w_leases w' = w_leases w /\ r_state (w_run w') = Failed
    /\ r_end_reason (w_run w') = Some "provision-failed") as Hfail.
  { intros e w1 Er El Hi1 w'. rewrite <- El. split; [|split; [apply transition_frame|]].
    - apply sound_fail; [rewrite Er, Hs; constructor|done].
    - subst w'. rewrite w_run_transition. done. }
  destruct (_ !! driver) as [d|]; [|by apply Hfail].
  destruct (drv_create d snap workers) as [d' [ref|e]]; cbv zeta.
  - set (w1 := with_registry _ w). assert (Inv w1) as Hi1 by (by apply sound_registry).
    set (w2 := with_run _ w1).
    assert (Inv w2) as Hi2 by (apply (sound_frame (set_driver_ref ref) w1); [|done]; done).
    split; [|split].
    + apply sound_transition; [|done]. apply legal_provisioning; [apply Hi2|done].
    + apply (transition_frame Provisioning _ _ _ w2).
    + rewrite w_run_transition. cbn. eauto.
  - apply Hfail; [done..|]. by apply sound_registry.
Qed.

(** from an empty session, launching a spec with a positive gated rate
    leaves a well-formed run.  When the driver accepts, the run is
    [provisioning] with no T0, one free lease per effective worker, shares that
    sum to the rate and the driver's handle stored; when the driver raises, the
    run is [failed] with reason [provision-failed] and the exception goes on. *)
Theorem provision_run_establishes (w w' : W) r run_id spec target bundle driver overrides by_
    backfill mode v dur block (workers := effective_workers (Some (sp_engine spec)) (sp_workers spec)) :
  provision_run run_id spec target bundle driver overrides by_ backfill w = (w', r) ->
  w_leases w = [] ->
  effective_rate spec backfill (w_now w) = Ok (mode, Some v, dur, block) ->
  gated mode -> (0 < v)%Q -> 8 * workers <= 2 ^ 53 ->
  Inv w'
  /\ Z.of_nat (length (w_leases w')) = workers
  /\ Forall (fun l => l_state l = LFree) (w_leases w')
  /\ (Qabs (fleet_rate mode (w_leases w') - v) <= 4 * eps * v)%Q
  /\ match r with
     | Ok _ => r_state (w_run w') = Provisioning /\ is_Some (r_driver_ref (w_run w'))
     | Raise _ => r_state (w_run w') = Failed /\ r_end_reason (w_run w') = Some "provision-failed"
     end.
Proof.
  intros E Hl Hr Hm Hv Hw. assert (1 <= workers) as H1.
  { subst workers. unfold effective_workers. case_bool_decide; lia. }
  destruct (build_share_list_ok mode v workers Hm Hv H1 Hw) as (shares & Es & Hlen & _ & Hsum).
  destruct (run_provision w run_id spec target bundle driver overrides by_ backfill
              mode (Some v) dur block shares Hl Hr Es) as (w1 & snap & E1 & Hi & Est & Els).
  pose proof (launch_ok driver snap workers w1 Est Hi) as Hok.
  fold workers in E1. rewrite <- E1, E in Hok.
  destruct Hok as (Hi' & -> & Hr'). rewrite Els, seeded_length.
  split; [done|]. split; [lia|]. split; [apply seeded_free|].
  split; [unfold fleet_rate; by rewrite seeded_share|done].
Qed.
End Seeded.

Lemma provision_run_establishes_witness :
  let p := provision_run 42 (demo_spec 3) demo_target "sha" 0 [] (Some "alice") None blank in
  Inv (fst p)
  /\ Z.of_nat (length (w_leases (fst p)))
     = effective_workers (Some (sp_engine (demo_spec 3))) (sp_workers (demo_spec 3))
  /\ Forall (fun l => l_state l = LFree) (w_leases (fst p))
  /\ (Qabs (fleet_rate "eps" (w_leases (fst p)) - 100) <= 4 * eps * 100)%Q
  /\ match snd p with
     | Ok _ => r_state (w_run (fst p)) = Provisioning /\ is_Some (r_driver_ref (w_run (fst p)))
     | Raise _ =>
         r_state (w_run (fst p)) = Failed /\ r_end_reason (w_run (fst p)) = Some "provision-failed"
     end.
Proof.
  intros p.
  apply (provision_run_establishes blank (fst p) (snd p) 42 (demo_spec 3) demo_target "sha" 0 []
           (Some "alice") None "eps" 100%Q (Some 600%Q) None).
  - apply surjective_pairing.
  - reflexivity.
  - reflexivity.
  - by left.
  - reflexivity.
  - vm_compute. discriminate.
Defined.

(** The launched demo run satisfies the invariant. *)
Lemma demo_run_inv : Inv demo_run.
Proof.
  unfold demo_run.
  destruct (build_share_list_ok "eps" 100%Q 3) as (shares & Es & _);
    [by left|reflexivity|lia|vm_compute; discriminate|].
  destruct (run_provision blank 42 (demo_spec 3) demo_target "sha" 0 [] (Some "alice") None
    "eps" (Some 100%Q) (Some 600%Q) None shares) as (w1 & snap & E1 & Hi & Est & _);
    [reflexivity|reflexivity|exact Es|].
  rewrite E1. pose proof (launch_ok 0 snap (effective_workers (Some "eventgen") 3) w1 Est Hi) as Hok.
  change (sp_engine (demo_spec 3)) with "eventgen". change (sp_workers (demo_spec 3)) with 3.
  destruct (launch _ _ _ _). apply Hok.
Qed.
