(* ===== verification/Admission.v ===== *)
(** * What a launch leaves behind (server/routes/api.py: run_spec)

    The gates of [Gate] composed with the provisioning of [Provision]: one
    request to launch a spec, from the tables to the run it leaves. *)

From S2P Require Import Prelude.
From S2P Require Import PyFloat.
From S2P Require Import PyValue.
From S2P Require Import Apportion.
From S2P Require Import MetricEngine.
From S2P Require Import ConfRewrite.
From S2P Require Import Packs.
From S2P Require Import Merge.
From S2P Require Import Driver.
From S2P Require Import Model.
From S2P Require Import Shares.
From S2P Require Import Session.
From S2P Require Import Protocol.
From S2P Require Import Operators.
From S2P Require Import Provision.
From S2P Require Import Ceilings.
From S2P Require Import Gate.
From S2P Require Import Scenario.
From S2P Require Import Supervisor.
From S2P Require Import Invariants.
From S2P Require Import Soundness.
From S2P Require Import Launch.
From Stdlib Require Import QArith Qabs Qround Lqa.
Open Scope Z_scope.

Section Admission.
Context {D : Type} `{Env D} (private_host compiles : string -> bool)
  (ceiling_env : option ceiling_settings) (inprocess_max_workers : Z).
Abbreviation W := (world D).

(** A share of a run in mode [mode] is within the bounds [c]. *)
Definition share_within (c : ceilings) (mode : string) (size : option Q) (share : pydict) : Prop :=
  within (implied_eps mode (share_value mode share) size) (c_eps c) /\
  within (implied_gb_day mode (share_value mode share) size) (c_gb_day c).

Abbreviation passed := (passed repr_float private_host compiles ceiling_env (backfill_cap_eps env_settings)).

Lemma passed_workers t fleets spec_id body ad row target pack extras size :
  passed t fleets spec_id body ad row target pack extras size ->
  effective_workers (Some (sp_engine (sr_spec row))) (sp_workers (sr_spec row)) = Z.max 1 (sp_workers (sr_spec row)).
Proof.
  intros P. unfold effective_workers. cbn [default from_option id].
  case_bool_decide as E; [|done]. destruct P as [_ _ _ _ _ _ _ _ Hr _ _ _ _ _].
  rewrite Hr; [done|]. unfold is_replay_run. change RAWREPLAY_ENGINE with "rawreplay". rewrite E.
  by rewrite bool_decide_true.
Qed.

(** The largest share passed the check, so all of them are within the bounds. *)
Lemma checked_shares_within mode v n size engine c pw check shares :
  gated mode -> (0 < v)%Q -> 8 * Z.max 1 n <= 2 ^ 53 ->
  per_worker_share mode (Some v) n = Ok pw -> check_slice mode pw size engine (Some c) = Ok check ->
  ck_ok check = true -> build_share_list mode (Some v) (Z.max 1 n) = Ok shares ->
  Forall (share_within c mode size) shares.
Proof.
  intros Hm Hv Hw Ep Ec Hok Es.
  destruct (build_share_list_ok mode v (Z.max 1 n) Hm Hv ltac:(lia) Hw) as (shares' & Es' & Hlen & Hpos & _).
  rewrite Es in Es'. injection Es' as <-.
  assert (gated_mode mode) as Hgm by (destruct Hm as [-> | ->]; [by left|by right]).
  assert (pw = Some (qmaximum (share_value mode <$> shares))) as ->.
  { unfold per_worker_share in Ep. rewrite bool_decide_false in Ep by (destruct Hm as [-> | ->]; done).
    rewrite Qle_bool_pos, Es in Ep by done. cbn [mbind result_bind] in Ep.
    destruct Hm as [E | E]; rewrite E in Ep |- *; cbn in Ep; by injection Ep as <-. }
  set (top := qmaximum _) in *.
  assert (forall s, s ∈ shares -> (share_value mode s <= top)%Q /\ (0 < share_value mode s)%Q) as Hall.
  { intros s Hin. split.
    - apply qmaximum_ge. by apply list_elem_of_fmap_2.
    - rewrite Forall_forall in Hpos. destruct (Hpos s Hin) as (q & -> & Hq).
      by rewrite share_value_share. }
  assert (0 < top)%Q as Htop.
  { destruct shares as [|s shares]; [cbn in Hlen; lia|].
    destruct (Hall s ltac:(left)) as [? ?]. lra. }
  destruct (check_slice_gated mode top size engine c Hgm Htop) as (r & Er & Hiff & _).
  rewrite Ec in Er. injection Er as <-. apply Hiff in Hok.
  apply Forall_forall. intros s Hin. by apply (within_smaller mode _ top), Hok; apply Hall.
Qed.

Lemma passed_shares t fleets spec_id body ad row target pack extras size c v shares
    (mode := sp_rate_mode (sr_spec row)) :
  passed t fleets spec_id body ad row target pack extras size ->
  gated mode -> sp_rate_value (sr_spec row) = Some v -> (0 < v)%Q ->
  8 * Z.max 1 (sp_workers (sr_spec row)) <= 2 ^ 53 ->
  gate_ceilings ceiling_env t fleets (sr_spec row) = Some c ->
  build_share_list mode (Some v) (Z.max 1 (sp_workers (sr_spec row))) = Ok shares ->
  Forall (share_within c mode size) shares.
Proof.
  intros P Hm Hr Hv Hw Hc Es. destruct P as [_ _ _ _ _ _ _ _ _ (pw & check & Ep & Ec & Hok) _ _ _ _].
  fold mode in Ep, Ec. rewrite Hr in Ep. rewrite Hc in Ec.
  by eapply checked_shares_within.
Qed.

(** Resolving a driver changes nothing but the process's drivers. *)
Lemma resolve_frame name (w : W) : exists reg, fst (resolve_fleet_driver name w) = with_registry (fun _ => reg) w.
Proof.
  assert (forall row, exists reg, fst (get_driver name row w) = with_registry (fun _ => reg) w) as Hg.
  { intros row. unfold get_driver, mbind, M_bind, get, lift, modify, mret, M_ret. cbn.
    destruct (reg_cache (w_registry w) !! name); [exists (w_registry w); by destruct w|].
    destruct (build_driver row); [by eexists|]. exists (w_registry w). by destruct w. }
  unfold resolve_fleet_driver, mbind, M_bind, get. cbn.
  destruct (reg_fleets (w_registry w) !! name) as [row|]; [apply Hg|].
  destruct (Hg (mkFleet name "")) as [reg E]. unfold catch.
  destruct (get_driver name (mkFleet name "") w) as [w1 [oid|e]]; cbn in *; [by exists reg|].
  exists reg. destruct e; done.
Qed.

Lemma rollback_id (w : W) : w = rollback w w.
Proof. by destruct w. Qed.

Lemma rollback_twice (w w1 : W) : rollback w (rollback w w1) = rollback w w1.
Proof. done. Qed.

(** What a run that was launched for the spec [row] looks like: its state and
    leases, and the limits its gates held it to. *)
Record launched (t : tables) (w w' : W) (row : SpecRow) (v : Q) : Prop := {
  la_inv : Inv w';
  la_state : r_state (w_run w') = Provisioning;
  la_leases : Z.of_nat (length (w_leases w')) = Z.max 1 (sp_workers (sr_spec row));
  la_free : Forall (fun l => l_state l = LFree) (w_leases w');
  la_rate : (Qabs (fleet_rate (sp_rate_mode (sr_spec row)) (w_leases w') - v) <= 4 * eps * v)%Q;
  la_limits : exists target pack extras size,
    tb_targets t !! sr_target_id row = Some target /\ tb_packs t !! sr_pack_id row = Some pack /\
    load_extras (tb_packs t) (sr_extra_ids row) = Ok (inr extras) /\
    merge_gate repr_float private_host compiles (sr_spec row) pack extras = Ok (inr size) /\
    tr_health target <> HEALTH_RED /\
    (forall c, gate_ceilings ceiling_env t (reg_fleets (w_registry w)) (sr_spec row) = Some c ->
       Forall (fun l => share_within c (sp_rate_mode (sr_spec row)) size (l_share l)) (w_leases w')) /\
    (forall cap gb, tr_cap target = Some cap -> (0 < cap)%Q -> run_gb_day (sr_spec row) size = Some gb ->
       let active := active_gb_day_for_target t (tg_id (tr_target target)) in
       (active + gb <= cap + eps * Qabs (cap - active))%Q);
}.

Lemma passed_cap t fleets spec_id body ad row target pack extras size cap gb :
  passed t fleets spec_id body ad row target pack extras size ->
  tr_cap target = Some cap -> (0 < cap)%Q -> run_gb_day (sr_spec row) size = Some gb ->
  let active := active_gb_day_for_target t (tg_id (tr_target target)) in
  (active + gb <= cap + eps * Qabs (cap - active))%Q.
Proof.
  intros P Ec Hc Eg. pose proof (ps_headroom _ _ _ _ _ _ _ _ _ _ _ _ _ _ _ P) as Hh.
  destruct (target_headroom_gb_day t target (sr_spec row) size) as [h|] eqn:Eh.
  - destruct (headroom_fits _ _ _ _ _ Eh (Hh h eq_refl)) as (cap' & gb' & Ec' & Eg' & Hle).
    rewrite Ec in Ec'. rewrite Eg in Eg'. by injection Ec' as <-; injection Eg' as <-.
  - unfold target_headroom_gb_day in Eh. rewrite Ec, Qle_bool_pos, Eg in Eh by done. done.
Qed.

(** The gates passed, the driver was resolved and the bundle built: what
    provisioning leaves. *)
Lemma admitted_provisions t run_id spec_id body actor digest driver (w w1 : W) ad row target pack extras size v :
  passed t (reg_fleets (w_registry w)) spec_id body ad row target pack extras size ->
  ad_backfill ad = None -> w_leases w1 = [] ->
  gated (sp_rate_mode (sr_spec row)) -> sp_rate_value (sr_spec row) = Some v -> (0 < v)%Q ->
  8 * Z.max 1 (sp_workers (sr_spec row)) <= 2 ^ 53 ->
  let '(w', r) := provision_run run_id (ad_spec ad) (ad_target ad) digest driver (lb_overrides body) (Some actor)
                    (ad_backfill ad) w1 in
  match r with
  | Ok _ => launched t w w' row v
  | Raise _ => Inv w' /\ r_state (w_run w') = Failed /\ r_end_reason (w_run w') = Some "provision-failed"
  end.
Proof.
  intros P Eb Hl Hm Hr Hv Hw. rewrite Eb, (ps_spec _ _ _ _ _ _ _ _ _ _ _ _ _ _ _ P).
  pose proof (passed_workers _ _ _ _ _ _ _ _ _ _ P) as Ew.
  destruct (build_share_list_ok (sp_rate_mode (sr_spec row)) v (Z.max 1 (sp_workers (sr_spec row))) Hm Hv
              ltac:(lia) Hw) as (shares & Es & Hlen & _ & Hsum).
  pose proof Es as Es'. rewrite <- Ew in Es'.
  destruct (run_provision w1 run_id (sr_spec row) (ad_target ad) digest driver (lb_overrides body) (Some actor) None
              (sp_rate_mode (sr_spec row)) (Some v) (inject_Z <$> sp_duration_s (sr_spec row)) None shares Hl)
    as (w2 & snap & E1 & Hi & Est & Els); [unfold effective_rate; by rewrite Hr|done|].
  rewrite E1. pose proof (launch_ok driver snap (effective_workers (Some (sp_engine (sr_spec row)))
    (sp_workers (sr_spec row))) w2 Est Hi) as Hok.
  destruct (launch _ _ _ w2) as [w' [u|e]]; destruct Hok as (Hi' & El & Hs); [|by split].
  rewrite Els in El. split; rewrite ?El; [done|apply Hs|rewrite seeded_length; lia|apply seeded_free| |].
  - unfold fleet_rate. by rewrite seeded_share.
  - exists target, pack, extras, size. destruct P as [? ? ? ? ? ? ? ? ? ? ? ? ? ?] eqn:EP.
    split_and!; try done.
    + intros c Hc. apply (Forall_fmap l_share (share_within c (sp_rate_mode (sr_spec row)) size)).
      rewrite seeded_share. by apply (passed_shares _ _ _ _ _ _ _ _ _ _ _ _ _ P Hm Hr Hv Hw Hc Es).
    + intros cap gb. by apply (passed_cap _ _ _ _ _ _ _ _ _ _ _ _ P).
Qed.

(** No gate answers [provision_failed]. *)
Definition gating {A} (m : G A) : Prop := forall d, m <> Ok (inl (ProvisionFailed d)).

Lemma gating_bind {A B} (m : G A) (f : A -> G B) : gating m -> (forall a, gating (f a)) -> gating (m ≫= f).
Proof. intros Hm Hf d. destruct m as [[r|a]|e]; [|apply Hf|done]. intros [= ->]. by apply (Hm d). Qed.

Lemma gating_refuse_if b rf : (forall d, rf <> ProvisionFailed d) -> gating (refuse_if b rf).
Proof. intros Hrf d. unfold refuse_if. destruct b; [|done]. intros [= ->]. by apply (Hrf d). Qed.

Lemma gating_ret {A} (a : A) : gating (mret a).
Proof. done. Qed.

Lemma gating_compute {A} (r : result A) : gating (compute r).
Proof. intros d. by destruct r. Qed.

Lemma gating_found {A} (o : option A) what : gating (found o what).
Proof. intros d. by destruct o. Qed.

Hint Resolve gating_ret gating_compute gating_found : core.
Ltac gating := repeat first [apply gating_bind; [|intros ?]|apply gating_refuse_if; discriminate|done|case_match].

Lemma gating_guard rf engine packs : gating (multi_pack_guard rf engine packs).
Proof.
  unfold multi_pack_guard. case_match; [done|].
  induction packs as [|x packs IH]; cbn [foldr]; gating; auto.
Qed.
Hint Resolve gating_guard : core.

Lemma gates_refusal rf p c env n cap t fleets spec_id body : gating (gates rf p c env n cap t fleets spec_id body).
Proof.
  unfold gates, engine_gates, merge_gate, inprocess_gates, sharding_gate, backfill_gate. gating; auto.
  induction (sr_extra_ids a) as [|i ids IH]; cbn [load_extras]; gating; auto.
Qed.

Lemma run_spec_cases t run_id spec_id body actor bundle (w w' : W) r :
  run_spec private_host compiles ceiling_env inprocess_max_workers t run_id spec_id body actor bundle w = (w', r) ->
  (forall sp m, bundle sp <> Raise (DriverError m)) ->
  (w' = rollback w w' /\ match r with Ok (inr _) | Ok (inl (ProvisionFailed _)) => False | _ => True end) \/
  exists ad digest driver w1,
    gates repr_float private_host compiles ceiling_env inprocess_max_workers (backfill_cap_eps env_settings) t
      (reg_fleets (w_registry w)) spec_id body = Ok (inr ad) /\
    w_leases w1 = w_leases w /\
    exists r', provision_run run_id (ad_spec ad) (ad_target ad) digest driver (lb_overrides body) (Some actor)
                 (ad_backfill ad) w1 = (w', r') /\
      match r' with
      | Ok _ => r = Ok (inr (r_state (w_run w')))
      | Raise e => exists m, e = DriverError m /\ r = Ok (inl (ProvisionFailed m))
      end.
Proof.
  intros E Hb. revert E. unfold run_spec. destruct (gates _ _ _ _ _ _ _ _ _ _) as [[rf|ad]|e] eqn:Eg.
  1: intros [= <- <-]; left; split; [apply rollback_id|]; destruct rf; try done; by eapply gates_refusal.
  2: intros [= <- <-]; left; split; [apply rollback_id|done].
  destruct (resolve_frame (sp_fleet (ad_spec ad)) w) as [reg Ereg].
  destruct (resolve_fleet_driver _ w) as [w1 [driver|e]] eqn:Ed; cbn [fst] in Ereg.
  - destruct (bundle (ad_spec ad)) as [digest|e] eqn:Ebd; unfold mbind, M_bind, lift; cbn beta iota.
    + destruct (provision_run _ _ _ _ _ _ _ _ w1) as [w2 [u|e]] eqn:Ep.
      * intros [= <- <-]. right. exists ad, digest, driver, w1. split; [done|]. split; [by rewrite Ereg|]. by exists (Ok u).
      * destruct e; try (intros [= <- <-]; left; split; [by rewrite rollback_twice|done]).
        intros [= <- <-]. right. exists ad, digest, driver, w1. split; [done|]. split; [by rewrite Ereg|].
        eexists (Raise _). split; [exact Ep|]. by eexists.
    + intros E. left. destruct e; injection E as <- <-; try (split; [by rewrite rollback_twice|done]).
      by destruct (Hb (ad_spec ad) msg).
  - destruct e; intros [= <- <-]; left; (split; [by rewrite rollback_twice|try done; by destruct (bool_decide _)]).
Qed.

End Admission.

(** ** A launch of the demo shop *)

Section Witnesses.

Definition shop_launch (spec : Spec) (cap : option Q) :=
  run_spec (fun _ => false) (fun _ => true) None 4 (shop_tables spec cap []) 42 7 plain_launch "alice"
    (fun _ => Ok "sha") blank.


(** A target with less room than the run needs refuses it. *)
Example launch_over_cap_refused :
  exists h, shop_launch (shop_spec "eps" (Some 9000%Q) 3) (Some 1%Q) = (blank, Ok (inl (TargetCapExceeded h))).
Proof. eexists. vm_compute. reflexivity. Qed.
End Witnesses.
