(* ===== verification/Trace.v ===== *)
(** * Reachable states of a run

    Requests from workers and operators, supervisor ticks and the passage of
    time, interleaved in any order.  A request that raises is rolled back (its
    session is never committed) except for what left the process: the driver
    calls it made and the tokens it drew.  A tick that raises keeps what it had
    changed, because the supervisor catches the exception and commits. *)

From S2P Require Import Prelude.
From S2P Require Import PyFloat.
From S2P Require Import PyValue.
From S2P Require Import Apportion.
From S2P Require Import Driver.
From S2P Require Import Model.
From S2P Require Import Shares.
From S2P Require Import Session.
From S2P Require Import Protocol.
From S2P Require Import Operators.
From S2P Require Import Provision.
From S2P Require Import Scenario.
From S2P Require Import Supervisor.
From S2P Require Import Invariants.
From S2P Require Import Soundness.
From S2P Require Import Launch.
From Stdlib Require Import QArith.
Open Scope Z_scope.

Inductive action : Type :=
  | AClaim (holder : string) (hint_slot : option nat)
  | AReady (slot : nat) (lease_id : option string)
  | AHeartbeat (slot : nat) (lease_id : option string) (payload : pydict)
  | AFinal (slot : nat) (summary : list (string * pyval)) (log_tail : list string)
      (lease_id : option string)
  | AStop (driver : nat) (force : bool) (actor : string)
  | APause (driver : option nat) (actor : string)
  | AResume (driver : option nat) (actor : string)
  | AScale (driver : nat) (workers : Z) (actor : string)
  | ARescale (rate_value : option Q) (actor : string)
  | ATick (drivers : option driver_map) (boot_time : Z)
  | AWait (us : N).

Section Trace.
Context {D : Type} `{Env D}.
Abbreviation W := (world D).

Definition commit {A} (m : M W A) (w : W) : W :=
  match m w with
  | (w', Ok _) => w'
  | (w', Raise _) =>
      with_tokens (fun _ => w_tokens w') (with_registry (fun _ => w_registry w') w)
  end.

Definition wait (us : Z) (w : W) : W :=
  mkWorld (w_now w + us) (w_run w) (w_leases w) (w_events w) (w_samples w) (w_targets w)
    (w_registry w) (w_tokens w).

Definition perform (a : action) (w : W) : W :=
  match a with
  | AClaim holder hint => commit (claim_lease holder hint) w
  | AReady slot lid => commit (mark_ready slot lid) w
  | AHeartbeat slot lid p => commit (record_heartbeat slot lid p) w
  | AFinal slot s tail lid => commit (record_final slot s tail lid) w
  | AStop drv force actor => commit (stop_run drv force actor) w
  | APause drv actor => commit (pause_run drv actor) w
  | AResume drv actor => commit (resume_run drv actor) w
  | AScale drv n actor => commit (scale_run drv n actor) w
  | ARescale q actor => commit (rescale_run q actor) w
  | ATick drivers boot => fst (supervise_run drivers boot w)
  | AWait us => wait (Z.of_N us) w
  end.

Definition reachable : W -> W -> Prop := rtc (fun w w' => exists a, w' = perform a w).

(** What a trace keeps: [evolves] with a clock that moves forward. *)
Record history (w w' : W) : Prop := mkHistory {
  hi_run : run_evolves (w_run w) (w_run w');
  hi_log : logged w w';
  hi_clock : w_now w <= w_now w';
  hi_tokens : (w_tokens w <= w_tokens w')%nat;
  hi_ids : ids_drawn w w';
}.

Global Instance history_preorder : PreOrder history.
Proof.
  split.
  - intros w. split; [done|reflexivity|lia|lia|by apply ids_drawn_same].
  - intros w1 w2 w3 [] []. split; [by etrans|by etrans|lia|lia|by eapply ids_drawn_trans].
Qed.

Lemma evolves_history w w' : evolves w w' -> history w w'.
Proof. intros []. split; [done|done|lia|done|done]. Qed.

Lemma commit_sound {A} (m : M W A) w :
  transits sound m w -> Inv w -> Inv (commit m w) /\ history w (commit m w).
Proof.
  intros Hm Hi. unfold transits in Hm. unfold commit.
  destruct (Hm Hi) as [Hi' He]. destruct (m w) as [w' [a|e]]; cbn in *.
  - split; [done|by apply evolves_history].
  - destruct Hi as [Hr Hw]. split.
    + split; [done|]. eapply lease_wf_ext; [..|exact Hw]; try done. apply He.
    + split; cbn; [done|by apply logged_same|lia|apply He|by apply ids_drawn_same].
Qed.

Lemma perform_sound a w : Inv w -> Inv (perform a w) /\ history w (perform a w).
Proof.
  intros Hi. destruct a; cbn [perform];
    try (apply commit_sound; [solve [auto with stoker]|done]).
  - destruct (sound_supervise_run drivers boot_time w Hi). split; [done|by apply evolves_history].
  - destruct Hi as [Hr Hw]. split.
    + split; [done|]. eapply lease_wf_ext; [..|exact Hw]; done.
    + split; cbn; [reflexivity|by apply logged_same|lia|lia|by apply ids_drawn_same].
Qed.

Lemma reachable_sound w w' : reachable w w' -> Inv w -> Inv w' /\ history w w'.
Proof.
  induction 1 as [w|w w1 w2 [a ->] _ IH]; intros Hi; [split; [done|reflexivity]|].
  destruct (perform_sound a w Hi) as [Hi1 Hh1]. destruct (IH Hi1) as [Hi2 Hh2].
  split; [done|by etrans].
Qed.

(** C1: whatever the interleaving of worker requests, operator actions,
    supervisor ticks and delays, a run keeps its invariant: slots are
    0..n-1, lease ids are distinct and never reused, a released run has a T0 and
    an unreleased one has none, a run has an end instant exactly when it is
    terminal, an end reason only when it drains or has ended, and a pause
    instant when it is paused. *)
Theorem reachable_invariant (w w' : W) : Inv w -> reachable w w' -> Inv w'.
Proof. intros Hi Hr. by apply (reachable_sound w w'). Qed.

(** C2: whatever the interleaving, the audit trail tells the states of the run,
    and they follow its state machine: the events between two reachable states
    extend the trail, and their [state] entries are one after the other moves of
    [edge], each from the state the previous one led to and with the reason it
    records, from the state of the one to the state of the other. *)
Theorem reachable_follows_state_machine (w w' : W) :
  Inv w -> reachable w w' ->
  exists evs, w_events w' = w_events w ++ evs
    /\ walk (r_state (w_run w)) evs (r_state (w_run w')).
Proof. intros Hi Hr. apply (reachable_sound w w' Hr Hi). Qed.

(** C3: a terminal run stays in its state for ever, and keeps its end instant. *)
Theorem terminal_absorbing (w w' : W) :
  Inv w -> terminal (r_state (w_run w)) = true -> reachable w w' ->
  r_state (w_run w') = r_state (w_run w)
  /\ exists t, r_ended_at (w_run w) = Some t /\ r_ended_at (w_run w') = Some t.
Proof.
  intros Hi Ht Hr. destruct (reachable_sound w w' Hr Hi) as [_ [[He _ Hend _ _] _ _ _ _]]. split.
  - by apply (edges_terminal _ _ He).
  - destruct (proj1 (ri_ended _ (inv_run _ Hi)) Ht) as [t Et]. eauto.
Qed.

(** T0 is set at most once, and the audit trail is append-only. *)
Theorem t0_set_once (w w' : W) (t : Z) :
  Inv w -> reachable w w' -> r_t0 (w_run w) = Some t ->
  r_t0 (w_run w') = Some t /\ w_events w `prefix_of` w_events w'.
Proof.
  intros Hi Hr Ht. destruct (reachable_sound w w' Hr Hi) as [_ [Hrun Hlog _ _ _]].
  split; [by apply (re_t0 _ _ Hrun)|by apply logged_prefix].
Qed.
End Trace.

(** ** A trace of the demo run *)

(** Three workers claim and report ready: the last ready releases the fleet. *)
Definition demo_released : world FakeDriver :=
  foldl (fun w a => perform a w) demo_run
    [AClaim "a" None; AClaim "b" None; AClaim "c" None;
     AReady 0 (Some "le_4"); AReady 1 (Some "le_5"); AReady 2 (Some "le_6")].

(** ... and an operator force-stops it. *)
Definition demo_stopped : world FakeDriver := perform (AStop 0 true "alice") demo_released.

Lemma reachable_foldl {D} `{Env D} (acts : list action) (w : world D) :
  reachable w (foldl (fun w a => perform a w) w acts).
Proof.
  revert w. induction acts as [|a acts IH]; intros w; [done|].
  eapply rtc_l; [by exists a|]. apply IH.
Qed.

Lemma demo_released_inv : Inv demo_released.
Proof. eapply reachable_sound; [apply reachable_foldl|apply demo_run_inv]. Qed.

Lemma demo_stopped_inv : Inv demo_stopped.
Proof. apply (perform_sound (AStop 0 true "alice")), demo_released_inv. Qed.

Lemma reachable_invariant_witness : Inv demo_run /\ Inv demo_released.
Proof.
  split; [apply demo_run_inv|].
  apply (reachable_invariant demo_run demo_released); [apply demo_run_inv|apply reachable_foldl].
Defined.

Lemma reachable_follows_state_machine_witness :
  exists evs, w_events demo_stopped = w_events demo_run ++ evs
    /\ walk (r_state (w_run demo_run)) evs (r_state (w_run demo_stopped)).
Proof.
  apply (reachable_follows_state_machine demo_run demo_stopped); [apply demo_run_inv|].
  eapply rtc_r; [apply reachable_foldl|by exists (AStop 0 true "alice")].
Defined.

Lemma terminal_absorbing_witness :
  r_state (w_run (perform (AClaim "d" None) demo_stopped)) = r_state (w_run demo_stopped)
  /\ exists t, r_ended_at (w_run demo_stopped) = Some t
     /\ r_ended_at (w_run (perform (AClaim "d" None) demo_stopped)) = Some t.
Proof.
  apply (terminal_absorbing demo_stopped (perform (AClaim "d" None) demo_stopped)).
  - apply demo_stopped_inv.
  - vm_compute. reflexivity.
  - apply rtc_once. by exists (AClaim "d" None).
Defined.

Lemma t0_set_once_witness :
  r_t0 (w_run demo_stopped) = Some 1002000000
  /\ w_events demo_released `prefix_of` w_events demo_stopped.
Proof.
  apply (t0_set_once demo_released demo_stopped 1002000000).
  - apply demo_released_inv.
  - apply rtc_once. by exists (AStop 0 true "alice").
  - vm_compute. reflexivity.
Defined.
