(* ===== verification/Release.v ===== *)
(** * The release gate

    When the fleet is released, when it is released without its stragglers, and
    what a worker is told about it. *)

From S2P Require Import Prelude.
From S2P Require Import PyFloat.
From S2P Require Import PyValue.
From S2P Require Import Apportion.
From S2P Require Import Driver.
From S2P Require Import Model.
From S2P Require Import Shares.
From S2P Require Import Session.
From S2P Require Import Protocol.
From S2P Require Import Operators.
From S2P Require Import Provision.
From S2P Require Import Scenario.
From S2P Require Import Supervisor.
From S2P Require Import Invariants.
From S2P Require Import Soundness.
From S2P Require Import Updates.
From S2P Require Import Launch.
From S2P Require Import Trace.
From Stdlib Require Import QArith Qabs.
Open Scope Z_scope.

Section Release.
Context {D : Type} `{Env D}.
Abbreviation W := (world D).

Definition unreleased (w : W) : bool :=
  bool_decide (r_t0 (w_run w) = None)
  && bool_decide (r_state (w_run w) ∈ [Provisioning; Preparing; Releasing]).

Definition some_ready (w : W) : bool := existsb (in_state LReady) (w_leases w).
Definition some_pending (w : W) : bool := existsb is_pending (w_leases w).

(** [run.t0 = now + RELEASE_DELAY_S] and the transition. *)
Definition released (w : W) : W :=
  transition_world Releasing
    [("t0", jint (w_now w + RELEASE_DELAY));
     ("workers_ready", jint (Z.of_nat (length (List.filter (in_state LReady) (w_leases w)))))]
    "system" None (with_run (set_t0 (Some (w_now w + RELEASE_DELAY))) w).

Lemma filter_nil_existsb (P : WorkerLease -> bool) ls :
  bool_decide (List.filter P ls = []) = negb (existsb P ls).
Proof.
  induction ls as [|l ls IH]; cbn; [done|]. by destruct (P l).
Qed.

Lemma evaluate_release_unforced (w : W) :
  evaluate_release false w
  = if unreleased w && some_ready w && negb (some_pending w) then (released w, Ok true)
    else (w, Ok false).
Proof.
  unfold evaluate_release, unreleased, some_ready, some_pending. run.
  destruct (bool_decide (r_t0 (w_run w) = None)); cbn [negb andb]; [|done].
  destruct (bool_decide (r_state (w_run w) ∈ _)); cbn [negb andb]; [|done].
  rewrite !filter_nil_existsb, negb_involutive.
  destruct (existsb (in_state LReady) _); cbn [negb andb]; [|done].
  destruct (existsb is_pending _); cbn [negb andb]; [done|].
  unfold utcnow, on_run, transition_run. run. done.
Qed.

Lemma released_facts (w : W) :
  r_t0 (w_run (released w)) = Some (w_now w + RELEASE_DELAY)
  /\ r_state (w_run (released w)) = Releasing
  /\ w_leases (released w) = w_leases w.
Proof. unfold released. rewrite w_run_transition. split; [done|]. split; [done|]. by rewrite transition_leases. Qed.

Lemma mark_lost_eq (P : WorkerLease -> bool) (w : W) :
  lease_wf w ->
  mark_lost (List.filter P (w_leases w)) w
  = (with_leases (fmap (fun l => if P l then set_lstate LLost l else l)) w, Ok tt).
Proof.
  intros Hw. pose proof (lease_wf_nodup w Hw) as Hnd. unfold mark_lost.
  rewrite (for_each_on_lease l_slot (fun _ => set_lstate LLost)). unfold with_leases.
  rewrite (foldl_upd_lease l_slot); [|done|by apply filter_slots_nodup].
  do 2 f_equal. apply list_fmap_ext. intros i l Hl. apply updated_filter; [done|].
  by eapply list_elem_of_lookup_2.
Qed.

(** ** Partial release *)

(** The leases after a partial release: stragglers lost, the ready slots
    flagged with their new shares. *)
Definition partial_leases (shares : list pydict) (ls : list WorkerLease) : list WorkerLease :=
  let ready := List.filter (in_state LReady) ls in
  updated (fun lx => l_slot lx.1) (fun lx => mark_retarget lx.2) (zip ready shares)
    <$> ((fun l => if is_pending l then set_lstate LLost l else l) <$> ls).

Lemma zip_fst_nodup {A} (ls : list WorkerLease) (xs : list A) :
  NoDup (l_slot <$> ls) -> NoDup ((fun lx => l_slot lx.1) <$> zip ls xs).
Proof.
  revert xs. induction ls as [|l ls IH]; intros xs Hnd; [constructor|].
  destruct xs as [|x xs]; [constructor|]. cbn in *. apply NoDup_cons in Hnd as [Hl Hnd].
  apply NoDup_cons. split; [|by apply IH]. intros Hin. apply Hl.
  apply list_elem_of_fmap in Hin as ([l' x'] & E & Hin). apply elem_of_zip_l in Hin.
  apply list_elem_of_fmap. eauto.
Qed.

Lemma retarget_all_eq ls shares (w : W) :
  NoDup (l_slot <$> ls) ->
  retarget_all ls shares w
  = (with_leases (fmap (updated (fun lx => l_slot lx.1) (fun lx => mark_retarget lx.2)
       (zip ls shares))) w, Ok tt).
Proof.
  intros Hnd. unfold retarget_all.
  rewrite (for_each_on_lease (fun ls => l_slot ls.1) (fun ls => mark_retarget ls.2)).
  unfold with_leases. rewrite foldl_upd_lease; [done|done|]. by apply zip_fst_nodup.
Qed.

Lemma evaluate_release_partial (w : W) shares :
  lease_wf w -> unreleased w = true -> some_ready w = true -> some_pending w = true ->
  sn_strict_release (snap_of (w_run w)) = false ->
  build_share_list (rate_mode_of (snap_of (w_run w))) (sn_rate_value (snap_of (w_run w)))
    (Z.of_nat (length (List.filter (in_state LReady) (w_leases w)))) = Ok shares ->
  exists w', evaluate_release true w = (w', Ok true)
    /\ w_leases w' = partial_leases shares (w_leases w)
    /\ r_degraded (w_run w') = true /\ r_state (w_run w') = Releasing
    /\ r_t0 (w_run w') = Some (w_now w + RELEASE_DELAY).
Proof.
  intros Hw Hu Hr Hp Hst Es. apply andb_true_iff in Hu as [Hu1 Hu2].
  unfold evaluate_release. unfold some_ready, some_pending in *. run.
  rewrite Hu1, Hu2. cbn [negb]. rewrite !filter_nil_existsb, Hr, Hp, Hst. cbn [negb andb]. run.
  erewrite run_bind by (apply mark_lost_eq; done). unfold on_run. run.
  unfold reapportion_ready. run. rewrite filter_nil_existsb, Hr. cbn [negb].
  set (w1 := with_run _ _). run.
  change (snap_of (w_run w1)) with (snap_of (w_run w)). rewrite Es. run.
  erewrite run_bind by (apply retarget_all_eq, filter_slots_nodup, lease_wf_nodup; done).
  unfold append_event, utcnow, transition_run. run.
  eexists. split; [reflexivity|].
  rewrite transition_leases, w_run_transition. done.
Qed.

(** Some other slot is still free or claimed. *)
Definition others_pending (slot : nat) (w : W) : bool :=
  existsb (fun l => negb (Nat.eqb (l_slot l) slot) && is_pending l) (w_leases w).

Lemma upd_lease_lookup (w : W) slot f l :
  lease_wf w -> w_leases w !! slot = Some l ->
  upd_lease slot f (w_leases w) !! slot = Some (f l).
Proof. intros Hw Hl. by rewrite upd_lease_alter, list_lookup_alter_eq, Hl. Qed.

Lemma existsb_upd_lease (P : WorkerLease -> bool) slot l' ls :
  l_slot l' = slot -> P l' = false ->
  existsb P (upd_lease slot (fun _ => l') ls)
  = existsb (fun l => negb (Nat.eqb (l_slot l) slot) && P l) ls.
Proof.
  intros Hs HP. unfold upd_lease. induction ls as [|l ls IH]; cbn; [done|]. rewrite IH. f_equal.
  destruct (Nat.eqb_spec (l_slot l) slot) as [E|E]; cbn.
  - by rewrite bool_decide_eq_true_2.
  - by rewrite bool_decide_eq_false_2.
Qed.

Lemma existsb_in {A} (P : A -> bool) l x : x ∈ l -> P x = true -> existsb P l = true.
Proof. intros Hin HP. apply existsb_true. eauto. Qed.

(** a worker that reports ready on a run that waits for its fleet is marked
    ready; when no other slot is still free or claimed the fleet is released at
    once, T0 two seconds ahead, and otherwise the run row is untouched. *)
Theorem last_ready_releases (w : W) slot l :
  Inv w -> unreleased w = true -> w_leases w !! slot = Some l ->
  l_state l = LClaimed \/ l_state l = LReady ->
  exists w', mark_ready slot (Some (l_id l)) w = (w', Ok tt)
    /\ (exists l', w_leases w' !! slot = Some l' /\ l_state l' = LReady)
    /\ if others_pending slot w then w_run w' = w_run w
       else r_t0 (w_run w') = Some (w_now w + RELEASE_DELAY) /\ r_state (w_run w') = Releasing.
Proof.
  intros Hi Hu Hl Hs. pose proof (inv_leases _ Hi) as Hw.
  pose proof (lease_index _ _ _ Hw Hl) as Hsl.
  unfold mark_ready, find_lease. run. rewrite lookup_slot_index, Hl by done. cbn [is_lease_holder].
  rewrite bool_decide_eq_true_2 by done. cbn [negb]. unfold utcnow. run.
  set (l1 := set_heartbeat (w_now w) l).
  assert (in_state LClaimed l1 || in_state LReady l1 = true) as Hp.
  { unfold in_state. cbn. destruct Hs as [-> | ->]; done. }
  rewrite Hp. unfold save, on_lease, append_event. run.
  set (l2 := set_lstate LReady l1). set (w1 := push_event _ _ _ _).
  assert (w_leases w1 = upd_lease slot (fun _ => l2) (w_leases w)) as El1.
  { subst w1. cbn. rewrite Hsl. done. }
  assert (some_ready w1 = true) as Hr1.
  { apply (existsb_in _ _ l2); [|done]. rewrite El1.
    apply (list_elem_of_lookup_2 _ slot), (upd_lease_lookup w slot (fun _ => l2) l); done. }
  assert (some_pending w1 = others_pending slot w) as Hp1.
  { unfold some_pending. rewrite El1. by apply existsb_upd_lease. }
  assert (unreleased w1 = true) as Hu1 by exact Hu.
  assert (w_leases w1 !! slot = Some l2) as Hl2.
  { rewrite El1. by apply (upd_lease_lookup w slot (fun _ => l2) l). }
  destruct (others_pending slot w) eqn:Ho.
  - erewrite run_bind; [|rewrite evaluate_release_unforced, Hu1, Hr1, Hp1; reflexivity].
    eexists. split; [reflexivity|]. split; [eauto|done].
  - erewrite run_bind; [|rewrite evaluate_release_unforced, Hu1, Hr1, Hp1; reflexivity].
    eexists. split; [reflexivity|]. destruct (released_facts w1) as (E1 & E2 & E3).
    split; [exists l2; by rewrite E3|]. split; [exact E1|exact E2].
Qed.

(** ** Rate conservation of a partial release *)

Lemma partial_ready shares ls :
  NoDup (l_slot <$> ls) -> length shares = length (List.filter (in_state LReady) ls) ->
  List.filter (in_state LReady) (partial_leases shares ls)
  = zip_with (fun l s => mark_retarget s l) (List.filter (in_state LReady) ls) shares
  /\ forall l', l' ∈ partial_leases shares ls -> is_pending l' = false.
Proof.
  intros Hnd Hlen. unfold partial_leases.
  set (lost := fun l => if is_pending l then set_lstate LLost l else l).
  assert (List.filter (in_state LReady) (lost <$> ls) = List.filter (in_state LReady) ls) as Ef.
  { clear. induction ls as [|l ls IH]; [done|]. cbn. rewrite IH. unfold lost, is_pending, in_state.
    destruct (l_state l) eqn:E; cbn; rewrite ?E; cbn; done. }
  assert (l_slot <$> (lost <$> ls) = l_slot <$> ls) as Es.
  { rewrite <- list_fmap_compose. apply list_fmap_ext. intros _ l _. cbn. unfold lost.
    by destruct (is_pending l). }
  pose proof (updated_zip (in_state LReady) mark_retarget (lost <$> ls) shares) as Hz.
  rewrite Ef, Es in Hz. destruct Hz as [Hz1 Hz2]; [done|done|done|done|].
  split; [exact Hz1|]. intros l' Hin. apply list_elem_of_fmap in Hin as (l1 & -> & Hin).
  assert (is_pending l1 = false) as Hp1.
  { apply list_elem_of_fmap in Hin as (l0 & -> & _). unfold lost.
    destruct (is_pending l0) eqn:E; [done|exact E]. }
  assert (forall s, is_pending (mark_retarget s l1) = is_pending l1) as Hm by done.
  unfold updated. destruct (entry _ _ _); [by rewrite Hm|done].
Qed.

Lemma qsum_zip_retarget mode ls shares :
  is_private mode = false -> length shares = length ls ->
  share_value mode <$> (l_share <$> zip_with (fun l s => mark_retarget s l) ls shares)
  = share_value mode <$> shares.
Proof.
  intros Hk. revert shares. induction ls as [|l ls IH]; intros [|s shares] Hlen; try done.
  cbn [zip_with fmap list_fmap]. f_equal; [by apply share_value_mark_retarget|].
  apply IH. by injection Hlen.
Qed.

(** when the provisioning timeout releases the ready subset of a run that
    is not strict, every straggler becomes lost, the run is marked degraded and
    released, and the shares of the ready slots again sum to the run's rate
    (within four unit roundoffs), each flagged to be pushed to its worker. *)
Theorem partial_release_conserves_rate (w : W) mode v
    (ready := List.filter (in_state LReady) (w_leases w)) :
  Inv w -> unreleased w = true -> some_ready w = true -> some_pending w = true ->
  sn_strict_release (snap_of (w_run w)) = false ->
  rate_mode_of (snap_of (w_run w)) = mode -> gated mode ->
  sn_rate_value (snap_of (w_run w)) = Some v -> (0 < v)%Q ->
  8 * Z.of_nat (length ready) <= 2 ^ 53 ->
  exists w', evaluate_release true w = (w', Ok true)
    /\ r_t0 (w_run w') = Some (w_now w + RELEASE_DELAY) /\ r_degraded (w_run w') = true
    /\ (forall l, l ∈ w_leases w' -> is_pending l = false)
    /\ (let ready' := List.filter (in_state LReady) (w_leases w') in
        l_slot <$> ready' = l_slot <$> ready
        /\ Forall (fun l => l_share l !! RETARGET_MARKER = Some (VBool true)) ready'
        /\ (Qabs (fleet_rate mode ready' - v) <= 4 * eps * v)%Q).
Proof.
  intros Hi Hu Hr Hp Hst Em Hm Ev Hv Hn. pose proof (inv_leases _ Hi) as Hw.
  assert (1 <= Z.of_nat (length ready)) as H1.
  { subst ready. unfold some_ready in Hr. apply existsb_true in Hr as (l & Hin & Hl).
    assert (l ∈ List.filter (in_state LReady) (w_leases w)) as Hin'
      by (apply list_elem_of_In, filter_In; by apply list_elem_of_In in Hin).
    destruct (List.filter _ _); [set_solver|]. cbn. lia. }
  destruct (build_share_list_ok mode v (Z.of_nat (length ready)) Hm Hv H1 Hn)
    as (shares & Es & Hlen & _ & Hsum). rewrite Nat2Z.id in Hlen.
  destruct (evaluate_release_partial w shares Hw Hu Hr Hp Hst) as (w' & E & El & Ed & _ & Et).
  { by rewrite Em, Ev. }
  exists w'. split; [done|]. split; [done|]. split; [done|].
  destruct (partial_ready shares (w_leases w) (lease_wf_nodup w Hw) Hlen) as [Hf Hnp].
  rewrite El. split; [exact Hnp|]. cbv zeta. rewrite Hf. fold ready. split; [|split].
  - clear -Hlen. revert shares Hlen. induction ready as [|l ls IH]; intros [|s shares] Hlen; try done.
    cbn. f_equal. apply IH. by injection Hlen.
  - apply Forall_forall. intros l Hin. apply elem_of_lookup_zip_with in Hin as (i & l0 & s & -> & _).
    apply mark_retarget_flag.
  - unfold fleet_rate. rewrite qsum_zip_retarget; [exact Hsum|by apply gated_public|done].
Qed.

(** under [strict_release] the same timeout fails the run instead: no T0 is
    set and the reason names the strict release. *)
Theorem strict_release_fails (w : W) :
  Inv w -> unreleased w = true -> some_ready w = true -> some_pending w = true ->
  sn_strict_release (snap_of (w_run w)) = true ->
  exists w', evaluate_release true w = (w', Ok false)
    /\ r_state (w_run w') = Failed /\ r_end_reason (w_run w') = Some "strict-release-timeout"
    /\ r_t0 (w_run w') = None /\ r_ended_at (w_run w') = Some (w_now w).
Proof.
  intros Hi Hu Hr Hp Hst. apply andb_true_iff in Hu as [Hu1 Hu2].
  pose proof (inv_leases _ Hi) as Hw. pose proof (inv_run _ Hi) as Hri.
  apply bool_decide_eq_true in Hu1 as Ht0. apply bool_decide_eq_true in Hu2 as Hs.
  assert (r_ended_at (w_run w) = None) as Hend.
  { destruct (r_ended_at (w_run w)) eqn:E; [|done].
    assert (terminal (r_state (w_run w)) = true) as Ht by (apply Hri; eauto).
    assert (terminal (r_state (w_run w)) = false); [|congruence].
    assert (r_state (w_run w) = Provisioning \/ r_state (w_run w) = Preparing
            \/ r_state (w_run w) = Releasing) as [-> | [-> | ->]] by set_solver; done. }
  unfold evaluate_release. unfold some_ready, some_pending in *. run.
  rewrite Hu1, Hu2. cbn [negb]. rewrite !filter_nil_existsb, Hr, Hp, Hst. cbn [negb andb]. run.
  erewrite run_bind by (apply mark_lost_eq; done). unfold transition_run. run.
  eexists. split; [reflexivity|]. rewrite w_run_transition. cbn. rewrite Hend, Ht0. done.
Qed.
End Release.

(** ** Witnesses *)

(** Slots 0 and 1 are ready, slot 2 is still warming up. *)
Definition demo_warming : world FakeDriver :=
  foldl (fun w a => perform a w) demo_run
    [AClaim "a" None; AClaim "b" None; AClaim "c" None;
     AReady 0 (Some "le_4"); AReady 1 (Some "le_5")].

Lemma demo_warming_inv : Inv demo_warming.
Proof. eapply reachable_sound; [apply reachable_foldl|apply demo_run_inv]. Qed.

Definition demo_slot2 : WorkerLease := default (free_lease 0 ∅ "") (w_leases demo_warming !! 2%nat).

Lemma last_ready_releases_witness :
  exists w', mark_ready 2 (Some (l_id demo_slot2)) demo_warming = (w', Ok tt)
    /\ (exists l', w_leases w' !! 2%nat = Some l' /\ l_state l' = LReady)
    /\ if others_pending 2 demo_warming then w_run w' = w_run demo_warming
       else r_t0 (w_run w') = Some (w_now demo_warming + RELEASE_DELAY)
            /\ r_state (w_run w') = Releasing.
Proof.
  apply (last_ready_releases demo_warming 2 demo_slot2).
  - apply demo_warming_inv.
  - vm_compute. reflexivity.
  - vm_compute. reflexivity.
  - left. vm_compute. reflexivity.
Defined.

Lemma partial_release_conserves_rate_witness :
  exists w', evaluate_release true demo_warming = (w', Ok true)
    /\ r_t0 (w_run w') = Some (w_now demo_warming + RELEASE_DELAY) /\ r_degraded (w_run w') = true
    /\ (forall l, l ∈ w_leases w' -> is_pending l = false)
    /\ (let ready' := List.filter (in_state LReady) (w_leases w') in
        l_slot <$> ready' = l_slot <$> List.filter (in_state LReady) (w_leases demo_warming)
        /\ Forall (fun l => l_share l !! RETARGET_MARKER = Some (VBool true)) ready'
        /\ (Qabs (fleet_rate "eps" ready' - 100) <= 4 * eps * 100)%Q).
Proof.
  apply (partial_release_conserves_rate demo_warming "eps" 100%Q).
  - apply demo_warming_inv.
  - vm_compute. reflexivity.
  - vm_compute. reflexivity.
  - vm_compute. reflexivity.
  - vm_compute. reflexivity.
  - vm_compute. reflexivity.
  - by left.
  - vm_compute. reflexivity.
  - reflexivity.
  - vm_compute. discriminate.
Defined.

Definition strict_snapshot (s : snapshot) : snapshot :=
  mkSnapshot (sn_engine s) (sn_rate_mode s) (sn_rate_value s) (sn_workers s) (sn_duration_s s)
    (sn_fleet s) true (sn_overrides s) (sn_index s) (sn_sourcetype s)
    (sn_telemetry_interval_s s) (sn_rate_shape s) (sn_hec_url s) (sn_default_index s)
    (sn_rotation s) (sn_backfill s) (sn_backpressure_original_rate s) (sn_eventgen_impl s).

Definition demo_strict : world FakeDriver :=
  with_run (fun r => set_snapshot (strict_snapshot (snap_of r)) r) demo_warming.

Lemma strict_release_fails_witness :
  exists w', evaluate_release true demo_strict = (w', Ok false)
    /\ r_state (w_run w') = Failed /\ r_end_reason (w_run w') = Some "strict-release-timeout"
    /\ r_t0 (w_run w') = None /\ r_ended_at (w_run w') = Some (w_now demo_strict).
Proof.
  apply (strict_release_fails demo_strict).
  - apply (sound_frame (fun r => set_snapshot (strict_snapshot (snap_of r)) r)); [done|].
    apply demo_warming_inv.
  - vm_compute. reflexivity.
  - vm_compute. reflexivity.
  - vm_compute. reflexivity.
  - vm_compute. reflexivity.
Defined.
