(* ===== verification/Heartbeat.v ===== *)
(** * Heartbeats and finals: what a worker is told, and what is recorded

    A reference for the heartbeat command (the precedence the code documents)
    and the proof that [record_heartbeat] computes it, renews the lease and
    appends one sample; release is told until T0 has passed and never again;
    a share change is pushed once; a final folds its totals once. *)

From S2P Require Import Prelude.
From S2P Require Import PyFloat.
From S2P Require Import PyValue.
From S2P Require Import Apportion.
From S2P Require Import Driver.
From S2P Require Import Model.
From S2P Require Import Shares.
From S2P Require Import Session.
From S2P Require Import Protocol.
From S2P Require Import Operators.
From S2P Require Import Provision.
From S2P Require Import Scenario.
From S2P Require Import Supervisor.
From S2P Require Import Invariants.
From S2P Require Import Soundness.
From S2P Require Import Updates.
From S2P Require Import Launch.
From S2P Require Import Trace.
From S2P Require Import Release.
From Stdlib Require Import QArith.
Open Scope Z_scope.

(** ** Reference *)

(** The state of a lease whose holder was heard, before the command. *)
Definition heard (t0 : option Z) (s : lease_state) : lease_state :=
  match s with
  | LLost => match t0 with Some _ => LRunning | None => LReady end
  | s => s
  end.

(** The documented command: drain while the run winds down or for a protocol the
    control plane does not speak; [pause] on every heartbeat of a paused run
    (CONTROL-PLANE.md, "Pause"); [release] once T0 is set, until the lease is
    past it; [retarget] when the stored share changed; [continue] otherwise. *)
Definition documented_command (run : Run) (lease : WorkerLease) (protocol_version : pyval) : cmd :=
  if bool_decide (r_state run = Draining) || terminal (r_state run)
     || negb (supported protocol_version) then Drain
  else if bool_decide (r_state run = Paused) then Pause
  else
    match r_t0 run, heard (r_t0 run) (l_state lease), l_share lease !! RETARGET_MARKER with
    | Some t0, (LClaimed | LReady), _ => Release t0
    | _, _, Some _ => Retarget (public_share (l_share lease))
    | _, _, None => Continue
    end.

(** A worker that has claimed its slot of a paused run and was not heard since:
    the one case in which the code does not answer as documented. *)
Definition joins_paused (run : Run) (lease : WorkerLease) : bool :=
  bool_decide (r_state run = Paused)
  && match l_state lease with LClaimed | LReady => true | _ => false end.

(** The code's order: drain > release > pause > retarget > continue. *)
Definition command_spec (run : Run) (lease : WorkerLease) (protocol_version : pyval) : cmd :=
  if bool_decide (r_state run = Draining) || terminal (r_state run)
     || negb (supported protocol_version) then Drain
  else
    match r_t0 run, heard (r_t0 run) (l_state lease) with
    | Some t0, (LClaimed | LReady) => Release t0
    | _, _ =>
        if bool_decide (r_state run = Paused) then Pause
        else match l_share lease !! RETARGET_MARKER with
             | Some _ => Retarget (public_share (l_share lease))
             | None => Continue
             end
    end.

(** The lease state after a heartbeat at [now]. *)
Definition state_spec (run : Run) (lease : WorkerLease) (protocol_version : pyval) (now : Z)
    : lease_state :=
  match command_spec run lease protocol_version with
  | Drain | Superseded => l_state lease
  | Release t0 => if t0 <=? now then LRunning else heard (r_t0 run) (l_state lease)
  | _ => heard (r_t0 run) (l_state lease)
  end.

Lemma store_work_marker {R : Rounding} rf p l :
  l_share (store_assigned_work rf p l) !! RETARGET_MARKER = l_share l !! RETARGET_MARKER.
Proof.
  unfold store_assigned_work. destruct (coerce_int _) as [a|]; [|done]. destruct (_ && _); [done|].
  match goal with |- context [match ?r with None => _ | _ => _ end] => destruct r end; cbn;
    rewrite ?lookup_insert_ne, ?lookup_delete_ne, ?lookup_insert_ne by done; done.
Qed.

Lemma store_report_marker p l :
  l_share (store_engine_report p l) !! RETARGET_MARKER = l_share l !! RETARGET_MARKER.
Proof.
  unfold store_engine_report. destruct (str_in _ _) as [impl|]; [|done]. destruct (_ && _); [done|].
  destruct (str_in _ ["hec"; "stoker"]); cbn;
    rewrite ?lookup_insert_ne, ?lookup_delete_ne, ?lookup_insert_ne by done; done.
Qed.

Section Heartbeat.
Context {D : Type} `{Env D}.
Abbreviation W := (world D).

(** The lease after the command, as [heartbeat_command] leaves it. *)
Definition lease_after (run : Run) (lease : WorkerLease) (pv : pyval) (now : Z) : WorkerLease :=
  let l := recover (r_t0 run) lease in
  match command_spec run lease pv with
  | Drain | Superseded => lease
  | Release t0 => if t0 <=? now then set_lstate LRunning l else l
  | Retarget _ => clear_retarget l
  | _ => l
  end.

Lemma recover_state t0 l : l_state (recover t0 l) = heard t0 (l_state l).
Proof.
  unfold recover, in_state. case_bool_decide as E; [rewrite E; cbn; by destruct t0|].
  by destruct (l_state l).
Qed.

Lemma recover_share t0 l : l_share (recover t0 l) = l_share l.
Proof. unfold recover. by destruct (in_state _ _). Qed.

(** A second write of the same slot wins. *)
Lemma upd_lease_twice slot l1 l2 ls :
  l_slot l1 = slot ->
  upd_lease slot (fun _ => l2) (upd_lease slot (fun _ => l1) ls) = upd_lease slot (fun _ => l2) ls.
Proof.
  intros Hs. unfold upd_lease. rewrite <- list_fmap_compose. apply list_fmap_ext. intros _ l _. cbn.
  destruct (bool_decide (l_slot l = slot)) eqn:E; [|by rewrite E].
  by rewrite bool_decide_eq_true_2.
Qed.

Lemma promote_ready_noop t0 l :
  (forall t, t0 = Some t -> l_state l <> LReady) -> promote_ready t0 l = l.
Proof.
  intros Hn. unfold promote_ready. destruct t0 as [t|]; [|done]. unfold in_state.
  rewrite bool_decide_eq_false_2; [done|]. by eapply Hn.
Qed.

(** What answering a heartbeat leaves alone. *)
Record frame (w w' : W) : Prop := mkFrame {
  fr_samples : w_samples w' = w_samples w;
  fr_now : w_now w' = w_now w;
  fr_paused_at : r_paused_at (w_run w') = r_paused_at (w_run w);
  fr_paused : r_paused (w_run w') = r_paused (w_run w);
  fr_id : r_id (w_run w') = r_id (w_run w);
  fr_kid : r_jwt_kid (w_run w') = r_jwt_kid (w_run w);
}.

Lemma maybe_mark_running_runs (w : W) :
  exists w', maybe_mark_running w = (w', Ok tt) /\ w_leases w' = w_leases w /\ frame w w'.
Proof.
  unfold maybe_mark_running, transition_run. run. destruct (bool_decide _); run; [|by exists w].
  eexists. split; [reflexivity|]. rewrite transition_leases. split; [done|].
  split; rewrite ?w_run_transition; try done; apply transition_frame.
Qed.

Lemma heartbeat_command_runs lease pv now (w : W) :
  upd_lease (l_slot lease) (fun _ => lease) (w_leases w) = w_leases w ->
  exists w', heartbeat_command lease pv now w = (w', Ok (command_spec (w_run w) lease pv))
    /\ w_leases w' = upd_lease (l_slot lease) (fun _ => lease_after (w_run w) lease pv now) (w_leases w)
    /\ frame w w'.
Proof.
  intros Hsame. unfold heartbeat_command, lease_after, command_spec. unfold_prims. run.
  destruct (bool_decide (r_state (w_run w) = Draining) || terminal (r_state (w_run w)));
    cbn [orb]; [by exists w|].
  destruct (negb (supported pv)) eqn:Hpv; cbn [orb]; [by exists w|].
  run. set (l1 := recover (r_t0 (w_run w)) lease).
  destruct (recover_frame (r_t0 (w_run w)) lease) as [Es _]. fold l1 in Es.
  rewrite <- (recover_state (r_t0 (w_run w)) lease), <- (recover_share (r_t0 (w_run w)) lease).
  fold l1. set (w1 := with_leases _ w).
  assert (w_leases w1 = upd_lease (l_slot lease) (fun _ => l1) (w_leases w)) as El1
    by (subst w1; cbn; by rewrite Es).
  assert (forall l2, l_slot l2 = l_slot lease ->
    w_leases (with_leases (upd_lease (l_slot l2) (fun _ => l2)) w1)
    = upd_lease (l_slot lease) (fun _ => l2) (w_leases w)) as Hsave.
  { intros l2 E2. cbn. rewrite E2, Es. by apply upd_lease_twice. }
  assert (r_t0 (w_run w) = None \/ (exists t, r_t0 (w_run w) = Some t
    /\ (l_state l1 = LClaimed \/ l_state l1 = LReady)) \/
    (exists t, r_t0 (w_run w) = Some t /\ l_state l1 <> LClaimed /\ l_state l1 <> LReady)) as Hcase.
  { destruct (r_t0 (w_run w)) as [t|]; [|by left]. right. destruct (l_state l1); eauto; right; eauto. }
  destruct Hcase as [Ht|[(t & Ht & Hs)|(t & Ht & Hs1 & Hs2)]]; rewrite Ht.
  - destruct (bool_decide (r_state (w_run w) = Paused)).
    + run. eexists. split; [reflexivity|]. cbn [promote_ready]. rewrite Hsave by done. done.
    + destruct (l_share l1 !! RETARGET_MARKER); run; (eexists; split; [reflexivity|]).
      * destruct (clear_retarget_frame l1) as (E1 & _). rewrite Hsave by congruence. done.
      * cbn [promote_ready]. rewrite Hsave by done. done.
  - assert ((match l_state l1 with LClaimed | LReady => true | _ => false end) = true) as Hb
      by (destruct Hs as [-> | ->]; done).
    destruct (l_state l1); try done;
    (destruct (t <=? now); run; [|eexists; split; [reflexivity|]; by rewrite El1]);
    match goal with |- context [(maybe_mark_running ≫= _) ?w2] =>
      destruct (maybe_mark_running_runs w2) as (w3 & E3 & El3 & []) end;
    erewrite run_bind by exact E3; (eexists; split; [reflexivity|]);
    rewrite El3; (split; [by apply Hsave|by split]).
  - assert (forall A (x y : A), match l_state l1 with LClaimed | LReady => x | _ => y end = y) as Hm
      by (intros; by destruct (l_state l1)).
    rewrite !Hm. destruct (bool_decide (r_state (w_run w) = Paused)).
    + run. eexists. split; [reflexivity|]. rewrite promote_ready_noop by done.
      rewrite Hsave by done. done.
    + destruct (l_share l1 !! RETARGET_MARKER); run; (eexists; split; [reflexivity|]).
      * destruct (clear_retarget_frame l1) as (E1 & _ & E3). rewrite E3.
        assert (match l_state l1 with
                | LClaimed | LReady => set_lstate LRunning (clear_retarget l1)
                | _ => clear_retarget l1
                end = clear_retarget l1) as -> by (by destruct (l_state l1)).
        rewrite Hsave by congruence. done.
      * rewrite promote_ready_noop by done. rewrite Hsave by done. done.
Qed.

Lemma command_spec_ext run l1 l2 pv :
  l_state l1 = l_state l2 -> public_share (l_share l1) = public_share (l_share l2) ->
  l_share l1 !! RETARGET_MARKER = l_share l2 !! RETARGET_MARKER ->
  command_spec run l1 pv = command_spec run l2 pv.
Proof. intros E1 E2 E3. unfold command_spec. by rewrite E1, E2, E3. Qed.

Lemma lease_after_frame run l pv now (l' := lease_after run l pv now) :
  l_slot l' = l_slot l /\ l_id l' = l_id l /\ l_holder l' = l_holder l
  /\ l_last_heartbeat_at l' = l_last_heartbeat_at l /\ l_state l' = state_spec run l pv now
  /\ public_share (l_share l') = public_share (l_share l)
  /\ l_share l' !! RETARGET_MARKER
     = match command_spec run l pv with Retarget _ => None | _ => l_share l !! RETARGET_MARKER end.
Proof.
  subst l'. unfold lease_after, state_spec.
  assert (forall t0, l_slot (recover t0 l) = l_slot l /\ l_id (recover t0 l) = l_id l
    /\ l_holder (recover t0 l) = l_holder l
    /\ l_last_heartbeat_at (recover t0 l) = l_last_heartbeat_at l
    /\ l_state (recover t0 l) = heard t0 (l_state l) /\ l_share (recover t0 l) = l_share l) as Hr.
  { intros t0. rewrite recover_state, recover_share. unfold recover. by destruct (in_state _ _). }
  destruct (Hr (r_t0 run)) as (E1 & E2 & E3 & E4 & E5 & E6).
  destruct (command_spec run l pv); [by rewrite E6|done|done|by rewrite E6|..].
  - destruct (_ <=? _); cbn; by rewrite ?E6.
  - rewrite clear_retarget_public, clear_retarget_flag, E6. unfold clear_retarget.
    destruct (l_share (recover _ l) !! _); done.
Qed.

Definition body (p : pydict) : pydict := delete "_bearer" p.
Definition version (p : pydict) : pyval := dget_or (body p) "protocol_version" (VInt 1).

Lemma record_heartbeat_runs (w : W) slot l p :
  lease_wf w -> w_leases w !! slot = Some l ->
  exists w' r l', record_heartbeat slot (Some (l_id l)) p w = (w', Ok r)
    /\ rp_command r = command_spec (w_run w) l (version p)
    /\ rp_paused_s r = (if (0 <? paused_seconds (w_run w) (w_now w))
                           && negb (match rp_command r with Drain | Superseded => true | _ => false end)
                        then Some (py_round 3 (seconds (paused_seconds (w_run w) (w_now w)))) else None)
    /\ w_leases w' = <[ slot := l' ]> (w_leases w)
    /\ l_slot l' = slot /\ l_id l' = l_id l /\ l_holder l' = l_holder l
    /\ l_last_heartbeat_at l' = Some (w_now w)
    /\ l_state l' = state_spec (w_run w) l (version p) (w_now w)
    /\ public_share (l_share l') = public_share (l_share l)
    /\ l_share l' !! RETARGET_MARKER
       = match rp_command r with Retarget _ => None | _ => l_share l !! RETARGET_MARKER end
    /\ w_samples w' = w_samples w ++ [build_metric_sample slot (w_now w) (body p)].
Proof.
  intros Hw Hl. pose proof (lease_index _ _ _ Hw Hl) as Hsl.
  unfold record_heartbeat, find_lease. fold (body p). run.
  rewrite lookup_slot_index, Hl by done. cbn [is_lease_holder].
  rewrite bool_decide_eq_true_2 by done. cbn [negb]. unfold utcnow, save, on_lease. run.
  set (l1 := store_assigned_work _ _ _). set (l2 := store_engine_report _ l1).
  destruct (store_work_frame repr_float (body p) (set_heartbeat (w_now w) l)) as (E1 & E2 & E3 & E4 & E5).
  fold l1 in E1, E2, E3, E4, E5. cbn in E1, E2, E3, E4, E5.
  destruct (store_report_frame (body p) l1) as (F1 & F2 & F3 & F4 & F5).
  fold l2 in F1, F2, F3, F4, F5.
  assert (public_share (l_share l2) = public_share (l_share l)) as Hpub.
  { subst l2. rewrite store_engine_report_public. subst l1. by rewrite store_assigned_work_public. }
  assert (l_share l2 !! RETARGET_MARKER = l_share l !! RETARGET_MARKER) as Hmark.
  { subst l2. rewrite store_report_marker. subst l1. by rewrite store_work_marker. }
  set (w1 := with_samples _ _).
  assert (exists w2, when (truthy (dget (body p) "auth_failed"))
            (append_event "hec_auth_failed" [("slot", jint (Z.of_nat slot))] "agent") w1 = (w2, Ok tt)
          /\ w_leases w2 = w_leases w1 /\ w_samples w2 = w_samples w1 /\ w_run w2 = w_run w
          /\ w_now w2 = w_now w) as (w2 & Ew2 & G1 & G2 & G3 & G4).
  { destruct (truthy _); eexists; split; [reflexivity|done|reflexivity|done]. }
  erewrite run_bind by exact Ew2.
  assert (w_leases w2 = upd_lease slot (fun _ => l2) (w_leases w)) as El2.
  { rewrite G1. subst w1. cbn. by rewrite F1, E1, <- Hsl. }
  assert (l_slot l2 = slot) as Esl by congruence.
  destruct (heartbeat_command_runs l2 (version p) (w_now w) w2) as (w3 & Ew3 & El3 & [K1 K2 K3 K4 K5 K6]).
  { rewrite El2, Esl. by apply upd_lease_twice. }
  fold (version p). erewrite run_bind by exact Ew3. run.
  rewrite G3 in Ew3, El3. rewrite G3, (command_spec_ext (w_run w) l2 l) by (try done; cbn; congruence).
  rewrite El2, Esl, upd_lease_twice in El3 by done.
  destruct (lease_after_frame (w_run w) l2 (version p) (w_now w)) as (L1 & L2 & L3 & L4 & L5 & L6 & L7).
  set (l3 := lease_after _ _ _ _) in *.
  assert (command_spec (w_run w) l2 (version p) = command_spec (w_run w) l (version p)) as Ec
    by (apply command_spec_ext; [cbn in *; congruence|done|done]).
  assert (paused_seconds (w_run w3) (w_now w) = paused_seconds (w_run w) (w_now w)) as Ep.
  { unfold paused_seconds. by rewrite K3, K4, G3. }
  eexists w3, _, l3. split; [reflexivity|]. cbn [rp_command rp_paused_s]. rewrite Ep.
  split; [done|]. split; [done|].
  split.
  { rewrite El3, upd_lease_alter by done. apply list_eq. intros i.
    destruct (decide (slot = i)) as [<-|Hne].
    - rewrite list_lookup_alter_eq, Hl, list_lookup_insert_eq; [done|]. by eapply lookup_lt_Some.
    - by rewrite list_lookup_alter_ne, list_lookup_insert_ne. }
  split; [congruence|]. split; [cbn in *; congruence|]. split; [cbn in *; congruence|].
  split; [cbn in *; congruence|]. split.
  { rewrite L5. unfold state_spec. rewrite Ec. cbn in *. by rewrite F3, E3. }
  split; [congruence|]. split; [by rewrite L7, Ec, Hmark|].
  rewrite K1, G2. done.
Qed.

Lemma command_documented run l pv :
  run_inv run ->
  (joins_paused run l = false -> command_spec run l pv = documented_command run l pv)
  /\ (joins_paused run l = true -> supported pv = true ->
      exists t0, r_t0 run = Some t0 /\ command_spec run l pv = Release t0).
Proof.
  intros Hi. unfold joins_paused, command_spec, documented_command.
  destruct (decide (r_state run = Paused)) as [Ep|Hp].
  - destruct (ri_released _ Hi) as [t0 Et]; [auto|].
    rewrite Ep, Et. cbn. destruct (supported pv), (l_state l); cbn; split; intros; try done; eauto.
  - rewrite (bool_decide_eq_false_2 (r_state run = Paused)) by done. split; [|done]. intros _.
    destruct (_ || _ || _); [done|]. by destruct (r_t0 run), (l_state l), (l_share l !! _).
Qed.


Lemma release_only_before_running run l pv t :
  command_spec run l pv = Release t -> r_t0 run = Some t /\ (l_state l = LClaimed \/ l_state l = LReady).
Proof.
  unfold command_spec. destruct (_ || _ || _); [done|].
  destruct (r_t0 run) as [t0|]; destruct (l_state l); cbn;
    try (intros [= <-]; auto; fail); repeat case_match; done.
Qed.

Lemma retarget_needs_marker run l pv s :
  command_spec run l pv = Retarget s ->
  is_Some (l_share l !! RETARGET_MARKER) /\ s = public_share (l_share l).
Proof.
  unfold command_spec. destruct (_ || _ || _); [done|].
  repeat case_match; try done; intros [= <-]; eauto.
Qed.

(** [release] is told until T0 has passed, then never again on that lease;
    and a changed share is pushed exactly once, as the stored public share.  So
    after such an answer the worker's next heartbeat, however much later, is
    answered something else. *)
Theorem commands_told_once (w w1 w2 : W) slot l p p2 r1 r2 d :
  Inv w -> w_leases w !! slot = Some l ->
  record_heartbeat slot (Some (l_id l)) p w = (w1, Ok r1) ->
  record_heartbeat slot (Some (l_id l)) p2 (wait d w1) = (w2, Ok r2) ->
  (forall t, rp_command r1 = Release t -> t <= w_now w -> forall t', rp_command r2 <> Release t')
  /\ (forall s, rp_command r1 = Retarget s ->
        s = public_share (l_share l) /\ forall s', rp_command r2 <> Retarget s').
Proof.
  intros Hi Hl E1 E2. pose proof (inv_leases _ Hi) as Hw.
  destruct (record_heartbeat_runs w slot l p Hw Hl)
    as (w' & r & l' & E & Hc & _ & Els & Hsl & Hid & _ & _ & Hst & _ & Hm & _).
  rewrite E1 in E. injection E as <- <-.
  assert (lease_wf (wait d w1)) as Hw1.
  { pose proof (sound_record_heartbeat slot (Some (l_id l)) p w Hi) as Hs. rewrite E1 in Hs.
    destruct Hs as [[_ Hw1] _]. eapply lease_wf_ext; [..|exact Hw1]; done. }
  assert (w_leases (wait d w1) !! slot = Some l') as Hl'.
  { cbn. rewrite Els. apply list_lookup_insert_eq. by eapply lookup_lt_Some. }
  rewrite <- Hid in E2.
  destruct (record_heartbeat_runs (wait d w1) slot l' p2 Hw1 Hl')
    as (w'' & r & l'' & E & Hc2 & _). rewrite E2 in E. injection E as <- <-.
  split.
  - intros t Hr Hle t' Hr'. rewrite Hc2 in Hr'. apply release_only_before_running in Hr' as [_ Hs].
    rewrite Hst in Hs. unfold state_spec in Hs. rewrite <- Hc, Hr in Hs.
    rewrite (proj2 (Z.leb_le _ _) Hle) in Hs. by destruct Hs.
  - intros s' Hr. rewrite Hc in Hr. apply retarget_needs_marker in Hr as Hr2.
    split; [apply Hr2|]. intros s2 Hr'. rewrite Hc2 in Hr'.
    apply retarget_needs_marker in Hr' as [[v Hv] _]. rewrite Hm, Hc, Hr in Hv. done.
Qed.

(** ** Final *)

Lemma maybe_complete_totals (w w' : W) b :
  maybe_complete_run w = (w', b) -> r_totals (w_run w') = r_totals (w_run w) /\ w_leases w' = w_leases w.
Proof.
  unfold maybe_complete_run, append_event, transition_run. run.
  destruct (terminal _); [by intros [= <- _]|]. destruct (negb _); [by intros [= <- _]|].
  destruct (bool_decide _); run; intros [= <- _]; rewrite w_run_transition, transition_leases;
    unfold run_after; rewrite terminal_state_for_terminal; done.
Qed.

(** A final for a lease that is done changes no totals. *)
Lemma final_done_totals (w : W) slot l s tail lid :
  lease_wf w -> w_leases w !! slot = Some l -> l_state l = LDone ->
  r_totals (w_run (fst (record_final slot s tail lid w))) = r_totals (w_run w).
Proof.
  intros Hw Hl Hd. unfold record_final, find_lease. run. rewrite lookup_slot_index, Hl by done.
  destruct (match lid with Some _ => _ | None => _ end); [done|].
  assert (in_state LDone l = true) as -> by (by apply bool_decide_eq_true).
  unfold save, on_lease. cbn [negb]. run.
  set (w1 := with_leases _ w). destruct (maybe_complete_run w1) as [w2 b] eqn:Ec.
  destruct (maybe_complete_totals _ _ _ Ec) as [Et _].
  unfold mbind, M_bind. rewrite Ec. by destruct b.
Qed.

(** a final folds its summary into the run's totals, key by key, and
    finalises the lease; a repeated final of that slot, whatever it carries,
    leaves the totals as they are. *)
Theorem final_folds_once (w w1 : W) slot l s tail :
  Inv w -> w_leases w !! slot = Some l -> l_state l <> LDone ->
  record_final slot s tail (Some (l_id l)) w = (w1, Ok tt) ->
  fold_summary (r_totals (w_run w)) s = Ok (r_totals (w_run w1))
  /\ (exists l1, w_leases w1 !! slot = Some l1 /\ l_state l1 = LDone)
  /\ forall s2 tail2 lid, r_totals (w_run (fst (record_final slot s2 tail2 lid w1))) = r_totals (w_run w1).
Proof.
  intros Hi Hl Hnd E0. pose proof (inv_leases _ Hi) as Hw.
  pose proof (lease_index _ _ _ Hw Hl) as Hsl.
  assert (lease_wf w1) as Hw1.
  { pose proof (sound_record_final slot s tail (Some (l_id l)) w Hi) as Hs. rewrite E0 in Hs.
    apply Hs. }
  revert E0. unfold record_final at 1, find_lease. run. rewrite lookup_slot_index, Hl by done.
  cbn [is_lease_holder]. rewrite bool_decide_eq_true_2 by done. cbn [negb].
  assert (in_state LDone l = false) as Hd by (by apply bool_decide_eq_false). rewrite Hd.
  unfold save, on_lease, fold_totals, append_event, on_run. run.
  change (r_totals (w_run (with_leases _ w))) with (r_totals (w_run w)).
  destruct (fold_summary (r_totals (w_run w)) s) as [totals|e] eqn:Ef; run; [|done].
  set (w2 := push_event _ _ _ _).
  destruct (maybe_complete_run w2) as [w3 b] eqn:Ec.
  destruct (maybe_complete_totals _ _ _ Ec) as [Et El].
  unfold mbind, M_bind. rewrite Ec. destruct b; [|done]. intros [= ->].
  set (l2 := set_lstate LDone (set_log_tail tail l)).
  assert (w_leases w2 = upd_lease slot (fun _ => l2) (w_leases w)) as El2.
  { transitivity (upd_lease (l_slot l) (fun _ => l2)
      (upd_lease (l_slot l) (fun _ => set_log_tail tail l) (w_leases w))); [done|].
    rewrite Hsl. by apply upd_lease_twice. }
  assert (w_leases w1 !! slot = Some l2) as Hl1.
  { rewrite El, El2. by apply (upd_lease_lookup w slot (fun _ => l2) l). }
  split; [by rewrite Et|]. split; [eauto|]. intros s2 tail2 lid.
  by apply final_done_totals with l2.
Qed.
End Heartbeat.

(** ** Witnesses *)

Definition beat : pydict := {[ "events_total" := VInt 10 ]}.
Definition demo_slot (w : world FakeDriver) (i : nat) : WorkerLease :=
  default (free_lease 0 ∅ "") (w_leases w !! i).

(** Three seconds after the release command: T0 has passed. *)
Definition demo_t0 : world FakeDriver := wait 3000000 demo_released.

Lemma demo_t0_inv : Inv demo_t0.
Proof. apply (perform_sound (AWait 3000000)), demo_released_inv. Qed.


Definition response_of (r : result response) : response :=
  match r with Ok r => r | Raise _ => mkResponse Drain None None end.

Definition demo_beat1 := record_heartbeat 0 (Some "le_4") beat demo_t0.
Definition demo_beat2 := record_heartbeat 0 (Some "le_4") beat (wait 5000000 (fst demo_beat1)).

Lemma commands_told_once_witness :
  (forall t, rp_command (response_of (snd demo_beat1)) = Release t -> t <= w_now demo_t0 ->
     forall t', rp_command (response_of (snd demo_beat2)) <> Release t')
  /\ (forall s, rp_command (response_of (snd demo_beat1)) = Retarget s ->
        s = public_share (l_share (demo_slot demo_t0 0))
        /\ forall s', rp_command (response_of (snd demo_beat2)) <> Retarget s').
Proof.
  apply (commands_told_once demo_t0 (fst demo_beat1) (fst demo_beat2) 0 (demo_slot demo_t0 0)
           beat beat (response_of (snd demo_beat1)) (response_of (snd demo_beat2)) 5000000).
  - apply demo_t0_inv.
  - vm_compute. reflexivity.
  - vm_compute. reflexivity.
  - vm_compute. reflexivity.
Defined.

Example demo_beats :
  rp_command (response_of (snd demo_beat1)) = Release 1002000000
  /\ rp_command (response_of (snd demo_beat2)) = Continue.
Proof. vm_compute. done. Qed.

Definition demo_summary : list (string * pyval) := [("events_total", VInt 5000); ("reason", VStr "drain")].
Definition demo_final := record_final 0 demo_summary [] (Some "le_4") demo_t0.

Lemma final_folds_once_witness :
  fold_summary (r_totals (w_run demo_t0)) demo_summary = Ok (r_totals (w_run (fst demo_final)))
  /\ (exists l1, w_leases (fst demo_final) !! 0%nat = Some l1 /\ l_state l1 = LDone)
  /\ forall s2 tail2 lid,
       r_totals (w_run (fst (record_final 0 s2 tail2 lid (fst demo_final))))
       = r_totals (w_run (fst demo_final)).
Proof.
  apply (final_folds_once demo_t0 (fst demo_final) 0 (demo_slot demo_t0 0) demo_summary []).
  - apply demo_t0_inv.
  - vm_compute. reflexivity.
  - vm_compute. discriminate.
  - vm_compute. reflexivity.
Defined.
