(* ===== verification/Completion.v ===== *)
(** * How a run ends

    Completion, the forced stop, the drain that always finishes, and the two
    places where the recorded outcome is not what the code's comments say. *)

From S2P Require Import Prelude.
From S2P Require Import PyFloat.
From S2P Require Import PyValue.
From S2P Require Import Apportion.
From S2P Require Import Driver.
From S2P Require Import Model.
From S2P Require Import Shares.
From S2P Require Import Session.
From S2P Require Import Protocol.
From S2P Require Import Operators.
From S2P Require Import Provision.
From S2P Require Import Scenario.
From S2P Require Import Supervisor.
From S2P Require Import Invariants.
From S2P Require Import Soundness.
From S2P Require Import Updates.
From S2P Require Import Launch.
From S2P Require Import Trace.
From S2P Require Import Release.
From S2P Require Import Heartbeat.
From Stdlib Require Import QArith.
Open Scope Z_scope.

Section Completion.
Context {D : Type} `{Env D}.
Abbreviation W := (world D).

(** The world after a completion. *)
Definition completed (w : W) : W :=
  let run := w_run w in
  let leases := w_leases w in
  let term := terminal_state_for run (r_end_reason run) leases in
  let end_reason := or_reason (r_end_reason run) (default_end_reason term leases run) in
  let detail := [("done", jint (count (in_state LDone) leases));
                 ("lost", jint (count (in_state LLost) leases))] in
  let no_events := bool_decide (end_reason = "no-events") in
  transition_world term
    (if no_events then detail ++ [("events_total", jint 0)] else detail) "system"
    (Some end_reason)
    (if no_events then push_event "no_events" [("message", jstr "delivered no events")] "system" w
     else w).

Lemma maybe_complete_run_eq (w : W) :
  maybe_complete_run w
  = if negb (terminal (r_state (w_run w))) && completable (r_state (w_run w)) (w_leases w)
    then (completed w, Ok true) else (w, Ok false).
Proof.
  unfold maybe_complete_run, completed, append_event, transition_run. run.
  destruct (terminal _); cbn [negb andb]; [done|].
  destruct (completable _ _); cbn [negb]; [|done]. destruct (bool_decide _); run; done.
Qed.

Lemma completed_run (w : W) :
  w_run (completed w)
  = run_after (terminal_state_for (w_run w) (r_end_reason (w_run w)) (w_leases w))
      (Some (or_reason (r_end_reason (w_run w))
               (default_end_reason (terminal_state_for (w_run w) (r_end_reason (w_run w)) (w_leases w))
                  (w_leases w) (w_run w))))
      (w_now w) (w_run w).
Proof. unfold completed. rewrite w_run_transition. by destruct (bool_decide _). Qed.

Lemma completed_leases (w : W) : w_leases (completed w) = w_leases w.
Proof. unfold completed. rewrite transition_leases. by destruct (bool_decide _). Qed.

Lemma run_after_state n e now r : r_state (run_after n e now r) = n.
Proof. unfold run_after. destruct e, (terminal n); done. Qed.

Lemma completable_facts s ls :
  completable s ls = true ->
  (forall l, l ∈ ls -> live (l_state l) = false)
  /\ (exists l, l ∈ ls /\ (l_state l = LDone \/ l_state l = LLost))
  /\ (s = Draining \/ exists l, l ∈ ls /\ l_state l = LDone).
Proof.
  intros Hc. assert (negb (existsb is_live ls) = true
    /\ existsb (fun l => in_state LDone l || in_state LLost l) ls = true
    /\ bool_decide (s = Draining) || existsb (in_state LDone) ls = true) as (H1 & H2 & H3).
  { destruct s; cbn [completable] in Hc; try done;
      apply andb_true_iff in Hc as [Hc H3]; apply andb_true_iff in Hc as [Hc H2];
      apply andb_true_iff in Hc as [_ H1]; auto. }
  apply negb_true_iff in H1. rewrite existsb_false in H1. split; [exact H1|].
  apply existsb_true in H2 as (l & Hin & Hl). apply orb_true_iff in Hl. unfold in_state in Hl.
  rewrite !bool_decide_eq_true in Hl. split; [eauto|].
  apply orb_true_iff in H3 as [H3|H3]; [left; by apply bool_decide_eq_true in H3|right].
  apply existsb_true in H3 as (l' & Hin' & Hl'). apply bool_decide_eq_true in Hl'. eauto.
Qed.

Lemma run_after_ended n e now r :
  terminal n = true -> r_ended_at (run_after n e now r) = Some (default now (r_ended_at r)).
Proof. intros Ht. unfold run_after. rewrite Ht. by destruct e. Qed.

(** A draining run whose leases are all final can complete. *)
Lemma completable_final (w : W) :
  w_leases w <> [] -> (forall l, l ∈ w_leases w -> l_state l = LDone \/ l_state l = LLost) ->
  r_state (w_run w) = Draining -> completable (r_state (w_run w)) (w_leases w) = true.
Proof.
  intros Hne Hall Hs. rewrite Hs. unfold completable. rewrite !andb_true_iff, orb_true_iff. repeat split.
  - by apply negb_true_iff, bool_decide_eq_false.
  - apply negb_true_iff, existsb_false. intros l Hin. unfold is_live.
    destruct (Hall l Hin) as [-> | ->]; done.
  - destruct (w_leases w) as [|l ls]; [done|]. apply existsb_true. exists l.
    split; [set_solver|]. unfold in_state. destruct (Hall l) as [-> | ->]; [set_solver|done|done].
  - by left.
Qed.

(** C13: a run that completes has no live lease left, and one lease that
    resolved; a run that is not draining has a lease that finished.  It ends
    [completed] only if it delivered events and some worker finished cleanly,
    and [stopped] only after an operator stop. *)
Theorem completion_is_justified (w w' : W) :
  maybe_complete_run w = (w', Ok true) ->
  terminal (r_state (w_run w')) = true
  /\ (forall l, l ∈ w_leases w' -> live (l_state l) = false)
  /\ (r_state (w_run w) = Draining \/ exists l, l ∈ w_leases w' /\ l_state l = LDone)
  /\ (r_state (w_run w') = Completed ->
        delivered_events (w_run w) <> 0 /\ exists l, l ∈ w_leases w' /\ l_state l = LDone)
  /\ (r_state (w_run w') = Stopped -> r_end_reason (w_run w) = Some "operator-stop").
Proof.
  rewrite maybe_complete_run_eq. destruct (negb _ && _) eqn:E; [|done]. intros [= <-].
  apply andb_true_iff in E as [_ Hc]. apply completable_facts in Hc as (H1 & H2 & H3).
  rewrite completed_run, completed_leases, run_after_state.
  split; [apply terminal_state_for_terminal|]. split; [done|]. split; [done|].
  unfold terminal_state_for. split.
  - destruct (reason_in _ FAILED_REASONS); [done|]. destruct (reason_in _ STOPPED_REASONS); [done|].
    destruct (some_lost_none_done (w_leases w)) eqn:Hs; [done|].
    destruct (Z.eqb_spec (delivered_events (w_run w)) 0); [done|]. intros _. split; [done|].
    destruct H2 as (l & Hin & [Hl|Hl]); [eauto|].
    apply andb_false_iff in Hs as [Hs|Hs].
    + rewrite existsb_false in Hs. apply Hs in Hin. unfold in_state in Hin.
      by rewrite bool_decide_eq_true_2 in Hin.
    + apply negb_false_iff, existsb_true in Hs as (l' & ? & Hl'). apply bool_decide_eq_true in Hl'.
      eauto.
  - destruct (reason_in _ FAILED_REASONS); [done|].
    destruct (reason_in (r_end_reason (w_run w)) STOPPED_REASONS) eqn:Hs.
    + intros _. destruct (r_end_reason (w_run w)) as [r|]; [|done]. cbn in Hs.
      apply bool_decide_eq_true in Hs. by assert (r = "operator-stop") as -> by set_solver.
    + repeat case_match; done.
Qed.

(** losing contact does not end a run: while it is releasing, running or
    paused and no worker has finished, completion changes nothing, however many
    leases are lost. *)
Theorem lost_leases_do_not_end_run (w : W) :
  r_state (w_run w) <> Draining -> (forall l, l ∈ w_leases w -> l_state l <> LDone) ->
  maybe_complete_run w = (w, Ok false).
Proof.
  intros Hs Hd. rewrite maybe_complete_run_eq. destruct (negb _ && _) eqn:E; [|done].
  apply andb_true_iff in E as [_ Hc]. apply completable_facts in Hc as (_ & _ & [?|(l & Hin & Hl)]);
    [done|]. by destruct (Hd l Hin).
Qed.

(** a run that reached its duration and delivered nothing fails, but it
    keeps the end reason ["duration-complete"]: the reason ["no-events"] and its
    log entry are reserved to runs that end without a reason of their own. *)
Theorem empty_bounded_run_keeps_reason (w : W) :
  r_state (w_run w) = Draining -> r_end_reason (w_run w) = Some "duration-complete" ->
  completable (r_state (w_run w)) (w_leases w) = true -> delivered_events (w_run w) = 0 ->
  exists w', maybe_complete_run w = (w', Ok true)
    /\ r_state (w_run w') = Failed /\ r_end_reason (w_run w') = Some "duration-complete"
    /\ exists e, w_events w' = w_events w ++ [e] /\ ev_kind e = "state".
Proof.
  intros Hs Hr Hc Hd. rewrite maybe_complete_run_eq, Hc, Hs. eexists. split; [reflexivity|].
  assert (terminal_state_for (w_run w) (Some "duration-complete") (w_leases w) = Failed) as Ht.
  { unfold terminal_state_for. rewrite Hd. cbn. by destruct (some_lost_none_done _). }
  rewrite completed_run, Hr, Ht, run_after_state. split; [done|]. split; [done|].
  unfold completed. rewrite Hr, Ht. 
  change (bool_decide (or_reason (Some "duration-complete") _ = "no-events")) with false.
  rewrite transition_events by (rewrite Hs; done). eexists. split; [reflexivity|]. done.
Qed.

(** ** Forced stop *)

(** Effects outside the run's rows: driver calls and audit events. *)
Record quiet (w w' : W) : Prop := mkQuiet {
  qu_run : w_run w' = w_run w;
  qu_leases : w_leases w' = w_leases w;
  qu_samples : w_samples w' = w_samples w;
  qu_now : w_now w' = w_now w;
  qu_drain : last_state_ts (w_events w') Draining = last_state_ts (w_events w) Draining;
}.

Global Instance quiet_preorder : PreOrder quiet.
Proof. split; [done|]. intros w1 w2 w3 [] []. split; congruence. Qed.

Lemma last_state_ts_snoc es e s :
  ev_kind e <> "state" -> last_state_ts (es ++ [e]) s = last_state_ts es s.
Proof.
  intros He. unfold last_state_ts. rewrite List.filter_app. cbn. unfold enters at 2.
  rewrite bool_decide_eq_false_2 by done. cbn. by rewrite app_nil_r.
Qed.

Lemma quiet_push_event k d a (w : W) : k <> "state" -> quiet w (push_event k d a w).
Proof. intros Hk. split; cbn; try done. by apply last_state_ts_snoc. Qed.

Lemma quiet_call {A} oid (op : D -> D * result A) (w : W) : transits quiet (call oid op) w.
Proof.
  unfold transits, call. destruct (_ !! oid) as [d|]; [|cbn; reflexivity].
  by destruct (op d).
Qed.

Lemma quiet_driver_call oid (op : D -> D * result unit) name (w : W) :
  returns quiet (catch (call oid op) (driver_error name)) w.
Proof.
  apply (returns_catch _); [apply quiet_call|]. intros e w' _ _.
  unfold driver_error, append_event. by apply (returns_modify_last _), quiet_push_event.
Qed.

Lemma add_sample_dom s t t' k : add_sample s t = Ok t' -> is_Some (t !! k) -> is_Some (t' !! k).
Proof.
  unfold add_sample. revert t. generalize LIVE_TOTAL_KEYS as ks.
  induction ks as [|kc ks IH]; intros t; cbn; [by intros [= <-]|].
  destruct (kc.2 s) as [v|]; [|apply IH]. unfold mbind, result_bind.
  destruct (py_add _ _) as [v'|e].
  - intros E Hk. eapply IH; [exact E|]. rewrite lookup_insert. by case_decide.
  - intros E. exfalso. clear IH. induction ks as [|kc' ks IH]; cbn in E; [done|auto].
Qed.

Lemma live_totals_raise (ls : list WorkerLease) ss e : foldl (live_step ss) (Raise e) ls = Raise e.
Proof. induction ls; cbn [foldl]; auto. Qed.

Lemma live_totals_dom ls ss t t' k : live_totals t ls ss = Ok t' -> is_Some (t !! k) -> is_Some (t' !! k).
Proof.
  unfold live_totals. revert t. induction ls as [|l ls IH]; intros t; cbn [foldl]; [by intros [= <-]|].
  unfold live_step at 2. unfold mbind, result_bind. destruct (bool_decide _); [apply IH|].
  destruct (newest_sample _ _) as [s|]; [|apply IH].
  destruct (add_sample s t) as [t1|e] eqn:Ea.
  - intros E Hk. eapply IH; [exact E|]. by eapply add_sample_dom.
  - rewrite live_totals_raise. done.
Qed.

(** The totals after [_fold_heartbeat_totals]. *)
Definition folded (live totals : pydict) : pydict :=
  foldl (fun t kc => match live !! kc.1 with Some v => <[ kc.1 := v ]> t | None => t end)
    totals LIVE_TOTAL_KEYS.

Definition keep_live (live : pydict) (t : pydict) (kc : string * (MetricSample -> option Z)) : pydict :=
  match live !! kc.1 with Some v => <[ kc.1 := v ]> t | None => t end.

Lemma keep_live_lookup live k ks : forall t : pydict,
  foldl (keep_live live) t ks !! k
  = if bool_decide (k ∈ List.map fst ks)
    then match live !! k with Some v => Some v | None => t !! k end else t !! k.
Proof.
  induction ks as [|kc ks IH]; intros t; [done|]. cbn [foldl List.map]. rewrite IH. unfold keep_live.
  destruct (decide (kc.1 = k)) as [<-|Hne].
  - rewrite (bool_decide_eq_true_2 (kc.1 ∈ kc.1 :: _)) by set_solver.
    destruct (live !! kc.1); case_bool_decide; try done. apply lookup_insert_eq.
  - assert ((match live !! kc.1 with Some v => <[ kc.1 := v ]> t | None => t end) !! k = t !! k) as ->.
    { destruct (live !! kc.1); [by rewrite lookup_insert_ne|done]. }
    destruct (decide (k ∈ List.map fst ks)).
    + rewrite !bool_decide_eq_true_2 by set_solver. done.
    + rewrite !bool_decide_eq_false_2 by set_solver. done.
Qed.

Lemma folded_lookup live totals k :
  k ∈ List.map fst LIVE_TOTAL_KEYS -> (is_Some (totals !! k) -> is_Some (live !! k)) ->
  folded live totals !! k = live !! k.
Proof.
  intros Hk Hdom. change (folded live totals) with (foldl (keep_live live) totals LIVE_TOTAL_KEYS).
  rewrite keep_live_lookup, bool_decide_eq_true_2 by done. destruct (live !! k) eqn:El; [done|].
  destruct (totals !! k) eqn:Et; [|done]. destruct Hdom as [? ?]; [eauto|done].
Qed.

(** a forced stop of a run that is not over ends it there and then as
    [stopped], with every lease done or lost and its end instant stamped; and
    for every counter the totals now hold what the live view showed before it
    (the finals already folded plus the latest heartbeat of each other slot). *)
Theorem force_stop_ends_run (w : W) drv actor live_view :
  Inv w -> terminal (r_state (w_run w)) = false -> w_leases w <> [] ->
  live_totals (r_totals (w_run w)) (w_leases w) (w_samples w) = Ok live_view ->
  exists w', stop_run drv true actor w = (w', Ok tt)
    /\ r_state (w_run w') = Stopped /\ r_ended_at (w_run w') = Some (w_now w)
    /\ (forall l, l ∈ w_leases w' -> l_state l = LDone \/ l_state l = LLost)
    /\ (forall k, k ∈ List.map fst LIVE_TOTAL_KEYS -> r_totals (w_run w') !! k = live_view !! k).
Proof.
  intros Hi Ht Hne Hlive. unfold stop_run. run. rewrite Ht.
  erewrite run_bind by apply end_pause_eq. unfold transition_run. run.
  set (w1 := transition_world _ _ _ _ _).
  assert (w_run w1 = run_after Draining (Some "operator-stop") (w_now w) (close_pause (w_now w) (w_run w)))
    as Er1 by apply w_run_transition.
  assert (w_leases w1 = w_leases w /\ w_samples w1 = w_samples w /\ w_now w1 = w_now w) as (El1 & Es1 & En1).
  { pose proof (transition_frame Draining [("force", jbool true)] actor (Some "operator-stop")
      (with_run (close_pause (w_now w)) w)) as (E1 & E2 & _ & E4 & _). fold w1 in E1, E2, E4. done. }
  match goal with |- context [(?m ≫= _) w1] => assert (returns quiet m w1) as Hq end.
  { destruct (driver_ref_of (w_run w)) as [ref|]; [|by apply (returns_ret _)].
    apply (returns_bind _); [apply quiet_driver_call|]. intros [] w2 _ _. apply quiet_driver_call. }
  apply returns_inv in Hq as (w2 & [] & E2 & [Qr Ql Qs Qn _]). erewrite run_bind by exact E2. run.
  unfold fold_heartbeat_totals, on_run. run.
  assert (r_totals (w_run w2) = r_totals (w_run w)) as Etot.
  { rewrite Qr, Er1. unfold run_after, close_pause. by destruct (r_paused_at (w_run w)). }
  rewrite Etot, Ql, Qs, El1, Es1, Hlive. run. fold (folded live_view (r_totals (w_run w))).
  set (w3 := with_leases _ _).
  assert (w_run w3 = set_totals (folded live_view (r_totals (w_run w))) (w_run w1)) as Er3
    by (subst w3; cbn; by rewrite Qr).
  assert (w_leases w3 = (fun l => set_lstate (force_state (l_state l)) l) <$> w_leases w) as El3
    by (subst w3; cbn; by rewrite Ql, El1).
  assert (r_state (w_run w3) = Draining /\ r_end_reason (w_run w3) = Some "operator-stop"
          /\ r_ended_at (w_run w3) = None) as (Hst & Hre & Hend).
  { rewrite Er3, Er1. destruct (close_pause_frame (w_now w) (w_run w)) as (_ & _ & _ & _ & E5 & _).
    cbn. rewrite E5. repeat split. destruct (r_ended_at (w_run w)) eqn:Ee; [|done].
    assert (terminal (r_state (w_run w)) = true); [|congruence].
    apply (ri_ended _ (inv_run _ Hi)). eauto. }
  assert (forall l, l ∈ w_leases w3 -> l_state l = LDone \/ l_state l = LLost) as Hall.
  { rewrite El3. intros l Hin. apply list_elem_of_fmap in Hin as (l0 & -> & _). cbn.
    destruct (l_state l0); cbn; auto. }
  assert (w_leases w3 <> []) as Hne3 by (rewrite El3; by destruct (w_leases w)).
  pose proof (completable_final w3 Hne3 Hall Hst) as Hc.
  erewrite run_bind; [|rewrite maybe_complete_run_eq, Hc, Hst; reflexivity].
  eexists. split; [reflexivity|]. rewrite completed_run, completed_leases, Hre, run_after_state.
  assert (terminal_state_for (w_run w3) (Some "operator-stop") (w_leases w3) = Stopped) as Hterm
    by done.
  rewrite Hterm. split; [done|].
  assert (w_now w3 = w_now w) as En3 by (subst w3; cbn; congruence).
  split.
  { change (Some (default (w_now w3) (r_ended_at (w_run w3))) = Some (w_now w)). by rewrite Hend, En3. }
  split; [exact Hall|].
  intros k Hk. change (r_totals (w_run w3) !! k = live_view !! k). rewrite Er3. cbn [r_totals set_totals]. apply folded_lookup; [done|]. intros Hs.
  by eapply live_totals_dom.
Qed.
End Completion.

(** ** Witnesses *)

(** The fleet heartbeats after T0: the run is running. *)
Definition demo_running : world FakeDriver :=
  foldl (fun w a => perform a w) demo_t0
    [AHeartbeat 0 (Some "le_4") beat; AHeartbeat 1 (Some "le_5") beat;
     AHeartbeat 2 (Some "le_6") beat].

Lemma demo_running_inv : Inv demo_running.
Proof. eapply reachable_sound; [apply reachable_foldl|apply demo_t0_inv]. Qed.

(** Every worker of the running fleet finished, with 300 events delivered. *)
Definition demo_finished : world FakeDriver :=
  with_run (set_totals {[ "events_total" := VInt 300 ]})
    (with_leases (fmap (set_lstate LDone)) demo_running).

Lemma completion_is_justified_witness :
  let w' := fst (maybe_complete_run demo_finished) in
  terminal (r_state (w_run w')) = true
  /\ (forall l, l ∈ w_leases w' -> live (l_state l) = false)
  /\ (r_state (w_run demo_finished) = Draining \/ exists l, l ∈ w_leases w' /\ l_state l = LDone)
  /\ (r_state (w_run w') = Completed ->
        delivered_events (w_run demo_finished) <> 0 /\ exists l, l ∈ w_leases w' /\ l_state l = LDone)
  /\ (r_state (w_run w') = Stopped -> r_end_reason (w_run demo_finished) = Some "operator-stop").
Proof.
  apply (completion_is_justified demo_finished (fst (maybe_complete_run demo_finished))).
  vm_compute. reflexivity.
Defined.

Lemma all_lost_not_done (w : world FakeDriver) l :
  l ∈ w_leases (with_leases (fmap (set_lstate LLost)) w) -> l_state l <> LDone.
Proof. intros Hl. apply list_elem_of_fmap in Hl as (l0 & -> & _). discriminate. Qed.

(** The whole running fleet goes silent. *)
Definition demo_all_lost : world FakeDriver :=
  with_leases (fmap (set_lstate LLost)) demo_running.

Lemma lost_leases_do_not_end_run_witness :
  maybe_complete_run demo_all_lost = (demo_all_lost, Ok false).
Proof.
  apply (lost_leases_do_not_end_run demo_all_lost).
  - vm_compute. discriminate.
  - exact (all_lost_not_done demo_running).
Defined.

Definition demo_live : pydict :=
  match live_totals (r_totals (w_run demo_running)) (w_leases demo_running) (w_samples demo_running) with
  | Ok t => t
  | Raise _ => ∅
  end.

Lemma force_stop_ends_run_witness :
  exists w', stop_run 0 true "alice" demo_running = (w', Ok tt)
    /\ r_state (w_run w') = Stopped /\ r_ended_at (w_run w') = Some (w_now demo_running)
    /\ (forall l, l ∈ w_leases w' -> l_state l = LDone \/ l_state l = LLost)
    /\ (forall k, k ∈ List.map fst LIVE_TOTAL_KEYS -> r_totals (w_run w') !! k = demo_live !! k).
Proof.
  apply (force_stop_ends_run demo_running 0 "alice" demo_live).
  - apply demo_running_inv.
  - vm_compute. reflexivity.
  - vm_compute. discriminate.
  - vm_compute. reflexivity.
Defined.

(** ** Two recorded outcomes *)

(** Worker 0 reports ten events and goes silent; its lease lapses while the
    other two workers stay in contact; the run is then force-stopped. *)
Definition demo_lost_stopped : world FakeDriver :=
  foldl (fun w a => perform a w) demo_t0
    [AHeartbeat 0 (Some "le_4") beat; AWait 100000000;
     AHeartbeat 1 (Some "le_5") ∅; AHeartbeat 2 (Some "le_6") ∅;
     ATick (Some demo_drivers) 0; AStop 0 true "alice"].

Lemma demo_t0_reachable : reachable demo_run demo_t0.
Proof.
  transitivity demo_released; [unfold demo_released; apply reachable_foldl|].
  apply rtc_once. by exists (AWait 3000000).
Qed.

(** a forced stop folds the last heartbeat of a lost slot into the totals
    and leaves the lease lost, so the live view of the ended run, which adds
    the heartbeats of every lease that is not done, counts that slot twice: ten
    events are shown as twenty. *)
Theorem force_stop_counts_lost_slot_twice :
  reachable demo_run demo_lost_stopped
  /\ r_state (w_run demo_lost_stopped) = Stopped
  /\ (l_state <$> w_leases demo_lost_stopped) = [LLost; LDone; LDone]
  /\ r_totals (w_run demo_lost_stopped) !! "events_total" = Some (VInt 10)
  /\ (live_totals (r_totals (w_run demo_lost_stopped)) (w_leases demo_lost_stopped)
        (w_samples demo_lost_stopped)) ≫= (fun t => Ok (t !! "events_total"))
     = Ok (Some (VInt 20)).
Proof.
  split; [|vm_compute; auto]. etrans; [apply demo_t0_reachable|].
  unfold demo_lost_stopped. apply reachable_foldl.
Qed.

(** The duration passed, the drained workers finished and delivered nothing. *)
Definition demo_empty : world FakeDriver :=
  with_run (fun r => set_end_reason (Some "duration-complete") (set_state Draining r))
    (with_leases (fmap (set_lstate LDone)) demo_running).

Lemma empty_bounded_run_keeps_reason_witness :
  exists w', maybe_complete_run demo_empty = (w', Ok true)
    /\ r_state (w_run w') = Failed /\ r_end_reason (w_run w') = Some "duration-complete"
    /\ exists e, w_events w' = w_events demo_empty ++ [e] /\ ev_kind e = "state".
Proof.
  apply (empty_bounded_run_keeps_reason demo_empty); vm_compute; reflexivity.
Defined.
