(* ===== verification/Supervision.v ===== *)
(** * What one supervisor tick does

    When a silent lease is lost and when it is not, the duration end and how a
    pause moves it, the drain that always finishes, the auto-abort policies and
    the backpressure policy. *)

From S2P Require Import Prelude.
From S2P Require Import PyFloat.
From S2P Require Import PyValue.
From S2P Require Import Apportion.
From S2P Require Import Driver.
From S2P Require Import Model.
From S2P Require Import Shares.
From S2P Require Import Session.
From S2P Require Import Protocol.
From S2P Require Import Operators.
From S2P Require Import Provision.
From S2P Require Import Scenario.
From S2P Require Import Supervisor.
From S2P Require Import Invariants.
From S2P Require Import Soundness.
From S2P Require Import Updates.
From S2P Require Import Launch.
From S2P Require Import Trace.
From S2P Require Import Release.
From S2P Require Import Heartbeat.
From S2P Require Import Completion.
From Stdlib Require Import QArith.
Open Scope Z_scope.

Section Supervision.
Context {D : Type} `{Env D}.
Abbreviation W := (world D).

(** ** Lapse *)

(** A live lease out of contact for longer than the lapse window, the boot
    grace over. *)
Definition overdue (w : W) (boot_time : Z) (l : WorkerLease) : bool :=
  is_live l && (lapse_deadline (w_run w) boot_time l <? w_now w).

Lemma lapse_eq boot (w : W) :
  lease_wf w -> exists evs,
  lapse_stale_leases boot w
  = (with_events (fun es => es ++ evs)
       (with_leases (fmap (fun l => if overdue w boot l then set_lstate LLost l else l)) w), Ok tt)
  /\ length evs = length (List.filter (overdue w boot) (w_leases w))
  /\ Forall (fun e => ev_kind e = "lease_lost") evs.
Proof.
  intros Hw. unfold lapse_stale_leases. run. fold (overdue w boot).
  rewrite (lose_each (overdue w boot)) by done. eexists. split; [reflexivity|].
  split; [by rewrite length_fmap|]. apply Forall_fmap, Forall_true. done.
Qed.

(** the lapse check marks a lease lost exactly when its holder has been
    silent for more than the lapse window and the control plane has been up for
    more than the boot grace; one event is logged per lost lease; every other
    lease, the run and the samples are as they were. *)
Theorem lapse_exact (w : W) boot :
  Inv w ->
  exists w', lapse_stale_leases boot w = (w', Ok tt)
    /\ w_run w' = w_run w
    /\ (forall i l, w_leases w !! i = Some l -> exists l', w_leases w' !! i = Some l'
         /\ (live (l_state l) = true /\ last_contact (w_run w) boot l + LEASE_LAPSE < w_now w
             /\ boot + BOOT_GRACE < w_now w -> l' = set_lstate LLost l)
         /\ (live (l_state l) = false \/ w_now w <= last_contact (w_run w) boot l + LEASE_LAPSE
             \/ w_now w <= boot + BOOT_GRACE -> l' = l))
    /\ length (w_events w')
       = (length (w_events w) + length (List.filter (overdue w boot) (w_leases w)))%nat.
Proof.
  intros Hi. destruct (lapse_eq boot w (inv_leases _ Hi)) as (evs & E & Hlen & _).
  eexists. split; [exact E|]. split; [done|]. split; [|by cbn; rewrite length_app, Hlen].
  intros i l Hl. cbn. rewrite list_lookup_fmap, Hl. cbn. eexists. split; [reflexivity|].
  unfold overdue, is_live, lapse_deadline. split.
  - intros (-> & ? & ?). cbn. by rewrite (proj2 (Z.ltb_lt _ _)) by lia.
  - intros Hd. destruct (live (l_state l)); cbn; [|done].
    rewrite (proj2 (Z.ltb_ge _ _)); [done|]. destruct Hd as [?|?]; [done|lia].
Qed.

(** ** The drain always finishes *)

(** A fleet row whose driver is built, or says with a [DriverError] that it
    cannot be. *)
Definition builds (row : fleet_row) : Prop :=
  forall e, build_driver row = Raise e -> exists m, e = DriverError m.

Definition builds_or_driver_error : Prop := forall row, builds row.

(** The row of the run's fleet, when its driver has to be built: it is neither in
    the supervisor's mapping nor in the cache. *)
Definition unbuilt_fleet (ds : option driver_map) (w : W) : option fleet_row :=
  m ← ds;
  name ← fleet_name_of (w_run w);
  if bool_decide (name = "") then None
  else match lookup_driver name m, reg_cache (w_registry w) !! name with
       | None, None => Some (default (mkFleet name "") (reg_fleets (w_registry w) !! name))
       | _, _ => None
       end.

Definition fleet_builds (ds : option driver_map) (w : W) : Prop :=
  forall row, unbuilt_fleet ds w = Some row -> builds row.

Lemma builds_all ds w : builds_or_driver_error -> fleet_builds ds w.
Proof. intros Hb row _. apply Hb. Qed.

Lemma quiet_registry f (w : W) : quiet w (with_registry f w).
Proof. done. Qed.

Lemma get_driver_quiet name row (w : W) :
  (reg_cache (w_registry w) !! name = None -> builds row) ->
  transits quiet (get_driver name row) w
  /\ forall w' e, get_driver name row w = (w', Raise e) -> exists m, e = DriverError m.
Proof.
  intros Hb. unfold get_driver, transits. run. destruct (reg_cache _ !! name) as [oid|]; [done|].
  destruct (build_driver row) as [d|e] eqn:E; [done|]. split; [done|].
  intros w' e'. cbn. intros [= _ <-]. by apply Hb.
Qed.

Lemma resolve_quiet name (w : W) :
  (reg_cache (w_registry w) !! name = None ->
     builds (default (mkFleet name "") (reg_fleets (w_registry w) !! name))) ->
  transits quiet (resolve_fleet_driver name) w
  /\ forall w' e, resolve_fleet_driver name w = (w', Raise e) -> exists m, e = DriverError m.
Proof.
  intros Hb. unfold resolve_fleet_driver. unfold transits at 1. run.
  destruct (reg_fleets _ !! name) as [row|]; [by apply get_driver_quiet|].
  destruct (get_driver_quiet name (mkFleet name "") w Hb) as [Ht He]. split.
  - apply (transits_catch _); [done|]. intros e w' E. destruct (He w' e E) as [m ->].
    apply (transits_raise _).
  - intros w' e. unfold catch. destruct (get_driver _ _ w) as [w1 [a|e1]] eqn:E; [done|].
    destruct (He w1 e1 eq_refl) as [m ->]. cbn. intros [= _ <-]. eauto.
Qed.

Lemma get_run_driver_quiet ds (w : W) :
  fleet_builds (Some ds) w -> returns quiet (get_run_driver ds) w.
Proof.
  intros Hb. unfold fleet_builds, unbuilt_fleet in Hb. cbn in Hb.
  unfold get_run_driver. apply (returns_get _).
  destruct (fleet_name_of (w_run w)) as [name|]; [|apply (returns_ret _)]. cbn in Hb.
  destruct (bool_decide _); [apply (returns_ret _)|].
  destruct (lookup_driver name ds); [apply (returns_ret _)|].
  destruct (resolve_quiet name w) as [Ht He].
  { intros Ec. rewrite Ec in Hb. by apply Hb. }
  apply (returns_catch _).
  - apply (transits_bind _); [done|]. intros oid w' _. apply (transits_ret _).
  - intros e w' E _. unfold mbind, M_bind in E.
    destruct (resolve_fleet_driver name w) as [w1 [a|e1]] eqn:E1; [done|]. injection E as <- <-.
    destruct (He w1 e1 eq_refl) as [m ->]. apply (returns_ret _).
Qed.

Lemma destroy_fleet_quiet ds why (w : W) :
  fleet_builds ds w -> returns quiet (destroy_fleet ds why) w.
Proof.
  intros Hb. unfold destroy_fleet. apply (returns_get _).
  destruct (driver_ref_of (w_run w)) as [ref|]; [|apply (returns_ret _)].
  destruct ds as [ds|]; [|apply (returns_ret _)].
  apply (returns_bind _); [by apply get_run_driver_quiet|]. intros [oid|] w1 _ _; [|apply (returns_ret _)].
  apply (returns_catch _).
  - apply (transits_bind _); [apply quiet_call|]. intros [] w2 _.
    by apply (transits_modify_last _), quiet_push_event.
  - intros e w2 _ _. by apply (returns_modify_last _), quiet_push_event.
Qed.

(** A driver that cannot be built for another reason. *)
Lemma destroy_fleet_raises ds why (w : W) row e :
  unbuilt_fleet ds w = Some row -> build_driver row = Raise e -> (forall m, e <> DriverError m) ->
  is_Some (driver_ref_of (w_run w)) -> destroy_fleet ds why w = (w, Raise e).
Proof.
  unfold unbuilt_fleet. destruct ds as [ds|]; [cbn|done].
  destruct (fleet_name_of (w_run w)) as [name|] eqn:En; [cbn|done].
  destruct (bool_decide (name = "")) eqn:Ee; [done|].
  destruct (lookup_driver name ds) eqn:El; [done|]. destruct (_ !! name) eqn:Ec; [done|].
  intros [= <-] Eb Hne [ref Er]. unfold destroy_fleet. run. rewrite Er.
  apply run_raise. unfold get_run_driver. run. rewrite En, Ee, El.
  assert (resolve_fleet_driver name w = (w, Raise e)) as E.
  { unfold resolve_fleet_driver, get_driver, lift, catch, mbind, M_bind, get.
    destruct (reg_fleets _ !! name); cbn in Eb; rewrite Ec, Eb; [done|].
    destruct e; try done; by edestruct Hne. }
  unfold catch. erewrite run_raise by exact E. destruct e; try done; by edestruct Hne.
Qed.

Lemma last_state_ts_app es evs s :
  Forall (fun e => ev_kind e <> "state") evs -> last_state_ts (es ++ evs) s = last_state_ts es s.
Proof.
  intros Hf. revert es. induction Hf as [|e evs He _ IH]; intros es; [by rewrite app_nil_r|].
  rewrite cons_middle, app_assoc, IH. by apply last_state_ts_snoc.
Qed.

Definition lost_if (P : WorkerLease -> bool) (l : WorkerLease) : WorkerLease :=
  if P l then set_lstate LLost l else l.

(** Between the lapse check and the reap, a tick leaves a draining run alone. *)
Lemma tick_draining ds boot (w : W) :
  r_state (w_run w) = Draining ->
  release_timeout ds boot w = (w, Ok tt) /\ check_duration w = (w, Ok tt)
  /\ check_auto_abort ds w = (w, Ok tt) /\ check_backpressure w = (w, Ok tt).
Proof.
  intros Hs. unfold release_timeout, check_duration, check_auto_abort, check_backpressure. run.
  rewrite Hs. split; [done|]. split; [done|]. split; [done|]. by destruct (negb (backpressure_drain_enabled _)).
Qed.

Lemma reap_draining_eq ds (w : W) since :
  Inv w -> fleet_builds ds w -> r_state (w_run w) = Draining ->
  last_state_ts (w_events w) Draining = Some since -> STOP_GRACE <= w_now w - since ->
  exists w', reap_draining ds w = (w', Ok tt) /\ w_run w' = w_run w /\ w_now w' = w_now w
    /\ w_leases w' = lost_if (fun l => negb (is_final l)) <$> w_leases w.
Proof.
  intros Hi Hb Hs Hts Hg. unfold reap_draining. run. rewrite Hs, Hts. cbn [bool_decide negb].
  rewrite bool_decide_eq_true_2 by done. cbn [negb].
  rewrite (proj2 (Z.ltb_ge _ _)) by lia.
  destruct (returns_inv _ _ _ (destroy_fleet_quiet ds "stop-grace" w Hb)) as (w1 & [] & E & [Q1 Q2 _ Q4 _]).
  erewrite run_bind by exact E. run.
  assert (lease_wf w1) as Hw1.
  { destruct (sound_destroy_fleet ds "stop-grace" w Hi) as [[_ Hw1] _]. by rewrite E in Hw1. }
  rewrite (lose_each (fun l => negb (is_final l))) by done.
  eexists. split; [reflexivity|]. cbn. by rewrite Q2.
Qed.

(** C11: the drain finishes: the first tick after the stop grace has passed ends
    a draining run, with no live lease left and the end instant stamped,
    whatever its driver answers or raises.  The condition is on building the
    driver alone: when it has to be built in this tick, it builds or raises
    [DriverError]. *)
Theorem drain_finishes (w : W) ds boot since :
  Inv w -> fleet_builds ds w -> r_state (w_run w) = Draining -> w_leases w <> [] ->
  last_state_ts (w_events w) Draining = Some since -> STOP_GRACE <= w_now w - since ->
  exists w', supervise_run ds boot w = (w', Ok tt)
    /\ terminal (r_state (w_run w')) = true /\ r_ended_at (w_run w') = Some (w_now w)
    /\ forall l, l ∈ w_leases w' -> l_state l = LDone \/ l_state l = LLost.
Proof.
  intros Hi Hb Hs Hne Hts Hg. unfold supervise_run.
  destruct (lapse_eq boot w (inv_leases _ Hi)) as (evs & E & _ & Hk). erewrite run_bind by exact E.
  set (w1 := with_events _ _).
  assert (Inv w1) as Hi1.
  { destruct (sound_lapse_stale_leases boot w Hi) as [Hi1 _]. by rewrite E in Hi1. }
  assert (last_state_ts (w_events w1) Draining = Some since) as Hts1.
  { change (last_state_ts (w_events w ++ evs) Draining = Some since).
    rewrite last_state_ts_app; [done|]. eapply Forall_impl; [exact Hk|].
    by intros e ->. }
  destruct (tick_draining ds boot w1 Hs) as (E1 & E2 & E3 & E4).
  do 4 (erewrite run_bind by eassumption; cbv beta).
  destruct (reap_draining_eq ds w1 since Hi1 Hb Hs Hts1 Hg) as (w2 & E5 & Hr2 & Hn2 & Hl2).
  erewrite run_bind by exact E5.
  assert (forall l, l ∈ w_leases w2 -> l_state l = LDone \/ l_state l = LLost) as Hall.
  { rewrite Hl2. intros l Hin. apply list_elem_of_fmap in Hin as (l0 & -> & _).
    unfold lost_if, is_final, in_state. destruct (l_state l0) eqn:El; cbn; auto. }
  assert (r_state (w_run w2) = Draining) as Hs2 by (by rewrite Hr2).
  assert (w_leases w2 <> []) as Hne2.
  { rewrite Hl2. subst w1. cbn. by destruct (w_leases w). }
  erewrite run_bind; [|rewrite maybe_complete_run_eq, (completable_final _ Hne2 Hall Hs2), Hs2; reflexivity].
  eexists. split; [reflexivity|]. rewrite completed_run, completed_leases, run_after_state.
  split; [apply terminal_state_for_terminal|]. split; [|exact Hall].
  rewrite run_after_ended by apply terminal_state_for_terminal. rewrite Hr2, Hn2. cbn.
  destruct (r_ended_at (w_run w)) eqn:Ee; [|done].
  assert (terminal (r_state (w_run w)) = true) as Ht; [|by rewrite Hs in Ht].
  apply (ri_ended _ (inv_run _ Hi)). eauto.
Qed.

(** without that condition the drain does not finish: when the driver of the
    run's fleet has to be built and that raises anything else (an endpoint that
    is not a number is a [ValueError]), the tick raises and the run is left
    draining, its row as it was; the next tick finds it in the same state. *)
Theorem unbuildable_fleet_keeps_draining (w : W) ds boot since row e :
  Inv w -> unbuilt_fleet ds w = Some row -> build_driver row = Raise e ->
  (forall m, e <> DriverError m) -> is_Some (driver_ref_of (w_run w)) ->
  r_state (w_run w) = Draining ->
  last_state_ts (w_events w) Draining = Some since -> STOP_GRACE <= w_now w - since ->
  exists w', supervise_run ds boot w = (w', Raise e) /\ w_run w' = w_run w
    /\ w_registry w' = w_registry w.
Proof.
  intros Hi Hu Eb Hne Hr Hs Hts Hg. unfold supervise_run.
  destruct (lapse_eq boot w (inv_leases _ Hi)) as (evs & E & _ & Hk). erewrite run_bind by exact E.
  set (w1 := with_events _ _).
  assert (last_state_ts (w_events w1) Draining = Some since) as Hts1.
  { change (last_state_ts (w_events w ++ evs) Draining = Some since).
    rewrite last_state_ts_app; [done|]. eapply Forall_impl; [exact Hk|]. by intros ev ->. }
  destruct (tick_draining ds boot w1 Hs) as (E1 & E2 & E3 & E4).
  do 4 (erewrite run_bind by eassumption; cbv beta). exists w1. split; [|done].
  apply run_raise. unfold reap_draining. run.
  rewrite bool_decide_eq_true_2 by exact Hs. cbn [negb]. rewrite Hts1.
  rewrite (proj2 (Z.ltb_ge _ _)) by exact Hg.
  by apply run_raise, (destroy_fleet_raises ds "stop-grace" w1 row).
Qed.

(** ** Duration and pauses *)

Lemma extend_quiet drv p (w : W) : returns quiet (extend_driver_deadline drv p) w.
Proof.
  unfold extend_driver_deadline. apply (returns_get _).
  destruct (nonzero _) as [dur|]; [|apply (returns_ret _)].
  destruct (driver_ref_of (w_run w)) as [ref|]; [|apply (returns_ret _)].
  destruct drv as [oid|]; [|apply (returns_ret _)].
  destruct drv_extend_deadline as [ext|]; [|apply (returns_ret _)].
  apply quiet_driver_call.
Qed.

Lemma pause_run_eq drv a (w : W) :
  r_state (w_run w) = Running ->
  exists w', pause_run drv a w = (w', Ok tt) /\ w_now w' = w_now w /\ w_leases w' = w_leases w
    /\ w_run w' = set_state Paused (set_paused (Some (w_now w)) (r_paused (w_run w)) (w_run w)).
Proof.
  intros Hs. unfold pause_run, on_run, transition_run. run. rewrite Hs.
  rewrite bool_decide_eq_true_2 by done. cbn [negb]. run.
  set (w1 := transition_world _ _ _ _ _).
  destruct (returns_inv _ _ _ (extend_quiet drv (paused_seconds (w_run w1) (w_now w)
              + PAUSE_DEADLINE_HEADROOM) w1)) as (w2 & [] & E & [Q1 Q2 _ Q4 _]).
  exists w2. split; [exact E|]. rewrite Q1, Q2, Q4. subst w1. rewrite w_run_transition, transition_leases.
  split; [by rewrite transition_now|]. done.
Qed.

Lemma resume_run_eq drv a (w : W) :
  r_state (w_run w) = Paused ->
  exists w', resume_run drv a w = (w', Ok tt) /\ w_now w' = w_now w /\ w_leases w' = w_leases w
    /\ w_run w' = set_state Running (close_pause (w_now w) (w_run w)).
Proof.
  intros Hs. unfold resume_run, transition_run. run. rewrite Hs.
  rewrite bool_decide_eq_true_2 by done. cbn [negb].
  erewrite run_bind by apply end_pause_eq. run. set (w1 := transition_world _ _ _ _ _).
  match goal with |- context [extend_driver_deadline drv ?p w1] =>
    destruct (returns_inv _ _ _ (extend_quiet drv p w1)) as (w2 & [] & E & [Q1 Q2 _ Q4 _]) end.
  exists w2. split; [exact E|]. rewrite Q1, Q2, Q4. subst w1. rewrite w_run_transition, transition_leases.
  split; [by rewrite transition_now|]. done.
Qed.

Lemma duration_end_whole t0 dur n p :
  (dur * inject_Z usec == inject_Z n)%Q -> duration_end t0 dur p = t0 + n + p.
Proof.
  intros Hn. unfold duration_end. rewrite (round_half_even_int (n + p)); [lia|].
  rewrite Hn. by rewrite inject_Z_plus.
Qed.

(** The duration check on a released run, in closed form. *)
Lemma check_duration_eq (w : W) t0 dur :
  r_state (w_run w) = Running \/ r_state (w_run w) = Releasing ->
  r_t0 (w_run w) = Some t0 -> sn_duration_s (snap_of (w_run w)) = Some dur -> ~ (dur == 0)%Q ->
  exists w', check_duration w = (w', Ok tt)
    /\ if duration_end t0 dur (paused_seconds (w_run w) (w_now w)) <=? w_now w
       then w_run w' = run_after Draining (Some "duration-complete") (w_now w) (w_run w)
       else w' = w.
Proof.
  intros Hs Ht Hd Hz. unfold check_duration. run. rewrite Ht, Hd. unfold nonzero.
  destruct (Qeq_bool dur 0) eqn:E; [by apply Qeq_bool_iff in E|].
  assert (forall b, when b (transition_run Draining
     [("reason", jstr "duration-complete"); ("duration_s", JV (VFloat dur))] "system"
     (Some "duration-complete")) w
     = (if b then transition_world Draining [("reason", jstr "duration-complete");
        ("duration_s", JV (VFloat dur))] "system" (Some "duration-complete") w else w, Ok tt)) as Hw.
  { by intros []. }
  destruct Hs as [-> | ->]; rewrite Hw; eexists; (split; [reflexivity|]);
    destruct (_ <=? _); try done; apply w_run_transition.
Qed.

(** the duration counts active time only.  A pause of [d] moves the
    duration end by exactly [d] (durations of a whole number of microseconds):
    before it, the check leaves the resumed run running, and from it on the
    check drains the run. *)
Theorem pause_shifts_duration (w : W) drv actor actor' (d : Z) t0 dur n later :
  Inv w -> r_state (w_run w) = Running -> r_t0 (w_run w) = Some t0 ->
  sn_duration_s (snap_of (w_run w)) = Some dur -> (dur * inject_Z usec == inject_Z n)%Q -> 0 < n ->
  0 <= d ->
  exists w1 w2 w3, pause_run drv actor w = (w1, Ok tt)
    /\ resume_run drv actor' (wait d w1) = (w2, Ok tt)
    /\ r_state (w_run w2) = Running /\ r_t0 (w_run w2) = Some t0
    /\ r_paused (w_run w2) = r_paused (w_run w) + d
    /\ check_duration (wait later w2) = (w3, Ok tt)
    /\ (w_now w2 + later < t0 + n + r_paused (w_run w) + d -> r_state (w_run w3) = Running)
    /\ (t0 + n + r_paused (w_run w) + d <= w_now w2 + later ->
          r_state (w_run w3) = Draining /\ r_end_reason (w_run w3) = Some "duration-complete").
Proof.
  intros Hi Hs Ht Hd Hn Hpos Hge.
  destruct (pause_run_eq drv actor w Hs) as (w1 & E1 & Hnow1 & _ & Hr1).
  destruct (resume_run_eq drv actor' (wait d w1)) as (w2 & E2 & Hnow2 & _ & Hr2).
  { cbn. by rewrite Hr1. }
  assert (r_state (w_run w2) = Running /\ r_t0 (w_run w2) = Some t0
    /\ r_paused (w_run w2) = r_paused (w_run w) + d /\ r_paused_at (w_run w2) = None
    /\ snap_of (w_run w2) = snap_of (w_run w)) as (S2 & T2 & P2 & A2 & N2).
  { rewrite Hr2. cbn. rewrite Hr1, Hnow1. unfold close_pause. cbn. repeat split; [done|lia]. }
  destruct (check_duration_eq (wait later w2) t0 dur) as (w3 & E3 & H3).
  { cbn. by left. }
  { done. }
  { cbn. by rewrite N2. }
  { intros E0. rewrite E0 in Hn. assert (inject_Z n == inject_Z 0)%Q as Hz by (by rewrite <- Hn).
    apply (proj1 (inject_Z_injective _ _)) in Hz. lia. }
  exists w1, w2, w3. split; [done|]. split; [done|]. split; [done|]. split; [done|]. split; [done|].
  split; [done|]. rewrite (duration_end_whole t0 dur n _ Hn) in H3. cbn in H3.
  unfold paused_seconds in H3. rewrite A2, P2 in H3.
  destruct (Z.leb_spec (t0 + n + (r_paused (w_run w) + d)) (w_now w2 + later)).
  - rewrite H3. split; [lia|done].
  - rewrite H3. split; [done|lia].
Qed.

(** ** Auto-abort *)

(** More than half the fleet was lost after running, and each of those has been
    silent for the whole abort window. *)
Definition lost_majority (w : W) : Prop :=
  is_Some (r_t0 (w_run w))
  /\ Z.of_nat (length (w_leases w)) < 2 * Z.of_nat (length (lost_running (w_leases w)))
  /\ forall t, t ∈ lost_running (w_leases w) -> AUTO_ABORT_LOST <= w_now w - t.

(** Half the fleet rounded down, and at least one slot, reported an
    authentication failure. *)
Definition auth_majority (w : W) : Prop :=
  let n := Z.of_nat (size (auth_failed_slots (w_events w))) in
  1 <= n /\ Z.of_nat (length (w_leases w)) / 2 <= n.

Lemma foldl_max_le ts t b : foldl Z.max t ts <= b <-> forall x, x ∈ t :: ts -> x <= b.
Proof.
  revert t. induction ts as [|u ts IH]; intros t; cbn; [set_solver|]. rewrite IH. split.
  - intros Hx x Hin. assert (Z.max t u <= b) by (apply Hx; set_solver).
    apply elem_of_cons in Hin as [->|[->|Hin]%elem_of_cons]; [lia|lia|]. apply Hx. set_solver.
  - intros Hx x [->|Hin]%elem_of_cons; [|apply Hx; set_solver].
    assert (t <= b) by (apply Hx; set_solver). assert (u <= b) by (apply Hx; set_solver). lia.
Qed.

Lemma lost_subset_spec (w : W) :
  negb (bool_decide (r_t0 (w_run w) = None)) && lost_subset (w_leases w) (w_now w) = true
  <-> lost_majority w.
Proof.
  unfold lost_majority, lost_subset. rewrite !andb_true_iff, negb_true_iff, bool_decide_eq_false.
  rewrite <- not_eq_None_Some, Z.ltb_lt.
  destruct (lost_running (w_leases w)) as [|t ts]; cbn [length].
  - split; [intros (_ & _ & ?); done|]. lia.
  - rewrite Z.leb_le. assert (AUTO_ABORT_LOST <= w_now w - foldl Z.max t ts
      <-> forall x, x ∈ t :: ts -> AUTO_ABORT_LOST <= w_now w - x) as ->; [|tauto].
    etrans; [|etrans; [exact (foldl_max_le ts t (w_now w - AUTO_ABORT_LOST))|]]; [lia|].
    split; intros Hx x Hin; specialize (Hx x Hin); lia.
Qed.

Lemma auth_spec (w : W) :
  negb (bool_decide (auth_failed_slots (w_events w) = ∅))
  && (Z.max 1 (Z.of_nat (length (w_leases w)) / 2)
        <=? Z.of_nat (size (auth_failed_slots (w_events w)))) = true
  <-> auth_majority w.
Proof.
  unfold auth_majority. rewrite andb_true_iff, negb_true_iff, bool_decide_eq_false, Z.leb_le.
  split; [lia|]. intros [H1 H2]. split; [|lia]. intros E. rewrite E, size_empty in H1. lia.
Qed.

Lemma quiet_targets f (w : W) : quiet w (with_targets f w).
Proof. done. Qed.

Lemma flag_quiet s (w : W) : returns quiet (flag_target_unhealthy s) w.
Proof.
  unfold flag_target_unhealthy. apply (returns_get _).
  destruct (r_spec (w_run w)) as [sp|]; [|apply (returns_ret _)].
  destruct (sr_target sp); [|apply (returns_ret _)]. by apply (returns_modify_last _).
Qed.

(** the auto-abort policies, exactly: an active run fails with
    [auto-abort-lost] when more than half its fleet was lost after running and
    its last heartbeats are older than the abort window; otherwise with
    [auto-abort-auth] when at least one slot, and half of them rounded down,
    reported an authentication failure; otherwise the check changes nothing. *)
Theorem auto_abort_policy (w : W) ds :
  Inv w -> builds_or_driver_error -> terminal (r_state (w_run w)) = false ->
  r_state (w_run w) <> Draining -> w_leases w <> [] ->
  exists w', check_auto_abort ds w = (w', Ok tt)
    /\ (lost_majority w ->
          w_run w' = run_after Failed (Some "auto-abort-lost") (w_now w) (w_run w))
    /\ (~ lost_majority w -> auth_majority w ->
          w_run w' = run_after Failed (Some "auto-abort-auth") (w_now w) (w_run w))
    /\ (~ lost_majority w -> ~ auth_majority w -> w' = w).
Proof.
  intros Hi Hb Ht Hd Hne. pose proof (lost_subset_spec w) as HL. pose proof (auth_spec w) as HA.
  unfold check_auto_abort. run.
  rewrite Ht, (bool_decide_eq_false_2 (r_state (w_run w) = Draining)) by done. cbn [orb].
  destruct (Nat.ltb_spec (length (w_leases w)) 1) as [Hlt|_]; [by destruct (w_leases w); cbn in *; [|lia]|].
  destruct (_ && lost_subset _ _).
  { apply proj1 in HL. specialize (HL eq_refl). unfold transition_run. run. match goal with |- context [destroy_fleet _ _ ?x] => set (w1 := x) end.
    destruct (returns_inv _ _ _ (destroy_fleet_quiet ds "auto-abort-lost" w1 (builds_all ds w1 Hb)))
      as (w2 & [] & E & [Q1 _ _ _ _]).
    exists w2. split; [exact E|]. split; [intros _|by split].
    rewrite Q1. apply w_run_transition. }
  assert (~ lost_majority w) by (intros Hx; by apply HL in Hx).
  destruct (negb _ && _); cbn [when].
  - apply proj1 in HA. specialize (HA eq_refl). unfold transition_run. run. set (w1 := transition_world _ _ _ _ _).
    destruct (returns_inv _ _ _ (flag_quiet "HEC auth failed across the fleet" w1))
      as (w2 & [] & E & [Q1 _ _ _ _]). erewrite run_bind by exact E.
    destruct (returns_inv _ _ _ (destroy_fleet_quiet ds "auto-abort-auth" w2 (builds_all ds w2 Hb)))
      as (w3 & [] & E' & [Q2 _ _ _ _]).
    exists w3. split; [exact E'|]. split; [done|]. split; [|done].
    intros _ _. rewrite Q2, Q1. apply w_run_transition.
  - assert (~ auth_majority w) by (intros Hx; by apply HA in Hx).
    eexists. split; [reflexivity|]. done.
Qed.

(** ** Backpressure *)

(** The delivery of the live slots since their previous heartbeats fails at
    least at the configured fraction. *)
Definition failing_delivery (w : W) : Prop :=
  let '(ok, fail) := recent_delivery_deltas (w_samples w)
                       (l_slot <$> List.filter is_live (w_leases w)) in
  0 < ok + fail
  /\ (backpressure_min_failed_fraction env_settings <= fdiv (inject_Z fail) (inject_Z (ok + fail)))%Q.

(** The outcome of one step down from [w]: the rate is the current one times
    the step factor, not below the floor of the original rate, which is kept. *)
Definition stepped (w w' : W) : Prop :=
  exists current original,
    sn_rate_value (snap_of (w_run w)) = Some current
    /\ original = default current (nonzero (sn_backpressure_original_rate (snap_of (w_run w))))
    /\ sn_rate_value (snap_of (w_run w')) = Some (fmul current (backpressure_step_factor env_settings))
    /\ (fmul original (backpressure_min_rate_fraction env_settings)
          <= fmul current (backpressure_step_factor env_settings))%Q
    /\ sn_backpressure_original_rate (snap_of (w_run w')) = Some original
    /\ r_state (w_run w') = r_state (w_run w) /\ r_degraded (w_run w') = true.

Lemma rescale_snapshot (w w' : W) q a :
  rescale_run q a w = (w', Ok tt) -> terminal (r_state (w_run w)) = false -> w_leases w <> [] ->
  w_run w' = set_snapshot (snap_set_rate q (snap_of (w_run w))) (w_run w).
Proof.
  intros E Ht Hne. unfold rescale_run, apply_shares, on_run, append_event in E. revert E. run.
  rewrite Ht. destruct (Nat.ltb_spec (length (w_leases w)) 1) as [Hlt|_];
    [by destruct (w_leases w); cbn in *; [|lia]|].
  destruct (build_share_list _ _ _) as [shares|e]; [|done]. run. by intros [= <-].
Qed.

Lemma step_down_spec ok fail frac (w w' : W) b :
  step_down_for_backpressure ok fail frac w = (w', Ok b) ->
  terminal (r_state (w_run w)) = false -> w_leases w <> [] ->
  if b then stepped w w' else w' = w.
Proof.
  intros E Ht Hne. unfold step_down_for_backpressure in E. revert E. unfold on_run, append_event. run.
  destruct (sn_rate_value _) as [current|] eqn:Ec; [|by intros [= <- <-]].
  destruct (_ || _); [by intros [= <- <-]|]. destruct (Qle_bool _ _) eqn:Ef; [|by intros [= <- <-]].
  cbn [negb]. run. set (w1 := with_run _ w).
  match goal with |- context [rescale_run ?q ?a] => destruct (rescale_run q a w1) as [w2 [[]|e]] eqn:Er end;
    [|by erewrite run_raise by exact Er].
  erewrite run_bind by exact Er. run. intros [= <- <-].
  apply rescale_snapshot in Er; [|done|done]. apply Qle_bool_iff in Ef.
  unfold stepped. eexists current, _. split; [done|]. split; [reflexivity|].
  cbn. rewrite Er. cbn. auto.
Qed.

(** one tick of the backpressure check does one of three things: it leaves
    the run and its leases alone (at most logging that a streak opened or
    cleared); or, when delivery is failing and the open streak has lasted the
    configured time, it steps the rate down, never below the floor of the
    original rate; or drains the run. *)
Theorem backpressure_policy (w w' : W) :
  check_backpressure w = (w', Ok tt) ->
  (w_run w' = w_run w /\ w_leases w' = w_leases w)
  \/ (backpressure_drain_enabled env_settings = true /\ failing_delivery w
      /\ (exists since, open_backpressure_since (w_events w) = Some since
           /\ backpressure_sustained env_settings <= w_now w - since)
      /\ ((backpressure_action env_settings = "step_down" /\ stepped w w')
          \/ w_run w' = run_after Draining (Some "backpressure-drain") (w_now w) (w_run w))).
Proof.
  unfold check_backpressure, failing_delivery. run. set (cfg := env_settings).
  destruct (backpressure_drain_enabled cfg); cbn [negb]; [|intros [= <-]; by left].
  destruct (bool_decide (r_state (w_run w) ∈ _)) eqn:Es; cbn [negb orb]; [|intros [= <-]; by left].
  destruct (bool_decide (r_t0 _ = None)); [intros [= <-]; by left|].
  destruct (bool_decide (_ = [])) eqn:El; [intros [= <-]; by left|].
  destruct (recent_delivery_deltas _ _) as [ok fail].
  destruct ((0 <? ok + fail) && _) eqn:Ef; cbn [negb].
  2:{ destruct (open_backpressure_since _); cbn; intros [= <-]; by left. }
  apply andb_true_iff in Ef as [Ef1 Ef2]. apply Z.ltb_lt in Ef1. apply Qle_bool_iff in Ef2.
  destruct (open_backpressure_since (w_events w)) as [since|]; [|cbn; intros [= <-]; by left].
  destruct (Z.leb_spec (backpressure_sustained cfg) (w_now w - since)); [|cbn; intros [= <-]; by left].
  assert (terminal (r_state (w_run w)) = false) as Ht.
  { apply bool_decide_eq_true in Es. by destruct (r_state (w_run w)); set_solver. }
  assert (w_leases w <> []) as Hne.
  { intros E. rewrite E in El. done. }
  cbn [when].
  set (m := if bool_decide (backpressure_action cfg = "step_down") then _ else _).
  assert (forall w1 b, m w = (w1, Ok b) ->
            if b then backpressure_action cfg = "step_down" /\ stepped w w1 else w1 = w) as Hm.
  { intros w1 b. subst m. destruct (bool_decide (_ = "step_down")) eqn:Ea; [|by intros [= <- <-]].
    apply bool_decide_eq_true in Ea.
    intros E. apply step_down_spec in E; [|done|done]. by destruct b. }
  intros E. right. split; [done|]. split; [done|]. split; [eauto|].
  destruct (m w) as [w1 [b|e]] eqn:Em; [|by erewrite run_raise in E by exact Em].
  erewrite run_bind in E by exact Em. specialize (Hm w1 b eq_refl). destruct b.
  - left. by injection E as <-.
  - right. subst w1. revert E. cbn [negb when]. unfold transition_run. run.
    set (w1 := transition_world _ _ _ _ _).
    destruct (returns_inv _ _ _ (flag_quiet "HEC delivery failing (backpressure)" w1))
      as (w2 & [] & E & [Q1 _ _ _ _]). rewrite E. intros [= <-]. rewrite Q1. apply w_run_transition.
Qed.
End Supervision.

(** ** Witnesses *)

Lemma demo_builds : builds_or_driver_error (D := FakeDriver).
Proof. intros row e. cbn. case_bool_decide; intros [= <-]. eauto. Qed.

(** The running fleet, silent for a hundred seconds. *)
Definition demo_silent : world FakeDriver := wait 100000000 demo_running.

Lemma demo_silent_inv : Inv demo_silent.
Proof. apply (perform_sound (AWait 100000000)), demo_running_inv. Qed.

Lemma lapse_exact_witness :
  exists w', lapse_stale_leases 0 demo_silent = (w', Ok tt)
    /\ w_run w' = w_run demo_silent
    /\ (forall i l, w_leases demo_silent !! i = Some l -> exists l', w_leases w' !! i = Some l'
         /\ (live (l_state l) = true /\ last_contact (w_run demo_silent) 0 l + LEASE_LAPSE < w_now demo_silent
             /\ 0 + BOOT_GRACE < w_now demo_silent -> l' = set_lstate LLost l)
         /\ (live (l_state l) = false \/ w_now demo_silent <= last_contact (w_run demo_silent) 0 l + LEASE_LAPSE
             \/ w_now demo_silent <= 0 + BOOT_GRACE -> l' = l))
    /\ length (w_events w')
       = (length (w_events demo_silent)
          + length (List.filter (overdue demo_silent 0) (w_leases demo_silent)))%nat.
Proof. apply (lapse_exact demo_silent 0). apply demo_silent_inv. Defined.

Example demo_lapse :
  l_state <$> w_leases (fst (lapse_stale_leases 0 demo_silent)) = [LLost; LLost; LLost].
Proof. vm_compute. done. Qed.

(** A worker that takes a lost slot over while the run is paused is released by
    its first heartbeat, and told to pause by the next one only. *)
Definition demo_paused_join : world FakeDriver :=
  foldl (fun w a => perform a w) demo_running
    [APause (Some 0%nat) "alice"; AWait 100000000; ATick (Some demo_drivers) 0; AClaim "d" (Some 0%nat)].

Example demo_paused_release :
  r_state (w_run demo_paused_join) = Paused
  /\ (let b1 := record_heartbeat 0 (Some "le_7") beat demo_paused_join in
      rp_command (response_of (snd b1)) = Release 1002000000
      /\ rp_command (response_of (snd (record_heartbeat 0 (Some "le_7") beat (fst b1)))) = Pause).
Proof. vm_compute. done. Qed.

(** A graceful stop, and fifty seconds in which no worker reports. *)
Definition demo_draining : world FakeDriver :=
  foldl (fun w a => perform a w) demo_running [AStop 0 false "alice"; AWait 50000000].

Lemma demo_draining_inv : Inv demo_draining.
Proof. eapply reachable_sound; [apply reachable_foldl|apply demo_running_inv]. Qed.

Lemma drain_finishes_witness :
  exists w', supervise_run (Some demo_drivers) 0 demo_draining = (w', Ok tt)
    /\ terminal (r_state (w_run w')) = true /\ r_ended_at (w_run w') = Some (w_now demo_draining)
    /\ forall l, l ∈ w_leases w' -> l_state l = LDone \/ l_state l = LLost.
Proof.
  apply (drain_finishes demo_draining (Some demo_drivers) 0 (w_now demo_running)).
  - apply demo_draining_inv.
  - apply builds_all, demo_builds.
  - vm_compute. reflexivity.
  - vm_compute. discriminate.
  - vm_compute. reflexivity.
  - vm_compute. discriminate.
Defined.

Lemma pause_shifts_duration_witness :
  exists w1 w2 w3, pause_run (Some 0%nat) "alice" demo_running = (w1, Ok tt)
    /\ resume_run (Some 0%nat) "bob" (wait 30000000 w1) = (w2, Ok tt)
    /\ r_state (w_run w2) = Running /\ r_t0 (w_run w2) = Some 1002000000
    /\ r_paused (w_run w2) = r_paused (w_run demo_running) + 30000000
    /\ check_duration (wait 600000000 w2) = (w3, Ok tt)
    /\ (w_now w2 + 600000000 < 1002000000 + 600000000 + r_paused (w_run demo_running) + 30000000 ->
          r_state (w_run w3) = Running)
    /\ (1002000000 + 600000000 + r_paused (w_run demo_running) + 30000000 <= w_now w2 + 600000000 ->
          r_state (w_run w3) = Draining /\ r_end_reason (w_run w3) = Some "duration-complete").
Proof.
  apply (pause_shifts_duration demo_running (Some 0%nat) "alice" "bob" 30000000 1002000000 600
           600000000 600000000).
  - apply demo_running_inv.
  - vm_compute. reflexivity.
  - vm_compute. reflexivity.
  - vm_compute. reflexivity.
  - vm_compute. reflexivity.
  - lia.
  - lia.
Defined.

Lemma auto_abort_policy_witness :
  exists w', check_auto_abort (Some demo_drivers) demo_silent = (w', Ok tt)
    /\ (lost_majority demo_silent ->
          w_run w' = run_after Failed (Some "auto-abort-lost") (w_now demo_silent) (w_run demo_silent))
    /\ (~ lost_majority demo_silent -> auth_majority demo_silent ->
          w_run w' = run_after Failed (Some "auto-abort-auth") (w_now demo_silent) (w_run demo_silent))
    /\ (~ lost_majority demo_silent -> ~ auth_majority demo_silent -> w' = demo_silent).
Proof.
  apply (auto_abort_policy demo_silent (Some demo_drivers)).
  - apply demo_silent_inv.
  - apply demo_builds.
  - vm_compute. reflexivity.
  - vm_compute. discriminate.
  - vm_compute. discriminate.
Defined.

(** One worker of three that reports an authentication failure fails the run. *)
Example demo_auth_abort :
  let w := perform (AHeartbeat 0 (Some "le_4") {[ "auth_failed" := VBool true ]}) demo_running in
  length (w_leases w) = 3%nat
  /\ r_end_reason (w_run (fst (check_auto_abort (Some demo_drivers) w))) = Some "auto-abort-auth".
Proof. vm_compute. done. Qed.

(** A fleet whose target fails every request: the first failing tick opens the
    streak, a tick a minute later finds it sustained. *)
Definition fail_beat (n : Z) : pydict := <[ "hec_5xx" := VInt n ]> {[ "events_total" := VInt 10 ]}.

Definition demo_failing : world FakeDriver :=
  foldl (fun w a => perform a w) demo_running
    [AHeartbeat 0 (Some "le_4") (fail_beat 0); AWait 10000000;
     AHeartbeat 0 (Some "le_4") (fail_beat 100); ATick (Some demo_drivers) 2000000000;
     AWait 61000000; AHeartbeat 0 (Some "le_4") (fail_beat 200)].

Lemma backpressure_policy_witness :
  let w' := fst (check_backpressure demo_failing) in
  (w_run w' = w_run demo_failing /\ w_leases w' = w_leases demo_failing)
  \/ (backpressure_drain_enabled env_settings = true /\ failing_delivery demo_failing
      /\ (exists since, open_backpressure_since (w_events demo_failing) = Some since
           /\ backpressure_sustained env_settings <= w_now demo_failing - since)
      /\ ((backpressure_action env_settings = "step_down" /\ stepped demo_failing w')
          \/ w_run w' = run_after Draining (Some "backpressure-drain") (w_now demo_failing)
                          (w_run demo_failing))).
Proof.
  apply (backpressure_policy demo_failing (fst (check_backpressure demo_failing))).
  vm_compute. reflexivity.
Defined.

Example demo_stepped :
  sn_rate_value (snap_of (w_run (fst (check_backpressure demo_failing)))) = Some (100 # 2)%Q.
Proof. vm_compute. done. Qed.
