(* ===== verification/Boot.v ===== *)
(** * The estate: the supervisor tick and boot reconciliation
    (server/lifecycle.py: supervisor_tick, _reap_terminal_fleets,
    reconcile_on_boot, _sweep_stray_fleets)

    Several runs share one process: its driver objects, its targets and its
    token supply.  A handler works on one run at a time, in the [world] made of
    that run's rows and the shared part. *)

From S2P Require Import Prelude.
From S2P Require Import PyFloat.
From S2P Require Import PyValue.
From S2P Require Import Apportion.
From S2P Require Import Driver.
From S2P Require Import Model.
From S2P Require Import Shares.
From S2P Require Import Session.
From S2P Require Import Protocol.
From S2P Require Import Operators.
From S2P Require Import Provision.
From S2P Require Import Scenario.
From S2P Require Import Supervisor.
From S2P Require Import Invariants.
From S2P Require Import Soundness.
From S2P Require Import Updates.
From S2P Require Import Launch.
From S2P Require Import Trace.
From S2P Require Import Release.
From S2P Require Import Heartbeat.
From S2P Require Import Completion.
From S2P Require Import Supervision.
From Stdlib Require Import QArith.
Open Scope Z_scope.

(** The rows of one run. *)
Record row : Type := mkRow {
  row_run : Run;
  row_leases : list WorkerLease;
  row_events : list RunEvent;
  row_samples : list MetricSample;
}.

Record estate (D : Type) : Type := mkEstate {
  e_now : Z;
  e_rows : list row;
  e_targets : gmap Z health;
  e_registry : registry D;
  e_tokens : nat;
}.
Arguments mkEstate {D}. Arguments e_now {D}. Arguments e_rows {D}. Arguments e_targets {D}.
Arguments e_registry {D}. Arguments e_tokens {D}.

Definition TERMINAL_REAP_WINDOW : Z := 3600 * usec.

Section Estate.
Context {D : Type} `{Env D}.
Abbreviation W := (world D).
Abbreviation E := (estate D).

Definition focus (e : E) (r : row) : W :=
  mkWorld (e_now e) (row_run r) (row_leases r) (row_events r) (row_samples r) (e_targets e)
    (e_registry e) (e_tokens e).

Definition row_of (w : W) : row := mkRow (w_run w) (w_leases w) (w_events w) (w_samples w).

Definition unfocus (e : E) (i : nat) (w : W) : E :=
  mkEstate (e_now e) (<[ i := row_of w ]> (e_rows e)) (w_targets w) (w_registry w) (w_tokens w).

(** Run a handler on the [i]-th run, if there is one. *)
Definition on_row (i : nat) (m : M W unit) : M E unit := fun e =>
  match e_rows e !! i with
  | None => (e, Ok tt)
  | Some r => let '(w, res) := m (focus e r) in (unfocus e i w, res)
  end.

(** The indices of the rows a query selects. *)
Definition select (q : row -> bool) (e : E) : list nat :=
  omap (fun ir => if q ir.2 then Some ir.1 else None) (imap pair (e_rows e)).

(** ** The supervisor tick *)

(** [active_states]: every state that is not terminal, but [pending]. *)
Definition active (r : row) : bool :=
  negb (terminal (r_state (row_run r))) && negb (bool_decide (r_state (row_run r) = Pending)).

Definition swallow (e : exn) : M E unit := mret tt.

(** A terminal run, ended in the window, whose fleet was not destroyed yet. *)
Definition reapable (now : Z) (r : row) : bool :=
  terminal (r_state (row_run r))
  && match r_ended_at (row_run r) with Some t => now - TERMINAL_REAP_WINDOW <=? t | None => false end
  && negb (bool_decide (driver_ref_of (row_run r) = None))
  && negb (has_event (row_events r) "fleet_destroyed").

(** [flushed] says which rows the database shows as they are: the session does
    not flush by itself, so a run that ended in this very tick may still be
    stored with its previous state, and is then reaped at the next tick. *)
Definition reap_terminal_fleets (drivers : driver_map) (flushed : row -> bool) : M E unit :=
  if bool_decide (length drivers = 0%nat) then mret tt
  else
    e ← get;
    for_each (select (fun r => flushed r && reapable (e_now e) r) e) (fun i =>
      on_row i (destroy_fleet (Some drivers) "post-completion-reap")).

Definition supervisor_tick (drivers : driver_map) (boot_time : Z) (flushed : row -> bool) : M E unit :=
  e ← get;
  _ ← for_each (select active e) (fun i =>
        catch (on_row i (supervise_run (Some drivers) boot_time)) swallow);
  catch (reap_terminal_fleets drivers flushed) swallow.

(** ** Boot reconciliation *)

(** Phase 1 for one run. *)
Definition reconcile_run (drivers : driver_map) : M W unit :=
  w ← get;
  match driver_ref_of (w_run w) with
  | None =>
      transition_run Failed [("reason", jstr "no driver ref at boot")] "system" (Some "orphaned")
  | Some ref =>
      driver ← get_run_driver drivers;
      match driver with
      | None => mret tt
      | Some oid =>
          probe ← catch (s ← call oid (fun d => drv_status d ref); mret (Some s)) (fun _ => mret None);
          match probe with
          | None => mret tt
          | Some s =>
              if (st_running s <=? 0) && (st_desired s <=? 0) then
                _ ← transition_run Failed [("reason", jstr "workload absent at boot")] "system"
                      (Some "orphaned");
                modify (with_leases (fmap (lost_if (fun l => negb (is_final l)))))
              else
                append_event "adopted"
                  [("desired", jint (st_desired s)); ("running", jint (st_running s))] "system"
          end
      end
  end.

(** ** The stray sweep *)

(** [_live_run_ids] *)
Definition live_run_ids (e : E) : gset Z :=
  list_to_set (r_id ∘ row_run <$> List.filter (fun r => negb (terminal (r_state (row_run r)))) (e_rows e)).

(** [db.get(Run, run_id)] *)
Definition find_run (run_id : Z) (e : E) : option nat :=
  fst <$> List.find (fun ir => r_id (row_run ir.2) =? run_id) (imap pair (e_rows e)).

(** [live_run is not None and live_run.state not in TERMINAL_STATES] *)
Definition live_now (run_id : Z) (e : E) : bool :=
  match List.find (fun r => r_id (row_run r) =? run_id) (e_rows e) with
  | Some r => negb (terminal (r_state (row_run r)))
  | None => false
  end.

Definition synthesise_stray_ref (d : D) (run_id : Z) : DriverRef :=
  let kind := drv_kind d in
  let raw := stray_raw run_id in
  mkDriverRef kind ("stoker-run-" +:+ pretty run_id)
    (if bool_decide (kind = "k8s")
     then <[ "namespace" := VStr (match drv_namespace d with
                                  | Some ns => if nonempty ns then ns else "stoker"
                                  | None => "stoker"
                                  end) ]> raw
     else raw).

(** Call a driver object from the estate. *)
Definition estate_call {A} (oid : nat) (op : D -> D * result A) : M E A := fun e =>
  match reg_objects (e_registry e) !! oid with
  | None => (e, Raise (DriverError "no such driver"))
  | Some d =>
      let '(d', r) := op d in
      (mkEstate (e_now e) (e_rows e) (e_targets e) (set_objects (<[ oid := d' ]>) (e_registry e))
         (e_tokens e), r)
  end.

Definition audit_stray (run_id : Z) (detail : list (string * jval)) : M E unit :=
  e ← get;
  match find_run run_id e with
  | Some i => on_row i (append_event "stray_destroyed" detail "system")
  | None => mret tt
  end.

Definition destroy_stray (oid : nat) (fleet_name : string) (run_id : Z) : M E unit :=
  res ← catch (_ ← estate_call oid (fun d => drv_destroy d (synthesise_stray_ref d run_id));
               mret None) (fun e => mret (Some e));
  match res with
  | Some e => audit_stray run_id [("fleet", jstr fleet_name); ("action", jstr "destroy_failed");
                                  ("error", jstr (str_exn e))]
  | None => audit_stray run_id [("fleet", jstr fleet_name); ("action", jstr "destroyed")]
  end.

(** [sorted(strays)] *)
Definition sorted_ids (s : gset Z) : list Z := merge_sort Z.le (elements s).

Section Sweep.
(** What other sessions commit while the sweep runs: [others k j] is seen at the
    [j]-th [db.commit()] of the [k]-th driver's sweep. *)
Context (others : nat -> nat -> E -> E).

Definition gap (k j : nat) : M E unit := modify (others k j).

(** Before each destroy the run's state is read again. *)
Definition sweep_one (k j : nat) (oid : nat) (fleet_name : string) (run_id : Z) : M E unit :=
  _ ← gap k j;
  e ← get;
  if live_now run_id e then mret tt else destroy_stray oid fleet_name run_id.

Fixpoint sweep_strays (k j : nat) (oid : nat) (fleet_name : string) (strays : list Z) : M E unit :=
  match strays with
  | [] => mret tt
  | r :: strays => _ ← sweep_one k j oid fleet_name r; sweep_strays k (S j) oid fleet_name strays
  end.

(** The sweep of one driver. *)
Definition sweep_driver (k : nat) (oid : nat) (fleet_name : string) : M E unit :=
  owned ← catch (s ← estate_call oid drv_list_run_ids; mret (Some s)) (fun _ => mret None);
  match owned with
  | None => mret tt
  | Some owned =>
      _ ← gap k 0;
      e ← get;
      sweep_strays k 1 oid fleet_name (sorted_ids (owned ∖ live_run_ids e))
  end.

(** One enumeration per distinct driver object. *)
Fixpoint sweep_drivers (k : nat) (seen : gset nat) (drivers : driver_map) : M E unit :=
  match drivers with
  | [] => mret tt
  | (name, None) :: drivers => sweep_drivers k seen drivers
  | (name, Some oid) :: drivers =>
      if bool_decide (oid ∈ seen) then sweep_drivers k seen drivers
      else _ ← sweep_driver k oid name; sweep_drivers (S k) ({[ oid ]} ∪ seen) drivers
  end.

Definition sweep_stray_fleets (drivers : driver_map) : M E unit :=
  if bool_decide (length drivers = 0%nat) then mret tt
  else _ ← gap 0 0; sweep_drivers 1 ∅ drivers.

Definition reconcile_on_boot (drivers : driver_map) : M E unit :=
  e ← get;
  _ ← for_each (select (fun r => negb (terminal (r_state (row_run r)))) e) (fun i =>
        on_row i (reconcile_run drivers));
  sweep_stray_fleets drivers.
End Sweep.
End Estate.

(** ** The sweep spares live runs *)

Section Spared.
Context {D : Type} `{Env D} `{!DriverLaws D}.
Abbreviation W := (world D).
Abbreviation E := (estate D).

(** Driver object [oid] runs the workload of run [r]. *)
Definition hosted (r : Z) (oid : nat) (e : E) : Prop :=
  exists d, reg_objects (e_registry e) !! oid = Some d /\ drv_wf d /\ r ∈ drv_owned d.

(** If run [r] is live, its workload is there. *)
Definition served (r : Z) (oid : nat) (e : E) : Prop := live_now r e = true -> hosted r oid e.

Lemma live_now_ext r (e e' : E) :
  row_run <$> e_rows e' = row_run <$> e_rows e -> live_now r e' = live_now r e.
Proof.
  unfold live_now. generalize (e_rows e), (e_rows e'). intros rs. induction rs as [|x rs IH];
    intros [|y rs'] Hr; try done. cbn in Hr. injection Hr as Hx Hr. cbn. rewrite Hx.
  destruct (_ =? r); [by rewrite Hx|]. by apply IH.
Qed.

(** What every step of the sweep respects: [r] stays served, and what it does
    not do to its row. *)
Definition spares (r : Z) (oid : nat) (e e' : E) : Prop :=
  (served r oid e -> served r oid e') /\ live_now r e' = live_now r e.

Global Instance spares_preorder r oid : PreOrder (spares r oid).
Proof. split; [done|]. intros e1 e2 e3 [H1 L1] [H2 L2]. split; [auto|congruence]. Qed.

Lemma spares_frame r oid (e e' : E) :
  row_run <$> e_rows e' = row_run <$> e_rows e -> e_registry e' = e_registry e -> spares r oid e e'.
Proof.
  intros Hr Hg. pose proof (live_now_ext r e e' Hr) as El. split; [|done].
  unfold served, hosted. by rewrite El, Hg.
Qed.

(** A driver operation that keeps the workload of [r] while [r] is live, and
    changes no other object. *)
Lemma spares_call {A} r oid oid' (op : D -> D * result A) (e : E) :
  (live_now r e = true -> forall d d' res, drv_wf d -> op d = (d', res) ->
     drv_wf d' /\ (r ∈ drv_owned d -> r ∈ drv_owned d')) ->
  transits (spares r oid) (estate_call oid' op) e.
Proof.
  intros Hop. unfold transits, estate_call.
  destruct (reg_objects (e_registry e) !! oid') as [d0|] eqn:E0; [|done].
  destruct (op d0) as [d1 res] eqn:Eop. cbn. split; [|done]. intros Hs Hl. change (live_now r e = true) in Hl.
  destruct (Hs Hl) as (d & Ed & Hw & Hr). unfold hosted. cbn.
  destruct (decide (oid' = oid)) as [->|Hne].
  - rewrite Ed in E0. injection E0 as ->. destruct (Hop Hl d0 d1 res Hw Eop) as [Hw1 Hr1].
    exists d1. rewrite lookup_insert_eq. auto.
  - exists d. rewrite lookup_insert_ne by done. auto.
Qed.

Lemma spares_audit r oid run_id detail (e : E) :
  transits (spares r oid) (audit_stray run_id detail) e.
Proof.
  unfold audit_stray. apply (transits_get _). destruct (find_run run_id e) as [i|]; [|apply (transits_ret _)].
  unfold transits, on_row. destruct (e_rows e !! i) as [x|] eqn:Ex; [|done].
  apply spares_frame; cbn; [|done]. apply list_eq. intros j. rewrite !list_lookup_fmap.
  destruct (decide (i = j)) as [<-|Hne].
  - rewrite list_lookup_insert_eq by (by eapply lookup_lt_Some). by rewrite Ex.
  - by rewrite list_lookup_insert_ne.
Qed.

Lemma synthesised_names d run_id : names_stray run_id (synthesise_stray_ref d run_id).
Proof.
  split; [done|]. unfold synthesise_stray_ref, stray_raw, dget. cbn [ref_raw].
  case_bool_decide; [rewrite lookup_insert_ne by done|]; by rewrite lookup_insert_eq.
Qed.

(** The workload of another run, or of [r] when it is not live. *)
Lemma spares_destroy_stray r oid oid' name run_id (e : E) :
  live_now run_id e = false -> transits (spares r oid) (destroy_stray oid' name run_id) e.
Proof.
  intros Hd. unfold destroy_stray. apply (transits_bind _).
  - apply (transits_catch _); [|intros ex e' _; apply (transits_ret _)].
    apply (transits_bind _); [|intros [] e' _; apply (transits_ret _)].
    apply spares_call. intros Hl d d' res Hw Hds. assert (r <> run_id) as Hne by congruence.
    destruct (drv_destroy_frame d d' res _ run_id r Hw (synthesised_names d run_id) Hds) as [Hw' Hr].
    split; [done|]. by apply Hr.
  - intros [ex|] e' _; apply spares_audit.
Qed.

(** Other sessions may commit anything, runs they launch included; when [r] is
    live after a commit, its workload is there. *)
Definition serves (r : Z) (oid : nat) (others : nat -> nat -> E -> E) : Prop :=
  forall k j e, served r oid e -> served r oid (others k j e).

Definition keeps_live (r : Z) (others : nat -> nat -> E -> E) : Prop :=
  forall k j e, live_now r e = true -> live_now r (others k j e) = true.

Section Sweeping.
Context (others : nat -> nat -> E -> E) (r : Z) (oid : nat) (Hothers : serves r oid others).

(** The relation of the whole sweep, its gaps included. *)
Definition swept (e e' : E) : Prop :=
  (served r oid e -> served r oid e')
  /\ (keeps_live r others -> live_now r e = true -> live_now r e' = true).

Global Instance swept_preorder : PreOrder swept.
Proof. split; [done|]. intros e1 e2 e3 [H1 L1] [H2 L2]. split; auto. Qed.

Lemma swept_spares {A} (m : M E A) e : transits (spares r oid) m e -> transits swept m e.
Proof. intros [Hs Hl]. split; [done|]. intros _ H1. congruence. Qed.

Lemma swept_gap k j e : swept e (others k j e).
Proof. split; [apply Hothers|]. intros Hk. apply Hk. Qed.

(** Even a stale stray list that names [r] does not harm it. *)
Lemma swept_strays oid' name strays : forall k j (e : E),
  transits swept (sweep_strays others k j oid' name strays) e.
Proof.
  induction strays as [|x strays IH]; intros k j e; cbn [sweep_strays]; [apply (transits_ret _)|].
  apply (transits_bind _); [|intros [] e' _; apply IH].
  unfold sweep_one, gap. apply (transits_modify _); [apply swept_gap|].
  apply (transits_get _). destruct (live_now x _) eqn:El; [apply (transits_ret _)|].
  by apply swept_spares, spares_destroy_stray.
Qed.

Lemma swept_driver oid' name k (e : E) : transits swept (sweep_driver others k oid' name) e.
Proof.
  unfold sweep_driver. apply (transits_bind _).
  - apply (transits_catch _); [|intros ex e' _; apply (transits_ret _)].
    apply (transits_bind _); [|intros s e' _; apply (transits_ret _)].
    apply swept_spares, spares_call. intros _ d d' res Hw Hd.
    destruct (drv_list_frame d d' res Hw Hd) as [Hw' ->]. done.
  - intros [s|] e' _; [|apply (transits_ret _)]. unfold gap.
    apply (transits_modify _); [apply swept_gap|]. apply (transits_get _). apply swept_strays.
Qed.

Lemma swept_drivers drivers : forall k seen (e : E),
  transits swept (sweep_drivers others k seen drivers) e.
Proof.
  induction drivers as [|[name [oid'|]] drivers IH]; intros k seen e; cbn [sweep_drivers];
    [apply (transits_ret _)| |apply IH].
  destruct (bool_decide _); [apply IH|]. apply (transits_bind _); [apply swept_driver|].
  intros [] e' _. apply IH.
Qed.
End Sweeping.

(** C14: the boot sweep never takes the workload from under a live run, not even
    of one that another session launches while the sweep is under way.  Let the
    other sessions commit what they like at every [db.commit()] of the sweep,
    as long as a run that is live after their commit has its workload on its
    driver: then a run that is live when the sweep ends has its workload,
    whenever it became live and whatever the drivers listed, refused or failed
    to do; and the sweep itself ends no run. *)
Theorem sweep_spares_live_runs (e : E) others drivers (r : Z) (oid : nat) :
  serves r oid others -> served r oid e ->
  let e' := fst (sweep_stray_fleets others drivers e) in
  (live_now r e' = true -> hosted r oid e')
  /\ (keeps_live r others -> live_now r e = true -> live_now r e' = true).
Proof.
  intros Ho Hs e'. assert (transits (swept others r oid) (sweep_stray_fleets others drivers) e) as [H1 H2].
  { unfold sweep_stray_fleets. destruct (bool_decide _); [apply (transits_ret _)|]. unfold gap.
    apply (transits_modify _); [by apply swept_gap|]. by apply swept_drivers. }
  split; [by apply H1|exact H2].
Qed.
End Spared.

(** ** The tick keeps every run well formed *)

Section TickSound.
Context {D : Type} `{Env D}.
Abbreviation W := (world D).
Abbreviation E := (estate D).

Definition estate_inv (e : E) : Prop := forall i r, e_rows e !! i = Some r -> Inv (focus e r).

Definition row_evolves (r r' : row) : Prop :=
  run_evolves (row_run r) (row_run r') /\ row_events r `prefix_of` row_events r'.

Global Instance row_evolves_preorder : PreOrder row_evolves.
Proof.
  split; [by split|]. intros r1 r2 r3 [H1 H2] [H3 H4]. split; by etrans.
Qed.

Record estate_evolves (e e' : E) : Prop := mkEstateEvolves {
  ee_rows : Forall2 row_evolves (e_rows e) (e_rows e');
  ee_tokens : (e_tokens e <= e_tokens e')%nat;
  ee_now : e_now e' = e_now e;
}.

Definition esound (e e' : E) : Prop := estate_inv e -> estate_inv e' /\ estate_evolves e e'.

Global Instance esound_preorder : PreOrder esound.
Proof.
  split.
  - intros e Hi. split; [done|]. split; [reflexivity|lia|done].
  - intros e1 e2 e3 H1 H2 Hi. destruct (H1 Hi) as [Hi2 [R1 T1 N1]].
    destruct (H2 Hi2) as [Hi3 [R2 T2 N2]]. split; [done|]. split; [by etrans|lia|congruence].
Qed.

Lemma esound_on_row i (m : M W unit) (e : E) :
  (forall w, transits sound m w) -> transits esound (on_row i m) e.
Proof.
  intros Hm Hi. unfold on_row. destruct (e_rows e !! i) as [r|] eqn:Er; [|by apply esound_preorder].
  destruct (Hm (focus e r) (Hi i r Er)) as [Hi' [Hrun Hlog Hclk Htok Hids]].
  destruct (m (focus e r)) as [w res]. cbn in *. split.
  - intros j r' Hj. cbn in Hj. destruct (decide (i = j)) as [<-|Hne].
    + rewrite list_lookup_insert_eq in Hj by (by eapply lookup_lt_Some). injection Hj as <-.
      destruct Hi' as [? Hw]. split; [done|]. by eapply lease_wf_ext; [..|exact Hw].
    + rewrite list_lookup_insert_ne in Hj by done. destruct (Hi j r' Hj) as [Hr' Hw'].
      split; [done|]. by eapply lease_wf_ext; [..|exact Hw'].
  - split; [|done|done]. cbn. apply Forall2_same_length_lookup. split; [by rewrite length_insert|].
    intros j x y Hx Hy. destruct (decide (i = j)) as [<-|Hne].
    + rewrite list_lookup_insert_eq in Hy by (by eapply lookup_lt_Some). injection Hy as <-.
      rewrite Er in Hx. injection Hx as <-. split; [done|exact (logged_prefix _ _ Hlog)].
    + rewrite list_lookup_insert_ne in Hy by done. rewrite Hx in Hy. by injection Hy as <-.
Qed.

Lemma esound_swallow {A} (m : M E A) h (e : E) :
  transits esound m e -> (forall ex e', transits esound (h ex) e') -> transits esound (catch m h) e.
Proof. intros Hm Hh. apply (transits_catch _); [done|]. intros; apply Hh. Qed.

(** one supervisor tick over the whole estate, with any of its runs failing
    in any step, keeps every run and its leases well formed; every run moves
    along the state machine only (a terminal run stays as it is), and no audit
    trail loses an entry. *)
Theorem tick_keeps_estate (e : E) drivers boot flushed :
  estate_inv e ->
  let e' := fst (supervisor_tick drivers boot flushed e) in
  estate_inv e' /\ Forall2 row_evolves (e_rows e) (e_rows e').
Proof.
  intros Hi. assert (transits esound (supervisor_tick drivers boot flushed) e) as Ht.
  { unfold supervisor_tick. apply (transits_get _). apply (transits_bind _).
    - apply (transits_for_each _). intros i e' _. apply esound_swallow; [|intros; apply (transits_ret _)].
      apply esound_on_row. intros w. apply sound_supervise_run.
    - intros [] e' _. apply esound_swallow; [|intros; apply (transits_ret _)].
      unfold reap_terminal_fleets. destruct (bool_decide _); [apply (transits_ret _)|].
      apply (transits_get _). apply (transits_for_each _). intros i e2 _. apply esound_on_row.
      intros w. apply sound_destroy_fleet. }
  destruct (Ht Hi) as [Hi' [Hr _ _]]. done.
Qed.

(** ** Boot reconciliation of one run *)

(** at boot, a run that never got a fleet is failed as orphaned; a run whose
    driver cannot be had, or whose probe fails, is left alone; a run whose
    workload is gone is failed as orphaned and its leases are resolved; any
    other run is adopted, its row and leases untouched. *)
Theorem boot_adopts_or_fails (w : W) drivers :
  builds_or_driver_error ->
  let failed w' := w_run w' = run_after Failed (Some "orphaned") (w_now w) (w_run w) in
  exists w', reconcile_run drivers w = (w', Ok tt)
    /\ match driver_ref_of (w_run w) with
       | None => failed w' /\ w_leases w' = w_leases w
       | Some ref =>
           (w_run w' = w_run w /\ w_leases w' = w_leases w)
           \/ (failed w' /\ (forall l, l ∈ w_leases w' -> l_state l = LDone \/ l_state l = LLost)
               /\ exists (d d' : D) s, drv_status d ref = (d', Ok s) /\ st_running s <= 0 /\ st_desired s <= 0)
       end.
Proof.
  intros Hb failed. unfold reconcile_run. run. destruct (driver_ref_of (w_run w)) as [ref|].
  2:{ unfold transition_run. eexists. split; [reflexivity|]. split; [apply w_run_transition|apply transition_leases]. }
  destruct (returns_inv _ _ _ (get_run_driver_quiet drivers w (builds_all _ w Hb))) as (w1 & oid & E1 & [Q1 Q2 _ Q4 _]).
  erewrite run_bind by exact E1. destruct oid as [oid|]; [|eexists; split; [reflexivity|]; by left].
  destruct (call oid (fun d => drv_status d ref) w1) as [w2 [s|ex]] eqn:E2.
  - assert (quiet w1 w2) as [R1 R2 _ R4 _].
    { pose proof (quiet_call oid (fun d => drv_status d ref) w1) as Hq. unfold transits in Hq. by rewrite E2 in Hq. }
    erewrite run_bind; [|unfold catch; erewrite run_bind by exact E2; reflexivity]. cbv beta iota.
    destruct ((st_running s <=? 0) && (st_desired s <=? 0)) eqn:Ez.
    + apply andb_true_iff in Ez as [Ez1 Ez2]. apply Z.leb_le in Ez1, Ez2.
      unfold transition_run. run. eexists. split; [reflexivity|]. right. split; [|split].
      * unfold failed. change (w_run (transition_world Failed [("reason", jstr "workload absent at boot")]
          "system" (Some "orphaned") w2) = run_after Failed (Some "orphaned") (w_now w) (w_run w)).
        rewrite w_run_transition. congruence.
      * intros l Hl. cbn in Hl. apply list_elem_of_fmap in Hl as (l0 & -> & _).
        unfold lost_if, is_final, in_state. destruct (l_state l0) eqn:El; cbn; auto.
      * unfold call in E2. destruct (_ !! oid) as [d|]; [|done].
        destruct (drv_status d ref) as [d' r] eqn:Es. injection E2 as _ ->. exists d, d', s. auto.
    + unfold append_event. eexists. split; [reflexivity|]. left. cbn. split; congruence.
  - assert (quiet w1 w2) as [R1 R2 _ R4 _].
    { pose proof (quiet_call oid (fun d => drv_status d ref) w1) as Hq. unfold transits in Hq. by rewrite E2 in Hq. }
    erewrite run_bind; [|unfold catch; erewrite run_raise by exact E2; reflexivity].
    eexists. split; [reflexivity|]. left. split; congruence.
Qed.
End TickSound.

(** ** Witnesses *)

(** Two runs share one driver: the demo run, live, and a run that ended. *)
Definition demo_estate : estate FakeDriver :=
  mkEstate (w_now demo_running)
    [row_of demo_running; row_of (with_run (fun r => set_state Stopped (set_ended_at (Some 0) r)) demo_running)]
    (w_targets demo_running) (w_registry demo_running) (w_tokens demo_running).

(** The run's workload is up and listed, but its row is committed only at the
    last gap before its destroy. *)
Definition demo_launching : estate FakeDriver :=
  mkEstate (e_now demo_estate) [] (e_targets demo_estate) (e_registry demo_estate) (e_tokens demo_estate).

Definition demo_launch (k j : nat) (e : estate FakeDriver) : estate FakeDriver :=
  if bool_decide ((k, j) = (1, 1)%nat)
  then mkEstate (e_now e) (e_rows demo_estate) (e_targets e) (e_registry demo_estate) (e_tokens e)
  else e.

Lemma demo_estate_hosted : hosted 42 0 demo_estate.
Proof.
  eexists. split; [vm_compute; reflexivity|]. split.
  - split.
    + vm_compute. apply NoDup_singleton.
    + intros k s Hin r. apply list_elem_of_singleton in Hin. injection Hin as -> _. discriminate.
  - apply elem_of_fake_owned. eexists _, _. split; [left|]. vm_compute. auto.
Qed.

Lemma sweep_spares_live_runs_witness :
  let e' := fst (sweep_stray_fleets demo_launch demo_drivers demo_launching) in
  live_now 42 demo_launching = false /\ live_now 42 e' = true /\ hosted 42 0 e'.
Proof.
  intros e'. split; [vm_compute; reflexivity|].
  assert (live_now 42 e' = true) as Hl by (vm_compute; reflexivity). split; [done|].
  apply (sweep_spares_live_runs demo_launching demo_launch demo_drivers 42 0).
  - intros k j e Hs. unfold demo_launch. case_bool_decide; [|exact Hs].
    intros _. exact demo_estate_hosted.
  - intros Hl0. vm_compute in Hl0. discriminate.
  - exact Hl.
Defined.

(** The estate of one run. *)
Definition estate_of {D} (w : world D) : estate D :=
  mkEstate (w_now w) [row_of w] (w_targets w) (w_registry w) (w_tokens w).

Lemma estate_of_inv {D} `{Env D} (w : world D) : Inv w -> estate_inv (estate_of w).
Proof.
  intros [H1 H2] [|i] r Hr; [|done]. injection Hr as <-. split; [exact H1|].
  by eapply lease_wf_ext; [..|exact H2].
Qed.

Definition demo_single : estate FakeDriver := estate_of demo_running.

Lemma tick_keeps_estate_witness :
  let e' := fst (supervisor_tick demo_drivers 0 (fun _ => true) demo_single) in
  estate_inv e' /\ Forall2 row_evolves (e_rows demo_single) (e_rows e').
Proof.
  apply (tick_keeps_estate demo_single demo_drivers 0 (fun _ => true)).
  exact (estate_of_inv demo_running demo_running_inv).
Defined.

Lemma boot_adopts_or_fails_witness :
  let failed w' := w_run w' = run_after Failed (Some "orphaned") (w_now demo_running) (w_run demo_running) in
  exists w', reconcile_run demo_drivers demo_running = (w', Ok tt)
    /\ match driver_ref_of (w_run demo_running) with
       | None => failed w' /\ w_leases w' = w_leases demo_running
       | Some ref =>
           (w_run w' = w_run demo_running /\ w_leases w' = w_leases demo_running)
           \/ (failed w' /\ (forall l, l ∈ w_leases w' -> l_state l = LDone \/ l_state l = LLost)
               /\ exists (d d' : FakeDriver) s, drv_status d ref = (d', Ok s)
                    /\ st_running s <= 0 /\ st_desired s <= 0)
       end.
Proof. exact (boot_adopts_or_fails demo_running demo_drivers demo_builds). Defined.
