(* ===== verification/Scaling.v ===== *)
(** * Changing the fleet and the rate

    A scale or a rescale re-divides the run's rate over the whole fleet: the
    shares sum to it again, workers in contact are told on their next
    heartbeat, and a slot that was scaled out is superseded. *)

From S2P Require Import Prelude.
From S2P Require Import PyFloat.
From S2P Require Import PyValue.
From S2P Require Import Apportion.
From S2P Require Import Driver.
From S2P Require Import Model.
From S2P Require Import Shares.
From S2P Require Import Session.
From S2P Require Import Protocol.
From S2P Require Import Operators.
From S2P Require Import Provision.
From S2P Require Import Scenario.
From S2P Require Import Supervisor.
From S2P Require Import Invariants.
From S2P Require Import Soundness.
From S2P Require Import Updates.
From S2P Require Import Launch.
From S2P Require Import Trace.
From S2P Require Import Release.
From S2P Require Import Heartbeat.
From S2P Require Import Completion.
From S2P Require Import Supervision.
From Stdlib Require Import QArith Qabs.
Open Scope Z_scope.

(** A lease of the fleet after a new share was assigned to it: same identity and
    state; a worker in contact is flagged. *)
Definition reassigned (l l' : WorkerLease) : Prop :=
  l_slot l' = l_slot l /\ l_id l' = l_id l /\ l_holder l' = l_holder l /\ l_state l' = l_state l
  /\ (live (l_state l) = true -> l_share l' !! RETARGET_MARKER = Some (VBool true)).

Lemma assign_share_reassigned shares l : is_Some (shares !! l_slot l) -> reassigned l (assign_share shares l).
Proof.
  intros [s Hs]. unfold reassigned, assign_share. rewrite Hs. destruct (live (l_state l)) eqn:El.
  - repeat split. intros _. apply mark_retarget_flag.
  - repeat split. done.
Qed.

Lemma assign_share_value mode shares l s :
  is_private mode = false -> shares !! l_slot l = Some s ->
  share_value mode (l_share (assign_share shares l)) = share_value mode s.
Proof.
  intros Hm Hs. unfold assign_share. rewrite Hs. destruct (live (l_state l)); [|done].
  by apply share_value_mark_retarget.
Qed.

(** Shares assigned slot by slot carry the same total. *)
Lemma assign_shares_rate mode shares ls :
  is_private mode = false -> l_slot <$> ls = seq 0 (length ls) -> length shares = length ls ->
  fleet_rate mode (assign_share shares <$> ls) = qsum (share_value mode <$> shares).
Proof.
  intros Hm Hs Hlen. unfold fleet_rate. f_equal. apply list_eq. intros i.
  rewrite !list_lookup_fmap. destruct (ls !! i) as [l|] eqn:El.
  - assert (l_slot l = i) as Hi.
    { assert ((l_slot <$> ls) !! i = Some (l_slot l)) as Hli by (by rewrite list_lookup_fmap, El).
      rewrite Hs in Hli. by apply lookup_seq in Hli as [-> _]. }
    apply lookup_lt_Some in El. destruct (lookup_lt_is_Some_2 shares i) as [s Es]; [lia|].
    rewrite Es. cbn. f_equal. apply assign_share_value; [done|]. by rewrite Hi.
  - apply lookup_ge_None in El. by rewrite (proj2 (lookup_ge_None shares i)) by lia.
Qed.

Section Scaling.
Context {D : Type} `{Env D}.
Abbreviation W := (world D).

(** The leases after a resize to [n] slots. *)
Lemma resize_eq n (w : W) :
  lease_wf w -> 1 <= n ->
  exists w', resize_leases n w = (w', Ok tt) /\ w_run w' = w_run w
    /\ length (w_leases w') = Z.to_nat n
    /\ (forall i l, w_leases w !! i = Some l -> (i < Z.to_nat n)%nat -> w_leases w' !! i = Some l).
Proof.
  intros Hw Hn. unfold resize_leases. run. destruct (Z.ltb_spec (Z.of_nat (length (w_leases w))) n).
  - rewrite seed_from_eq. eexists. split; [reflexivity|]. split; [done|]. cbn. split.
    + rewrite length_app, seeded_length, length_replicate. lia.
    + intros i l Hl _. by apply lookup_app_l_Some.
  - destruct (Z.ltb_spec n (Z.of_nat (length (w_leases w)))).
    + eexists. split; [reflexivity|]. split; [done|]. cbn.
      rewrite (filter_below n _ 0) by apply Hw. rewrite Nat.sub_0_r. split; [rewrite length_take; lia|].
      intros i l Hl Hi. by rewrite lookup_take_lt.
    + eexists. split; [reflexivity|]. split; [done|]. split; [lia|done].
Qed.

(** A heartbeat from a slot the run does not have is superseded. *)
Lemma unknown_slot_superseded (w : W) slot lid p :
  lease_wf w -> (length (w_leases w) <= slot)%nat ->
  record_heartbeat slot lid p w = (w, Ok (mkResponse Superseded None None)).
Proof.
  intros Hw Hs. unfold record_heartbeat, find_lease. run. rewrite lookup_slot_index by done.
  by rewrite lookup_ge_None_2.
Qed.

(** The driver call of a scale that went through leaves the rows alone. *)
Definition scale_call (oid : nat) (ref : option DriverRef) (n : Z) : M W unit :=
  match ref with
  | None => mret tt
  | Some ref =>
      catch (call oid (fun d => drv_scale d ref n))
        (fun e => _ ← driver_error "scale" e; raise e)
  end.

Lemma scale_call_frame oid ref n (w w' : W) :
  scale_call oid ref n w = (w', Ok tt) -> Inv w -> quiet w w' /\ Inv w'.
Proof.
  intros E Hi. assert (transits quiet (scale_call oid ref n) w /\ transits sound (scale_call oid ref n) w)
    as [Hq Hs].
  { split; (destruct ref as [ref|]; [|by apply (transits_ret _)]).
    - apply (transits_catch _); [apply quiet_call|]. intros e w1 _. unfold driver_error, append_event.
      apply (transits_modify _); [by apply quiet_push_event|]. apply (transits_raise _).
    - apply (transits_catch _); [apply sound_call|]. intros e w1 _.
      apply (transits_bind _); [apply sound_driver_error|]. intros [] w2 _. apply (transits_raise _). }
  unfold transits in *. rewrite E in *. split; [done|]. apply (Hs Hi).
Qed.

(** The leases a scale that goes through leaves: those of the resized fleet, with
    the new shares assigned. *)
Lemma scale_run_leases (w w' : W) drv n actor mode v shares
    (workers := effective_workers (sn_engine (snap_of (w_run w))) n) :
  Inv w -> terminal (r_state (w_run w)) = false -> scale_run drv n actor w = (w', Ok tt) ->
  rate_mode_of (snap_of (w_run w)) = mode -> sn_rate_value (snap_of (w_run w)) = Some v ->
  build_share_list mode (Some v) workers = Ok shares ->
  sn_workers (snap_of (w_run w')) = Some workers /\
  exists w2, w_leases w' = assign_share shares <$> w_leases w2 /\ lease_wf w2 /\
    length (w_leases w2) = Z.to_nat workers /\
    (forall i l, w_leases w !! i = Some l -> (i < Z.to_nat workers)%nat -> w_leases w2 !! i = Some l).
Proof.
  intros Hi Ht E Em Ev Esh.
  assert (1 <= workers) as H1 by (subst workers; unfold effective_workers; case_bool_decide; lia).
  revert E. unfold scale_run, apply_shares, on_run, append_event. run.
  destruct (n <? 1); [done|]. rewrite Ht. fold workers.
  destruct (rotation_guard _ _) as [[]|e]; [run|done].
  fold (scale_call drv (driver_ref_of (w_run w)) workers).
  destruct (scale_call drv (driver_ref_of (w_run w)) workers w) as [w1 [[]|e]] eqn:E1;
    [|by erewrite run_raise by exact E1]. erewrite run_bind by exact E1.
  destruct (scale_call_frame _ _ _ _ _ E1 Hi) as [[Q1 Q2 _ _ _] [_ Hw1]].
  destruct (resize_eq workers w1 Hw1 H1) as (w2 & E2 & Hr2 & Hl2 & Hs2). erewrite run_bind by exact E2.
  assert (lease_wf w2) as Hw2.
  { pose proof (sound_resize_leases workers w1) as Hsnd. unfold transits in Hsnd. rewrite E2 in Hsnd.
    assert (Inv w1) as Hi1 by (split; [rewrite Q1; apply Hi|done]). apply (Hsnd Hi1). }
  rewrite Em, Ev, Esh. run. intros E.
  split; [by injection E as <-|]. exists w2. split_and!; [by injection E as <-|done|done|].
  intros i l Hl Hlt. rewrite <- Q2 in Hl. by apply Hs2.
Qed.

(** a scale that goes through leaves exactly the requested number of slots
    (one for an engine that cannot be shared); their shares sum to the run's
    rate again (within four unit roundoffs); the slots kept have their lease,
    holder and state, and those in contact are flagged to be told their new
    share; and a worker of a slot that was scaled out is superseded at its next
    heartbeat. *)
Theorem scale_conserves_rate (w w' : W) drv n actor mode v
    (workers := effective_workers (sn_engine (snap_of (w_run w))) n) :
  Inv w -> terminal (r_state (w_run w)) = false -> scale_run drv n actor w = (w', Ok tt) ->
  rate_mode_of (snap_of (w_run w)) = mode -> gated mode ->
  sn_rate_value (snap_of (w_run w)) = Some v -> (0 < v)%Q -> 8 * workers <= 2 ^ 53 ->
  length (w_leases w') = Z.to_nat workers /\ sn_workers (snap_of (w_run w')) = Some workers
  /\ (Qabs (fleet_rate mode (w_leases w') - v) <= 4 * eps * v)%Q
  /\ (forall i l, w_leases w !! i = Some l -> (i < Z.to_nat workers)%nat ->
        exists l', w_leases w' !! i = Some l' /\ reassigned l l')
  /\ (forall slot lid p, (Z.to_nat workers <= slot)%nat ->
        record_heartbeat slot lid p w' = (w', Ok (mkResponse Superseded None None))).
Proof.
  intros Hi Ht E Em Hm Ev Hv Hn.
  assert (Inv w') as Hi' by (destruct (sound_scale_run drv n actor w Hi) as [Hi' _]; by rewrite E in Hi').
  assert (1 <= workers) as H1 by (subst workers; unfold effective_workers; case_bool_decide; lia).
  destruct (build_share_list_ok mode v workers Hm Hv H1 Hn) as (shares & Esh & Hlen & _ & Hsum).
  destruct (scale_run_leases w w' drv n actor mode v shares Hi Ht E Em Ev Esh)
    as (Hk & w2 & El & Hw2 & Hl2 & Hs2). fold workers in Hk, Hl2, Hs2.
  assert (length (w_leases w') = Z.to_nat workers) as Hlw by (by rewrite El, length_fmap).
  split; [done|]. split; [done|]. split.
  - rewrite El, assign_shares_rate; [exact Hsum|by apply gated_public|apply Hw2|congruence].
  - split.
    + intros i l Hl Hlt. specialize (Hs2 i l Hl Hlt). rewrite El, list_lookup_fmap, Hs2.
      eexists. split; [reflexivity|]. apply assign_share_reassigned.
      rewrite (lease_index _ _ _ Hw2 Hs2). apply lookup_lt_is_Some_2. lia.
    + intros slot lid p Hsl. apply unknown_slot_superseded; [apply Hi'|]. lia.
Qed.

(** Every lease of a fleet of the right size gets one of the shares. *)
Lemma assigned_forall mode (P : Q -> Prop) shares (w : W) :
  is_private mode = false -> lease_wf w -> length shares = length (w_leases w) ->
  Forall (fun s => P (share_value mode s)) shares ->
  Forall (fun l => P (share_value mode (l_share l))) (assign_share shares <$> w_leases w).
Proof.
  intros Hp Hw Hlen Hs. apply Forall_fmap, Forall_forall. intros l Hin.
  apply list_elem_of_lookup in Hin as [i Hl].
  destruct (lookup_lt_is_Some_2 shares i) as [s Es]; [apply lookup_lt_Some in Hl; lia|].
  unfold compose. rewrite (assign_share_value mode shares l s);
    [|done|by rewrite (lease_index _ _ _ Hw Hl)].
  by eapply (Forall_lookup_1 _ _ _ _ Hs).
Qed.

(** a rescale of a run that is not over gives every slot a new share; the
    shares sum to the new rate (within four unit roundoffs), identities, holders
    and states are kept, and workers in contact are flagged. *)
Theorem rescale_conserves_rate (w : W) actor mode v :
  Inv w -> terminal (r_state (w_run w)) = false -> w_leases w <> [] ->
  rate_mode_of (snap_of (w_run w)) = mode -> gated mode -> (0 < v)%Q ->
  8 * Z.of_nat (length (w_leases w)) <= 2 ^ 53 ->
  exists w', rescale_run (Some v) actor w = (w', Ok tt)
    /\ sn_rate_value (snap_of (w_run w')) = Some v
    /\ (Qabs (fleet_rate mode (w_leases w') - v) <= 4 * eps * v)%Q
    /\ Forall2 reassigned (w_leases w) (w_leases w').
Proof.
  intros Hi Ht Hne Em Hm Hv Hn. pose proof (inv_leases _ Hi) as Hw.
  assert (1 <= Z.of_nat (length (w_leases w))) as H1 by (destruct (w_leases w); cbn; [done|lia]).
  destruct (build_share_list_ok mode v _ Hm Hv H1 Hn) as (shares & Esh & Hlen & _ & Hsum).
  rewrite Nat2Z.id in Hlen.
  unfold rescale_run, apply_shares, on_run, append_event. run. rewrite Ht.
  rewrite (proj2 (Nat.ltb_ge _ _)) by lia. rewrite Em, Esh. run. eexists. split; [reflexivity|].
  match goal with |- context [w_leases ?x] =>
    change (w_leases x) with (assign_share shares <$> w_leases w) end.
  split; [done|]. split.
  - rewrite assign_shares_rate; [exact Hsum|by apply gated_public|apply Hw|done].
  - apply Forall2_fmap_r, Forall_Forall2_diag, Forall_forall. intros l Hin.
    apply assign_share_reassigned. apply list_elem_of_lookup in Hin as [i Hl].
    rewrite (lease_index _ _ _ Hw Hl). apply lookup_lt_is_Some_2. apply lookup_lt_Some in Hl. lia.
Qed.
End Scaling.

(** ** Witnesses *)

Definition demo_scaled : world FakeDriver := fst (scale_run 0 2 "alice" demo_running).

Lemma scale_conserves_rate_witness :
  length (w_leases demo_scaled) = 2%nat /\ sn_workers (snap_of (w_run demo_scaled)) = Some 2
  /\ (Qabs (fleet_rate "eps" (w_leases demo_scaled) - 100) <= 4 * eps * 100)%Q
  /\ (forall i l, w_leases demo_running !! i = Some l -> (i < 2)%nat ->
        exists l', w_leases demo_scaled !! i = Some l' /\ reassigned l l')
  /\ (forall slot lid p, (2 <= slot)%nat ->
        record_heartbeat slot lid p demo_scaled
        = (demo_scaled, Ok (mkResponse Superseded None None))).
Proof.
  apply (scale_conserves_rate demo_running demo_scaled 0 2 "alice" "eps" 100).
  - apply demo_running_inv.
  - vm_compute. reflexivity.
  - vm_compute. reflexivity.
  - vm_compute. reflexivity.
  - by left.
  - vm_compute. reflexivity.
  - vm_compute. reflexivity.
  - vm_compute. discriminate.
Defined.

Lemma rescale_conserves_rate_witness :
  exists w', rescale_run (Some 250%Q) "alice" demo_running = (w', Ok tt)
    /\ sn_rate_value (snap_of (w_run w')) = Some 250%Q
    /\ (Qabs (fleet_rate "eps" (w_leases w') - 250) <= 4 * eps * 250)%Q
    /\ Forall2 reassigned (w_leases demo_running) (w_leases w').
Proof.
  apply (rescale_conserves_rate demo_running "alice" "eps" 250).
  - apply demo_running_inv.
  - vm_compute. reflexivity.
  - vm_compute. discriminate.
  - vm_compute. reflexivity.
  - by left.
  - vm_compute. reflexivity.
  - vm_compute. discriminate.
Defined.
