(* ===== verification/RunApi.v ===== *)
(** * The operator's requests on a run (server/routes/api.py: delete, stop,
    pause, resume, scale and rescale)

    Each request is the route's checks in order, the lifecycle operation of
    [Operators], and the commit or rollback of its session.

    The theorems: a request the run's state does not allow is refused and changes
    nothing, a served one has done what it says, and all keep the run well formed; a run that is resized or given a new rate stays within the ceilings
    of its engine; only a finished run is deleted, after its fleet. *)

From S2P Require Import Prelude.
From S2P Require Import PyFloat.
From S2P Require Import PyValue.
From S2P Require Import Apportion.
From S2P Require Import ConfRewrite.
From S2P Require Import Packs.
From S2P Require Import Merge.
From S2P Require Import Driver.
From S2P Require Import Model.
From S2P Require Import Shares.
From S2P Require Import Session.
From S2P Require Import Protocol.
From S2P Require Import Operators.
From S2P Require Import Provision.
From S2P Require Import Ceilings.
From S2P Require Import Gate.
From S2P Require Import Scenario.
From S2P Require Import Supervisor.
From S2P Require Import Invariants.
From S2P Require Import Soundness.
From S2P Require Import Updates.
From S2P Require Import Launch.
From S2P Require Import Admission.
From S2P Require Import Trace.
From S2P Require Import Release.
From S2P Require Import Heartbeat.
From S2P Require Import Completion.
From S2P Require Import Supervision.
From S2P Require Import Scaling.
From Stdlib Require Import QArith Qabs Qround Lqa.
Open Scope Z_scope.

(** ** Volumes and ceilings of a live run *)

Section Guard.
Context {R : Rounding} (repr_float : Q -> string) (private_host compiles : string -> bool).

(** The directories of a spec's extra packs; [None] when one is gone or has none. *)
Fixpoint extra_dirs (packs : gmap Z Pack) (ids : list Z) : option (list pack_dir) :=
  match ids with
  | [] => Some []
  | i :: ids =>
      match packs !! i with
      | Some p =>
          if bool_decide (is_Some (pk_builder p)) then None
          else match extra_dirs packs ids with Some ds => Some (pk_dir p :: ds) | None => None end
      | None => None
      end
  end.

(** [_spec_bytes_per_event] *)
Definition spec_bytes_per_event (t : tables) (row : SpecRow) : result (option Q) :=
  let pack := tb_packs t !! sr_pack_id row in
  let base := pack ≫= pk_bytes_per_event in
  match sr_extra_ids row, pack with
  | [], _ => Ok base
  | _, None => Ok base
  | ids, Some p =>
      if bool_decide (is_Some (pk_builder p)) then Ok base
      else match extra_dirs (tb_packs t) ids with
           | None => Ok base
           | Some ds =>
               merged ← merged_est_bytes_per_event repr_float private_host compiles (pk_dir p :: ds);
               Ok (or_else merged base)
           end
  end.

Context (ceiling_env : option ceiling_settings).

(** [a or b] on optional strings *)
Definition or_string (a b : option string) : option string :=
  match a with Some s => if bool_decide (s = "") then b else Some s | None => b end.

(** The engine, bounds and event size [_guard_run_ceiling] checks a run against. *)
Definition run_engine (row : option SpecRow) (snap : snapshot) : string :=
  default "eventgen" (or_string (sn_engine snap) (sp_engine ∘ sr_spec <$> row)).

Definition run_ceilings (t : tables) (fleets : gmap string fleet_row) (row : option SpecRow) (snap : snapshot)
    : option ceilings :=
  let fleet_name := or_string (sn_fleet snap) (sp_fleet ∘ sr_spec <$> row) in
  let limits :=
    match or_string fleet_name None with
    | Some name =>
        match fleets !! name with Some _ => default no_limits (tb_limits t !! name) | None => no_limits end
    | None => no_limits
    end in
  resolve_ceilings (run_engine row snap) ceiling_env (fm_gb_day limits) (fm_eps limits)
    (or_string (sn_eventgen_impl snap) (row ≫= sp_eventgen_impl ∘ sr_spec)).

Definition run_event_size (t : tables) (row : option SpecRow) : result (option Q) :=
  match row with Some row => spec_bytes_per_event t row | None => Ok None end.

(** [_guard_run_ceiling] *)
Definition guard_run_ceiling (t : tables) (fleets : gmap string fleet_row) (spec_id : Z) (snap : snapshot)
    (rate_mode : string) (rate_value : option Q) (workers : Z) : G unit :=
  per_worker ← compute (per_worker_share rate_mode rate_value workers);
  match per_worker with
  | None => mret tt
  | Some _ =>
      let row := tb_specs t !! spec_id in
      size ← compute (run_event_size t row);
      check ← compute (check_slice rate_mode per_worker size (run_engine row snap) (run_ceilings t fleets row snap));
      refuse_if (negb (ck_ok check)) (SliceExceedsCeiling check)
  end.
End Guard.

(** ** Requests *)

(** A route: it may change the session, and refuse or fail at any point. *)
Definition route (S A : Type) : Type := M S (refusal + A).
Global Instance route_ret {S} : MRet (route S) := fun A a s => (s, Ok (inr a)).
Global Instance route_bind {S} : MBind (route S) := fun A B f m s =>
  match m s with
  | (s', Ok (inr a)) => f a s'
  | (s', Ok (inl r)) => (s', Ok (inl r))
  | (s', Raise e) => (s', Raise e)
  end.
Definition deny {S A} (r : refusal) : route S A := fun s => (s, Ok (inl r)).
Definition demand {S A} (g : G A) : route S A := fun s => (s, g).
Definition effect {S A} (m : M S A) : route S A := fun s =>
  match m s with (s', Ok a) => (s', Ok (inr a)) | (s', Raise e) => (s', Raise e) end.

Section Requests.
Context {D : Type} `{Env D} (private_host compiles : string -> bool) (ceiling_env : option ceiling_settings)
  (t : tables) (spec_id : Z).
Abbreviation W := (world D).

(** A request's session over the database: what it has changed is seen by others
    once it commits. *)
Record txn : Type := mkTxn { tx_db : W; tx_session : W }.
Abbreviation act := (route txn).

Definition session {A} (m : route W A) : act A := fun s =>
  let '(w, r) := m (tx_session s) in (mkTxn (tx_db s) w, r).

Definition db_commit : act unit := fun s => (mkTxn (tx_session s) (tx_session s), Ok (inr tt)).

(** [except DriverError as exc]: a rollback, and a 502 that names the operation. *)
Definition or_502 {A} (op : string) (m : act A) : act A := fun s =>
  match m s with
  | (s', Raise (DriverError msg)) =>
      (mkTxn (tx_db s') (rollback (tx_db s') (tx_session s')), Ok (inl (DriverFailed op msg)))
  | out => out
  end.

Definition run_fleet_name (r : Run) : option string :=
  or_string (or_string (r_spec r ≫= sr_fleet) (sn_fleet (snap_of r))) None.

(** [_resolve_driver_quiet] *)
Definition resolve_driver_quiet : M W (option nat) :=
  w ← get;
  match run_fleet_name (w_run w) with
  | None => mret None
  | Some name =>
      catch (oid ← resolve_fleet_driver name; mret (Some oid))
        (fun e => match e with DriverError _ => mret None | e => raise e end)
  end.

(** [_run_driver] *)
Definition run_driver : route W nat :=
  d ← effect resolve_driver_quiet;
  match d with Some oid => mret oid | None => deny NoDriver end.

(** [_load_active_run]: the session's run, when it is the one asked for. *)
Definition load_active_run (run_id : Z) : route W Run :=
  w ← effect get;
  if negb (run_id =? r_id (w_run w)) then deny (NotFound "unknown run")
  else if terminal (r_state (w_run w)) then deny (NotActive (r_state (w_run w)))
  else mret (w_run w).

Definition reject_if_paused (r : Run) : act unit :=
  demand (refuse_if (bool_decide (r_state r = Paused)) RunPaused).

Definition stop_run_endpoint (run_id : Z) (force : bool) (actor : string) : act unit :=
  _ ← session (load_active_run run_id);
  driver ← session run_driver;
  _ ← or_502 "stop" (session (effect (stop_run driver force actor)));
  db_commit.

Definition pause_run_endpoint (run_id : Z) (actor : string) : act unit :=
  run ← session (load_active_run run_id);
  _ ← demand (refuse_if (negb (bool_decide (r_state run = Running))) NotRunning);
  _ ← demand (refuse_if (bool_decide (sn_rate_mode (snap_of run) = Some "count_interval")) PauseUnsupported);
  driver ← session (effect resolve_driver_quiet);
  _ ← session (effect (pause_run driver actor));
  db_commit.

Definition resume_run_endpoint (run_id : Z) (actor : string) : act unit :=
  run ← session (load_active_run run_id);
  _ ← demand (refuse_if (negb (bool_decide (r_state run = Paused))) NotPaused);
  driver ← session (effect resolve_driver_quiet);
  _ ← session (effect (resume_run driver actor));
  db_commit.

(** [int(snap.get("workers") or dflt)] *)
Definition snap_workers (snap : snapshot) (dflt : Z) : Z :=
  match sn_workers snap with Some n => if n =? 0 then dflt else n | None => dflt end.

Definition scale_run_endpoint (run_id workers : Z) (actor : string) : act unit :=
  if workers <? 1 then deny (BadRequest "workers must be >= 1")
  else
    run ← session (load_active_run run_id);
    _ ← reject_if_paused run;
    let snap := snap_of run in
    _ ← demand (refuse_if (negb (effective_workers (sn_engine snap) workers =? workers)) (ReplaySingleWorker workers));
    _ ← demand (refuse_if (match rotation_pins_fleet snap with
                           | Some _ => negb (workers =? snap_workers snap workers)
                           | None => false
                           end) RotationFixedFleet);
    w ← session (effect get);
    _ ← demand (guard_run_ceiling repr_float private_host compiles ceiling_env t (reg_fleets (w_registry w)) spec_id
                  snap (rate_mode_of snap) (sn_rate_value snap) workers);
    driver ← session run_driver;
    _ ← or_502 "scale" (session (effect (scale_run driver workers actor)));
    db_commit.

Definition rescale_run_endpoint (run_id : Z) (rate_value : Q) (actor : string) : act unit :=
  run ← session (load_active_run run_id);
  _ ← reject_if_paused run;
  _ ← demand (refuse_if (Qle_bool rate_value 0) (BadRequest "rate_value must be > 0"));
  let snap := snap_of run in
  w ← session (effect get);
  _ ← demand (guard_run_ceiling repr_float private_host compiles ceiling_env t (reg_fleets (w_registry w)) spec_id
                snap (rate_mode_of snap) (Some rate_value) (snap_workers snap 1));
  driver ← session run_driver;
  _ ← or_502 "rescale" (session (effect (rescale_run (Some rate_value) actor)));
  db_commit.

(** One of these requests. *)
Inductive run_request : Type :=
  | RStop (force : bool)
  | RPause
  | RResume
  | RScale (workers : Z)
  | RRescale (rate_value : Q).

Definition endpoint (q : run_request) (run_id : Z) (actor : string) : act unit :=
  match q with
  | RStop force => stop_run_endpoint run_id force actor
  | RPause => pause_run_endpoint run_id actor
  | RResume => resume_run_endpoint run_id actor
  | RScale workers => scale_run_endpoint run_id workers actor
  | RRescale rate_value => rescale_run_endpoint run_id rate_value actor
  end.

(** [get_db]: the session of a request is committed when the route returns, and
    rolled back when it raises; driver calls made and tokens drawn stay. *)
Definition handle_request (q : run_request) (run_id : Z) (actor : string) (w : W) : W * result (refusal + unit) :=
  let '(s, r) := endpoint q run_id actor (mkTxn w w) in
  match r with
  | Ok (inr _) => (tx_session s, r)
  | _ => (rollback (tx_db s) (tx_session s), r)
  end.

(** ** Deleting *)

(** A run's row, or what is left when it is gone with its leases, samples and
    events: the driver objects. *)
Inductive stored : Type := Stored (w : W) | Gone (registry : registry D).

Definition fleet_destroyed (w : W) : bool :=
  existsb (fun e => bool_decide (ev_kind e = "fleet_destroyed")) (w_events w).

(** What precedes the delete: the driver, and the fleet the reaper left. *)
Definition destroy_before_delete : M W unit :=
  driver ← resolve_driver_quiet;
  w ← get;
  match driver, driver_ref_of (w_run w) with
  | Some oid, Some ref =>
      if fleet_destroyed w then mret tt
      else catch (call oid (fun d => drv_destroy d ref)) (fun _ => mret tt)
  | _, _ => mret tt
  end.

Definition delete_run (run_id : Z) (w : W) : stored * result (refusal + unit) :=
  if negb (run_id =? r_id (w_run w)) then (Stored w, Ok (inl (NotFound "unknown run")))
  else if negb (terminal (r_state (w_run w))) then (Stored w, Ok (inl (NotActive (r_state (w_run w)))))
  else match destroy_before_delete w with
       | (w', Ok _) => (Gone (w_registry w'), Ok (inr tt))
       | (w', Raise e) => (Stored (rollback w w'), Raise e)
       end.
End Requests.
Arguments txn D : clear implicits. Arguments mkTxn {D}. Arguments tx_db {D}. Arguments tx_session {D}.

(** ** Reasoning about routes *)

Section Rules.
Context {S : Type}.

Lemma route_bind_inr {A B} (m : route S A) (f : A -> route S B) s s' b :
  (m ≫= f) s = (s', Ok (inr b)) -> exists s1 a, m s = (s1, Ok (inr a)) /\ f a s1 = (s', Ok (inr b)).
Proof. unfold mbind, route_bind. destruct (m s) as [s1 [[r|a]|e]]; [done|eauto|done]. Qed.

Lemma demand_inr {A} (g : G A) (s s' : S) a : demand g s = (s', Ok (inr a)) -> s' = s /\ g = Ok (inr a).
Proof. by intros [= -> ->]. Qed.

Lemma effect_inr {A} (m : M S A) s s' a : effect m s = (s', Ok (inr a)) -> m s = (s', Ok a).
Proof. unfold effect. destruct (m s) as [? [?|?]]; by intros [= -> ->]. Qed.

Context (R : S -> S -> Prop) `{!PreOrder R}.

Lemma transits_route {A B} (m : route S A) (f : A -> route S B) s :
  transits R m s -> (forall a s', transits R (f a) s') -> transits R (m ≫= f) s.
Proof.
  unfold transits, mbind, route_bind. intros Hm Hf. destruct (m s) as [s' [[r|a]|e]]; cbn in *; [done| |done].
  etrans; [done|apply Hf].
Qed.

Lemma transits_demand {A} (g : G A) s : transits R (@demand S A g) s.
Proof. unfold transits, demand. reflexivity. Qed.

Lemma transits_deny {A} r s : transits R (@deny S A r) s.
Proof. unfold transits, deny. reflexivity. Qed.

Lemma transits_reply {A} (a : A) s : transits R (mret a : route S A) s.
Proof. unfold transits. reflexivity. Qed.

Lemma transits_effect {A} (m : M S A) s : transits R m s -> transits R (effect m) s.
Proof. unfold transits, effect. by destruct (m s) as [? [?|?]]. Qed.

End Rules.

Ltac route_step :=
  match goal with
  | |- transits _ (demand _) _ => apply (transits_demand _)
  | |- transits _ (deny _) _ => apply (transits_deny _)
  | |- transits _ (effect get) _ => apply (transits_effect _); unfold transits; reflexivity
  | |- transits _ (effect _) _ => apply (transits_effect _)
  | |- transits _ (_ ≫= _) _ => apply (transits_route _); [|intros ? ?]
  | |- transits _ (mret _) _ => apply (transits_reply _)
  | |- transits _ (if ?b then _ else _) _ => destruct b
  | |- transits _ (match ?x with _ => _ end) _ => destruct x
  | |- transits _ (let _ := _ in _) _ => cbv zeta
  end.
Ltac routes := repeat (cbv beta; first [ solve [eauto with stoker] | route_step ]).

Section Sound.
Context {D : Type} `{Env D} (private_host compiles : string -> bool) (ceiling_env : option ceiling_settings)
  (t : tables) (spec_id : Z).
Abbreviation W := (world D).

Hint Resolve sound_get_driver sound_call sound_driver_error sound_fold_heartbeat_totals : stoker.

Lemma sound_resolve_driver_quiet (w : W) : transits sound resolve_driver_quiet w.
Proof. unfold resolve_driver_quiet, resolve_fleet_driver. transits. Qed.
Hint Resolve sound_resolve_driver_quiet : stoker.

Lemma sound_run_driver (w : W) : transits sound run_driver w.
Proof. unfold run_driver. routes. Qed.
Hint Resolve sound_run_driver : stoker.

Lemma sound_load_active_run run_id (w : W) : transits sound (load_active_run run_id) w.
Proof. unfold load_active_run. routes. Qed.
Hint Resolve sound_load_active_run : stoker.

(** Nothing is committed, and the session only does sound steps. *)
Abbreviation act := (route (txn D)).
Definition sound_txn (s s' : txn D) : Prop :=
  tx_db s' = tx_db s /\ (sound (tx_db s) (tx_session s) -> sound (tx_db s) (tx_session s')).

Global Instance sound_txn_preorder : PreOrder sound_txn.
Proof.
  split; [done|]. intros s1 s2 s3 [E1 H1] [E2 H2]. split; [congruence|]. rewrite E1 in H2. auto.
Qed.

Lemma sound_rollback (w w1 : W) : sound w w1 -> sound w (rollback w w1).
Proof.
  intros Hs Hi. destruct (Hs Hi) as [_ He]. destruct Hi as [Hr Hw]. split.
  - split; [done|]. eapply lease_wf_ext; [..|exact Hw]; try done. apply He.
  - split; cbn; [done|by apply logged_same|done|apply He|by apply ids_drawn_same].
Qed.

Lemma sound_session {A} (m : route W A) s : (forall w, transits sound m w) -> transits sound_txn (session m) s.
Proof.
  intros Hm. unfold transits, session. specialize (Hm (tx_session s)). unfold transits in Hm.
  destruct (m (tx_session s)) as [w r]. split; [done|]. intros Hs. by etrans.
Qed.

Lemma sound_or_502 {A} op (m : act A) s : transits sound_txn m s -> transits sound_txn (or_502 op m) s.
Proof.
  unfold transits, or_502. destruct (m s) as [s' [r|e]]; [done|]. intros [E Hs]. destruct e; try done.
  cbn in *. split; [done|]. intros H0. cbn. rewrite E. by apply sound_rollback, Hs.
Qed.

Ltac txn_step :=
  match goal with
  | |- transits _ (session _) _ => apply sound_session; intros ?; routes
  | |- transits _ (or_502 _ _) _ => apply sound_or_502
  | _ => route_step
  end.

(** The route up to its commit, which is its last step. *)
Definition uncommitted (q : run_request) (run_id : Z) (actor : string) : act unit :=
  match q with
  | RStop force =>
      _ ← session (load_active_run run_id);
      driver ← session run_driver;
      or_502 "stop" (session (effect (stop_run driver force actor)))
  | RPause =>
      run ← session (load_active_run run_id);
      _ ← demand (refuse_if (negb (bool_decide (r_state run = Running))) NotRunning);
      _ ← demand (refuse_if (bool_decide (sn_rate_mode (snap_of run) = Some "count_interval")) PauseUnsupported);
      driver ← session (effect resolve_driver_quiet);
      session (effect (pause_run driver actor))
  | RResume =>
      run ← session (load_active_run run_id);
      _ ← demand (refuse_if (negb (bool_decide (r_state run = Paused))) NotPaused);
      driver ← session (effect resolve_driver_quiet);
      session (effect (resume_run driver actor))
  | RScale workers =>
      if workers <? 1 then deny (BadRequest "workers must be >= 1")
      else
        run ← session (load_active_run run_id);
        _ ← reject_if_paused run;
        let snap := snap_of run in
        _ ← demand (refuse_if (negb (effective_workers (sn_engine snap) workers =? workers)) (ReplaySingleWorker workers));
        _ ← demand (refuse_if (match rotation_pins_fleet snap with
                               | Some _ => negb (workers =? snap_workers snap workers)
                               | None => false
                               end) RotationFixedFleet);
        w ← session (effect get);
        _ ← demand (guard_run_ceiling repr_float private_host compiles ceiling_env t (reg_fleets (w_registry w)) spec_id
                      snap (rate_mode_of snap) (sn_rate_value snap) workers);
        driver ← session run_driver;
        or_502 "scale" (session (effect (scale_run driver workers actor)))
  | RRescale rate_value =>
      run ← session (load_active_run run_id);
      _ ← reject_if_paused run;
      _ ← demand (refuse_if (Qle_bool rate_value 0) (BadRequest "rate_value must be > 0"));
      let snap := snap_of run in
      w ← session (effect get);
      _ ← demand (guard_run_ceiling repr_float private_host compiles ceiling_env t (reg_fleets (w_registry w)) spec_id
                    snap (rate_mode_of snap) (Some rate_value) (snap_workers snap 1));
      driver ← session run_driver;
      or_502 "rescale" (session (effect (rescale_run (Some rate_value) actor)))
  end.

Lemma route_assoc {A B C} (m : act A) (f : A -> act B) (g : B -> act C) s :
  ((m ≫= f) ≫= g) s = (m ≫= fun a => f a ≫= g) s.
Proof. unfold mbind, route_bind. by destruct (m s) as [s' [[r|a]|e]]. Qed.

Lemma route_bind_ext {A B} (m : act A) (f g : A -> act B) s :
  (forall a s', f a s' = g a s') -> (m ≫= f) s = (m ≫= g) s.
Proof. intros E. unfold mbind, route_bind. destruct (m s) as [s' [[r|a]|e]]; auto. Qed.

Lemma endpoint_commits q run_id actor s :
  endpoint private_host compiles ceiling_env t spec_id q run_id actor s
  = (uncommitted q run_id actor ≫= fun _ => db_commit) s.
Proof.
  destruct q; cbn [endpoint uncommitted];
    unfold stop_run_endpoint, pause_run_endpoint, resume_run_endpoint, scale_run_endpoint, rescale_run_endpoint;
    try (destruct (_ <? 1); [done|]);
    repeat (rewrite route_assoc; apply route_bind_ext; intros ? ?; cbv zeta; cbv beta); done.
Qed.

Lemma sound_uncommitted q run_id actor s : transits sound_txn (uncommitted q run_id actor) s.
Proof. destruct q; cbn [uncommitted]; unfold reject_if_paused; repeat (cbv beta; txn_step). Qed.

(** What a request leaves: what its session has, when it is served, and
    otherwise the rows as they were. *)
Lemma handle_outcome q run_id actor (w w' : W) r :
  handle_request private_host compiles ceiling_env t spec_id q run_id actor w = (w', r) -> Inv w ->
  Inv w' /\ history w w'
  /\ match r with
     | Ok (inr _) => exists s, uncommitted q run_id actor (mkTxn w w) = (s, Ok (inr tt)) /\ w' = tx_session s
     | _ => w' = rollback w w' /\ snd (uncommitted q run_id actor (mkTxn w w)) = r
     end.
Proof.
  intros E Hi. unfold handle_request in E. rewrite endpoint_commits in E.
  pose proof (sound_uncommitted q run_id actor (mkTxn w w)) as Hs. unfold transits in Hs.
  unfold mbind, route_bind in E.
  destruct (uncommitted q run_id actor (mkTxn w w)) as [s [[rf|[]]|e]]; cbn [fst] in Hs;
    destruct Hs as [Edb Hs]; cbn in Edb, Hs; specialize (Hs ltac:(reflexivity)); injection E as <- <-;
    cbn [tx_db tx_session].
  - rewrite Edb. destruct (sound_rollback _ _ Hs Hi) as [Hi' He].
    split; [done|]. split; [by apply evolves_history|]. by rewrite rollback_twice.
  - destruct (Hs Hi) as [Hi' He].
    split; [done|]. split; [by apply evolves_history|]. eauto.
  - rewrite Edb. destruct (sound_rollback _ _ Hs Hi) as [Hi' He].
    split; [done|]. split; [by apply evolves_history|]. by rewrite rollback_twice.
Qed.

(** ** The contract of the requests *)

(** Which requests the state of the run refuses, and with what. *)
Definition refused_by_run (q : run_request) (run_id : Z) (run : Run) : option refusal :=
  let snap := snap_of run in
  match q with
  | RScale n =>
      if n <? 1 then Some (BadRequest "workers must be >= 1")
      else if negb (run_id =? r_id run) then Some (NotFound "unknown run")
      else if terminal (r_state run) then Some (NotActive (r_state run))
      else if bool_decide (r_state run = Paused) then Some RunPaused
      else if bool_decide (effective_workers (sn_engine snap) n <> n) then Some (ReplaySingleWorker n)
      else if bool_decide (is_Some (rotation_pins_fleet snap) /\ snap_workers snap n <> n)
           then Some RotationFixedFleet
      else None
  | q =>
      if negb (run_id =? r_id run) then Some (NotFound "unknown run")
      else if terminal (r_state run) then Some (NotActive (r_state run))
      else
        match q with
        | RPause =>
            if bool_decide (r_state run <> Running) then Some NotRunning
            else if bool_decide (sn_rate_mode snap = Some "count_interval") then Some PauseUnsupported
            else None
        | RResume => if bool_decide (r_state run <> Paused) then Some NotPaused else None
        | RRescale v =>
            if bool_decide (r_state run = Paused) then Some RunPaused
            else if Qle_bool v 0 then Some (BadRequest "rate_value must be > 0")
            else None
        | _ => None
        end
  end.

(** What a served request has done to the run. *)
Definition served (q : run_request) (w w' : W) : Prop :=
  match q with
  | RStop force => r_state (w_run w') = Draining \/ (force = true /\ terminal (r_state (w_run w')) = true)
  | RPause => r_state (w_run w') = Paused /\ r_paused_at (w_run w') = Some (w_now w)
  | RResume => r_state (w_run w') = Running /\ r_paused_at (w_run w') = None
  | RScale _ | RRescale _ => r_state (w_run w') = r_state (w_run w)
  end.

Lemma load_active_run_eq run_id (w : W) :
  load_active_run run_id w
  = (w, Ok (if negb (run_id =? r_id (w_run w)) then inl (NotFound "unknown run")
            else if terminal (r_state (w_run w)) then inl (NotActive (r_state (w_run w)))
            else inr (w_run w))).
Proof.
  unfold load_active_run, mbind, route_bind, effect, get. cbn.
  destruct (negb _); [done|]. by destruct (terminal _).
Qed.

(** A refusal by the run is the first thing the route meets. *)
Lemma run_refuses q run_id actor (w : W) rf :
  refused_by_run q run_id (w_run w) = Some rf ->
  uncommitted q run_id actor (mkTxn w w) = (mkTxn w w, Ok (inl rf)).
Proof.
  assert (forall A (f : Run -> act A), (session (load_active_run run_id) ≫= f) (mkTxn w w)
    = if negb (run_id =? r_id (w_run w)) then (mkTxn w w, Ok (inl (NotFound "unknown run")))
      else if terminal (r_state (w_run w)) then (mkTxn w w, Ok (inl (NotActive (r_state (w_run w)))))
      else f (w_run w) (mkTxn w w)) as Hl.
  { intros A f. unfold mbind, route_bind, session. cbn [tx_session tx_db]. rewrite load_active_run_eq.
    destruct (negb _); [done|]. by destruct (terminal _). }
  assert (forall A b r0 (f : unit -> act A) s, (demand (refuse_if b r0) ≫= f) s
    = if b then (s, Ok (inl r0)) else f tt s) as Hd by (by intros A [] r0 f s).
  destruct q; cbn [refused_by_run uncommitted]; unfold reject_if_paused;
    rewrite ?Hl; try (destruct (_ <? 1); [by intros [= <-]|]); rewrite ?Hl;
    (destruct (negb (run_id =? _)); [by intros [= <-]|]); (destruct (terminal _); [by intros [= <-]|]);
    cbv zeta; rewrite ?Hd.
  - done.
  - destruct (bool_decide (r_state (w_run w) = Running)) eqn:E; cbn [negb].
    + apply bool_decide_eq_true in E. rewrite bool_decide_eq_false_2 by (by intros []).
      rewrite ?Hd. destruct (bool_decide (sn_rate_mode _ = _)); [by intros [= <-]|done].
    + apply bool_decide_eq_false in E. rewrite bool_decide_eq_true_2 by done. by intros [= <-].
  - destruct (bool_decide (r_state (w_run w) = Paused)) eqn:E; cbn [negb].
    + apply bool_decide_eq_true in E. by rewrite bool_decide_eq_false_2 by (by intros []).
    + apply bool_decide_eq_false in E. rewrite bool_decide_eq_true_2 by done. by intros [= <-].
  - destruct (bool_decide (r_state (w_run w) = Paused)); [by intros [= <-]|]. rewrite ?Hd.
    set (snap := snap_of (w_run w)).
    destruct (Z.eqb_spec (effective_workers (sn_engine snap) workers) workers) as [E|E]; cbn [negb].
    + rewrite bool_decide_eq_false_2 by (by intros []). rewrite ?Hd.
      destruct (rotation_pins_fleet snap) as [rot|].
      * destruct (Z.eqb_spec workers (snap_workers snap workers)) as [E'|E']; cbn [negb].
        -- rewrite bool_decide_eq_false_2; [done|]. intros [_ Hne]. by apply Hne.
        -- rewrite bool_decide_eq_true_2; [by intros [= <-]|]. split; [by eexists|]. congruence.
      * rewrite bool_decide_eq_false_2; [done|]. intros [[? ?] _]. done.
    + rewrite bool_decide_eq_true_2 by done. by intros [= <-].
  - destruct (bool_decide (r_state (w_run w) = Paused)); [by intros [= <-]|]. rewrite ?Hd.
    destruct (Qle_bool rate_value 0); [by intros [= <-]|done].
Qed.

(** ** Within the ceilings *)

Lemma resolve_quiet_frame (w : W) : exists reg, fst (resolve_driver_quiet w) = with_registry (fun _ => reg) w.
Proof.
  unfold resolve_driver_quiet, mbind, M_bind, get. cbn.
  destruct (run_fleet_name (w_run w)) as [name|]; [|exists (w_registry w); by destruct w].
  destruct (resolve_frame name w) as [reg E]. unfold catch.
  destruct (resolve_fleet_driver name w) as [w1 [oid|e]]; cbn in *; [by exists reg|].
  exists reg. by destruct e.
Qed.

Lemma run_driver_inr (w w' : W) oid : run_driver w = (w', Ok (inr oid)) ->
  exists reg, w' = with_registry (fun _ => reg) w.
Proof.
  unfold run_driver. intros E. apply route_bind_inr in E as (w1 & d & E1%effect_inr & E2).
  destruct (resolve_quiet_frame w) as [reg Er]. rewrite E1 in Er. exists reg. rewrite <- Er.
  destruct d; by injection E2 as ->.
Qed.

Lemma quiet_inr (w w' : W) d : effect resolve_driver_quiet w = (w', Ok (inr d)) ->
  exists reg, w' = with_registry (fun _ => reg) w.
Proof. intros E%effect_inr. destruct (resolve_quiet_frame w) as [reg Er]. rewrite E in Er. by exists reg. Qed.

Lemma session_inr {A} (m : route W A) s s' a : session m s = (s', Ok (inr a)) ->
  exists w', s' = mkTxn (tx_db s) w' /\ m (tx_session s) = (w', Ok (inr a)).
Proof. unfold session. destruct (m (tx_session s)) as [w r]. intros [= <- ->]. eauto. Qed.

Lemma or_502_inr {A} op (m : act A) s s' a : or_502 op m s = (s', Ok (inr a)) -> m s = (s', Ok (inr a)).
Proof. unfold or_502. destruct (m s) as [? [[?|?]|[]]]; done. Qed.

Lemma load_active_run_inr run_id (w w' : W) run : load_active_run run_id w = (w', Ok (inr run)) ->
  w' = w /\ run = w_run w /\ run_id = r_id (w_run w) /\ terminal (r_state (w_run w)) = false.
Proof.
  unfold load_active_run, mbind, route_bind, effect, get. cbn.
  destruct (Z.eqb_spec run_id (r_id (w_run w))); [|done]. cbn.
  destruct (terminal (r_state (w_run w))) eqn:E; [done|]. intros [= <- <-]. done.
Qed.

Lemma guard_inr fleets snap mode v n c : guard_run_ceiling repr_float private_host compiles ceiling_env t fleets
    spec_id snap mode (Some v) n = Ok (inr tt) ->
  gated mode -> (0 < v)%Q -> 8 * Z.max 1 n <= 2 ^ 53 ->
  run_ceilings ceiling_env t fleets (tb_specs t !! spec_id) snap = Some c ->
  exists size, run_event_size repr_float private_host compiles t (tb_specs t !! spec_id) = Ok size /\
    forall shares, build_share_list mode (Some v) (Z.max 1 n) = Ok shares -> Forall (share_within c mode size) shares.
Proof.
  unfold guard_run_ceiling. intros E Hm Hv Hn Hc. apply G_bind_inr in E as (pw & Ep%compute_inr & E).
  destruct pw as [pw|].
  - apply G_bind_inr in E as (size & Es%compute_inr & E). apply G_bind_inr in E as (check & Ec%compute_inr & E).
    apply refuse_if_inr, negb_false_iff in E. rewrite Hc in Ec. exists size. split; [done|]. intros shares Eb.
    by eapply checked_shares_within.
  - exfalso. unfold per_worker_share in Ep. rewrite bool_decide_false in Ep by (destruct Hm as [-> | ->]; done).
    rewrite Qle_bool_pos in Ep by done.
    destruct (build_share_list_ok mode v (Z.max 1 n) Hm Hv ltac:(lia) Hn) as (sh & Eb & _). by rewrite Eb in Ep.
Qed.

(** The shares a scale or rescale request divides the rate into. *)
Definition requested (q : run_request) (snap : snapshot) (v : Q) (n : Z) : Prop :=
  match q with
  | RScale workers => sn_rate_value snap = Some v /\ n = workers
  | RRescale rate_value => rate_value = v /\ n = snap_workers snap 1
  | _ => False
  end.

(** The leases of a fleet whose rate was divided into [shares], all within the
    bounds. *)
Lemma assigned_within c mode size v n shares (w' w2 : W) :
  gated mode -> (0 < v)%Q -> 1 <= n -> 8 * n <= 2 ^ 53 -> build_share_list mode (Some v) n = Ok shares ->
  Forall (share_within c mode size) shares ->
  w_leases w' = assign_share shares <$> w_leases w2 -> lease_wf w2 -> length (w_leases w2) = Z.to_nat n ->
  Z.of_nat (length (w_leases w')) = n /\
  (Qabs (fleet_rate mode (w_leases w') - v) <= 4 * eps * v)%Q /\
  Forall (fun l => share_within c mode size (l_share l)) (w_leases w').
Proof.
  intros Hm Hv H1 Hn Es Hs El Hw Hl.
  destruct (build_share_list_ok mode v n Hm Hv H1 Hn) as (shares' & Es' & Hlen & _ & Hsum).
  rewrite Es in Es'. injection Es' as <-.
  assert (length shares = length (w_leases w2)) as Hlen' by congruence.
  rewrite El. split; [rewrite length_fmap; lia|]. split.
  - rewrite assign_shares_rate; [done|by apply gated_public|apply Hw|done].
  - by apply (assigned_forall mode (fun q => within (implied_eps mode q size) (c_eps c) /\
      within (implied_gb_day mode q size) (c_gb_day c))); [apply gated_public| | |].
Qed.

(** A route that was served: what its checks and its last step gave. *)
Ltac served_step :=
  match goal with
  | E : (session (load_active_run _) ≫= _) _ = (_, Ok (inr _)) |- _ =>
      let Ht := fresh "Ht" in
      apply route_bind_inr in E as (? & run & (w1 & -> & (-> & -> & _ & Ht)%load_active_run_inr)%session_inr & E);
      cbn [tx_db tx_session] in *
  | E : (session run_driver ≫= _) _ = (_, Ok (inr _)) |- _ =>
      apply route_bind_inr in E as (? & oid & (w1 & -> & [reg ->]%run_driver_inr)%session_inr & E);
      cbn [tx_db tx_session] in *
  | E : (session (effect resolve_driver_quiet) ≫= _) _ = (_, Ok (inr _)) |- _ =>
      apply route_bind_inr in E as (? & quiet & (w1 & -> & [reg ->]%quiet_inr)%session_inr & E);
      cbn [tx_db tx_session] in *
  | E : (demand _ ≫= _) _ = (_, Ok (inr _)) |- _ =>
      let Hg := fresh "Hg" in
      apply route_bind_inr in E as (s1 & [] & (-> & Hg)%demand_inr & E)
  | E : (session (effect get) ≫= _) _ = (_, Ok (inr _)) |- _ =>
      apply route_bind_inr in E as (? & w2 & (w1 & -> & Eg%effect_inr)%session_inr & E);
      cbn [tx_db tx_session] in *; injection Eg as <- <-
  | E : or_502 _ _ _ = (_, Ok (inr _)) |- _ => apply or_502_inr in E
  | E : session (effect _) _ = (_, Ok (inr _)) |- _ =>
      let E' := fresh "E'" in apply session_inr in E as (w1 & -> & E'%effect_inr); cbn [tx_db tx_session] in *
  end.
Ltac served := cbv zeta in *; unfold reject_if_paused in *; repeat served_step.

Lemma scale_endpoint_inr run_id n actor (w : W) s (snap := snap_of (w_run w)) :
  uncommitted (RScale n) run_id actor (mkTxn w w) = (s, Ok (inr tt)) ->
  1 <= n /\ terminal (r_state (w_run w)) = false /\ effective_workers (sn_engine snap) n = n /\
  guard_run_ceiling repr_float private_host compiles ceiling_env t (reg_fleets (w_registry w)) spec_id
    snap (rate_mode_of snap) (sn_rate_value snap) n = Ok (inr tt) /\
  exists reg oid, scale_run oid n actor (with_registry (fun _ => reg) w) = (tx_session s, Ok tt).
Proof.
  cbn [uncommitted]. intros E. destruct (Z.ltb_spec n 1); [done|]. served.
  apply refuse_if_inr, negb_false_iff, Z.eqb_eq in Hg0. eauto 10 with lia.
Qed.

Lemma rescale_endpoint_inr run_id v actor (w : W) s (snap := snap_of (w_run w)) :
  uncommitted (RRescale v) run_id actor (mkTxn w w) = (s, Ok (inr tt)) ->
  terminal (r_state (w_run w)) = false /\
  guard_run_ceiling repr_float private_host compiles ceiling_env t (reg_fleets (w_registry w)) spec_id
    snap (rate_mode_of snap) (Some v) (snap_workers snap 1) = Ok (inr tt) /\
  exists reg, rescale_run (Some v) actor (with_registry (fun _ => reg) w) = (tx_session s, Ok tt).
Proof. cbn [uncommitted]. intros E. served. eauto. Qed.

(** From [draining] a run can only go on draining or end. *)
Lemma draining_steps s s' : rtc step s s' -> s = Draining -> s' = Draining \/ terminal s' = true.
Proof.
  induction 1 as [s|s s1 s' [e He] Hr IH]; intros Hs; [by left|]. subst s.
  assert (s1 = Draining \/ terminal s1 = true) as [E|E]; [|by apply IH|right; by rewrite (edges_terminal _ _ Hr E)].
  inversion He; subst; auto; repeat match goal with H : _ \/ _ |- _ => destruct H end; simplify_eq; auto.
Qed.

Lemma stop_run_served driver force actor (w w' : W) :
  stop_run driver force actor w = (w', Ok tt) -> Inv w -> terminal (r_state (w_run w)) = false ->
  r_state (w_run w') = Draining \/ (force = true /\ terminal (r_state (w_run w')) = true).
Proof.
  intros E Hi Ht.
  assert (forall w1 : W, Inv w1 -> r_state (w_run w1) = Draining -> forall m : M W unit,
    transits sound m w1 -> r_state (w_run (fst (m w1))) = Draining \/ terminal (r_state (w_run (fst (m w1)))) = true)
    as Hgo.
  { intros w1 Hi1 Hd m Hm. destruct (Hm Hi1) as [_ He]. by apply (draining_steps _ _ (re_state _ _ (ev_run _ _ He))). }
  pose proof (sound_stop_run driver force actor w Hi) as Hs.
  revert E. unfold stop_run. run. rewrite Ht. erewrite run_bind by apply end_pause_eq.
  unfold transition_run. run. set (w1 := transition_world _ _ _ _ _).
  assert (r_state (w_run w1) = Draining) as Hd1 by (subst w1; by rewrite w_run_transition).
  assert (Inv w1) as Hi1.
  { subst w1. destruct (close_pause_frame (w_now w) (w_run w)) as (F1 & F2 & F3 & F4 & F5 & F6).
    apply (sound_run_transition (close_pause (w_now w)) Draining); [|done]. intros Hr.
    split; [apply legal_drain; [constructor|]; congruence|].
    split; [apply close_pause_evolves|]. split; [done|]. split; [done|]. etrans; [apply Hr|done]. }
  destruct force; cbn [when].
  - match goal with |- ?m w1 = _ -> _ => assert (transits sound m w1) as Hm end.
    { transits. by apply sound_fmap_leases. }
    intros E. specialize (Hgo w1 Hi1 Hd1 _ Hm). rewrite E in Hgo. cbn in Hgo. destruct Hgo; auto.
  - intros E. left. revert E. destruct (driver_ref_of (w_run w)) as [ref|]; run; [|by intros [= <-]].
    destruct (returns_inv _ _ _ (quiet_driver_call driver (fun d => drv_stop d ref STOP_GRACE_S) "stop" w1))
      as (w2 & [] & E2 & [Q1 _ _ _ _]).
    unfold mbind, M_bind. rewrite E2. intros [= <-]. by rewrite Q1.
Qed.

Lemma same_state_scale driver n actor (w : W) : transits same_state (scale_run driver n actor) w.
Proof.
  assert (forall first shares (w0 : W), transits same_state (seed_from first shares) w0) as Hseed.
  { intros first shares w0. unfold transits. by rewrite seed_from_eq. }
  unfold scale_run, apply_shares, resize_leases. unfold_prims. transits. unfold transits, call, same_state. destruct (_ !! _); [|done]. by destruct (drv_scale _ _ _).
Qed.

(** C23: the contract of the operator's requests on a run.  A stop, pause, resume,
    scale or rescale that the state of the run does not allow is refused with
    the status that says so (an unknown run, a finished one, one that is not
    running, not paused or paused, an engine-paced, replaying or rotating one,
    a rate or size that is not positive) and changes nothing at all.  Any other
    is served, and then the run is draining (or ended, when forced), paused from
    now, running again with the pause closed, or in the state it was in; or it
    fails on the way and no row has changed.  In all cases the run is well
    formed and its audit trail only grows. *)
Theorem run_requests_meet_contract q run_id actor (w w' : W) r :
  handle_request private_host compiles ceiling_env t spec_id q run_id actor w = (w', r) -> Inv w ->
  Inv w' /\ history w w' /\
  match refused_by_run q run_id (w_run w) with
  | Some rf => r = Ok (inl rf) /\ w' = w
  | None => (r = Ok (inr tt) /\ served q w w') \/ (r <> Ok (inr tt) /\ w' = rollback w w')
  end.
Proof.
  intros E Hi. pose proof (handle_outcome _ _ _ _ _ _ E Hi) as (Hi' & Hh & Hr).
  split; [done|]. split; [done|]. destruct (refused_by_run q run_id (w_run w)) as [rf|] eqn:Ef.
  - apply (run_refuses _ _ actor) in Ef. unfold handle_request in E. rewrite endpoint_commits in E.
    unfold mbind, route_bind in E. rewrite Ef in E. injection E as <- <-. cbn. by rewrite <- rollback_id.
  - destruct r as [[rf|[]]|e]; [right; split; [done|apply Hr]| |right; split; [done|apply Hr]].
    left. split; [done|]. destruct Hr as (s & Eu & ->). clear E Hi' Hh Ef. destruct q; cbn [uncommitted] in Eu; cbn [served].
    + served. by eapply (stop_run_served oid force actor (with_registry (fun _ => reg) w)); [|apply sound_registry|].
    + served. apply refuse_if_inr, negb_false_iff, bool_decide_eq_true in Hg.
      destruct (pause_run_eq quiet actor (with_registry (fun _ => reg) w) Hg) as (w2 & E2 & _ & _ & Erun).
      rewrite E' in E2. injection E2 as <-. rewrite Erun. done.
    + served. apply refuse_if_inr, negb_false_iff, bool_decide_eq_true in Hg.
      destruct (resume_run_eq quiet actor (with_registry (fun _ => reg) w) Hg) as (w2 & E2 & _ & _ & Erun).
      rewrite E' in E2. injection E2 as <-. rewrite Erun. cbn. split; [done|]. apply close_pause_frame.
    + apply (scale_endpoint_inr run_id workers actor w s) in Eu as (_ & _ & _ & _ & reg & oid & E).
      pose proof (same_state_scale oid workers actor (with_registry (fun _ => reg) w)) as Hss.
      unfold transits in Hss. by rewrite E in Hss.
    + apply (rescale_endpoint_inr run_id rate_value actor w s) in Eu as (_ & _ & reg & E).
      pose proof (same_state_rescale (Some rate_value) actor (with_registry (fun _ => reg) w)) as Hss.
      unfold transits in Hss. by rewrite E in Hss.
Qed.

(** C22: a live run that is scaled or rescaled stays within the bounds a launch is
    held to.  When the request is served, the fleet has the size asked for, the
    snapshot records it, the shares sum to the rate, and every one of them is
    within the per-worker ceilings of the run's engine and fleet. *)
Theorem resized_run_within_ceilings q run_id actor (w w' : W) mode v n c (snap := snap_of (w_run w)) :
  handle_request private_host compiles ceiling_env t spec_id q run_id actor w = (w', Ok (inr tt)) -> Inv w ->
  sn_workers snap = Some (Z.of_nat (length (w_leases w))) -> w_leases w <> [] ->
  rate_mode_of snap = mode -> gated mode -> requested q snap v n -> (0 < v)%Q -> 8 * n <= 2 ^ 53 ->
  run_ceilings ceiling_env t (reg_fleets (w_registry w)) (tb_specs t !! spec_id) snap = Some c ->
  Z.of_nat (length (w_leases w')) = n /\ sn_workers (snap_of (w_run w')) = Some n /\
  (Qabs (fleet_rate mode (w_leases w') - v) <= 4 * eps * v)%Q /\
  exists size, run_event_size repr_float private_host compiles t (tb_specs t !! spec_id) = Ok size /\
    Forall (fun l => share_within c mode size (l_share l)) (w_leases w').
Proof.
  intros E Hi Hk Hne Em Hm Hq Hv Hn Hc.
  pose proof (handle_outcome _ _ _ _ _ _ E Hi) as (_ & _ & s & Eu & Ew'). clear E. rename Eu into E.
  assert (1 <= Z.of_nat (length (w_leases w))) as H1 by (destruct (w_leases w); [done|cbn; lia]).
  destruct q as [| | |workers|rate]; try done; destruct Hq as [Hr ->].
  - apply scale_endpoint_inr in E as (H2 & Ht & He & Hg & reg & oid & E). rewrite <- Ew' in E. fold snap in He, Hg.
    rewrite Em, Hr in Hg. destruct (guard_inr _ _ _ _ _ _ Hg Hm Hv ltac:(by rewrite Z.max_r) Hc) as (size & Es & Hs).
    rewrite Z.max_r in Hs by done.
    destruct (build_share_list_ok mode v workers Hm Hv H2 Hn) as (shares & Eb & _).
    set (w0 := with_registry _ w) in E. assert (Inv w0) as Hi0 by (by apply sound_registry).
    pose proof Eb as Eb'. rewrite <- He in Eb'.
    destruct (scale_run_leases w0 w' oid workers actor mode v shares Hi0 Ht E Em Hr Eb')
      as (Hk' & w2 & El & Hw2 & Hl2 & _).
    change (snap_of (w_run w0)) with snap in Hk', Hl2. rewrite He in Hk', Hl2.
    destruct (assigned_within c mode size v workers shares w' w2) as (Ha & Hb & Hf); [done|done|done|done|done|by apply Hs|done..|].
    eauto 10.
  - subst rate. unfold snap_workers in *. rewrite Hk in *.
    destruct (Z.eqb_spec (Z.of_nat (length (w_leases w))) 0); [lia|].
    apply rescale_endpoint_inr in E as (Ht & Hg & reg & E). rewrite <- Ew' in E. fold snap in Hg. unfold snap_workers in Hg. rewrite Hk in Hg.
    destruct (Z.eqb_spec (Z.of_nat (length (w_leases w))) 0); [lia|]. rewrite Em in Hg.
    destruct (guard_inr _ _ _ _ _ _ Hg Hm Hv ltac:(by rewrite Z.max_r) Hc) as (size & Es & Hs).
    rewrite Z.max_r in Hs by done.
    destruct (build_share_list_ok mode v _ Hm Hv H1 Hn) as (shares & Eb & _).
    revert E. unfold rescale_run, apply_shares, on_run, append_event. run. cbn [with_registry w_run w_leases].
    rewrite Ht, (proj2 (Nat.ltb_ge _ _)) by lia. fold snap. rewrite Em, Eb. run. intros E.
    assert (w_leases w' = assign_share shares <$> w_leases w) as El by (by injection E as <-).
    destruct (assigned_within c mode size v (Z.of_nat (length (w_leases w))) shares w' w) as (Ha & Hb & Hf);
      [done..|by apply Hs|done|apply Hi|lia|].
    split; [done|]. split; [by injection E as <-|]. eauto.
Qed.
End Sound.

Section Delete.
Context {D : Type} `{Env D}.
Abbreviation W := (world D).

(** Only a finished run is deleted, and a request that does not delete it leaves
    its rows as they were. *)
Lemma delete_run_outcome run_id (w : W) :
  match delete_run run_id w with
  | (Gone _, r) => r = Ok (inr tt) /\ run_id = r_id (w_run w) /\ terminal (r_state (w_run w)) = true
  | (Stored w', r) => r <> Ok (inr tt) /\ w' = rollback w w'
  end.
Proof.
  unfold delete_run. destruct (Z.eqb_spec run_id (r_id (w_run w))) as [Hid|]; cbn [negb]; [|by split; [|apply rollback_id]].
  destruct (terminal (r_state (w_run w))) eqn:Et; cbn [negb]; [|by split; [|apply rollback_id]].
  destruct (destroy_before_delete w) as [w' [u|e]]; done.
Qed.
End Delete.

(** ** Requests on the demo run *)

Section Witnesses.

Definition demo_tables (cap : option Q) : tables := shop_tables (demo_spec 3) cap [].
Definition demo_handle (cap : option Q) (q : run_request) : world FakeDriver -> world FakeDriver * result (refusal + unit) :=
  handle_request (fun _ => false) (fun _ => true) None (demo_tables cap) 7 q 42 "alice".

Abbreviation demo_request q :=
  (handle_request (fun _ => false) (fun _ => true) None (demo_tables None) 7 q 42 "alice" demo_running).

Lemma run_requests_meet_contract_witness :
  (snd (demo_request RResume) = Ok (inl NotPaused) /\ fst (demo_request RResume) = demo_running) /\
  r_state (w_run (fst (demo_request RPause))) = Paused.
Proof.
  split.
  - assert (refused_by_run RResume 42 (w_run demo_running) = Some NotPaused) as Ef by (vm_compute; reflexivity).
    pose proof (run_requests_meet_contract (fun _ => false) (fun _ => true) None (demo_tables None) 7 RResume 42 "alice"
      demo_running _ _ (surjective_pairing _) demo_running_inv) as (_ & _ & Hc).
    rewrite Ef in Hc. exact Hc.
  - assert (snd (demo_request RPause) = Ok (inr tt)) as Er by (vm_compute; reflexivity).
    assert (refused_by_run RPause 42 (w_run demo_running) = None) as Ef by (vm_compute; reflexivity).
    pose proof (run_requests_meet_contract (fun _ => false) (fun _ => true) None (demo_tables None) 7 RPause 42 "alice"
      demo_running _ _ (surjective_pairing _) demo_running_inv) as (_ & _ & Hc).
    rewrite Ef in Hc. destruct Hc as [[_ [Hp _]]|[Hn _]]; [exact Hp|destruct (Hn Er)].
Defined.

Lemma resized_run_within_ceilings_witness :
  let w' := fst (demo_handle None (RRescale 9000) demo_running) in
  Z.of_nat (length (w_leases w')) = 3 /\ sn_workers (snap_of (w_run w')) = Some 3 /\
  (Qabs (fleet_rate "eps" (w_leases w') - 9000) <= 4 * eps * 9000)%Q /\
  exists size, run_event_size repr_float (fun _ => false) (fun _ => true) (demo_tables None)
                 (tb_specs (demo_tables None) !! 7) = Ok size /\
    Forall (fun l => share_within (mkCeilings (Some 250%Q) (Some 10000%Q)) "eps" size (l_share l)) (w_leases w').
Proof.
  apply (resized_run_within_ceilings (fun _ => false) (fun _ => true) None (demo_tables None) 7 (RRescale 9000) 42
           "alice" demo_running).
  - vm_compute. reflexivity.
  - apply demo_running_inv.
  - vm_compute. reflexivity.
  - vm_compute. discriminate.
  - vm_compute. reflexivity.
  - by left.
  - split; [reflexivity|vm_compute; reflexivity].
  - reflexivity.
  - vm_compute. discriminate.
  - vm_compute. reflexivity.
Defined.

(** A share above the ceiling is refused: 40000 events per second over three
    workers. *)
Example rescale_over_ceiling_refused :
  exists check, snd (demo_handle None (RRescale 40000) demo_running) = Ok (inl (SliceExceedsCeiling check)).
Proof. eexists. vm_compute. reflexivity. Qed.

(** The cap of the target is not looked at: a rate the launch refuses under a cap
    of one gigabyte a day is one a live run can be given. *)
Example rescale_ignores_target_cap :
  (exists h, shop_gates (shop_spec "eps" (Some 5000%Q) 3) (Some 1%Q) [] plain_launch
     = Ok (inl (TargetCapExceeded h))) /\
  snd (demo_handle (Some 1%Q) (RRescale 5000) demo_running) = Ok (inr tt).
Proof. split; [eexists|]; vm_compute; reflexivity. Qed.

(** Nor are the packs: a conf that replays, which a launch pins to one worker, can
    be scaled. *)
Definition replay_conf : conf := mkConf [] [("web.sample", [("mode", Some "replay")])].
Definition replay_tables (workers : Z) : tables :=
  mkTables {[ 7 := mkSpecRow (shop_spec "eps" (Some 100%Q) workers) 3 1 [] ]} {[ 3 := shop_target None ]}
    {[ 1 := mkPack 1 "shop" None (eventgen_dir "shop" replay_conf ["web.sample"]) (Some 9%Q) ]} [] ∅.

Example scale_ignores_replay_stanza :
  gates (fun _ => "1.0") (fun _ => false) (fun _ => true) None 4 None (replay_tables 2) ∅ 7 plain_launch
    = Ok (inl (ReplaySingleWorker 2)) /\
  let launch := run_spec (fun _ => false) (fun _ => true) None 4 (replay_tables 1) 42 7 plain_launch "alice"
                  (fun _ => Ok "sha") blank in
  let scaled := handle_request (fun _ => false) (fun _ => true) None (replay_tables 1) 7 (RScale 2) 42 "alice" (fst launch) in
  snd launch = Ok (inr Provisioning) /\ snd scaled = Ok (inr tt) /\ length (w_leases (fst scaled)) = 2%nat.
Proof. split; [|intros launch scaled; split_and!]; vm_compute; reflexivity. Qed.
End Witnesses.
