(* ===== verification/Slice.v ===== *)
(** * The spec slice (server/lifecycle.py: build_slice; worker/stoker_agent/slice.py)

    The claim response: the control plane builds it from the frozen snapshot
    and the lease, the web framework serialises the fields its response model
    declares, and the worker parses it.  The theorem is that the worker reads
    what the control plane meant. *)

From S2P Require Import Prelude.
From S2P Require Import PyFloat.
From S2P Require Import PyValue.
From S2P Require Import Json.
From S2P Require Import Apportion.
From S2P Require Import Driver.
From S2P Require Import Model.
From S2P Require Import Shares.
From S2P Require Import Session.
From S2P Require Import Protocol.
From S2P Require Import Operators.
From S2P Require Import Provision.
From S2P Require Import Scenario.
From S2P Require Import Supervisor.
From S2P Require Import Invariants.
From S2P Require Import Soundness.
From S2P Require Import Updates.
From S2P Require Import Launch.
From S2P Require Import Trace.
From S2P Require Import Release.
From S2P Require Import Heartbeat.
From S2P Require Import Completion.
From Stdlib Require Import QArith Ascii Lqa.
Open Scope Z_scope.

(** ** The control plane's side *)

(** [value.replace("{slot}", text)], left to right, without overlap. *)
Definition SLOT_TOKEN : list ascii := String.list_ascii_of_string "{slot}".

Fixpoint replace_slot (text : list ascii) (skip : nat) (s : list ascii) : list ascii :=
  match s with
  | [] => []
  | c :: s' =>
      match skip with
      | S k => replace_slot text k s'
      | O => if bool_decide (SLOT_TOKEN `prefix_of` s)
             then text ++ replace_slot text (length SLOT_TOKEN - 1) s'
             else c :: replace_slot text 0 s'
      end
  end.

Definition substitute_slot (value : pyval) (slot : nat) : pyval :=
  match value with
  | VStr s =>
      VStr (String.string_of_list_ascii
              (replace_slot (String.list_ascii_of_string (pretty slot)) 0
                 (String.list_ascii_of_string s)))
  | v => v
  end.

Definition is_none (v : pyval) : bool := match v with VNone => true | _ => false end.

(** [x or y] on optional strings *)
Definition or_str (x y : option string) : option string :=
  match x with Some s => if nonempty s then Some s else y | None => y end.

(** [snap.get("workers") or 1] *)
Definition total_workers (snap : snapshot) : Z :=
  match sn_workers snap with Some n => if n =? 0 then 1 else n | None => 1 end.

Section Build.
Context {D : Type} `{Env D}.

Definition resolve_overrides (base : list (string * pyval)) (slot : nat) : list (string * string) :=
  (fun kv => (kv.1, py_str repr_float (substitute_slot kv.2 slot)))
    <$> List.filter (fun kv => negb (is_none kv.2)) base.

(** The digest: the bundle row's, else the resolved sha when it is not empty. *)
Definition bundle_digest (run : Run) : option string :=
  match r_bundle run with
  | Some d => Some d
  | None => or_str (r_resolved_sha run) None
  end.

Definition build_bundle_ref (run : Run) : jobj :=
  let digest := bundle_digest run in
  let url :=
    match digest with
    | Some d => if nonempty d
                then Some (public_base_url env_settings +:+ "/api/agent/bundles/" +:+ d +:+ ".tgz")
                else None
    | None => None
    end in
  [("url", jstring url); ("sha256", jstring digest)].

Definition backfill_json (b : backfill_block) : json :=
  JObj [("start_s", JNum (bf_start_s b)); ("end_s", JNum (bf_end_s b));
        ("resolution_s", jnumber (bf_resolution_s b)); ("density_eps", JNum (bf_density_eps b))].

Definition build_slice (run : Run) (lease : WorkerLease) : jobj :=
  let snap := snap_of run in
  let hec := [("url", jstring (sn_hec_url snap));
              ("index", jstring (or_str (sn_index snap) (sn_default_index snap)));
              ("sourcetype", jstring (sn_sourcetype snap));
              ("gzip", JBool true); ("ack", JBool false)] in
  [("run_id", JInt (r_id run));
   ("slot", JInt (Z.of_nat (l_slot lease)));
   ("total_workers", JInt (total_workers snap));
   ("lease_id", JStr (l_id lease));
   ("engine", jstring (or_str (sn_engine snap) (Some "eventgen")));
   ("bundle", JObj (build_bundle_ref run));
   ("share", JObj ((fun kv => (kv.1, json_of kv.2)) <$> map_to_list (public_share (l_share lease))));
   ("duration_s", jnumber (nonzero (sn_duration_s snap)));
   ("hec", JObj hec);
   ("overrides", JObj ((fun kv => (kv.1, JStr kv.2))
                         <$> resolve_overrides (sn_overrides snap) (l_slot lease)));
   ("telemetry", JObj [("interval_s",
                        JNum (default 5%Q (nonzero (sn_telemetry_interval_s snap))))]);
   ("released", JBool (negb (bool_decide (r_t0 run = None))));
   ("effective_t0", jinstant (l_effective_t0 lease))]
  ++ (match sn_backfill snap with Some b => [("backfill", backfill_json b)] | None => [] end)
  ++ (if bool_decide (sn_rate_shape snap = Some "pack") then [("rate_shape", JStr "pack")] else []).
End Build.

(** ** The worker's side *)

Record SpecSlice : Type := mkSlice {
  sl_run_id : json;
  sl_slot : Z;
  sl_total_workers : Z;
  sl_lease_id : json;
  sl_engine : json;
  sl_bundle_url : json;
  sl_bundle_sha256 : json;
  sl_rate_mode : string;
  sl_rate_value : option Q;
  sl_duration_s : option Q;
  sl_hec_url : json;
  sl_hec_index : json;
  sl_hec_sourcetype : json;
  sl_hec_source : json;
  sl_hec_host : json;
  sl_hec_gzip : bool;
  sl_hec_ack : bool;
  sl_overrides : jobj;
  sl_telemetry_interval_s : Q;
  sl_released : bool;
  sl_effective_t0 : option Z;
  sl_backfill_start_s : option Q;
  sl_backfill_end_s : option Q;
  sl_backfill_resolution_s : option Q;
  sl_backfill_density_eps : option Q;
  sl_rate_shape : json;
}.

Definition SHARE_KEYS : list (string * string) :=
  [("eps", "eps"); ("per_day_gb", "per_day_gb"); ("count", "count_interval")].

Section Parse.
Context {R : Rounding}.

(** [float(raw)] with [TypeError] and [ValueError] turned into [SliceError]. *)
Definition share_float (j : json) : result (option Q) :=
  match j with
  | JNull => Ok None
  | j => match to_float j with
         | Ok q => Ok (Some q)
         | Raise _ => Raise (SliceError "share must be numeric")
         end
  end.

(** The one key of the share, its rate mode and its value. *)
Definition parse_share (share : json) : result (string * option Q) :=
  match share with
  | JObj [(key, raw)] =>
      match List.find (fun km => bool_decide (km.1 = key)) SHARE_KEYS with
      | None => Raise (SliceError "unknown share key")
      | Some (_, rate_mode) =>
          value ← share_float raw;
          if negb (bool_decide (rate_mode = "count_interval"))
             && match value with None => true | Some v => Qle_bool v 0 end
          then Raise (SliceError "share must be > 0")
          else Ok (rate_mode, value)
      end
  | _ => Raise (SliceError "share must carry exactly one key")
  end.

(** An object with a non-empty [url]. *)
Definition with_url (what : string) (j : json) : result jobj :=
  match j with
  | JObj d => if jtruthy (jget d "url") then Ok d else Raise (SliceError (what +:+ ".url is required"))
  | _ => Raise (SliceError (what +:+ ".url is required"))
  end.

Definition parse_iso8601 (j : json) : result Z :=
  match j with
  | JInstant us => Ok us
  | JStr _ => Raise (SliceError "invalid ISO 8601 timestamp")
  | _ => Raise AttributeError
  end.

Definition from_claim (doc : json) : result SpecSlice :=
  match doc with
  | JObj doc =>
      match jfind doc "share", jfind doc "bundle", jfind doc "hec" with
      | Some share, Some bundle, Some hec =>
          mode_value ← parse_share share;
          let '(rate_mode, rate_value) := mode_value : string * option Q in
          bundle ← with_url "bundle" bundle;
          hec ← with_url "hec" hec;
          effective_t0 ← (if jtruthy (jget doc "effective_t0")
                          then t ← parse_iso8601 (jget doc "effective_t0"); Ok (Some t)
                          else Ok None);
          overrides ← obj_or_empty (jget doc "overrides");
          let overrides := List.filter (fun kv => match kv.2 with JNull => false | _ => true end)
                             overrides in
          duration_s ← (if jtruthy (jget doc "duration_s")
                        then q ← to_float (jget doc "duration_s"); Ok (Some q) else Ok None);
          backfill ← obj_or_empty (jget doc "backfill");
          slot ← to_int (jget_or doc "slot" (JInt 0));
          total ← to_int (jget_or doc "total_workers" (JInt 1));
          telemetry ← obj_or_empty (jget doc "telemetry");
          interval ← to_float (jget_or telemetry "interval_s" (JInt 5));
          bf_start ← opt_float (jget backfill "start_s");
          bf_end ← opt_float (jget backfill "end_s");
          bf_res ← opt_float (jget backfill "resolution_s");
          bf_density ← opt_float (jget backfill "density_eps");
          Ok (mkSlice (jget doc "run_id") slot total (jget doc "lease_id")
                (jget_or doc "engine" (JStr "eventgen")) (jget bundle "url") (jget bundle "sha256")
                rate_mode rate_value duration_s (jget hec "url") (jget hec "index")
                (jget hec "sourcetype") (jget hec "source") (jget hec "host")
                (jtruthy (jget_or hec "gzip" (JBool true)))
                (jtruthy (jget_or hec "ack" (JBool false)))
                overrides interval (jtruthy (jget_or doc "released" (JBool false))) effective_t0
                bf_start bf_end bf_res bf_density
                (if jtruthy (jget doc "rate_shape") then jget doc "rate_shape" else JNull))
      | _, _, _ => Raise (SliceError "claim response missing key")
      end
  | _ => Raise (SliceError "claim response must be a JSON object")
  end.
End Parse.

(** ** The response model

    A response model names the fields it declares, those whose default is null,
    and those that are models themselves.  What the web framework documents: a
    declared, non-null field of the returned dict is in the body with its value;
    a declared field that is a model is in the body as the serialisation by that
    model; a null-default field that is null or absent reads as null; no
    undeclared field is in the body, nor in a nested one. *)
Record fields : Type := mkFields { fl_declared : list string; fl_nullable : list string }.
Record model : Type := mkModel { md_own : fields; md_nested : list (string * fields) }.

Definition nested_model (m : model) (k : string) : option fields :=
  snd <$> List.find (fun kf => bool_decide (kf.1 = k)) (md_nested m).

Class ResponseModel : Type := {
  serialise_flat : fields -> jobj -> jobj;
  flat_kept f doc k v :
    k ∈ fl_declared f -> jfind doc k = Some v -> v <> JNull -> jfind (serialise_flat f doc) k = Some v;
  flat_null f doc k :
    k ∈ fl_nullable f -> jget doc k = JNull -> jget (serialise_flat f doc) k = JNull;
  flat_declared f doc k : k ∉ fl_declared f -> jfind (serialise_flat f doc) k = None;
  serialise : model -> jobj -> jobj;
  serialise_kept m doc k v :
    k ∈ fl_declared (md_own m) -> nested_model m k = None -> jfind doc k = Some v -> v <> JNull ->
    jfind (serialise m doc) k = Some v;
  serialise_nested m doc k f d :
    k ∈ fl_declared (md_own m) -> nested_model m k = Some f -> jfind doc k = Some (JObj d) ->
    jfind (serialise m doc) k = Some (JObj (serialise_flat f d));
  serialise_null m doc k :
    k ∈ fl_nullable (md_own m) -> jget doc k = JNull -> jget (serialise m doc) k = JNull;
  serialise_declared m doc k : k ∉ fl_declared (md_own m) -> jfind (serialise m doc) k = None;
}.

Definition BundleRef : fields := mkFields ["url"; "sha256"] ["sha256"].
Definition HecSlice : fields :=
  mkFields ["url"; "index"; "sourcetype"; "gzip"; "ack"] ["index"; "sourcetype"].
Definition TelemetrySlice : fields := mkFields ["interval_s"] [].
Definition BackfillSlice : fields :=
  mkFields ["start_s"; "end_s"; "resolution_s"; "density_eps"] ["resolution_s"; "density_eps"].

Definition SpecSliceOut : model := mkModel
  (mkFields
     ["run_id"; "slot"; "total_workers"; "lease_id"; "engine"; "bundle"; "share"; "duration_s";
      "hec"; "overrides"; "telemetry"; "released"; "effective_t0"; "backfill"; "rate_shape"]
     ["duration_s"; "effective_t0"; "backfill"; "rate_shape"])
  [("bundle", BundleRef); ("hec", HecSlice); ("telemetry", TelemetrySlice); ("backfill", BackfillSlice)].

Lemma jget_null_or doc k : jget doc k = JNull \/ exists v, jfind doc k = Some v /\ v <> JNull.
Proof.
  unfold jget. destruct (jfind doc k) as [v|]; [|by left].
  destruct v; [by left|right; eexists; (split; [reflexivity|discriminate])..].
Qed.

Lemma serialise_get `{ResponseModel} m doc k v :
  k ∈ fl_declared (md_own m) -> nested_model m k = None ->
  (v = JNull -> k ∈ fl_nullable (md_own m)) -> jget doc k = v ->
  jget (serialise m doc) k = v.
Proof.
  intros Hk Hm Hn Hv. destruct (jget_null_or doc k) as [E|(v' & Ef & Hv')].
  - rewrite E in Hv. subst v. apply serialise_null; auto.
  - unfold jget in *. by rewrite (serialise_kept m doc k v') by done; rewrite <- Hv, Ef.
Qed.

Lemma flat_get `{ResponseModel} f doc k v :
  k ∈ fl_declared f -> (v = JNull -> k ∈ fl_nullable f) -> jget doc k = v ->
  jget (serialise_flat f doc) k = v.
Proof.
  intros Hk Hn Hv. destruct (jget_null_or doc k) as [E|(v' & Ef & Hv')].
  - rewrite E in Hv. subst v. apply flat_null; auto.
  - unfold jget in *. by rewrite (flat_kept f doc k v') by done; rewrite <- Hv, Ef.
Qed.

Section Roundtrip.
Context {D : Type} `{Env D} `{!ResponseModel}.

Lemma jtruthy_nonempty s : nonempty s = true -> jtruthy (JStr s) = true.
Proof. done. Qed.

Lemma nonzero_truthy q v : nonzero q = Some v -> jtruthy (JNum v) = true.
Proof. destruct q as [q|]; [|done]. cbn. destruct (Qeq_bool q 0) eqn:E; [done|]. intros [= <-]. cbn. by rewrite E. Qed.

Lemma obj_or_empty_obj d : obj_or_empty (JObj d) = Ok d.
Proof. unfold obj_or_empty. destruct d; done. Qed.

(** A JSON object of strings has no null value to filter out. *)
Lemma filter_strings (kvs : list (string * string)) :
  List.filter (fun kv => match kv.2 with JNull => false | _ => true end)
    ((fun kv => (kv.1, JStr kv.2)) <$> kvs) = (fun kv => (kv.1, JStr kv.2)) <$> kvs.
Proof. induction kvs as [|kv kvs IH]; [done|]. cbn. by f_equal. Qed.

Lemma parse_anchor t :
  (if jtruthy (jinstant t) then t ← parse_iso8601 (jinstant t); Ok (Some t) else Ok None) = Ok t.
Proof. by destruct t. Qed.

Lemma parse_duration q :
  (if jtruthy (jnumber (nonzero q)) then v ← to_float (jnumber (nonzero q)); Ok (Some v) else Ok None)
  = Ok (nonzero q).
Proof. destruct (nonzero q) as [v|] eqn:E; [|done]. cbn [jnumber]. by rewrite (nonzero_truthy q v E). Qed.

(** The window as the worker finds it in the body. *)
Definition backfill_body (ob : option backfill_block) : jobj :=
  match ob with
  | Some b => match backfill_json b with JObj d => serialise_flat BackfillSlice d | _ => [] end
  | None => []
  end.

Lemma jnumber_float o : opt_float (jnumber o) = Ok o.
Proof. by destruct o. Qed.

Lemma parse_backfill ob :
  obj_or_empty (match ob with Some b => JObj (backfill_body (Some b)) | None => JNull end) = Ok (backfill_body ob)
  /\ opt_float (jget (backfill_body ob) "start_s") = Ok (bf_start_s <$> ob)
  /\ opt_float (jget (backfill_body ob) "end_s") = Ok (bf_end_s <$> ob)
  /\ opt_float (jget (backfill_body ob) "resolution_s") = Ok (ob ≫= bf_resolution_s)
  /\ opt_float (jget (backfill_body ob) "density_eps") = Ok (bf_density_eps <$> ob).
Proof.
  destruct ob as [b|]; [|done]. split; [apply obj_or_empty_obj|]. cbn [backfill_body backfill_json].
  rewrite (flat_get BackfillSlice _ "start_s" (JNum (bf_start_s b))) by (cbn; try done; set_solver).
  rewrite (flat_get BackfillSlice _ "end_s" (JNum (bf_end_s b))) by (cbn; try done; set_solver).
  rewrite (flat_get BackfillSlice _ "resolution_s" (jnumber (bf_resolution_s b))) by (cbn; try done; set_solver).
  rewrite (flat_get BackfillSlice _ "density_eps" (JNum (bf_density_eps b))) by (cbn; try done; set_solver).
  by rewrite jnumber_float.
Qed.

Definition hec_json (snap : snapshot) : jobj :=
  [("url", jstring (sn_hec_url snap));
   ("index", jstring (or_str (sn_index snap) (sn_default_index snap)));
   ("sourcetype", jstring (sn_sourcetype snap)); ("gzip", JBool true); ("ack", JBool false)].

(** The body of a claim response, field by field. *)
Lemma claim_body (run : Run) (lease : WorkerLease)
    (d := serialise SpecSliceOut (build_slice run lease)) (snap := snap_of run) :
  jfind d "slot" = Some (JInt (Z.of_nat (l_slot lease)))
  /\ jfind d "total_workers" = Some (JInt (total_workers snap))
  /\ jget d "lease_id" = JStr (l_id lease)
  /\ jfind d "bundle" = Some (JObj (serialise_flat BundleRef (build_bundle_ref run)))
  /\ jfind d "share" = Some (JObj ((fun kv => (kv.1, json_of kv.2))
                                     <$> map_to_list (public_share (l_share lease))))
  /\ jget d "duration_s" = jnumber (nonzero (sn_duration_s snap))
  /\ jfind d "hec" = Some (JObj (serialise_flat HecSlice (hec_json snap)))
  /\ jget d "overrides" = JObj ((fun kv => (kv.1, JStr kv.2))
                                  <$> resolve_overrides (sn_overrides snap) (l_slot lease))
  /\ jget d "telemetry" = JObj (serialise_flat TelemetrySlice
                                  [("interval_s", JNum (default 5%Q (nonzero (sn_telemetry_interval_s snap))))])
  /\ jfind d "released" = Some (JBool (negb (bool_decide (r_t0 run = None))))
  /\ jget d "effective_t0" = jinstant (l_effective_t0 lease)
  /\ jget d "backfill" = match sn_backfill snap with Some b => JObj (backfill_body (Some b)) | None => JNull end
  /\ jget d "rate_shape" = (if bool_decide (sn_rate_shape snap = Some "pack") then JStr "pack" else JNull)
  /\ jfind d "engine" = Some (match or_str (sn_engine snap) (Some "eventgen") with Some e => JStr e | None => JNull end)
  /\ jget d "run_id" = JInt (r_id run).
Proof.
  assert (exists e, or_str (sn_engine snap) (Some "eventgen") = Some e) as [e Ee].
  { unfold or_str. destruct (sn_engine snap) as [e|]; [destruct (nonempty e)|]; eauto. }
  assert (jfind (build_slice run lease) "engine" = Some (JStr e)) as Eng.
  { unfold build_slice. fold snap. rewrite Ee. reflexivity. }
  subst d. rewrite Ee. repeat split;
    try (apply serialise_kept; [cbn; set_solver|reflexivity|(exact Eng || reflexivity)|discriminate]);
    try (apply serialise_nested; [cbn; set_solver|reflexivity|reflexivity]).
  1-2: apply serialise_get; [cbn; set_solver|reflexivity|try discriminate; cbn; set_solver|reflexivity].
  - apply serialise_get; [cbn; set_solver|reflexivity|discriminate|reflexivity].
  - unfold jget. erewrite serialise_nested; [reflexivity|cbn; set_solver|reflexivity|reflexivity].
  - apply serialise_get; [cbn; set_solver|reflexivity|cbn; set_solver|reflexivity].
  - destruct (sn_backfill snap) as [b|] eqn:Eb.
    + unfold jget. erewrite serialise_nested; [reflexivity|cbn; set_solver|reflexivity|].
      unfold build_slice. fold snap. rewrite Eb. reflexivity.
    + apply serialise_null; [cbn; set_solver|]. unfold jget, jfind, build_slice. fold snap. rewrite Eb.
      by destruct (bool_decide (_ = Some "pack")).
  - apply serialise_get; [cbn; set_solver|reflexivity|cbn; set_solver|].
    unfold jget, jfind, build_slice. fold snap. by destruct (sn_backfill snap), (bool_decide (_ = Some "pack")).
  - apply serialise_get; [cbn; set_solver|reflexivity|discriminate|reflexivity].
Qed.

Lemma parse_one_share key mode v :
  (key, mode) ∈ SHARE_KEYS -> (mode <> "count_interval" -> 0 < v)%Q ->
  parse_share (JObj ((fun kv => (kv.1, json_of kv.2)) <$> map_to_list (share key v)))
  = Ok (mode, Some v).
Proof.
  intros Hm Hv. unfold share. rewrite map_to_list_singleton.
  assert (mode <> "count_interval" -> Qle_bool v 0 = false) as Hle.
  { intros Hne. specialize (Hv Hne). destruct (Qle_bool v 0) eqn:E; [|done]. apply Qle_bool_iff in E. lra. }
  unfold SHARE_KEYS in Hm. repeat (apply elem_of_cons in Hm as [[= -> ->]|Hm]); [..|by apply elem_of_nil in Hm];
    cbn; rewrite ?Hle by discriminate; done.
Qed.

(** C16: the worker reads from a claim response what the control plane meant,
    through the declared response model and the models nested in it, which let
    only declared fields through.  For a lease whose public share is one value
    of any rate mode (positive in the gated ones), of a run with a bundle and a
    target URL, the body parses to the run, the lease's slot, id, rate mode and
    rate, the fleet size, the engine, the bundle, the target's URL, index and
    sourcetype, the run's duration, telemetry interval, overrides with the slot
    filled in, release flag, pacing anchor, the whole backfill window and the
    rate shape. *)
Theorem slice_roundtrip (run : Run) (lease : WorkerLease) key mode v digest url :
  (key, mode) ∈ SHARE_KEYS -> public_share (l_share lease) = share key v ->
  (mode <> "count_interval" -> 0 < v)%Q ->
  bundle_digest run = Some digest -> nonempty digest = true ->
  sn_hec_url (snap_of run) = Some url -> nonempty url = true ->
  let snap := snap_of run in
  exists s, from_claim (JObj (serialise SpecSliceOut (build_slice run lease))) = Ok s
    /\ sl_run_id s = JInt (r_id run) /\ sl_slot s = Z.of_nat (l_slot lease)
    /\ sl_lease_id s = JStr (l_id lease) /\ sl_total_workers s = total_workers snap
    /\ sl_engine s = jstring (or_str (sn_engine snap) (Some "eventgen"))
    /\ sl_rate_mode s = mode /\ sl_rate_value s = Some v
    /\ sl_bundle_url s = JStr (public_base_url env_settings +:+ "/api/agent/bundles/" +:+ digest +:+ ".tgz")
    /\ sl_bundle_sha256 s = JStr digest /\ sl_hec_url s = JStr url
    /\ sl_hec_index s = jstring (or_str (sn_index snap) (sn_default_index snap))
    /\ sl_hec_sourcetype s = jstring (sn_sourcetype snap)
    /\ (sl_hec_gzip s, sl_hec_ack s) = (true, false)
    /\ sl_duration_s s = nonzero (sn_duration_s snap)
    /\ sl_overrides s = (fun kv => (kv.1, JStr kv.2)) <$> resolve_overrides (sn_overrides snap) (l_slot lease)
    /\ sl_telemetry_interval_s s = default 5%Q (nonzero (sn_telemetry_interval_s snap))
    /\ sl_released s = negb (bool_decide (r_t0 run = None))
    /\ sl_effective_t0 s = l_effective_t0 lease
    /\ (sl_backfill_start_s s, sl_backfill_end_s s) = (bf_start_s <$> sn_backfill snap, bf_end_s <$> sn_backfill snap)
    /\ (sl_backfill_resolution_s s, sl_backfill_density_eps s)
       = (sn_backfill snap ≫= bf_resolution_s, bf_density_eps <$> sn_backfill snap)
    /\ (sl_rate_shape s = JStr "pack" <-> sn_rate_shape snap = Some "pack").
Proof.
  intros Hm Hs Hv Hd Hdn Hu Hun snap.
  destruct (claim_body run lease)
    as (E1 & E2 & E3 & E4 & E5 & E6 & E7 & E8 & E9 & E10 & E11 & E12 & E13 & E14 & E15).
  set (d := serialise SpecSliceOut (build_slice run lease)) in *. fold snap in E2, E6, E7, E8, E9, E12, E13, E14.
  unfold from_claim. unfold jget_or. rewrite E1, E2, E4, E5, E7, E10, E14, Hs, (parse_one_share key mode v Hm Hv).
  cbn [mbind result_bind].
  set (bundle := serialise_flat BundleRef (build_bundle_ref run)).
  set (burl := public_base_url env_settings +:+ "/api/agent/bundles/" +:+ digest +:+ ".tgz").
  assert (jget bundle "url" = JStr burl) as Bu.
  { apply flat_get; [cbn; set_solver|discriminate|]. unfold build_bundle_ref. rewrite Hd, Hdn. reflexivity. }
  assert (jget bundle "sha256" = JStr digest) as Bs.
  { apply flat_get; [cbn; set_solver|discriminate|]. unfold build_bundle_ref. rewrite Hd. reflexivity. }
  assert (with_url "bundle" (JObj bundle) = Ok bundle) as ->.
  { assert (nonempty burl = true) as Hb by (subst burl; by destruct (public_base_url env_settings)).
    unfold with_url. rewrite Bu. change (jtruthy (JStr burl)) with (nonempty burl). by rewrite Hb. }
  cbn [mbind result_bind]. set (hec := serialise_flat HecSlice (hec_json snap)).
  assert (jget hec "url" = JStr url) as Hu1.
  { apply flat_get; [cbn; set_solver|discriminate|]. unfold hec_json. fold snap in Hu. by rewrite Hu. }
  assert (jget hec "index" = jstring (or_str (sn_index snap) (sn_default_index snap))) as Hi1
    by (apply flat_get; [cbn; set_solver|cbn; set_solver|reflexivity]).
  assert (jget hec "sourcetype" = jstring (sn_sourcetype snap)) as Hs1
    by (apply flat_get; [cbn; set_solver|cbn; set_solver|reflexivity]).
  assert (jfind hec "gzip" = Some (JBool true)) as Hg1
    by (apply flat_kept; [cbn; set_solver|reflexivity|discriminate]).
  assert (jfind hec "ack" = Some (JBool false)) as Ha1
    by (apply flat_kept; [cbn; set_solver|reflexivity|discriminate]).
  assert (with_url "hec" (JObj hec) = Ok hec) as ->.
  { unfold with_url. rewrite Hu1. change (jtruthy (JStr url)) with (nonempty url). by rewrite Hun. }
  cbn [mbind result_bind]. rewrite E11, parse_anchor, E8, obj_or_empty_obj.
  cbn [mbind result_bind]. rewrite E6, parse_duration. cbn [mbind result_bind].
  destruct (parse_backfill (sn_backfill snap)) as (B1 & B2 & B3 & B4 & B5).
  rewrite E12, B1. cbn [mbind result_bind to_int default].
  rewrite E9, obj_or_empty_obj. cbn [mbind result_bind].
  erewrite (flat_kept TelemetrySlice _ "interval_s"); [|cbn; set_solver|reflexivity|discriminate].
  cbn [mbind result_bind to_float default]. rewrite B2, B3, B4, B5. cbn [mbind result_bind].
  eexists. split; [reflexivity|]. cbn [sl_run_id sl_slot sl_lease_id sl_total_workers sl_engine sl_rate_mode sl_rate_value
    sl_bundle_url sl_bundle_sha256 sl_hec_url sl_hec_index sl_hec_sourcetype sl_hec_gzip sl_hec_ack sl_duration_s
    sl_overrides sl_telemetry_interval_s sl_released sl_effective_t0 sl_backfill_start_s sl_backfill_end_s
    sl_backfill_resolution_s sl_backfill_density_eps sl_rate_shape].
  rewrite filter_strings, E3, E13, E15, Bu, Bs, Hu1, Hi1, Hs1, Hg1, Ha1. repeat split; try done.
  - destruct (bool_decide (sn_rate_shape snap = Some "pack")) eqn:E; [|done].
    intros _. by apply bool_decide_eq_true in E.
  - intros E. by rewrite (bool_decide_eq_true_2 _ E).
Qed.
End Roundtrip.

(** ** Witness *)

(** Keep the declared fields and drop the others, at both levels. *)
Definition keep (declared : list string) (doc : jobj) : jobj :=
  List.filter (fun kv => bool_decide (kv.1 ∈ declared)) doc.

Definition keep_nested (m : model) (doc : jobj) : jobj :=
  (fun kv => (kv.1, match nested_model m kv.1, kv.2 with
                    | Some f, JObj d => JObj (keep (fl_declared f) d)
                    | _, v => v
                    end)) <$> doc.

Lemma jfind_keep ks doc k : jfind (keep ks doc) k = if bool_decide (k ∈ ks) then jfind doc k else None.
Proof.
  unfold jfind, keep. induction doc as [|[k' v] doc IH]; [by destruct (bool_decide _)|].
  cbn -[bool_decide]. destruct (bool_decide (k' ∈ ks)) eqn:E; cbn -[bool_decide].
  - destruct (bool_decide (k' = k)) eqn:Ek; [|exact IH].
    apply bool_decide_eq_true in Ek. subst k'. by rewrite E.
  - destruct (bool_decide (k' = k)) eqn:Ek; [|exact IH].
    apply bool_decide_eq_true in Ek. subst k'. by rewrite IH, E.
Qed.

Lemma jfind_keep_nested m doc k :
  jfind (keep_nested m doc) k
  = (fun v => match nested_model m k, v with
              | Some f, JObj d => JObj (keep (fl_declared f) d)
              | _, v => v
              end) <$> jfind doc k.
Proof.
  unfold jfind, keep_nested. induction doc as [|[k' v] doc IH]; [done|].
  cbn -[bool_decide]. destruct (bool_decide (k' = k)) eqn:Ek; [|exact IH].
  apply bool_decide_eq_true in Ek. subst k'. cbn. by destruct (nested_model m k), v.
Qed.

Global Instance declared_fields : ResponseModel.
Proof.
  refine {| serialise_flat := fun f => keep (fl_declared f);
            serialise := fun m doc => keep (fl_declared (md_own m)) (keep_nested m doc) |}.
  - intros f doc k v Hk Hf _. rewrite jfind_keep, bool_decide_eq_true_2 by done. exact Hf.
  - intros f doc k _ Hn. unfold jget in *. rewrite jfind_keep. by destruct (bool_decide _).
  - intros f doc k Hk. by rewrite jfind_keep, bool_decide_eq_false_2.
  - intros m doc k v Hk Hn Hf _. rewrite jfind_keep, bool_decide_eq_true_2, jfind_keep_nested, Hf by done. cbn. by rewrite Hn.
  - intros m doc k f d Hk Hn Hf. rewrite jfind_keep, bool_decide_eq_true_2, jfind_keep_nested, Hf by done. cbn. by rewrite Hn.
  - intros m doc k _ Hn. unfold jget in *. rewrite jfind_keep. destruct (bool_decide _); [|done].
    rewrite jfind_keep_nested. destruct (jfind doc k) as [v|]; [|done]. cbn in *. subst v.
    by destruct (nested_model m k).
  - intros m doc k Hk. by rewrite jfind_keep, bool_decide_eq_false_2.
Defined.

Lemma slice_roundtrip_witness :
  let run := w_run demo_t0 in
  let lease := demo_slot demo_t0 1 in
  exists s, from_claim (JObj (serialise SpecSliceOut (build_slice run lease))) = Ok s
    /\ sl_run_id s = JInt (r_id run) /\ sl_slot s = 1 /\ sl_lease_id s = JStr "le_5"
    /\ sl_rate_mode s = "eps" /\ sl_rate_value s = Some (share_value "eps" (l_share lease)).
Proof.
  intros run lease.
  destruct (slice_roundtrip run lease "eps" "eps" (share_value "eps" (l_share lease)) "sha"
              "https://hec.example:8088")
    as (s & E & H1 & H2 & H3 & _ & _ & H4 & H5 & _).
  - left.
  - vm_compute. reflexivity.
  - intros _. vm_compute. reflexivity.
  - vm_compute. reflexivity.
  - reflexivity.
  - vm_compute. reflexivity.
  - reflexivity.
  - exists s. split; [exact E|]. split; [exact H1|]. split; [exact H2|]. split; [exact H3|]. split; [exact H4|exact H5].
Defined.
