(* ===== verification/Routes.v ===== *)
(** * The agent API (server/routes/agent.py, server/crypto.py)

    The bearer check every worker request passes, the four protocol routes over
    the lifecycle, and what the response models let through to the worker.  The
    JWT library is an interface: it decodes a token to its claims. *)

From S2P Require Import Prelude.
From S2P Require Import PyFloat.
From S2P Require Import PyValue.
From S2P Require Import Json.
From S2P Require Import Apportion.
From S2P Require Import Driver.
From S2P Require Import Model.
From S2P Require Import Shares.
From S2P Require Import Session.
From S2P Require Import Protocol.
From S2P Require Import Operators.
From S2P Require Import Provision.
From S2P Require Import Scenario.
From S2P Require Import Supervisor.
From S2P Require Import Invariants.
From S2P Require Import Soundness.
From S2P Require Import Updates.
From S2P Require Import Launch.
From S2P Require Import Trace.
From S2P Require Import Release.
From S2P Require Import Heartbeat.
From S2P Require Import Completion.
From S2P Require Import Slice.
From Stdlib Require Import QArith Ascii.
Open Scope Z_scope.

(** ** Bearer tokens *)

(** [s.split(None, 1)]: the first word and the rest, when there is one. *)
Fixpoint take_word (s : list ascii) : list ascii * list ascii :=
  match s with
  | [] => ([], [])
  | c :: s' => if is_space c then ([], s)
               else let '(w, r) := take_word s' in (c :: w, r)
  end.

Definition split_once (s : string) : option (string * string) :=
  let '(word, rest) := take_word (lstrip (String.list_ascii_of_string s)) in
  match lstrip rest with
  | [] => None
  | rest => Some (String.string_of_list_ascii word, String.string_of_list_ascii rest)
  end.

Definition extract_bearer (authorization : option string) : result string :=
  match authorization with
  | Some a =>
      if bool_decide (a = "") then Raise (HTTPException 401 "missing bearer token")
      else match split_once a with
           | Some (scheme, token) =>
               if bool_decide (py_lower scheme = "bearer") && nonempty (py_strip token)
               then Ok (py_strip token)
               else Raise (HTTPException 401 "malformed Authorization header")
           | None => Raise (HTTPException 401 "malformed Authorization header")
           end
  | None => Raise (HTTPException 401 "missing bearer token")
  end.

(** The claims of a run token the code reads. *)
Record claims : Type := mkClaims { cl_run_id : pyval; cl_kid : pyval }.

(** The JWT library: the claims of a token whose signature, issuer and expiry
    it accepts. *)
Class JwtLibrary : Type := { jwt_decode : string -> option claims }.

Section Auth.
Context {D : Type} `{Env D} `{!JwtLibrary}.

(** [verify_run_jwt]; [None] for [JWTError] *)
Definition verify_run_jwt (token : string) (expected_run_id : Z) : option claims :=
  match jwt_decode token with
  | None => None
  | Some c => if bool_decide (py_str repr_float (cl_run_id c) = pretty expected_run_id)
              then Some c else None
  end.

Definition require_run_jwt (run_id : Z) (authorization : option string) : result claims :=
  token ← extract_bearer authorization;
  match verify_run_jwt token run_id with
  | Some c => Ok c
  | None => Raise (HTTPException 401 "invalid run token")
  end.
End Auth.

(** ** Responses *)

Definition cmd_json (c : cmd) : jobj :=
  match c with
  | Continue => [("command", JStr "continue")]
  | Superseded => [("command", JStr "superseded")]
  | Drain => [("command", JStr "drain")]
  | Pause => [("command", JStr "pause")]
  | Release t0 => [("command", JStr "release"); ("t0", JInstant t0)]
  | Retarget share =>
      [("command", JStr "retarget");
       ("share", JObj ((fun kv => (kv.1, json_of kv.2)) <$> map_to_list share))]
  end.

(** The dict [record_heartbeat] returns. *)
Definition response_json (r : response) : jobj :=
  cmd_json (rp_command r)
  ++ match rp_paused_s r with Some q => [("paused_s", JNum q)] | None => [] end
  ++ match rp_jwt r with
     | Some t => if nonempty t then [("jwt", JStr t)] else []
     | None => []
     end.

Definition HeartbeatCommand : model :=
  mkModel (mkFields ["command"; "t0"; "share"; "jwt"] ["t0"; "share"; "jwt"]) [].

(** ** Routes *)

Inductive request : Type :=
  | RClaim (holder : string) (hint_slot : option nat)
  | RReady (slot : nat) (lease_id : option string)
  | RHeartbeat (slot : nat) (lease_id : option string) (body : pydict)
  | RFinal (slot : nat) (lease_id : option string) (summary : list (string * pyval))
      (log_tail : list string).

Section Routes.
Context {D : Type} `{Env D} `{!JwtLibrary} `{!ResponseModel}.
Abbreviation W := (world D).
Abbreviation eff := (M W).

(** [_load_run], in a session that holds one run. *)
Definition load_run (run_id : Z) : eff unit :=
  w ← get;
  if r_id (w_run w) =? run_id then mret tt else raise (HTTPException 404 "unknown run").

(** The body of each route, after the dependencies. *)
Definition handle (run_id : Z) (token : string) (req : request) : eff jobj :=
  _ ← load_run run_id;
  match req with
  | RClaim holder hint =>
      lease ← claim_lease holder hint;
      w ← get;
      mret (serialise SpecSliceOut (build_slice (w_run w) lease))
  | RReady slot lid => _ ← mark_ready slot lid; mret []
  | RHeartbeat slot lid body =>
      r ← record_heartbeat slot lid (<[ "_bearer" := VStr token ]> body);
      mret (serialise HeartbeatCommand (response_json r))
  | RFinal slot lid summary tail => _ ← record_final slot summary tail lid; mret []
  end.

(** One request: the dependencies, the route, and the session committed when it
    returns and rolled back when it raises. *)
Definition serve (run_id : Z) (authorization : option string) (req : request) (w : W)
    : W * result jobj :=
  match require_run_jwt run_id authorization, extract_bearer authorization with
  | Raise e, _ => (w, Raise e)
  | _, Raise e => (w, Raise e)
  | Ok _, Ok token => (commit (handle run_id token req) w, snd (handle run_id token req w))
  end.
End Routes.

Section RouteFacts.
Context {D : Type} `{Env D} `{!JwtLibrary} `{!ResponseModel}.
Abbreviation W := (world D).

(** The request carries a bearer token that the JWT library accepts and whose
    run claim is this run's id. *)
Definition authorised (run_id : Z) (authorization : option string) : Prop :=
  exists token c, extract_bearer authorization = Ok token /\ jwt_decode token = Some c
    /\ py_str repr_float (cl_run_id c) = pretty run_id.

Lemma require_run_jwt_spec run_id auth :
  (exists c, require_run_jwt run_id auth = Ok c) <-> authorised run_id auth.
Proof.
  unfold require_run_jwt, verify_run_jwt, authorised, mbind, result_bind.
  destruct (extract_bearer auth) as [token|e]; [|split; [intros [? ?]; done|by intros (? & ? & ? & _)]].
  destruct (jwt_decode token) as [c|] eqn:E.
  - destruct (bool_decide _) eqn:Eb.
    + apply bool_decide_eq_true in Eb. split; [|eauto]. intros _. exists token, c. auto.
    + apply bool_decide_eq_false in Eb. split; [by intros [? ?]|].
      intros (t & c' & [= <-] & E' & Hs). congruence.
  - split; [by intros [? ?]|]. intros (t & c' & [= <-] & E' & _). congruence.
Qed.

Lemma extract_bearer_status auth e : extract_bearer auth = Raise e -> exists d, e = HTTPException 401 d.
Proof.
  unfold extract_bearer. destruct auth as [a|]; [|intros [= <-]; eauto].
  destruct (bool_decide (a = "")); [intros [= <-]; eauto|].
  destruct (split_once a) as [[s t]|]; [|intros [= <-]; eauto].
  destruct (_ && _); [done|]. intros [= <-]; eauto.
Qed.

(** C20: a request whose bearer token is missing, malformed, rejected by the JWT
    library or issued for another run is answered 401 and changes nothing; and a
    request for a run the session does not have is answered 404 and changes
    nothing of the run. *)
Theorem agent_requests_authorised (w : W) run_id auth req :
  (~ authorised run_id auth -> exists d, serve run_id auth req w = (w, Raise (HTTPException 401 d)))
  /\ (authorised run_id auth -> r_id (w_run w) <> run_id ->
        serve run_id auth req w = (w, Raise (HTTPException 404 "unknown run"))).
Proof.
  unfold serve. split.
  - intros Hn. destruct (require_run_jwt run_id auth) as [c|e] eqn:E.
    { destruct Hn. apply require_run_jwt_spec. eauto. }
    assert (exists d, e = HTTPException 401 d) as [d ->]; [|eauto].
    revert E. unfold require_run_jwt, mbind, result_bind.
    destruct (extract_bearer auth) as [t|e'] eqn:E'.
    + destruct (verify_run_jwt t run_id); [done|]. intros [= <-]. eauto.
    + intros [= <-]. by apply extract_bearer_status in E'.
  - intros Ha Hid. destruct (proj2 (require_run_jwt_spec run_id auth) Ha) as [c Ec]. rewrite Ec.
    destruct Ha as (token & c' & Et & _). rewrite Et.
    assert (handle run_id token req w = (w, Raise (HTTPException 404 "unknown run"))) as Eh.
    { unfold handle, load_run. run. destruct (Z.eqb_spec (r_id (w_run w)) run_id); done. }
    unfold commit. rewrite Eh. cbn. f_equal. by destruct w.
Qed.

(** What the response model lets through of a heartbeat response. *)
Lemma heartbeat_body r (b := serialise HeartbeatCommand (response_json r)) :
  jget b "command" = jget (cmd_json (rp_command r)) "command"
  /\ jget b "t0" = jget (cmd_json (rp_command r)) "t0"
  /\ jget b "share" = jget (cmd_json (rp_command r)) "share"
  /\ jfind b "paused_s" = None.
Proof.
  subst b. split; [|split; [|split]].
  - apply serialise_get; [cbn; set_solver|reflexivity|destruct (rp_command r); cbn; done|].
    unfold response_json. by destruct (rp_command r).
  - apply serialise_get; [cbn; set_solver|reflexivity|cbn; set_solver|].
    unfold response_json. destruct (rp_command r), (rp_paused_s r), (rp_jwt r) as [t|]; try done;
      by destruct (nonempty t).
  - apply serialise_get; [cbn; set_solver|reflexivity|cbn; set_solver|].
    unfold response_json. destruct (rp_command r), (rp_paused_s r), (rp_jwt r) as [t|]; try done;
      by destruct (nonempty t).
  - apply serialise_declared. cbn. set_solver.
Qed.

(** a worker is never told how far its deadline moved.  For the holder of a
    slot of a run that has been paused, the lifecycle puts the total paused time
    in the heartbeat response of every command but [drain]; the response model
    of the route does not declare it, so the body that is sent has the command,
    T0 and share of that response but no [paused_s]. *)
Theorem heartbeat_drops_paused_s (w : W) run_id token slot l p
    (payload := <[ "_bearer" := VStr token ]> p) (now := w_now w) :
  Inv w -> w_leases w !! slot = Some l -> r_id (w_run w) = run_id ->
  0 < paused_seconds (w_run w) now ->
  command_spec (w_run w) l (version payload) <> Drain ->
  exists w' r b,
    record_heartbeat slot (Some (l_id l)) payload w = (w', Ok r)
    /\ rp_paused_s r = Some (py_round 3 (seconds (paused_seconds (w_run w) now)))
    /\ handle run_id token (RHeartbeat slot (Some (l_id l)) p) w = (w', Ok b)
    /\ jget b "command" = jget (cmd_json (rp_command r)) "command"
    /\ jget b "t0" = jget (cmd_json (rp_command r)) "t0"
    /\ jget b "share" = jget (cmd_json (rp_command r)) "share"
    /\ jfind b "paused_s" = None.
Proof.
  intros Hi Hl Hid Hp Hc.
  destruct (record_heartbeat_runs w slot l payload (inv_leases _ Hi) Hl)
    as (w' & r & l' & E & Ec & Ep & _).
  exists w', r, (serialise HeartbeatCommand (response_json r)). split; [done|].
  assert (rp_command r <> Superseded) as Hsup.
  { rewrite Ec. unfold command_spec. repeat case_match; done. }
  split.
  { rewrite Ep. rewrite (proj2 (Z.ltb_lt _ _)) by exact Hp. rewrite Ec in *.
    destruct (command_spec (w_run w) l (version payload)); done. }
  split; [|apply heartbeat_body].
  unfold handle, load_run. run. rewrite Hid, Z.eqb_refl. run. fold payload.
  by erewrite run_bind by exact E.
Qed.
End RouteFacts.

(** ** Witnesses *)

(** A library that accepts one token, of run 42. *)
Global Instance demo_jwt : JwtLibrary :=
  {| jwt_decode := fun t => if bool_decide (t = "good") then Some (mkClaims (VInt 42) VNone) else None |}.

Example demo_served :
  serve 42 (Some "Bearer  good ") (RReady 9 None) demo_t0
    = (demo_t0, Raise (HTTPException 409 "unknown slot"))
  /\ snd (serve 42 (Some "bearer bad") (RReady 9 None) demo_t0)
     = Raise (HTTPException 401 "invalid run token")
  /\ snd (serve 41 (Some "bearer good") (RReady 9 None) demo_t0)
     = Raise (HTTPException 401 "invalid run token")
  /\ snd (serve 42 (Some "good") (RReady 9 None) demo_t0)
     = Raise (HTTPException 401 "malformed Authorization header").
Proof. vm_compute. done. Qed.

(** A run that was paused for half a minute and resumed. *)
Definition demo_resumed : world FakeDriver :=
  foldl (fun w a => perform a w) demo_running
    [APause (Some 0%nat) "alice"; AWait 30000000; AResume (Some 0%nat) "alice"].

Lemma demo_resumed_inv : Inv demo_resumed.
Proof. eapply reachable_sound; [apply reachable_foldl|apply demo_running_inv]. Qed.

Lemma heartbeat_drops_paused_s_witness :
  exists w' r b,
    record_heartbeat 0 (Some (l_id (demo_slot demo_resumed 0))) (<[ "_bearer" := VStr "good" ]> beat)
      demo_resumed = (w', Ok r)
    /\ rp_paused_s r = Some (py_round 3 (seconds (paused_seconds (w_run demo_resumed) (w_now demo_resumed))))
    /\ handle 42 "good" (RHeartbeat 0 (Some (l_id (demo_slot demo_resumed 0))) beat) demo_resumed
       = (w', Ok b)
    /\ jget b "command" = jget (cmd_json (rp_command r)) "command"
    /\ jget b "t0" = jget (cmd_json (rp_command r)) "t0"
    /\ jget b "share" = jget (cmd_json (rp_command r)) "share"
    /\ jfind b "paused_s" = None.
Proof.
  apply (heartbeat_drops_paused_s demo_resumed 42 "good" 0 (demo_slot demo_resumed 0) beat).
  - apply demo_resumed_inv.
  - vm_compute. reflexivity.
  - vm_compute. reflexivity.
  - vm_compute. reflexivity.
  - vm_compute. discriminate.
Defined.

Lemma agent_requests_authorised_witness :
  (exists d, serve 42 (Some "bearer bad") (RClaim "x" None) demo_t0
             = (demo_t0, Raise (HTTPException 401 d)))
  /\ serve 42 (Some "bearer good") (RClaim "x" None) (with_run (fun _ => blank_run) demo_t0)
     = (with_run (fun _ => blank_run) demo_t0, Raise (HTTPException 404 "unknown run")).
Proof.
  split.
  - apply (agent_requests_authorised demo_t0 42 (Some "bearer bad") (RClaim "x" None)).
    intros (t & c & Et & Hd & _). vm_compute in Et. injection Et as <-. done.
  - apply (agent_requests_authorised (with_run (fun _ => blank_run) demo_t0) 42 (Some "bearer good")
             (RClaim "x" None)).
    + exists "good", (mkClaims (VInt 42) VNone). vm_compute. auto.
    + vm_compute. discriminate.
Defined.
