(* ===== verification/Auth.v ===== *)
(** * Who is asking (server/auth.py, the guard of server/app.py)

    Three sources of identity feed one resolver: the header of a trusted proxy,
    an API token, the signed session cookie.  The guard in front of the operator
    API lets a request through when the resolved principal has the role its path
    and method need.

    The tables are [accounts]; a function that reads or commits to them is of type
    [M accounts A].  The hashes and the cookie signer are an interface ([Crypto])
    with their documented laws; a network address is the number it denotes, and
    a peer that is no address is kept apart.  A request is served at one instant.

    The theorem: on an instance where authentication is active, what passes the
    guard carries a credential of a principal whose role is sufficient. *)

From S2P Require Import Prelude.
From S2P Require Import PyFloat.
From S2P Require Import PyValue.
From S2P Require Import Routes.
From Stdlib Require Import QArith Ascii.
Open Scope Z_scope.

(** ** Rows *)

(** [us_id] is [None] for the principal of a token, which is no row. *)
Record User : Type := mkUser {
  us_id : option Z;
  us_username : string;
  us_password_hash : option string;
  us_email : option string;
  us_role : string;
  us_source : string;
  us_active : bool;
  us_last_login_at : option Z;
}.

Record ApiToken : Type := mkApiToken {
  tk_id : Z;
  tk_name : string;
  tk_token_hash : string;
  tk_token_prefix : string;
  tk_role : string;
  tk_created_by : option string;
  tk_expires_at : option Z;
  tk_last_used_at : option Z;
  tk_revoked_at : option Z;
}.

(** The two tables, by id. *)
Record accounts : Type := mkAccounts { ac_users : list User; ac_tokens : list ApiToken }.

Definition set_users (f : list User -> list User) (a : accounts) : accounts := mkAccounts (f (ac_users a)) (ac_tokens a).
Definition set_tokens (f : list ApiToken -> list ApiToken) (a : accounts) : accounts :=
  mkAccounts (ac_users a) (f (ac_tokens a)).

(** [update ... where id = ...] *)
Definition set_user (id : Z) (f : User -> User) (us : list User) : list User :=
  (fun u => if bool_decide (us_id u = Some id) then f u else u) <$> us.
Definition set_token (id : Z) (f : ApiToken -> ApiToken) (ts : list ApiToken) : list ApiToken :=
  (fun t => if Z.eqb (tk_id t) id then f t else t) <$> ts.

Definition user_named (name : string) (a : accounts) : option User :=
  List.find (fun u => bool_decide (us_username u = name)) (ac_users a).
Definition get_user (id : Z) (a : accounts) : option User :=
  List.find (fun u => bool_decide (us_id u = Some id)) (ac_users a).
Definition get_token (id : Z) (a : accounts) : option ApiToken :=
  List.find (fun t => Z.eqb (tk_id t) id) (ac_tokens a).

(** The id the database gives a new row. *)
Class Rows : Type := { fresh_id : list Z -> Z; fresh_id_new : forall ids, fresh_id ids ∉ ids }.

(** ** The libraries *)

Inductive payload : Type := Dict (d : pydict) | NotDict.

(** SHA-256, bcrypt ([None] where it raises [ValueError] or [TypeError]; the first
    argument of the hash is its salt), and the signer of the session cookie: the
    cookie of a user id signed at an instant (its payload is [{"uid": id}], the
    only one signed with the salt of sessions), and the payload of a cookie no
    older than so many seconds. *)
Class Crypto : Type := {
  sha256_hex : string -> string;
  bcrypt_hash : string -> string -> option string;
  bcrypt_verify : string -> string -> option bool;
  dumps : Z -> Z -> string;
  loads : string -> Z -> Z -> option payload;
}.

(** The age of a signature, in whole seconds of the clock. *)
Definition age (now signed_at : Z) : Z := now / 1000000 - signed_at / 1000000.

(** A password verifies against its own hash, which is not empty; a cookie is
    never empty; one loads while it is young enough; and one that loads was
    signed here. *)
Class CryptoLaws `{Crypto} : Prop := {
  verify_hash salt p h : bcrypt_hash salt p = Some h -> h <> "" /\ bcrypt_verify p h = Some true;
  dumps_nonempty uid t : dumps uid t <> "";
  loads_dumps uid t max_age now : 0 <= age now t <= max_age ->
    loads (dumps uid t) max_age now = Some (Dict {[ "uid" := VInt uid ]});
  loads_signed c max_age now p : loads c max_age now = Some p ->
    exists uid t, c = dumps uid t /\ p = Dict {[ "uid" := VInt uid ]} /\ 0 <= age now t <= max_age;
}.

(** ** Requests and settings *)

Inductive address : Type := V4 (n : Z) | V6 (n : Z).
Record network : Type := mkNetwork { nw_address : address; nw_prefixlen : Z }.

Record auth_settings : Type := mkAuthSettings {
  as_trusted_proxies : list network;
  as_auth_header : string;
  as_proxy_default_role : string;
  as_auth_disabled : bool;
  as_session_ttl_s : Z;
  as_admin_user : option string;
  as_admin_password : option string;
}.

(** What a request brings.  [rq_client] is the address of the socket's peer
    ([Some None]: a host that is no address); header names are in lower case;
    [rq_random] is the randomness drawn while it is served. *)
Record http_request : Type := mkRequest {
  rq_path : string;
  rq_method : string;
  rq_client : option (option address);
  rq_headers : gmap string string;
  rq_cookie : option string;
  rq_now : Z;
  rq_random : string;
}.

Definition API_TOKEN_PREFIX : string := "stk_".
Definition TOKEN_LAST_USED_THROTTLE : Z := 60 * 1000000.

Section Identity.
Context `{Rows, Crypto} (st : auth_settings).

(** ** Passwords *)

Definition hash_password (salt password : string) : result string :=
  if bool_decide (password = "") then Raise (ValueError "password must not be empty")
  else match bcrypt_hash salt password with
       | Some h => Ok h
       | None => Raise (ValueError "bcrypt")
       end.

Definition verify_password (password : string) (password_hash : option string) : bool :=
  match password_hash with
  | Some h => if bool_decide (h = "") then false else default false (bcrypt_verify password h)
  | None => false
  end.

(** The dummy verification of a miss only spends time. *)
Definition verify_password_constant (password : string) (password_hash : option string) : bool :=
  match password_hash with
  | Some h => if bool_decide (h = "") then false else verify_password password (Some h)
  | None => false
  end.

(** ** API tokens *)

Definition hash_api_token (secret : string) : string := sha256_hex secret.

(** [(secret, token_hash, token_prefix)] *)
Definition generate_api_token (random : string) : string * string * string :=
  let secret := API_TOKEN_PREFIX +:+ random in (secret, hash_api_token secret, String.substring 0 12 secret).

Definition token_is_active (t : ApiToken) (now : Z) : bool :=
  match tk_revoked_at t with
  | Some _ => false
  | None => match tk_expires_at t with Some e => negb (e <=? now) | None => true end
  end.

Definition touch (now : Z) (t : ApiToken) : ApiToken :=
  mkApiToken (tk_id t) (tk_name t) (tk_token_hash t) (tk_token_prefix t) (tk_role t) (tk_created_by t)
    (tk_expires_at t) (Some now) (tk_revoked_at t).

Definition touch_token_last_used (t : ApiToken) (now : Z) : M accounts unit :=
  if match tk_last_used_at t with Some last => now - last <? TOKEN_LAST_USED_THROTTLE | None => false end
  then mret tt
  else modify (set_tokens (set_token (tk_id t) (touch now))).

Definition resolve_api_token (secret : string) (now : Z) : M accounts (option ApiToken) :=
  if bool_decide (secret = "") || negb (String.prefix API_TOKEN_PREFIX secret) then mret None
  else
    found ← gets (fun a => List.find (fun t => bool_decide (tk_token_hash t = hash_api_token secret)) (ac_tokens a));
    match found with
    | None => mret None
    | Some t =>
        if token_is_active t now then touch_token_last_used t now ≫= fun _ => mret (Some t) else mret None
    end.

Definition bearer_secret (rq : http_request) : option string :=
  match rq_headers rq !! "authorization" with
  | None => None
  | Some raw =>
      if bool_decide (raw = "") then None
      else match split_once raw with
           | Some (scheme, rest) =>
               if bool_decide (py_lower scheme = "bearer") && nonempty (py_strip rest) then Some (py_strip rest) else None
           | None => None
           end
  end.

Definition principal_from_token (t : ApiToken) : User :=
  mkUser None ("token:" +:+ tk_name t) None None (tk_role t) "token" true None.

(** ** Sessions *)

(** [None] when [user.id] is no number. *)
Definition issue_session (u : User) (now : Z) : option string :=
  (fun id => dumps id now) <$> us_id u.

(** [int(v)] *)
Definition int_of_value (v : pyval) : option Z :=
  match v with VBool b => Some (if b then 1 else 0) | _ => coerce_int v end.

Definition read_session (cookie : option string) (now : Z) : option Z :=
  match cookie with
  | None => None
  | Some c =>
      if bool_decide (c = "") then None
      else match loads c (as_session_ttl_s st) now with
           | Some (Dict d) => int_of_value (dget d "uid")
           | _ => None
           end
  end.

(** ** The trusted proxy *)

Definition netmask (width prefixlen : Z) : Z := 2 ^ width - 2 ^ (width - prefixlen).

(** [addr in net] *)
Definition in_network (addr : address) (net : network) : bool :=
  match addr, nw_address net with
  | V4 n, V4 base => Z.land n (netmask 32 (nw_prefixlen net)) =? base
  | V6 n, V6 base => Z.land n (netmask 128 (nw_prefixlen net)) =? base
  | _, _ => false
  end.

Definition peer_is_trusted (client : option (option address)) : bool :=
  match client with
  | Some (Some addr) => existsb (in_network addr) (as_trusted_proxies st)
  | _ => false
  end.

Definition proxy_asserted_username (rq : http_request) : option string :=
  if peer_is_trusted (rq_client rq) then
    match rq_headers rq !! py_lower (as_auth_header st) with
    | Some raw => if nonempty (py_strip raw) then Some (py_strip raw) else None
    | None => None
    end
  else None.

Definition new_user_id (a : accounts) : Z := fresh_id (omap us_id (ac_users a)).

(** [db.add], [db.commit] and [db.refresh] of a user; the id is the database's. *)
Definition insert_user (mk : Z -> User) : M accounts User :=
  a ← get;
  let u := mk (new_user_id a) in
  modify (set_users (fun us => us ++ [u])) ≫= fun _ => mret u.

Definition proxy_user (username : string) (now id : Z) : User :=
  mkUser (Some id) username None None (as_proxy_default_role st) "proxy" true (Some now).

Definition get_or_create_proxy_user (username : string) (now : Z) : M accounts (option User) :=
  found ← gets (user_named username);
  match found with
  | Some u => mret (if us_active u then Some u else None)
  | None => insert_user (proxy_user username now) ≫= fun u => mret (Some u)
  end.

(** ** The resolver *)

Definition session_user (rq : http_request) : M accounts (option User) :=
  match read_session (rq_cookie rq) (rq_now rq) with
  | None => mret None
  | Some uid =>
      u ← gets (get_user uid);
      mret (match u with Some u => if us_active u then Some u else None | None => None end)
  end.

Definition resolve_user (rq : http_request) : M accounts (option User) :=
  match proxy_asserted_username rq with
  | Some username => get_or_create_proxy_user username (rq_now rq)
  | None =>
      match bearer_secret rq with
      | Some secret =>
          if String.prefix API_TOKEN_PREFIX secret then
            t ← resolve_api_token secret (rq_now rq);
            mret (principal_from_token <$> t)
          else session_user rq
      | None => session_user rq
      end
  end.

Definition require_user (rq : http_request) : M accounts User :=
  u ← resolve_user rq;
  match u with
  | None => raise (HTTPException 401 "authentication required")
  | Some u => mret u
  end.

Definition require_admin (rq : http_request) : M accounts User :=
  u ← require_user rq;
  if bool_decide (us_role u = "admin") then mret u else raise (HTTPException 403 "admin role required").

(** ** First access *)

Definition user_count (a : accounts) : Z := Z.of_nat (length (ac_users a)).
Definition proxy_trust_enabled : bool := negb (bool_decide (length (as_trusted_proxies st) = 0%nat)).

Definition setup_needed (a : accounts) : bool :=
  if as_auth_disabled st then false else if proxy_trust_enabled then false else user_count a =? 0.

Definition auth_active (a : accounts) : bool :=
  if as_auth_disabled st then false else if proxy_trust_enabled then true else 0 <? user_count a.

(** [None] when there is nothing to create. *)
Definition bootstrap_admin (random : string) : M accounts (option User) :=
  if as_auth_disabled st then mret None
  else
    let username := py_strip (default "" (as_admin_user st)) in
    let password := default "" (as_admin_password st) in
    if negb (nonempty username) || negb (nonempty password) then mret None
    else
      existing ← gets (user_named username);
      match existing with
      | Some _ => mret None
      | None =>
          h ← lift (hash_password random password);
          insert_user (fun id => mkUser (Some id) username (Some h) None "admin" "local" true None) ≫= fun u => mret (Some u)
      end.

(** ** The guard *)

Definition PROTECTED_PREFIX : string := "/api/".
Definition AUTH_EXEMPT_PREFIXES : list string :=
  ["/api/agent"; "/api/hooks"; "/api/auth/login"; "/api/auth/logout"; "/api/auth/status"; "/api/auth/setup"].
Definition ADMIN_PREFIXES : list string := ["/api/users"; "/api/tokens"; "/api/config"].

(** [path == p or path.startswith(p + "/")] for one of [ps] *)
Definition under (ps : list string) (path : string) : bool :=
  existsb (fun p => bool_decide (path = p) || String.prefix (p +:+ "/") path) ps.

Definition is_auth_exempt (path : string) : bool :=
  if String.prefix PROTECTED_PREFIX path then under AUTH_EXEMPT_PREFIXES path else true.

Definition safe_method (m : string) : bool := bool_decide (m ∈ ["GET"; "HEAD"; "OPTIONS"]).

(** The actor of a request that goes on to its handler ([None]: no guard). *)
Definition auth_guard (rq : http_request) : M accounts (option string) :=
  if as_auth_disabled st || is_auth_exempt (rq_path rq) then mret None
  else
    a ← get;
    if negb (auth_active a) then mret None
    else
      u ← resolve_user rq;
      match u with
      | None => raise (HTTPException 401 "authentication required")
      | Some u =>
          if negb (us_active u) then raise (HTTPException 401 "authentication required")
          else if under ADMIN_PREFIXES (rq_path rq) then
            if negb (bool_decide (us_role u = "admin")) then raise (HTTPException 403 "admin role required")
            else mret (Some (us_username u))
          else if negb (safe_method (rq_method rq)) then
            if negb (bool_decide (us_role u ∈ ["operator"; "admin"])) then raise (HTTPException 403 "operator role required")
            else mret (Some (us_username u))
          else mret (Some (us_username u))
      end.
End Identity.

(** ** Credentials *)

Definition AUTH_ROLES : list string := ["viewer"; "operator"; "admin"].

(** What the tables say, but for the instants of the last use. *)
Definition user_facts (u : User) :=
  (us_id u, us_username u, us_password_hash u, us_email u, us_role u, us_source u, us_active u).
Definition token_facts (t : ApiToken) :=
  (tk_id t, tk_name t, tk_token_hash t, tk_token_prefix t, tk_role t, tk_created_by t, tk_expires_at t, tk_revoked_at t).
Definition managed (a : accounts) := (user_facts <$> ac_users a, token_facts <$> ac_tokens a).

Section Credentials.
Context `{Rows, Crypto, !CryptoLaws} (st : auth_settings).

(** A trusted peer names the user, who has an active account. *)
Inductive credential (a : accounts) (rq : http_request) : User -> Prop :=
  | ByProxy addr net raw u :
      rq_client rq = Some (Some addr) -> net ∈ as_trusted_proxies st -> in_network addr net = true ->
      rq_headers rq !! py_lower (as_auth_header st) = Some raw ->
      u ∈ ac_users a -> us_username u = py_strip raw -> us_active u = true -> credential a rq u
  (** A trusted peer names a user there is no account of: one with the default role is made. *)
  | ByFirstSight addr net raw :
      rq_client rq = Some (Some addr) -> net ∈ as_trusted_proxies st -> in_network addr net = true ->
      rq_headers rq !! py_lower (as_auth_header st) = Some raw ->
      (forall u, u ∈ ac_users a -> us_username u <> py_strip raw) ->
      credential a rq (proxy_user st (py_strip raw) (rq_now rq) (new_user_id a))
  (** The bearer is the secret of a token that is neither revoked nor expired. *)
  | ByToken secret t :
      bearer_secret rq = Some secret -> String.prefix API_TOKEN_PREFIX secret = true ->
      t ∈ ac_tokens a -> tk_token_hash t = sha256_hex secret -> tk_revoked_at t = None ->
      (forall e, tk_expires_at t = Some e -> rq_now rq < e) -> credential a rq (principal_from_token t)
  (** The cookie was signed here for this user, no longer ago than the lifetime of a session. *)
  | BySession signed_at uid u :
      rq_cookie rq = Some (dumps uid signed_at) -> 0 <= age (rq_now rq) signed_at <= as_session_ttl_s st ->
      u ∈ ac_users a -> us_id u = Some uid -> us_active u = true -> credential a rq u.

Lemma find_spec {A} (p : A -> bool) l x : List.find p l = Some x -> x ∈ l /\ p x = true.
Proof. intros [? ?]%find_some. by rewrite list_elem_of_In. Qed.

Lemma find_none_spec {A} (p : A -> bool) l : List.find p l = None -> forall x, x ∈ l -> p x = false.
Proof. intros E x Hx%list_elem_of_In. by eapply find_none. Qed.

Lemma trusted_peer rq name : proxy_asserted_username st rq = Some name ->
  exists addr net raw, rq_client rq = Some (Some addr) /\ net ∈ as_trusted_proxies st /\ in_network addr net = true /\
    rq_headers rq !! py_lower (as_auth_header st) = Some raw /\ name = py_strip raw.
Proof.
  unfold proxy_asserted_username, peer_is_trusted. destruct (rq_client rq) as [[addr|]|]; [|done..].
  destruct (existsb _ _) eqn:E; [|done]. apply existsb_true in E as (net & Hn & Hi).
  destruct (rq_headers rq !! _) as [raw|] eqn:Er; [|done]. destruct (nonempty _); [|done]. intros [= <-]. naive_solver.
Qed.

(** Only the instants of the last use differ, or a user whom the proxy named. *)
Definition identified (rq : http_request) (a a' : accounts) : Prop :=
  managed a' = managed a \/
  exists name, proxy_asserted_username st rq = Some name /\ user_named name a = None /\
    managed a' = managed (set_users (fun us => us ++ [proxy_user st name (rq_now rq) (new_user_id a)]) a).

Lemma touch_managed t now a : managed (set_tokens (set_token (tk_id t) (touch now)) a) = managed a.
Proof.
  unfold managed. cbn. f_equal. unfold set_token. rewrite <- list_fmap_compose. apply list_fmap_ext. intros i x _.
  cbn. by destruct (tk_id x =? tk_id t).
Qed.

Lemma session_user_spec rq a : exists u, session_user st rq a = (a, Ok u) /\ forall p, u = Some p -> credential a rq p.
Proof.
  unfold session_user. destruct (read_session st (rq_cookie rq) (rq_now rq)) as [uid|] eqn:E; [|by exists None].
  eexists. split; [reflexivity|]. intros p Hp. destruct (get_user uid a) as [u|] eqn:Eu; [|done].
  destruct (us_active u) eqn:Ea; [|done]. injection Hp as <-. apply find_spec in Eu as [Hu Hid%bool_decide_eq_true].
  unfold read_session in E. destruct (rq_cookie rq) as [c|] eqn:Ec; [|done]. destruct (bool_decide (c = "")); [done|].
  destruct (loads c _ _) as [[d|]|] eqn:El; [|done..]. apply loads_signed in El as (uid' & t & -> & [= ->] & Ht).
  unfold dget in E. rewrite lookup_singleton_eq in E. injection E as ->. by eapply BySession.
Qed.

Lemma resolve_user_spec rq a : exists a' u, resolve_user st rq a = (a', Ok u) /\ identified rq a a' /\
  forall p, u = Some p -> credential a rq p.
Proof.
  unfold resolve_user. destruct (proxy_asserted_username st rq) as [name|] eqn:En.
  { destruct (trusted_peer rq name En) as (addr & net & raw & Hp1 & Hp2 & Hp3 & Hp4 & Hn).
    unfold get_or_create_proxy_user. rewrite run_gets. destruct (user_named name a) as [u|] eqn:Eu.
    - eexists _, _. split; [reflexivity|]. split; [by left|]. intros p Hp. destruct (us_active u) eqn:Ea; [|done].
      injection Hp as <-. apply find_spec in Eu as [Hu Hname%bool_decide_eq_true]. eapply ByProxy; try done. congruence.
    - eexists _, _. split; [reflexivity|]. split; [right; eauto|]. intros p [= <-]. subst name. eapply ByFirstSight; try done.
      intros u Hu He. pose proof (find_none_spec _ _ Eu u Hu) as Hf. cbn in Hf. by apply bool_decide_eq_false in Hf. }
  assert (exists a' u, session_user st rq a = (a', Ok u) /\ identified rq a a' /\ forall p, u = Some p -> credential a rq p)
    as Hs by (destruct (session_user_spec rq a) as (u & E & Hu); exists a, u; split_and!; [done|by left|done]).
  destruct (bearer_secret rq) as [secret|] eqn:Eb; [|done]. destruct (String.prefix API_TOKEN_PREFIX secret) eqn:Ep; [|done].
  unfold resolve_api_token. rewrite Ep. cbn [negb]. rewrite orb_false_r. destruct (bool_decide (secret = "")).
  { eexists _, _. split; [reflexivity|]. split; [by left|done]. }
  run. destruct (List.find _ _) as [t|] eqn:Ef; [|eexists _, _; split; [reflexivity|]; split; [by left|done]].
  apply find_spec in Ef as [Ht Hh%bool_decide_eq_true].
  destruct (token_is_active t (rq_now rq)) eqn:Ea; [|eexists _, _; split; [reflexivity|]; split; [by left|done]].
  assert (credential a rq (principal_from_token t)) as Hc.
  { unfold token_is_active in Ea. destruct (tk_revoked_at t) eqn:Er; [done|]. eapply ByToken; try done.
    intros e He. rewrite He in Ea. apply negb_true_iff, Z.leb_gt in Ea. done. }
  unfold touch_token_last_used. destruct (match tk_last_used_at t with Some _ => _ | None => _ end).
  - eexists _, _. split; [reflexivity|]. split; [by left|]. by intros p [= <-].
  - eexists _, _. split; [reflexivity|]. split; [left; apply touch_managed|]. by intros p [= <-].
Qed.

(** ** Roles *)

Definition rank (role : string) : Z :=
  if bool_decide (role = "admin") then 2 else if bool_decide (role = "operator") then 1 else 0.

(** What a path and a method need. *)
Definition needed (path method : string) : Z :=
  if under ADMIN_PREFIXES path then 2 else if safe_method method then 0 else 1.

Lemma credential_active a rq u : credential a rq u -> us_active u = true.
Proof. by destruct 1. Qed.
End Credentials.

(** C32: what passes the guard is entitled to.  On an instance where authentication
    is active, a request for a guarded path goes on to its handler only for a
    principal of whom it carries a credential (a trusted peer's word, a live
    token, a session signed here and not too old, each of an active account), and
    whose role is at least what the path and the method need; otherwise it is
    a 401, when no principal was found, or a 403, when one of a lower role was.
    Either way no more than an instant of last use has changed, or an account
    of the default role was made for a user the trusted proxy named. *)
Theorem guard_admits_entitled `{Rows, Crypto, !CryptoLaws} st rq a (a' := fst (auth_guard st rq a)) :
  auth_active st a = true -> is_auth_exempt (rq_path rq) = false ->
  identified st rq a a' /\
  match snd (auth_guard st rq a) with
  | Ok actor =>
      exists p, credential st a rq p /\ actor = Some (us_username p) /\ us_active p = true /\
        needed (rq_path rq) (rq_method rq) <= rank (us_role p)
  | Raise e =>
      (snd (resolve_user st rq a) = Ok None /\ exists d, e = HTTPException 401 d) \/
      (exists p d, credential st a rq p /\ e = HTTPException 403 d /\ rank (us_role p) < needed (rq_path rq) (rq_method rq))
  end.
Proof.
  intros Ha He. subst a'. unfold auth_guard.
  assert (as_auth_disabled st = false) as ->.
  { unfold auth_active in Ha. by destruct (as_auth_disabled st). }
  rewrite He. cbn [orb]. rewrite run_get, Ha. cbn [negb].
  destruct (resolve_user_spec st rq a) as (a1 & u & E & Hi & Hc). rewrite E. cbn [snd].
  rewrite (run_bind _ _ _ _ _ E). destruct u as [u|]; [|split; [done|]; left; naive_solver].
  specialize (Hc u eq_refl). pose proof (credential_active st a rq u Hc) as Hact. rewrite Hact. cbn [negb].
  unfold needed.
  destruct (under ADMIN_PREFIXES (rq_path rq)) eqn:Eu.
  { case_bool_decide as Er; cbn [negb fst snd raise mret M_ret]; (split; [done|]).
    - exists u. split_and!; [done..|]. rewrite Er. done.
    - right. eexists _, _. split; [done|]. split; [reflexivity|]. unfold rank. rewrite bool_decide_false by done.
      by case_bool_decide. }
  destruct (safe_method (rq_method rq)); cbn [negb].
  { cbn. split; [done|]. exists u. split_and!; [done..|]. unfold rank. repeat case_bool_decide; lia. }
  case_bool_decide as Er; cbn [negb fst snd raise mret M_ret]; (split; [done|]).
  - exists u. split_and!; [done..|]. unfold rank. repeat case_bool_decide; try lia. set_solver.
  - right. eexists _, _. split; [done|]. split; [reflexivity|]. unfold rank.
    rewrite !bool_decide_false by set_solver. lia.
Qed.

(** ** An instance of the libraries *)

Section Demo.

Fixpoint bits (p : positive) : string :=
  match p with xH => "" | xO p => String "0" (bits p) | xI p => String "1" (bits p) end.
Fixpoint unbits (s : string) : positive :=
  match s with
  | String c s => if Ascii.eqb c "1" then xI (unbits s) else xO (unbits s)
  | EmptyString => xH
  end.

Lemma unbits_bits p : unbits (bits p) = p.
Proof. induction p as [p IH|p IH|]; cbn; by rewrite ?IH. Qed.

Definition demo_cookie (uid t : Z) : string := "session." +:+ bits (encode (uid, t)).
Definition demo_loads (c : string) (max_age now : Z) : option payload :=
  match decode (unbits (String.substring 8 (String.length c) c)) with
  | Some (uid, t) =>
      if bool_decide (c = demo_cookie uid t) && (0 <=? age now t) && (age now t <=? max_age)
      then Some (Dict {[ "uid" := VInt uid ]}) else None
  | None => None
  end.

Global Instance demo_crypto : Crypto := {
  sha256_hex s := "sha256:" +:+ s;
  bcrypt_hash salt p := Some ("$2b$" +:+ p);
  bcrypt_verify p h := Some (bool_decide (h = "$2b$" +:+ p));
  dumps := demo_cookie;
  loads := demo_loads;
}.

Lemma substring_all s n : (String.length s <= n)%nat -> String.substring 0 n s = s.
Proof. revert n. induction s as [|c s IH]; intros [|n] Hn; cbn in *; [done..|lia|]. f_equal. apply IH. lia. Qed.

Global Instance demo_crypto_laws : CryptoLaws.
Proof.
  split.
  - intros salt p h [= <-]. split; [done|]. cbn. by rewrite bool_decide_true.
  - done.
  - intros uid t max_age now Ha. cbn [loads demo_crypto dumps]. unfold demo_loads.
    assert (String.substring 8 (String.length (demo_cookie uid t)) (demo_cookie uid t) = bits (encode (uid, t))) as ->.
    { unfold demo_cookie. generalize (bits (encode (uid, t))). intros b. cbn. apply substring_all. unfold String.app. cbn. lia. }
    rewrite unbits_bits, decode_encode. rewrite bool_decide_true by done.
    by rewrite (proj2 (Z.leb_le _ _)), (proj2 (Z.leb_le _ _)) by lia.
  - intros c max_age now p. cbn. unfold demo_loads. destruct (decode _) as [[uid t]|]; [|done].
    destruct (bool_decide _) eqn:E1; [|done]. destruct (0 <=? _) eqn:E2; [|done]. destruct (_ <=? max_age) eqn:E3; [|done].
    cbn. intros [= <-]. exists uid, t. apply bool_decide_eq_true in E1. split_and!; [done|done|lia|lia].
Qed.

(** The row ids of SQLite: one more than the largest. *)
Definition next_rowid (ids : list Z) : Z := 1 + foldr Z.max 0 ids.

Global Program Instance sqlite_rows : Rows := { fresh_id := next_rowid }.
Next Obligation.
  intros Hin. assert (forall i, i ∈ ids -> i <= foldr Z.max 0 ids) as Hle.
  { clear. induction ids as [|j ids IH]; [by intros ? []%elem_of_nil|]. cbn.
    intros i [->|Hi]%elem_of_cons; [lia|]. specialize (IH i Hi). lia. }
  specialize (Hle _ Hin). unfold next_rowid in Hle. lia.
Qed.

Definition demo_settings : auth_settings :=
  mkAuthSettings [mkNetwork (V4 (10 * 2 ^ 24)) 8] "X-Authentik-Username" "operator" false 43200 None None.
Definition demo_admin : User := mkUser (Some 1) "root" (Some "$2b$secret") None "admin" "local" true None.
Definition demo_accounts : accounts := mkAccounts [demo_admin] [].

(** A run is launched with a session, from outside the proxy's network; the
    proxy's header is not believed there. *)
Definition demo_launch : http_request :=
  mkRequest "/api/specs/1/run" "POST" (Some (Some (V4 (192 * 2 ^ 24))))
    {[ "x-authentik-username" := "mallory" ]} (Some (demo_cookie 1 0)) 1000000 "".

Lemma guard_admits_entitled_witness :
  snd (auth_guard demo_settings demo_launch demo_accounts) = Ok (Some "root") /\
  exists p, credential demo_settings demo_accounts demo_launch p /\ Some "root" = Some (us_username p) /\
    us_active p = true /\ needed "/api/specs/1/run" "POST" <= rank (us_role p).
Proof.
  split; [vm_compute; reflexivity|].
  pose proof (guard_admits_entitled demo_settings demo_launch demo_accounts) as G.
  destruct G as [_ G]; [vm_compute; reflexivity..|].
  replace (snd (auth_guard demo_settings demo_launch demo_accounts)) with (@Ok (option string) (Some "root")) in G
    by (vm_compute; reflexivity).
  exact G.
Defined.
End Demo.
