(* ===== verification/Accounts.v ===== *)
(** * Accounts and their endpoints (server/routes/auth.py, server/routes/tokens.py)

    Login, first-access setup, user management and API tokens, each behind the
    guard of [Auth], with the validators of their bodies (server/schemas.py).  A
    [call] is one request to one of these endpoints; [serve_http] is the guard
    and then the handler, whose own dependency resolves the caller again.

    The theorems: the tables stay consistent and, once there is an active
    administrator, there always is one; nothing but an administrator's request,
    the first-access setup or the first sight of a proxied user changes an
    account; a revoked token is dead for good; a user who was created can log in. *)

From S2P Require Import Prelude.
From S2P Require Import PyFloat.
From S2P Require Import PyValue.
From S2P Require Import PackYaml.
From S2P Require Import Auth.
From Stdlib Require Import QArith Ascii.
Open Scope Z_scope.

(** ** Bodies *)

(** A field the client left out, or sent as null, is [None]; an email may be set to
    null, so it has both. *)
Record UserUpdate : Type := mkUserUpdate {
  uu_role : option string;
  uu_password : option string;
  uu_active : option bool;
  uu_email : option (option string);
}.

Inductive action : Type :=
  | Login (username password : string)
  | Logout
  | Me
  | Status
  | Setup (username password : string)
  | ListUsers
  | CreateUser (username password : string) (role email : option string)
  | UpdateUser (id : Z) (body : UserUpdate)
  | DeleteUser (id : Z)
  | CreateToken (name : string) (role : option string) (expires_in_days : option Z)
  | ListTokens
  | RevokeToken (id : Z).

Definition path_of (act : action) : string :=
  match act with
  | Login _ _ => "/api/auth/login"
  | Logout => "/api/auth/logout"
  | Me => "/api/auth/me"
  | Status => "/api/auth/status"
  | Setup _ _ => "/api/auth/setup"
  | ListUsers | CreateUser _ _ _ _ => "/api/users"
  | UpdateUser id _ | DeleteUser id => "/api/users/" +:+ pretty id
  | CreateToken _ _ _ | ListTokens => "/api/tokens"
  | RevokeToken id => "/api/tokens/" +:+ pretty id
  end.

Definition method_of (act : action) : string :=
  match act with
  | Me | Status | ListUsers | ListTokens => "GET"
  | UpdateUser _ _ => "PATCH"
  | DeleteUser _ | RevokeToken _ => "DELETE"
  | _ => "POST"
  end.

Record call : Type := mkCall {
  ca_action : action;
  ca_client : option (option address);
  ca_headers : gmap string string;
  ca_cookie : option string;
  ca_now : Z;
  ca_random : string;
}.

Definition http_of (c : call) : http_request :=
  mkRequest (path_of (ca_action c)) (method_of (ca_action c)) (ca_client c) (ca_headers c) (ca_cookie c)
    (ca_now c) (ca_random c).

(** ** Replies *)

Record UserOut : Type := mkUserOut {
  uo_id : option Z;
  uo_username : string;
  uo_email : option string;
  uo_role : string;
  uo_source : string;
  uo_active : bool;
  uo_last_login_at : option Z;
}.
Definition user_out (u : User) : UserOut :=
  mkUserOut (us_id u) (us_username u) (us_email u) (us_role u) (us_source u) (us_active u) (us_last_login_at u).

Record ApiTokenOut : Type := mkTokenOut {
  to_id : Z;
  to_name : string;
  to_role : string;
  to_prefix : string;
  to_created_by : option string;
  to_expires_at : option Z;
  to_last_used_at : option Z;
  to_revoked_at : option Z;
}.
Definition token_out (t : ApiToken) : ApiTokenOut :=
  mkTokenOut (tk_id t) (tk_name t) (tk_role t) (tk_token_prefix t) (tk_created_by t) (tk_expires_at t)
    (tk_last_used_at t) (tk_revoked_at t).

(** The body, and the session cookie a login sets. *)
Inductive answer : Type :=
  | AUser (u : UserOut) (cookie : option string)
  | AUsers (us : list UserOut)
  | AStatus (authenticated setup_needed sso_enabled : bool) (u : option UserOut)
  | AToken (t : ApiTokenOut) (secret : string)
  | ATokens (ts : list ApiTokenOut)
  | AClearCookie
  | ANoContent.

(** ** Validators *)

Definition invalid {A} (msg : string) : result A := Raise (HTTPException 422 msg).

(** [UserCreate], [SetupRequest] and [ApiTokenCreate] take names alike. *)
Definition validate_name (what v : string) : result string :=
  let v := py_strip v in
  if bool_decide (v = "") then invalid (what +:+ " is required")
  else if (255 <? Z.of_nat (String.length v)) then invalid (what +:+ " must be at most 255 characters")
  else Ok v.

Definition validate_password (v : string) : result string :=
  if bool_decide (v = "") then invalid "password is required" else Ok v.

(** A role that is left out is the default; an empty one is too. *)
Definition validate_role (dflt : string) (v : option string) : result string :=
  match v with
  | None => Ok dflt
  | Some v =>
      let v := py_strip (if bool_decide (v = "") then dflt else v) in
      if bool_decide (v ∈ AUTH_ROLES) then Ok v else invalid "role must be one of viewer, operator, admin"
  end.

Definition validate_update (b : UserUpdate) : result UserUpdate :=
  role ← match uu_role b with
         | None => Ok None
         | Some v => if bool_decide (py_strip v ∈ AUTH_ROLES) then Ok (Some (py_strip v))
                     else invalid "role must be one of viewer, operator, admin"
         end;
  if bool_decide (uu_password b = Some "") then invalid "password must not be empty"
  else Ok (mkUserUpdate role (uu_password b) (uu_active b) (uu_email b)).

Definition validate_expires (v : option Z) : result (option Z) :=
  match v with
  | Some d => if d <=? 0 then invalid "expires_in_days must be a positive integer" else Ok (Some d)
  | None => Ok None
  end.

(** ** Handlers *)

Definition DAY : Z := 86400 * 1000000.
(** The last instant a [datetime] can hold, and the days of a [timedelta]. *)
Definition MAX_INSTANT : Z := 253402300799999999.
Definition MAX_DAYS : Z := 999999999.

Definition expiry (now : Z) (days : option Z) : result (option Z) :=
  match days with
  | None => Ok None
  | Some d =>
      if (MAX_DAYS <? d) || (MAX_INSTANT <? now + d * DAY) then Raise OverflowError else Ok (Some (now + d * DAY))
  end.

Section Endpoints.
Context `{Rows, Crypto} (st : auth_settings).

Definition set_last_login (now : Z) (u : User) : User :=
  mkUser (us_id u) (us_username u) (us_password_hash u) (us_email u) (us_role u) (us_source u) (us_active u) (Some now).

Definition session_cookie (u : User) (now : Z) : result string :=
  match issue_session u now with Some c => Ok c | None => Raise TypeError end.

Definition login (rq : http_request) (username password : string) : M accounts answer :=
  found ← gets (user_named (py_strip username));
  let password_ok := verify_password_constant password (match found with Some u => us_password_hash u | None => None end) in
  match found with
  | Some u =>
      if negb (us_active u) || negb (bool_decide (us_source u = "local")) || negb password_ok
      then raise (HTTPException 401 "invalid credentials")
      else
        match us_id u with
        | None => raise TypeError
        | Some id =>
            modify (set_users (set_user id (set_last_login (rq_now rq)))) ≫= fun _ =>
            c ← lift (session_cookie u (rq_now rq));
            mret (AUser (user_out (set_last_login (rq_now rq) u)) (Some c))
        end
  | None => raise (HTTPException 401 "invalid credentials")
  end.

Definition me (rq : http_request) : M accounts answer :=
  u ← require_user st rq; mret (AUser (user_out u) None).

Definition status (rq : http_request) : M accounts answer :=
  u ← resolve_user st rq;
  a ← get;
  mret (AStatus (bool_decide (is_Some u)) (setup_needed st a) (proxy_trust_enabled st) (user_out <$> u)).

(** The advisory lock makes concurrent setups follow one another. *)
Definition setup (rq : http_request) (username password : string) : M accounts answer :=
  username ← lift (validate_name "username" username);
  password ← lift (validate_password password);
  a ← get;
  if negb (user_count a =? 0) then raise (HTTPException 409 "setup already complete: at least one user exists")
  else
    h ← lift (hash_password (rq_random rq) password);
    u ← insert_user (fun id => mkUser (Some id) (py_strip username) (Some h) None "admin" "local" true (Some (rq_now rq)));
    c ← lift (session_cookie u (rq_now rq));
    mret (AUser (user_out u) (Some c)).

Definition is_admin (u : User) : bool := bool_decide (us_role u = "admin") && us_active u.

Definition admin_count (exclude_id : option Z) (a : accounts) : Z :=
  Z.of_nat (length (List.filter (fun u => is_admin u &&
    match exclude_id with Some _ => negb (bool_decide (us_id u = exclude_id)) | None => true end) (ac_users a))).

Definition list_users (rq : http_request) : M accounts answer :=
  require_admin st rq ≫= fun _ => a ← get; mret (AUsers (user_out <$> ac_users a)).

Definition create_user (rq : http_request) (username password : string) (role email : option string) : M accounts answer :=
  require_admin st rq ≫= fun _ =>
  username ← lift (validate_name "username" username);
  password ← lift (validate_password password);
  role ← lift (validate_role "operator" role);
  let username := py_strip username in
  existing ← gets (user_named username);
  match existing with
  | Some _ => raise (HTTPException 409 "a user of this name already exists")
  | None =>
      h ← lift (hash_password (rq_random rq) password);
      u ← insert_user (fun id => mkUser (Some id) username (Some h) email role "local" true None);
      mret (AUser (user_out u) None)
  end.

(** The assignments of an update; [h] is the hash of the new password. *)
Definition apply_update (b : UserUpdate) (h : option string) (u : User) : User :=
  mkUser (us_id u) (us_username u)
    (match h with Some h => Some h | None => us_password_hash u end)
    (default (us_email u) (uu_email b))
    (default (us_role u) (uu_role b))
    (match h with Some _ => "local" | None => us_source u end)
    (default (us_active u) (uu_active b))
    (us_last_login_at u).

(** [seen] is what the handler has read; its commit is made to the tables as they
    are then. *)
Definition update_row (seen : accounts) (rq : http_request) (id : Z) (b : UserUpdate) : M accounts answer :=
  match get_user id seen with
  | None => raise (HTTPException 404 "unknown user")
  | Some u =>
      let demoting := match uu_role b with Some r => negb (bool_decide (r = "admin")) | None => false end in
      let deactivating := bool_decide (uu_active b = Some false) in
      if (demoting || deactivating) && is_admin u && (admin_count (us_id u) seen =? 0)
      then raise (HTTPException 409 "cannot demote or deactivate the last active admin")
      else
        h ← lift (match uu_password b with
                  | Some p => if bool_decide (p = "") then Ok None else h ← hash_password (rq_random rq) p; Ok (Some h)
                  | None => Ok None
                  end);
        modify (set_users (set_user id (apply_update b h))) ≫= fun _ => mret (AUser (user_out (apply_update b h u)) None)
  end.

Definition update_user (rq : http_request) (id : Z) (b : UserUpdate) : M accounts answer :=
  require_admin st rq ≫= fun _ =>
  b ← lift (validate_update b);
  a ← get;
  update_row a rq id b.

Definition delete_user (rq : http_request) (id : Z) : M accounts answer :=
  admin ← require_admin st rq;
  a ← get;
  match get_user id a with
  | None => raise (HTTPException 404 "unknown user")
  | Some u =>
      if bool_decide (us_id u = us_id admin) then raise (HTTPException 409 "you cannot delete yourself")
      else if is_admin u && (admin_count (us_id u) a =? 0) then raise (HTTPException 409 "cannot delete the last active admin")
      else
        modify (set_users (List.filter (fun v => negb (bool_decide (us_id v = Some id))))) ≫= fun _ => mret ANoContent
  end.

Definition new_token_id (a : accounts) : Z := fresh_id (tk_id <$> ac_tokens a).

(** A hash that is in the table already violates its unique index. *)
Definition create_token (rq : http_request) (name : string) (role : option string) (days : option Z) : M accounts answer :=
  admin ← require_admin st rq;
  name ← lift (validate_name "name" name);
  role ← lift (validate_role "viewer" role);
  days ← lift (validate_expires days);
  let name := py_strip name in
  a ← get;
  if existsb (fun t => bool_decide (tk_name t = name)) (ac_tokens a)
  then raise (HTTPException 409 "a token of this name already exists")
  else
    let '(secret, token_hash, token_prefix) := generate_api_token (rq_random rq) in
    expires_at ← lift (expiry (rq_now rq) days);
    if existsb (fun t => bool_decide (tk_token_hash t = token_hash)) (ac_tokens a) then raise IntegrityError
    else
      let t := mkApiToken (new_token_id a) name token_hash token_prefix role (Some (us_username admin)) expires_at None None in
      modify (set_tokens (fun ts => ts ++ [t])) ≫= fun _ => mret (AToken (token_out t) secret).

Definition list_tokens (rq : http_request) : M accounts answer :=
  require_admin st rq ≫= fun _ => a ← get; mret (ATokens (token_out <$> ac_tokens a)).

Definition revoke (now : Z) (t : ApiToken) : ApiToken :=
  mkApiToken (tk_id t) (tk_name t) (tk_token_hash t) (tk_token_prefix t) (tk_role t) (tk_created_by t)
    (tk_expires_at t) (tk_last_used_at t) (Some now).

Definition revoke_token (rq : http_request) (id : Z) : M accounts answer :=
  require_admin st rq ≫= fun _ =>
  t ← gets (get_token id);
  match t with
  | None => raise (HTTPException 404 "unknown token")
  | Some t =>
      when (bool_decide (tk_revoked_at t = None)) (modify (set_tokens (set_token id (revoke (rq_now rq))))) ≫= fun _ =>
      mret ANoContent
  end.

Definition endpoint (rq : http_request) (act : action) : M accounts answer :=
  match act with
  | Login username password => login rq username password
  | Logout => mret AClearCookie
  | Me => me rq
  | Status => status rq
  | Setup username password => setup rq username password
  | ListUsers => list_users rq
  | CreateUser username password role email => create_user rq username password role email
  | UpdateUser id b => update_user rq id b
  | DeleteUser id => delete_user rq id
  | CreateToken name role days => create_token rq name role days
  | ListTokens => list_tokens rq
  | RevokeToken id => revoke_token rq id
  end.

(** The guard, then the handler. *)
Definition serve_http (c : call) : M accounts answer :=
  auth_guard st (http_of c) ≫= fun _ => endpoint (http_of c) (ca_action c).

Definition serve_all (cs : list call) (a : accounts) : accounts := foldl (fun a c => fst (serve_http c a)) a cs.
End Endpoints.

(** ** Consistent tables *)

Definition ids (a : accounts) : list (option Z) := us_id <$> ac_users a.

Record consistent (a : accounts) : Prop := mkConsistent {
  co_ids : NoDup (ids a);
  co_rows : None ∉ ids a;
  co_names : NoDup (us_username <$> ac_users a);
  co_roles : Forall (.∈ AUTH_ROLES) (us_role <$> ac_users a);
  co_token_ids : NoDup (tk_id <$> ac_tokens a);
  co_token_names : NoDup (tk_name <$> ac_tokens a);
  co_hashes : NoDup (tk_token_hash <$> ac_tokens a);
}.

(** Someone can manage the instance. *)
Definition administered (a : accounts) : Prop := exists u, u ∈ ac_users a /\ is_admin u = true.

(** A token of this hash is in the table, revoked. *)
Definition dead (h : string) (a : accounts) : Prop :=
  exists t, t ∈ ac_tokens a /\ tk_token_hash t = h /\ tk_revoked_at t <> None.

(** What a request does to consistent tables: they stay consistent, an
    administrator remains, and no revocation is undone. *)
Definition keeps (a a' : accounts) : Prop :=
  consistent a -> consistent a' /\ (administered a -> administered a') /\ forall h, dead h a -> dead h a'.

Global Instance keeps_preorder : PreOrder keeps.
Proof. split; unfold keeps; [by intros a|]. intros a b c Hab Hbc Ha. naive_solver. Qed.

Lemma fmap_facts {A B C} (facts : A -> B) (f : A -> C) (g : B -> C) (l l' : list A) :
  (forall x, f x = g (facts x)) -> facts <$> l' = facts <$> l -> f <$> l' = f <$> l.
Proof.
  intros Hf E. rewrite (list_fmap_ext f (g ∘ facts) l'), (list_fmap_ext f (g ∘ facts) l) by done.
  by rewrite !list_fmap_compose, E.
Qed.

Lemma fact_of {A B} (facts : A -> B) (l l' : list A) x :
  facts <$> l' = facts <$> l -> x ∈ l -> exists x', x' ∈ l' /\ facts x' = facts x.
Proof.
  intros E Hx. assert (facts x ∈ facts <$> l') as (x' & ? & ?)%list_elem_of_fmap by (rewrite E; by apply list_elem_of_fmap_2).
  by exists x'.
Qed.

Lemma managed_inv a a' : managed a' = managed a ->
  user_facts <$> ac_users a' = user_facts <$> ac_users a /\ token_facts <$> ac_tokens a' = token_facts <$> ac_tokens a.
Proof. unfold managed. by intros [= ? ?]. Qed.

Lemma managed_ids a a' : managed a' = managed a -> ids a' = ids a.
Proof. intros [E _]%managed_inv. by apply (fmap_facts user_facts us_id (fun x => x.1.1.1.1.1.1)). Qed.

Lemma managed_names a a' : managed a' = managed a -> us_username <$> ac_users a' = us_username <$> ac_users a.
Proof. intros [E _]%managed_inv. by apply (fmap_facts user_facts us_username (fun x => x.1.1.1.1.1.2)). Qed.

Lemma keeps_managed a a' : managed a' = managed a -> keeps a a'.
Proof.
  intros E [C1 C2 C3 C4 C5 C6 C7]. pose proof (managed_ids _ _ E) as Ei. pose proof (managed_names _ _ E) as En.
  destruct (managed_inv _ _ E) as [Eu Et]. split_and!.
  - split; rewrite ?Ei, ?En; [done..| | | |].
    + by rewrite (fmap_facts user_facts us_role (fun x => x.1.1.2) (ac_users a)).
    + by rewrite (fmap_facts token_facts tk_id (fun x => x.1.1.1.1.1.1.1) (ac_tokens a)).
    + by rewrite (fmap_facts token_facts tk_name (fun x => x.1.1.1.1.1.1.2) (ac_tokens a)).
    + by rewrite (fmap_facts token_facts tk_token_hash (fun x => x.1.1.1.1.1.2) (ac_tokens a)).
  - intros (u & Hu & Ha). destruct (fact_of _ _ _ u Eu Hu) as (u' & Hu' & Ef). exists u'. split; [done|].
    unfold is_admin, user_facts in *. assert (us_role u' = us_role u /\ us_active u' = us_active u) as [-> ->] by (split; congruence). done.
  - intros h (t & Ht & Hh & Hr). destruct (fact_of _ _ _ t Et Ht) as (t' & Ht' & Ef). exists t'.
    unfold token_facts in Ef. split_and!; congruence.
Qed.

Lemma user_named_none name a : user_named name a = None <-> name ∉ us_username <$> ac_users a.
Proof.
  unfold user_named. split.
  - intros E (u & -> & Hu)%list_elem_of_fmap. pose proof (find_none_spec _ _ E u Hu) as Hf. cbn in Hf.
    by apply bool_decide_eq_false in Hf.
  - intros Hn. destruct (List.find _ _) as [u|] eqn:E; [|done]. apply find_spec in E as [Hu <-%bool_decide_eq_true].
    exfalso. by apply Hn, list_elem_of_fmap_2.
Qed.

Lemma nodup_snoc {A} (l : list A) x : NoDup l -> x ∉ l -> NoDup (l ++ [x]).
Proof.
  intros Hl Hx. apply NoDup_app. split_and!; [done| |apply NoDup_singleton]. by intros y Hy ->%list_elem_of_singleton.
Qed.

Section Keeping.
Context `{Rows}.

Lemma new_id_fresh a : Some (new_user_id a) ∉ ids a.
Proof.
  intros (u & E & Hu)%list_elem_of_fmap. apply (fresh_id_new (omap us_id (ac_users a))), list_elem_of_omap. eauto.
Qed.

Lemma keeps_insert_user u a : us_id u = Some (new_user_id a) -> user_named (us_username u) a = None ->
  us_role u ∈ AUTH_ROLES -> keeps a (set_users (fun us => us ++ [u]) a).
Proof.
  intros Hid Hn Hr [C1 C2 C3 C4 C5 C6 C7]. apply user_named_none in Hn. split_and!.
  - split; unfold ids in *; cbn; rewrite ?fmap_app; cbn; try done.
    + apply nodup_snoc; [done|]. rewrite Hid. apply new_id_fresh.
    + rewrite elem_of_app, list_elem_of_singleton, Hid. naive_solver.
    + by apply nodup_snoc.
    + by apply Forall_app; split; [|constructor].
  - intros (v & Hv & Ha). exists v. cbn. rewrite elem_of_app. by split; [left|].
  - done.
Qed.

Lemma keeps_insert_token t a : tk_id t ∉ tk_id <$> ac_tokens a -> tk_name t ∉ tk_name <$> ac_tokens a ->
  tk_token_hash t ∉ tk_token_hash <$> ac_tokens a -> keeps a (set_tokens (fun ts => ts ++ [t]) a).
Proof.
  intros H1 H2 H3 [C1 C2 C3 C4 C5 C6 C7]. split_and!.
  - split; cbn; try done; rewrite fmap_app; cbn; by apply nodup_snoc.
  - done.
  - intros h (v & Hv & Hh & Hr). exists v. cbn. rewrite elem_of_app. by split_and!; [left|..].
Qed.
End Keeping.

(** ** Changes to one row *)

Lemma fmap_set_user {B} (g : User -> B) id f us : (forall u, g (f u) = g u) -> g <$> set_user id f us = g <$> us.
Proof.
  intros Hg. unfold set_user. rewrite <- list_fmap_compose. apply list_fmap_ext. intros i u _. cbn. by case_bool_decide.
Qed.

Lemma fmap_set_token {B} (g : ApiToken -> B) id f ts : (forall t, g (f t) = g t) -> g <$> set_token id f ts = g <$> ts.
Proof.
  intros Hg. unfold set_token. rewrite <- list_fmap_compose. apply list_fmap_ext. intros i t _. cbn. by destruct (tk_id t =? id).
Qed.

Lemma get_user_spec id a u : get_user id a = Some u -> u ∈ ac_users a /\ us_id u = Some id.
Proof. by intros [? ?%bool_decide_eq_true]%find_spec. Qed.

Lemma nodup_fmap_inj {A B} (g : A -> B) l x y : NoDup (g <$> l) -> x ∈ l -> y ∈ l -> g x = g y -> x = y.
Proof.
  intros Hn [i Hi]%list_elem_of_lookup [j Hj]%list_elem_of_lookup E.
  assert (i = j) as ->; [|congruence]. eapply (NoDup_lookup _ _ _ (g x) Hn); rewrite list_lookup_fmap; [by rewrite Hi|by rewrite Hj, E].
Qed.

Lemma other_admin id a : 0 < admin_count (Some id) a -> exists v, v ∈ ac_users a /\ is_admin v = true /\ us_id v <> Some id.
Proof.
  unfold admin_count. destruct (List.filter _ _) as [|v l] eqn:E; [done|]. intros _.
  assert (In v (v :: l)) as Hv by (by left). rewrite <- E in Hv. apply filter_In in Hv as [Hv [H1 H2]%andb_true_iff].
  exists v. split; [by apply list_elem_of_In|]. split; [done|]. by apply negb_true_iff, bool_decide_eq_false in H2.
Qed.

Lemma keeps_set_user id f u a : get_user id a = Some u ->
  (forall v, us_id (f v) = us_id v /\ us_username (f v) = us_username v /\ (us_role v ∈ AUTH_ROLES -> us_role (f v) ∈ AUTH_ROLES)) ->
  (is_admin u = true -> is_admin (f u) = true \/ 0 < admin_count (Some id) a) ->
  keeps a (set_users (set_user id f) a).
Proof.
  intros [Hu Hid]%get_user_spec Hf Ha [C1 C2 C3 C4 C5 C6 C7]. split_and!.
  - split; unfold ids in *; cbn; rewrite ?fmap_set_user by (intros; apply Hf); try done.
    rewrite !Forall_fmap in *. unfold set_user. apply Forall_fmap. eapply Forall_impl; [exact C4|]. cbn.
    intros v Hv. case_bool_decide; [by apply Hf|done].
  - assert (forall v, v ∈ ac_users a -> is_admin v = true -> us_id v <> Some id -> administered (set_users (set_user id f) a)) as Hother.
    { intros v Hv Hadm Hne. exists v. split; [|done]. cbn. apply list_elem_of_fmap. exists v.
      by rewrite bool_decide_false. }
    intros (v & Hv & Hadm). destruct (decide (us_id v = Some id)) as [Hi|Hi]; [|by eapply Hother].
    assert (v = u) as -> by (eapply (nodup_fmap_inj us_id); [done|done|done|congruence]).
    destruct (Ha Hadm) as [Hfu|(w & Hw & Hwa & Hwi)%other_admin]; [|by eapply Hother].
    exists (f u). split; [|done]. cbn. apply list_elem_of_fmap. exists u. by rewrite bool_decide_true.
  - done.
Qed.

Lemma sublist_fmap_filter {A B} (g : A -> B) p l : g <$> List.filter p l `sublist_of` g <$> l.
Proof. induction l as [|x l IH]; cbn; [constructor|]. destruct (p x); cbn; by constructor. Qed.

Lemma keeps_delete_user id u a : get_user id a = Some u -> (is_admin u = true -> 0 < admin_count (Some id) a) ->
  keeps a (set_users (List.filter (fun v => negb (bool_decide (us_id v = Some id)))) a).
Proof.
  intros [Hu Hid]%get_user_spec Ha [C1 C2 C3 C4 C5 C6 C7]. set (p := fun v => _).
  assert (forall v, v ∈ ac_users a -> us_id v <> Some id -> v ∈ List.filter p (ac_users a)) as Hin.
  { intros v Hv Hne. apply list_elem_of_In, filter_In. split; [by apply list_elem_of_In|]. unfold p. by rewrite bool_decide_false. }
  split_and!.
  - split; unfold ids in *; cbn; try done.
    + eapply sublist_NoDup; [exact C1|apply sublist_fmap_filter].
    + intros Hn. apply C2. eapply elem_of_sublist; [exact Hn|apply sublist_fmap_filter].
    + eapply sublist_NoDup; [exact C3|apply sublist_fmap_filter].
    + rewrite Forall_forall in *. intros r Hr. apply C4. eapply elem_of_sublist; [exact Hr|apply sublist_fmap_filter].
  - intros (v & Hv & Hadm). destruct (decide (us_id v = Some id)) as [Hi|Hi].
    + assert (v = u) as -> by (eapply (nodup_fmap_inj us_id); [done|done|done|congruence]).
      destruct (other_admin id a (Ha Hadm)) as (w & Hw & Hwa & Hwi). exists w. split; [by apply Hin|done].
    + exists v. split; [by apply Hin|done].
  - done.
Qed.

Lemma keeps_revoke id now a : keeps a (set_tokens (set_token id (revoke now)) a).
Proof.
  intros [C1 C2 C3 C4 C5 C6 C7]. split_and!; [|done|].
  - split; cbn; try done; by rewrite fmap_set_token.
  - intros h (t & Ht & Hh & Hr). exists (if tk_id t =? id then revoke now t else t). split.
    + cbn. apply list_elem_of_fmap. eauto.
    + destruct (tk_id t =? id); [|done]. by split.
Qed.

(** ** The endpoints keep the tables *)

Lemma transits_lift_bind {S A B} (R : S -> S -> Prop) `{!PreOrder R} (r : result A) (k : A -> M S B) s :
  (forall x, r = Ok x -> transits R (k x) s) -> transits R (lift r ≫= k) s.
Proof. intros Hk. apply (transits_bind R); [apply (transits_lift R)|]. intros x s' [= <- ->]. by apply Hk. Qed.

(** [transits], with the value of a pure step at hand. *)
Ltac steps :=
  repeat (cbv beta;
    first [ solve [eauto with stoker]
          | lazymatch goal with |- transits _ (lift _ ≫= _) _ => apply transits_lift_bind; [apply _|intros ? ?] end
          | transits_step | done ]).

Section Served.
Context `{Rows, Crypto, !CryptoLaws} (st : auth_settings) (role_ok : as_proxy_default_role st ∈ AUTH_ROLES).

Lemma keeps_identified rq a a' : identified st rq a a' -> keeps a a'.
Proof.
  intros [E|(name & _ & Hn & E)]; [by apply keeps_managed|].
  transitivity (set_users (fun us => us ++ [proxy_user st name (rq_now rq) (new_user_id a)]) a);
    [by apply keeps_insert_user|by apply keeps_managed].
Qed.

Lemma resolve_keeps rq a : transits keeps (resolve_user st rq) a.
Proof.
  unfold transits. destruct (resolve_user_spec st rq a) as (a' & u & E & Hi & _). rewrite E. by eapply keeps_identified.
Qed.
Local Hint Resolve resolve_keeps : stoker.

Lemma require_admin_keeps rq a : transits keeps (require_admin st rq) a.
Proof. unfold require_admin, require_user. transits. Qed.
Local Hint Resolve require_admin_keeps : stoker.

Lemma guard_keeps rq a : transits keeps (auth_guard st rq) a.
Proof. unfold auth_guard. transits. Qed.

Lemma insert_user_keeps mk a :
  us_id (mk (new_user_id a)) = Some (new_user_id a) -> user_named (us_username (mk (new_user_id a))) a = None ->
  us_role (mk (new_user_id a)) ∈ AUTH_ROLES -> transits keeps (insert_user mk) a.
Proof. intros. unfold insert_user. transits. by apply keeps_insert_user. Qed.

Lemma login_keeps rq username password a : transits keeps (login rq username password) a.
Proof.
  unfold login. transits. apply keeps_managed. unfold managed. cbn. by rewrite fmap_set_user.
Qed.

Lemma validate_role_ok dflt v r : dflt ∈ AUTH_ROLES -> validate_role dflt v = Ok r -> r ∈ AUTH_ROLES.
Proof.
  intros Hd. unfold validate_role. destruct v as [v|]; [|by intros [= <-]]. cbv zeta. set (w := py_strip _). case_bool_decide; [|done].
  by intros [= <-].
Qed.

Lemma setup_keeps rq username password a : transits keeps (setup rq username password) a.
Proof.
  unfold setup. steps. apply insert_user_keeps; [done| |cbn; set_solver].
  apply user_named_none. cbn. unfold user_count in *. destruct (ac_users a); [set_solver|done].
Qed.

Lemma create_user_keeps rq username password role email a : transits keeps (create_user st rq username password role email) a.
Proof.
  unfold create_user. steps. apply insert_user_keeps; cbn; [done|done|].
  eapply validate_role_ok; [|done]. set_solver.
Qed.

Lemma validate_update_ok b b' : validate_update b = Ok b' -> forall r, uu_role b' = Some r -> r ∈ AUTH_ROLES.
Proof.
  unfold validate_update. destruct (uu_role b) as [v|].
  - destruct (bool_decide_reflect (py_strip v ∈ AUTH_ROLES)); cbn; [|done]. case_bool_decide; [done|].
    intros [= <-] r. cbn. by intros [= <-].
  - cbn. case_bool_decide; [done|]. by intros [= <-] r.
Qed.

Lemma update_row_keeps rq id b a : (forall r, uu_role b = Some r -> r ∈ AUTH_ROLES) -> transits keeps (update_row a rq id b) a.
Proof.
  intros Hb. unfold update_row. destruct (get_user id a) as [u|] eqn:Eu; [|steps].
  pose proof (get_user_spec _ _ _ Eu) as [_ Hid]. steps. rename x into h. eapply keeps_set_user; [done| |].
  - intros v. cbn. split; [done|]. split; [done|]. destruct (uu_role b) as [r|]; [|done]. intros _. by apply Hb.
  - intros Ha. rewrite Ha, andb_true_r, Hid in *. rename Heqb0 into Hg. apply andb_false_iff in Hg as [Hg|Hg].
    + left. apply orb_false_iff in Hg as [Hr Hd]. unfold is_admin in *. cbn. apply andb_true_iff in Ha as [Ha1 Ha2].
      destruct (uu_role b) as [r|]; destruct (uu_active b) as [[]|]; cbn; rewrite ?Ha1, ?Ha2; try done;
        by apply negb_false_iff in Hr as ->.
    + right. apply Z.eqb_neq in Hg. unfold admin_count in *. lia.
Qed.

Lemma update_user_keeps rq id b a : transits keeps (update_user st rq id b) a.
Proof. unfold update_user. steps. apply update_row_keeps. by eapply validate_update_ok. Qed.

Lemma delete_user_keeps rq id a : transits keeps (delete_user st rq id) a.
Proof.
  unfold delete_user. steps. eapply keeps_delete_user; [done|]. intros Ha.
  match goal with E : get_user id _ = Some ?u |- _ => pose proof (get_user_spec _ _ _ E) as [_ Hid] end.
  rewrite Ha, Hid in *. cbn [andb] in *.
  match goal with E : (_ =? 0) = false |- _ => apply Z.eqb_neq in E end. unfold admin_count in *. lia.
Qed.

Lemma absent {B} `{!EqDecision B} (g : ApiToken -> B) x ts :
  existsb (fun t => bool_decide (g t = x)) ts = false -> x ∉ g <$> ts.
Proof. intros E (t & -> & Ht)%list_elem_of_fmap. pose proof (proj1 (existsb_false _ _) E t Ht) as Hf. by apply bool_decide_eq_false in Hf. Qed.

Lemma create_token_keeps rq name role days a : transits keeps (create_token st rq name role days) a.
Proof.
  unfold create_token. steps. apply keeps_insert_token; cbn; [apply fresh_id_new|by apply absent|by apply absent].
Qed.

Lemma revoke_token_keeps rq id a : transits keeps (revoke_token st rq id) a.
Proof. unfold revoke_token. steps. apply keeps_revoke. Qed.

Lemma serve_keeps c a : keeps a (fst (serve_http st c a)).
Proof.
  change (transits keeps (serve_http st c) a). unfold serve_http. apply (transits_bind _); [apply guard_keeps|]. intros _ a' _.
  destruct (ca_action c); cbn [endpoint].
  - apply login_keeps.
  - steps.
  - unfold me, require_user. steps.
  - unfold status. steps.
  - apply setup_keeps.
  - unfold list_users. steps.
  - apply create_user_keeps.
  - apply update_user_keeps.
  - apply delete_user_keeps.
  - apply create_token_keeps.
  - unfold list_tokens. steps.
  - apply revoke_token_keeps.
Qed.

Lemma serve_all_keeps cs a : keeps a (serve_all st cs a).
Proof.
  revert a. induction cs as [|c cs IH]; intros a; [done|]. change (serve_all st (c :: cs) a) with (serve_all st cs (fst (serve_http st c a))).
  etrans; [apply serve_keeps|apply IH].
Qed.
End Served.

(** C33: the instance is never locked out.  Whatever requests are served, one after the
    other, the account tables stay consistent (ids, user names, token names and
    token hashes unique, every role one of the three), and once there is an
    active administrator there always is one. *)
Theorem always_administered `{Rows, Crypto, !CryptoLaws} st cs a :
  as_proxy_default_role st ∈ AUTH_ROLES -> consistent a ->
  consistent (serve_all st cs a) /\ (administered a -> administered (serve_all st cs a)).
Proof. intros Hr Ha. by destruct (serve_all_keeps st Hr cs a Ha) as (? & ? & _). Qed.

Section Revocation.
Context `{Rows, Crypto, !CryptoLaws} (st : auth_settings).

Lemma bind_ok {S A B} (m : M S A) (k : A -> M S B) s s' b :
  (m ≫= k) s = (s', Ok b) -> exists s1 x, m s = (s1, Ok x) /\ k x s1 = (s', Ok b).
Proof. unfold mbind, M_bind. destruct (m s) as [s1 [x|e]]; [eauto|done]. Qed.

Lemma identified_tokens rq a a' : identified st rq a a' -> token_facts <$> ac_tokens a' = token_facts <$> ac_tokens a.
Proof. intros [E|(name & _ & _ & E)]; by apply managed_inv in E as [_ ?]. Qed.

Lemma require_admin_spec rq a : let '(a', r) := require_admin st rq a in identified st rq a a' /\
  match r with Ok p => credential st a rq p /\ us_role p = "admin" | Raise e => exists s d, e = HTTPException s d end.
Proof.
  unfold require_admin, require_user. destruct (resolve_user_spec st rq a) as (a' & u & E & Hi & Hc).
  unfold mbind, M_bind. rewrite E. destruct u as [u|]; cbn; [|split; [done|eauto]].
  case_bool_decide; cbn; (split; [done|]); [|eauto]. split; [by apply Hc|done].
Qed.

Lemma get_token_spec id a t : get_token id a = Some t -> t ∈ ac_tokens a /\ tk_id t = id.
Proof. by intros [? ?%Z.eqb_eq]%find_spec. Qed.

Lemma get_token_row id a t : NoDup (tk_id <$> ac_tokens a) -> t ∈ ac_tokens a -> tk_id t = id -> get_token id a = Some t.
Proof.
  intros Hn Ht Hid. destruct (get_token id a) as [t'|] eqn:E.
  - apply get_token_spec in E as [Ht' Hid']. f_equal. eapply (nodup_fmap_inj tk_id); [done..|congruence].
  - pose proof (find_none_spec _ _ E t Ht) as Hf. cbn in Hf. apply Z.eqb_neq in Hf. done.
Qed.

Lemma guard_identified rq a : identified st rq a (fst (auth_guard st rq a)).
Proof.
  unfold auth_guard. destruct (_ || _); [by left|]. rewrite run_get. destruct (negb _); [by left|].
  destruct (resolve_user_spec st rq a) as (a' & u & E & Hi & _). rewrite (run_bind _ _ _ _ _ E).
  destruct u as [u|]; [|done]. by repeat case_match.
Qed.

Lemma dead_token a secret now : consistent a -> dead (sha256_hex secret) a -> resolve_api_token secret now a = (a, Ok None).
Proof.
  intros Ha (t & Ht & Hh & Hr). unfold resolve_api_token. destruct (_ || _); [done|]. rewrite run_gets. unfold hash_api_token.
  destruct (List.find _ _) as [t'|] eqn:E; [|done]. apply find_spec in E as [Ht' Hh'%bool_decide_eq_true].
  assert (t' = t) as -> by (eapply (nodup_fmap_inj tk_token_hash); [apply Ha|done..|congruence]).
  unfold token_is_active. by destruct (tk_revoked_at t).
Qed.

Lemma revoke_token_dead rq id a a1 ans t : NoDup (tk_id <$> ac_tokens a) -> t ∈ ac_tokens a -> tk_id t = id ->
  revoke_token st rq id a = (a1, Ok ans) -> dead (tk_token_hash t) a1.
Proof.
  intros Hn Ht Hid E. unfold revoke_token in E. apply bind_ok in E as (a0 & p & Ep & E).
  pose proof (require_admin_spec rq a) as Hs. rewrite Ep in Hs. destruct Hs as [Hs%identified_tokens _].
  destruct (fact_of _ _ _ t Hs Ht) as (t0 & Ht0 & Ef). unfold token_facts in Ef.
  assert (NoDup (tk_id <$> ac_tokens a0)) as Hn0 by (by rewrite (fmap_facts token_facts tk_id (fun x => x.1.1.1.1.1.1.1) (ac_tokens a))).
  rewrite run_gets in E. rewrite (get_token_row id a0 t0 Hn0 Ht0) in E by congruence.
  destruct (bool_decide_reflect (tk_revoked_at t0 = None)) as [Hr|Hr].
  - rewrite run_when_true, run_modify in E. injection E as <- <-. exists (revoke (rq_now rq) t0). split_and!; [|cbn; congruence|done].
    cbn. apply list_elem_of_fmap. exists t0. split; [|done]. rewrite (proj2 (Z.eqb_eq _ _)); [done|congruence].
  - rewrite run_when_false in E. injection E as <- <-. exists t0. split_and!; congruence.
Qed.
End Revocation.

(** C34: a revoked token is dead.  After a request that revoked it, no later sequence of
    requests makes its secret resolve again, at any instant. *)
Theorem revoked_token_is_dead `{Rows, Crypto, !CryptoLaws} st c id a a1 ans cs t secret now
    (a2 := serve_all st cs a1) :
  as_proxy_default_role st ∈ AUTH_ROLES -> consistent a ->
  ca_action c = RevokeToken id -> serve_http st c a = (a1, Ok ans) ->
  t ∈ ac_tokens a -> tk_id t = id -> tk_token_hash t = sha256_hex secret ->
  resolve_api_token secret now a2 = (a2, Ok None).
Proof.
  intros Hrole Ha Ec Es Ht Hid Hh. unfold serve_http in Es. rewrite Ec in Es. apply bind_ok in Es as (a0 & actor & Eg & Es).
  pose proof (guard_identified st (http_of c) a) as Hg. rewrite Eg in Hg. cbn [fst] in Hg.
  destruct (keeps_identified st Hrole _ _ _ Hg Ha) as (Ha0 & _ & _). apply identified_tokens in Hg.
  destruct (fact_of _ _ _ t Hg Ht) as (t0 & Ht0 & Ef). unfold token_facts in Ef. cbn [endpoint] in Es.
  assert (dead (sha256_hex secret) a1) as Hd.
  { rewrite <- Hh. replace (tk_token_hash t) with (tk_token_hash t0) by congruence.
    eapply revoke_token_dead; [apply Ha0|exact Ht0| |exact Es]. congruence. }
  assert (keeps a a1) as Hk.
  { etrans; [by eapply keeps_identified, guard_identified|]. rewrite Eg. cbn [fst].
    pose proof (revoke_token_keeps st Hrole (http_of c) id a0) as Hk. unfold transits in Hk. by rewrite Es in Hk. }
  destruct (Hk Ha) as (Ha1 & _). destruct (serve_all_keeps st Hrole cs a1 Ha1) as (Ha2 & _ & Hdead).
  by apply dead_token; [|apply Hdead].
Qed.

(** ** Who changes an account *)

Section Authority.
Context `{Rows, Crypto, !CryptoLaws} (st : auth_settings).

Definition same (a a' : accounts) : Prop := managed a' = managed a.

Global Instance same_preorder : PreOrder same.
Proof. split; unfold same; [done|]. intros a b c Hab Hbc. congruence. Qed.

Lemma new_id_same a a' : same a a' -> new_user_id a' = new_user_id a.
Proof.
  intros E%managed_ids. unfold new_user_id. f_equal.
  assert (forall us : list User, omap us_id us = omap (fun i => i) (us_id <$> us)) as Ho by (intros us; induction us as [|u us IH]; [done|]; cbn; by rewrite IH).
  rewrite !Ho. unfold ids in E. by rewrite E.
Qed.

Lemma identified_trans rq a b c : identified st rq a b -> identified st rq b c -> identified st rq a c.
Proof.
  intros [E1|(n & Hn & Hu & E1)] [E2|(n' & Hn' & Hu' & E2)].
  - left. congruence.
  - right. exists n'. split; [done|]. split.
    + apply user_named_none. apply user_named_none in Hu'. by rewrite <- (managed_names _ _ E1).
    + rewrite E2, (new_id_same _ _ E1). destruct (managed_inv _ _ E1) as [Eu Et]. unfold managed. cbn.
      by rewrite !fmap_app, Eu, Et.
  - right. exists n. split; [done|]. split; [done|]. congruence.
  - exfalso. assert (n' = n) as -> by congruence. apply user_named_none in Hu'. apply Hu'.
    rewrite (managed_names _ _ E1). cbn. rewrite fmap_app. cbn. set_solver.
Qed.

(** The caller, as the handler's dependency finds it, is an administrator. *)
Definition by_admin (rq : http_request) (a : accounts) : Prop :=
  exists a1 p, identified st rq a a1 /\ credential st a1 rq p /\ us_role p = "admin".

Lemma admin_only rq a a1 (k : User -> M accounts answer) : identified st rq a a1 ->
  identified st rq a (fst ((require_admin st rq ≫= k) a1)) \/ by_admin rq a.
Proof.
  intros Hi. pose proof (require_admin_spec st rq a1) as Hs. unfold mbind, M_bind.
  destruct (require_admin st rq a1) as [a2 [p|e]]; cbn.
  - destruct Hs as (_ & Hc & Hr). right. by exists a1, p.
  - left. destruct Hs as [Hs _]. by eapply identified_trans.
Qed.

Lemma login_same rq username password a : same a (fst (login rq username password a)).
Proof.
  change (transits same (login rq username password) a). unfold login. steps.
  unfold same, managed. cbn. by rewrite fmap_set_user.
Qed.

Lemma setup_once rq username password a : same a (fst (setup rq username password a)) \/ ac_users a = [].
Proof.
  destruct (decide (length (ac_users a) = 0%nat)) as [E|E]; [right; by apply nil_length_inv|]. left.
  change (transits same (setup rq username password) a). unfold setup. steps. exfalso. unfold user_count in *. 
  match goal with E' : negb _ = false |- _ => apply negb_false_iff, Z.eqb_eq in E' end. lia.
Qed.

Lemma identified_same rq a b c : identified st rq a b -> same b c -> identified st rq a c.
Proof. intros Hi E. eapply identified_trans; [done|]. by left. Qed.
End Authority.

(** only administrators manage accounts.  Whatever a request to these endpoints
    does to the accounts, apart from instants of last use, it is that of a caller
    with a credential of the administrator role, or the setup of an instance that
    has no user, or no more than an account of the default role for a user whom a
    trusted proxy named. *)
Theorem only_admins_manage `{Rows, Crypto, !CryptoLaws} st c a (a' := fst (serve_http st c a)) :
  identified st (http_of c) a a' \/
  by_admin st (http_of c) a \/
  (exists username password, ca_action c = Setup username password) /\ ac_users a = [].
Proof.
  subst a'. unfold serve_http. pose proof (guard_identified st (http_of c) a) as Hg.
  assert ((exists un pw, ca_action c = Setup un pw) \/ forall un pw, ca_action c <> Setup un pw) as [(un & pw & E)|Hns]
    by (destruct (ca_action c); naive_solver).
  { assert (is_auth_exempt (rq_path (http_of c)) = true) as Hx by (cbn; by rewrite E).
    unfold auth_guard. rewrite Hx, orb_true_r, run_ret, E. cbn [endpoint].
    destruct (setup_once (http_of c) un pw a) as [Hs|Hs]; [left; by left|right; right; eauto]. }
  destruct (auth_guard st (http_of c) a) as [a1 [actor|e]] eqn:Eg; cbn [fst] in Hg;
    [rewrite (run_bind _ _ _ _ _ Eg)|rewrite (run_raise _ _ _ _ _ Eg); by left].
  assert (forall k : User -> M accounts answer, identified st (http_of c) a (fst ((require_admin st (http_of c) ≫= k) a1)) \/ by_admin st (http_of c) a \/
            (exists username password, ca_action c = Setup username password) /\ ac_users a = []) as Hadm.
  { intros k. destruct (admin_only st (http_of c) a a1 k Hg) as [?|?]; auto. }
  destruct (ca_action c) eqn:Ea; cbn [endpoint]; try apply Hadm; try by edestruct Hns.
  - left. eapply identified_same; [done|apply login_same].
  - left. done.
  - left. unfold me, require_user. destruct (resolve_user_spec st (http_of c) a1) as (a2 & u & E & Hi & _).
    unfold mbind, M_bind. rewrite E. destruct u; by eapply identified_trans.
  - left. unfold status. destruct (resolve_user_spec st (http_of c) a1) as (a2 & u & E & Hi & _).
    rewrite (run_bind _ _ _ _ _ E). by eapply identified_trans.
Qed.

(** ** Signing in *)

Section SignIn.
Context `{Rows, Crypto, !CryptoLaws} (st : auth_settings).

Lemma lift_bind_ok {S A B} (r : result A) (k : A -> M S B) s s' b :
  (lift r ≫= k) s = (s', Ok b) -> exists x, r = Ok x /\ k x s = (s', Ok b).
Proof. unfold mbind, M_bind, lift. destruct r; [eauto|done]. Qed.

(** What a served creation adds. *)
Lemma create_user_row rq username password role email a a1 ans : consistent a ->
  create_user st rq username password role email a = (a1, Ok ans) ->
  exists a0 h r id, validate_role "operator" role = Ok r /\ bcrypt_hash (rq_random rq) password = Some h /\
    user_named (py_strip (py_strip username)) a0 = None /\
    a1 = set_users (fun us => us ++ [mkUser (Some id) (py_strip (py_strip username)) (Some h) email r "local" true None]) a0.
Proof.
  intros Ha E. unfold create_user in E. apply bind_ok in E as (a0 & p & _ & E).
  apply lift_bind_ok in E as (un & Eu & E). apply lift_bind_ok in E as (pw & Ep & E).
  apply lift_bind_ok in E as (r & Er & E). rewrite run_gets in E.
  destruct (user_named (py_strip un) a0) as [|] eqn:En; [done|].
  apply lift_bind_ok in E as (h & Eh & E). cbn in E. injection E as <- _.
  assert (un = py_strip username) as ->.
  { unfold validate_name in Eu. by repeat (case_bool_decide || destruct (_ <? _)); simplify_eq. }
  assert (pw = password) as ->. { unfold validate_password in Ep. case_bool_decide; by simplify_eq. }
  exists a0, h, r, (new_user_id a0). split; [done|]. split; [|done].
  unfold hash_password in Eh. case_bool_decide; [done|]. destruct (bcrypt_hash _ _); by simplify_eq.
Qed.

Lemma find_snoc {A} (p : A -> bool) l x : List.find p l = None -> p x = true -> List.find p (l ++ [x]) = Some x.
Proof. intros Hl Hx. induction l as [|y l IH]; cbn in *; [by rewrite Hx|]. destruct (p y); [done|by apply IH]. Qed.

Lemma lstrip_idem l : lstrip (lstrip l) = lstrip l.
Proof. induction l as [|c l IH]; [done|]. cbn. destruct (is_space c) eqn:E; [done|]. cbn. by rewrite E. Qed.

Lemma py_strip_idem s : py_strip (py_strip s) = py_strip s.
Proof.
  unfold py_strip. rewrite String.list_ascii_of_string_of_list_ascii. f_equal. unfold strip_chars.
  change (fun l => reverse (lstrip (reverse l))) with rstrip. fold (rstrip (lstrip (String.list_ascii_of_string s))).
  set (t := lstrip (String.list_ascii_of_string s)). fold (rstrip (lstrip (rstrip t))).
  assert (lstrip (rstrip t) = rstrip t) as ->.
  { assert (lstrip t = t) as Ht by apply lstrip_idem. clearbody t. destruct t as [|c t]; [done|].
    cbn in Ht. destruct (is_space c) eqn:E.
    - exfalso. pose proof (lstrip_split t) as (sp & Es & _). apply (f_equal length) in Ht, Es. rewrite length_app in Es. cbn in Ht. lia.
    - pose proof (rstrip_app_cons [] c t E) as Hr. cbn [app] in Hr. rewrite Hr. cbn. by rewrite E. }
  unfold rstrip. by rewrite reverse_involutive, lstrip_idem.
Qed.
End SignIn.

(** a user who was created can sign in.  After a served creation, a login with the
    name (as typed, blanks around it or not) and the password succeeds, and its
    cookie identifies that user, with the role asked for, for the lifetime of a
    session. *)
Theorem created_user_signs_in `{Rows, Crypto, !CryptoLaws} st c c2 a a1 ans username password role email :
  as_proxy_default_role st ∈ AUTH_ROLES -> consistent a ->
  ca_action c = CreateUser username password role email -> serve_http st c a = (a1, Ok ans) ->
  ca_action c2 = Login username password ->
  exists a2 out cookie, serve_http st c2 a1 = (a2, Ok (AUser out (Some cookie))) /\
    forall rq, rq_cookie rq = Some cookie -> proxy_asserted_username st rq = None ->
      (forall s, bearer_secret rq = Some s -> String.prefix API_TOKEN_PREFIX s = false) ->
      0 <= age (rq_now rq) (ca_now c2) <= as_session_ttl_s st ->
      exists u, resolve_user st rq a2 = (a2, Ok (Some u)) /\ us_username u = py_strip username /\
        validate_role "operator" role = Ok (us_role u) /\ us_source u = "local".
Proof.
  intros Hrole Ha Ec Es Ec2. pose proof (serve_keeps st Hrole c a Ha) as (Ha1 & _). rewrite Es in Ha1. cbn [fst] in Ha1.
  unfold serve_http in Es. rewrite Ec in Es. apply bind_ok in Es as (ag & actor & Eg & Es).
  pose proof (guard_identified st (http_of c) a) as Hg. rewrite Eg in Hg. cbn [fst] in Hg.
  destruct (keeps_identified st Hrole _ _ _ Hg Ha) as (Hag & _ & _). cbn [endpoint] in Es.
  apply create_user_row in Es as (a0 & h & r & id & Er & Eh & En & ->); [|done]. rewrite !py_strip_idem in *.
  set (u0 := mkUser (Some id) (py_strip username) (Some h) email r "local" true None) in *.
  destruct (verify_hash _ _ _ Eh) as [Hne Hv].
  assert (is_auth_exempt (rq_path (http_of c2)) = true) as Hx by (cbn; by rewrite Ec2).
  unfold serve_http, auth_guard. rewrite Hx, orb_true_r, run_ret, Ec2. cbn [endpoint]. unfold login. rewrite run_gets.
  assert (user_named (py_strip username) (set_users (fun us => us ++ [u0]) a0) = Some u0) as ->.
  { apply find_snoc; [exact En|]. cbn. by apply bool_decide_eq_true. }
  subst u0. cbn [us_password_hash us_active us_source us_id negb]. unfold verify_password_constant, verify_password.
  rewrite !(bool_decide_false (h = "")), Hv, (bool_decide_true ("local" = "local")) by done. cbn [negb orb default].
  eexists _, _, _. split; [reflexivity|]. intros rq Hck Hpx Hbr Hage.
  assert (resolve_user st rq = session_user st rq) as ->.
  { unfold resolve_user. rewrite Hpx. destruct (bearer_secret rq) as [s|] eqn:Eb; [|done]. by rewrite (Hbr s eq_refl). }
  unfold session_user, read_session. rewrite Hck. rewrite bool_decide_false by apply dumps_nonempty.
  rewrite loads_dumps by done. unfold dget. rewrite lookup_singleton_eq. cbn [default from_option Datatypes.id int_of_value coerce_int].
  rewrite run_gets.
  assert (get_user id (set_users (set_user id (set_last_login (rq_now (http_of c2))))
            (set_users (fun us => us ++ [mkUser (Some id) (py_strip username) (Some h) email r "local" true None]) a0))
          = Some (mkUser (Some id) (py_strip username) (Some h) email r "local" true (Some (rq_now (http_of c2))))) as ->.
  { unfold get_user. cbn. unfold set_user. rewrite fmap_app. cbn. rewrite bool_decide_true by done. apply find_snoc.
    - destruct (List.find _ _) as [u|] eqn:Ef; [|done]. apply find_spec in Ef as [Hu Hi%bool_decide_eq_true]. exfalso.
      apply list_elem_of_fmap in Hu as (v & -> & Hv'). pose proof (co_ids _ Ha1) as Hn. unfold ids in Hn. cbn in Hn.
      rewrite fmap_app in Hn. apply NoDup_app in Hn as (_ & Hn & _). apply (Hn (Some id)); [|cbn; set_solver].
      apply list_elem_of_fmap. exists v. split; [|done]. by case_bool_decide.
    - by apply bool_decide_eq_true. }
  eexists. split; [reflexivity|]. by split_and!.
Qed.

(** ** A small instance *)

Section Demo.

Definition outside : option (option address) := Some (Some (V4 (192 * 2 ^ 24))).
Definition root_does (act : action) (now : Z) (random : string) : call :=
  mkCall act outside ∅ (Some (demo_cookie 1 0)) now random.
Definition anyone_does (act : action) (now : Z) : call := mkCall act outside ∅ None now "".

Lemma demo_consistent : consistent demo_accounts.
Proof.
  split; unfold ids; cbn; try apply NoDup_singleton; try constructor; try set_solver.
Qed.

Lemma demo_role : as_proxy_default_role demo_settings ∈ AUTH_ROLES.
Proof. cbn. set_solver. Qed.

Definition demo_calls : list call :=
  [root_does (CreateUser " alice " "pw" (Some "viewer") None) 1000000 "";
   root_does (CreateToken "ci" (Some "operator") (Some 30)) 2000000 "r4nd0m";
   root_does (UpdateUser 1 (mkUserUpdate (Some "viewer") None None None)) 3000000 "";
   anyone_does (Login "alice" "pw") 4000000;
   root_does (DeleteUser 2) 5000000 ""].

(** The last administrator is not demoted; the rest is done. *)
Example demo_outcomes :
  (fun c => match snd (serve_http demo_settings c (serve_all demo_settings (take 2 demo_calls) demo_accounts)) with
            | Ok _ => 200
            | Raise (HTTPException s _) => s
            | Raise _ => 500
            end) <$> demo_calls = [409; 409; 409; 200; 200].
Proof. vm_compute. reflexivity. Qed.

Lemma always_administered_witness :
  consistent (serve_all demo_settings demo_calls demo_accounts) /\
  (administered demo_accounts -> administered (serve_all demo_settings demo_calls demo_accounts)).
Proof. apply (always_administered demo_settings demo_calls demo_accounts demo_role demo_consistent). Defined.

(** A viewer may not make itself an administrator. *)
Lemma only_admins_manage_witness :
  let a := serve_all demo_settings (take 1 demo_calls) demo_accounts in
  let c := mkCall (UpdateUser 2 (mkUserUpdate (Some "admin") None None None)) outside ∅ (Some (demo_cookie 2 0)) 1000000 "" in
  is_ok (snd (serve_http demo_settings c a)) = false /\
  (identified demo_settings (http_of c) a (fst (serve_http demo_settings c a)) \/ by_admin demo_settings (http_of c) a \/
   (exists username password, ca_action c = Setup username password) /\ ac_users a = []).
Proof.
  cbv zeta. split; [vm_compute; reflexivity|]. apply only_admins_manage.
Defined.

Definition ci_token : ApiToken :=
  mkApiToken 1 "ci" "sha256:stk_r4nd0m" "stk_r4nd0m" "operator" (Some "root") None None None.
Definition with_token : accounts := mkAccounts [demo_admin] [ci_token].

Lemma with_token_consistent : consistent with_token.
Proof. split; unfold ids; cbn; try apply NoDup_singleton; try constructor; try set_solver. Qed.

Lemma revoked_token_is_dead_witness :
  let a1 := fst (serve_http demo_settings (root_does (RevokeToken 1) 1000000 "") with_token) in
  let a2 := serve_all demo_settings demo_calls a1 in
  resolve_api_token "stk_r4nd0m" 6000000 a2 = (a2, Ok None).
Proof.
  cbv zeta.
  apply (revoked_token_is_dead demo_settings (root_does (RevokeToken 1) 1000000 "") 1 with_token
           (fst (serve_http demo_settings (root_does (RevokeToken 1) 1000000 "") with_token)) ANoContent demo_calls ci_token
           "stk_r4nd0m" 6000000 demo_role with_token_consistent eq_refl); [vm_compute; reflexivity|set_solver|reflexivity|reflexivity].
Defined.

Lemma created_user_signs_in_witness :
  let c := root_does (CreateUser " alice " "pw" (Some "viewer") None) 1000000 "" in
  let a1 := fst (serve_http demo_settings c demo_accounts) in
  exists a2 out cookie, serve_http demo_settings (anyone_does (Login " alice " "pw") 4000000) a1 = (a2, Ok (AUser out (Some cookie))) /\
    forall rq, rq_cookie rq = Some cookie -> proxy_asserted_username demo_settings rq = None ->
      (forall s, bearer_secret rq = Some s -> String.prefix API_TOKEN_PREFIX s = false) ->
      0 <= age (rq_now rq) 4000000 <= 43200 ->
      exists u, resolve_user demo_settings rq a2 = (a2, Ok (Some u)) /\ us_username u = py_strip " alice " /\
        validate_role "operator" (Some "viewer") = Ok (us_role u) /\ us_source u = "local".
Proof.
  cbv zeta.
  apply (created_user_signs_in demo_settings (root_does (CreateUser " alice " "pw" (Some "viewer") None) 1000000 "")
           (anyone_does (Login " alice " "pw") 4000000) demo_accounts
           (fst (serve_http demo_settings (root_does (CreateUser " alice " "pw" (Some "viewer") None) 1000000 "") demo_accounts))
           (AUser (mkUserOut (Some 2) "alice" None "viewer" "local" true None) None) " alice " "pw" (Some "viewer") None
           demo_role demo_consistent eq_refl); [vm_compute; reflexivity|reflexivity].
Defined.

(** Two administrators, each demoting the other: both requests have counted the
    other before either commits, and nobody is left. *)
Example concurrent_demotions_lock_out :
  let two := mkAccounts [demo_admin; mkUser (Some 2) "ops" (Some "$2b$x") None "admin" "local" true None] [] in
  let rq id := http_of (root_does (UpdateUser id (mkUserUpdate (Some "viewer") None None None)) 0 "") in
  let demote seen id a := update_row seen (rq id) id (mkUserUpdate (Some "viewer") None None None) a in
  let '(a1, r1) := demote two 2 two in
  let '(a2, r2) := demote two 1 a1 in
  is_ok r1 = true /\ is_ok r2 = true /\ admin_count None a2 = 0.
Proof. vm_compute. by split_and!. Qed.

(** The cookie of a deleted user is that of whoever gets the row id next: on SQLite,
    which gives the largest id out again, the session of a deleted viewer
    becomes one of the administrator created after it. *)
Example deleted_session_revives :
  let calls := [root_does (CreateUser "mallory" "pw" (Some "viewer") None) 1000000 "";
                anyone_does (Login "mallory" "pw") 2000000;
                root_does (DeleteUser 2) 3000000 "";
                root_does (CreateUser "alice" "secret" (Some "admin") None) 4000000 ""] in
  let a := serve_all demo_settings calls demo_accounts in
  let old := mkCall ListUsers outside ∅ (Some (demo_cookie 2 2000000)) 5000000 "" in
  is_ok (snd (serve_http demo_settings old a)) = true /\
  is_ok (snd (serve_http demo_settings old (serve_all demo_settings (take 3 calls) demo_accounts))) = false.
Proof. vm_compute. by split. Qed.
End Demo.
