(* ===== verification/ConfigIo.v ===== *)
(** * Moving the configuration between instances (server/configio.py)

    The export describes targets, repositories and job specs by their natural keys;
    the import is an upsert by key.  A row is its id and its columns; the columns
    that carry configuration are those the module lists, and their defaults and
    NOT NULL constraints are those of server/models.py.

    The session does not flush by itself: a query sees the rows as flushed, so a
    row added by this import is not found by it before the flush that follows the
    targets and repositories, and the one that ends the import.  [stage] is that:
    the rows that are in the database, with their edits, and the new ones.  An
    exception leaves the database as it was.

    The theorems: a document restored onto an empty instance, under the same
    master key, exports as the same document; and applying a document again
    changes nothing.  The examples show what does not survive: merged packs,
    which travel by id, and specs that share a name. *)

From S2P Require Import Prelude.
From S2P Require Import PyFloat.
From S2P Require Import PyValue.
From S2P Require Import Auth.
From Stdlib Require Import QArith Ascii Sorted.
Open Scope Z_scope.

(** A JSON value as a column holds it. *)
Inductive cell : Type :=
  | CNull
  | CBool (b : bool)
  | CNum (q : Q)
  | CStr (s : string)
  | CList (xs : list cell)
  | CDict (kvs : list (string * cell)).

Abbreviation columns := (gmap string cell).

Definition cell_truthy (c : cell) : bool :=
  match c with
  | CNull => false
  | CBool b => b
  | CNum q => negb (Qeq_bool q 0)
  | CStr s => nonempty s
  | CList xs => match xs with [] => false | _ => true end
  | CDict kvs => match kvs with [] => false | _ => true end
  end.

(** [getattr(row, f)] and [row.get(f)] *)
Definition col (cs : columns) (f : string) : cell := default CNull (cs !! f).

(** ** Columns *)

Definition TARGET_FIELDS : list string :=
  ["name"; "hec_url"; "default_index"; "verify_tls"; "env_tag"; "max_concurrent_gb_day"].
Definition TARGET_SECRETS : list string := ["token_encrypted"].
Definition REPO_FIELDS : list string := ["url"; "auth_kind"; "default_ref"; "trusted_code"].
Definition REPO_SECRETS : list string := ["secret_encrypted"; "webhook_secret"].
Definition SPEC_FIELDS : list string :=
  ["name"; "ref"; "engine"; "overrides_json"; "rate_mode"; "rate_value"; "interval_s"; "workers"; "duration_s"; "fleet";
   "strict_release"; "driver_opts_json"; "eventgen_impl"; "fast_envelope"; "rate_shape"; "extra_pack_ids_json"].

(** An entity: its key, its columns, what a new row starts with, the column
    defaults, and the columns that may not be null. *)
Record entity : Type := mkEntity {
  en_key : string;
  en_fields : list string;
  en_secrets : list string;
  en_defaults : columns;
  en_required : list string;
  en_unique : bool;
}.

Definition target_entity : entity :=
  mkEntity "name" TARGET_FIELDS TARGET_SECRETS
    {[ "default_index" := CNull; "verify_tls" := CBool true; "env_tag" := CStr "lab"; "max_concurrent_gb_day" := CNull;
       "token_encrypted" := CNull ]}
    ["name"; "hec_url"; "verify_tls"; "env_tag"] true.
Definition repo_entity : entity :=
  mkEntity "url" REPO_FIELDS REPO_SECRETS
    {[ "auth_kind" := CStr "none"; "default_ref" := CStr "main"; "trusted_code" := CBool false;
       "secret_encrypted" := CNull; "webhook_secret" := CNull ]}
    ["url"; "auth_kind"; "default_ref"; "trusted_code"] false.
Definition spec_entity : entity :=
  mkEntity "name" SPEC_FIELDS []
    (list_to_map [("ref", CStr "local"); ("engine", CStr "eventgen"); ("overrides_json", CNull);
       ("rate_mode", CStr "eps"); ("rate_value", CNull); ("interval_s", CNull); ("workers", CNum 1);
       ("duration_s", CNull); ("fleet", CStr "swarm-local"); ("strict_release", CBool false);
       ("driver_opts_json", CNull); ("eventgen_impl", CNull); ("fast_envelope", CNull);
       ("rate_shape", CNull); ("extra_pack_ids_json", CNull)])
    ["name"; "ref"; "engine"; "rate_mode"; "workers"; "fleet"; "strict_release"] false.

Definition all_fields (en : entity) : list string := en_fields en ++ en_secrets en.

(** ** Rows *)

Record crow : Type := mkRow { cr_id : Z; cr_cols : columns }.
(** The references of a spec are null until they are set. *)
Record srow : Type := mkSpecRow { sr_row : crow; sr_target_id : option Z; sr_pack_id : option Z }.

Record config_db : Type := mkDb {
  db_targets : list crow;
  db_repos : list crow;
  db_packs : list (Z * string);
  db_specs : list srow;
}.

Inductive docrow : Type := Row (cs : columns) | NotADict.

(** [row.get(f)] *)
Definition doc_col (r : docrow) (f : string) : cell := match r with Row cs => col cs f | NotADict => CNull end.

Record config_doc : Type := mkDoc {
  cd_includes_secrets : bool;
  cd_fingerprint : option string;
  cd_targets : list docrow;
  cd_repos : list docrow;
  cd_specs : list docrow;
}.

(** ** Export *)

(** [order_by(key)] *)
Definition key_le (a b : cell) : bool :=
  match a, b with CStr x, CStr y => negb (String.ltb y x) | _, _ => true end.
Fixpoint insert_by {A} (key : A -> cell) (x : A) (l : list A) : list A :=
  match l with
  | [] => [x]
  | y :: l' => if key_le (key x) (key y) then x :: l else y :: insert_by key x l'
  end.
Definition order_by {A} (key : A -> cell) (l : list A) : list A := foldr (insert_by key) [] l.

(** [{f: getattr(row, f) for f in fields}] *)
Definition pick (fs : list string) (cs : columns) : columns := list_to_map ((fun f => (f, col cs f)) <$> fs).

Definition export_row (en : entity) (include_secrets : bool) (r : crow) : columns :=
  pick (if include_secrets then all_fields en else en_fields en) (cr_cols r).

Definition name_of_id (rows : list (Z * cell)) (id : option Z) : cell :=
  match id with
  | Some id => default CNull (snd <$> List.find (fun r => Z.eqb r.1 id) rows)
  | None => CNull
  end.

Definition export_spec (db : config_db) (s : srow) : columns :=
  <[ "target" := name_of_id ((fun r => (cr_id r, col (cr_cols r) "name")) <$> db_targets db) (sr_target_id s) ]>
  (<[ "pack" := name_of_id ((fun p => (p.1, CStr p.2)) <$> db_packs db) (sr_pack_id s) ]>
  (export_row spec_entity false (sr_row s))).

Definition row_key (en : entity) (r : crow) : cell := col (cr_cols r) (en_key en).

Definition export_entity (en : entity) (include_secrets : bool) (rows : list crow) : list docrow :=
  (fun r => Row (export_row en include_secrets r)) <$> order_by (row_key en) rows.

Definition export_config (fingerprint : option string) (include_secrets : bool) (db : config_db) : config_doc :=
  mkDoc include_secrets fingerprint
    (export_entity target_entity include_secrets (db_targets db))
    (export_entity repo_entity include_secrets (db_repos db))
    ((fun s => Row (export_spec db s)) <$> order_by (fun s => row_key spec_entity (sr_row s)) (db_specs db)).

(** ** Import *)

Inductive skip : Type :=
  | NoKey (section : string)
  | UnknownTarget (spec : string) (target : cell)
  | UnknownPack (spec : string) (pack : cell).

Record import_report : Type := mkImportReport {
  ir_targets : Z;
  ir_repos : Z;
  ir_specs : Z;
  ir_skipped : list skip;
  ir_warning : bool;
}.

(** [(row.get(key) or "").strip()] *)
Definition key_text (r : docrow) (key : string) : result string :=
  match r with
  | NotADict => Raise AttributeError
  | Row cs =>
      if cell_truthy (col cs key) then
        match col cs key with CStr s => Ok (py_strip s) | _ => Raise AttributeError end
      else Ok ""
  end.

(** *** Upserts

    One loop body per row of a section: it skips the row, or edits the row of that
    name, or adds a new one.  A query finds the first row of the name among those
    in the database. *)

(** The rows in the database, and those added since the last flush. *)
Record stage (A : Type) : Type := mkStage { sg_rows : list A; sg_new : list A }.
Arguments mkStage {A} _ _.
Arguments sg_rows {A} _.
Arguments sg_new {A} _.

(** The stage, the number of rows created, and the rows skipped. *)
Abbreviation progress A := (stage A * (Z * list skip))%type.

(** What the body decides: [Put name edit new]. *)
Inductive plan (A : Type) : Type := Skip (s : skip) | Put (name : string) (edit : A -> A) (new : A).
Arguments Skip {A} _.
Arguments Put {A} _ _ _.

Section Upsert.
Context `{Rows} {A : Type} (key : A -> cell) (id_of : A -> Z) (born : Z -> A -> A).

Definition named (name : string) (x : A) : bool := match key x with CStr s => bool_decide (s = name) | _ => false end.

Definition edit_row (id : Z) (f : A -> A) (rows : list A) : list A :=
  (fun x => if Z.eqb (id_of x) id then f x else x) <$> rows.

Definition upsert (p : plan A) (st : progress A) : progress A :=
  let '(sg, (n, skipped)) := st in
  match p with
  | Skip s => (sg, (n, skipped ++ [s]))
  | Put name edit new =>
      match List.find (named name) (sg_rows sg) with
      | Some x => (mkStage (edit_row (id_of x) edit (sg_rows sg)) (sg_new sg), (n, skipped))
      | None => (mkStage (sg_rows sg) (sg_new sg ++ [new]), (n + 1, skipped))
      end
  end.

(** A new row gets its id when it is flushed. *)
Definition insert_new (rows : list A) (x : A) : list A := rows ++ [born (fresh_id (id_of <$> rows)) x].
Definition flushed_rows (sg : stage A) : list A := foldl insert_new (sg_rows sg) (sg_new sg).

(** The loop over the rows of a section. *)
Definition import_rows (decide_row : docrow -> result (plan A)) (docs : list docrow) (rows : list A) : result (progress A) :=
  fold_result (fun d st => p ← decide_row d; Ok (upsert p st)) docs (mkStage rows [], (0, [])).
End Upsert.

(** [if field in row and field != key: setattr(...)], secrets under another key
    left alone in a row that exists. *)
Definition set_fields (en : entity) (keep_secrets : bool) (row cs : columns) : columns :=
  foldl (fun cs f =>
           match row !! f with
           | Some v => if bool_decide (f = en_key en) || (keep_secrets && bool_decide (f ∈ en_secrets en)) then cs else <[ f := v ]> cs
           | None => cs
           end) cs (all_fields en).

Definition set_cols (f : columns -> columns) (r : crow) : crow := mkRow (cr_id r) (f (cr_cols r)).

(** What a new row is constructed with: a target takes its URL at once. *)
Definition new_cols (en : entity) (name : string) (row : columns) : columns :=
  let cs := {[ en_key en := CStr name ]} in
  if bool_decide ("hec_url" ∈ en_fields en)
  then <[ "hec_url" := if cell_truthy (col row "hec_url") then col row "hec_url" else CStr "" ]> cs
  else cs.

Definition doc_cols (r : docrow) : columns := match r with Row cs => cs | NotADict => ∅ end.

Definition plan_row (en : entity) (foreign : bool) (r : docrow) : result (plan crow) :=
  name ← key_text r (en_key en);
  if bool_decide (name = "") then Ok (Skip (NoKey (en_key en)))
  else
    let row := doc_cols r in
    Ok (Put name (set_cols (set_fields en foreign row)) (mkRow 0 (set_fields en false row (new_cols en name row)))).

(** A new row takes the defaults of the columns that were not set. *)
Definition born_row (en : entity) (id : Z) (r : crow) : crow := mkRow id (cr_cols r ∪ en_defaults en).

Definition is_null (c : cell) : bool := match c with CNull => true | _ => false end.

(** NOT NULL columns, and the unique names of targets. *)
Definition violates (en : entity) (rows : list crow) : bool :=
  existsb (fun r => existsb (fun f => is_null (col (cr_cols r) f)) (en_required en)) rows
  || (en_unique en && negb (bool_decide (NoDup (omap (fun r => match row_key en r with CStr s => Some s | _ => None end) rows)))).

Section Importing.
Context `{Rows}.

Definition import_entity (en : entity) (foreign : bool) (docs : list docrow) (rows : list crow)
    : result (list crow * (Z * list skip)) :=
  st ← import_rows (row_key en) cr_id (plan_row en foreign) docs rows;
  let '(sg, out) := st : progress crow in
  let rows := flushed_rows cr_id (born_row en) sg in
  if violates en rows then Raise IntegrityError else Ok (rows, out).

(** *** Specs *)

Definition spec_key (s : srow) : cell := row_key spec_entity (sr_row s).
Definition spec_id (s : srow) : Z := cr_id (sr_row s).

Definition target_by_name (v : cell) (targets : list crow) : option Z :=
  match v with CStr s => cr_id <$> List.find (named (row_key target_entity) s) targets | _ => None end.
Definition pack_by_name (v : cell) (packs : list (Z * string)) : option Z :=
  match v with CStr s => fst <$> List.find (fun p => bool_decide (p.2 = s)) packs | _ => None end.

Definition assign (target pack : option Z) (row : columns) (s : srow) : srow :=
  mkSpecRow (set_cols (set_fields spec_entity false row) (sr_row s)) target pack.

Definition plan_spec (targets : list crow) (packs : list (Z * string)) (r : docrow) : result (plan srow) :=
  name ← key_text r "name";
  if bool_decide (name = "") then Ok (Skip (NoKey "name"))
  else
    let target_name := doc_col r "target" in
    let pack_name := doc_col r "pack" in
    let target := if cell_truthy target_name then target_by_name target_name targets else None in
    let pack := if cell_truthy pack_name then pack_by_name pack_name packs else None in
    if cell_truthy target_name && bool_decide (target = None) then Ok (Skip (UnknownTarget name target_name))
    else if cell_truthy pack_name && bool_decide (pack = None) then Ok (Skip (UnknownPack name pack_name))
    else
      let row := doc_cols r in
      Ok (Put name (assign target pack row) (assign target pack row (mkSpecRow (mkRow 0 {[ "name" := CStr name ]}) target pack))).

Definition born_spec (id : Z) (s : srow) : srow := mkSpecRow (born_row spec_entity id (sr_row s)) (sr_target_id s) (sr_pack_id s).

Definition spec_violates (rows : list srow) : bool :=
  violates spec_entity (sr_row <$> rows) ||
  existsb (fun s => bool_decide (sr_target_id s = None) || bool_decide (sr_pack_id s = None)) rows.

Definition import_specs (targets : list crow) (packs : list (Z * string)) (docs : list docrow) (rows : list srow)
    : result (list srow * (Z * list skip)) :=
  st ← import_rows spec_key spec_id (plan_spec targets packs) docs rows;
  let '(sg, out) := st : progress srow in
  let rows := flushed_rows spec_id born_spec sg in
  if spec_violates rows then Raise IntegrityError else Ok (rows, out).

(** [want] is the fingerprint the document carries, [have] this instance's. *)
Definition foreign_key (want have : option string) : bool :=
  match want, have with
  | Some w, Some h => nonempty w && nonempty h && negb (bool_decide (w = h))
  | _, _ => false
  end.

(** The sections in turn; the targets and repositories are flushed before the specs. *)
Definition import_config (have : option string) (doc : config_doc) (db : config_db) : result (config_db * import_report) :=
  let foreign := foreign_key (cd_fingerprint doc) have in
  t ← import_entity target_entity foreign (cd_targets doc) (db_targets db);
  let '(targets, (nt, skipped_t)) := t : list crow * (Z * list skip) in
  r ← import_entity repo_entity foreign (cd_repos doc) (db_repos db);
  let '(repos, (nr, skipped_r)) := r : list crow * (Z * list skip) in
  s ← import_specs targets (db_packs db) (cd_specs doc) (db_specs db);
  let '(specs, (ns, skipped_s)) := s : list srow * (Z * list skip) in
  Ok (mkDb targets repos (db_packs db) specs,
      mkImportReport nt nr ns (skipped_t ++ skipped_r ++ skipped_s) foreign).
End Importing.

(** [os.environ.get("STOKER_MASTER_KEY") or settings.master_key] *)
Definition master_key_fingerprint `{Crypto} (env_key settings_key : option string) : option string :=
  let key := if nonempty (default "" env_key) then default "" env_key else default "" settings_key in
  if nonempty key then Some (String.substring 0 8 (sha256_hex key)) else None.

(** ** The closed form of the loop *)

Section UpsertLaws.
Context `{Rows} {A : Type} (key : A -> cell) (id_of : A -> Z) (born : Z -> A -> A).
Context (born_key : forall i x, key (born i x) = key x) (born_id : forall i x, id_of (born i x) = i).

Definition plan_name (p : plan A) : option string := match p with Put name _ _ => Some name | Skip _ => None end.

(** An edit keeps the name and the id, and a new row has the name. *)
Definition plan_ok (p : plan A) : Prop :=
  match p with
  | Skip _ => True
  | Put name edit new => (forall x, key (edit x) = key x /\ id_of (edit x) = id_of x) /\ key new = CStr name
  end.

Fixpoint edited (ps : list (plan A)) (x : A) : A :=
  match ps with
  | [] => x
  | Skip _ :: ps => edited ps x
  | Put name edit _ :: ps => if named key name x then edit x else edited ps x
  end.

Fixpoint news (ps : list (plan A)) (rows : list A) : list A :=
  match ps with
  | [] => []
  | Skip _ :: ps => news ps rows
  | Put name _ new :: ps =>
      match List.find (named key name) rows with Some _ => news ps rows | None => new :: news ps rows end
  end.

Definition skips (ps : list (plan A)) : list skip := omap (fun p => match p with Skip s => Some s | Put _ _ _ => None end) ps.

Lemma named_iff name x : named key name x = true <-> key x = CStr name.
Proof. unfold named. destruct (key x); try (split; congruence). rewrite bool_decide_eq_true. split; congruence. Qed.

Lemma find_named_none name rows : List.find (named key name) rows = None <-> CStr name ∉ key <$> rows.
Proof.
  split.
  - intros E (x & Ex & Hx)%list_elem_of_fmap. pose proof (find_none_spec _ _ E x Hx) as Hf.
    by rewrite (proj2 (named_iff name x)) in Hf.
  - intros Hn. destruct (List.find _ _) as [x|] eqn:E; [|done]. apply find_spec in E as [Hx E2%named_iff].
    exfalso. apply Hn. rewrite <- E2. by apply list_elem_of_fmap_2.
Qed.

Lemma edited_other ps x : (forall n, Some n ∈ plan_name <$> ps -> key x <> CStr n) -> edited ps x = x.
Proof.
  induction ps as [|[s|name edit new] ps IH]; intros Hn; [done|..]; cbn.
  - apply IH. intros n Hin. apply Hn. by right.
  - destruct (named key name x) eqn:E.
    + apply named_iff in E. exfalso. eapply Hn; [left|]. done.
    + apply IH. intros n Hin. apply Hn. by right.
Qed.

Lemma edited_keeps ps x : Forall plan_ok ps -> key (edited ps x) = key x /\ id_of (edited ps x) = id_of x.
Proof.
  induction 1 as [|[s|name edit new] ps Hp _ IH]; [done|done|]. cbn. destruct (named key name x); [apply Hp|done].
Qed.

Lemma news_keys ps rows rows' : key <$> rows' = key <$> rows -> news ps rows' = news ps rows.
Proof.
  intros E. induction ps as [|[s|name edit new] ps IH]; [done|done|]. cbn.
  destruct (List.find (named key name) rows') as [x|] eqn:E1, (List.find (named key name) rows) as [y|] eqn:E2; rewrite ?IH; try done.
  - apply find_named_none in E2. rewrite <- E in E2. apply find_named_none in E2. congruence.
  - apply find_named_none in E1. rewrite E in E1. apply find_named_none in E1. congruence.
Qed.

Lemma nodup_inj {B} (g : A -> B) l x y : NoDup (g <$> l) -> x ∈ l -> y ∈ l -> g x = g y -> x = y.
Proof.
  intros Hn [i Hi]%list_elem_of_lookup [j Hj]%list_elem_of_lookup E.
  assert (i = j) as ->; [|congruence]. eapply (NoDup_lookup _ _ _ (g x) Hn); rewrite list_lookup_fmap; [by rewrite Hi|by rewrite Hj, E].
Qed.

Lemma edit_row_named rows name edit x : NoDup (id_of <$> rows) -> NoDup (key <$> rows) ->
  List.find (named key name) rows = Some x ->
  edit_row id_of (id_of x) edit rows = (fun y => if named key name y then edit y else y) <$> rows.
Proof.
  intros Hi Hk [Hx Hn]%find_spec. unfold edit_row. apply list_fmap_ext. intros i y Hy%list_elem_of_lookup_2.
  destruct (Z.eqb_spec (id_of y) (id_of x)) as [E|E].
  - rewrite (nodup_inj id_of rows y x) by done. by rewrite Hn.
  - destruct (named key name y) eqn:Ey; [|done]. apply named_iff in Ey, Hn. exfalso. apply E.
    f_equal. eapply (nodup_inj key); [done|done|done|congruence].
Qed.

Lemma upsert_all ps rows new n sk : Forall plan_ok ps -> NoDup (omap plan_name ps) ->
  NoDup (id_of <$> rows) -> NoDup (key <$> rows) ->
  foldl (fun st p => upsert key id_of p st) (mkStage rows new, (n, sk)) ps
  = (mkStage (edited ps <$> rows) (new ++ news ps rows), (n + Z.of_nat (length (news ps rows)), sk ++ skips ps)).
Proof.
  intros Hok. revert rows new n sk. induction Hok as [|p ps Hp Hok IH]; intros rows new n sk Hnd Hi Hk.
  { cbn. rewrite list_fmap_id, !app_nil_r, Z.add_0_r. done. }
  destruct p as [s|name edit nw]; cbn [foldl upsert].
  { rewrite IH by done. cbn. by rewrite <- app_assoc. }
  cbn [omap list_omap plan_name] in Hnd. apply NoDup_cons in Hnd as [Hname Hnd].
  assert (forall n', Some n' ∈ plan_name <$> ps -> n' <> name) as Hdiff.
  { intros n' (q & Eq & Hq)%list_elem_of_fmap ->. apply Hname, list_elem_of_omap. eauto. }
  cbn [sg_rows sg_new news skips omap list_omap edited]. destruct (List.find (named key name) rows) as [x|] eqn:Ef.
  - rewrite (edit_row_named rows name edit x) by done. set (rows' := _ <$> rows).
    assert (key <$> rows' = key <$> rows /\ id_of <$> rows' = id_of <$> rows) as [Ek Ei].
    { subst rows'. rewrite <- !list_fmap_compose. split; apply list_fmap_ext; intros i y _; cbn; destruct (named key name y); try done; apply Hp. }
    rewrite IH by (rewrite ?Ek, ?Ei; done). rewrite (news_keys ps rows rows' Ek).
    assert (edited ps <$> rows' = (fun y => if named key name y then edit y else edited ps y) <$> rows) as ->; [|done].
    subst rows'. rewrite <- list_fmap_compose. apply list_fmap_ext. intros i y _. cbn. destruct (named key name y) eqn:Ey; [|done].
    apply edited_other. intros n' Hn' E. rewrite (proj1 (proj1 Hp y)) in E. apply named_iff in Ey. rewrite Ey in E.
    injection E as <-. by eapply Hdiff.
  - rewrite IH by done. rewrite <- app_assoc. cbn [app length]. rewrite Nat2Z.inj_succ.
    assert ((fun y => if named key name y then edit y else edited ps y) <$> rows = edited ps <$> rows) as ->;
      [|do 2 f_equal; lia].
    apply list_fmap_ext. intros i y Hy%list_elem_of_lookup_2. pose proof (find_none_spec _ _ Ef y Hy) as E. cbn in E. by rewrite E.
Qed.

(** *** Flushing *)

Lemma flushed_rows_spec rows new : NoDup (id_of <$> rows) ->
  exists ids, flushed_rows id_of born (mkStage rows new) = rows ++ zip_with born ids new /\ length ids = length new /\
    NoDup (id_of <$> rows ++ zip_with born ids new).
Proof.
  unfold flushed_rows. cbn. revert rows. induction new as [|x new IH]; intros rows Hn.
  { exists []. rewrite app_nil_r. done. }
  cbn. destruct (IH (insert_new id_of born rows x)) as (ids & E & El & Hnd).
  { unfold insert_new. rewrite fmap_app. cbn. rewrite born_id. apply NoDup_app. split_and!; [done| |apply NoDup_singleton].
    intros i Hi ->%list_elem_of_singleton. by apply (fresh_id_new (id_of <$> rows)). }
  exists (fresh_id (id_of <$> rows) :: ids). unfold insert_new in E, Hnd. rewrite <- app_assoc in E, Hnd. cbn [app] in *.
  split; [exact E|]. split; [by cbn; f_equal|exact Hnd].
Qed.

Lemma zip_born_keys ids new : length ids = length new -> key <$> zip_with born ids new = key <$> new.
Proof.
  revert new. induction ids as [|i ids IH]; intros [|x new] E; try done. cbn. rewrite born_key. f_equal. apply IH. by injection E.
Qed.

Lemma news_named ps rows x : Forall plan_ok ps -> x ∈ news ps rows ->
  exists name edit, Put name edit x ∈ ps /\ key x = CStr name /\ CStr name ∉ key <$> rows.
Proof.
  induction 1 as [|[s|name edit new] ps Hp _ IH]; cbn; [by intros []%elem_of_nil|..].
  - intros (n & e & Hin & ?)%IH. exists n, e. split; [by right|done].
  - destruct (List.find _ rows) eqn:E.
    + intros (n & e & Hin & ?)%IH. exists n, e. split; [by right|done].
    + intros [->|(n & e & Hin & ?)%IH]%elem_of_cons; [|exists n, e; split; [by right|done]].
      exists name, edit. split; [left|]. split; [apply Hp|by apply find_named_none].
Qed.

Lemma news_nodup ps rows : Forall plan_ok ps -> NoDup (omap plan_name ps) -> NoDup (key <$> news ps rows).
Proof.
  induction 1 as [|[s|name edit new] ps Hp Hok IH]; cbn; [constructor|done|].
  intros [Hname Hnd]%NoDup_cons. destruct (List.find _ rows); [by apply IH|]. cbn. apply NoDup_cons. split; [|by apply IH].
  rewrite (proj2 Hp). intros (x & Ex & Hx)%list_elem_of_fmap. destruct (news_named ps rows x Hok Hx) as (n & e & Hin & Ekx & _).
  apply Hname, list_elem_of_omap. exists (Put n e x). split; [done|]. cbn. f_equal. congruence.
Qed.

(** *** The second time *)

Section Twice.
Context (ps : list (plan A)) (rows : list A).
Context (ok : Forall plan_ok ps) (distinct : NoDup (omap plan_name ps)).
Context (ids_nodup : NoDup (id_of <$> rows)) (keys_nodup : NoDup (key <$> rows)).
(** An edit done twice is done; and it is done in the row it would have made. *)
Context (stable : forall name edit new, Put name edit new ∈ ps ->
  (forall x, edit (edit x) = edit x) /\ forall i, edit (born i new) = born i new).

Lemma edited_put name edit new x : Put name edit new ∈ ps -> key x = CStr name -> edited ps x = edit x.
Proof.
  clear stable. induction ok as [|[s|n e w] l Hp Hok IH]; [by intros []%elem_of_nil|..].
  - intros [[=]|Hin]%elem_of_cons Hx. cbn. by apply IH.
  - cbn in distinct. apply NoDup_cons in distinct as [Hname Hnd]. intros [[= -> -> ->]|Hin]%elem_of_cons Hx; cbn.
    + by rewrite (proj2 (named_iff n x)).
    + destruct (named key n x) eqn:E; [|by apply IH]. apply named_iff in E. exfalso. apply Hname, list_elem_of_omap.
      exists (Put name edit new). split; [done|]. cbn. congruence.
Qed.

Lemma edited_cases x : edited ps x = x \/ exists name edit new, Put name edit new ∈ ps /\ key x = CStr name /\ edited ps x = edit x.
Proof.
  clear - ps. induction ps as [|[s|name edit new] l IH]; [by left|..]; cbn.
  - destruct IH as [IH|(n & e & w & Hin & ?)]; [by left|]. right. exists n, e, w. split; [by right|done].
  - destruct (named key name x) eqn:E.
    + right. exists name, edit, new. split; [left|]. by apply named_iff in E.
    + destruct IH as [IH|(n & e & w & Hin & ?)]; [by left|]. right. exists n, e, w. split; [by right|done].
Qed.

Lemma edited_twice x : edited ps (edited ps x) = edited ps x.
Proof.
  destruct (edited_cases x) as [E|(name & edit & new & Hin & Hk & E)]; [by rewrite !E|]. rewrite E.
  pose proof (proj1 (Forall_forall _ _) ok _ Hin) as [Hp _]. rewrite (edited_put name edit new).
  - by apply (stable name edit new).
  - done.
  - by rewrite (proj1 (Hp x)).
Qed.

(** The rows after the first time, flushed: unique, and a fixpoint of the loop. *)
Lemma upsert_twice (rows1 := flushed_rows id_of born (mkStage (edited ps <$> rows) (news ps rows))) :
  NoDup (id_of <$> rows1) /\ NoDup (key <$> rows1) /\ edited ps <$> rows1 = rows1 /\ news ps rows1 = [].
Proof.
  subst rows1. assert (key <$> (edited ps <$> rows) = key <$> rows /\ id_of <$> (edited ps <$> rows) = id_of <$> rows) as [Ek Ei].
  { rewrite <- !list_fmap_compose. split; apply list_fmap_ext; intros i x _; by apply edited_keeps. }
  destruct (flushed_rows_spec (edited ps <$> rows) (news ps rows)) as (ids & -> & El & Hnd); [by rewrite Ei|].
  assert (key <$> (edited ps <$> rows) ++ zip_with born ids (news ps rows) = (key <$> rows) ++ (key <$> news ps rows)) as Ekk
    by (by rewrite fmap_app, Ek, zip_born_keys).
  split; [done|]. split; [|split].
  - rewrite Ekk. apply NoDup_app. split_and!; [done| |by apply news_nodup].
    intros k Hk (x & -> & (n & e & _ & Hx & Hn)%news_named)%list_elem_of_fmap; [|done]. apply Hn. by rewrite <- Hx.
  - rewrite fmap_app. f_equal.
    + rewrite <- list_fmap_compose. apply list_fmap_ext. intros i x _. cbn. apply edited_twice.
    + assert (forall x, x ∈ news ps rows -> forall i, edited ps (born i x) = born i x) as Hx.
      { intros x (n & e & Hin & Hx & _)%news_named i; [|done]. rewrite (edited_put n e x); [by apply (stable n e x)|done|].
        by rewrite born_key. }
      clear -Hx. revert ids Hx. generalize (news ps rows) as l. induction l as [|x l IH]; intros [|i ids] Hx; try done.
      cbn. f_equal; [apply Hx; left|]. apply IH. intros y Hy. apply Hx. by right.
  - assert (forall l, (forall name edit new, Put name edit new ∈ l -> CStr name ∈ (key <$> rows) ++ (key <$> news ps rows)) ->
              news l ((edited ps <$> rows) ++ zip_with born ids (news ps rows)) = []) as Hl.
    { induction l as [|[s|n e w] l IH]; intros Hin; [done|..]; cbn.
      - apply IH. intros ??? Hp. eapply Hin. by right.
      - destruct (List.find _ _) eqn:Ef; [apply IH; intros ??? Hp; eapply Hin; by right|]. exfalso.
        apply find_named_none in Ef. rewrite Ekk in Ef. eapply Ef, Hin. left. }
    apply Hl. intros name edit new Hin. apply elem_of_app. destruct (List.find (named key name) rows) as [x|] eqn:Hd.
    { left. apply find_spec in Hd as [Hx <-%named_iff]. by apply list_elem_of_fmap_2. }
    apply find_named_none in Hd.
    right. clear -Hin Hd ok. induction ok as [|[s|n e w] l Hp Hok IH]; [by apply elem_of_nil in Hin|..]; cbn.
    + apply elem_of_cons in Hin as [[=]|Hin]. by apply IH.
    + apply elem_of_cons in Hin as [[= -> -> ->]|Hin].
      * rewrite (proj2 (find_named_none _ _)) by done. cbn. rewrite (proj2 Hp). left.
      * specialize (IH Hok Hin). destruct (List.find _ rows); [done|]. cbn. by right.
Qed.
End Twice.
End UpsertLaws.

(** ** Fields *)

(** The fields a row of the document sets. *)
Definition sets (en : entity) (keep_secrets : bool) (f : string) : bool :=
  bool_decide (f ∈ all_fields en) && negb (bool_decide (f = en_key en) || (keep_secrets && bool_decide (f ∈ en_secrets en))).

Lemma set_fields_lookup en k row cs f :
  set_fields en k row cs !! f = match row !! f with Some v => if sets en k f then Some v else cs !! f | None => cs !! f end.
Proof.
  unfold set_fields, sets. generalize (all_fields en) as l. intros l. revert cs.
  induction l as [|g l IH]; intros cs; cbn [foldl].
  { rewrite bool_decide_false by set_solver. by destruct (row !! f). }
  rewrite IH. destruct (row !! f) as [v|] eqn:Ef.
  - destruct (bool_decide_reflect (f ∈ l)) as [Hl|Hl].
    + rewrite (bool_decide_true (f ∈ g :: l)) by set_solver. cbn [andb]. destruct (negb _) eqn:En; [done|].
      apply negb_false_iff in En. destruct (row !! g) as [w|] eqn:Eg; [|done].
      destruct (decide (g = f)) as [->|Hgf]; [by rewrite En|]. destruct (bool_decide (g = en_key en) || k && bool_decide (g ∈ en_secrets en)); [done|]. by rewrite lookup_insert_ne.
    + cbn [andb]. destruct (decide (g = f)) as [->|Hgf].
      * rewrite Ef, (bool_decide_true (f ∈ f :: l)) by set_solver. cbn [andb]. destruct (bool_decide (f = en_key en) || k && bool_decide (f ∈ en_secrets en)); cbn [negb]; [done|].
        by rewrite lookup_insert_eq.
      * rewrite (bool_decide_false (f ∈ g :: l)) by set_solver. cbn [andb].
        destruct (row !! g); [|done]. destruct (bool_decide (g = en_key en) || k && bool_decide (g ∈ en_secrets en)); [done|]. by rewrite lookup_insert_ne.
  - destruct (row !! g) as [w|] eqn:Eg; [|done]. destruct (bool_decide (g = en_key en) || k && bool_decide (g ∈ en_secrets en)); [done|]. rewrite lookup_insert_ne; [done|]. congruence.
Qed.

(** Values that are there already are set to no effect. *)
Lemma set_fields_done en k row cs :
  (forall f v, row !! f = Some v -> sets en k f = true -> cs !! f = Some v) -> set_fields en k row cs = cs.
Proof.
  intros Hd. apply map_eq. intros f. rewrite set_fields_lookup. destruct (row !! f) as [v|] eqn:E; [|done].
  destruct (sets en k f) eqn:Es; [|done]. symmetry. by apply Hd.
Qed.

Lemma set_fields_twice en k row cs : set_fields en k row (set_fields en k row cs) = set_fields en k row cs.
Proof. apply set_fields_done. intros f v E Es. by rewrite set_fields_lookup, E, Es. Qed.

Lemma sets_weaken en k f : sets en k f = true -> sets en false f = true.
Proof. unfold sets. destruct k; [|done]. cbn. rewrite !andb_true_iff, !negb_true_iff, !orb_false_iff. naive_solver. Qed.

(** A row the import has made has the values of the document. *)
Lemma set_fields_born en k row cs defaults :
  set_fields en k row (set_fields en false row cs ∪ defaults) = set_fields en false row cs ∪ defaults.
Proof.
  apply set_fields_done. intros f v E Es. apply lookup_union_Some_l. rewrite set_fields_lookup, E.
  by rewrite (sets_weaken en k f Es).
Qed.

Lemma sets_key en k : sets en k (en_key en) = false.
Proof. unfold sets. rewrite (bool_decide_true (en_key en = en_key en)) by done. cbn. apply andb_false_r. Qed.

Lemma set_fields_key en k row cs : col (set_fields en k row cs) (en_key en) = col cs (en_key en).
Proof. unfold col. rewrite set_fields_lookup, sets_key. by destruct (row !! _). Qed.

Lemma new_cols_key en name row : en_key en <> "hec_url" -> col (new_cols en name row) (en_key en) = CStr name.
Proof.
  intros Hk. unfold new_cols, col. case_bool_decide; [rewrite lookup_insert_ne by done|]; by rewrite lookup_singleton_eq.
Qed.

Lemma col_union cs defaults f : col cs f <> CNull -> col (cs ∪ defaults) f = col cs f.
Proof. unfold col. intros Hn. destruct (cs !! f) eqn:E; [|done]. by rewrite (lookup_union_Some_l _ _ _ _ E). Qed.

Lemma col_defaults cs defaults f : defaults !! f = None -> col (cs ∪ defaults) f = col cs f.
Proof. unfold col. intros Hd. rewrite lookup_union, Hd. by destruct (cs !! f). Qed.

(** ** Doing it again *)

Section Plans.
Context `{Rows} {A : Type} (key : A -> cell) (id_of : A -> Z).

Lemma import_rows_plans (decide_row : docrow -> result (plan A)) docs st0 st :
  fold_result (fun d st => p ← decide_row d; Ok (upsert key id_of p st)) docs st0 = Ok st <->
  exists ps, Forall2 (fun d p => decide_row d = Ok p) docs ps /\ st = foldl (fun st p => upsert key id_of p st) st0 ps.
Proof.
  revert st0. induction docs as [|d docs IH]; intros st0; cbn [fold_result].
  - split; [intros [= <-]; exists []; by split; [constructor|]|]. intros (ps & Hf & ->). by inversion Hf.
  - destruct (decide_row d) as [p|e] eqn:E; cbn [mbind result_bind].
    + rewrite IH. split.
      * intros (ps & Hf & ->). exists (p :: ps). by split; [constructor|].
      * intros (ps & Hf & ->). inversion Hf as [|? p' ? ps' Hp Hps]; subst. exists ps'. split; [done|]. cbn. congruence.
    + split; [done|]. intros (ps & Hf & _). inversion Hf; congruence.
Qed.

(** The names of the rows of a section. *)
Definition doc_name (k : string) (d : docrow) : option string :=
  match key_text d k with Ok n => if bool_decide (n = "") then None else Some n | Raise _ => None end.

Lemma plans_distinct k (decide_row : docrow -> result (plan A)) docs ps :
  (forall d p n, decide_row d = Ok p -> plan_name p = Some n -> doc_name k d = Some n) ->
  NoDup (omap (doc_name k) docs) -> Forall2 (fun d p => decide_row d = Ok p) docs ps -> NoDup (omap plan_name ps).
Proof.
  intros Hn Hnd Hf.
  assert (forall n, n ∈ omap plan_name ps -> n ∈ omap (doc_name k) docs) as Hin.
  { intros n (p & Hp & Ep)%list_elem_of_omap. apply list_elem_of_lookup in Hp as [i Hi].
    destruct (Forall2_lookup_r _ _ _ _ _ Hf Hi) as (d & Hd & E). apply list_elem_of_omap. exists d.
    split; [by eapply list_elem_of_lookup_2|by eapply Hn]. }
  revert Hnd. clear Hin. induction Hf as [|d p docs ps E Hf IH]; [done|]. cbn.
  destruct (plan_name p) as [n|] eqn:Ep.
  - rewrite (Hn d p n E Ep). rewrite !NoDup_cons. intros [Hni Hnd]. split; [|by apply IH]. intros (q & Hq & Eq)%list_elem_of_omap.
    apply Hni. apply list_elem_of_lookup in Hq as [i Hi]. destruct (Forall2_lookup_r _ _ _ _ _ Hf Hi) as (d' & Hd & E').
    apply list_elem_of_omap. exists d'. split; [by eapply list_elem_of_lookup_2|by eapply Hn].
  - destruct (doc_name k d); [rewrite NoDup_cons; intros [_ ?]|]; by auto.
Qed.
End Plans.

(** The ids and the names of a table are unique. *)
Definition tidy {A} (key : A -> cell) (id_of : A -> Z) (rows : list A) : Prop := NoDup (id_of <$> rows) /\ NoDup (key <$> rows).

(** A sound loop body: its edits keep names and ids and are done once; a new row has
    the name, and the values of the document. *)
Definition body_ok {A} (key : A -> cell) (id_of : A -> Z) (born : Z -> A -> A) (k : string)
    (decide_row : docrow -> result (plan A)) : Prop :=
  (forall i x, key (born i x) = key x) /\ (forall i x, id_of (born i x) = i) /\
  forall d p, decide_row d = Ok p ->
    plan_ok key id_of p /\ (forall n, plan_name p = Some n -> doc_name k d = Some n) /\
    (forall name edit new, p = Put name edit new ->
       (forall x, edit (edit x) = edit x) /\ forall i, edit (born i new) = born i new).

Section Again.
Context `{Rows}.

(** The rows after the loop and its flush. *)
Definition looped {A} (key : A -> cell) (id_of : A -> Z) (born : Z -> A -> A) (ps : list (plan A)) (rows : list A) : list A :=
  flushed_rows id_of born (mkStage (edited key ps <$> rows) (news key ps rows)).

Lemma import_rows_spec {A} (key : A -> cell) id_of born k decide_row docs rows st : body_ok key id_of born k decide_row ->
  tidy key id_of rows -> NoDup (omap (doc_name k) docs) -> import_rows key id_of decide_row docs rows = Ok st <->
  exists ps, Forall2 (fun d p => decide_row d = Ok p) docs ps /\ Forall (plan_ok key id_of) ps /\ NoDup (omap plan_name ps) /\
    st = (mkStage (edited key ps <$> rows) (news key ps rows), (Z.of_nat (length (news key ps rows)), skips ps)).
Proof.
  intros (_ & _ & Hb) [Hi Hk] Hd. unfold import_rows. rewrite import_rows_plans.
  assert (forall ps, Forall2 (fun d p => decide_row d = Ok p) docs ps -> Forall (plan_ok key id_of) ps /\ NoDup (omap plan_name ps)) as Hps.
  { intros ps Hf. split.
    - apply Forall_forall. intros p [i Hp]%list_elem_of_lookup. destruct (Forall2_lookup_r _ _ _ _ _ Hf Hp) as (d & _ & Ed).
      by apply Hb in Ed as [? _].
    - eapply plans_distinct; [|exact Hd|exact Hf]. intros d p m Ed Em. apply Hb in Ed as (_ & Hn & _). by apply Hn. }
  split; intros (ps & Hf & Hst); exists ps; destruct (Hps ps Hf) as [Hok Hnd].
  - by rewrite (upsert_all key id_of) in Hst.
  - destruct Hst as (_ & _ & ->). by rewrite (upsert_all key id_of).
Qed.

Lemma import_rows_twice {A} (key : A -> cell) id_of born k decide_row docs rows sg n sk : body_ok key id_of born k decide_row ->
  tidy key id_of rows -> NoDup (omap (doc_name k) docs) -> import_rows key id_of decide_row docs rows = Ok (sg, (n, sk)) ->
  let rows1 := flushed_rows id_of born sg in
  tidy key id_of rows1 /\ import_rows key id_of decide_row docs rows1 = Ok (mkStage rows1 [], (0, sk)).
Proof.
  intros Hbody Ht Hd E rows1. pose proof Hbody as (Hbk & Hbi & Hb).
  apply (import_rows_spec _ _ _ _ _ _ _ _ Hbody Ht Hd) in E as (ps & Hf & Hok & Hnd & [= -> _ ->]).
  destruct (upsert_twice key id_of born Hbk Hbi ps rows) as (T1 & T2 & T3 & T4); try done; [apply Ht|apply Ht| |].
  { intros name edit new [i Hp]%list_elem_of_lookup. destruct (Forall2_lookup_r _ _ _ _ _ Hf Hp) as (d & _ & Ed).
    apply Hb in Ed as (_ & _ & Hs). by apply (Hs name). }
  subst rows1. fold (looped key id_of born ps rows) in *. split; [done|].
  apply (import_rows_spec _ _ _ _ _ _ _ _ Hbody); [done..|]. exists ps. split; [done|]. split; [done|]. split; [done|].
  by rewrite T3, T4.
Qed.

Record entity_ok (en : entity) : Prop := mkEntityOk {
  eo_url : en_key en <> "hec_url";
  eo_defaults : en_defaults en !! en_key en = None;
}.

Lemma plan_row_ok en foreign : entity_ok en -> body_ok (row_key en) cr_id (born_row en) (en_key en) (plan_row en foreign).
Proof.
  intros Hok. split; [intros i x; apply col_defaults, Hok|]. split; [done|]. intros d p.
  unfold plan_row. destruct (key_text d (en_key en)) as [n|] eqn:En; [|done]. cbn [mbind result_bind].
  case_bool_decide as Hn.
  { intros [= <-]. split; [done|]. split; [done|]. by intros ???. }
  intros [= <-]. split; [|split].
  - split; [intros x; unfold row_key; cbn; by rewrite set_fields_key|]. unfold row_key. cbn.
    rewrite set_fields_key. apply new_cols_key, Hok.
  - intros m [= <-]. unfold doc_name. rewrite En. by rewrite bool_decide_false.
  - intros name edit new [= <- <- <-]. split.
    + intros x. unfold set_cols. cbn. by rewrite set_fields_twice.
    + intros i. unfold set_cols, born_row. cbn. by rewrite set_fields_born.
Qed.

Lemma spec_key_assign target pack row s : spec_key (assign target pack row s) = spec_key s.
Proof. exact (set_fields_key spec_entity false row (cr_cols (sr_row s))). Qed.

Lemma lookup_name_singleton i name target pack : spec_key (mkSpecRow (mkRow i {[ "name" := CStr name ]}) target pack) = CStr name.
Proof. unfold spec_key, row_key, col. cbn [sr_row cr_cols]. by rewrite (lookup_singleton_eq "name"). Qed.

Lemma plan_spec_ok targets packs : body_ok spec_key spec_id born_spec "name" (plan_spec targets packs).
Proof.
  split; [intros i x; by apply col_defaults|]. split; [done|]. intros d p.
  unfold plan_spec. destruct (key_text d "name") as [n|] eqn:En; [|done]. cbn [mbind result_bind].
  assert (forall s : skip, Skip s = p -> plan_ok spec_key spec_id p /\ (forall n0, plan_name p = Some n0 -> doc_name "name" d = Some n0) /\
    (forall name edit new, p = Put name edit new -> (forall x, edit (edit x) = edit x) /\ forall i, edit (born_spec i new) = born_spec i new)) as Hskip.
  { intros s <-. split; [done|]. split; [done|]. by intros ???. }
  case_bool_decide as Hn; [intros [= E]; by eapply Hskip|].
  destruct (_ && _); [intros [= E]; by eapply Hskip|]. destruct (_ && _); [intros [= E]; by eapply Hskip|].
  intros [= <-]. split; [|split].
  - split; [intros x; split; [apply spec_key_assign|done]|]. rewrite spec_key_assign. apply lookup_name_singleton.
  - intros m [= <-]. unfold doc_name. rewrite En. by rewrite bool_decide_false.
  - intros name edit new [= <- <- <-]. split.
    + intros x. unfold assign, set_cols. cbn [sr_row cr_id cr_cols]. by rewrite set_fields_twice.
    + intros i. unfold assign, set_cols, born_spec, born_row. cbn [sr_row cr_id cr_cols sr_target_id sr_pack_id].
      by rewrite set_fields_born.
Qed.

Lemma target_entity_ok : entity_ok target_entity.
Proof. by split. Qed.
Lemma repo_entity_ok : entity_ok repo_entity.
Proof. by split. Qed.

Lemma import_entity_twice en foreign docs rows rows1 n sk : entity_ok en -> tidy (row_key en) cr_id rows ->
  NoDup (omap (doc_name (en_key en)) docs) -> import_entity en foreign docs rows = Ok (rows1, (n, sk)) ->
  tidy (row_key en) cr_id rows1 /\ import_entity en foreign docs rows1 = Ok (rows1, (0, sk)).
Proof.
  intros Hok Ht Hd E. unfold import_entity in *.
  destruct (import_rows _ _ _ docs rows) as [[sg [n' sk']]|] eqn:Ei; [|done]. cbn [mbind result_bind] in E.
  destruct (violates en _) eqn:Ev; [done|]. injection E as <- <- <-.
  destruct (import_rows_twice _ _ _ _ _ _ _ _ _ _ (plan_row_ok en foreign Hok) Ht Hd Ei) as [Ht1 E1]. split; [done|].
  rewrite E1. cbn [mbind result_bind]. unfold flushed_rows at 1. cbn [sg_rows sg_new foldl]. by rewrite Ev.
Qed.

Lemma import_specs_twice targets packs docs rows rows1 n sk : tidy spec_key spec_id rows ->
  NoDup (omap (doc_name "name") docs) -> import_specs targets packs docs rows = Ok (rows1, (n, sk)) ->
  tidy spec_key spec_id rows1 /\ import_specs targets packs docs rows1 = Ok (rows1, (0, sk)).
Proof.
  intros Ht Hd E. unfold import_specs in *.
  destruct (import_rows _ _ _ docs rows) as [[sg [n' sk']]|] eqn:Ei; [|done]. cbn [mbind result_bind] in E.
  destruct (spec_violates _) eqn:Ev; [done|]. injection E as <- <- <-.
  destruct (import_rows_twice _ _ _ _ _ _ _ _ _ _ (plan_spec_ok targets packs) Ht Hd Ei) as [Ht1 E1]. split; [done|].
  rewrite E1. cbn [mbind result_bind]. unfold flushed_rows at 1. cbn [sg_rows sg_new foldl]. by rewrite Ev.
Qed.
End Again.

Record tidy_db (db : config_db) : Prop := mkTidyDb {
  td_targets : tidy (row_key target_entity) cr_id (db_targets db);
  td_repos : tidy (row_key repo_entity) cr_id (db_repos db);
  td_specs : tidy spec_key spec_id (db_specs db);
}.

(** The rows of each section have different names. *)
Record tidy_doc (doc : config_doc) : Prop := mkTidyDoc {
  tc_targets : NoDup (omap (doc_name "name") (cd_targets doc));
  tc_repos : NoDup (omap (doc_name "url") (cd_repos doc));
  tc_specs : NoDup (omap (doc_name "name") (cd_specs doc));
}.

(** importing a document twice is importing it once.  On tables whose names are
    unique, and for a document whose names are, a second import of what was just
    imported changes no row, creates none, and skips what the first one skipped. *)
Theorem import_idempotent `{Rows} have doc db db1 r : tidy_db db -> tidy_doc doc ->
  import_config have doc db = Ok (db1, r) ->
  import_config have doc db1 = Ok (db1, mkImportReport 0 0 0 (ir_skipped r) (ir_warning r)).
Proof.
  intros [T1 T2 T3] [D1 D2 D3] E. unfold import_config in *. set (foreign := foreign_key _ _) in *.
  destruct (import_entity target_entity foreign _ _) as [[targets [nt st]]|] eqn:Et; [|done]. cbn [mbind result_bind] in E.
  destruct (import_entity repo_entity foreign _ _) as [[repos [nr sr]]|] eqn:Er; [|done]. cbn [mbind result_bind] in E.
  destruct (import_specs targets _ _ _) as [[specs [ns ss]]|] eqn:Es; [|done]. cbn [mbind result_bind] in E.
  injection E as <- <-. cbn [db_targets db_repos db_packs db_specs ir_skipped ir_warning].
  apply import_entity_twice in Et as [_ ->]; [|apply target_entity_ok|done..].
  apply import_entity_twice in Er as [_ ->]; [|apply repo_entity_ok|done..].
  apply import_specs_twice in Es as [_ Es]; [|done..]. cbn [mbind result_bind]. by rewrite Es.
Qed.

(** ** Restoring *)

Lemma key_le_total a b : key_le a b = false -> key_le b a = true.
Proof.
  unfold key_le. destruct a, b; try done. rewrite negb_false_iff, negb_true_iff. unfold String.ltb.
  rewrite (String.compare_antisym s s0). by destruct (String.compare s0 s).
Qed.

Section Order.
Context {A : Type} (key : A -> cell).

Definition in_order (l : list A) : Prop := Sorted (fun a b => key_le a b = true) (key <$> l).

Lemma insert_by_head x l y l' : insert_by key x l = y :: l' -> y = x \/ exists l0, l = y :: l0.
Proof. destruct l as [|z l]; cbn; [intros [= <- _]; by left|]. destruct (key_le _ _); intros [= <- _]; [by left|right; eauto]. Qed.

Lemma insert_by_in_order x l : in_order l -> in_order (insert_by key x l).
Proof.
  unfold in_order. induction l as [|y l IH]; intros Hs; cbn; [by repeat constructor|].
  inversion Hs as [|? ? Hs' Hd]; subst. destruct (key_le (key x) (key y)) eqn:E; cbn.
  - constructor; [done|]. by constructor.
  - constructor; [by apply IH|]. apply key_le_total in E. destruct (insert_by key x l) as [|z l'] eqn:Ei; cbn; [constructor|].
    constructor. apply insert_by_head in Ei as [->|[l0 ->]]; [done|]. cbn in Hd. by inversion Hd.
Qed.

Lemma order_by_in_order l : in_order (order_by key l).
Proof. induction l as [|x l IH]; [constructor|]. by apply insert_by_in_order. Qed.

Lemma order_by_id l : in_order l -> order_by key l = l.
Proof.
  unfold in_order. induction l as [|x l IH]; intros Hs; [done|]. inversion Hs as [|? ? Hs' Hd]; subst.
  change (order_by key (x :: l)) with (insert_by key x (order_by key l)). rewrite IH by done. destruct l as [|y l]; [done|]. cbn. inversion Hd as [|? ? Hle]; subst. cbn in Hle. by rewrite Hle.
Qed.

Lemma order_by_perm l : order_by key l ≡ₚ l.
Proof.
  assert (forall x l, insert_by key x l ≡ₚ x :: l) as Hi.
  { intros x l0. induction l0 as [|y l0 IH]; [done|]. cbn. destruct (key_le _ _); [done|]. rewrite IH. apply Permutation_swap. }
  induction l as [|x l IH]; [done|]. change (order_by key (x :: l)) with (insert_by key x (order_by key l)). by rewrite Hi, IH.
Qed.
End Order.

Lemma pick_lookup fs cs f : pick fs cs !! f = if bool_decide (f ∈ fs) then Some (col cs f) else None.
Proof.
  unfold pick. induction fs as [|g fs IH]; cbn; [by rewrite bool_decide_false by set_solver|].
  destruct (decide (g = f)) as [->|Hne].
  - rewrite lookup_insert_eq. by rewrite bool_decide_true by set_solver.
  - rewrite lookup_insert_ne, IH by done. apply f_equal with (f := fun b : bool => if b then _ else _).
    apply bool_decide_ext. set_solver.
Qed.

Lemma pick_ext fs cs cs' : (forall f, f ∈ fs -> col cs f = col cs' f) -> pick fs cs = pick fs cs'.
Proof. intros Hf. apply map_eq. intros f. rewrite !pick_lookup. case_bool_decide; [|done]. f_equal. by apply Hf. Qed.

Lemma col_pick fs cs f : f ∈ fs -> col (pick fs cs) f = col cs f.
Proof. intros Hf. unfold col at 1. rewrite pick_lookup. by rewrite bool_decide_true. Qed.

(** A row made of a document that gives all its fields has their values. *)
Lemma made_col en row cs name f : entity_ok en -> en_key en ∈ all_fields en ->
  (forall g, g ∈ all_fields en -> row !! g = Some (col cs g)) -> col cs (en_key en) = CStr name ->
  f ∈ all_fields en -> col (set_fields en false row (new_cols en name row) ∪ en_defaults en) f = col cs f.
Proof.
  intros Hok Hkey Hrow Hname Hf. destruct (decide (f = en_key en)) as [->|Hne].
  - rewrite col_defaults by apply Hok. rewrite set_fields_key, new_cols_key by apply Hok. done.
  - unfold col at 1. erewrite lookup_union_Some_l; [reflexivity|]. rewrite set_fields_lookup, Hrow by done.
    unfold sets. rewrite bool_decide_true, bool_decide_false by done. done.
Qed.

Lemma fmap_Forall2 {A B C} (f : A -> C) (g : B -> C) l k : Forall2 (fun x y => g y = f x) l k -> g <$> k = f <$> l.
Proof. induction 1 as [|x y l k E _ IH]; [done|]. cbn. by rewrite E, IH. Qed.

(** The constraints of a table that are kept row by row. *)
Lemma violates_false en rows : NoDup (row_key en <$> rows) ->
  (forall r f, r ∈ rows -> f ∈ en_required en -> col (cr_cols r) f <> CNull) -> violates en rows = false.
Proof.
  intros Hk Hr. unfold violates. apply orb_false_iff. split.
  - apply existsb_false. intros r Hin. apply existsb_false. intros f Hf. specialize (Hr r f Hin Hf). by destruct (col _ f).
  - apply andb_false_iff. right. apply negb_false_iff, bool_decide_eq_true. revert Hk. clear.
    induction rows as [|r rows IH]; cbn; [constructor|]. intros [Hni Hk]%NoDup_cons. destruct (row_key en r) as [| | |s| |] eqn:E; try by apply IH.
    apply NoDup_cons. split; [|by apply IH]. intros (q & Hq & Eq)%list_elem_of_omap. apply Hni. apply list_elem_of_fmap. exists q.
    split; [|done]. destruct (row_key en q); try done. congruence.
Qed.

Lemma violates_required en rows r f : violates en rows = false -> r ∈ rows -> f ∈ en_required en -> col (cr_cols r) f <> CNull.
Proof.
  unfold violates. intros [Hv _]%orb_false_iff Hr Hf. pose proof (proj1 (existsb_false _ _) Hv r Hr) as H1.
  pose proof (proj1 (existsb_false _ _) H1 f Hf) as H2. cbn in H2. by destruct (col _ f).
Qed.

(** A name the import takes as it is. *)
Definition clean_key (c : cell) : Prop := exists s, c = CStr s /\ py_strip s = s /\ s <> "".
Definition text_of (c : cell) : string := match c with CStr s => s | _ => "" end.

Lemma key_text_clean cs k : clean_key (col cs k) -> key_text (Row cs) k = Ok (text_of (col cs k)).
Proof.
  intros (s & E & Hs & Hn). unfold key_text. rewrite E. cbn. unfold nonempty. rewrite bool_decide_false by done. cbn. by rewrite Hs.
Qed.

Lemma clean_text c : clean_key c -> text_of c <> "" /\ c = CStr (text_of c).
Proof. by intros (s & -> & _ & Hn). Qed.

Section Restore.
Context `{Rows}.

(** The columns of a row the import makes of a clean name. *)
Definition made (en : entity) (row : columns) : crow :=
  mkRow 0 (set_fields en false row (new_cols en (text_of (col row (en_key en))) row)).

Lemma news_put {A B} (key : A -> cell) (name : B -> string) (edit : B -> A -> A) (new : B -> A) l :
  news key ((fun x => Put (name x) (edit x) (new x)) <$> l) [] = new <$> l.
Proof. induction l as [|x l IH]; [done|]. cbn. by rewrite IH. Qed.

Lemma skips_put {A B} (name : B -> string) (edit : B -> A -> A) (new : B -> A) l :
  skips ((fun x => Put (name x) (edit x) (new x)) <$> l) = [].
Proof. unfold skips. induction l as [|x l IH]; [done|]. exact IH. Qed.

Lemma omap_clean {A} (f : A -> docrow) (g : A -> cell) k l :
  (forall x, x ∈ l -> clean_key (g x) /\ key_text (f x) k = Ok (text_of (g x))) -> NoDup (g <$> l) ->
  NoDup (omap (doc_name k) (f <$> l)).
Proof.
  induction l as [|x l IH]; intros Hl; [constructor|]. cbn. intros [Hni Hnd]%NoDup_cons.
  destruct (Hl x ltac:(left)) as [[Hne Ex]%clean_text Ek]. unfold doc_name at 1. rewrite Ek, bool_decide_false by done.
  apply NoDup_cons. split; [|apply IH; [|done]; intros y Hy; apply Hl; by right].
  intros (d & (y & -> & Hy)%list_elem_of_fmap & Ed)%list_elem_of_omap. unfold doc_name in Ed.
  destruct (Hl y ltac:(by right)) as [[Hney Ey]%clean_text Eky]. rewrite Eky, bool_decide_false in Ed by done.
  apply Hni, list_elem_of_fmap. exists y. split; [|done]. rewrite Ex, Ey. congruence.
Qed.

Lemma zip_made {A B} (R : A -> B -> Prop) (born : Z -> B -> B) (new : A -> B) ids l :
  length ids = length (new <$> l) -> (forall x i, x ∈ l -> R x (born i (new x))) -> Forall2 R l (zip_with born ids (new <$> l)).
Proof.
  revert l. induction ids as [|i ids IH]; intros [|x l] E Hr; [constructor|done|done|]. cbn. constructor; [apply Hr; left|].
  apply IH; [by injection E|]. intros y j Hy. apply Hr. by right.
Qed.

(** The loop over rows of clean, different names, on an empty table. *)
Lemma import_clean {A B} (key : A -> cell) id_of born k decide_row (doc : B -> docrow) (g : B -> cell)
    (edit : B -> A -> A) (new : B -> A) l : body_ok key id_of born k decide_row ->
  (forall x, x ∈ l -> clean_key (g x) /\ key_text (doc x) k = Ok (text_of (g x)) /\
     decide_row (doc x) = Ok (Put (text_of (g x)) (edit x) (new x))) -> NoDup (g <$> l) ->
  import_rows key id_of decide_row (doc <$> l) [] = Ok (mkStage [] (new <$> l), (Z.of_nat (length l), [])).
Proof.
  intros Hbody Hl Hnd. set (put := fun x => Put (text_of (g x)) (edit x) (new x)).
  apply (import_rows_spec _ _ _ _ _ _ _ _ Hbody).
  - split; constructor.
  - apply (omap_clean doc g); [|done]. intros x Hx. by destruct (Hl x Hx) as (? & ? & _).
  - exists (put <$> l). split; [|split; [|split]].
    + apply Forall2_fmap_2, Forall_Forall2_diag, Forall_forall. intros x Hx. by apply Hl.
    + apply Forall_fmap, Forall_forall. intros x Hx. destruct Hbody as (_ & _ & Hb). by apply (Hb (doc x) (put x)), Hl.
    + assert (omap plan_name (put <$> l) = (fun x => text_of (g x)) <$> l) as ->.
      { clear. induction l as [|x l IH]; [done|]. cbn. by rewrite IH. }
      eapply (NoDup_fmap_2_strong (fun x => text_of (g x))); [|by eapply NoDup_fmap_1].
      intros x y Hx Hy E. apply (nodup_inj g l); try done.
      rewrite (proj2 (clean_text _ (proj1 (Hl x Hx)))), (proj2 (clean_text _ (proj1 (Hl y Hy)))). congruence.
    + unfold put. by rewrite news_put, skips_put, length_fmap.
Qed.

(** A section restored onto an empty table. *)
Lemma restore_entity en rows : entity_ok en -> en_key en ∈ all_fields en -> en_required en ⊆ all_fields en ->
  tidy (row_key en) cr_id rows -> (forall r, r ∈ rows -> clean_key (row_key en r)) -> violates en rows = false ->
  exists rows2 n, import_entity en false (export_entity en true rows) [] = Ok (rows2, (n, [])) /\
    tidy (row_key en) cr_id rows2 /\ row_key en <$> rows2 = row_key en <$> order_by (row_key en) rows /\
    export_entity en true rows2 = export_entity en true rows.
Proof.
  intros Hok Hkey Hreq [_ Hk] Hclean Hv. set (sorted := order_by (row_key en) rows).
  assert (forall r, r ∈ sorted -> r ∈ rows) as Hin by (intros r; unfold sorted; by rewrite order_by_perm).
  assert (NoDup (row_key en <$> sorted)) as Hks by (unfold sorted; by rewrite order_by_perm).
  assert (forall r, col (export_row en true r) (en_key en) = row_key en r) as Hrk by (intros r; by apply col_pick).
  set (doc := fun r => Row (export_row en true r)).
  pose proof (import_clean (row_key en) cr_id (born_row en) (en_key en) (plan_row en false) doc (row_key en)
    (fun r => set_cols (set_fields en false (export_row en true r))) (fun r => made en (export_row en true r)) sorted
    (plan_row_ok en false Hok)) as Ei.
  specialize (Ei ltac:(intros r Hr; pose proof (Hclean r (Hin r Hr)) as Hc; split; [done|];
    assert (key_text (doc r) (en_key en) = Ok (text_of (row_key en r))) as Et
      by (unfold doc; rewrite key_text_clean by (by rewrite Hrk); by rewrite Hrk);
    split; [done|]; unfold plan_row; rewrite Et; cbn [mbind result_bind];
    rewrite bool_decide_false by (by apply clean_text); unfold made; cbn [doc_cols doc]; by rewrite Hrk) Hks).
  destruct (flushed_rows_spec cr_id (born_row en) ltac:(done) [] ((fun r => made en (export_row en true r)) <$> sorted)
              ltac:(constructor)) as (ids & Ef & El & Hnd). cbn [app] in Ef, Hnd.
  set (rows2 := zip_with (born_row en) ids ((fun r => made en (export_row en true r)) <$> sorted)) in *.
  assert (Forall2 (fun r r2 => forall f, f ∈ all_fields en -> col (cr_cols r2) f = col (cr_cols r) f) sorted rows2) as Hf.
  { apply zip_made; [done|]. intros r i Hr f Hfl. unfold born_row, made. cbn [cr_cols].
    rewrite Hrk. apply (made_col en _ (cr_cols r)); try done.
    - intros g Hg. unfold export_row. rewrite pick_lookup. by rewrite bool_decide_true.
    - by apply clean_text, Hclean, Hin. }
  assert (row_key en <$> rows2 = row_key en <$> sorted) as Ek2.
  { apply fmap_Forall2. eapply Forall2_impl; [exact Hf|]. intros r r2 Hr. unfold row_key. by apply Hr. }
  exists rows2, (Z.of_nat (length sorted)). split_and!.
  - unfold import_entity, export_entity. fold doc sorted. rewrite Ei. cbn [mbind result_bind]. rewrite Ef.
    rewrite violates_false; [done|by rewrite Ek2|]. intros r2 f [i Hi]%list_elem_of_lookup Hfl.
    destruct (Forall2_lookup_r _ _ _ _ _ Hf Hi) as (r & Hr & Hcol). rewrite Hcol by (by apply Hreq).
    eapply violates_required; [done|apply Hin; by eapply list_elem_of_lookup_2|done].
  - split; [done|by rewrite Ek2].
  - done.
  - unfold export_entity. rewrite (order_by_id (row_key en) rows2).
    + apply fmap_Forall2. eapply Forall2_impl; [exact Hf|]. intros r r2 Hr. unfold export_row. f_equal. by apply pick_ext.
    + unfold in_order. rewrite Ek2. apply order_by_in_order.
Qed.

(** *** Specs *)

(** The target and the pack of a spec, by name; [packs2] are the packs of the
    instance it is restored on. *)
Definition refers (db : config_db) (packs2 : list (Z * string)) (s : srow) : Prop :=
  (exists t, t ∈ db_targets db /\ sr_target_id s = Some (cr_id t)) /\
  (exists id name, sr_pack_id s = Some id /\ (id, name) ∈ db_packs db /\ name <> "" /\ name ∈ packs2.*2).

Lemma name_of_id_row (rows : list (Z * cell)) id c : NoDup rows.*1 -> (id, c) ∈ rows -> name_of_id rows (Some id) = c.
Proof.
  intros Hn Hin. unfold name_of_id. destruct (List.find _ _) as [[i d]|] eqn:E.
  - apply find_spec in E as [Hd Ei%Z.eqb_eq]. cbn in Ei |- *. subst i. assert ((id, d) = (id, c)) as [= ->]; [|done].
    by apply (nodup_inj fst rows).
  - pose proof (find_none_spec _ _ E _ Hin) as Hf. cbn in Hf. by rewrite Z.eqb_refl in Hf.
Qed.

Lemma targets_named (rows : list crow) :
  ((fun r => (cr_id r, col (cr_cols r) "name")) <$> rows).*1 = cr_id <$> rows.
Proof. by rewrite <- list_fmap_compose. Qed.

(** The name a spec's target has is found again, and read back by its id. *)
Lemma target_found targets2 name : tidy (row_key target_entity) cr_id targets2 ->
  CStr name ∈ row_key target_entity <$> targets2 ->
  exists id, target_by_name (CStr name) targets2 = Some id /\
    name_of_id ((fun r => (cr_id r, col (cr_cols r) "name")) <$> targets2) (Some id) = CStr name.
Proof.
  intros [Hi _] Hin. unfold target_by_name. destruct (List.find _ _) as [t|] eqn:E.
  - apply find_spec in E as [Ht Hk%named_iff]. exists (cr_id t). split; [done|].
    apply name_of_id_row; [by rewrite targets_named|]. apply list_elem_of_fmap. exists t. split; [|done].
    unfold row_key in Hk. cbn [en_key target_entity] in Hk. by rewrite Hk.
  - by apply find_named_none in E.
Qed.

Lemma pack_found packs2 name : NoDup packs2.*1 -> name ∈ packs2.*2 ->
  exists id, pack_by_name (CStr name) packs2 = Some id /\
    name_of_id ((fun p => (p.1, CStr p.2)) <$> packs2) (Some id) = CStr name.
Proof.
  intros Hi (p & -> & Hp)%list_elem_of_fmap. unfold pack_by_name. destruct (List.find _ _) as [q|] eqn:E.
  - apply find_spec in E as [Hq Eq%bool_decide_eq_true]. exists q.1. split; [done|].
    apply name_of_id_row; [by rewrite <- list_fmap_compose|]. apply list_elem_of_fmap. exists q. by rewrite Eq.
  - pose proof (find_none_spec _ _ E p Hp) as Hf. cbn in Hf. by apply bool_decide_eq_false in Hf.
Qed.

Lemma export_spec_field db s f : f ∈ SPEC_FIELDS -> export_spec db s !! f = Some (col (cr_cols (sr_row s)) f).
Proof.
  intros Hf. unfold export_spec, export_row. rewrite !lookup_insert_ne by (intros <-; unfold SPEC_FIELDS in Hf; set_solver).
  rewrite pick_lookup. by rewrite bool_decide_true.
Qed.

Lemma export_spec_target db s : doc_col (Row (export_spec db s)) "target"
  = name_of_id ((fun r => (cr_id r, col (cr_cols r) "name")) <$> db_targets db) (sr_target_id s).
Proof. unfold doc_col, col at 1, export_spec. by rewrite lookup_insert_eq. Qed.

Lemma export_spec_pack db s : doc_col (Row (export_spec db s)) "pack"
  = name_of_id ((fun p => (p.1, CStr p.2)) <$> db_packs db) (sr_pack_id s).
Proof. unfold doc_col, col, export_spec. rewrite lookup_insert_ne by done. by rewrite lookup_insert_eq. Qed.

Section Specs.
Context (db : config_db) (targets2 repos2 : list crow) (packs2 : list (Z * string)).
Context (targets_tidy : tidy (row_key target_entity) cr_id targets2).
Context (target_ids : NoDup (cr_id <$> db_targets db)) (pack_ids : NoDup (db_packs db).*1) (pack2_ids : NoDup packs2.*1).
Context (same_names : forall c, c ∈ row_key target_entity <$> db_targets db -> c ∈ row_key target_entity <$> targets2).
Context (target_names : forall t, t ∈ db_targets db -> clean_key (row_key target_entity t)).

Definition spec_doc (s : srow) : docrow := Row (export_spec db s).
Definition target2 (s : srow) : option Z := target_by_name (doc_col (spec_doc s) "target") targets2.
Definition pack2 (s : srow) : option Z := pack_by_name (doc_col (spec_doc s) "pack") packs2.

(** The references of a spec are found, and read back. *)
Lemma references_found s : refers db packs2 s ->
  (cell_truthy (doc_col (spec_doc s) "target") = true /\ target2 s <> None /\
   name_of_id ((fun r => (cr_id r, col (cr_cols r) "name")) <$> targets2) (target2 s) = doc_col (spec_doc s) "target") /\
  (cell_truthy (doc_col (spec_doc s) "pack") = true /\ pack2 s <> None /\
   name_of_id ((fun p => (p.1, CStr p.2)) <$> packs2) (pack2 s) = doc_col (spec_doc s) "pack").
Proof.
  intros [(t & Ht & Et) (id & name & Ep & Hp & Hne & Hin)]. unfold target2, pack2, spec_doc.
  rewrite export_spec_target, export_spec_pack, Et, Ep. destruct (target_names t Ht) as (tn & Etn & _ & Htn).
  assert (name_of_id ((fun r => (cr_id r, col (cr_cols r) "name")) <$> db_targets db) (Some (cr_id t)) = CStr tn) as ->.
  { apply name_of_id_row; [by rewrite targets_named|]. apply list_elem_of_fmap. exists t. split; [|done]. by rewrite <- Etn. }
  assert (name_of_id ((fun p => (p.1, CStr p.2)) <$> db_packs db) (Some id) = CStr name) as ->.
  { apply name_of_id_row; [by rewrite <- list_fmap_compose|]. apply list_elem_of_fmap. by exists (id, name). }
  destruct (target_found targets2 tn targets_tidy) as (i & -> & Hi).
  { apply same_names. rewrite <- Etn. by apply list_elem_of_fmap_2. }
  destruct (pack_found packs2 name pack2_ids Hin) as (j & -> & Hj).
  cbn [cell_truthy]. unfold nonempty. rewrite !bool_decide_false by done. by split_and!.
Qed.

Definition new_spec (s : srow) : srow :=
  assign (target2 s) (pack2 s) (export_spec db s)
    (mkSpecRow (mkRow 0 {[ "name" := CStr (text_of (spec_key s)) ]}) (target2 s) (pack2 s)).

Lemma name_field : "name" ∈ SPEC_FIELDS.
Proof. by left. Qed.

Lemma spec_doc_key s : col (export_spec db s) "name" = spec_key s.
Proof. unfold col at 1. by rewrite (export_spec_field db s "name" name_field). Qed.

Lemma plan_spec_put s : clean_key (spec_key s) -> refers db packs2 s ->
  key_text (spec_doc s) "name" = Ok (text_of (spec_key s)) /\
  plan_spec targets2 packs2 (spec_doc s) = Ok (Put (text_of (spec_key s)) (assign (target2 s) (pack2 s) (export_spec db s)) (new_spec s)).
Proof.
  intros Hc Hr. assert (key_text (spec_doc s) "name" = Ok (text_of (spec_key s))) as Ek.
  { unfold spec_doc. rewrite key_text_clean by (by rewrite spec_doc_key). by rewrite spec_doc_key. }
  split; [done|]. unfold plan_spec. rewrite Ek. cbn [mbind result_bind]. rewrite bool_decide_false by (by apply clean_text).
  destruct (references_found s Hr) as [(T1 & T2 & _) (P1 & P2 & _)]. rewrite T1, P1.
  fold (target2 s) (pack2 s). rewrite !bool_decide_false by done. done.
Qed.

Lemma restore_specs : tidy spec_key spec_id (db_specs db) ->
  (forall s, s ∈ db_specs db -> clean_key (spec_key s) /\ refers db packs2 s) -> spec_violates (db_specs db) = false ->
  exists specs2 n, import_specs targets2 packs2 (spec_doc <$> order_by spec_key (db_specs db)) [] = Ok (specs2, (n, [])) /\
    (fun s => Row (export_spec (mkDb targets2 repos2 packs2 specs2) s)) <$> order_by spec_key specs2
    = spec_doc <$> order_by spec_key (db_specs db).
Proof.
  intros [_ Hk] Hs Hv. set (sorted := order_by spec_key (db_specs db)).
  assert (forall s, s ∈ sorted -> s ∈ db_specs db) as Hin by (intros s; unfold sorted; by rewrite order_by_perm).
  assert (NoDup (spec_key <$> sorted)) as Hks by (unfold sorted; by rewrite order_by_perm).
  assert (import_rows spec_key spec_id (plan_spec targets2 packs2) (spec_doc <$> sorted) []
          = Ok (mkStage [] (new_spec <$> sorted), (Z.of_nat (length sorted), []))) as Ei.
  { apply (import_clean _ _ _ _ _ _ spec_key (fun s => assign (target2 s) (pack2 s) (export_spec db s)) _ _ (plan_spec_ok targets2 packs2)); [|done].
    intros s Hin'%Hin. destruct (Hs s Hin') as [Hc Hr]. split; [done|]. by apply plan_spec_put. }
  destruct (flushed_rows_spec spec_id born_spec ltac:(done) [] (new_spec <$> sorted) ltac:(constructor)) as (ids & Ef & El & Hnd).
  cbn [app] in Ef, Hnd. set (specs2 := zip_with born_spec ids (new_spec <$> sorted)) in *.
  assert (Forall2 (fun s s2 => s ∈ sorted /\ sr_target_id s2 = target2 s /\ sr_pack_id s2 = pack2 s /\
            forall f, f ∈ SPEC_FIELDS -> col (cr_cols (sr_row s2)) f = col (cr_cols (sr_row s)) f) sorted specs2) as Hf.
  { apply zip_made; [done|]. intros s i Hi. split; [done|]. split; [done|]. split; [done|]. intros f Hfl.
    apply (made_col spec_entity (export_spec db s) (cr_cols (sr_row s)) (text_of (spec_key s))); [by split|by left| |
      apply clean_text, Hs, Hin, Hi|done]. intros g Hg. by apply export_spec_field. }
  assert (spec_key <$> specs2 = spec_key <$> sorted) as Ek2.
  { apply fmap_Forall2. eapply Forall2_impl; [exact Hf|]. intros s s2 (_ & _ & _ & Hcol). apply Hcol, name_field. }
  exists specs2, (Z.of_nat (length sorted)). split.
  - unfold import_specs. rewrite Ei. cbn [mbind result_bind]. rewrite Ef.
    assert (spec_violates specs2 = false) as ->; [|done]. apply orb_false_iff. split.
    + apply violates_false; [rewrite <- list_fmap_compose; change (NoDup (spec_key <$> specs2)); by rewrite Ek2|].
      intros r f (s2 & -> & Hs2)%list_elem_of_fmap Hfl. apply list_elem_of_lookup in Hs2 as [i Hi].
      destruct (Forall2_lookup_r _ _ _ _ _ Hf Hi) as (s & _ & Hsi & _ & _ & Hcol).
      assert (f ∈ SPEC_FIELDS) as Hfs by (unfold SPEC_FIELDS; cbn in Hfl; set_solver). rewrite Hcol by done.
      apply orb_false_iff in Hv as [Hv _]. eapply violates_required; [done| |done].
      by apply list_elem_of_fmap_2, Hin.
    + apply existsb_false. intros s2 [i Hi]%list_elem_of_lookup.
      destruct (Forall2_lookup_r _ _ _ _ _ Hf Hi) as (s & _ & Hsi & -> & -> & _).
      destruct (references_found s) as [(_ & ? & _) (_ & ? & _)]; [by apply Hs, Hin|]. by rewrite !bool_decide_false.
  - rewrite (order_by_id spec_key specs2) by (unfold in_order; rewrite Ek2; apply order_by_in_order).
    apply fmap_Forall2. eapply Forall2_impl; [exact Hf|].
    intros s s2 (Hi & Et & Ep & Hcol). unfold spec_doc. f_equal. unfold export_spec at 1. cbn [db_targets db_packs].
    destruct (references_found s) as [(_ & _ & RT) (_ & _ & RP)]; [by apply Hs, Hin|].
    rewrite Et, Ep, RT, RP. unfold spec_doc. rewrite export_spec_target, export_spec_pack. unfold export_spec.
    do 2 f_equal. unfold export_row. by apply pick_ext.
Qed.
End Specs.
End Restore.

(** What an instance whose specs are complete looks like; its tables satisfy their own
    constraints, and no spec merges further packs, which the document names by id. *)
Record exportable (packs2 : list (Z * string)) (db : config_db) : Prop := mkExportable {
  ex_tidy : tidy_db db;
  ex_packs : NoDup (db_packs db).*1;
  ex_targets : forall r, r ∈ db_targets db -> clean_key (row_key target_entity r);
  ex_repos : forall r, r ∈ db_repos db -> clean_key (row_key repo_entity r);
  ex_specs : forall s, s ∈ db_specs db -> clean_key (spec_key s) /\ refers db packs2 s;
  ex_single s : s ∈ db_specs db -> cell_truthy (col (cr_cols (sr_row s)) "extra_pack_ids_json") = false;
  ex_target_rows : violates target_entity (db_targets db) = false;
  ex_repo_rows : violates repo_entity (db_repos db) = false;
  ex_spec_rows : spec_violates (db_specs db) = false;
}.

(** The restore, as the shared copy uses it too. *)
Lemma restore_ok `{Rows} key packs2 db : exportable packs2 db -> NoDup packs2.*1 ->
  exists db2 r, import_config key (export_config key true db) (mkDb [] [] packs2 []) = Ok (db2, r) /\
    ir_skipped r = [] /\ ir_warning r = false /\ export_config key true db2 = export_config key true db.
Proof.
  intros [[T1 T2 T3] Hp Ht Hr Hs _ V1 V2 V3] Hp2. unfold import_config. cbn [cd_fingerprint export_config cd_targets cd_repos cd_specs].
  assert (foreign_key key key = false) as ->.
  { destruct key as [k|]; [|done]. cbn. rewrite bool_decide_true by done. by rewrite andb_false_r. }
  destruct (restore_entity target_entity (db_targets db)) as (targets2 & nt & E1 & Ty & Ek & X1);
    [by split|by left|unfold all_fields; cbn; set_solver|done..|]. cbn [db_targets]. rewrite E1. cbn [mbind result_bind].
  destruct (restore_entity repo_entity (db_repos db)) as (repos2 & nr & E2 & _ & _ & X2);
    [by split|by left|unfold all_fields; cbn; set_solver|done..|]. cbn [db_repos]. rewrite E2. cbn [mbind result_bind].
  destruct (restore_specs db targets2 repos2 packs2) as (specs2 & ns & E3 & X3); try done; [apply T1| |].
  { intros c Hc. rewrite Ek. by rewrite order_by_perm. }
  change (import_specs targets2 packs2 (spec_doc db <$> order_by spec_key (db_specs db)) [] = Ok (specs2, (ns, []))) in E3.
  cbn [db_packs db_specs]. unfold spec_doc, spec_key in E3. rewrite E3. cbn [mbind result_bind].
  eexists _, _. split; [reflexivity|]. split; [done|]. split; [done|]. unfold export_config. cbn [db_targets db_repos db_specs].
  rewrite X1, X2. f_equal. exact X3.
Qed.

(** a configuration survives the loss of its instance.  The export of an instance
    without merged specs, whose names are unique and stripped, imported into one that
    has the packs its specs name and nothing else, under the same master key,
    is applied in full, with no row skipped; and the new instance, whatever
    ids it gives its rows, exports the same document. *)
Theorem restore_roundtrip `{Rows} key packs2 db : exportable packs2 db -> NoDup packs2.*1 ->
  exists db2 r, import_config key (export_config key true db) (mkDb [] [] packs2 []) = Ok (db2, r) /\
    ir_skipped r = [] /\ ir_warning r = false /\ export_config key true db2 = export_config key true db.
Proof. apply restore_ok. Qed.

(** ** Examples *)

Section Witnesses.

Definition lab : crow :=
  mkRow 4 (<[ "name" := CStr "lab" ]> (<[ "hec_url" := CStr "https://hec:8088" ]> (en_defaults target_entity))).
Definition packs_repo : crow := mkRow 9 (<[ "url" := CStr "https://git/packs" ]> (en_defaults repo_entity)).
Definition spec_cols (name : string) (rate : Q) (extra : cell) : columns :=
  <[ "name" := CStr name ]> (<[ "rate_value" := CNum rate ]> (<[ "extra_pack_ids_json" := extra ]> (en_defaults spec_entity))).
Definition nightly (extra : cell) : srow := mkSpecRow (mkRow 2 (spec_cols "nightly" 50 extra)) (Some 4) (Some 5).

Definition old_db (extra : cell) : config_db := mkDb [lab] [packs_repo] [(5, "web"); (7, "auth")] [nightly extra].
Definition fresh_packs : list (Z * string) := [(1, "auth"); (2, "web"); (7, "noise")].

Lemma old_db_exportable : exportable fresh_packs (old_db CNull).
Proof.
  split; cbn [old_db db_targets db_repos db_specs db_packs].
  - split; cbn [old_db db_targets db_repos db_specs]; split; apply NoDup_singleton.
  - apply NoDup_cons. split; [set_solver|apply NoDup_singleton].
  - intros r ->%list_elem_of_singleton. exists "lab". by vm_compute.
  - intros r ->%list_elem_of_singleton. exists "https://git/packs". by vm_compute.
  - intros s ->%list_elem_of_singleton. split; [exists "nightly"; by vm_compute|]. split; [exists lab; split; [left|done]|].
    exists 5, "web". split; [done|]. split; [left|]. split; [done|]. cbn. set_solver.
  - by intros s ->%list_elem_of_singleton.
  - vm_compute. done.
  - vm_compute. done.
  - vm_compute. done.
Qed.

Lemma fresh_packs_ids : NoDup fresh_packs.*1.
Proof. cbn. repeat (apply NoDup_cons; split; [set_solver|]). constructor. Qed.

Lemma restore_roundtrip_witness :
  exists db2 r, import_config (Some "abcd1234") (export_config (Some "abcd1234") true (old_db CNull)) (mkDb [] [] fresh_packs []) = Ok (db2, r) /\
    ir_skipped r = [] /\ ir_warning r = false /\
    export_config (Some "abcd1234") true db2 = export_config (Some "abcd1234") true (old_db CNull).
Proof. apply (restore_roundtrip (Some "abcd1234") fresh_packs (old_db CNull) old_db_exportable fresh_packs_ids). Defined.

Definition old_doc : config_doc := export_config None true (old_db CNull).

Lemma import_idempotent_witness :
  exists db1 r, import_config None old_doc (mkDb [] [] fresh_packs []) = Ok (db1, r) /\
    import_config None old_doc db1 = Ok (db1, mkImportReport 0 0 0 (ir_skipped r) (ir_warning r)).
Proof.
  destruct (import_config None old_doc (mkDb [] [] fresh_packs [])) as [[db1 r]|] eqn:E; [|vm_compute in E; discriminate].
  exists db1, r. split; [done|]. apply (import_idempotent None old_doc (mkDb [] [] fresh_packs [])); [| |done].
  - split; split; constructor.
  - split; apply (bool_decide_eq_true_1 _); vm_compute; reflexivity.
Defined.

(** The extra packs of a merged spec travel by id: on the instance above, pack 7 was
    "auth"; where the spec is restored it is "noise". *)
Definition extra_names (db : config_db) (s : srow) : list cell :=
  match col (cr_cols (sr_row s)) "extra_pack_ids_json" with
  | CList ids => (fun c => match c with CNum q => name_of_id ((fun p => (p.1, CStr p.2)) <$> db_packs db) (Some (Qnum q)) | _ => CNull end) <$> ids
  | _ => []
  end.

Example merged_packs_travel_by_id :
  let db := old_db (CList [CNum 7]) in
  match import_config None (export_config None true db) (mkDb [] [] fresh_packs []) with
  | Ok (db2, r) =>
      ir_skipped r = [] /\ (extra_names db <$> db_specs db) = [[CStr "auth"]] /\ (extra_names db2 <$> db_specs db2) = [[CStr "noise"]]
  | Raise _ => False
  end.
Proof. vm_compute. by split_and!. Qed.

(** Two specs of one name are both restored, but a second import writes both of them to
    the first: it is not idempotent there. *)
Example shared_name_not_idempotent :
  let twin := mkSpecRow (mkRow 3 (spec_cols "nightly" 80 CNull)) (Some 4) (Some 5) in
  let db := mkDb [lab] [packs_repo] [(5, "web")] [nightly CNull; twin] in
  let doc := export_config None true db in
  let rates db := (fun s => col (cr_cols (sr_row s)) "rate_value") <$> db_specs db in
  match import_config None doc (mkDb [] [] [(5, "web")] []) with
  | Ok (db1, _) =>
      match import_config None doc db1 with
      | Ok (db2, _) => rates db1 = [CNum 50; CNum 80] /\ rates db2 = [CNum 80; CNum 80]
      | Raise _ => False
      end
  | Raise _ => False
  end.
Proof. vm_compute. by split. Qed.

(** A spec without a pack is not skipped: its row violates a constraint, and nothing of
    the document is restored. *)
Example spec_without_pack_fails :
  let spec := Row {[ "name" := CStr "adhoc"; "target" := CStr "lab" ]} in
  let doc := mkDoc true None (export_entity target_entity true [lab]) [] [spec] in
  import_config None doc (mkDb [] [] fresh_packs []) = Raise IntegrityError.
Proof. vm_compute. reflexivity. Qed.
End Witnesses.
