(* ===== verification/ConfigSource.v ===== *)
(** * The shared copy of the configuration (server/configsource.py)

    Instances share one document: each pulls it (an import) and, where writes are
    on, pushes its own configuration whenever that differs from the copy it last
    saw.  A row that a pull could not apply is carried: it is part of every
    document pushed from here until this instance has a row of that name.

    The store is an argument ([fetched] is what reading it gives, [stored] whether
    a write succeeds); the digest of a document is a hash of its sorted form.
    The instants and counts kept for the page are left out.

    The theorems: no name of the shared copy is lost by a pull and the pushes after
    it; a push settles; and a restored instance does not push. *)

From S2P Require Import Prelude.
From S2P Require Import PyFloat.
From S2P Require Import PyValue.
From S2P Require Import Auth.
From S2P Require Import Accounts.
From S2P Require Import ConfigIo.
From Stdlib Require Import QArith Ascii.
Open Scope Z_scope.

(** [_SECTIONS] *)
Inductive section : Type := Targets | Repos | Specs.

Global Instance section_eq_dec : EqDecision section.
Proof. solve_decision. Defined.

Definition SECTIONS : list section := [Targets; Repos; Specs].
Definition key_name (s : section) : string := match s with Repos => "url" | _ => "name" end.

Definition doc_rows (s : section) (doc : config_doc) : list docrow :=
  match s with Targets => cd_targets doc | Repos => cd_repos doc | Specs => cd_specs doc end.

Definition map_rows (f : section -> list docrow -> list docrow) (doc : config_doc) : config_doc :=
  mkDoc (cd_includes_secrets doc) (cd_fingerprint doc) (f Targets (cd_targets doc)) (f Repos (cd_repos doc)) (f Specs (cd_specs doc)).

(** The values of the key column of a section. *)
Definition db_keys (s : section) (db : config_db) : list cell :=
  match s with
  | Targets => row_key target_entity <$> db_targets db
  | Repos => row_key repo_entity <$> db_repos db
  | Specs => spec_key <$> db_specs db
  end.

(** A dict from names to rows, in the order of insertion. *)
Abbreviation rows_by_name := (list (string * docrow)).

Fixpoint put_row (name : string) (r : docrow) (m : rows_by_name) : rows_by_name :=
  match m with
  | [] => [(name, r)]
  | (n, x) :: m => if bool_decide (n = name) then (n, r) :: m else (n, x) :: put_row name r m
  end.

Record source_state : Type := mkSource {
  ss_synced : option string;
  ss_carried : section -> rows_by_name;
}.

(** Nothing there yet, a store that cannot be read, a text that is no usable document, or
    the document. *)
Inductive fetched : Type := Missing | Unreadable | BadDocument | Found (doc : config_doc).

Section Source.
Context `{Rows} (hash : config_doc -> string) (key : option string).

(** The rows in the order of their names. *)
Definition digest (doc : config_doc) : string :=
  hash (map_rows (fun s => order_by (fun r => doc_col r (key_name s))) doc).

(** ** Pull *)

(** [(row.get(key) or "").strip() if isinstance(row, dict) else ""] *)
Definition row_name (s : section) (r : docrow) : result string :=
  match r with NotADict => Ok "" | Row _ => key_text r (key_name s) end.

Definition carry_row (db : config_db) (s : section) (r : docrow) (m : rows_by_name) : result rows_by_name :=
  name ← row_name s r;
  Ok (if nonempty name && negb (bool_decide (name ∈ omap (fun c => match c with CStr x => Some x | _ => None end) (db_keys s db)))
      then put_row name r m else m).

Definition carry (db : config_db) (doc : config_doc) (s : section) : result rows_by_name :=
  fold_result (carry_row db s) (doc_rows s doc) [].

(** The new rows and state; [None] for a source that holds no document. *)
Definition pull (f : fetched) (db : config_db) (st : source_state) : result (option (config_db * import_report * source_state)) :=
  match f with
  | Missing => Ok None
  | Unreadable | BadDocument => Raise (ValueError "config source")
  | Found doc =>
      out ← import_config key doc db;
      let '(db, report) := out : config_db * import_report in
      t ← carry db doc Targets;
      r ← carry db doc Repos;
      s ← carry db doc Specs;
      Ok (Some (db, report,
                mkSource (Some (digest doc)) (fun sec => match sec with Targets => t | Repos => r | Specs => s end)))
  end.

(** ** Push *)

(** Whether this instance's export has a row of that name. *)
Definition present (doc : config_doc) (s : section) (name : string) : bool :=
  existsb (fun r => match doc_col r (key_name s) with CStr x => bool_decide (x = name) | _ => false end) (doc_rows s doc).

Definition kept (doc : config_doc) (st : source_state) (s : section) : rows_by_name :=
  List.filter (fun nr => negb (present doc s nr.1)) (ss_carried st s).

(** This instance's configuration and what it carries; the rows it has by now are
    carried no longer. *)
Definition document (db : config_db) (st : source_state) : config_doc * source_state :=
  let doc := export_config key true db in
  (map_rows (fun s rows => rows ++ (kept doc st s).*2) doc, mkSource (ss_synced st) (kept doc st)).

(** The document written, if the store took it. *)
Definition push (stored : bool) (db : config_db) (st : source_state) : source_state * result config_doc :=
  let '(doc, st) := document db st in
  if stored then (mkSource (Some (digest doc)) (ss_carried st), Ok doc) else (st, Raise (ValueError "config source")).

(** [None]: nothing was pushed. *)
Definition maybe_push (writes_enabled configured stored : bool) (db : config_db) (st : source_state)
    : source_state * result (option config_doc) :=
  if negb writes_enabled then (st, Ok None)
  else if negb configured then (st, Ok None)
  else
    let '(doc, st) := document db st in
    if bool_decide (ss_synced st = Some (digest doc)) then (st, Ok None)
    else match push stored db st with
         | (st, Ok doc) => (st, Ok (Some doc))
         | (st, Raise e) => (st, Raise e)
         end.
End Source.

(** ** What is carried stays *)

Section Carried.
Context `{Rows} (hash : config_doc -> string) (key : option string).

(** A row of that name is in a section. *)
Definition has_name (s : section) (name : string) (rows : list docrow) : Prop :=
  exists r, r ∈ rows /\ row_name s r = Ok name.

(** What is carried is carried under its own name. *)
Definition carried_ok (st : source_state) : Prop :=
  forall s name r, (name, r) ∈ ss_carried st s -> row_name s r = Ok name /\ name <> "".

Lemma doc_rows_map f doc s : doc_rows s (map_rows f doc) = f s (doc_rows s doc).
Proof. by destruct s. Qed.

Lemma kept_sub doc st s nr : nr ∈ kept doc st s <-> nr ∈ ss_carried st s /\ present doc s nr.1 = false.
Proof. unfold kept. rewrite !list_elem_of_In, filter_In, negb_true_iff. done. Qed.

Lemma put_row_elem name r m x : x ∈ put_row name r m -> x = (name, r) \/ x ∈ m.
Proof.
  induction m as [|[n y] m IH]; cbn; [rewrite list_elem_of_singleton; auto|].
  case_bool_decide as E; [subst n; rewrite !elem_of_cons; naive_solver|]. rewrite !elem_of_cons. naive_solver.
Qed.

Lemma put_row_names name r m n : n ∈ (put_row name r m).*1 <-> n = name \/ n ∈ m.*1.
Proof.
  induction m as [|[k y] m IH]; cbn; [set_solver|]. case_bool_decide as E; cbn.
  - subst k. set_solver.
  - rewrite !elem_of_cons, IH. naive_solver.
Qed.

(** The text of a key is already stripped. *)
Lemma row_name_stripped s r name : row_name s r = Ok name -> py_strip name = name.
Proof.
  unfold row_name, key_text. destruct r as [cs|]; [|by intros [= <-]]. destruct (cell_truthy _); [|by intros [= <-]].
  destruct (col cs (key_name s)); try done. intros [= <-]. apply py_strip_idem.
Qed.

Definition db_has (s : section) (db : config_db) (name : string) : Prop := CStr name ∈ db_keys s db.

Lemma carry_row_spec db s r m m' : carry_row db s r m = Ok m' ->
  exists name, row_name s r = Ok name /\
    ((name = "" \/ db_has s db name) /\ m' = m \/ name <> "" /\ m' = put_row name r m).
Proof.
  unfold carry_row. destruct (row_name s r) as [name|] eqn:En; [|done]. cbn [mbind result_bind]. intros [= <-].
  exists name. split; [done|]. unfold nonempty, db_has. case_bool_decide as E1; cbn; [auto|]. case_bool_decide as E2; cbn; [|auto].
  left. split; [|done]. right. apply list_elem_of_omap in E2 as (c & Hc & Ec). destruct c; try done. by injection Ec as ->.
Qed.

Lemma carry_spec db s rows m m' : (forall name r, (name, r) ∈ m -> row_name s r = Ok name /\ name <> "") ->
  fold_result (carry_row db s) rows m = Ok m' ->
  (forall name r, (name, r) ∈ m' -> row_name s r = Ok name /\ name <> "") /\
  (forall name, name ∈ m.*1 -> name ∈ m'.*1) /\
  forall name, has_name s name rows -> name <> "" -> db_has s db name \/ name ∈ m'.*1.
Proof.
  revert m. induction rows as [|r rows IH]; intros m Hm; cbn [fold_result].
  { intros [= <-]. split; [done|]. split; [done|]. by intros name (r & []%elem_of_nil & _). }
  destruct (carry_row db s r m) as [m1|] eqn:E1; [|done]. intros E. apply carry_row_spec in E1 as (n & En & Hcase).
  assert (forall name x, (name, x) ∈ m1 -> row_name s x = Ok name /\ name <> "") as Hm1.
  { destruct Hcase as [[_ ->]|[Hne ->]]; [done|]. intros name x [[= -> ->]|Hx]%put_row_elem; [done|by apply Hm]. }
  destruct (IH m1 Hm1 E) as (H1 & H2 & H3). split; [done|]. split.
  - intros name Hn. apply H2. destruct Hcase as [[_ ->]|[_ ->]]; [done|]. apply put_row_names. by right.
  - intros name (x & [->|Hx]%elem_of_cons & Ex) Hne; [|apply H3; [by exists x|done]].
    assert (n = name) as -> by congruence. destruct Hcase as [[[->|Hd] _]|[_ ->]]; [done|by left|].
    right. apply H2, put_row_names. by left.
Qed.

Lemma carry_all db doc s m : carry db doc s = Ok m ->
  (forall name r, (name, r) ∈ m -> row_name s r = Ok name /\ name <> "") /\
  forall name, has_name s name (doc_rows s doc) -> name <> "" -> db_has s db name \/ name ∈ m.*1.
Proof. intros E. apply carry_spec in E as (? & _ & ?); [done|]. by intros ?? []%elem_of_nil. Qed.

(** This instance's export has its own names. *)
Lemma exported_row s db c : c ∈ db_keys s db ->
  exists r, r ∈ doc_rows s (export_config key true db) /\ doc_col r (key_name s) = c.
Proof.
  destruct s; cbn [db_keys doc_rows export_config cd_targets cd_repos cd_specs]; intros (x & -> & Hx)%list_elem_of_fmap.
  - exists (Row (export_row target_entity true x)). split; [|by apply (col_pick (all_fields target_entity)); left].
    apply list_elem_of_fmap. exists x. by rewrite order_by_perm.
  - exists (Row (export_row repo_entity true x)). split; [|by apply (col_pick (all_fields repo_entity)); left].
    apply list_elem_of_fmap. exists x. by rewrite order_by_perm.
  - exists (Row (export_spec db x)). split; [|apply spec_doc_key]. apply list_elem_of_fmap. exists x. by rewrite order_by_perm.
Qed.

Lemma named_row s r name : doc_col r (key_name s) = CStr name -> name <> "" -> py_strip name = name -> row_name s r = Ok name.
Proof.
  destruct r as [cs|]; [|done]. cbn [doc_col]. intros E Hne Hs. change (key_text (Row cs) (key_name s) = Ok name).
  rewrite key_text_clean by (exists name; by rewrite E).
  by rewrite E.
Qed.

Lemma present_iff doc s name : present doc s name = true <-> exists r, r ∈ doc_rows s doc /\ doc_col r (key_name s) = CStr name.
Proof.
  unfold present. rewrite existsb_true. split; intros (r & Hr & E); exists r; (split; [done|]).
  - destruct (doc_col r _); try done. by apply bool_decide_eq_true in E as ->.
  - rewrite E. by apply bool_decide_eq_true.
Qed.

Lemma document_has s db st name : carried_ok st -> name <> "" -> py_strip name = name ->
  db_has s db name \/ name ∈ (ss_carried st s).*1 -> has_name s name (doc_rows s (document key db st).1).
Proof.
  intros Hok Hne Hs Hor. cbn [document fst]. rewrite doc_rows_map. set (doc := export_config key true db).
  destruct (present doc s name) eqn:Ep.
  - apply present_iff in Ep as (r & Hr & Er). exists r. split; [apply elem_of_app; by left|by apply named_row].
  - destruct Hor as [Hd|([n r] & -> & Hn)%list_elem_of_fmap].
    + apply exported_row in Hd. apply present_iff in Hd. unfold doc in Ep. congruence.
    + exists r. split; [|by apply (Hok s n r)]. apply elem_of_app. right. apply list_elem_of_fmap. exists (n, r). split; [done|].
      by apply kept_sub.
Qed.

(** The documents of later pushes, for whatever the tables are by then. *)
Fixpoint documents (dbs : list config_db) (st : source_state) : list config_doc :=
  match dbs with
  | [] => []
  | db :: dbs => let '(doc, st) := document key db st in doc :: documents dbs st
  end.

Lemma documents_keep s name dbs st i doc : carried_ok st -> name <> "" -> py_strip name = name ->
  name ∈ (ss_carried st s).*1 -> documents dbs st !! i = Some doc ->
  has_name s name (doc_rows s doc) \/ exists j db, (j < i)%nat /\ dbs !! j = Some db /\ present (export_config key true db) s name = true.
Proof.
  revert st i. induction dbs as [|db dbs IH]; intros st i Hok Hne Hs Hin; [done|]. cbn [documents].
  destruct (document key db st) as [d st'] eqn:Ed. destruct i as [|i].
  { intros [= <-]. left. pose proof (document_has s db st name Hok Hne Hs (or_intror Hin)) as Hd. by rewrite Ed in Hd. }
  cbn. intros Hi. injection Ed as _ <-. destruct (present (export_config key true db) s name) eqn:Ep.
  - right. exists 0%nat, db. split_and!; [lia|done|done].
  - destruct (IH (mkSource (ss_synced st) (kept (export_config key true db) st)) i) as [Hd|(j & db' & Hj & Hdb & Hp)]; try done.
    + intros s' n r [Hr _]%kept_sub. by apply Hok.
    + apply list_elem_of_fmap in Hin as ([n r] & -> & Hn). cbn [ss_carried]. apply list_elem_of_fmap. exists (n, r).
      split; [done|]. by apply kept_sub.
    + by left.
    + right. exists (S j), db'. split_and!; [lia|done|done].
Qed.
End Carried.

(** nothing of the shared copy is lost here.  After a pull, every name of the shared
    document is in every document this instance pushes, whatever its tables are
    by then, until a moment when the instance itself had a row of that name. *)
Theorem shared_names_kept `{Rows} hash key doc db st db1 r st1 dbs i pushed s name :
  pull hash key (Found doc) db st = Ok (Some (db1, r, st1)) ->
  has_name s name (doc_rows s doc) -> name <> "" ->
  documents key (db1 :: dbs) st1 !! i = Some pushed ->
  has_name s name (doc_rows s pushed) \/
  exists j dbj, (j < i)%nat /\ (db1 :: dbs) !! j = Some dbj /\ present (export_config key true dbj) s name = true.
Proof.
  intros Hp Hn Hne Hd. cbn [pull] in Hp. destruct (import_config key doc db) as [[db1' rep]|]; [|done]. cbn [mbind result_bind] in Hp.
  destruct (carry db1' doc Targets) as [t|] eqn:Et; [|done]. cbn [mbind result_bind] in Hp.
  destruct (carry db1' doc Repos) as [rp|] eqn:Er; [|done]. cbn [mbind result_bind] in Hp.
  destruct (carry db1' doc Specs) as [sp|] eqn:Es; [|done]. cbn [mbind result_bind] in Hp. injection Hp as -> _ <-.
  apply carry_all in Et as [Ot Ht], Er as [Or Hr], Es as [Os Hs].
  set (st1 := mkSource _ _) in *. assert (carried_ok st1) as Hok by (intros [] n x Hx; [by apply Ot|by apply Or|by apply Os]).
  pose proof Hn as (x & _ & Hst%row_name_stripped).
  assert (db_has s db1 name \/ name ∈ (ss_carried st1 s).*1) as [Hdb|Hc] by (destruct s; auto).
  - destruct i as [|i].
    + left. cbn [documents] in Hd. destruct (document key db1 st1) as [d st'] eqn:Ed. injection Hd as <-.
      pose proof (document_has key s db1 st1 name Hok Hne Hst (or_introl Hdb)) as Hh. by rewrite Ed in Hh.
    + right. exists 0%nat, db1. split_and!; [lia|done|]. by apply present_iff, exported_row.
  - by eapply documents_keep.
Qed.

(** ** Pushes settle *)

Section Settle.
Context `{Rows} (hash : config_doc -> string) (key : option string).

Lemma kept_twice doc st synced s : kept doc (mkSource synced (kept doc st)) s = kept doc st s.
Proof.
  unfold kept. cbn [ss_carried]. induction (ss_carried st s) as [|nr l IH]; [done|]. cbn.
  destruct (present doc s nr.1) eqn:E; cbn; [done|]. rewrite E. cbn. by rewrite IH.
Qed.

Lemma map_rows_ext f g doc : (forall s, f s (doc_rows s doc) = g s (doc_rows s doc)) -> map_rows f doc = map_rows g doc.
Proof. intros E. unfold map_rows. f_equal; [apply (E Targets)|apply (E Repos)|apply (E Specs)]. Qed.

Lemma document_again db st synced :
  (document key db (mkSource synced (kept (export_config key true db) st))).1 = (document key db st).1.
Proof. cbn [document fst]. apply map_rows_ext. intros s. by rewrite kept_twice. Qed.

(** After a push, and as long as the tables stay as they are, there is nothing to push. *)
Lemma push_settles stored db st st1 d : push hash key true db st = (st1, Ok d) ->
  snd (maybe_push hash key true true stored db st1) = Ok None.
Proof.
  unfold push. cbn [document]. intros [= <- _]. unfold maybe_push. cbn [negb].
  pose proof (document_again db st (Some (digest hash (document key db st).1))) as Ed. cbn [document fst] in Ed.
  cbn [document]. rewrite Ed. cbn [ss_synced]. by rewrite bool_decide_true.
Qed.

(** A row of the document names a row of the tables it was exported from. *)
Lemma exported_name s db r : r ∈ doc_rows s (export_config key true db) -> doc_col r (key_name s) ∈ db_keys s db.
Proof.
  destruct s; cbn [db_keys doc_rows export_config cd_targets cd_repos cd_specs]; intros (x & -> & Hx)%list_elem_of_fmap;
    rewrite order_by_perm in Hx; apply list_elem_of_fmap; exists x; (split; [|done]).
  - by apply (col_pick (all_fields target_entity)); left.
  - by apply (col_pick (all_fields repo_entity)); left.
  - apply spec_doc_key.
Qed.

Lemma carry_nothing db s rows m : (forall r, r ∈ rows -> clean_key (doc_col r (key_name s)) /\ doc_col r (key_name s) ∈ db_keys s db) ->
  fold_result (carry_row db s) rows m = Ok m.
Proof.
  induction rows as [|r rows IH]; intros Hr; [done|]. cbn [fold_result].
  destruct (Hr r ltac:(left)) as [(n & En & Hs & Hne) Hin]. unfold carry_row. rewrite (named_row s r n) by done.
  cbn [mbind result_bind]. rewrite En in Hin. rewrite (bool_decide_true (n ∈ _)).
  - rewrite andb_false_r. apply IH. intros x Hx. apply Hr. by right.
  - apply list_elem_of_omap. by exists (CStr n).
Qed.

Lemma exportable_clean packs2 db s c : exportable packs2 db -> c ∈ db_keys s db -> clean_key c.
Proof. intros E. destruct s; intros (x & -> & Hx)%list_elem_of_fmap; [by apply E|by apply E|]. by destruct (ex_specs _ _ E x Hx). Qed.
End Settle.

(** C35: a restored instance agrees with the shared copy.  An instance that has the packs
    and nothing else, pulls a document that an instance without merged specs exported
    under the same key, takes all of it, exports the same document itself, carries nothing,
    and has nothing to push. *)
Theorem restored_instance_agrees `{Rows} hash key packs2 db st stored : exportable packs2 db -> NoDup packs2.*1 ->
  exists db2 r st2,
    pull hash key (Found (export_config key true db)) (mkDb [] [] packs2 []) st = Ok (Some (db2, r, st2)) /\
    ir_skipped r = [] /\ export_config key true db2 = export_config key true db /\
    (forall s, ss_carried st2 s = []) /\
    snd (maybe_push hash key true true stored db2 st2) = Ok None.
Proof.
  intros Hx Hp. destruct (restore_ok key packs2 db Hx Hp) as (db2 & r & Ei & Hs & _ & Ee).
  assert (forall s, carry db2 (export_config key true db) s = Ok []) as Hc.
  { intros s. apply carry_nothing. intros row Hrow. split.
    - eapply exportable_clean; [exact Hx|]. by apply (exported_name key).
    - rewrite <- Ee in Hrow. by apply exported_name in Hrow. }
  cbn [pull]. rewrite Ei. cbn [mbind result_bind]. rewrite !Hc. cbn [mbind result_bind].
  eexists _, _, _. split; [reflexivity|]. split; [done|]. split; [done|]. split; [by intros []|].
  unfold maybe_push. cbn [negb document ss_synced].
  assert (map_rows (fun s rows => rows ++ (kept (export_config key true db2)
            (mkSource (Some (digest hash (export_config key true db))) (fun sec => match sec with Targets => [] | Repos => [] | Specs => [] end)) s).*2)
            (export_config key true db2) = export_config key true db) as ->.
  { rewrite Ee. unfold map_rows. cbn. by rewrite !app_nil_r. }
  by rewrite bool_decide_true.
Qed.

(** ** Examples *)

Section Witnesses.

Definition no_state : source_state := mkSource None (fun _ => []).
Definition some_hash (_ : config_doc) : string := "digest".

(** The pack of the only spec is not indexed yet: the spec is skipped, and stays in what
    is pushed. *)
Lemma shared_names_kept_witness :
  exists db1 r st1 pushed, pull some_hash None (Found old_doc) (mkDb [] [] [] []) no_state = Ok (Some (db1, r, st1)) /\
    db_specs db1 = [] /\ documents None [db1] st1 !! 0%nat = Some pushed /\
    (has_name Specs "nightly" (doc_rows Specs pushed) \/
     exists j dbj, (j < 0)%nat /\ [db1] !! j = Some dbj /\ present (export_config None true dbj) Specs "nightly" = true).
Proof.
  destruct (pull some_hash None (Found old_doc) (mkDb [] [] [] []) no_state) as [[[[db1 r] st1]|]|] eqn:E;
    [|vm_compute in E; discriminate..].
  destruct (documents None [db1] st1 !! 0%nat) as [pushed|] eqn:Ed; [|by cbn in Ed].
  exists db1, r, st1, pushed. split; [done|]. split; [|split; [done|]].
  - revert E. vm_compute. by intros [= <- _ _].
  - apply (shared_names_kept some_hash None old_doc (mkDb [] [] [] []) no_state db1 r st1 [] 0 pushed Specs "nightly" E); [|done|exact Ed].
    eexists. split; [left|]. vm_compute. reflexivity.
Defined.

Lemma restored_instance_agrees_witness :
  exists db2 r st2,
    pull some_hash (Some "abcd1234") (Found (export_config (Some "abcd1234") true (old_db CNull))) (mkDb [] [] fresh_packs []) no_state
    = Ok (Some (db2, r, st2)) /\
    ir_skipped r = [] /\ export_config (Some "abcd1234") true db2 = export_config (Some "abcd1234") true (old_db CNull) /\
    (forall s, ss_carried st2 s = []) /\
    snd (maybe_push some_hash (Some "abcd1234") true true true db2 st2) = Ok None.
Proof.
  apply (restored_instance_agrees some_hash (Some "abcd1234") fresh_packs (old_db CNull) no_state true old_db_exportable fresh_packs_ids).
Defined.
End Witnesses.
