(* ===== verification/Retention.v ===== *)
(** * Metric retention (server/metrics_lifecycle.py: roll_up_and_prune)

    The maintenance pass over the table of metric samples: ancient rows are
    deleted in batches, then the old fine-grained rows of a slot are collapsed
    to one row per bucket of time.  The cumulative counters that the live view
    of a run reads survive every step of it, commit by commit. *)

From S2P Require Import Prelude.
From S2P Require Import PyFloat.
From S2P Require Import PyValue.
From S2P Require Import Driver.
From S2P Require Import Model.
From Stdlib Require Import QArith.
Open Scope Z_scope.

(** A row of the table: its primary key, its run, its sample. *)
Record row : Type := mkRow { row_id : Z; row_run : Z; row_sample : MetricSample }.

Definition row_ts (r : row) : Z := ms_ts (row_sample r).

(** The table in the order of its keys, and the next key. *)
Record table : Type := mkTable { t_next : Z; t_rows : list row }.

Definition delete_ids (ids : list Z) (t : table) : table :=
  mkTable (t_next t) (List.filter (fun r => negb (bool_decide (row_id r ∈ ids))) (t_rows t)).

Definition insert_row (run : Z) (s : MetricSample) (t : table) : table :=
  mkTable (t_next t + 1) (t_rows t ++ [mkRow (t_next t) run s]).

(** [row.ts < before] *)
Definition older (before : Z) (r : row) : bool := row_ts r <? before.

(** ** Prune *)

(** [while True: ...]: the table and the number of rows deleted after each
    commit; [None] is out of fuel. *)
Fixpoint prune (fuel : nat) (before chunk : Z) (total : Z) (t : table) : option (table * Z) :=
  match fuel with
  | O => None
  | S fuel =>
      let ids := take (Z.to_nat chunk) (row_id <$> List.filter (older before) (t_rows t)) in
      match ids with
      | [] => Some (t, total)
      | _ =>
          let t := delete_ids ids t in
          let total := total + Z.of_nat (length ids) in
          if Z.of_nat (length ids) <? chunk then Some (t, total)
          else prune fuel before chunk total t
      end
  end.

(** ** Buckets *)

Abbreviation key := (Z * nat * Z)%type.

(** [(row.run_id, row.slot, int(ts.timestamp()) // bucket_s)] *)
Definition bucket_key (bucket_s : Z) (r : row) : key :=
  (row_run r, ms_slot (row_sample r), Z.quot (row_ts r) usec / bucket_s).

(** [buckets.setdefault(key, []).append(row)] *)
Fixpoint add_to (k : key) (r : row) (buckets : list (key * list row)) : list (key * list row) :=
  match buckets with
  | [] => [(k, [r])]
  | (k', ms) :: buckets =>
      if bool_decide (k' = k) then (k', ms ++ [r]) :: buckets else (k', ms) :: add_to k r buckets
  end.

Definition group (bucket_s : Z) (rows : list row) : list (key * list row) :=
  foldl (fun buckets r => add_to (bucket_key bucket_s r) r buckets) [] rows.

Definition earlier (r r' : row) : Prop := row_ts r <= row_ts r'.
Global Instance earlier_dec : RelDecision earlier.
Proof. intros r r'. unfold earlier. apply _. Defined.

Section RollUp.
Context {R : Rounding}.

(** The mean of the values that are there. *)
Definition mean (values : list (option Q)) : option Q :=
  match omap (M := list) id values with
  | [] => None
  | nums => Some (fdiv (fsum nums) (inject_Z (Z.of_nat (length nums))))
  end.

(** The counters of the last member, the means of the gauges, at the floor of
    the bucket. *)
Definition aggregate_bucket (slot : nat) (bucket_idx bucket_s : Z) (members : list row)
    : option MetricSample :=
  let ordered := row_sample <$> merge_sort earlier members in
  l ← last ordered;
  let average (f : MetricSample -> option Q) := mean (f <$> ordered) in
  Some (mkSample slot (bucket_idx * bucket_s * usec)
          (ms_events_total l) (ms_bytes_total l) (ms_hec_2xx l) (ms_hec_4xx l) (ms_hec_5xx l)
          (ms_hec_timeouts l) (ms_retries l) (ms_queue_depth l) (ms_engine_threads l)
          (average ms_eps) (average ms_bps) (average ms_lag_s) (average ms_rss_mb)
          (average ms_cpu_pct) (average ms_engine_cpu_pct) (ms_cpu_limit_cores l)).

(** One bucket collapsed: its members deleted, their aggregate added. *)
Definition collapse (bucket_s : Z) (b : key * list row) (t : table) : table :=
  let '(run, slot, idx, members) := b in
  match aggregate_bucket slot idx bucket_s members with
  | Some agg => insert_row run agg (delete_ids (row_id <$> members) t)
  | None => t
  end.

(** The session's view, the counts, the rows since the last commit, and the
    tables committed so far, newest first. *)
Record progress : Type := mkProgress {
  pg_table : table;
  pg_removed : Z;
  pg_written : Z;
  pg_pending : Z;
  pg_commits : list table;
}.

Definition roll_step (bucket_s chunk : Z) (p : progress) (b : key * list row) : progress :=
  let n := Z.of_nat (length b.2) in
  if n <? 2 then p
  else
    let t := collapse bucket_s b (pg_table p) in
    let pending := pg_pending p + n in
    if chunk <=? pending
    then mkProgress t (pg_removed p + n) (pg_written p + 1) 0 (t :: pg_commits p)
    else mkProgress t (pg_removed p + n) (pg_written p + 1) pending (pg_commits p).

(** What the query does: [by_ts] puts the rows it selects in the order of their
    instants (rows at one instant in any order). *)
Context (by_ts : list row -> list row).

Definition roll_up (before bucket_s chunk : Z) (t : table) : progress :=
  let p := foldl (roll_step bucket_s chunk) (mkProgress t 0 0 0 [])
             (group bucket_s (by_ts (List.filter (older before) (t_rows t)))) in
  if pg_pending p =? 0 then p
  else mkProgress (pg_table p) (pg_removed p) (pg_written p) 0 (pg_table p :: pg_commits p).

(** The settings as they arrive: hours, days, seconds and rows. *)
Definition roll_up_and_prune (fuel : nat) (rollup_after_h prune_after_d rollup_bucket_s delete_chunk : Z)
    (now : Z) (t : table) : option (progress * Z) :=
  let bucket_s := Z.max 1 rollup_bucket_s in
  let chunk := Z.max 1 delete_chunk in
  let rollup_before := now - rollup_after_h * 3600 * usec in
  let prune_before := now - prune_after_d * 86400 * usec in
  match prune fuel prune_before chunk 0 t with
  | None => None
  | Some (t, pruned) => Some (roll_up rollup_before bucket_s chunk t, pruned)
  end.
End RollUp.

(** ** List facts *)

Lemma filter_comm {A} (f g : A -> bool) l : List.filter f (List.filter g l) = List.filter g (List.filter f l).
Proof.
  induction l as [|x l IH]; cbn; [done|].
  destruct (g x) eqn:Eg, (f x) eqn:Ef; cbn; rewrite ?Eg, ?Ef; congruence.
Qed.

Lemma filter_all {A} (f : A -> bool) l : (forall x, x ∈ l -> f x = true) -> List.filter f l = l.
Proof.
  induction l as [|x l IH]; intros H; cbn; [done|].
  rewrite (H x) by left. f_equal. apply IH. intros y Hy. apply H. by right.
Qed.

Lemma filter_none {A} (f : A -> bool) l : (forall x, x ∈ l -> f x = false) -> List.filter f l = [].
Proof.
  induction l as [|x l IH]; intros H; cbn; [done|].
  rewrite (H x) by left. apply IH. intros y Hy. apply H. by right.
Qed.

Lemma filter_twice {A} (f g : A -> bool) l :
  List.filter f (List.filter g l) = List.filter (fun x => g x && f x) l.
Proof. induction l as [|x l IH]; cbn; [done|]. destruct (g x); cbn; [destruct (f x)|]; congruence. Qed.

Lemma elem_filter {A} (f : A -> bool) l x : x ∈ List.filter f l <-> x ∈ l /\ f x = true.
Proof. rewrite !list_elem_of_In. apply filter_In. Qed.

Lemma NoDup_filter {A B} (g : A -> B) (f : A -> bool) l : NoDup (g <$> l) -> NoDup (g <$> List.filter f l).
Proof.
  induction l as [|x l IH]; cbn; [done|]. intros [Hx Hl]%NoDup_cons.
  destruct (f x); cbn; [|auto]. apply NoDup_cons. split; [|auto].
  intros (y & E & [Hy _]%elem_filter)%list_elem_of_fmap. apply Hx. rewrite E. by apply list_elem_of_fmap_2.
Qed.

(** A row is determined by its key. *)
Lemma row_by_id (rows : list row) r r' :
  NoDup (row_id <$> rows) -> r ∈ rows -> r' ∈ rows -> row_id r = row_id r' -> r = r'.
Proof.
  induction rows as [|x rows IH]; cbn; [set_solver|]. intros [Hx Hn]%NoDup_cons Hr Hr' E.
  apply elem_of_cons in Hr as [->|Hr], Hr' as [->|Hr']; [done| | |auto].
  - destruct Hx. rewrite E. by apply list_elem_of_fmap_2.
  - destruct Hx. rewrite <- E. by apply list_elem_of_fmap_2.
Qed.

(** ** Prune *)

Lemma drop_deleted (l : list row) n :
  NoDup (row_id <$> l) ->
  List.filter (fun r => negb (bool_decide (row_id r ∈ take n (row_id <$> l)))) l = drop n l.
Proof.
  intros Hn. set (f := fun r => _). transitivity (List.filter f (take n l ++ drop n l)); [by rewrite take_drop|].
  unfold f. rewrite List.filter_app, filter_none, filter_all; [done| |].
  - intros r Hr. apply negb_true_iff, bool_decide_eq_false. intros Hin.
    rewrite <- (take_drop n l), fmap_app in Hn. apply NoDup_app in Hn as (_ & Hd & _).
    apply (Hd (row_id r)); [by rewrite fmap_take|by apply list_elem_of_fmap_2].
  - intros r Hr. apply negb_false_iff, bool_decide_eq_true. rewrite <- fmap_take.
    by apply list_elem_of_fmap_2.
Qed.

Abbreviation kept before l := (List.filter (fun r => negb (older before r)) l).

(** One batch: the first [n] ancient rows go, the others stay. *)
Lemma delete_batch before n t :
  NoDup (row_id <$> t_rows t) ->
  let t' := delete_ids (take n (row_id <$> List.filter (older before) (t_rows t))) t in
  List.filter (older before) (t_rows t') = drop n (List.filter (older before) (t_rows t)) /\
  kept before (t_rows t') = kept before (t_rows t) /\ NoDup (row_id <$> t_rows t') /\ t_next t' = t_next t.
Proof.
  intros Hn. cbn. split_and!; [| |by apply NoDup_filter|done].
  - rewrite filter_comm. apply drop_deleted. by apply NoDup_filter.
  - rewrite filter_comm. apply filter_all. intros r [Hr Ho]%elem_filter.
    apply negb_true_iff, bool_decide_eq_false. intros Hin.
    assert (row_id r ∈ row_id <$> List.filter (older before) (t_rows t)) as (x & E & [Hx Hx']%elem_filter)%list_elem_of_fmap
      by (eapply subseteq_take, Hin).
    rewrite (row_by_id (t_rows t) r x) in Ho by done. rewrite Hx' in Ho. done.
Qed.

Lemma older_split before (l : list row) : List.filter (older before) l = [] -> kept before l = l.
Proof.
  intros H. apply filter_all. intros r Hr. apply negb_true_iff. destruct (older before r) eqn:E; [|done].
  assert (r ∈ List.filter (older before) l) as Hin by (apply elem_filter; done). rewrite H in Hin. set_solver.
Qed.

Lemma prune_spec fuel before chunk total t :
  NoDup (row_id <$> t_rows t) -> 1 <= chunk ->
  (length (List.filter (older before) (t_rows t)) < fuel)%nat ->
  prune fuel before chunk total t =
    Some (mkTable (t_next t) (kept before (t_rows t)),
          total + Z.of_nat (length (List.filter (older before) (t_rows t)))).
Proof.
  revert total t. induction fuel as [|fuel IH]; intros total t Hn Hc Hf; [lia|]. cbn [prune].
  set (old := List.filter (older before) (t_rows t)) in *.
  destruct (delete_batch before (Z.to_nat chunk) t Hn) as (Ho & Hk & Hn' & Hx). fold old in Ho, Hk, Hn', Hx.
  assert (length (take (Z.to_nat chunk) (row_id <$> old)) = Nat.min (Z.to_nat chunk) (length old)) as Hl
    by by rewrite length_take, length_fmap.
  destruct (take (Z.to_nat chunk) (row_id <$> old)) as [|i ids] eqn:Ei.
  - cbn in Hl. assert (old = []) as Eo by (apply length_zero_iff_nil; lia). rewrite Eo. cbn.
    rewrite older_split by done. destruct t. cbn. do 2 f_equal. lia.
  - rewrite <- Ei in *. clear Ei. rewrite Hl. case_match eqn:El.
    + apply Z.ltb_lt in El. rewrite (older_split before (t_rows (delete_ids _ _))) in Hk.
      * rewrite <- Hk, <- Hx. rewrite Nat.min_r by lia. by destruct (delete_ids _ t).
      * rewrite Ho. apply skipn_all2. lia.
    + apply Z.ltb_ge in El. rewrite IH; [|done|done|rewrite Ho, length_drop; lia].
      rewrite Hk, Hx, Ho, length_drop, Nat.min_l by lia. do 2 f_equal. lia.
Qed.

(** ** Buckets *)

Section Groups.
Context (bucket_s : Z).
Abbreviation kof := (bucket_key bucket_s).

(** The buckets built from the rows read so far. *)
Record grouped (rows : list row) (bs : list (key * list row)) : Prop := {
  g_keys : NoDup (fst <$> bs);
  g_members : forall b, b ∈ bs -> b.2 = List.filter (fun r => bool_decide (kof r = b.1)) rows /\ b.2 <> [];
  g_cover : forall r, r ∈ rows -> kof r ∈ fst <$> bs;
}.

Lemma add_to_keys k r bs k' : k' ∈ fst <$> add_to k r bs <-> k' = k \/ k' ∈ fst <$> bs.
Proof.
  induction bs as [|[k0 ms] bs IH]; cbn; [set_solver|].
  case_bool_decide as E; cbn; rewrite ?elem_of_cons; [subst; tauto|]. rewrite IH. tauto.
Qed.

Lemma add_to_nodup k r bs : NoDup (fst <$> bs) -> NoDup (fst <$> add_to k r bs).
Proof.
  induction bs as [|[k0 ms] bs IH]; cbn; [intros _; apply NoDup_singleton|]. intros [Hk Hn]%NoDup_cons.
  case_bool_decide as E; cbn; apply NoDup_cons; [done|]. rewrite add_to_keys. split; [|auto]. naive_solver.
Qed.

Lemma add_to_members k r bs b :
  NoDup (fst <$> bs) -> b ∈ add_to k r bs ->
  (b.1 <> k /\ b ∈ bs) \/ (b.1 = k /\ exists ms, b.2 = ms ++ [r] /\ ((k, ms) ∈ bs \/ ms = [] /\ k ∉ fst <$> bs)).
Proof.
  induction bs as [|[k0 ms] bs IH]; cbn.
  - intros _ ->%list_elem_of_singleton. right. split; [done|]. exists []. split; [done|]. right. set_solver.
  - intros [Hk Hn]%NoDup_cons. case_bool_decide as E; subst.
    + intros [->|Hb]%elem_of_cons; [right; split; [done|]; exists ms; split; [done|left; left]|].
      left. split; [|by right]. intros <-. apply Hk. by apply list_elem_of_fmap_2.
    + intros [->|Hb]%elem_of_cons; [left; split; [done|left]|].
      destruct (IH Hn Hb) as [[? ?]|(? & ms' & ? & [?|[-> ?]])]; [left; split; [done|by right]| |].
      * right. split; [done|]. exists ms'. split; [done|]. left. by right.
      * right. split; [done|]. exists []. split; [done|]. right. split; [done|]. set_solver.
Qed.

Lemma group_snoc rows r : group bucket_s (rows ++ [r]) = add_to (kof r) r (group bucket_s rows).
Proof. unfold group. by rewrite foldl_app. Qed.

Lemma group_spec rows : grouped rows (group bucket_s rows).
Proof.
  induction rows as [|r rows [Hk Hm Hc]] using rev_ind.
  { split; [apply NoDup_nil_2| |]; cbn; set_solver. }
  rewrite group_snoc. split; [by apply add_to_nodup| |].
  - intros b Hb. rewrite List.filter_app. cbn.
    destruct (add_to_members _ _ _ _ Hk Hb) as [[Hne Hb']|(Eq & ms & Ems & Hms)].
    + rewrite bool_decide_false by congruence. rewrite app_nil_r. by apply Hm.
    + rewrite bool_decide_true by congruence. rewrite Ems. split; [|by destruct ms].
      f_equal. destruct Hms as [Hin|[-> Hin]].
      * rewrite Eq. apply (Hm _ Hin).
      * symmetry. apply filter_none. intros x Hx. apply bool_decide_eq_false. intros E. apply Hin.
        rewrite <- Eq, <- E. by apply Hc.
  - intros x [Hx| ->%list_elem_of_singleton]%elem_of_app; apply add_to_keys; [right; by apply Hc|by left].
Qed.

Lemma group_in rows b r : b ∈ group bucket_s rows -> r ∈ b.2 <-> r ∈ rows /\ kof r = b.1.
Proof.
  intros Hb. destruct (g_members _ _ (group_spec rows) b Hb) as [-> _].
  rewrite elem_filter, bool_decide_eq_true. done.
Qed.

Lemma group_of rows r : r ∈ rows -> exists b, b ∈ group bucket_s rows /\ r ∈ b.2.
Proof.
  intros Hr. pose proof (g_cover _ _ (group_spec rows) r Hr) as ([k ms] & E & Hb)%list_elem_of_fmap.
  exists (k, ms). split; [done|]. by apply (group_in rows _ r Hb).
Qed.

(** Buckets that share a row are one bucket. *)
Lemma group_disjoint rows b b' r :
  b ∈ group bucket_s rows -> b' ∈ group bucket_s rows -> r ∈ b.2 -> r ∈ b'.2 -> b = b'.
Proof.
  intros Hb Hb' Hr Hr'. pose proof Hr as [_ E]%(group_in rows b r Hb).
  pose proof Hr' as [_ E']%(group_in rows b' r Hb').
  destruct b as [k ms], b' as [k' ms']. cbn in *. subst.
  pose proof (proj1 (g_members _ _ (group_spec rows) _ Hb)) as E1.
  pose proof (proj1 (g_members _ _ (group_spec rows) _ Hb')) as E2. cbn in *. congruence.
Qed.
End Groups.

(** ** The roll-up *)

Section Facts.
#[local] Set Default Proof Using "Type*".
Context {R : Rounding} (bucket_s : Z) (Hs : 1 <= bucket_s).
Abbreviation bkey := (bucket_key bucket_s).

(** Keys are unique and below the next one, instants are after the epoch, and a
    slot has one sample per instant. *)
Record wf_table (t : table) : Prop := {
  wt_ids : NoDup (row_id <$> t_rows t);
  wt_next : forall r, r ∈ t_rows t -> row_id r < t_next t;
  wt_epoch : forall r, r ∈ t_rows t -> 0 <= row_ts r;
  wt_instants : forall r r', r ∈ t_rows t -> r' ∈ t_rows t -> row_run r = row_run r' ->
    ms_slot (row_sample r) = ms_slot (row_sample r') -> row_ts r = row_ts r' -> r = r';
}.

(** What a bucket collapses to. *)
Definition agg_of (b : key * list row) : option MetricSample :=
  let '(_, slot, idx, members) := b in aggregate_bucket slot idx bucket_s members.

Fixpoint agg_rows (next : Z) (bs : list (key * list row)) : list row :=
  match bs with
  | [] => []
  | b :: bs =>
      match agg_of b with
      | Some s => mkRow next b.1.1.1 s :: agg_rows (next + 1) bs
      | None => agg_rows next bs
      end
  end.

Definition ids_of (bs : list (key * list row)) : list Z := row_id <$> concat (snd <$> bs).

Lemma agg_of_some b : b.2 <> [] -> exists s, agg_of b = Some s.
Proof.
  destruct b as [[[run slot] idx] ms]. cbn. intros Hms. unfold aggregate_bucket.
  destruct (last (row_sample <$> merge_sort earlier ms)) eqn:E; [cbn; eauto|].
  apply last_None in E. apply fmap_nil_inv in E. exfalso. apply Hms.
  apply Permutation_nil. rewrite <- E. apply merge_sort_Permutation.
Qed.

Definition collapses (t : table) (bs : list (key * list row)) : table :=
  foldl (fun t b => collapse bucket_s b t) t bs.

(** The tables along the roll-up, in closed form. *)
Lemma collapse_all bs t :
  (forall b, b ∈ bs -> b.2 <> []) -> (forall i, i ∈ ids_of bs -> i < t_next t) ->
  t_rows (collapses t bs) =
    List.filter (fun r => negb (bool_decide (row_id r ∈ ids_of bs))) (t_rows t) ++ agg_rows (t_next t) bs
  /\ t_next (collapses t bs) = t_next t + Z.of_nat (length bs).
Proof.
  unfold collapses. revert t. induction bs as [|b bs IH]; intros t Hne Hlt; cbn [foldl agg_rows].
  - rewrite app_nil_r. split; [|cbn; lia]. symmetry. apply filter_all. intros r _.
    apply negb_true_iff, bool_decide_eq_false. unfold ids_of. cbn. by intros ?%elem_of_nil.
  - destruct (agg_of_some b) as [s Es]; [apply Hne; left|].
    assert (collapse bucket_s b t = insert_row b.1.1.1 s (delete_ids (row_id <$> b.2) t)) as ->.
    { destruct b as [[[run slot] idx] ms]. cbn in *. by rewrite Es. }
    assert (forall i, i ∈ ids_of (b :: bs) <-> i ∈ row_id <$> b.2 \/ i ∈ ids_of bs) as Hids.
    { intros i. unfold ids_of. cbn. by rewrite fmap_app, elem_of_app. }
    destruct (IH (insert_row b.1.1.1 s (delete_ids (row_id <$> b.2) t))) as [E1 E2].
    { intros b' Hb'. apply Hne. by right. }
    { intros i Hi. cbn. specialize (Hlt i). rewrite Hids in Hlt. lia || (assert (i < t_next t) by auto; lia). }
    rewrite E1, E2, Es. cbn [insert_row delete_ids t_rows t_next length]. split; [|lia].
    rewrite List.filter_app, filter_twice, <- app_assoc. f_equal.
    + apply List.filter_ext. intros r. rewrite <- negb_orb. f_equal. apply eq_bool_prop_intro.
      rewrite orb_True, !bool_decide_spec, Hids. tauto.
    + rewrite filter_all; [done|]. intros r ->%list_elem_of_singleton. cbn.
      apply negb_true_iff, bool_decide_eq_false. intros Hi. specialize (Hlt (t_next t)).
      rewrite Hids in Hlt. assert (t_next t < t_next t) by auto. lia.
Qed.

Definition multi (bs : list (key * list row)) : list (key * list row) :=
  List.filter (fun b => 2 <=? Z.of_nat (length b.2)) bs.

(** The table as the database last saw it. *)
Definition saved (t : table) (p : progress) : table := default t (head (pg_commits p)).

Lemma multi_cons b bs : multi (b :: bs) = (if Z.of_nat (length b.2) <? 2 then [] else [b]) ++ multi bs.
Proof.
  unfold multi. cbn. destruct (2 <=? _) eqn:E, (_ <? 2) eqn:E'; try done;
    rewrite ?Z.leb_le, ?Z.leb_gt, ?Z.ltb_lt, ?Z.ltb_ge in *; lia.
Qed.

(** The loop: the buckets of two rows or more, collapsed one after the other, a
    prefix of them at every commit. *)
Lemma roll_loop chunk t0 bs p :
  0 <= pg_pending p -> (pg_pending p = 0 -> saved t0 p = pg_table p) ->
  let p' := foldl (roll_step bucket_s chunk) p bs in
  pg_table p' = collapses (pg_table p) (multi bs) /\
  pg_written p' = pg_written p + Z.of_nat (length (multi bs)) /\
  pg_removed p' = pg_removed p + Z.of_nat (length (ids_of (multi bs))) /\
  0 <= pg_pending p' /\ (pg_pending p' = 0 -> saved t0 p' = pg_table p') /\
  (forall t', t' ∈ pg_commits p' -> t' ∈ pg_commits p \/
     exists bs', bs' `prefix_of` multi bs /\ t' = collapses (pg_table p) bs').
Proof.
  revert p. induction bs as [|b bs IH]; intros p Hp Hsaved; cbn [foldl].
  { cbn. split_and!; auto; unfold ids_of; cbn; lia. }
  rewrite multi_cons. set (n := Z.of_nat (length b.2)). set (step := roll_step bucket_s chunk p b).
  destruct (n <? 2) eqn:En.
  { replace step with p by (unfold step, roll_step; fold n; by rewrite En). by apply IH. }
  set (t := collapse bucket_s b (pg_table p)).
  assert (pg_table step = t /\ pg_written step = pg_written p + 1 /\ pg_removed step = pg_removed p + n /\
          0 <= pg_pending step /\ (pg_pending step = 0 -> saved t0 step = pg_table step) /\
          (forall t', t' ∈ pg_commits step -> t' ∈ pg_commits p \/ t' = t)) as (E1 & E2 & E3 & E4 & E5 & E6).
  { unfold step, roll_step. fold n. rewrite En. apply Z.ltb_ge in En.
    destruct (chunk <=? _); cbn; split_and!; auto; try lia. set_solver. }
  destruct (IH step E4 E5) as (F1 & F2 & F3 & F4 & F5 & F6). rewrite E1 in F1, F6. cbn [app foldl].
  unfold ids_of in *. cbn [fmap list_fmap concat length]. rewrite fmap_app, length_app, length_fmap.
  fold n. split_and!; try done; try lia.
  intros t' Ht'. destruct (F6 t' Ht') as [Hc|(bs' & Hpre & ->)].
  - destruct (E6 t' Hc) as [?| ->]; [by left|]. right. exists [b]. split; [|done].
    apply (prefix_app_r [b] [b] (multi bs)). done.
  - right. exists (b :: bs'). split; [|done]. by apply prefix_cons.
Qed.

Definition counters (s : MetricSample) :=
  (ms_events_total s, ms_bytes_total s, ms_hec_2xx s, ms_hec_4xx s, ms_hec_5xx s, ms_hec_timeouts s,
   ms_retries s, ms_queue_depth s, ms_engine_threads s, ms_cpu_limit_cores s).

(** An aggregate has the counters of the latest of its rows. *)
Lemma agg_of_spec b s : agg_of b = Some s ->
  ms_slot s = b.1.1.2 /\ ms_ts s = b.1.2 * bucket_s * usec /\
  exists l, l ∈ b.2 /\ counters s = counters (row_sample l) /\ forall m, m ∈ b.2 -> row_ts m <= row_ts l.
Proof.
  destruct b as [[[run slot] idx] ms]. cbn. unfold aggregate_bucket.
  destruct (last (row_sample <$> merge_sort earlier ms)) as [x|] eqn:E; [|done]. intros [= <-]. cbn.
  split_and!; [done..|]. rewrite fmap_last in E.
  destruct (last (merge_sort earlier ms)) as [l|] eqn:El; [|done]. injection E as <-.
  assert (StronglySorted earlier (merge_sort earlier ms)) as Hsort.
  { apply StronglySorted_merge_sort; [intros r1 r2 r3|intros r1 r2]; unfold earlier; lia. }
  apply last_Some in El as [ms' El]. rewrite El in Hsort.
  exists l. split_and!; [|done|].
  - rewrite <- (merge_sort_Permutation earlier ms), El. set_solver.
  - intros m. rewrite <- (merge_sort_Permutation earlier ms), El.
    intros [Hm| ->%list_elem_of_singleton]%elem_of_app; [|done].
    apply (StronglySorted_app_1_elem_of earlier ms' [l] m l); [done..|]. by apply list_elem_of_singleton.
Qed.

(** The bucket of an instant. *)
Lemma bucket_bounds r : 0 <= row_ts r ->
  (bkey r).2 * bucket_s * usec <= row_ts r < ((bkey r).2 + 1) * bucket_s * usec.
Proof.
  intros Hr. unfold bucket_key, usec. cbn. rewrite Z.quot_div_nonneg by lia.
  pose proof (Z.div_mod (row_ts r) 1000000 ltac:(lia)). pose proof (Z.mod_pos_bound (row_ts r) 1000000 ltac:(lia)).
  pose proof (Z.div_mod (row_ts r / 1000000) bucket_s ltac:(lia)).
  pose proof (Z.mod_pos_bound (row_ts r / 1000000) bucket_s ltac:(lia)). nia.
Qed.

Definition aggregates (b : key * list row) (r : row) : Prop :=
  row_run r = b.1.1.1 /\ agg_of b = Some (row_sample r).

Lemma agg_rows_in next bs r : r ∈ agg_rows next bs -> exists b, b ∈ bs /\ aggregates b r /\ next <= row_id r.
Proof.
  revert next. induction bs as [|b bs IH]; intros next; cbn; [set_solver|].
  destruct (agg_of b) as [s|] eqn:E.
  - intros [->|Hr]%elem_of_cons; [exists b; split; [left|]; split; [by split|cbn; lia]|].
    destruct (IH _ Hr) as (b' & ? & ? & ?). exists b'. split; [by right|]. split; [done|lia].
  - intros Hr. destruct (IH _ Hr) as (b' & ? & ? & ?). exists b'. split; [by right|]. split; [done|lia].
Qed.

Lemma agg_rows_has next bs b : b ∈ bs -> b.2 <> [] -> exists r, r ∈ agg_rows next bs /\ aggregates b r.
Proof.
  revert next. induction bs as [|b' bs IH]; intros next; [set_solver|]. intros [->|Hb]%elem_of_cons Hne; cbn.
  - destruct (agg_of_some b' Hne) as [s Es]. rewrite Es. eexists. split; [left|by split].
  - destruct (agg_of b').
    + destruct (IH (next + 1) Hb Hne) as (r & ? & ?). exists r. split; [by right|done].
    + apply (IH next Hb Hne).
Qed.

Lemma agg_rows_ids next bs : NoDup (row_id <$> agg_rows next bs) /\
  forall r, r ∈ agg_rows next bs -> row_id r < next + Z.of_nat (length bs).
Proof.
  revert next. induction bs as [|b bs IH]; intros next; cbn; [split; [apply NoDup_nil_2|set_solver]|].
  destruct (agg_of b) as [s|].
  - destruct (IH (next + 1)) as [H1 H2]. cbn. split.
    + apply NoDup_cons. split; [|done]. intros (r & E & Hr)%list_elem_of_fmap.
      destruct (agg_rows_in _ _ _ Hr) as (_ & _ & _ & ?). lia.
    + intros r [->|Hr]%elem_of_cons; [cbn; lia|]. specialize (H2 r Hr). lia.
  - destruct (IH next) as [H1 H2]. split; [done|]. intros r Hr. specialize (H2 r Hr). lia.
Qed.

(** An aggregate stands at the floor of its bucket. *)
Lemma aggregates_key b r : aggregates b r ->
  b.1 = (row_run r, ms_slot (row_sample r), row_ts r / (bucket_s * usec)) /\
  row_ts r = b.1.2 * bucket_s * usec.
Proof.
  intros [Er Es]. destruct (agg_of_spec b _ Es) as (E1 & E2 & _). unfold row_ts. split; [|done].
  rewrite Er, E1, E2, <- Z.mul_assoc, Z.div_mul by (unfold usec; lia). by destruct b as [[[??]?]?].
Qed.

Lemma agg_rows_inj next bs r r' :
  NoDup (fst <$> bs) -> r ∈ agg_rows next bs -> r' ∈ agg_rows next bs ->
  row_run r = row_run r' -> ms_slot (row_sample r) = ms_slot (row_sample r') -> row_ts r = row_ts r' -> r = r'.
Proof.
  intros Hn Hr Hr' E1 E2 E3. revert next Hr Hr'. induction bs as [|b bs IH]; intros next; cbn; [set_solver|].
  apply NoDup_cons in Hn as [Hb Hn].
  assert (forall x y, aggregates b x -> y ∈ agg_rows (next + 1) bs -> row_run x = row_run y ->
    ms_slot (row_sample x) = ms_slot (row_sample y) -> row_ts x = row_ts y -> False) as Hdiff.
  { intros x y [Hx _]%aggregates_key Hy F1 F2 F3.
    destruct (agg_rows_in _ _ _ Hy) as (b' & Hb' & [Hk _]%aggregates_key & _).
    apply Hb. rewrite Hx, F1, F2, F3, <- Hk. by apply list_elem_of_fmap_2. }
  destruct (agg_of b) as [s|] eqn:Es; [|by apply IH].
  assert (aggregates b (mkRow next b.1.1.1 s)) as Ha by (by split).
  intros [->|Hr]%elem_of_cons [->|Hr']%elem_of_cons; [done| | |by eapply IH].
  - by destruct (Hdiff _ _ Ha Hr').
  - by destruct (Hdiff _ _ Ha Hr).
Qed.

Lemma agg_rows_length next bs : (forall b, b ∈ bs -> b.2 <> []) -> length (agg_rows next bs) = length bs.
Proof.
  revert next. induction bs as [|b bs IH]; intros next H; cbn; [done|].
  destruct (agg_of_some b) as [s ->]; [apply H; left|]. cbn. f_equal. apply IH. intros b' ?. apply H. by right.
Qed.

(** ** A table on the way *)

Section Query.
Context (by_ts : list row -> list row) (by_ts_perm : forall l, by_ts l ≡ₚ l).

Lemma fetched_in before t r :
  r ∈ by_ts (List.filter (older before) (t_rows t)) <-> r ∈ t_rows t /\ row_ts r < before.
Proof. rewrite by_ts_perm, elem_filter. unfold older. by rewrite Z.ltb_lt. Qed.

Section Along.
Context (before : Z) (t : table) (Ht : wf_table t).
Abbreviation fetched := (by_ts (List.filter (older before) (t_rows t))).

Context (bs : list (key * list row)) (Hbs : bs `prefix_of` multi (group bucket_s fetched)).

Lemma along_group b : b ∈ bs -> b ∈ group bucket_s fetched /\ b.2 <> [].
Proof.
  intros Hb. assert (b ∈ multi (group bucket_s fetched)) as [Hg _]%elem_filter.
  { destruct Hbs as [l ->]. set_solver. }
  split; [done|]. apply (g_members _ _ _ (group_spec bucket_s fetched) b Hg).
Qed.

Lemma along_member b r : b ∈ bs -> r ∈ b.2 <-> r ∈ t_rows t /\ row_ts r < before /\ bkey r = b.1.
Proof.
  intros Hb. rewrite (group_in bucket_s fetched b r) by by apply along_group. rewrite fetched_in. tauto.
Qed.

Lemma along_ids i : i ∈ ids_of bs <-> exists b r, b ∈ bs /\ r ∈ b.2 /\ row_id r = i.
Proof.
  unfold ids_of. rewrite list_elem_of_fmap. setoid_rewrite list_elem_of_In at 1. setoid_rewrite in_concat.
  split.
  - intros (r & -> & l & (b & <- & Hb)%List.in_map_iff & Hr). exists b, r. rewrite !list_elem_of_In. done.
  - intros (b & r & Hb & Hr & <-). exists r. split; [done|]. exists b.2. rewrite !list_elem_of_In in *.
    split; [|done]. apply List.in_map_iff. eauto.
Qed.

(** The rows of the collapsed buckets are gone. *)
Lemma along_gone r : r ∈ t_rows t -> row_id r ∈ ids_of bs <-> exists b, b ∈ bs /\ r ∈ b.2.
Proof.
  intros Hr. rewrite along_ids. split; [|by intros (b & ? & ?); exists b, r].
  intros (b & r' & Hb & Hr' & E). exists b. split; [done|].
  pose proof Hr' as (Hin & _)%(along_member b r' Hb).
  by rewrite (row_by_id _ r r' (wt_ids t Ht) Hr Hin (eq_sym E)).
Qed.

Lemma along_rows : t_rows (collapses t bs) =
    List.filter (fun r => negb (bool_decide (row_id r ∈ ids_of bs))) (t_rows t) ++ agg_rows (t_next t) bs
  /\ t_next (collapses t bs) = t_next t + Z.of_nat (length bs).
Proof.
  apply collapse_all; [intros b Hb; by apply along_group|].
  intros i (b & r & Hb & Hr & <-)%along_ids. apply (along_member b r Hb) in Hr as (Hr & _).
  by apply (wt_next t Ht).
Qed.

Lemma along_in r : r ∈ t_rows (collapses t bs) ->
  (r ∈ t_rows t /\ ~ exists b, b ∈ bs /\ r ∈ b.2) \/ exists b, b ∈ bs /\ aggregates b r.
Proof.
  rewrite (proj1 along_rows). intros [[Hr Hn]%elem_filter|Hr]%elem_of_app.
  - left. split; [done|]. rewrite <- along_gone by done. by apply negb_true_iff, bool_decide_eq_false in Hn.
  - right. destruct (agg_rows_in _ _ _ Hr) as (b & ? & ? & _). eauto.
Qed.

Lemma along_survives r : r ∈ t_rows t -> (~ exists b, b ∈ bs /\ r ∈ b.2) -> r ∈ t_rows (collapses t bs).
Proof.
  intros Hr Hn. rewrite (proj1 along_rows). apply elem_of_app. left. apply elem_filter. split; [done|].
  apply negb_true_iff, bool_decide_eq_false. by rewrite along_gone.
Qed.

Lemma along_agg b : b ∈ bs -> exists r, r ∈ t_rows (collapses t bs) /\ aggregates b r.
Proof.
  intros Hb. destruct (agg_rows_has (t_next t) bs b Hb (proj2 (along_group b Hb))) as (r & Hr & Ha).
  exists r. split; [|done]. rewrite (proj1 along_rows). apply elem_of_app. by right.
Qed.

Lemma along_nodup : NoDup (fst <$> bs).
Proof.
  assert (NoDup (fst <$> multi (group bucket_s fetched))) as H
    by apply NoDup_filter, (g_keys _ _ _ (group_spec bucket_s fetched)).
  destruct Hbs as [l El]. rewrite El, fmap_app in H. by apply NoDup_app in H as (? & _).
Qed.

(** A row in the bucket of an aggregate, no later than it, is one of its rows. *)
Lemma along_floor b r r' :
  b ∈ bs -> aggregates b r -> r' ∈ t_rows t -> row_run r' = row_run r ->
  ms_slot (row_sample r') = ms_slot (row_sample r) -> (bkey r').2 = b.1.2 -> row_ts r' < before -> r' ∈ b.2.
Proof.
  intros Hb [Hk _]%aggregates_key Hr' E1 E2 E3 Hlt. apply (along_member b r' Hb). split_and!; [done..|].
  destruct b as [[[run slot] idx] ms]. cbn in *. injection Hk as -> -> _.
  unfold bucket_key in *. cbn in E3. by rewrite E1, E2, E3.
Qed.

Lemma along_floor_old b r : b ∈ bs -> aggregates b r -> 0 <= b.1.2 /\ row_ts r < before.
Proof.
  intros Hb [_ Hts]%aggregates_key.
  destruct (b.2) as [|m ms] eqn:E; [by destruct (along_group b Hb)|].
  assert (m ∈ b.2) as (Hm & Hlt & Hk)%(along_member b m Hb) by (rewrite E; left).
  pose proof (wt_epoch t Ht m Hm) as H0. pose proof (bucket_bounds m H0) as Hbb. rewrite Hk in Hbb.
  split; [|lia]. assert (0 < (b.1.2 + 1) * bucket_s * usec) by lia. unfold usec in *. nia.
Qed.

Lemma along_wf : wf_table (collapses t bs).
Proof.
  destruct along_rows as [Erows Enext].
  destruct (agg_rows_ids (t_next t) bs) as [Hids Hlt]. split.
  - rewrite Erows, fmap_app. apply NoDup_app. split_and!; [apply NoDup_filter, Ht| |done].
    intros i (r & -> & [Hr _]%elem_filter)%list_elem_of_fmap (r' & E & Hr')%list_elem_of_fmap.
    apply (wt_next t Ht) in Hr. destruct (agg_rows_in _ _ _ Hr') as (_ & _ & _ & ?). lia.
  - intros r. rewrite Erows, Enext. intros [[Hr _]%elem_filter|Hr]%elem_of_app; [|auto].
    apply (wt_next t Ht) in Hr. lia.
  - intros r [[Hr _]|(b & Hb & Ha)]%along_in; [by apply Ht|].
    destruct (along_floor_old b r Hb Ha) as [? _]. apply aggregates_key in Ha as [_ ->]. unfold usec. nia.
  - assert (forall r r', r ∈ t_rows t -> (~ exists b, b ∈ bs /\ r ∈ b.2) -> r' ∈ agg_rows (t_next t) bs ->
      row_run r = row_run r' -> ms_slot (row_sample r) = ms_slot (row_sample r') -> row_ts r = row_ts r' ->
      False) as Hmix.
    { intros r r' Hr Hs' Hr' E1 E2 E3. destruct (agg_rows_in _ _ _ Hr') as (b & Hb & Ha & _). apply Hs'.
      exists b. split; [done|]. destruct (along_floor_old b r' Hb Ha).
      apply (along_floor b r' r); try done; [|congruence].
      pose proof (bucket_bounds r (wt_epoch t Ht r Hr)). apply aggregates_key in Ha as [_ Hts].
      unfold usec in *. nia. }
    intros r r'. rewrite Erows.
    intros [[Hr Hn]%elem_filter|Hr]%elem_of_app [[Hr' Hn']%elem_filter|Hr']%elem_of_app E1 E2 E3.
    + by apply (wt_instants t Ht).
    + destruct (Hmix r r'); try done. rewrite <- along_gone by done.
      by apply negb_true_iff, bool_decide_eq_false in Hn.
    + destruct (Hmix r' r); try done. rewrite <- along_gone by done.
      by apply negb_true_iff, bool_decide_eq_false in Hn'.
    + by apply (agg_rows_inj (t_next t) bs); [apply along_nodup|..].
Qed.

Lemma members_nodup : NoDup (concat (snd <$> bs)).
Proof.
  assert (forall b, b ∈ bs -> NoDup b.2 /\ forall r, r ∈ b.2 -> bkey r = b.1) as H.
  { intros b Hb. split; [|intros r Hr; by apply (along_member b r Hb) in Hr as (_ & _ & ?)].
    destruct (g_members _ _ _ (group_spec bucket_s fetched) b) as [-> _]; [by apply along_group|].
    apply (NoDup_fmap_1 row_id), NoDup_filter. rewrite by_ts_perm. by apply NoDup_filter, Ht. }
  pose proof along_nodup as Hn. clear Hbs. induction bs as [|b l IH]; cbn; [apply NoDup_nil_2|].
  apply NoDup_cons in Hn as [Hb Hn]. apply NoDup_app. split_and!; [apply H; left| |].
  - intros r Hr Hr'. apply Hb. rewrite <- (proj2 (H b ltac:(left)) r Hr).
    apply list_elem_of_In, in_concat in Hr' as (x & (b' & <- & Hb')%List.in_map_iff & Hr').
    apply list_elem_of_In in Hb', Hr'. rewrite (proj2 (H b' ltac:(by right)) r Hr'). by apply list_elem_of_fmap_2.
  - apply IH; [|done]. intros b' ?. apply H. by right.
Qed.

(** The rows that are left, and the rows that were collapsed. *)
Lemma along_length :
  (length (t_rows (collapses t bs)) + length (ids_of bs) = length (t_rows t) + length bs)%nat.
Proof.
  rewrite (proj1 along_rows), length_app, agg_rows_length by (intros b ?; by apply along_group).
  set (gone r := bool_decide (row_id r ∈ ids_of bs)).
  assert (List.filter gone (t_rows t) ≡ₚ concat (snd <$> bs)) as Hp.
  { apply NoDup_Permutation; [apply (NoDup_fmap_1 row_id), NoDup_filter, Ht|apply members_nodup|].
    intros r. rewrite elem_filter. unfold gone. rewrite bool_decide_eq_true.
    rewrite (list_elem_of_In (concat _) r), in_concat. split.
    - intros [Hr Hg]. apply along_gone in Hg as (b & Hb & Hrb); [|done]. exists b.2. split; [|by apply list_elem_of_In].
      apply List.in_map_iff. exists b. split; [done|]. by apply list_elem_of_In.
    - intros (x & (b & <- & Hb)%List.in_map_iff & Hr). apply list_elem_of_In in Hb, Hr.
      pose proof Hr as (Hin & _)%(along_member b r Hb). split; [done|]. apply along_gone; [done|]. by exists b. }
  assert (length (ids_of bs) = length (List.filter gone (t_rows t))) as -> by (rewrite Hp; apply length_fmap).
  pose proof (List.filter_length gone (t_rows t)) as Hl. unfold gone in *. cbn in *. lia.
Qed.

(** [r] is the latest sample of its slot. *)
Definition newest (run : Z) (slot : nat) (r : row) (rows : list row) : Prop :=
  r ∈ rows /\ row_run r = run /\ ms_slot (row_sample r) = slot /\
  forall r', r' ∈ rows -> row_run r' = run -> ms_slot (row_sample r') = slot -> row_ts r' <= row_ts r.

(** Whichever row has become a slot's latest, the counters are the same. *)
Lemma along_newest run slot r :
  newest run slot r (t_rows t) ->
  exists r', newest run slot r' (t_rows (collapses t bs)) /\
    counters (row_sample r') = counters (row_sample r).
Proof.
  intros (Hr & Er & Es & Hmax).
  assert (forall b x, b ∈ bs -> aggregates b x -> row_run x = run -> ms_slot (row_sample x) = slot ->
    row_ts x <= row_ts r /\ b.1.2 <= (bkey r).2) as Hagg.
  { intros b x Hb Ha Ex1 Ex2. pose proof (aggregates_key b x Ha) as [Hk Hts].
    destruct (b.2) as [|m ms] eqn:E; [by destruct (along_group b Hb)|].
    assert (m ∈ b.2) as (Hm & _ & Hkm)%(along_member b m Hb) by (rewrite E; left).
    assert (row_ts m <= row_ts r).
    { apply Hmax; [done|..]; rewrite Hk in Hkm; unfold bucket_key in Hkm; injection Hkm; congruence. }
    pose proof (bucket_bounds m (wt_epoch t Ht m Hm)) as Hbm. rewrite Hkm in Hbm.
    pose proof (bucket_bounds r (wt_epoch t Ht r Hr)). unfold usec in *. split; nia. }
  destruct (decide (row_id r ∈ ids_of bs)) as [Hg|Hg]; rewrite along_gone in Hg by done.
  - destruct Hg as (b & Hb & Hrb). destruct (along_agg b Hb) as (x & Hx & Ha). pose proof Ha as [Hrun Hagg'].
    destruct (agg_of_spec b _ Hagg') as (Hslot & Hts & l & Hl & Hc & Hlmax).
    pose proof Hrb as (_ & Hlt & Hkr)%(along_member b r Hb). pose proof Hl as (Hlt' & _ & Hkl)%(along_member b l Hb).
    assert (row_run x = run /\ ms_slot (row_sample x) = slot /\ row_run l = run /\ ms_slot (row_sample l) = slot)
      as (? & ? & ? & ?).
    { rewrite Hrun, Hslot, <- Hkr. rewrite <- Hkr in Hkl. unfold bucket_key in *. cbn.
      injection Hkl as -> -> _. done. }
    assert (l = r) as ->. { apply (wt_instants t Ht); try done; try congruence. specialize (Hlmax r Hrb).
      specialize (Hmax l). lia || (assert (row_ts l <= row_ts r) by auto; lia). }
    exists x. split; [|done]. split_and!; [done..|]. intros y Hy Ey1 Ey2.
    destruct (along_in y Hy) as [[Hin Hn]|(b' & Hb' & Ha')].
    + destruct (Z.le_gt_cases (row_ts y) (row_ts x)) as [|Hgt]; [done|]. exfalso. apply Hn. exists b.
      split; [done|]. assert (row_ts y <= row_ts r) by auto. apply (along_floor b x y Hb Ha Hin); [congruence..| |lia].
      pose proof (bucket_bounds y (wt_epoch t Ht y Hin)). pose proof (bucket_bounds r (wt_epoch t Ht r Hr)).
      apply aggregates_key in Ha as [_ Hx']. rewrite Hkr in *. unfold usec in *. nia.
    + destruct (Hagg b' y Hb' Ha' Ey1 Ey2) as [_ Hle]. apply aggregates_key in Ha as [_ ->], Ha' as [_ ->].
      rewrite <- Hkr. unfold usec. nia.
  - exists r. split; [|done]. split_and!; [by apply along_survives|done..|].
    intros y Hy Ey1 Ey2. destruct (along_in y Hy) as [[Hin _]|(b' & Hb' & Ha')]; [by apply Hmax|].
    by apply (Hagg b' y).
Qed.
End Along.

Lemma roll_up_tables before chunk t :
  let p := roll_up by_ts before bucket_s chunk t in
  let bs := multi (group bucket_s (by_ts (List.filter (older before) (t_rows t)))) in
  pg_table p = collapses t bs /\ saved t p = pg_table p /\
  pg_written p = Z.of_nat (length bs) /\ pg_removed p = Z.of_nat (length (ids_of bs)) /\
  forall t', t' ∈ pg_commits p -> exists bs', bs' `prefix_of` bs /\ t' = collapses t bs'.
Proof.
  cbn zeta. unfold roll_up. set (fetched := by_ts _). set (p0 := mkProgress t 0 0 0 []).
  destruct (roll_loop chunk t (group bucket_s fetched) p0) as (E1 & E2 & E3 & E4 & E5 & E6); [done..|].
  cbn [pg_table pg_written pg_removed pg_commits p0] in *.
  assert (forall t', t' ∈ pg_commits (foldl (roll_step bucket_s chunk) p0 (group bucket_s fetched)) ->
    exists bs', bs' `prefix_of` multi (group bucket_s fetched) /\ t' = collapses t bs') as Hc.
  { intros t' Ht'. destruct (E6 t' Ht') as [Hin|?]; [set_solver|done]. }
  destruct (pg_pending _ =? 0) eqn:Ep.
  - apply Z.eqb_eq in Ep. split_and!; try done; auto; lia.
  - cbn. split_and!; try done; try lia. intros t' [->|Ht']%elem_of_cons; [by eexists|auto].
Qed.

Lemma newest_unique t run slot r r' :
  wf_table t -> newest run slot r (t_rows t) -> newest run slot r' (t_rows t) -> r = r'.
Proof.
  intros Ht (Hr & E1 & E2 & Hm) (Hr' & E1' & E2' & Hm'). apply (wt_instants t Ht); try done; try congruence.
  specialize (Hm r' Hr' E1' E2'). specialize (Hm' r Hr E1 E2). lia.
Qed.

(** Deleting rows keeps a table well formed. *)
Lemma kept_wf before t : wf_table t -> wf_table (mkTable (t_next t) (kept before (t_rows t))).
Proof.
  intros Ht. assert (forall r, r ∈ kept before (t_rows t) -> r ∈ t_rows t) as Hin by (by intros r [? _]%elem_filter).
  split; cbn; [by apply NoDup_filter, Ht|intros r ?; by apply Ht, Hin|intros r ?; by apply Ht, Hin|].
  intros r r' ? ?. apply Ht; by apply Hin.
Qed.

Lemma kept_newest before t run slot r :
  newest run slot r (t_rows t) -> before <= row_ts r ->
  newest run slot r (kept before (t_rows t)).
Proof.
  intros (Hr & E1 & E2 & Hm) Hb. split_and!; [|done..|by intros r' [Hr' _]%elem_filter; apply Hm].
  apply elem_filter. split; [done|]. unfold older. apply negb_true_iff, Z.ltb_ge. lia.
Qed.

(** After a roll-up, a bucket has at most one old row. *)
Lemma roll_up_minimal before chunk t r r' :
  wf_table t -> let t' := pg_table (roll_up by_ts before bucket_s chunk t) in
  r ∈ t_rows t' -> r' ∈ t_rows t' -> row_ts r < before -> row_ts r' < before -> bkey r = bkey r' -> r = r'.
Proof.
  intros Ht. cbn zeta. rewrite (proj1 (roll_up_tables before chunk t)).
  set (F := by_ts _). set (bs := multi (group bucket_s F)).
  assert (bs `prefix_of` bs) as Hpre by done.
  assert (forall b x, b ∈ bs -> aggregates b x -> bkey x = b.1) as Hkey.
  { intros b x Hb Ha. destruct (along_floor_old before t Ht bs Hpre b x Hb Ha) as [H0 _].
    pose proof (aggregates_key b x Ha) as [Hk Hts].
    assert (0 <= row_ts x) by (rewrite Hts; unfold usec; nia). rewrite Hk. unfold bucket_key. f_equal.
    rewrite Z.quot_div_nonneg, Z.div_div by (unfold usec; lia). by rewrite (Z.mul_comm usec). }
  assert (forall x y, x ∈ t_rows t -> (~ exists b, b ∈ bs /\ x ∈ b.2) -> y ∈ t_rows (collapses t bs) ->
    row_ts x < before -> row_ts y < before -> bkey x = bkey y -> x = y) as Hone.
  { intros x y Hx Hn Hy Hlt Hlt' Hk.
    destruct (along_in before t Ht bs Hpre y Hy) as [[Hy' _]|(b & Hb & Ha)].
    - destruct (group_of bucket_s F x) as (b & Hb & Hxb); [by apply fetched_in|].
      pose proof Hxb as [_ Ex]%(group_in bucket_s F b x Hb).
      assert (y ∈ b.2) as Hyb by (apply (group_in bucket_s F b y Hb); split; [by apply fetched_in|congruence]).
      destruct (decide (2 <= Z.of_nat (length b.2))) as [H2|H2].
      + destruct Hn. exists b. split; [|done]. apply elem_filter. split; [done|]. by apply Z.leb_le.
      + destruct b as [k [|z [|z' ms]]]; cbn in *; [set_solver|set_solver|lia].
    - destruct Hn. exists b. split; [done|]. apply (along_member before t Ht bs Hpre b x Hb).
      split_and!; [done..|]. rewrite Hk. by apply Hkey. }
  intros Hr Hr' Hlt Hlt' Hk.
  destruct (along_in before t Ht bs Hpre r Hr) as [[Hin Hn]|(b & Hb & Ha)]; [by apply Hone|].
  destruct (along_in before t Ht bs Hpre r' Hr') as [[Hin Hn]|(b' & Hb' & Ha')]; [by symmetry; apply Hone|].
  pose proof (Hkey b r Hb Ha) as E. pose proof (Hkey b' r' Hb' Ha') as E'.
  apply aggregates_key in Ha as [Ek Ets], Ha' as [Ek' Ets'].
  apply (wt_instants _ (along_wf before t Ht bs Hpre)); try done; congruence.
Qed.

(** Where every bucket has one row at most there is nothing to do. *)
Lemma roll_up_idle before chunk t :
  NoDup (row_id <$> t_rows t) ->
  (forall r r', r ∈ t_rows t -> r' ∈ t_rows t -> row_ts r < before -> row_ts r' < before ->
     bkey r = bkey r' -> r = r') ->
  roll_up by_ts before bucket_s chunk t = mkProgress t 0 0 0 [].
Proof.
  intros Hn Hone. unfold roll_up. set (F := by_ts _).
  assert (multi (group bucket_s F) = []) as Hm.
  { apply filter_none. intros b Hb. apply Z.leb_gt.
    destruct (g_members _ _ _ (group_spec bucket_s F) b Hb) as [Eb _].
    assert (NoDup (row_id <$> b.2)) as Hd.
    { rewrite Eb. apply NoDup_filter. unfold F. rewrite by_ts_perm. by apply NoDup_filter. }
    assert (forall r, r ∈ b.2 -> r ∈ t_rows t /\ row_ts r < before /\ bkey r = b.1) as Hin.
    { intros r [Hr ?]%(group_in bucket_s F b r Hb). apply fetched_in in Hr as []. done. }
    destruct b as [k [|r [|r' ms]]]; cbn in *; [lia|lia|]. exfalso.
    destruct (Hin r) as (? & ? & ?); [left|]. destruct (Hin r') as (? & ? & ?); [right; left|].
    assert (r = r') as <- by (apply Hone; congruence). apply NoDup_cons in Hd as [Hd _]. apply Hd. left. }
  assert (forall p, foldl (roll_step bucket_s chunk) p (group bucket_s F) = p) as ->; [|done].
  intros p. revert Hm. generalize (group bucket_s F). clear. intros bs. induction bs as [|b bs IH]; [done|].
  rewrite multi_cons. destruct (_ <? 2) eqn:E; [|done]. intros Hm. cbn [foldl].
  replace (roll_step bucket_s chunk p b) with p by (unfold roll_step; by rewrite E). by apply IH.
Qed.
End Query.
End Facts.

(** ** Theorems *)

(** C28: The maintenance pass keeps what the live view reads.  On a table with
    one sample per slot and instant, and with one round of the prune loop per
    row and one more, the pass returns; its last commit is the table it leaves;
    and in that table and in every table it commits on the way (the pass may be
    cut off after any of them) the latest sample of every slot, unless it is old
    enough to be pruned, has the counters it had before. *)
Theorem maintenance_keeps_counters {R : Rounding} by_ts fuel rollup_h prune_d bucket chunk now t :
  (forall l, by_ts l ≡ₚ l) -> wf_table t -> (length (t_rows t) < fuel)%nat ->
  exists p pruned,
    roll_up_and_prune by_ts fuel rollup_h prune_d bucket chunk now t = Some (p, pruned) /\
    (pg_commits p = [] \/ head (pg_commits p) = Some (pg_table p)) /\
    forall t', t' = pg_table p \/ t' ∈ pg_commits p ->
      wf_table t' /\
      forall run slot r, newest run slot r (t_rows t) -> now - prune_d * 86400 * usec <= row_ts r ->
        (exists r', newest run slot r' (t_rows t')) /\
        forall r', newest run slot r' (t_rows t') -> counters (row_sample r') = counters (row_sample r).
Proof.
  intros Hperm Ht Hf. unfold roll_up_and_prune. set (pb := now - prune_d * 86400 * usec).
  rewrite prune_spec; [|apply Ht|lia|].
  2:{ eapply Nat.le_lt_trans; [apply List.filter_length_le|done]. }
  set (t1 := mkTable (t_next t) _). pose proof (kept_wf pb t Ht) as Ht1. fold t1 in Ht1.
  set (rb := now - rollup_h * 3600 * usec). set (bucket_s := Z.max 1 bucket).
  assert (1 <= bucket_s) as Hs by lia.
  destruct (roll_up_tables bucket_s Hs by_ts Hperm rb (Z.max 1 chunk) t1) as (E1 & E2 & _ & _ & Hc).
  eexists _, _. split_and!; [done| |].
  { unfold saved in E2. destruct (pg_commits _); [by left|]. right. cbn in *. congruence. }
  intros t' Ht'. assert (exists bs, bs `prefix_of`
    multi (group bucket_s (by_ts (List.filter (older rb) (t_rows t1)))) /\ t' = collapses bucket_s t1 bs)
    as (bs & Hbs & ->).
  { destruct Ht' as [->|?]; [by eexists|auto]. }
  pose proof (along_wf bucket_s Hs by_ts Hperm rb t1 Ht1 bs Hbs) as Hwf. split; [done|].
  intros run slot r Hr Hts. pose proof (kept_newest pb t run slot r Hr Hts) as Hr1.
  destruct (along_newest bucket_s Hs by_ts Hperm rb t1 Ht1 bs Hbs run slot r Hr1) as (x & Hx & Ex).
  split; [by exists x|]. intros r' Hr'. by rewrite (newest_unique _ _ _ _ _ Hwf Hr' Hx).
Qed.

(** The roll-up compacts the old rows and nothing else, and is idempotent.
    The rows from the window on are left alone, in their order; of the rows
    before it at most one is left per slot and bucket of time; the counts it
    returns are the rows it deleted and added; and a second pass with the same
    window does nothing. *)
Theorem roll_up_compacts {R : Rounding} by_ts before bucket_s chunk t :
  (forall l, by_ts l ≡ₚ l) -> 1 <= bucket_s -> wf_table t ->
  let p := roll_up by_ts before bucket_s chunk t in
  let rows := t_rows (pg_table p) in
  kept before rows = kept before (t_rows t) /\
  (forall r r', r ∈ rows -> r' ∈ rows -> row_ts r < before -> row_ts r' < before ->
     bucket_key bucket_s r = bucket_key bucket_s r' -> r = r') /\
  Z.of_nat (length rows) = Z.of_nat (length (t_rows t)) - pg_removed p + pg_written p /\
  roll_up by_ts before bucket_s chunk (pg_table p) = mkProgress (pg_table p) 0 0 0 [].
Proof.
  intros Hperm Hs Ht. cbn zeta.
  pose proof (roll_up_minimal bucket_s Hs by_ts Hperm before chunk t) as Hone. cbn zeta in Hone.
  destruct (roll_up_tables bucket_s Hs by_ts Hperm before chunk t) as (E1 & _ & E3 & E4 & _).
  set (bs := multi _) in *. assert (bs `prefix_of` bs) as Hpre by done.
  pose proof (along_wf bucket_s Hs by_ts Hperm before t Ht bs Hpre) as Hwf.
  pose proof (along_rows bucket_s Hs by_ts Hperm before t Ht bs Hpre) as [Er _].
  split_and!; [|intros; by apply Hone| |].
  - rewrite E1, Er, List.filter_app, filter_comm, filter_all, (filter_none _ (agg_rows _ _ _)); [apply app_nil_r| |].
    + intros r (b & Hb & Ha & _)%(agg_rows_in bucket_s Hs). unfold older.
      apply negb_false_iff, Z.ltb_lt. by apply (along_floor_old bucket_s Hs by_ts Hperm before t Ht bs Hpre b r).
    + intros r [Hr Hn]%elem_filter. apply negb_true_iff, bool_decide_eq_false.
      rewrite (along_gone bucket_s Hs by_ts Hperm before t Ht bs Hpre r Hr). intros (b & Hb & Hrb).
      apply (along_member bucket_s Hs by_ts Hperm before t Ht bs Hpre b r Hb) in Hrb as (_ & ? & _).
      unfold older in Hn. apply negb_true_iff, Z.ltb_ge in Hn. lia.
  - rewrite E1, E3, E4. pose proof (along_length bucket_s Hs by_ts Hperm before t Ht bs Hpre). lia.
  - apply (roll_up_idle bucket_s Hs by_ts Hperm); [rewrite E1; apply Hwf|intros; by apply Hone].
Qed.

(** ** Witnesses *)

Section Witnesses.
Local Existing Instance exact.

(** A sample of slot 0 with its total of events and its rate. *)
Definition tick (ts events : Z) (eps : Q) : MetricSample :=
  mkSample 0 (ts * usec) (Some events) None None None None None None None None (Some eps) None None None None
    None None.

(** Four samples of one minute, 15 s apart, and one of the next. *)
Definition demo_table : table :=
  mkTable 6 [mkRow 1 7 (tick 0 10 10); mkRow 2 7 (tick 15 20 10); mkRow 3 7 (tick 30 30 10);
             mkRow 4 7 (tick 45 90 60); mkRow 5 7 (tick 60 100 10)].

Lemma demo_table_wf : wf_table demo_table.
Proof.
  split.
  - apply (bool_decide_eq_true_1 _). by vm_compute.
  - intros r Hr. cbn in Hr. repeat (apply elem_of_cons in Hr as [->|Hr]; [cbn; lia|]). by apply elem_of_nil in Hr.
  - intros r Hr. cbn in Hr.
    repeat (apply elem_of_cons in Hr as [->|Hr]; [by vm_compute|]). by apply elem_of_nil in Hr.
  - intros r r' Hr Hr' _ _ E. cbn in Hr, Hr'.
    repeat (apply elem_of_cons in Hr as [->|Hr];
      [repeat (apply elem_of_cons in Hr' as [->|Hr']; [by vm_compute in E|]); by apply elem_of_nil in Hr'|]).
    by apply elem_of_nil in Hr.
Defined.

(** The first minute is an hour old: its four rows become one, the counters of
    the slot's latest sample stay. *)
Lemma maintenance_keeps_counters_witness :
  exists p pruned,
    roll_up_and_prune id 6 1 30 60 100 (3600 * usec + 60 * usec) demo_table = Some (p, pruned) /\
    length (t_rows (pg_table p)) = 2%nat /\
    (forall r', newest 7 0 r' (t_rows (pg_table p)) -> ms_events_total (row_sample r') = Some 100).
Proof.
  destruct (maintenance_keeps_counters id 6 1 30 60 100 (3600 * usec + 60 * usec) demo_table)
    as (p & pruned & E & _ & H); [done|exact demo_table_wf|cbn; lia|].
  exists p, pruned. split_and!; [done| |].
  - vm_compute in E. injection E as <- <-. done.
  - destruct (H (pg_table p) (or_introl eq_refl)) as [_ Hc].
    destruct (Hc 7 0%nat (mkRow 5 7 (tick 60 100 10))) as [_ Hc'].
    + split_and!; [by do 4 right; left|done|done|]. intros r Hr _ _. cbn in Hr.
      repeat (apply elem_of_cons in Hr as [->|Hr]; [by vm_compute|]). by apply elem_of_nil in Hr.
    + by vm_compute.
    + intros r' Hr'. specialize (Hc' r' Hr'). cbn in Hc'. unfold counters in Hc'. cbn in Hc'. congruence.
Defined.

Lemma roll_up_compacts_witness :
  roll_up id (60 * usec) 60 100 (pg_table (roll_up id (60 * usec) 60 100 demo_table)) =
    mkProgress (pg_table (roll_up id (60 * usec) 60 100 demo_table)) 0 0 0 [] /\
  length (t_rows (pg_table (roll_up id (60 * usec) 60 100 demo_table))) = 2%nat.
Proof.
  split; [|by vm_compute]. apply (roll_up_compacts id (60 * usec) 60 100 demo_table); [done|lia|exact demo_table_wf].
Defined.

(** A window that ends inside a bucket splits it over two passes: the second one
    averages the aggregate of the first with the rows that were left, each with
    the same weight, and the minute's rate of 22.5 becomes 35. *)
Example split_bucket_skews_mean :
  let once := roll_up id (60 * usec) 60 100 demo_table in
  let twice := roll_up id (60 * usec) 60 100 (pg_table (roll_up id (40 * usec) 60 100 demo_table)) in
  omap (fun r => Qred <$> ms_eps (row_sample r)) (List.filter (fun r => row_ts r =? 0) (t_rows (pg_table once))) = [45 # 2]%Q /\
  omap (fun r => Qred <$> ms_eps (row_sample r)) (List.filter (fun r => row_ts r =? 0) (t_rows (pg_table twice))) = [35%Q].
Proof. by vm_compute. Qed.
End Witnesses.
