(* ===== verification/Agent.v ===== *)
(** * The worker's agent (worker/stoker_agent/agent.py)

    The agent drives a worker from its release to its drain: it fences the
    bucket when the control plane goes silent, applies the commands of the
    heartbeat responses (pause, resume, retarget, drain), follows the shape of
    the day, watches the engine, and stops at the deadline.  A pass of the run
    loop meets an [observation]: the clocks, the engine, the socket, the HEC
    client and the transport; it happens at one instant of each clock, except
    that an accepted heartbeat is acknowledged at [ob_ack].  The engine process,
    the files and the heartbeat's payload are left out; a rewritten conf is kept
    as the engine's conf.

    The theorems: in the run loop the bucket is held exactly while a fence or an
    operator's pause is in force; nothing is released before T0; the watchdog's
    restarts are bounded; a retarget keeps the schedule continuous; the drain
    fits its budget; and two places where the code falls short of its documents,
    at T0 and at the end of a run that was paused. *)

From S2P Require Import Prelude.
From S2P Require Import PyFloat.
From S2P Require Import PyValue.
From S2P Require Import Json.
From S2P Require Import Pacing.
From S2P Require Import ControlClient.
From S2P Require Import Apportion.
From S2P Require Import ConfRewrite.
From S2P Require Import Shaping.
From S2P Require Import Slice.
From S2P Require Import Routes.
From Stdlib Require Import QArith Qround Qabs Qminmax Lqa.
Open Scope Z_scope.

Definition EXIT_OK : Z := 0.
Definition EXIT_CONFIG : Z := 2.
Definition EXIT_AUTH_STANDALONE : Z := 3.
Definition EXIT_DEADMAN : Z := 4.
Definition EXIT_NO_OUTPUT : Z := 5.

Definition DEFAULT_BYTES_PER_EVENT : Q := 256.

Inductive wstate : Type := WReady | WGenerating | WPaused.

(** The control plane's client, or the stub of standalone mode. *)
Inductive ctl : Type :=
  | Remote (c : ControlClient)
  | Stub (released : bool).

(** What paces the output. *)
Record pace : Type := mkPace {
  pc_bucket : TokenBucket;
  pc_fencing : bool;
  pc_operator : bool;
  pc_paused_s : Q;
  pc_state : wstate;
  pc_rate_value : option Q;
  pc_shape_share : option Q;
}.

(** The zero-output watchdog. *)
Record watch : Type := mkWatch {
  wt_last_received : Z;
  wt_last_progress : Q;
  wt_restarts : Z;
}.

Record agent : Type := mkAgent {
  ag_ctl : ctl;
  ag_pace : pace;
  ag_watch : watch;
  ag_next_hb : Q;
  ag_drain : option string;
  ag_exit : Z;
  ag_conf : option conf;
  ag_assigned : option (Z * option string);
  ag_engine_restarts : Z;
}.

Definition set_ctl (c : ctl) (a : agent) : agent :=
  mkAgent c (ag_pace a) (ag_watch a) (ag_next_hb a) (ag_drain a) (ag_exit a) (ag_conf a) (ag_assigned a) (ag_engine_restarts a).
Definition set_pace (p : pace) (a : agent) : agent :=
  mkAgent (ag_ctl a) p (ag_watch a) (ag_next_hb a) (ag_drain a) (ag_exit a) (ag_conf a) (ag_assigned a) (ag_engine_restarts a).
Definition set_watch (w : watch) (a : agent) : agent :=
  mkAgent (ag_ctl a) (ag_pace a) w (ag_next_hb a) (ag_drain a) (ag_exit a) (ag_conf a) (ag_assigned a) (ag_engine_restarts a).
Definition set_next_hb (t : Q) (a : agent) : agent :=
  mkAgent (ag_ctl a) (ag_pace a) (ag_watch a) t (ag_drain a) (ag_exit a) (ag_conf a) (ag_assigned a) (ag_engine_restarts a).
Definition set_drain (d : option string) (a : agent) : agent :=
  mkAgent (ag_ctl a) (ag_pace a) (ag_watch a) (ag_next_hb a) d (ag_exit a) (ag_conf a) (ag_assigned a) (ag_engine_restarts a).
Definition set_exit (e : Z) (a : agent) : agent :=
  mkAgent (ag_ctl a) (ag_pace a) (ag_watch a) (ag_next_hb a) (ag_drain a) e (ag_conf a) (ag_assigned a) (ag_engine_restarts a).
Definition set_conf (c : conf) (a : agent) : agent :=
  mkAgent (ag_ctl a) (ag_pace a) (ag_watch a) (ag_next_hb a) (ag_drain a) (ag_exit a) (Some c) (ag_assigned a) (ag_engine_restarts a).
Definition put_assigned (w : Z * option string) (a : agent) : agent :=
  mkAgent (ag_ctl a) (ag_pace a) (ag_watch a) (ag_next_hb a) (ag_drain a) (ag_exit a) (ag_conf a) (Some w) (ag_engine_restarts a).
Definition count_restart (a : agent) : agent :=
  mkAgent (ag_ctl a) (ag_pace a) (ag_watch a) (ag_next_hb a) (ag_drain a) (ag_exit a) (ag_conf a) (ag_assigned a) (ag_engine_restarts a + 1).

Definition set_bucket (b : TokenBucket) (p : pace) : pace :=
  mkPace b (pc_fencing p) (pc_operator p) (pc_paused_s p) (pc_state p) (pc_rate_value p) (pc_shape_share p).
Definition set_paused_s (q : Q) (p : pace) : pace :=
  mkPace (pc_bucket p) (pc_fencing p) (pc_operator p) q (pc_state p) (pc_rate_value p) (pc_shape_share p).

(** What a run is set up with: the configuration, the slice, the pack and the
    curve of its day. *)
Record setup : Type := mkSetup {
  su_standalone : bool;
  su_overdrive : Q;
  su_zero_output_s : Q;
  su_max_restarts : Z;
  su_drain_budget_s : Q;
  su_slice : SpecSlice;
  su_pack_conf : option conf;
  su_samples_dir : string;
  su_bytes_per_event : json;
  su_shape : option ShapeCurve;
  su_localtime : Q -> struct_time;
  su_sweep_engine : bool;
}.

(** What one pass of a loop meets. *)
Record observation : Type := mkObs {
  ob_wall : Q;
  ob_mono : Q;
  ob_alive : bool;
  ob_received : Z;
  ob_auth_failed : bool;
  ob_first : transport;
  ob_second : transport;
  ob_ack : Q;
  ob_restarts : bool;
}.

Section Agent.
Context {R : Rounding} (su : setup).
Abbreviation sl := (su_slice su).
Abbreviation eff := (M agent).

(** ** Small steps *)

Definition request_drain (reason : string) : eff unit :=
  modify (fun a => match ag_drain a with Some _ => a | None => set_drain (Some reason) a end).

Definition fail_with (code : Z) (reason : string) : eff unit :=
  _ ← modify (set_exit code); request_drain reason.

(** [engine.restart()]: whether the engine comes back is the environment's. *)
Definition engine_restart (ok : bool) : eff unit :=
  if ok then modify count_restart else raise (EngineError "engine did not start").

(** ** Fencing and the operator's pause *)

Definition check_fencing (silent : bool) (p : pace) : pace :=
  if su_standalone su then p
  else if silent then
    if pc_fencing p then p
    else mkPace (pause (pc_bucket p)) true (pc_operator p) (pc_paused_s p) WPaused (pc_rate_value p)
           (pc_shape_share p)
  else if pc_fencing p then
    if pc_operator p
    then mkPace (pc_bucket p) false true (pc_paused_s p) (pc_state p) (pc_rate_value p) (pc_shape_share p)
    else mkPace (resume (pc_bucket p)) false false (pc_paused_s p) WGenerating (pc_rate_value p)
           (pc_shape_share p)
  else p.

Definition operator_pause (p : pace) : pace :=
  if pc_operator p then p
  else mkPace (pause (pc_bucket p)) (pc_fencing p) true (pc_paused_s p) WPaused (pc_rate_value p)
         (pc_shape_share p).

(** [sl.engine == name] *)
Definition engine_is (name : string) : bool :=
  match sl_engine sl with JStr e => bool_decide (e = name) | _ => false end.

Definition operator_resume (wall : Q) (restarts : bool) : eff unit :=
  p ← gets ag_pace;
  if pc_operator p then
    if pc_fencing p then
      modify (set_pace (mkPace (pc_bucket p) true false (pc_paused_s p) (pc_state p) (pc_rate_value p)
                          (pc_shape_share p)))
    else
      _ ← modify (set_pace (mkPace (resume (anchor_at wall (pc_bucket p))) false false (pc_paused_s p)
                              WGenerating (pc_rate_value p) (pc_shape_share p)));
      if engine_is "metrics" && bool_decide (sl_backfill_start_s sl = None) then
        catch (engine_restart restarts)
          (fun e => match e with
                    | EngineError _ => fail_with EXIT_NO_OUTPUT "no-engine-output"
                    | e => raise e
                    end)
      else mret tt
  else mret tt.

(** ** Rates *)

(** [float(bpe) if bpe else 0.0], zero where that raises, and the default. *)
Definition bytes_per_event : Q :=
  let bpe := if jtruthy (su_bytes_per_event su)
             then match to_float (su_bytes_per_event su) with Ok q => q | Raise _ => 0%Q end
             else 0%Q in
  if Qle_bool bpe 0 then DEFAULT_BYTES_PER_EVENT else bpe.

Definition gating_eps (rate_value : option Q) : result (option Q) :=
  if bool_decide (sl_rate_mode sl = "eps") then
    match rate_value with Some q => Ok (Some q) | None => Raise TypeError end
  else if bool_decide (sl_rate_mode sl = "per_day_gb") then
    match rate_value with
    | Some q => Ok (Some (fdiv (fdiv (fmul q (rnd (inject_Z (10 ^ 9)))) bytes_per_event) 86400))
    | None => Raise TypeError
    end
  else Ok None.

(** What the conf rewrite should make the engine produce. *)
Definition engine_share (rate_value : option Q) : option Q :=
  match su_shape su, rate_value with
  | Some curve, Some q => Some (fmul q (peak_ratio curve))
  | _, _ => rate_value
  end.

Definition apply_shape (wall : Q) (p : pace) : result pace :=
  match su_shape su, pc_shape_share p with
  | Some curve, Some share =>
      let want := rate curve share (su_localtime su wall) in
      let have := tb_rate (pc_bucket p) in
      if qlt (fmul (rnd (5 # 1000)) (Qmax have (rnd (1 # 1000000000)))) (Qabs (fsub want have))
      then b ← retarget want wall (pc_bucket p); Ok (set_bucket b p)
      else Ok p
  | _, _ => Ok p
  end.

(** ** Assigned work *)

Definition set_assigned (count : Z) (reason : string) : eff unit :=
  modify (put_assigned (count, if 0 <? count then None else Some reason)).

(** The rewritten conf is sized; a conf that cannot be read leaves it as it was. *)
Definition record_assigned (c : conf) : eff unit :=
  match assigned_stanza_count c (sl_rate_mode sl) with
  | Ok n => set_assigned n "no stanza count assigned"
  | Raise (ConfRewriteError _) => mret tt
  | Raise e => raise e
  end.

(** ** Retargeting *)

Definition RETARGET_IN_PLACE_BAND : Q := rnd (15 # 100).

Definition rewrite_and_restart (restarts : bool) : eff unit :=
  p ← gets ag_pace;
  c0 ← lift (match su_pack_conf su with
             | Some c => Ok c
             | None => Raise (ConfRewriteError "cannot read conf file")
             end);
  c ← lift (rewrite (sl_rate_mode sl) (engine_share (pc_rate_value p)) (su_overdrive su)
              (su_samples_dir su) (sl_slot sl) (sl_total_workers sl) None no_backfill c0);
  _ ← modify (set_conf c);
  _ ← record_assigned c;
  engine_restart restarts.

(** Whether [abs(new / old - 1) <= band]; without an old value it is not. *)
Definition in_place (new_value : Q) (old_value : option Q) : bool :=
  match old_value with
  | Some old => if Qeq_bool old 0 then false
                else Qle_bool (Qabs (fsub (fdiv new_value old) 1)) RETARGET_IN_PLACE_BAND
  | None => false
  end.

Definition retarget_to (new_value : Q) (wall : Q) (restarts : bool) : eff unit :=
  p ← gets ag_pace;
  let old_value := pc_rate_value p in
  let with_rate p := mkPace (pc_bucket p) (pc_fencing p) (pc_operator p) (pc_paused_s p) (pc_state p)
                       (Some new_value) (pc_shape_share p) in
  _ ← modify (fun a => set_pace (with_rate (ag_pace a)) a);
  eps ← lift (gating_eps (Some new_value));
  new_eps ← match su_shape su, eps with
            | Some curve, Some e =>
                _ ← modify (fun a => let p := ag_pace a in
                      set_pace (mkPace (pc_bucket p) (pc_fencing p) (pc_operator p) (pc_paused_s p)
                                  (pc_state p) (pc_rate_value p) (Some e)) a);
                mret (Some (rate curve e (su_localtime su wall)))
            | Some _, None => raise TypeError
            | None, e => mret e
            end;
  if bool_decide (sl_rate_mode sl = "count_interval") then rewrite_and_restart restarts
  else
    p ← gets ag_pace;
    b ← lift (match new_eps with Some e => retarget e wall (pc_bucket p) | None => Raise TypeError end);
    _ ← modify (fun a => set_pace (set_bucket b (ag_pace a)) a);
    if in_place new_value old_value then mret tt else rewrite_and_restart restarts.

(** [_retarget]: a share that does not fit the run is ignored. *)
Definition retarget_cmd (share : jobj) (wall : Q) (restarts : bool) : eff unit :=
  match share with
  | [(key, v)] =>
      if bool_decide (snd <$> List.find (fun km => bool_decide (km.1 = key)) SHARE_KEYS
                      = Some (sl_rate_mode sl))
      then match to_float v with
           | Raise _ => mret tt
           | Ok new_value => if Qle_bool new_value 0 then mret tt else retarget_to new_value wall restarts
           end
      else mret tt
  | _ => mret tt
  end.

(** [resp.get("share") or {}]: only a document has a key to match. *)
Definition share_doc (j : json) : result jobj :=
  match j with
  | JObj d => Ok d
  | JNull | JStr _ | JInstant _ => Ok []
  | j => if jtruthy j then Raise TypeError else Ok []
  end.

(** ** Commands *)

Definition note_paused_s (j : json) (p : pace) : pace :=
  match j with
  | JInt z => if 0 <=? z then set_paused_s (rnd (inject_Z z)) p else p
  | JNum q => if Qle_bool 0 q then set_paused_s q p else p
  | _ => p
  end.

Definition apply_command (resp : jobj) (wall : Q) (restarts : bool) : eff unit :=
  let command := jget resp "command" in
  let is_cmd name := match command with JStr c => bool_decide (c = name) | _ => false end in
  _ ← modify (fun a => set_pace (note_paused_s (jget resp "paused_s") (ag_pace a)) a);
  if is_cmd "pause" then modify (fun a => set_pace (operator_pause (ag_pace a)) a)
  else
    _ ← when (negb (is_cmd "drain")) (operator_resume wall restarts);
    if is_cmd "drain" then request_drain "control-drain"
    else if is_cmd "retarget" then
      share ← lift (share_doc (jget resp "share")); retarget_cmd share wall restarts
    else mret tt.

(** ** The control client *)

Definition silent (mono : Q) (c : ctl) : bool :=
  match c with Remote c => should_pause mono c | Stub _ => false end.
Definition ctl_deadman (mono : Q) (c : ctl) : bool :=
  match c with Remote c => deadman_expired mono c | Stub _ => false end.

Definition ctl_heartbeat (ob : observation) (c : ctl) : ctl * beat :=
  match c with
  | Remote c => let '(c, b) := heartbeat (ob_first ob) (ob_second ob) (ob_ack ob) c in (Remote c, b)
  | Stub released =>
      let '(released, doc) := standalone_heartbeat released (Qfloor (ob_wall ob * 1000000)) in
      (Stub released, BDoc doc)
  end.

Definition fence (mono : Q) : eff unit :=
  modify (fun a => set_pace (check_fencing (silent mono (ag_ctl a)) (ag_pace a)) a).

(** ** A pass of the run loop

    [true]: the loop breaks. *)

(** [gated run, engine not metrics, a window] *)
Definition watchdog_on : bool :=
  qlt 0 (su_zero_output_s su) && negb (bool_decide (sl_rate_mode sl = "count_interval"))
  && negb (engine_is "metrics").

Definition sweeping : bool :=
  negb (bool_decide (sl_backfill_start_s sl = None)) && negb (engine_is "rawreplay")
  && negb (engine_is "metrics") && su_sweep_engine su.

Definition watchdog (ob : observation) : eff bool :=
  w ← gets ag_watch;
  if watchdog_on then
    if wt_last_received w <? ob_received ob then
      _ ← modify (set_watch (mkWatch (ob_received ob) (ob_mono ob) (wt_restarts w))); mret false
    else if Qle_bool (su_zero_output_s su) (fsub (ob_mono ob) (wt_last_progress w)) then
      if sweeping then _ ← fail_with EXIT_NO_OUTPUT "no-engine-output"; mret true
      else if wt_restarts w <? su_max_restarts su then
        _ ← modify (set_watch (mkWatch (wt_last_received w) (wt_last_progress w) (wt_restarts w + 1)));
        if ob_restarts ob then
          _ ← engine_restart true;
          _ ← modify (set_watch (mkWatch (ob_received ob) (ob_mono ob) (wt_restarts w + 1)));
          mret false
        else _ ← fail_with EXIT_NO_OUTPUT "no-engine-output"; mret true
      else _ ← fail_with EXIT_NO_OUTPUT "no-engine-output"; mret true
    else mret false
  else mret false.

(** [deadline + paused_s] has passed, and the run is not paused. *)
Definition past_end (deadline : option Q) (wall : Q) (p : pace) : bool :=
  match deadline with
  | Some d => Qle_bool (fadd d (pc_paused_s p)) wall && negb (pc_operator p)
  | None => false
  end.

Definition beat_if_due (ob : observation) : eff unit :=
  a ← get;
  if Qle_bool (ag_next_hb a) (ob_mono ob) then
    _ ← modify (set_next_hb (fadd (ob_mono ob) (sl_telemetry_interval_s sl)));
    let '(c, b) := ctl_heartbeat ob (ag_ctl a) in
    _ ← modify (set_ctl c);
    match b with
    | BSuperseded => raise SupersededError
    | BMissed => mret tt
    | BDoc doc => _ ← fence (ob_ack ob); apply_command doc (ob_wall ob) (ob_restarts ob)
    end
  else mret tt.

Definition loop_pass (deadline : option Q) (ob : observation) : eff bool :=
  p ← gets ag_pace;
  if past_end deadline (ob_wall ob) p then _ ← request_drain "duration-complete"; mret true
  else
    _ ← when (pc_operator p)
          (modify (fun a => set_watch (mkWatch (ob_received ob) (ob_mono ob) (wt_restarts (ag_watch a))) a));
    if negb (ob_alive ob) then _ ← request_drain "engine-exit"; mret true
    else
      stop ← watchdog ob;
      if stop : bool then mret true
      else if ob_auth_failed ob then
        _ ← when (su_standalone su) (modify (set_exit EXIT_AUTH_STANDALONE));
        _ ← request_drain "hec-auth-failed"; mret true
      else
        c ← gets ag_ctl;
        if ctl_deadman (ob_mono ob) c then _ ← fail_with EXIT_DEADMAN "dead-man"; mret true
        else
          _ ← fence (ob_mono ob);
          p ← gets ag_pace;
          p ← lift (apply_shape (ob_wall ob) p);
          _ ← modify (set_pace p);
          _ ← beat_if_due ob;
          mret false.

(** The loop's variables on entry. *)
Definition enter_loop (ob : observation) (a : agent) : agent :=
  set_next_hb (fadd (ob_mono ob) (sl_telemetry_interval_s sl))
    (set_watch (mkWatch (ob_received ob) (ob_mono ob) 0) a).

(** [while not drain_event.is_set()]; [None]: still running after the
    observations. *)
Fixpoint run_loop (deadline : option Q) (obs : list observation) : eff (option unit) :=
  match obs with
  | [] => mret None
  | ob :: obs =>
      d ← gets ag_drain;
      match d with
      | Some _ => mret (Some tt)
      | None => stop ← loop_pass deadline ob; if stop : bool then mret (Some tt) else run_loop deadline obs
      end
  end.

(** ** Before T0 *)

(** A pass of [_await_release]: T0, the drain, or another round. *)
Inductive await_end : Type := Released (t0 : Q) | Drained | Again.

Definition seconds_of (us : Z) : Q := fdiv (rnd (inject_Z us)) 1000000.

Definition await_pass (ob : observation) : eff await_end :=
  _ ← fence (ob_mono ob);
  a ← get;
  let '(c, b) := ctl_heartbeat ob (ag_ctl a) in
  _ ← modify (set_ctl c);
  let deadman :=
    (c ← gets ag_ctl;
     if ctl_deadman (ob_mono ob) c then _ ← fail_with EXIT_DEADMAN "dead-man"; mret Drained
     else mret Again) in
  match b with
  | BSuperseded => raise SupersededError
  | BMissed => deadman
  | BDoc doc =>
      match jget doc "command" with
      | JStr cmd =>
          if bool_decide (cmd = "release") then
            if jtruthy (jget doc "t0")
            then us ← lift (parse_iso8601 (jget doc "t0")); mret (Released (seconds_of us))
            else mret (Released (ob_wall ob))
          else if bool_decide (cmd = "drain") then _ ← request_drain "control-drain"; mret Drained
          else deadman
      | _ => deadman
      end
  end.

(** The state a worker waits in: paused, its anchor parked far ahead. *)
Definition park (wall : Q) (p : pace) : pace :=
  set_bucket (anchor_at (fadd wall (inject_Z (10 ^ 9))) (pause (pc_bucket p))) p.

(** At T0: the bucket is anchored and let go, the deadline is fixed. *)
Definition begin_run (t0 : Q) (a : agent) : agent * option Q :=
  let anchor := match sl_effective_t0 sl with
                | Some us => if us =? 0 then t0 else seconds_of us
                | None => t0
                end in
  let p := ag_pace a in
  (set_pace (mkPace (resume (anchor_at anchor (pc_bucket p))) (pc_fencing p) (pc_operator p)
               (pc_paused_s p) WGenerating (pc_rate_value p) (pc_shape_share p)) a,
   match sl_duration_s sl with
   | Some d => if Qeq_bool d 0 then None else Some (fadd anchor d)
   | None => None
   end).

(** ** The drain (_shutdown)

    What the stages take under the timeout they are given: the join of the
    socket's reader, the wait for the engine after SIGTERM, the wait after
    SIGKILL when it ignored that, the join of its log reader, the flush. *)
Record drain_env : Type := mkDrain {
  dn_join : Q -> Q;
  dn_term : Q -> Q;
  dn_ignored : bool;
  dn_kill : Q -> Q;
  dn_reader : Q -> Q;
  dn_flush : Q -> Q;
  dn_final : nat -> final_try;
}.

Definition STOP_GRACE_S : Q := 10.
Definition FLUSH_TIMEOUT_S : Q := 20.

(** [remaining()] *)
Definition remaining (deadline now : Q) : Q := Qmax 0 (fsub deadline now).

(** [EngineRunner.stop(grace_s)] from [now] (worker/stoker_agent/engine.py). *)
Definition engine_stop (env : drain_env) (grace now : Q) : Q :=
  let now := fadd now (dn_term env grace) in
  let now := if dn_ignored env then fadd now (dn_kill env 5) else now in
  fadd now (dn_reader env 2).

(** The instants at which the stages start and the last one ends, and the
    summary's reason; intake is closed first. *)
Definition shutdown (env : drain_env) (started : bool) (now : Q) (a : agent)
    : agent * string * list Q :=
  let reason := match ag_drain a with Some r => if nonempty r then r else "complete" | None => "complete" end in
  let p := ag_pace a in
  let a := set_pace (set_bucket (close (pc_bucket p)) p) a in
  let deadline := fadd now (su_drain_budget_s su) in
  let t1 := fadd now (dn_join env (Qmin 5 (remaining deadline now))) in
  let t2 := if started then engine_stop env (Qmin STOP_GRACE_S (remaining deadline t1)) t1 else t1 in
  let t3 := fadd t2 (dn_flush env (Qmin FLUSH_TIMEOUT_S (remaining deadline t2))) in
  let t4 := match ag_ctl a with
            | Remote c => snd (final (Some deadline) (dn_final env) t3 c)
            | Stub _ => t3
            end in
  (a, reason, [now; t1; t2; t3; t4]).
End Agent.

(** ** What a pass may change *)

(** The steps of the pacing state. *)
Inductive pace_step {R : Rounding} (su : setup) : pace -> pace -> Prop :=
  | ps_fence silent p : pace_step su p (check_fencing su silent p)
  | ps_pause p : pace_step su p (operator_pause p)
  | ps_unpause_fenced p : pc_fencing p = true -> pc_operator p = true ->
      pace_step su p (mkPace (pc_bucket p) true false (pc_paused_s p) (pc_state p) (pc_rate_value p)
                        (pc_shape_share p))
  | ps_unpause wall p : pc_fencing p = false -> pc_operator p = true ->
      pace_step su p (mkPace (resume (anchor_at wall (pc_bucket p))) false false (pc_paused_s p)
                        WGenerating (pc_rate_value p) (pc_shape_share p))
  | ps_rates r q p :
      pace_step su p (mkPace (pc_bucket p) (pc_fencing p) (pc_operator p) (pc_paused_s p) (pc_state p) r q)
  | ps_retarget r wall b p : retarget r wall (pc_bucket p) = Ok b -> pace_step su p (set_bucket b p).

(** The steps of the watchdog. *)
Inductive watch_step (su : setup) : watch -> watch -> Prop :=
  | ws_progress r t w : watch_step su w (mkWatch r t (wt_restarts w))
  | ws_restart w : wt_restarts w < su_max_restarts su ->
      watch_step su w (mkWatch (wt_last_received w) (wt_last_progress w) (wt_restarts w + 1)).

(** The steps a retarget takes. *)
Definition rate_step {R : Rounding} (p p' : pace) : Prop :=
  (exists r q, p' = mkPace (pc_bucket p) (pc_fencing p) (pc_operator p) (pc_paused_s p) (pc_state p) r q)
  \/ (exists r wall b, retarget r wall (pc_bucket p) = Ok b /\ p' = set_bucket b p).

Section RateFrame.
Context {R : Rounding} (su : setup) (Rel : agent -> agent -> Prop) `{!PreOrder Rel}.
Hypothesis rel_life : forall a a', ag_ctl a' = ag_ctl a -> ag_pace a' = ag_pace a -> ag_watch a' = ag_watch a ->
  Rel a a'.
Hypothesis rel_rate : forall p a, rate_step (ag_pace a) p -> Rel a (set_pace p a).
Abbreviation keeps := (transits Rel).

Lemma restart_rates ok a : keeps (engine_restart ok) a.
Proof. unfold engine_restart. destruct ok; [by apply (transits_modify_last _), rel_life|apply (transits_raise _)]. Qed.

Lemma record_assigned_keeps c a : keeps (record_assigned su c) a.
Proof.
  unfold record_assigned, set_assigned. destruct (assigned_stanza_count _ _) as [n|[]];
    try apply (transits_raise _); [|apply (transits_ret _)]. by apply (transits_modify_last _), rel_life.
Qed.

Lemma rewrite_and_restart_keeps ok a : keeps (rewrite_and_restart su ok) a.
Proof.
  unfold rewrite_and_restart. apply (transits_gets _).
  apply (transits_bind _); [apply (transits_lift _)|]. intros c0 a1 _.
  apply (transits_bind _); [apply (transits_lift _)|]. intros c a2 _.
  apply (transits_modify _); [by apply rel_life|].
  apply (transits_bind _); [apply record_assigned_keeps|]. intros _ a3 _. apply restart_rates.
Qed.

Lemma retarget_to_keeps v wall ok a : keeps (retarget_to su v wall ok) a.
Proof.
  unfold retarget_to. apply (transits_gets _). cbv zeta.
  apply (transits_modify _); [apply rel_rate; left; eauto|].
  apply (transits_bind _); [apply (transits_lift _)|]. intros eps a1 _.
  apply (transits_bind _).
  { destruct (su_shape su), eps; try apply (transits_ret _); [|apply (transits_raise _)].
    apply (transits_modify _); [apply rel_rate; left; eauto|apply (transits_ret _)]. }
  intros new_eps a2 _. destruct (bool_decide _); [apply rewrite_and_restart_keeps|].
  apply (transits_gets _). unfold transits, mbind, M_bind, lift.
  destruct new_eps as [e|]; [|reflexivity].
  destruct (retarget e wall (pc_bucket (ag_pace a2))) as [b|] eqn:E; [|reflexivity].
  apply (transits_modify _); [apply rel_rate; right; eauto|].
  destruct (in_place _ _); [apply (transits_ret _)|apply rewrite_and_restart_keeps].
Qed.

Lemma retarget_rates share wall ok a : keeps (retarget_cmd su share wall ok) a.
Proof.
  unfold retarget_cmd. repeat case_match; try apply (transits_ret _). apply retarget_to_keeps.
Qed.

End RateFrame.

(** A preorder that every step of a pass respects is respected by the pass. *)
Section Frame.
Context {R : Rounding} (su : setup) (Rel : agent -> agent -> Prop) `{!PreOrder Rel}.
Hypothesis rel_life : forall a a', ag_ctl a' = ag_ctl a -> ag_pace a' = ag_pace a -> ag_watch a' = ag_watch a ->
  Rel a a'.
Hypothesis rel_pace : forall p a, pace_step su (ag_pace a) p -> Rel a (set_pace p a).

Abbreviation keeps := (transits Rel).

Lemma request_drain_keeps reason a : keeps (request_drain reason) a.
Proof. apply (transits_modify_last _), rel_life; by destruct (ag_drain a). Qed.

Lemma fail_with_keeps code reason a : keeps (fail_with code reason) a.
Proof. apply (transits_modify _); [by apply rel_life|]. apply request_drain_keeps. Qed.

Lemma engine_restart_keeps ok a : keeps (engine_restart ok) a.
Proof. unfold engine_restart. destruct ok; [by apply (transits_modify_last _), rel_life|apply (transits_raise _)]. Qed.

Lemma operator_resume_keeps wall ok a : keeps (operator_resume su wall ok) a.
Proof.
  unfold operator_resume. apply (transits_gets _). destruct (pc_operator (ag_pace a)) eqn:Eo; [|apply (transits_ret _)].
  destruct (pc_fencing (ag_pace a)) eqn:Ef.
  - by apply (transits_modify_last _), rel_pace, ps_unpause_fenced.
  - apply (transits_modify _); [by apply rel_pace, ps_unpause|].
    destruct (_ && _); [|apply (transits_ret _)].
    apply (transits_catch _); [apply engine_restart_keeps|]. intros [] s' _; try apply (transits_raise _).
    apply fail_with_keeps.
Qed.

Lemma retarget_cmd_keeps share wall ok a : keeps (retarget_cmd su share wall ok) a.
Proof.
  apply (retarget_rates su Rel); [done|]. intros p a1 [(r & q & ->)|(r & w & b & E & ->)];
    apply rel_pace; [apply ps_rates|by eapply ps_retarget].
Qed.

Lemma apply_command_keeps resp wall ok a :
  Rel a (set_pace (note_paused_s (jget resp "paused_s") (ag_pace a)) a) ->
  keeps (apply_command su resp wall ok) a.
Proof.
  intros Hn. unfold apply_command. apply (transits_modify _); [exact Hn|].
  destruct (match jget resp "command" with JStr c => bool_decide (c = "pause") | _ => false end).
  { apply (transits_modify_last _), rel_pace, ps_pause. }
  apply (transits_bind _); [apply (transits_when _); intros _; apply operator_resume_keeps|]. intros _ a1 _.
  repeat case_match; try apply (transits_ret _); try apply request_drain_keeps;
    (apply (transits_bind _); [apply (transits_lift _)|]; intros; apply retarget_cmd_keeps).
Qed.

Lemma fence_keeps mono a : keeps (fence su mono) a.
Proof. apply (transits_modify_last _), rel_pace, ps_fence. Qed.

(** The rest of a pass: the watchdog, the shape and the heartbeat. *)
Hypothesis rel_watch : forall w a, watch_step su (ag_watch a) w -> Rel a (set_watch w a).
Hypothesis rel_ctl : forall ob a, Rel a (set_ctl (fst (ctl_heartbeat ob (ag_ctl a))) a).
Context (Good : observation -> Prop).
Hypothesis rel_note : forall ob c c' doc a, Good ob -> ctl_heartbeat ob c = (c', BDoc doc) ->
  Rel a (set_pace (note_paused_s (jget doc "paused_s") (ag_pace a)) a).

Lemma watchdog_keeps ob a : keeps (watchdog su ob) a.
Proof.
  unfold watchdog. apply (transits_gets _). destruct (watchdog_on su); [|apply (transits_ret _)].
  destruct (_ <? _); [apply (transits_modify _); [apply rel_watch, ws_progress|apply (transits_ret _)]|].
  destruct (Qle_bool _ _); [|apply (transits_ret _)].
  destruct (sweeping su).
  { apply (transits_bind _); [apply fail_with_keeps|]. intros. apply (transits_ret _). }
  destruct (Z.ltb_spec (wt_restarts (ag_watch a)) (su_max_restarts su)) as [Hlt|].
  2:{ apply (transits_bind _); [apply fail_with_keeps|]. intros. apply (transits_ret _). }
  destruct (ob_restarts ob).
  - apply (transits_modify _); [by apply rel_watch, ws_restart|].
    unfold engine_restart. apply (transits_modify _); [by apply rel_life|].
    apply (transits_modify _); [|apply (transits_ret _)].
    apply rel_watch. cbn [count_restart set_watch ag_watch]. apply (ws_progress su _ _ (mkWatch _ _ (wt_restarts (ag_watch a) + 1))).
  - apply (transits_modify _); [by apply rel_watch, ws_restart|].
    apply (transits_bind _); [apply fail_with_keeps|]. intros. apply (transits_ret _).
Qed.

Lemma beat_if_due_keeps ob a : Good ob -> keeps (beat_if_due su ob) a.
Proof.
  intros Hg. unfold beat_if_due. apply (transits_get _). destruct (Qle_bool _ _); [|apply (transits_ret _)].
  apply (transits_modify _); [by apply rel_life|].
  pose proof (rel_ctl ob (set_next_hb (fadd (ob_mono ob) (sl_telemetry_interval_s (su_slice su))) a)) as Hc.
  cbn [ag_ctl set_next_hb] in Hc. destruct (ctl_heartbeat ob (ag_ctl a)) as [c b] eqn:Eh. cbn [fst] in Hc.
  apply (transits_modify _); [exact Hc|]. destruct b as [doc| |]; [|apply (transits_ret _)|apply (transits_raise _)].
  apply (transits_bind _); [apply fence_keeps|]. intros _ a1 _. apply apply_command_keeps. by eapply rel_note.
Qed.

Lemma apply_shape_keeps wall a p : apply_shape su wall (ag_pace a) = Ok p -> Rel a (set_pace p a).
Proof.
  unfold apply_shape. assert (Rel a (set_pace (ag_pace a) a)) as Hid by (by apply rel_life).
  destruct (su_shape su), (pc_shape_share (ag_pace a)); try (by intros [= <-]).
  destruct (qlt _ _); [|by intros [= <-]].
  destruct (retarget _ _ _) as [b|] eqn:E; [|done]. intros [= <-]. by eapply rel_pace, ps_retarget.
Qed.

Lemma loop_pass_keeps deadline ob a : Good ob -> keeps (loop_pass su deadline ob) a.
Proof.
  intros Hg. unfold loop_pass. apply (transits_gets _). destruct (past_end _ _ _).
  { apply (transits_bind _); [apply request_drain_keeps|]. intros. apply (transits_ret _). }
  apply (transits_bind _); [apply (transits_when _); intros _; apply (transits_modify_last _), rel_watch, ws_progress|].
  intros _ a1 _. destruct (negb (ob_alive ob)).
  { apply (transits_bind _); [apply request_drain_keeps|]. intros. apply (transits_ret _). }
  apply (transits_bind _); [apply watchdog_keeps|]. intros stop a2 _. destruct stop; [apply (transits_ret _)|].
  destruct (ob_auth_failed ob).
  { apply (transits_bind _); [apply (transits_when _); intros _; by apply (transits_modify_last _), rel_life|].
    intros _ a3 _. apply (transits_bind _); [apply request_drain_keeps|]. intros. apply (transits_ret _). }
  apply (transits_gets _). destruct (ctl_deadman _ _).
  { apply (transits_bind _); [apply fail_with_keeps|]. intros. apply (transits_ret _). }
  apply (transits_bind _); [apply fence_keeps|]. intros _ a3 _. apply (transits_gets _).
  unfold transits at 1, mbind at 1, M_bind at 1, lift at 1.
  destruct (apply_shape su (ob_wall ob) (ag_pace a3)) as [p|] eqn:Ep; [|reflexivity].
  apply (transits_modify _); [by eapply apply_shape_keeps|].
  apply (transits_bind _); [by apply beat_if_due_keeps|]. intros. apply (transits_ret _).
Qed.

Lemma run_loop_keeps deadline obs a : Forall Good obs -> keeps (run_loop su deadline obs) a.
Proof.
  intros Hg. revert a. induction Hg as [|ob obs Hob Hg IH]; intros a; cbn [run_loop]; [apply (transits_ret _)|].
  apply (transits_gets _). destruct (ag_drain a); [apply (transits_ret _)|].
  apply (transits_bind _); [by apply loop_pass_keeps|]. intros stop a1 _.
  destruct stop; [apply (transits_ret _)|apply IH].
Qed.
End Frame.

(** ** Holding output *)

Section Holding.
Context {R : Rounding} (su : setup).

(** Output is held exactly while a fence or the operator's pause is in force,
    and the reported state says so. *)
Definition hold_ok (p : pace) : Prop :=
  tb_paused (pc_bucket p) = pc_fencing p || pc_operator p /\
  pc_state p = if pc_fencing p || pc_operator p then WPaused else WGenerating.

Definition holding (a : agent) : Prop := hold_ok (ag_pace a).

Lemma retarget_paused r now b b' : retarget r now b = Ok b' -> tb_paused b' = tb_paused b.
Proof. unfold retarget. destruct (Qle_bool r 0); [done|]. by intros [= <-]. Qed.

Lemma pace_step_holds p p' : pace_step su p p' -> hold_ok p -> hold_ok p'.
Proof.
  unfold hold_ok. intros [s q|q|q Ef Eo|w q Ef Eo|r x q|r w b q E] [H1 H2]; cbn.
  - unfold check_fencing. destruct (su_standalone su), s, (pc_fencing q) eqn:E1, (pc_operator q) eqn:E2;
      cbn in *; rewrite ?E1, ?E2; done.
  - unfold operator_pause. destruct (pc_operator q) eqn:E2; cbn; [rewrite E2; done|]. by rewrite orb_true_r.
  - rewrite Ef, Eo in *. done.
  - done.
  - done.
  - by rewrite (retarget_paused _ _ _ _ E).
Qed.

Lemma note_paused_ok j p : hold_ok p -> hold_ok (note_paused_s j p).
Proof. unfold note_paused_s. destruct j; try done; by repeat case_match. Qed.

Lemma pass_holds deadline ob a : transits (preserving holding) (loop_pass su deadline ob) a.
Proof.
  apply (loop_pass_keeps su (preserving holding) ltac:(by unfold preserving, holding; intros ? ? _ ->)) with (Good := fun _ => True);
    unfold preserving, holding; try done.
  - intros p a1 Hs. by apply pace_step_holds.
  - intros ob' c c' doc a1 _ _. apply note_paused_ok.
Qed.

Lemma loop_holds deadline obs a : transits (preserving holding) (run_loop su deadline obs) a.
Proof.
  apply (run_loop_keeps su (preserving holding) ltac:(by unfold preserving, holding; intros ? ? _ ->)) with (Good := fun _ => True);
    unfold preserving, holding; try done.
  - intros p a1 Hs. by apply pace_step_holds.
  - intros ob' c c' doc a1 _ _. apply note_paused_ok.
  - by apply Forall_true.
Qed.
End Holding.

Section Fence.
Context {R : Rounding} (su : setup).

Ltac effects := unfold fail_with, request_drain, engine_restart, mbind, M_bind, gets, get, modify, mret, M_ret,
  raise, lift, when; cbn.

Lemma watchdog_frame ob a a' r : watchdog su ob a = (a', r) ->
  ag_pace a' = ag_pace a /\ ag_ctl a' = ag_ctl a /\ exists stop, r = Ok stop.
Proof.
  unfold watchdog. effects. repeat case_match; intros; simplify_eq; split_and!; eauto.
Qed.

(** The outcomes of a pass: it breaks before it paces anything, or it has
    fenced, and then shaped and, if due, sent a heartbeat. *)
Lemma loop_pass_inv deadline ob a a' r : loop_pass su deadline ob a = (a', r) ->
  (r = Ok true /\ ag_pace a' = ag_pace a /\ ag_ctl a' = ag_ctl a) \/
  exists a0 a1, ag_pace a1 = ag_pace a /\ ag_ctl a1 = ag_ctl a /\
    (pc_operator (ag_pace a) = false -> a0 = a) /\ watchdog su ob a0 = (a1, Ok false) /\
    let p0 := check_fencing su (silent (ob_mono ob) (ag_ctl a)) (ag_pace a) in
    match apply_shape su (ob_wall ob) p0 with
    | Raise e => a' = set_pace p0 a1 /\ r = Raise e
    | Ok p => match beat_if_due su ob (set_pace p a1) with
              | (a2, Ok _) => a' = a2 /\ r = Ok false
              | (a2, Raise e) => a' = a2 /\ r = Raise e
              end
    end.
Proof.
  unfold loop_pass. rewrite run_gets. destruct (past_end _ _ _).
  { effects. intros [= <- <-]. left. split_and!; [done|by destruct (ag_drain a)..]. }
  set (a0 := if pc_operator (ag_pace a)
             then set_watch (mkWatch (ob_received ob) (ob_mono ob) (wt_restarts (ag_watch a))) a else a).
  rewrite (run_bind _ _ a a0 tt) by (subst a0; by destruct (pc_operator (ag_pace a))).
  assert (ag_pace a0 = ag_pace a /\ ag_ctl a0 = ag_ctl a) as [P0 C0] by (subst a0; by destruct (pc_operator _)).
  destruct (negb (ob_alive ob)).
  { effects. intros [= <- <-]. left. split_and!; [done|by destruct (ag_drain a0)..]. }
  unfold mbind at 1, M_bind at 1. destruct (watchdog su ob a0) as [a1 r1] eqn:Ew.
  pose proof Ew as (P1 & C1 & stop & ->)%watchdog_frame. rewrite P0 in P1. rewrite C0 in C1.
  destruct stop; [intros [= <- <-]; by left|].
  destruct (ob_auth_failed ob).
  { destruct (su_standalone su); effects; intros [= <- <-]; left;
      (split_and!; [done| |]); by destruct (ag_drain a1). }
  rewrite run_gets. destruct (ctl_deadman _ _).
  { effects. intros [= <- <-]. left. split_and!; [done| |]; by destruct (ag_drain a1). }
  unfold fence. rewrite run_modify, run_gets. cbn [ag_pace set_pace ag_ctl].
  intros E. right. exists a0, a1. split_and!; [done|done|intros Ho; subst a0; by rewrite Ho|done|].
  cbv zeta. revert E. rewrite P1, C1. destruct (apply_shape _ _ _) as [p|e].
  - rewrite run_lift, run_modify. unfold mbind, M_bind.
    change (set_pace p (set_pace ?q a1)) with (set_pace p a1).
    destruct (beat_if_due su ob _) as [a2 [[]|e]]; by intros [= <- <-].
  - by intros [= <- <-].
Qed.

(** A pass that goes on. *)
Lemma loop_pass_goes_on deadline ob a a' : loop_pass su deadline ob a = (a', Ok false) ->
  exists a0 a1 p, ag_pace a1 = ag_pace a /\ ag_ctl a1 = ag_ctl a /\
    (pc_operator (ag_pace a) = false -> a0 = a) /\ watchdog su ob a0 = (a1, Ok false) /\
    apply_shape su (ob_wall ob) (check_fencing su (silent (ob_mono ob) (ag_ctl a)) (ag_pace a)) = Ok p /\
    beat_if_due su ob (set_pace p a1) = (a', Ok tt).
Proof.
  intros [[? _]|(a0 & a1 & P & C & H0 & Hw & H)]%loop_pass_inv; [done|]. cbv zeta in H.
  destruct (apply_shape _ _ _) as [p|e]; [|by destruct H].
  destruct (beat_if_due su ob (set_pace p a1)) as [a2 [[]|e]] eqn:Eb; destruct H as [-> ?]; [|done].
  exists a0, a1, p. by split_and!.
Qed.

(** Commands do not touch the control client. *)
Definition same_ctl (a a' : agent) : Prop := ag_ctl a' = ag_ctl a.
Global Instance same_ctl_preorder : PreOrder same_ctl.
Proof. split; unfold same_ctl; repeat intro; congruence. Qed.

Lemma apply_command_ctl resp wall ok a : transits same_ctl (apply_command su resp wall ok) a.
Proof. by apply (apply_command_keeps su same_ctl). Qed.

(** An accepted heartbeat is an ack. *)
Lemma heartbeat_acks ob c c' doc : (ob_mono ob <= ob_ack ob)%Q -> ctl_heartbeat ob c = (c', BDoc doc) ->
  silent (ob_mono ob) c' = false.
Proof.
  unfold ctl_heartbeat. destruct c as [c|rel]; [|destruct (standalone_heartbeat _ _); by intros _ [= <- _]].
  unfold heartbeat. destruct (beat_post _ _) as [d|]; [|done].
  set (c1 := match jget d "jwt" with JStr j => _ | _ => _ end). intros Ht H.
  assert (c' = Remote (record_ack (ob_ack ob) c1)) as ->.
  { destruct (jget d "command"); try (injection H as <- _; done).
    destruct (bool_decide _); [done|]. by injection H as <- _. }
  cbn. unfold should_pause, seconds_since_ack, record_ack. cbn.
  destruct (qlt_spec FENCE_PAUSE_S (fsub (ob_mono ob) (ob_ack ob))) as [Hq|]; [|done]. exfalso.
  assert (fsub (ob_mono ob) (ob_ack ob) <= 0)%Q; [|unfold FENCE_PAUSE_S in Hq; lra].
  unfold fsub. rewrite <- rnd_0. apply rnd_mono. lra.
Qed.

Lemma await_pass_pace ob a : ag_pace (fst (await_pass su ob a)) = ag_pace (fst (fence su (ob_mono ob) a)).
Proof.
  unfold await_pass, fence. rewrite run_modify, run_get. cbn [ag_ctl set_pace].
  destruct (ctl_heartbeat ob (ag_ctl a)) as [c [doc| |]]; rewrite run_modify.
  all: unfold gets, fail_with, request_drain, modify, mbind, M_bind, mret, M_ret, raise, lift; cbn.
  all: repeat case_match; simplify_eq; try done.
Qed.

Lemma await_pass_operator ob a :
  pc_operator (ag_pace a) = false -> pc_operator (ag_pace (fst (await_pass su ob a))) = false.
Proof.
  intros Ho. rewrite await_pass_pace. unfold fence, check_fencing. cbn.
  rewrite Ho. destruct (su_standalone su), (silent (ob_mono ob) (ag_ctl a)), (pc_fencing (ag_pace a)); done.
Qed.

(** C5: Output is held when it must be.  A worker waits for its release however
    it may; if it is not fenced when T0 arrives (one that is loses its fence,
    see [fence_lost_at_t0]), then from T0 on, however heartbeats, commands,
    fences, shapes and retargets follow one another, the bucket is paused
    exactly while a fence or the operator's pause is in force, and the reported
    state says so; and a pass of the loop that leaves the control plane silent
    for more than 30 s leaves the bucket paused. *)
Theorem output_held a waits t0 ob0 obs :
  pc_operator (ag_pace a) = false ->
  let a0 := foldl (fun a ob => fst (await_pass su ob a)) a waits in
  pc_fencing (ag_pace a0) = false ->
  let '(started, deadline) := begin_run su t0 a0 in
  let a1 := fst (run_loop su deadline obs (enter_loop su ob0 started)) in
  holding a1 /\
  forall ob a', loop_pass su deadline ob a1 = (a', Ok false) -> su_standalone su = false ->
    (ob_mono ob <= ob_ack ob)%Q -> silent (ob_mono ob) (ag_ctl a') = true ->
    tb_paused (pc_bucket (ag_pace a')) = true.
Proof.
  intros Hop a0 Hfe. assert (pc_operator (ag_pace a0) = false) as Hop0.
  { subst a0. clear Hfe. revert a Hop. induction waits as [|x waits IH]; intros a Hop; [done|].
    cbn [foldl]. by apply IH, await_pass_operator. }
  destruct (begin_run su t0 a0) as [started deadline] eqn:Eb0. cbv zeta.
  assert (holding (enter_loop su ob0 started)) as Ha.
  { unfold begin_run in Eb0. injection Eb0 as <- _. unfold holding, hold_ok. cbn. by rewrite Hfe, Hop0. }
  generalize dependent (enter_loop su ob0 started). clear. intros a Ha. set (a1 := fst _).
  assert (holding a1) as H1 by (by apply loop_holds). split; [done|].
  intros ob a' E Hst Ht Hs.
  pose proof (pass_holds su deadline ob a1) as Hk. unfold transits in Hk. rewrite E in Hk.
  destruct (Hk H1) as [Hp _]. cbn [fst] in Hp. rewrite Hp.
  apply loop_pass_goes_on in E as (a0 & a2 & p & P2 & C2 & _ & _ & Ep & Eb).
  assert (silent (ob_mono ob) (ag_ctl a1) = true -> pc_fencing p = true) as Hf.
  { intros Hsil. unfold check_fencing in Ep. rewrite Hst, Hsil in Ep.
    assert (pc_fencing p = true) as Hx; [|done].
    unfold apply_shape in Ep. destruct (pc_fencing (ag_pace a1)) eqn:Ef;
      repeat case_match; try (unfold mbind, result_bind in Ep; repeat case_match); simplify_eq; done. }
  unfold beat_if_due in Eb. rewrite run_get in Eb. cbn [ag_next_hb set_pace ag_ctl] in Eb.
  destruct (Qle_bool _ _).
  2:{ injection Eb as <-. cbn [ag_ctl set_pace ag_pace] in Hs |- *. rewrite C2 in Hs. by rewrite Hf. }
  rewrite run_modify, C2 in Eb. destruct (ctl_heartbeat ob (ag_ctl a1)) as [c [doc| |]] eqn:Eh.
  - exfalso. apply heartbeat_acks in Eh; [|done]. rewrite run_modify in Eb.
    assert (ag_ctl a' = c) as Hc; [|congruence]. clear -Eb.
    assert (forall a, transits same_ctl
      (_ ← fence su (ob_ack ob); apply_command su doc (ob_wall ob) (ob_restarts ob)) a) as Hfr.
    { clear. intros a. apply (transits_bind _); [done|]. intros _ a1 _. apply apply_command_ctl. }
    specialize (Hfr (set_ctl c (set_next_hb (fadd (ob_mono ob) (sl_telemetry_interval_s (su_slice su))) (set_pace p a2)))).
    unfold transits in Hfr. rewrite Eb in Hfr. exact Hfr.
  - injection Eb as <-. cbn [ag_ctl set_ctl set_next_hb set_pace ag_pace] in Hs |- *.
    assert (c = ag_ctl a1) as ->.
    { unfold ctl_heartbeat in Eh. destruct (ag_ctl a1); [|by destruct (standalone_heartbeat _ _)].
      unfold heartbeat in Eh. repeat case_match; simplify_eq; done. }
    by rewrite Hf.
  - done.
Qed.
End Fence.

(** ** Before T0 *)

Section Parked.
Context {R : Rounding} (su : setup).

(** What happens before the release: passes of [_await_release], and the
    socket reader's takes at the wall clock [now]. *)
Inductive pre_event : Type :=
  | PAwait (ob : observation)
  | PReader (now : Q) (op : bucket_op).

Definition is_take (op : bucket_op) : bool :=
  match op with OpTry | OpAcquire | OpMany _ | OpLag => true | _ => false end.

Definition pre_step (a : agent) (e : pre_event) : agent :=
  match e with
  | PAwait ob => fst (await_pass su ob a)
  | PReader now op =>
      if is_take op then set_pace (set_bucket (apply_op now op (pc_bucket (ag_pace a))) (ag_pace a)) a else a
  end.

(** A bucket anchored at [t] that has released nothing. *)
Definition fresh (t : Q) (b : TokenBucket) : Prop :=
  tb_anchor b = t /\ tb_released b = 0 /\ (0 < tb_rate b)%Q /\ (0 <= tb_catchup_s b)%Q.

Lemma take_waits t now op b : (now <= t)%Q -> fresh t b -> is_take op = true -> fresh t (apply_op now op b).
Proof.
  intros Hn (Ea & Er & Hr & Hc) Hop.
  assert (owed b now <= 0)%Q as Ho.
  { unfold owed, fmul. rewrite <- rnd_0. apply rnd_mono.
    assert (fsub now (tb_anchor b) <= 0)%Q by (unfold fsub; rewrite <- rnd_0; apply rnd_mono; rewrite Ea; lra). nra. }
  assert (released_f b == 0)%Q as Hz by (unfold released_f; rewrite Er; apply rnd_0).
  assert (fsub (owed b now) (released_f b) <= 0)%Q as Hb.
  { unfold fsub. rewrite <- rnd_0. apply rnd_mono. lra. }
  assert (0 <= fmul (tb_rate b) (tb_catchup_s b))%Q as Hm by (apply rnd_nonneg; nra).
  assert (cap_backlog now b = b) as Ecap.
  { unfold cap_backlog. cbv zeta. destruct (Qle_bool_spec (fsub (owed b now) (released_f b)) (fmul (tb_rate b) (tb_catchup_s b))); [done|lra]. }
  assert (fresh t b) as Hf by done.
  destruct op; try done; cbn [apply_op].
  - unfold try_take. rewrite Ecap. destruct (_ || _); [done|]. rewrite Er. cbv zeta.
    destruct (qlt_spec (inject_Z 0) (owed b now)) as [H|]; [change (inject_Z 0) with 0%Q in H; lra|done].
  - unfold acquire_pass. rewrite Ecap. destruct (tb_closed b), (tb_paused b); try done. rewrite Er. cbv zeta.
    destruct (qlt_spec (inject_Z 0) (owed b now)) as [H|]; [change (inject_Z 0) with 0%Q in H; lra|done].
  - destruct (n <=? 0); [done|]. unfold acquire_many_pass. rewrite Ecap.
    destruct (tb_closed b), (tb_paused b); try done. cbv zeta.
    destruct (Z.leb_spec 1 (py_int (fsub (owed b now) (released_f b)))) as [H|]; [|done]. exfalso.
    unfold py_int in H. destruct (Qlt_le_dec (fsub (owed b now) (released_f b)) 0) as [Hl|Hl].
    + assert (Qceiling (fsub (owed b now) (released_f b)) <= Qceiling 0) by (by apply Qceiling_resp_le).
      change (Qceiling 0) with 0 in *. lia.
    + assert (Qfloor (fsub (owed b now) (released_f b)) <= Qfloor 0) by (by apply Qfloor_resp_le).
      change (Qfloor 0) with 0 in *. lia.
  - unfold lag_s. by rewrite Ecap.
Qed.

Lemma fence_fresh t mono a : fresh t (pc_bucket (ag_pace a)) ->
  fresh t (pc_bucket (ag_pace (fst (fence su mono a)))).
Proof.
  unfold fence, fresh. cbn. unfold check_fencing.
  destruct (su_standalone su), (silent mono (ag_ctl a)), (pc_fencing (ag_pace a)), (pc_operator (ag_pace a)); cbn; done.
Qed.

(** C12: Nothing flows before T0.  From the moment the bucket is parked, however the
    passes of the release wait (fences that pause and lift included) and the
    socket reader's takes interleave, no event is released as long as the wall
    clock stays within the 10^9 seconds of the park. *)
Theorem nothing_before_t0 a wall events :
  (0 < tb_rate (pc_bucket (ag_pace a)))%Q -> (0 <= tb_catchup_s (pc_bucket (ag_pace a)))%Q ->
  Forall (fun e => match e with PReader now _ => now <= fadd wall (inject_Z (10 ^ 9)) | _ => True end)%Q events ->
  tb_released (pc_bucket (ag_pace (foldl pre_step (set_pace (park wall (ag_pace a)) a) events))) = 0.
Proof.
  intros Hr Hc Hev. set (t := fadd wall (inject_Z (10 ^ 9))) in *.
  assert (fresh t (pc_bucket (ag_pace (foldl pre_step (set_pace (park wall (ag_pace a)) a) events)))) as H;
    [|apply H].
  assert (fresh t (pc_bucket (ag_pace (set_pace (park wall (ag_pace a)) a)))) as H0 by done.
  revert H0. generalize (set_pace (park wall (ag_pace a)) a). clear Hr Hc.
  induction Hev as [|e events He Hev IH]; intros a0 H0; [done|]. cbn [foldl]. apply IH.
  destruct e as [ob|now op]; cbn [pre_step].
  - rewrite await_pass_pace. by apply fence_fresh.
  - destruct (is_take op) eqn:E; [|done]. cbn. by apply take_waits.
Qed.
End Parked.

(** ** Silence *)

Section Silence.
Context {R : Rounding} (su : setup).

(** The control plane does not answer. *)
Definition unanswered (ob : observation) : Prop := beat_post (ob_first ob) (ob_second ob) = None.
Definition remote (a : agent) : Prop := exists c, ag_ctl a = Remote c.

Lemma unanswered_beat ob a : unanswered ob -> remote a ->
  exists a', beat_if_due su ob a = (a', Ok tt) /\ ag_pace a' = ag_pace a /\ ag_ctl a' = ag_ctl a /\
    ag_watch a' = ag_watch a.
Proof.
  intros H [c Ec]. unfold beat_if_due. rewrite run_get. destruct (Qle_bool _ _); [|by exists a].
  rewrite run_modify. unfold ctl_heartbeat, heartbeat. rewrite Ec, H, run_modify. eexists. by split_and!.
Qed.

Lemma apply_shape_flags wall p p' : apply_shape su wall p = Ok p' ->
  tb_paused (pc_bucket p') = tb_paused (pc_bucket p) /\ pc_fencing p' = pc_fencing p /\ pc_operator p' = pc_operator p.
Proof.
  unfold apply_shape. destruct (su_shape su), (pc_shape_share p); try (by intros [= <-]).
  destruct (qlt _ _); [|by intros [= <-]]. destruct (retarget _ _ _) as [b|] eqn:E; [|done]. intros [= <-].
  cbn. by rewrite (retarget_paused _ _ _ _ E).
Qed.

(** The fence is lost at T0.  A worker that was fenced while it waited and is then
    released starts with the fence's mark still set; if the control plane then
    goes silent for more than 30 s before the loop's first check (a clock behind
    T0 is enough), no pass pauses the bucket for as long as the silence lasts. *)
Theorem fence_lost_at_t0 a t0 deadline obs :
  su_standalone su = false -> pc_fencing (ag_pace a) = true -> pc_operator (ag_pace a) = false ->
  Forall (fun ob => unanswered ob /\ silent (ob_mono ob) (ag_ctl a) = true) obs ->
  let a' := fst (run_loop su deadline obs (fst (begin_run su t0 a))) in
  tb_paused (pc_bucket (ag_pace a')) = false /\ ag_ctl a' = ag_ctl a.
Proof.
  intros Hst Hf Ho Hobs.
  assert (forall b, tb_paused (pc_bucket (ag_pace b)) = false -> pc_fencing (ag_pace b) = true ->
    pc_operator (ag_pace b) = false -> ag_ctl b = ag_ctl a ->
    let a' := fst (run_loop su deadline obs b) in
    tb_paused (pc_bucket (ag_pace a')) = false /\ ag_ctl a' = ag_ctl a) as H; [|by apply H].
  clear Hf Ho. induction Hobs as [|ob obs [Hu Hs] Hobs IH]; intros b Hp Hf Ho Hc; [done|].
  cbn [run_loop]. rewrite run_gets. destruct (ag_drain b); [done|].
  unfold mbind, M_bind. destruct (loop_pass su deadline ob b) as [b1 r] eqn:E.
  assert (tb_paused (pc_bucket (ag_pace b1)) = false /\ pc_fencing (ag_pace b1) = true /\
    pc_operator (ag_pace b1) = false /\ ag_ctl b1 = ag_ctl a) as (Hp1 & Hf1 & Ho1 & Hc1).
  { apply loop_pass_inv in E as [(_ & P & C)|(b0 & b2 & P2 & C2 & _ & _ & H)]; [rewrite P, C; done|].
    cbv zeta in H. unfold check_fencing in H. rewrite Hst, Hc, Hs, Hf in H.
    destruct (apply_shape _ _ _) as [p|e] eqn:Ep; [|destruct H as [-> _]; cbn; rewrite C2; done].
    apply apply_shape_flags in Ep as (F1 & F2 & F3).
    assert (remote (set_pace p b2)) as Hrem.
    { unfold remote. cbn. rewrite C2, Hc. clear -Hs. destruct (ag_ctl a); [eauto|done]. }
    destruct (unanswered_beat ob (set_pace p b2) Hu Hrem) as (b3 & Eb & P3 & C3 & _). rewrite Eb in H.
    destruct H as [-> _]. rewrite P3, C3. cbn. rewrite F1, F2, F3, C2. done. }
  destruct r as [[|]|e]; [by split|by apply IH|by split].
Qed.
End Silence.

(** ** The watchdog *)

Section Watchdog.
Context {R : Rounding} (su : setup).

Definition within_restarts (a : agent) : Prop := 0 <= wt_restarts (ag_watch a) <= su_max_restarts su.

Lemma loop_within deadline obs a : transits (preserving within_restarts) (run_loop su deadline obs) a.
Proof.
  apply (run_loop_keeps su (preserving within_restarts)) with (Good := fun _ => True);
    unfold preserving, within_restarts; try done.
  - by intros ? ? _ _ ->.
  - intros w a1 [r t w1|w1 Hw]; cbn; lia.
  - by apply Forall_true.
Qed.

(** Passes at most [gap] apart. *)
Fixpoint paced (gap prev : Q) (obs : list observation) : Prop :=
  match obs with
  | [] => True
  | ob :: obs => (ob_mono ob <= prev + gap)%Q /\ paced gap (ob_mono ob) obs
  end.

(** The instant of the last pass. *)
Definition last_pass (prev : Q) (obs : list observation) : Q := foldl (fun _ ob => ob_mono ob) prev obs.

(** The control plane may answer anything but [pause]. *)
Definition unpaused (ob : observation) : Prop :=
  forall c c' doc, ctl_heartbeat ob c = (c', BDoc doc) -> jget doc "command" <> JStr "pause".

Definition same_watch (a a' : agent) : Prop :=
  ag_watch a' = ag_watch a /\ (pc_operator (ag_pace a) = false -> pc_operator (ag_pace a') = false).
Global Instance same_watch_preorder : PreOrder same_watch.
Proof. split; [done|]. intros a1 a2 a3 [H1 H2] [H3 H4]. split; [congruence|auto]. Qed.

Lemma same_watch_life a a' : ag_ctl a' = ag_ctl a -> ag_pace a' = ag_pace a -> ag_watch a' = ag_watch a ->
  same_watch a a'.
Proof. intros _ E1 E2. unfold same_watch. by rewrite E1, E2. Qed.

(** A command other than [pause] does not touch the watchdog, nor does it pause. *)
Lemma apply_command_watch doc wall ok a :
  jget doc "command" <> JStr "pause" -> pc_operator (ag_pace a) = false ->
  transits same_watch (apply_command su doc wall ok) a.
Proof.
  intros Hc Ho. unfold apply_command. apply (transits_modify _).
  { split; [done|]. intros _. cbn. unfold note_paused_s. by repeat case_match. }
  set (a1 := set_pace _ a).
  assert (pc_operator (ag_pace a1) = false) as Ho1.
  { subst a1. cbn. unfold note_paused_s. by repeat case_match. }
  replace (match jget doc "command" with JStr c => bool_decide (c = "pause") | _ => false end) with false.
  2:{ destruct (jget doc "command"); try done. symmetry. apply bool_decide_eq_false_2. congruence. }
  assert (forall b : bool, when b (operator_resume su wall ok) a1 = (a1, Ok tt)) as Hres.
  { intros []; [|done]. cbn. unfold operator_resume. rewrite run_gets. by rewrite Ho1. }
  unfold transits. erewrite run_bind by apply Hres.
  change (transits same_watch (if match jget doc "command" with JStr c => bool_decide (c = "drain") | _ => false end
    then request_drain "control-drain"
    else if match jget doc "command" with JStr c => bool_decide (c = "retarget") | _ => false end
    then share ← lift (share_doc (jget doc "share")); retarget_cmd su share wall ok else mret tt) a1).
  destruct (match jget doc "command" with JStr c => bool_decide (c = "drain") | _ => false end).
  { apply (transits_modify_last _), same_watch_life; by destruct (ag_drain a1). }
  destruct (match jget doc "command" with JStr c => bool_decide (c = "retarget") | _ => false end);
    [|apply (transits_ret _)].
  apply (transits_bind _); [apply (transits_lift _)|]. intros share a2 _.
  apply (retarget_rates su same_watch same_watch_life).
  intros p a3 [(r & q & ->)|(r & w & b & _ & ->)]; by split.
Qed.

Lemma beat_watch ob a : unpaused ob -> pc_operator (ag_pace a) = false ->
  transits same_watch (beat_if_due su ob) a.
Proof.
  intros Hu Ho. unfold beat_if_due. apply (transits_get _). destruct (Qle_bool _ _); [|apply (transits_ret _)].
  apply (transits_modify _); [by apply same_watch_life|].
  destruct (ctl_heartbeat ob (ag_ctl a)) as [c [doc| |]] eqn:Eh;
    (apply (transits_modify _); [by split|]); [|apply (transits_ret _)|apply (transits_raise _)].
  apply Hu in Eh. unfold fence. apply (transits_modify _).
  - split; [done|]. intros _. cbn. unfold check_fencing. by repeat case_match.
  - apply apply_command_watch; [done|]. cbn. unfold check_fencing. by repeat case_match.
Qed.

Lemma watchdog_stalled ob a a' : watchdog_on su = true ->
  ob_received ob = wt_last_received (ag_watch a) ->
  (su_zero_output_s su <= fsub (ob_mono ob) (wt_last_progress (ag_watch a)))%Q ->
  watchdog su ob a = (a', Ok false) ->
  wt_restarts (ag_watch a) < su_max_restarts su /\
  ag_watch a' = mkWatch (ob_received ob) (ob_mono ob) (wt_restarts (ag_watch a) + 1).
Proof.
  intros Hon Hr Hz. unfold watchdog. rewrite run_gets, Hon. destruct (Z.ltb_spec (wt_last_received (ag_watch a)) (ob_received ob)); [lia|].
  destruct (Qle_bool_spec (su_zero_output_s su) (fsub (ob_mono ob) (wt_last_progress (ag_watch a)))); [|done].
  unfold fail_with, request_drain, engine_restart, mbind, M_bind, modify, mret, M_ret.
  destruct (sweeping su); [by intros [= _]|].
  destruct (Z.ltb_spec (wt_restarts (ag_watch a)) (su_max_restarts su)) as [Hlt|]; [|by intros [= _]].
  destruct (ob_restarts ob); [|by intros [= _]]. by intros [= <-].
Qed.

(** A pass that goes on while the engine gives nothing: within the window of the
    watchdog, or one more restart. *)
Lemma stalled_pass deadline ob a a' :
  watchdog_on su = true -> (rnd (su_zero_output_s su) == su_zero_output_s su)%Q ->
  pc_operator (ag_pace a) = false -> unpaused ob -> ob_received ob = wt_last_received (ag_watch a) ->
  loop_pass su deadline ob a = (a', Ok false) ->
  pc_operator (ag_pace a') = false
  /\ ((ag_watch a' = ag_watch a /\ ob_mono ob - wt_last_progress (ag_watch a) < su_zero_output_s su)%Q
     \/ wt_restarts (ag_watch a) < su_max_restarts su
        /\ ag_watch a' = mkWatch (ob_received ob) (ob_mono ob) (wt_restarts (ag_watch a) + 1)).
Proof.
  intros Hon Hz Ho Hu Hr E. apply loop_pass_goes_on in E as (a0 & a1 & p & P & C & H0 & Ew & Ep & Eb).
  rewrite (H0 Ho) in Ew. apply apply_shape_flags in Ep as (_ & _ & F3).
  assert (pc_operator p = false) as Hop by (rewrite F3; unfold check_fencing; by repeat case_match).
  pose proof (beat_watch ob (set_pace p a1) Hu Hop) as Hb. unfold transits in Hb. rewrite Eb in Hb.
  destruct Hb as [W O]. split; [by apply O|]. cbn in W. rewrite W.
  destruct (Qlt_le_dec (ob_mono ob - wt_last_progress (ag_watch a)) (su_zero_output_s su)) as [Hlt|Hge].
  - destruct (Qle_bool (su_zero_output_s su) (fsub (ob_mono ob) (wt_last_progress (ag_watch a)))) eqn:Eq.
    + apply Qle_bool_iff in Eq. right. by eapply watchdog_stalled.
    + left. split; [|done]. revert Ew. unfold watchdog. rewrite run_gets, Hon, Hr, Z.ltb_irrefl, Eq.
      by intros [= <-].
  - right. eapply watchdog_stalled; [done..| |done]. unfold fsub. rewrite <- Hz. by apply rnd_mono.
Qed.

(** From any pass [prev] within the window. *)
Lemma stalled_loop deadline gap obs :
  watchdog_on su = true -> (rnd (su_zero_output_s su) == su_zero_output_s su)%Q -> (0 <= gap)%Q ->
  Forall unpaused obs -> forall a prev,
  within_restarts a -> pc_operator (ag_pace a) = false ->
  Forall (fun ob => ob_received ob = wt_last_received (ag_watch a)) obs ->
  (prev < wt_last_progress (ag_watch a) + su_zero_output_s su)%Q -> paced gap prev obs ->
  (wt_last_progress (ag_watch a)
     + inject_Z (su_max_restarts su - wt_restarts (ag_watch a) + 1) * (su_zero_output_s su + gap)
   <= last_pass prev obs)%Q ->
  snd (run_loop su deadline obs a) <> Ok None.
Proof.
  intros Hon Hrep Hgap Hu. induction Hu as [|ob obs Hob Hu IH]; intros a prev Hw Ho Hr Hprev.
  - cbn. intros _ Hend. exfalso. unfold within_restarts in Hw.
    assert (1 <= inject_Z (su_max_restarts su - wt_restarts (ag_watch a) + 1))%Q as H1
      by (change 1%Q with (inject_Z 1); rewrite <- Zle_Qle; lia).
    assert (0 < su_zero_output_s su)%Q as Hz.
    { unfold watchdog_on in Hon. apply andb_true_iff in Hon as [[Hq _]%andb_true_iff _].
      by destruct (qlt_spec 0 (su_zero_output_s su)). }
    nra.
  - intros [Hm Hp] Hend. apply Forall_cons in Hr as [Hr Hrs]. cbn [run_loop]. rewrite run_gets.
    destruct (ag_drain a); [done|]. unfold mbind, M_bind.
    destruct (loop_pass su deadline ob a) as [b [[|]|e]] eqn:E; [done| |done].
    apply stalled_pass in E as [Hob' [[Wb Hlt]|[Hk Wb]]]; [..|done|done|done|done|done].
    + unfold within_restarts in Hw. apply (IH b (ob_mono ob)); unfold within_restarts; rewrite ?Wb; (done || lra).
    + unfold within_restarts in Hw. apply (IH b (ob_mono ob)); unfold within_restarts; rewrite ?Wb;
        cbn [wt_restarts wt_last_progress wt_last_received]; [lia|done|by rewrite Hr| |done|].
      { unfold watchdog_on in Hon. apply andb_true_iff in Hon as [[Hq _]%andb_true_iff _].
        destruct (qlt_spec 0 (su_zero_output_s su)); [lra|done]. }
      refine (Qle_trans _ _ _ _ Hend).
      set (n := su_max_restarts su - (wt_restarts (ag_watch a) + 1) + 1).
      replace (su_max_restarts su - wt_restarts (ag_watch a) + 1) with (n + 1) by lia.
      rewrite inject_Z_plus. change (inject_Z 1) with 1%Q. lra.
Qed.

(** C15: A stalled engine does not hold a worker.  The watchdog restarts the engine at
    most [max_restarts] times whatever happens; and when the engine gives
    nothing, restarts included, while the passes of the loop are at most [gap]
    apart and the control plane answers what it likes but [pause], the loop has
    ended before [max_restarts + 1] times the window and a gap are over.  (The
    window is a representable number.) *)
Theorem stalled_engine_ends deadline obs a gap :
  within_restarts a ->
  within_restarts (fst (run_loop su deadline obs a)) /\
  (watchdog_on su = true -> (rnd (su_zero_output_s su) == su_zero_output_s su)%Q -> (0 <= gap)%Q ->
   pc_operator (ag_pace a) = false ->
   Forall unpaused obs -> Forall (fun ob => ob_received ob = wt_last_received (ag_watch a)) obs ->
   let start := wt_last_progress (ag_watch a) in
   paced gap start obs ->
   (start + inject_Z (su_max_restarts su - wt_restarts (ag_watch a) + 1) * (su_zero_output_s su + gap)
      <= last_pass start obs)%Q ->
   snd (run_loop su deadline obs a) <> Ok None).
Proof.
  intros Hw. split; [by apply loop_within|]. intros Hon Hrep Hgap Ho Hu Hr start Hp Hend.
  apply (stalled_loop deadline gap obs Hon Hrep Hgap Hu a start); try done.
  unfold watchdog_on in Hon. apply andb_true_iff in Hon as [[Hq _]%andb_true_iff _].
  destruct (qlt_spec 0 (su_zero_output_s su)); [subst start; lra|done].
Qed.
End Watchdog.

(** ** A paused run's deadline *)

Section Deadline.
Context {R : Rounding} {RM : ResponseModel} (su : setup).

(** The transport delivers what the heartbeat route sends, or nothing. *)
Definition from_route (t : transport) : Prop :=
  forall status doc, t = TReply status (Some (Some doc)) ->
    exists r, doc = serialise HeartbeatCommand (response_json r).

Definition routed (ob : observation) : Prop := from_route (ob_first ob) /\ from_route (ob_second ob).

Lemma beat_doc ob c c' doc : routed ob -> ctl_heartbeat ob c = (c', BDoc doc) -> jget doc "paused_s" = JNull.
Proof.
  intros [H1 H2]. unfold ctl_heartbeat. destruct c as [c|rel].
  2:{ unfold standalone_heartbeat. destruct rel; by intros [= _ <-]. }
  assert (forall t d, from_route t -> post t = inl d -> jget d "paused_s" = JNull) as Hpost.
  { intros t d Ht. unfold post. destruct t as [st [[b|]|]| |]; try done; destruct (_ <=? _); try done.
    - intros [= <-]. destruct (Ht st b eq_refl) as [r ->]. unfold jget.
      by destruct (heartbeat_body r) as (_ & _ & _ & ->).
    - by intros [= <-]. }
  unfold heartbeat, beat_post.
  destruct (post (ob_first ob)) as [d|[]] eqn:E1; [| |done|done].
  - apply Hpost in E1; [|done]. repeat case_match; intros; simplify_eq; done.
  - destruct (post (ob_second ob)) as [d|] eqn:E2; [|done]. apply Hpost in E2; [|done].
    repeat case_match; intros; simplify_eq; done.
Qed.

Definition same_paused_s (a a' : agent) : Prop := pc_paused_s (ag_pace a') = pc_paused_s (ag_pace a).
Global Instance same_paused_s_preorder : PreOrder same_paused_s.
Proof. split; unfold same_paused_s; repeat intro; congruence. Qed.

Lemma loop_paused_s deadline obs a : Forall routed obs -> transits same_paused_s (run_loop su deadline obs) a.
Proof.
  intros H. apply (run_loop_keeps su same_paused_s) with (Good := routed); unfold same_paused_s; try done.
  - by intros ? ? _ ->.
  - intros p a1 Hs. cbn. destruct Hs; cbn; try done.
    + unfold check_fencing. repeat case_match; done.
    + unfold operator_pause. by case_match.
  - intros ob c c' doc a1 Hg E. cbn. by rewrite (beat_doc _ _ _ _ Hg E).
Qed.

(** The time a run was paused is lost at the worker.  With a control plane that
    answers through its heartbeat route, no sequence of passes changes the
    paused time the worker knows: a worker that started with none drains as
    complete at its first pass at or past the original deadline, however long
    the run was paused, unless it is paused just then. *)
Theorem paused_time_is_lost d obs a ob :
  Forall routed obs -> pc_paused_s (ag_pace a) = 0%Q ->
  let a1 := fst (run_loop su (Some d) obs a) in
  pc_paused_s (ag_pace a1) = 0%Q /\
  (pc_operator (ag_pace a1) = false -> ag_drain a1 = None -> (fadd d 0 <= ob_wall ob)%Q ->
   loop_pass su (Some d) ob a1 = (set_drain (Some "duration-complete") a1, Ok true)).
Proof.
  intros Hr Ha a1. pose proof (loop_paused_s (Some d) obs a Hr) as H. unfold transits, same_paused_s in H.
  fold a1 in H. rewrite Ha in H. split; [done|]. intros Ho Hd Hw.
  unfold loop_pass. rewrite run_gets. unfold past_end. rewrite H, Ho.
  destruct (Qle_bool_spec (fadd d 0) (ob_wall ob)); [|done]. cbn [andb negb].
  unfold request_drain. rewrite run_modify. by rewrite Hd.
Qed.
End Deadline.

(** ** Retargets and the drain, in exact arithmetic *)

Section Exact.
Local Existing Instance exact.
Context (su : setup).

Lemma retarget_owed v wall b b' : (0 < v)%Q -> retarget v wall b = Ok b' ->
  tb_rate b' = v /\ tb_released b' = tb_released b /\ (owed b' wall == owed b wall)%Q.
Proof.
  intros Hv. unfold retarget. destruct (Qle_bool_spec v 0); [lra|]. intros [= <-].
  split; [done|]. split; [done|]. unfold owed, fmul, fsub, fdiv. cbn [rnd exact tb_rate tb_anchor]. field. lra.
Qed.

Lemma rewrite_and_restart_pace ok a : ag_pace (fst (rewrite_and_restart su ok a)) = ag_pace a.
Proof.
  unfold rewrite_and_restart, record_assigned, set_assigned, engine_restart, mbind, M_bind, gets, lift, modify, raise, mret, M_ret.
  destruct (su_pack_conf su); [|done]. destruct (rewrite _ _ _ _ _ _ _ _ _); [|done].
  destruct (assigned_stanza_count _ _) as [n|[]]; destruct ok; done.
Qed.

(** A retarget is seamless.  For an eps run without a shape, a new positive share
    takes effect at once with the schedule continuous (what is owed at that
    instant does not change, and nothing is released or forgotten), whatever
    becomes of the rest; within the band the engine and its conf are left
    alone; beyond it, once the conf is rewritten, the engine has been restarted
    exactly once on the conf of the new share. *)
Theorem retarget_seamless v wall ok a a' r :
  retarget_to su v wall ok a = (a', r) ->
  sl_rate_mode (su_slice su) = "eps" -> su_shape su = None -> (0 < v)%Q ->
  let b := pc_bucket (ag_pace a) in let b' := pc_bucket (ag_pace a') in
  tb_rate b' = v /\ tb_released b' = tb_released b /\ (owed b' wall == owed b wall)%Q /\
  pc_rate_value (ag_pace a') = Some v /\
  (in_place v (pc_rate_value (ag_pace a)) = true ->
     r = Ok tt /\ ag_conf a' = ag_conf a /\ ag_engine_restarts a' = ag_engine_restarts a) /\
  (in_place v (pc_rate_value (ag_pace a)) = false -> r = Ok tt ->
     exists c0 c, su_pack_conf su = Some c0 /\ ag_conf a' = Some c /\
       rewrite "eps" (Some v) (su_overdrive su) (su_samples_dir su) (sl_slot (su_slice su))
         (sl_total_workers (su_slice su)) None no_backfill c0 = Ok c /\
       ag_engine_restarts a' = ag_engine_restarts a + 1).
Proof.
  intros E Hm Hs Hv. unfold retarget_to in E. rewrite run_gets in E. cbv zeta in E. rewrite run_modify in E.
  unfold gating_eps in E. rewrite Hm in E. rewrite (bool_decide_true ("eps" = "eps")) in E by done.
  rewrite run_lift in E. cbv beta in E. rewrite Hs, run_ret in E.
  rewrite (bool_decide_false ("eps" = "count_interval")) in E by done. rewrite run_gets in E.
  cbn [set_pace ag_pace pc_bucket] in E.
  destruct (retarget v wall (pc_bucket (ag_pace a))) as [b1|e] eqn:Er.
  2:{ exfalso. unfold retarget in Er. destruct (Qle_bool_spec v 0); [lra|done]. }
  rewrite run_lift, run_modify in E.
  destruct (retarget_owed v wall _ _ Hv Er) as (H1 & H2 & H3).
  destruct (in_place v (pc_rate_value (ag_pace a))) eqn:Ei.
  - injection E as <- <-. cbn. split_and!; done.
  - pose proof (rewrite_and_restart_pace ok) as Hp.
    match type of E with rewrite_and_restart _ _ ?s = _ => specialize (Hp s); set (s0 := s) in * end.
    rewrite E in Hp. cbn [fst] in Hp. rewrite Hp. subst s0. cbn [set_pace set_bucket ag_pace pc_bucket pc_rate_value].
    split_and!; try done. intros _ ->. revert E.
    unfold rewrite_and_restart. rewrite run_gets. cbn [ag_pace set_pace set_bucket pc_rate_value].
    unfold engine_share. rewrite Hs.
    destruct (su_pack_conf su) as [c0|]; [rewrite run_lift|done]. rewrite Hm.
    destruct (rewrite "eps" _ _ _ _ _ _ _ _) as [c|e] eqn:Ew; [rewrite run_lift, run_modify|done].
    unfold record_assigned, set_assigned, engine_restart, mbind, M_bind, modify, raise, mret, M_ret.
    destruct (assigned_stanza_count _ _) as [n|[]]; destruct ok; cbn; intros [= <-]; exists c0, c; by split_and!.
Qed.

(** Every stage ends within the timeout it is given. *)
Definition timely_drain (env : drain_env) : Prop :=
  (forall t, 0 <= t -> 0 <= dn_join env t <= t /\ 0 <= dn_term env t <= t /\ 0 <= dn_kill env t <= t /\
     0 <= dn_reader env t <= t /\ 0 <= dn_flush env t <= t)%Q /\ timely (dn_final env).

Lemma remaining_bounds d now : (0 <= remaining d now /\ d - now <= remaining d now /\
  (now + remaining d now <= d \/ remaining d now == 0))%Q.
Proof. unfold remaining, fsub. cbn [rnd exact]. destruct (Q.max_spec 0 (d - now)) as [[? E]|[? E]]; rewrite E; lra. Qed.

Lemma Qmin_le a b : (Qmin a b <= a /\ Qmin a b <= b)%Q.
Proof. split; [apply Q.le_min_l|apply Q.le_min_r]. Qed.

Lemma Qmin_nonneg a b : (0 <= a -> 0 <= b -> 0 <= Qmin a b)%Q.
Proof. intros. by apply Q.min_glb. Qed.

(** The drain fits its budget.  Intake is closed first; when every stage ends
    within the timeout it is given, the whole drain (socket join, SIGTERM,
    SIGKILL and log reader of the engine, flush, final report) is over within
    the budget, or the 22 s of an engine that ignores SIGTERM if that is longer,
    plus the two seconds [final] may overrun: 42 s with the default 40 s. *)
Theorem drain_fits_budget env started now a :
  timely_drain env -> (0 <= su_drain_budget_s su)%Q ->
  match ag_ctl a with Remote c => (0 < cc_timeout c)%Q | Stub _ => True end ->
  let '(a', _, times) := shutdown su env started now a in
  tb_closed (pc_bucket (ag_pace a')) = true /\
  exists fin, last times = Some fin /\ (fin <= now + Qmax (su_drain_budget_s su) 22 + 2)%Q.
Proof.
  intros [Hst Hfin] Hb Hct. unfold shutdown. cbv zeta. split; [done|].
  unfold fadd. cbn [rnd exact ag_ctl set_pace].
  set (d := (now + su_drain_budget_s su)%Q).
  assert (su_drain_budget_s su <= Qmax (su_drain_budget_s su) 22 /\ 22 <= Qmax (su_drain_budget_s su) 22)%Q as [M1 M2]
    by (split; [apply Q.le_max_l|apply Q.le_max_r]).
  set (m := Qmax (su_drain_budget_s su) 22) in *.
  set (t1 := (now + dn_join env (Qmin 5 (remaining d now)))%Q).
  assert (now <= t1 <= now + 5)%Q as H1.
  { destruct (remaining_bounds d now) as (R1 & _). destruct (Qmin_le 5 (remaining d now)).
    destruct (Hst (Qmin 5 (remaining d now)) ltac:(apply Qmin_nonneg; lra)) as [? _]. unfold t1. lra. }
  set (t2 := if started then engine_stop env (Qmin STOP_GRACE_S (remaining d t1)) t1 else t1).
  assert (t1 <= t2 <= t1 + 17)%Q as H2.
  { unfold t2. destruct started; [|lra]. unfold engine_stop, fadd. cbn [rnd exact].
    destruct (remaining_bounds d t1) as (R1 & _). unfold STOP_GRACE_S. destruct (Qmin_le 10 (remaining d t1)).
    destruct (Hst (Qmin 10 (remaining d t1)) ltac:(apply Qmin_nonneg; lra)) as (_ & ? & _).
    destruct (Hst 5%Q ltac:(lra)) as (_ & _ & ? & _). destruct (Hst 2%Q ltac:(lra)) as (_ & _ & _ & ? & _).
    destruct (dn_ignored env); lra. }
  set (t3 := (t2 + dn_flush env (Qmin FLUSH_TIMEOUT_S (remaining d t2)))%Q).
  assert (t2 <= t3 <= now + m)%Q as H3.
  { destruct (remaining_bounds d t2) as (R1 & _ & R3). destruct (Qmin_le FLUSH_TIMEOUT_S (remaining d t2)).
    destruct (Hst (Qmin FLUSH_TIMEOUT_S (remaining d t2)) ltac:(apply Qmin_nonneg; unfold FLUSH_TIMEOUT_S; lra))
      as (_ & _ & _ & _ & ?). unfold t3. subst d. lra. }
  cbn [last]. eexists. split; [reflexivity|].
  destruct (ag_ctl a) as [c|]; [|lra]. unfold final.
  destruct (Qlt_le_dec d t3) as [Hlt|Hle].
  - cbn [final_loop fmap option_fmap option_map]. unfold fsub. cbn [rnd exact].
    destruct (Qle_bool_spec (d - t3) 0); [cbn; lra|lra].
  - destruct (final_loop (cc_timeout c) (Some d) (dn_final env) 3 0 t3) as [[reqs ok] fin] eqn:E.
    apply final_loop_bounds in E as (_ & Hf & _); [|done|done|lra]. cbn. subst d. lra.
Qed.
End Exact.

(** ** Witnesses *)

Definition demo_slice : SpecSlice :=
  mkSlice (JInt 42) 0 1 (JStr "lease") (JStr "eventgen") (JStr "http://cp/bundle") JNull "eps" (Some 10%Q)
    (Some 600%Q) (JStr "https://hec") JNull JNull JNull JNull false false [] 5 false None None None None None JNull.

Definition demo_setup : setup :=
  mkSetup false (115 # 100) 60 2 40 demo_slice (Some one_stanza) "/run/s" JNull None
    (fun _ => mkTime 0 0 0 1 1) false.

Definition demo_bucket : TokenBucket := mkBucket 10 5 1000 0 false false 0.

Definition demo_agent : agent :=
  mkAgent (Remote (mkControl "jwt" 300 10 0)) (mkPace demo_bucket false false 0 WGenerating (Some 10%Q) None)
    (mkWatch 0 0 0) 5 None 0 None None 0.

(** A quiet pass, and one that is told to pause. *)
Definition quiet (wall mono : Q) (received : Z) : observation :=
  mkObs wall mono true received false TOtherError TOtherError mono true.
Definition told (wall mono : Q) (command : string) : observation :=
  mkObs wall mono true 100 false (TReply 200 (Some (Some [("command", JStr command)]))) TOtherError mono true.

Lemma output_held_witness :
  let waits := [quiet 1000 5 0] in
  let a0 := foldl (fun a ob => fst (@await_pass binary64 demo_setup ob a)) demo_agent waits in
  let obs := [told 1010 6 "pause"; quiet 1011 7 100] in
  let '(started, deadline) := @begin_run binary64 demo_setup 1000 a0 in
  let a1 := fst (@run_loop binary64 demo_setup deadline obs (@enter_loop binary64 demo_setup (quiet 1000 0 0) started)) in
  tb_paused (pc_bucket (ag_pace a1)) = true /\ holding a1.
Proof.
  pose proof (@output_held binary64 demo_setup demo_agent [quiet 1000 5 0] 1000 (quiet 1000 0 0)
    [told 1010 6 "pause"; quiet 1011 7 100] eq_refl ltac:(vm_compute; reflexivity)) as H.
  cbv zeta in H |- *. destruct (begin_run _ _ _) as [started deadline] eqn:E.
  split; [|exact (proj1 H)]. vm_compute in E. injection E as <- <-. vm_compute. reflexivity.
Defined.

Lemma nothing_before_t0_witness :
  tb_released (pc_bucket (ag_pace (foldl (@pre_step binary64 demo_setup)
    (set_pace (@park binary64 900 (ag_pace demo_agent)) demo_agent)
    [PReader 950 OpAcquire; PAwait (quiet 960 40 0); PReader 990 (OpMany 7)]))) = 0.
Proof.
  refine (@nothing_before_t0 binary64 demo_setup demo_agent 900
    [PReader 950 OpAcquire; PAwait (quiet 960 40 0); PReader 990 (OpMany 7)] _ _ _).
  - done.
  - done.
  - repeat constructor; vm_compute; discriminate.
Defined.

(** Fenced after 40 s of silence, then released. *)
Definition fenced_agent : agent :=
  fst (@await_pass binary64 demo_setup
    (mkObs 1000 40 true 0 false (TReply 200 (Some (Some [("command", JStr "release")]))) TOtherError 40 true)
    (set_pace (@park binary64 900 (ag_pace demo_agent)) demo_agent)).

Lemma fence_lost_at_t0_witness :
  let obs := [quiet 1100 80 0; quiet 1103 83 9] in
  snd (@await_pass binary64 demo_setup
    (mkObs 1000 40 true 0 false (TReply 200 (Some (Some [("command", JStr "release")]))) TOtherError 40 true)
    (set_pace (@park binary64 900 (ag_pace demo_agent)) demo_agent)) = Ok (Released 1000) /\
  tb_paused (pc_bucket (ag_pace
    (fst (@run_loop binary64 demo_setup None obs (fst (@begin_run binary64 demo_setup 1000 fenced_agent)))))) = false.
Proof.
  split; [vm_compute; reflexivity|].
  refine (proj1 (@fence_lost_at_t0 binary64 demo_setup fenced_agent 1000 None [quiet 1100 80 0; quiet 1103 83 9] _ _ _ _));
    [vm_compute; reflexivity..|].
  repeat (apply Forall_cons; split; [split; vm_compute; reflexivity|]). by apply Forall_nil.
Defined.

Lemma unpaused_quiet wall mono received : unpaused (quiet wall mono received).
Proof.
  intros c c' doc E. destruct c as [c|rel]; [done|]. cbn in E. destruct rel; by injection E as _ <-.
Qed.

Lemma stalled_engine_ends_witness :
  let obs := [quiet 0 40 0; quiet 0 80 0; quiet 0 120 0; quiet 0 160 0; quiet 0 200 0; quiet 0 240 0;
              quiet 0 280 0; quiet 0 300 0] in
  snd (@run_loop binary64 demo_setup None obs demo_agent) <> Ok None.
Proof.
  intros obs.
  refine (proj2 (@stalled_engine_ends binary64 demo_setup None obs demo_agent 40 _) _ _ _ _ _ _ _ _).
  - unfold within_restarts. cbn. lia.
  - reflexivity.
  - vm_compute. reflexivity.
  - done.
  - done.
  - repeat (constructor; [apply unpaused_quiet|]). constructor.
  - repeat (constructor; [reflexivity|]). constructor.
  - cbn [paced obs]. split_and!; try done; vm_compute; discriminate.
  - vm_compute. discriminate.
Defined.

(** A response model that keeps the declared fields. *)
Lemma paused_time_is_lost_witness :
  let doc := serialise HeartbeatCommand (response_json (Protocol.mkResponse Protocol.Continue (Some 3600%Q) None)) in
  let obs := [mkObs 1010 6 true 100 false (TReply 200 (Some (Some doc))) TOtherError 6 true] in
  pc_paused_s (ag_pace (fst (@run_loop binary64 demo_setup (Some 1600%Q) obs demo_agent))) = 0%Q.
Proof.
  cbv zeta.
  refine (proj1 (@paused_time_is_lost binary64 declared_fields demo_setup 1600 _ demo_agent (quiet 1600 600 100) _ _)).
  - apply Forall_cons. split; [|by apply Forall_nil]. split; [intros st doc [= _ <-];
    by exists (Protocol.mkResponse Protocol.Continue (Some 3600%Q) None)|done].
  - reflexivity.
Defined.

Lemma retarget_seamless_witness :
  exists a' r, @retarget_to exact demo_setup 11 1001 true demo_agent = (a', r) /\
    tb_rate (pc_bucket (ag_pace a')) = 11%Q /\
    (@owed exact (pc_bucket (ag_pace a')) 1001 == @owed exact (pc_bucket (ag_pace demo_agent)) 1001)%Q.
Proof.
  eexists _, _. split; [vm_compute; reflexivity|].
  edestruct (retarget_seamless demo_setup 11 1001 true demo_agent) as (H1 & _ & H3 & _);
    [vm_compute; reflexivity|reflexivity|reflexivity|reflexivity|].
  split; [exact H1|exact H3].
Defined.

(** Every stage uses up its timeout, the engine ignores SIGTERM. *)
Definition slow_drain : drain_env := mkDrain id id true id id id refusing.

Lemma drain_fits_budget_witness :
  exists fin, last (snd (@shutdown exact demo_setup slow_drain true 100 demo_agent)) = Some fin /\
    (fin <= 100 + Qmax 40 22 + 2)%Q.
Proof.
  refine (proj2 (drain_fits_budget demo_setup slow_drain true 100 demo_agent _ _ _)).
  - split; [|apply refusing_timely]. intros t Ht. cbn. lra.
  - done.
  - done.
Defined.
