(* ===== verification/Fencing.v ===== *)
(** * Lease identity: claiming and fencing

    A claim issues a lease under an id that was never used, and from then on the
    previous id of the slot is dead: whatever a worker sends under it changes
    nothing. *)

From S2P Require Import Prelude.
From S2P Require Import PyFloat.
From S2P Require Import PyValue.
From S2P Require Import Apportion.
From S2P Require Import Driver.
From S2P Require Import Model.
From S2P Require Import Shares.
From S2P Require Import Session.
From S2P Require Import Protocol.
From S2P Require Import Operators.
From S2P Require Import Provision.
From S2P Require Import Scenario.
From S2P Require Import Supervisor.
From S2P Require Import Invariants.
From S2P Require Import Soundness.
From S2P Require Import Launch.
From S2P Require Import Trace.
From Stdlib Require Import QArith.
Open Scope Z_scope.

(** ** build_share_list only raises ValueError *)

Lemma largest_remainder_raises {R : Rounding} n ws e :
  largest_remainder n ws = Raise e -> exists m, e = ValueError m.
Proof.
  unfold largest_remainder. destruct (n <? 0); [intros [= <-]; eauto|].
  by destruct (Nat.eqb (length ws) 0).
Qed.

Lemma build_share_list_raises {R : Rounding} mode v n e :
  build_share_list mode v n = Raise e -> exists m, e = ValueError m.
Proof.
  unfold build_share_list, apportion_shares.
  repeat (case_match; try (intros [= <-]; eauto); try done).
  all: unfold mbind, result_bind; destruct (largest_remainder _ _) eqn:E; [done|];
    intros [= <-]; by eapply largest_remainder_raises.
Qed.

Section Fencing.
Context {D : Type} `{Env D}.
Abbreviation W := (world D).

(** ** What a takeover's re-apportionment touches: shares *)

Definition no_share (l : WorkerLease) : WorkerLease := set_share ∅ l.

Record shares_only (w w' : W) : Prop := mkSharesOnly {
  so_leases : no_share <$> w_leases w' = no_share <$> w_leases w;
  so_run : w_run w' = w_run w;
  so_now : w_now w' = w_now w;
  so_tokens : w_tokens w' = w_tokens w;
}.

Global Instance shares_only_preorder : PreOrder shares_only.
Proof. split; [done|]. intros w1 w2 w3 [] []. split; congruence. Qed.

Lemma shares_only_on_lease slot f (w : W) :
  (forall l, no_share (f l) = no_share l) -> shares_only w (with_leases (upd_lease slot f) w).
Proof. intros Hf. split; cbn; [|done..]. apply fmap_upd_lease. auto. Qed.

Lemma shares_only_takeover slot (w : W) : returns shares_only (reapportion_on_takeover slot) w.
Proof.
  unfold reapportion_on_takeover. unfold_prims. returns_step. cbv zeta.
  destruct (_ || _); [returns|]. destruct (negb _); [returns|].
  destruct (bool_decide _); [returns|].
  destruct (build_share_list _ _ _) as [shares|e] eqn:E.
  - returns. apply shares_only_on_lease. intros l. by destruct (_ =? _)%nat.
  - apply build_share_list_raises in E as [m ->]. returns.
Qed.

Lemma shares_only_lookup (w w' : W) i l :
  shares_only w w' -> w_leases w !! i = Some l ->
  exists l', w_leases w' !! i = Some l' /\ l_slot l' = l_slot l /\ l_id l' = l_id l
    /\ l_holder l' = l_holder l /\ l_state l' = l_state l.
Proof.
  intros [Hl _ _ _] Hi. apply (f_equal (.!! i)) in Hl. rewrite !list_lookup_fmap, Hi in Hl.
  destruct (w_leases w' !! i) as [l'|]; [|done]. injection Hl as E1 E2 E3 E4 E5 E6 E7 E8.
  exists l'. repeat split; congruence.
Qed.

Lemma shares_only_ids (w w' : W) : shares_only w w' -> ids w' = ids w.
Proof.
  intros [Hl _ _ _]. apply (f_equal (fmap l_id)) in Hl.
  rewrite <- !list_fmap_compose in Hl. exact Hl.
Qed.

Lemma shares_only_wf (w w' : W) : shares_only w w' -> lease_wf w -> lease_wf w'.
Proof.
  intros Hso Hw. eapply lease_wf_ext; [| | |exact Hw].
  - destruct Hso as [Hl _ _ _]. apply (f_equal (fmap l_slot)) in Hl.
    rewrite <- !list_fmap_compose in Hl. exact Hl.
  - by apply shares_only_ids.
  - by rewrite (so_tokens _ _ Hso).
Qed.

(** ** Claim *)

(** Whether a claim by [holder] can be served. *)
Definition can_claim (w : W) (holder : string) : Prop :=
  (exists l, l ∈ w_leases w /\ l_holder l = Some holder /\ live (l_state l) = true)
  \/ (exists l, l ∈ w_leases w /\ claimable (l_state l) = true).

Lemma find_holder_spec (ls : list WorkerLease) holder :
  match List.find (fun l => bool_decide (l_holder l = Some holder) && is_live l) ls with
  | Some l => l ∈ ls /\ l_holder l = Some holder /\ live (l_state l) = true
  | None => forall l, l ∈ ls -> ~ (l_holder l = Some holder /\ live (l_state l) = true)
  end.
Proof.
  destruct (List.find _ ls) as [l|] eqn:E.
  - apply List.find_some in E as [Hin Hb]. apply andb_true_iff in Hb as [Hb Hl].
    apply bool_decide_eq_true in Hb. apply list_elem_of_In in Hin. done.
  - intros l Hin [Hh Hl]. apply list_elem_of_In in Hin. apply (List.find_none _ _ E) in Hin.
    rewrite bool_decide_eq_true_2 in Hin by done. cbn in Hin. unfold is_live in Hin. congruence.
Qed.

Definition can_claim_b (w : W) (holder : string) : bool :=
  existsb (fun l => bool_decide (l_holder l = Some holder) && live (l_state l)) (w_leases w)
  || existsb (fun l => claimable (l_state l)) (w_leases w).

Lemma can_claim_spec (w : W) holder : can_claim_b w holder = true <-> can_claim w holder.
Proof.
  unfold can_claim_b, can_claim. rewrite orb_true_iff, !existsb_true.
  setoid_rewrite andb_true_iff. setoid_rewrite bool_decide_eq_true. naive_solver.
Qed.

(** Replacing a slot's id by a fresh one removes the old id. *)
Lemma replaced_id_gone (w w' : W) i l0 id :
  lease_wf w -> w_leases w !! i = Some l0 -> id ∉ ids w -> ids w' = <[ i := id ]> (ids w) ->
  l_id l0 ∉ ids w'.
Proof.
  intros [_ Hn _] Hl0 Hf Eids Hin. rewrite Eids in Hin.
  assert (ids w !! i = Some (l_id l0)) as Hi by (unfold ids; by rewrite list_lookup_fmap, Hl0).
  apply list_elem_of_lookup in Hin as [j Hj].
  apply list_lookup_insert_Some in Hj as [(_ & Ej & _)|(Hne & Hj)].
  - destruct Hf. rewrite Ej. by eapply list_elem_of_lookup_2.
  - rewrite NoDup_alt in Hn. by apply Hne, (Hn i j (l_id l0)).
Qed.

(** The two ways a claim returns: the holder's own live lease with its heartbeat
    renewed, or the picked slot under a fresh id, shares aside. *)
Lemma claim_returns holder hint (w : W) :
  Inv w -> terminal (r_state (w_run w)) = false -> can_claim w holder ->
  exists w' l, claim_lease holder hint w = (w', Ok l)
    /\ w_leases w' !! l_slot l = Some l /\ l_holder l = Some holder /\ live (l_state l) = true
    /\ ((ids w' = ids w /\ exists l0, l0 ∈ w_leases w /\ l_slot l0 = l_slot l /\ l_id l0 = l_id l
          /\ l_holder l0 = Some holder /\ live (l_state l0) = true)
        \/ (l_id l = "le_" +:+ token_hex (w_tokens w) /\ l_state l = LClaimed
            /\ exists l0, w_leases w !! l_slot l = Some l0
                /\ next_claimable (w_leases w) hint = Some l0
                /\ ids w' = <[ l_slot l := l_id l ]> (ids w))).
Proof.
  intros Hi Ht Hc. pose proof (inv_leases _ Hi) as Hw.
  unfold claim_lease. unfold_prims. run. rewrite Ht.
  pose proof (find_holder_spec (w_leases w) holder) as Hf.
  destruct (List.find _ (w_leases w)) as [l|].
  - destruct Hf as (Hin & Hh & Hl). eexists _, _. run. split; [reflexivity|].
    change (w_leases (push_event _ _ _ ?w1)) with (w_leases w1).
    set (l' := set_heartbeat (w_now w) l).
    assert (w_leases w !! l_slot l = Some l) as Hlk by (by apply in_leases_lookup).
    split; [|split; [done|split; [done|left; split]]].
    + change (upd_lease (l_slot l) (fun _ => l') (w_leases w) !! l_slot l = Some l').
      by rewrite upd_lease_alter, list_lookup_alter_eq, Hlk.
    + unfold ids. change (l_id <$> upd_lease (l_slot l) (fun _ => l') (w_leases w) = ids w).
      apply fmap_upd_lease. intros l0 Hl0 Hs. by rewrite (lease_wf_unique w l0 l) by done.
    + exists l. done.
  - destruct (next_claimable (w_leases w) hint) as [l|] eqn:En.
    2: { exfalso. pose proof (pick_slot_spec claimable (w_leases w) hint) as Hp.
         fold next_claimable in Hp. rewrite En in Hp.
         destruct Hc as [(l & Hin & Hl)|(l & Hin & Hl)]; [by apply (Hf l)|].
         apply Hp in Hin. congruence. }
    pose proof (next_claimable_in _ _ _ En) as [Hin _].
    assert (w_leases w !! l_slot l = Some l) as Hlk by (by apply in_leases_lookup).
    unfold new_lease_id. run.
    match goal with |- context [upd_lease (l_slot ?x) _] => set (l' := x) end.
    set (w1 := with_leases _ (with_tokens S w)).
    assert (w_leases w1 = <[ l_slot l := l' ]> (w_leases w)) as El1.
    { change (w_leases w1) with (upd_lease (l_slot l) (fun _ => l') (w_leases w)).
      rewrite upd_lease_alter by done. apply list_eq. intros i.
      destruct (decide (l_slot l = i)) as [<-|Hne].
      - rewrite list_lookup_alter_eq, Hlk, list_lookup_insert_eq; [done|].
        by eapply lookup_lt_Some.
      - by rewrite list_lookup_alter_ne, list_lookup_insert_ne. }
    assert (returns shares_only (when (in_state LLost l && negb (bool_decide (r_t0 (w_run w) = None)))
              (reapportion_on_takeover (l_slot l))) w1) as Hre.
    { apply (returns_when _). intros _. apply shares_only_takeover. }
    apply returns_inv in Hre as (w2 & [] & E2 & Hso). erewrite run_bind by exact E2. run.
    assert (w_leases w1 !! l_slot l = Some l') as Hl1.
    { rewrite El1. apply list_lookup_insert_eq. by eapply lookup_lt_Some. }
    destruct (shares_only_lookup _ _ _ _ Hso Hl1) as (l2 & Hl2 & Es & Eid & Eh & Est).
    assert (lease_wf w2) as Hw2.
    { apply (shares_only_wf w1 w2 Hso). eapply (sound_reissue l' w); [done|by exists l|done]. }
    unfold gets. change (w_leases (push_event _ _ _ w2)) with (w_leases w2).
    rewrite (lookup_slot_index w2) by done. rewrite Hl2. cbn [from_option id].
    eexists _, l2. split; [reflexivity|].
    change (w_leases (push_event ?k ?d ?a w2)) with (w_leases w2).
    assert (l_slot l2 = l_slot l) as Esl by exact Es.
    split; [by rewrite Esl|]. split; [by rewrite Eh|]. split; [by rewrite Est|]. right.
    split; [by rewrite Eid|]. split; [by rewrite Est|].
    exists l. split; [by rewrite Esl|]. split; [done|].
    change (ids (push_event _ _ _ w2)) with (ids w2). rewrite (shares_only_ids w1 w2) by done.
    unfold ids. rewrite El1, list_fmap_insert. by rewrite Esl, Eid.
Qed.

Lemma claim_refused_lemma holder hint (w : W) :
  terminal (r_state (w_run w)) = true \/ ~ can_claim w holder ->
  exists d, claim_lease holder hint w = (w, Raise (HTTPException 409 d)).
Proof.
  intros Hc. unfold claim_lease. unfold_prims. run.
  destruct (terminal _) eqn:Ht; [eauto|]. destruct Hc as [|Hc]; [done|].
  pose proof (find_holder_spec (w_leases w) holder) as Hf.
  destruct (List.find _ (w_leases w)) as [l|]; [destruct Hc; left; eauto|].
  destruct (next_claimable _ _) as [l|] eqn:En; [|eauto].
  apply next_claimable_in in En. destruct Hc. right. eauto.
Qed.

(** C8: a claim is served exactly when the run is not terminal and the holder
    already has a live lease or some slot is free or lost, and then the slot of
    the lease it answers is live and the holder's; in every other case it is a
    409 and nothing changes. *)
Theorem claim_served_iff (w : W) holder hint :
  Inv w ->
  (terminal (r_state (w_run w)) = false /\ can_claim w holder ->
     exists w' l, claim_lease holder hint w = (w', Ok l)
       /\ w_leases w' !! l_slot l = Some l /\ l_holder l = Some holder /\ live (l_state l) = true)
  /\ (terminal (r_state (w_run w)) = true \/ ~ can_claim w holder ->
     exists d, claim_lease holder hint w = (w, Raise (HTTPException 409 d))).
Proof.
  intros Hi. split; [|apply claim_refused_lemma]. intros [Ht Hc].
  destruct (claim_returns holder hint w Hi Ht Hc) as (w' & l & E & H1 & H2 & H3 & _). eauto 6.
Qed.

(** the lease a claim returns is the slot's lease, live and held by the
    claimer.  Either it is the live lease this holder already had (a retried
    claim), or it is a free or lost slot (the hinted one if it is, else the
    lowest) under an id that no lease of the run had, and the slot's old id is
    gone. *)
Theorem claim_issues_lease (w w' : W) holder hint l :
  Inv w -> claim_lease holder hint w = (w', Ok l) ->
  w_leases w' !! l_slot l = Some l /\ l_holder l = Some holder /\ live (l_state l) = true
  /\ ((exists l0, l0 ∈ w_leases w /\ l_id l0 = l_id l /\ l_holder l0 = Some holder)
      \/ ((l_id l ∉ ids w)
          /\ exists l0, w_leases w !! l_slot l = Some l0 /\ claimable (l_state l0) = true
              /\ (l_id l0 ∉ ids w')
              /\ (Some (l_slot l) = hint
                  \/ forall l1, l1 ∈ w_leases w -> claimable (l_state l1) = true ->
                       Some (l_slot l1) <> hint /\ (l_slot l <= l_slot l1)%nat))).
Proof.
  intros Hi E. destruct (terminal (r_state (w_run w))) eqn:Ht.
  { destruct (claim_refused_lemma holder hint w) as [d E']; [by left|congruence]. }
  assert (can_claim w holder) as Hc.
  { destruct (decide (can_claim_b w holder = true)) as [Hb|Hb].
    - by apply can_claim_spec.
    - destruct (claim_refused_lemma holder hint w) as [d E']; [|congruence].
      right. intros Hc. by apply Hb, can_claim_spec. }
  destruct (claim_returns holder hint w Hi Ht Hc) as (w1 & l1 & E1 & H1 & H2 & H3 & H4).
  rewrite E in E1. injection E1 as <- <-. split; [done|]. split; [done|]. split; [done|].
  destruct H4 as [(_ & l0 & ? & ? & ? & ? & ?)|(Hid & Hst & l0 & Hl0 & En & Eids)]; [left; eauto|].
  right. pose proof (inv_leases _ Hi) as Hw. pose proof (token_fresh w Hw) as Hf.
  rewrite <- Hid in Hf. split; [done|]. exists l0. split; [done|].
  pose proof (pick_slot_spec claimable (w_leases w) hint) as Hp.
  fold next_claimable in Hp. rewrite En in Hp. destruct Hp as (_ & Hcl & Hmin).
  rewrite (lease_index _ _ _ Hw Hl0) in Hmin. split; [done|]. split; [|done].
  by eapply replaced_id_gone.
Qed.

(** ** Fencing *)

Lemma not_holder_unchanged (w : W) slot id p s tail :
  is_lease_holder (lookup_slot slot (w_leases w)) (Some id) = false ->
  record_heartbeat slot (Some id) p w = (w, Ok (mkResponse Superseded None None))
  /\ fst (record_final slot s tail (Some id) w) = w
  /\ exists d, mark_ready slot (Some id) w = (w, Raise (HTTPException 409 d)).
Proof.
  intros Hn. unfold record_heartbeat, record_final, mark_ready, find_lease. run.
  destruct (lookup_slot slot (w_leases w)) as [l|]; [|eauto].
  rewrite Hn. cbn [negb]. eauto.
Qed.

(** a worker whose lease id is not the slot's is fenced off: its heartbeat
    answers [superseded], its ready is a 409, its final is ignored, and none of
    them changes anything. *)
Theorem stale_worker_fenced (w : W) slot id p s tail :
  is_lease_holder (lookup_slot slot (w_leases w)) (Some id) = false ->
  record_heartbeat slot (Some id) p w = (w, Ok (mkResponse Superseded None None))
  /\ fst (record_final slot s tail (Some id) w) = w
  /\ exists d, mark_ready slot (Some id) w = (w, Raise (HTTPException 409 d)).
Proof. apply not_holder_unchanged. Qed.

(** An id that is gone stays gone: every later id was drawn later. *)
Lemma id_never_returns (w w' : W) id :
  Inv w -> reachable w w' -> id ∉ ids w ->
  (exists n, (n < w_tokens w)%nat /\ id = "le_" +:+ token_hex n) -> id ∉ ids w'.
Proof.
  intros Hi Hr Hid (n & Hn & ->) Hin. destruct (reachable_sound w w' Hr Hi) as [_ Hh].
  destruct (hi_ids _ _ Hh _ Hin) as [?|(m & Hm & Heq)]; [done|].
  apply (inj (String.append "le_")), (inj token_hex) in Heq. lia.
Qed.

Lemma absent_not_holder (w : W) slot id :
  id ∉ ids w -> is_lease_holder (lookup_slot slot (w_leases w)) (Some id) = false.
Proof.
  intros Hid. destruct (lookup_slot slot (w_leases w)) as [l|] eqn:E; [|done]. cbn.
  apply bool_decide_eq_false. intros [= ->]. apply Hid.
  apply List.find_some in E as [Hin _]. apply list_elem_of_fmap. exists l.
  split; [done|]. by apply list_elem_of_In.
Qed.

(** C4: a takeover supersedes for good.  When a claim by a holder without a
    live lease is served with a slot whose lease had the id [old], then in every
    later state of the run, on every slot, a heartbeat under [old] is answered
    [superseded], a ready under it is a 409, a final under it is ignored, and
    none of them changes anything. *)
Theorem takeover_supersedes_forever (w w' w2 : W) holder hint l old slot p s tail :
  Inv w -> claim_lease holder hint w = (w', Ok l) ->
  (forall l0, l0 ∈ w_leases w -> l_holder l0 = Some holder -> live (l_state l0) = false) ->
  l_id <$> (w_leases w !! l_slot l) = Some old ->
  reachable w' w2 ->
  record_heartbeat slot (Some old) p w2 = (w2, Ok (mkResponse Superseded None None))
  /\ fst (record_final slot s tail (Some old) w2) = w2
  /\ exists d, mark_ready slot (Some old) w2 = (w2, Raise (HTTPException 409 d)).
Proof.
  intros Hi E Hnew Hold Hr. destruct (w_leases w !! l_slot l) as [l0|] eqn:Hl0; [|done].
  injection Hold as <-. pose proof (inv_leases _ Hi) as Hw.
  assert (can_claim w holder /\ terminal (r_state (w_run w)) = false) as [Hc Ht].
  { destruct (decide (can_claim_b w holder = true)) as [Hb%can_claim_spec|Hb];
      (destruct (terminal _) eqn:Ht; [|]); try done;
      (destruct (claim_refused_lemma holder hint w) as [d E']; [|congruence]); auto.
    right. by intros ?%can_claim_spec. }
  destruct (claim_returns holder hint w Hi Ht Hc) as (w1 & l1 & E1 & H1 & H2 & H3 & H4).
  rewrite E in E1. injection E1 as <- <-.
  pose proof (sound_claim_lease holder hint w Hi) as Hs. rewrite E in Hs. destruct Hs as [Hi' He].
  apply not_holder_unchanged, absent_not_holder.
  eapply id_never_returns; [exact Hi'|exact Hr|..].
  - destruct H4 as [(_ & l2 & Hin & _ & _ & Hh2 & Hl2)|(Hid & _ & l2 & Hl2 & _ & Eids)].
    + by rewrite (Hnew l2 Hin Hh2) in Hl2.
    + eapply replaced_id_gone; eauto. rewrite Hid. by apply token_fresh.
  - destruct (lw_drawn _ Hw (l_id l0)) as (n & Hn & Hd).
    { apply list_elem_of_fmap. exists l0. split; [done|]. by eapply list_elem_of_lookup_2. }
    exists n. split; [|done]. pose proof (ev_tokens _ _ He). cbn in *. lia.
Qed.
End Fencing.

(** ** Witnesses *)

(** A released run whose slot 0 has lapsed. *)
Definition demo_lapsed : world FakeDriver :=
  with_leases (upd_lease 0 (set_lstate LLost)) demo_released.

Lemma demo_lapsed_inv : Inv demo_lapsed.
Proof. apply (sound_on_lease 0 (set_lstate LLost) demo_released); [done|done|apply demo_released_inv]. Qed.

Lemma claim_served_iff_witness :
  (terminal (r_state (w_run demo_run)) = false /\ can_claim demo_run "d" ->
     exists w' l, claim_lease "d" None demo_run = (w', Ok l)
       /\ w_leases w' !! l_slot l = Some l /\ l_holder l = Some "d" /\ live (l_state l) = true)
  /\ (terminal (r_state (w_run demo_run)) = true \/ ~ can_claim demo_run "d" ->
     exists d, claim_lease "d" None demo_run = (demo_run, Raise (HTTPException 409 d))).
Proof. apply (claim_served_iff demo_run "d" None). apply demo_run_inv. Defined.

Definition demo_claim := claim_lease "d" None demo_lapsed.

Definition lease_of (r : result WorkerLease) : WorkerLease :=
  match r with Ok l => l | Raise _ => free_lease 0 ∅ "" end.

Lemma demo_claim_ok : claim_lease "d" None demo_lapsed = (fst demo_claim, Ok (lease_of (snd demo_claim))).
Proof. vm_compute. reflexivity. Qed.

Lemma claim_issues_lease_witness :
  let l := lease_of (snd demo_claim) in
  let w' := fst demo_claim in
  w_leases w' !! l_slot l = Some l /\ l_holder l = Some "d" /\ live (l_state l) = true
  /\ ((exists l0, l0 ∈ w_leases demo_lapsed /\ l_id l0 = l_id l /\ l_holder l0 = Some "d")
      \/ ((l_id l ∉ ids demo_lapsed)
          /\ exists l0, w_leases demo_lapsed !! l_slot l = Some l0 /\ claimable (l_state l0) = true
              /\ (l_id l0 ∉ ids w')
              /\ (Some (l_slot l) = None
                  \/ forall l1, l1 ∈ w_leases demo_lapsed -> claimable (l_state l1) = true ->
                       Some (l_slot l1) <> None /\ (l_slot l <= l_slot l1)%nat))).
Proof.
  apply (claim_issues_lease demo_lapsed (fst demo_claim) "d" None (lease_of (snd demo_claim))).
  - apply demo_lapsed_inv.
  - apply demo_claim_ok.
Defined.

Lemma stale_worker_fenced_witness :
  record_heartbeat 0 (Some "le_1") ∅ demo_released
    = (demo_released, Ok (mkResponse Superseded None None))
  /\ fst (record_final 0 [] [] (Some "le_1") demo_released) = demo_released
  /\ exists d, mark_ready 0 (Some "le_1") demo_released = (demo_released, Raise (HTTPException 409 d)).
Proof. apply (stale_worker_fenced demo_released 0 "le_1" ∅ [] []). vm_compute. reflexivity. Defined.

Lemma takeover_supersedes_forever_witness :
  record_heartbeat 0 (Some "le_4") ∅ (fst demo_claim)
    = (fst demo_claim, Ok (mkResponse Superseded None None))
  /\ fst (record_final 0 [] [] (Some "le_4") (fst demo_claim)) = fst demo_claim
  /\ exists d, mark_ready 0 (Some "le_4") (fst demo_claim)
       = (fst demo_claim, Raise (HTTPException 409 d)).
Proof.
  apply (takeover_supersedes_forever demo_lapsed (fst demo_claim) (fst demo_claim) "d" None
           (lease_of (snd demo_claim)) "le_4" 0 ∅ [] []).
  - apply demo_lapsed_inv.
  - apply demo_claim_ok.
  - assert (forallb (fun l => negb (bool_decide (l_holder l = Some "d") && live (l_state l)))
      (w_leases demo_lapsed) = true) as Hf by (vm_compute; reflexivity).
    intros l0 Hin%list_elem_of_In Hh. apply (proj1 (forallb_forall _ _) Hf) in Hin.
    by rewrite bool_decide_eq_true_2 in Hin by done; destruct (live (l_state l0)).
  - vm_compute. reflexivity.
  - apply rtc_refl.
Defined.
